(* ===== verification/_CoqProject ===== *)
-Q . S2P
Prelude.v
FsTypes.v
BufferCache.v
FsFile.v
FsNode.v
TimeArith.v
FsServer.v
FsServerInv.v
FsServerOps.v
FsMarshall.v
FsReach.v
FsServerSpec.v
FsNamespace.v
FsLifetime.v
FsListing.v
FsDirCache.v
FsClient.v
FsClientSpec.v
FsClientRmdir.v
FsClientRename.v
FsClientFile.v
FsClientFileSpec.v
FsClientSession.v
FsClientListing.v
FsClientPipe.v
Containers.v
SpaceAlloc.v
FdTable.v
Posix.v
FdCounts.v
FsReplies.v
PosixFork.v
CText.v
ExecEnv.v
ExecSpec.v
ExecProcess.v
PosixSystem.v
Lock.v
Channel.v
ChannelSpec.v
Dispatch.v
Threading.v
ThreadingSpec.v
ThreadingRefine.v
NameServer.v
NetChecksum.v
InetAddr.v
KconfExpr.v
KconfSpec.v
KconfSimplify.v
KconfDups.v
KconfMenu.v
