(* ===== verification/Prelude.v ===== *)
(** * Verification of faux (the Hare file system and its user-level runtime)

    ** The program

    faux runs a distributed, in-memory POSIX file system between the cores of one
    machine.  A number of file servers ([src/sys/fs/]) hold inodes, directory
    entries and file data; a directory may be shared, and then its entries are
    spread over all servers by a hash of the name.  A client library linked into
    every process ([src/sys/fs/lib/]) turns system calls into requests, keeps a
    cache of directory entries, and reads and writes file blocks directly in the
    shared buffer cache.  Client and servers exchange messages through rings in shared
    memory ([src/messaging/]); a dispatcher matches responses to requests and
    runs handlers, on cooperative threads.  A name server ([src/name/]) tells where
    the servers are.  The system calls of a process ([src/libs/basicp/]) go through a
    table of descriptors ([src/libs/fd/]) to the client library or to the kernel;
    a process that is cloned, or replaced by another program, passes its
    descriptors on.  Bit arrays, number allocators, locks and time arithmetic
    are in [src/libs/utilities/], container templates in [src/common/include/].  The tree
    also has a network stack ([src/lwip/]) and the program that configures the build
    ([src/common/kconfig/]).

    ** Method

    C and C++ functions are Rocq functions in the monad [M S A] of this file: a
    state of type [S] is passed along, and the outcome is a value ([Done]), a
    failed assertion ([Abort]), behaviour the language leaves undefined
    ([Undef]), or a loop that did not end within the given fuel ([Timeout]).
    [wp m Q s] says that [m] ends in [Done] with a result and a state in [Q];
    theorems that say that code returns are stated with it, so that running
    out of fuel, failing an assertion and undefined behaviour are all excluded.
    [wlp] is the partial version, used where the code may stop the server.
    Machine integers are [Z] with the truncation ([u8] ... [i64]) written where
    the code converts.  The configuration ([Config]) and values from outside, such as clocks,
    [rand], uninitialised memory and iteration order of hash tables ([Env]), are
    type classes.

    ** Files

    The file server.
    - [FsTypes]: [sys/fs/include/fs.h] and [interface.h]; status codes, inodes, the
      hash that places a name on a server.
    - [BufferCache]: [sys/fs/buffer_cache.cpp]; the division of the shared memory and
      the free list of blocks.
    - [FsFile], [FsNode]: [sys/fs/file.cpp]; files on blocks, directories, pipes,
      symbolic links, descriptors.
    - [FsServer]: [sys/fs/server.cpp]; the state of a server as a record and one
      definition per operation.
    - [FsMarshall]: [sys/fs/marshall.cpp]; one handler per message, [handle].
    - [FsServerInv], [FsServerOps], [FsReach]: the invariant, that each operation and
      each handler keeps it, and the states a server reaches.
    - [FsServerSpec], [FsNamespace], [FsLifetime], [FsListing]: what the operations do.
    - [FdCounts], [FsReplies]: the counts of descriptors, and the structure of replies.

    The client.
    - [FsDirCache]: [sys/fs/lib/dir_cache.cpp].
    - [FsClient]: [sys/fs/lib/lib.cpp] and [dir.cpp]; a world of servers, the
      requests ([rpc]) and the calls built from them.
    - [FsClientSpec], [FsClientRmdir], [FsClientRename]: how calls act on all servers.
    - [FsClientFile], [FsClientFileSpec], [FsClientSession]: [sys/fs/lib/file.cpp] and
      [buffer_cache.cpp]; an open file that is read and written in the shared memory.
    - [FsClientListing]: [sys/fs/lib/dir.cpp]; reading a directory to its end.
    - [FsClientPipe]: [sys/fs/lib/pipe.cpp]; reads and writes as interleaved steps.

    Processes.
    - [Posix]: [libs/basicp], [sys/fs/lib/file_wrapper.cpp] and [misc.cpp]; the state
      of a process and its system calls on descriptors.
    - [PosixFork]: the invariant of a process, kept by every call.
    - [CText]: numbers and names in C strings.
    - [ExecEnv], [ExecSpec], [ExecProcess]: [libs/basicp/exec.c] and [start.c];
      descriptors in the environment of a new program.
    - [PosixSystem]: any number of processes and their servers.

    The runtime.
    - [Containers]: [common/include/circular_queue.hpp], [map.hpp], [pool.hpp].
    - [SpaceAlloc]: [libs/utilities/space_alloc.c] and [bitarray.h].
    - [FdTable]: [libs/fd/fd.c].
    - [Lock]: [libs/utilities/lock.c] and the spin lock.
    - [TimeArith]: [libs/utilities/time_arith.c].
    - [Channel], [ChannelSpec]: [messaging/include/channel.h].
    - [Dispatch]: [messaging/dispatch.cpp].
    - [Threading], [ThreadingSpec], [ThreadingRefine]: [messaging/threading.cpp].
    - [NameServer]: [name/nameserver.cpp].

    Network and configuration.
    - [NetChecksum], [InetAddr]: [lwip/src/core/ipv4/inet_chksum.c] and [inet.c].
    - [KconfExpr], [KconfSpec], [KconfSimplify], [KconfDups], [KconfMenu]:
      [common/kconfig/expr.c] and its use by [menu.c].

    ** What is shown

    - A server: in every reachable state no block of the buffer cache belongs to
      two files or is both free and used, and a request changes the contents of no
      file but the one it names ([server_blocks_disjoint],
      [server_contents_isolated]).  Directories refine a finite map
      ([namespace_refines_map]); listings return the entries page by page;
      reading, writing and truncating do what their list specifications say, and
      a descriptor reads back what was written through it; a file that
      is unlinked while one descriptor is open, shared by any number of uses, lives
      until the last of them closes it; inode numbers do not repeat.  Every reply is the
      structure of its request, with the members that belong to its status and no more
      bytes than were allocated ([replies_conform]).
    - The client with its servers: removing a directory that is spread over all servers is all
      or nothing; a rename moves one entry whether it takes one message or two, and
      deletes the file that had the new name ([rename_moves], [rename_replaces]).
      An open file refines a list of bytes with a position, through the shared
      memory and its blocks ([client_file_refines]); a directory is read to its end
      in a bounded number of calls, each entry once; pipes neither lose nor repeat
      bytes, however processes interleave.
    - Processes: whatever any number of processes do, are cloned, run other programs
      and exit, a server counts as many uses of a descriptor as there are objects for
      it ([descriptors_balanced]); a new program finds under each number what
      the old one had there ([exec_passes_descriptors]).  The first is shown for runs in
      which what the code does not check goes well: at most 32 numbers in a table
      ([needs_room]), random descriptors that are unused, memory for every open, and no
      pipes of the servers ([lucky]).
    - The runtime: a channel whose ends make one call at a time is a queue, as long as
      the ring is not left full with its oldest message in use ([roomy]); a
      dispatcher gives each transaction its own response, the threads refine a
      first-in first-out scheduler, the name server refines a set of
      registrations and serves replicas in turn, the descriptor table refines a
      map, the reader-writer lock excludes and does not deadlock, and the containers refine
      lists and maps within their capacity.
    - Network: the three versions of the checksum agree, a chain of buffers has the
      checksum of its bytes, a packet with its checksum verifies, and addresses are
      read back from their text.
    - Configuration: the simplifications of a condition end and keep its value,
      duplicates where no symbol is [m], and menu entries are nested soundly where no
      symbol is [m].
    - Errors: theorems whose names say what is lost or what stops exhibit
      behaviour of the code that its comments or its callers do not expect.

    ** Bounds and fuel

    Loops that are not structural take fuel computed from their arguments
    (for instance [loop_fuel], [gc_fuel], [transform_fuel], [dups_fuel], and the
    length of its list for [read_fds]), and the theorems about them are stated
    with [wp], so the fuel is shown to be enough.  The loops that wait for a
    message take the number of messages that will arrive.  Numbers are printed with
    up to 64 digits, more than any machine integer has.  The theorems on [exec]
    need at most 1000 descriptors, so that their list fits its buffer of 4096.  Statements on inode
    numbers and file sizes carry the bounds under which the code's integers do
    not wrap.

    ** Not modelled

    - The drivers in [netmap/], the rest of the network stack in [lwip/], and the servers
      that drive them ([link/], [sys/net/]): third-party code that works on raw memory
      through unions and casts, and device I/O.
    - The parser, the files and the user interfaces of [common/kconfig]; the result of
      the program is [Config].
    - The registers and stacks of a context: of a context switch, [Threading] has who
      runs next.
    - The start of a process on another core ([sys/sched], [sys/server]), the loading
      of an ELF image and the scripts that are run with a shell ([libs/basicp/exec.c]
      after the environment is built), mapping of shared memory and signal handling:
      these are operations of the operating system and the processor.
    - The wrappers in [libs/basicp] that pass one system call on to the client library.
    - Tests, benchmarks and example programs. *)

From stdpp Require Export base tactics option list list_numbers numbers.
From stdpp Require Export gmap fin_maps strings pretty.
From Stdlib Require Export ZArith Lia.
From Stdlib Require Ascii.

#[export] Set Default Goal Selector "!".
Open Scope Z_scope.

(** ** Machine integers

    An integer of the source is a [Z]; the conversions below are the
    truncations the C++ code performs at assignments and casts. *)

Definition u8 (z : Z) : Z := z mod 2 ^ 8.
Definition u16 (z : Z) : Z := z mod 2 ^ 16.
Definition u32 (z : Z) : Z := z mod 2 ^ 32.
Definition u64 (z : Z) : Z := z mod 2 ^ 64.
Definition i8 (z : Z) : Z := (z + 2 ^ 7) mod 2 ^ 8 - 2 ^ 7.
Definition i32 (z : Z) : Z := (z + 2 ^ 31) mod 2 ^ 32 - 2 ^ 31.
Definition i64 (z : Z) : Z := (z + 2 ^ 63) mod 2 ^ 64 - 2 ^ 63.

Definition UINT32_MAX : Z := 2 ^ 32 - 1.
Definition UINT64_MAX : Z := 2 ^ 64 - 1.
Definition INT32_MAX : Z := 2 ^ 31 - 1.

Lemma u32_small z : 0 <= z < 2 ^ 32 -> u32 z = z.
Proof. apply Z.mod_small. Qed.

Lemma u64_small z : 0 <= z < 2 ^ 64 -> u64 z = z.
Proof. apply Z.mod_small. Qed.

Lemma u32_range z : 0 <= u32 z < 2 ^ 32.
Proof. by apply Z.mod_pos_bound. Qed.

Lemma u64_range z : 0 <= u64 z < 2 ^ 64.
Proof. by apply Z.mod_pos_bound. Qed.

Lemma i32_small z : - 2 ^ 31 <= z < 2 ^ 31 -> i32 z = z.
Proof. intros. unfold i32. rewrite Z.mod_small; lia. Qed.

Lemma i64_small z : - 2 ^ 63 <= z < 2 ^ 63 -> i64 z = z.
Proof. intros. unfold i64. rewrite Z.mod_small; lia. Qed.

(** [x & (2^k - 1)] is [x mod 2^k], the form in which the code computes
    offsets inside a block or a cache line. *)
Lemma land_pow2_mask x k : 0 <= k -> Z.land x (2 ^ k - 1) = x mod 2 ^ k.
Proof.
  intros Hk. rewrite <- Z.land_ones by lia. f_equal.
  rewrite Z.ones_equiv. lia.
Qed.

(** A number below [2^k] has no bit at or above [k]. *)
Lemma testbit_above lo k n : 0 <= lo < 2 ^ k -> k <= n -> Z.testbit lo n = false.
Proof.
  intros Hlo Hn. destruct (decide (lo = 0)) as [->|]; [apply Z.bits_0|].
  apply Z.bits_above_log2; [lia|]. apply Z.lt_le_trans with k; [|done].
  apply Z.log2_lt_pow2; lia.
Qed.

(** Bitwise-or of two numbers with no common bit is their sum. *)
Lemma lor_disjoint_add hi lo k :
  0 <= k -> 0 <= lo < 2 ^ k -> Z.lor lo (Z.shiftl hi k) = lo + hi * 2 ^ k.
Proof.
  intros Hk Hlo. rewrite <- Z.shiftl_mul_pow2 by lia. symmetry.
  rewrite Z.add_nocarry_lxor;
    apply Z.bits_inj'; intros n Hn;
    rewrite ?Z.land_spec, ?Z.lxor_spec, ?Z.lor_spec, ?Z.bits_0;
    (destruct (Z.lt_ge_cases n k);
     [rewrite Z.shiftl_spec_low by lia | rewrite (testbit_above lo k n) by lia]);
    by destruct (Z.testbit lo n), (Z.testbit (Z.shiftl hi k) n).
Qed.

(** ** Outcomes of a call

    [Done a s] returns [a] in state [s]; [Abort] is a failed [assert];
    [Undef] is an execution whose next step the language leaves undefined
    (an iterator past the end dereferenced, a vector indexed out of range, a
    [static_cast] to a class the object does not have); [Timeout] is a loop
    that used up the fuel its definition gives it. *)

Inductive outcome (S A : Type) : Type :=
| Done (a : A) (s : S)
| Abort
| Undef
| Timeout.

Arguments Done {S A}.
Arguments Abort {S A}.
Arguments Undef {S A}.
Arguments Timeout {S A}.

Definition M (S A : Type) : Type := S -> outcome S A.

#[export] Instance M_ret S : MRet (M S) := fun _ a s => Done a s.
#[export] Instance M_bind S : MBind (M S) := fun _ _ f m s =>
  match m s with
  | Done a s' => f a s'
  | Abort => Abort
  | Undef => Undef
  | Timeout => Timeout
  end.

Definition gets {S A} (f : S -> A) : M S A := fun s => Done (f s) s.
Definition modify {S} (f : S -> S) : M S unit := fun s => Done tt (f s).
Definition abort {S A} : M S A := fun _ => Abort.
Definition undef {S A} : M S A := fun _ => Undef.
Definition timeout {S A} : M S A := fun _ => Timeout.

(** [assert(b)] *)
Definition assert_ {S} (b : bool) : M S unit := if b then mret tt else abort.

(** Dereference of a pointer or an iterator that may be invalid. *)
Definition deref {S A} (o : option A) : M S A :=
  match o with Some a => mret a | None => undef end.

(** A call on a part of the state, the part put back afterwards. *)
Definition zoom {S T A} (get : S -> T) (put : T -> S -> S) (m : M T A) : M S A :=
  fun s => match m (get s) with
           | Done a t => Done a (put t s)
           | Abort => Abort
           | Undef => Undef
           | Timeout => Timeout
           end.

(** ** Weakest preconditions

    [wp m Q s]: [m] run in [s] returns, fails no assertion, has defined
    behaviour, and [Q] holds of its result.  [wlp m Q s]: if [m] returns, [Q]
    holds of its result. *)

Definition wp {S A} (m : M S A) (Q : A -> S -> Prop) (s : S) : Prop :=
  match m s with Done a s' => Q a s' | _ => False end.

Definition wlp {S A} (m : M S A) (Q : A -> S -> Prop) (s : S) : Prop :=
  match m s with Done a s' => Q a s' | _ => True end.

Section Wp.
Context {S : Type}.
Implicit Type s : S.

Lemma wp_Done {A} (m : M S A) Q s :
  wp m Q s <-> exists a s', m s = Done a s' /\ Q a s'.
Proof. unfold wp. destruct (m s); naive_solver. Qed.

Lemma wlp_Done {A} (m : M S A) Q s :
  wlp m Q s <-> forall a s', m s = Done a s' -> Q a s'.
Proof. unfold wlp. destruct (m s); naive_solver. Qed.

Lemma wp_wlp {A} (m : M S A) Q s : wp m Q s -> wlp m Q s.
Proof. unfold wp, wlp. by destruct (m s). Qed.

Lemma wlp_mono {A} (m : M S A) (Q Q' : A -> S -> Prop) s :
  wlp m Q s -> (forall a s', Q a s' -> Q' a s') -> wlp m Q' s.
Proof. unfold wlp. destruct (m s); eauto. Qed.

Lemma wp_mono {A} (m : M S A) (Q Q' : A -> S -> Prop) s :
  wp m Q s -> (forall a s', Q a s' -> Q' a s') -> wp m Q' s.
Proof. unfold wp. destruct (m s); eauto. Qed.

Lemma wlp_ret {A} (a : A) (Q : A -> S -> Prop) s : Q a s -> wlp (mret a) Q s.
Proof. done. Qed.

Lemma wlp_bind {A B} (m : M S A) (f : A -> M S B) Q s :
  wlp m (fun a s' => wlp (f a) Q s') s -> wlp (m ≫= f) Q s.
Proof. unfold wlp, mbind, M_bind. by destruct (m s). Qed.

Lemma wp_bind {A B} (m : M S A) (f : A -> M S B) Q s :
  wp m (fun a s' => wp (f a) Q s') s -> wp (m ≫= f) Q s.
Proof. unfold wp, mbind, M_bind. by destruct (m s). Qed.

Lemma wlp_gets {A} (f : S -> A) (Q : A -> S -> Prop) s : Q (f s) s -> wlp (gets f) Q s.
Proof. done. Qed.

Lemma wlp_modify (f : S -> S) (Q : unit -> S -> Prop) s : Q tt (f s) -> wlp (modify f) Q s.
Proof. done. Qed.

Lemma wlp_abort {A} (Q : A -> S -> Prop) s : wlp abort Q s.
Proof. done. Qed.

Lemma wlp_undef {A} (Q : A -> S -> Prop) s : wlp undef Q s.
Proof. done. Qed.

Lemma wlp_timeout {A} (Q : A -> S -> Prop) s : wlp timeout Q s.
Proof. done. Qed.

Lemma wlp_assert b (Q : unit -> S -> Prop) s : (b = true -> Q tt s) -> wlp (assert_ b) Q s.
Proof. destruct b; [intros HQ; by apply HQ|done]. Qed.

Lemma wlp_deref {A} (o : option A) (Q : A -> S -> Prop) s :
  (forall a, o = Some a -> Q a s) -> wlp (deref o) Q s.
Proof. destruct o; [intros HQ; by apply HQ|done]. Qed.

Lemma wlp_zoom {T A} (get : S -> T) put (m : M T A) (Q : A -> S -> Prop) s :
  wlp m (fun a t => Q a (put t s)) (get s) -> wlp (zoom get put m) Q s.
Proof. unfold wlp, zoom. by destruct (m (get s)). Qed.

Lemma wp_zoom {T A} (get : S -> T) put (m : M T A) (Q : A -> S -> Prop) s :
  wp m (fun a t => Q a (put t s)) (get s) -> wp (zoom get put m) Q s.
Proof. unfold wp, zoom. by destruct (m (get s)). Qed.

Lemma wp_ret {A} (a : A) (Q : A -> S -> Prop) s : Q a s -> wp (mret a) Q s.
Proof. done. Qed.

Lemma wp_gets {A} (f : S -> A) (Q : A -> S -> Prop) s : Q (f s) s -> wp (gets f) Q s.
Proof. done. Qed.

Lemma wp_modify (f : S -> S) (Q : unit -> S -> Prop) s : Q tt (f s) -> wp (modify f) Q s.
Proof. done. Qed.

Lemma wp_assert b (Q : unit -> S -> Prop) s : b = true -> Q tt s -> wp (assert_ b) Q s.
Proof. by intros ->. Qed.

Lemma wp_deref {A} (o : option A) a (Q : A -> S -> Prop) s : o = Some a -> Q a s -> wp (deref o) Q s.
Proof. by intros ->. Qed.

Lemma wp_and {A} (m : M S A) (P Q : A -> S -> Prop) s :
  wp m P s -> wlp m Q s -> wp m (fun a s' => P a s' /\ Q a s') s.
Proof. unfold wp, wlp. by destruct (m s). Qed.

Lemma wlp_true {A} (m : M S A) (Q : A -> S -> Prop) s : (forall a s', Q a s') -> wlp m Q s.
Proof. unfold wlp. destruct (m s); eauto. Qed.

Lemma wlp_and {A} (m : M S A) (P Q : A -> S -> Prop) s :
  wlp m P s -> wlp m Q s -> wlp m (fun a s' => P a s' /\ Q a s') s.
Proof. unfold wlp. by destruct (m s). Qed.

Lemma wlp_seq_ret {A B} (m : M S A) (b : B) (P : S -> Prop) s :
  wlp m (fun _ => P) s -> wlp (m ;; mret b) (fun _ => P) s.
Proof. unfold wlp, mbind, M_bind. by destruct (m s). Qed.

Lemma bind_Done {A B} (m : M S A) (f : A -> M S B) s b s'' :
  (m ≫= f) s = Done b s'' <-> exists a s', m s = Done a s' /\ f a s' = Done b s''.
Proof. unfold mbind, M_bind. destruct (m s); naive_solver. Qed.
End Wp.

(** The rules, as hints: [wlp_step] takes one step of the symbolic
    execution of the goal, [wlp_steps] as many as it can. *)
Create HintDb wlp discriminated.
#[export] Hint Resolve wlp_ret wlp_abort wlp_undef wlp_timeout : wlp.

Ltac wlp_step :=
  lazymatch goal with
  | |- wlp (mbind _ _) _ _ => apply wlp_bind
  | |- wlp (mret _) _ _ => apply wlp_ret
  | |- wlp (gets _) _ _ => apply wlp_gets
  | |- wlp (modify _) _ _ => apply wlp_modify
  | |- wlp abort _ _ => apply wlp_abort
  | |- wlp undef _ _ => apply wlp_undef
  | |- wlp timeout _ _ => apply wlp_timeout
  | |- wlp (assert_ _) _ _ => apply wlp_assert; intros ?
  | |- wlp (deref _) _ _ => apply wlp_deref; intros ? ?
  | |- wlp (match ?x with _ => _ end) _ _ => destruct x eqn:?
  | |- wlp (if ?x then _ else _) _ _ => destruct x eqn:?
  end.
Ltac wlp_steps := repeat (wlp_step; simpl in *).

(** ** What a computation keeps *)

(** If [m] returns, [f] of the state is what it was. *)
Definition keeps {S T A} (f : S -> T) (m : M S A) : Prop := forall s, wlp m (fun _ s' => f s' = f s) s.

Section Keeps.
Context {S T : Type}.
Variable f : S -> T.

Lemma keeps_bind {A B} (m : M S A) (k : A -> M S B) : keeps f m -> (forall a, keeps f (k a)) -> keeps f (m ≫= k).
Proof.
  intros Hm Hk s. apply wlp_bind. eapply wlp_mono; [apply Hm|]. intros a s' Hs.
  eapply wlp_mono; [apply Hk|]. intros b s'' Hs'. by rewrite Hs'.
Qed.
Lemma keeps_ret {A} (a : A) : keeps f (mret a).
Proof. intros s. by apply wlp_ret. Qed.
Lemma keeps_gets {A} (g : S -> A) : keeps f (gets g).
Proof. intros s. by apply wlp_gets. Qed.
Lemma keeps_abort {A} : keeps f (abort : M S A).
Proof. intros s. apply wlp_abort. Qed.
Lemma keeps_undef {A} : keeps f (undef : M S A).
Proof. intros s. apply wlp_undef. Qed.
Lemma keeps_timeout {A} : keeps f (timeout : M S A).
Proof. intros s. apply wlp_timeout. Qed.
Lemma keeps_assert b : keeps f (assert_ b : M S unit).
Proof. intros s. by apply wlp_assert. Qed.
Lemma keeps_deref {A} (o : option A) : keeps f (deref o : M S A).
Proof. intros s. by apply wlp_deref. Qed.
Lemma keeps_modify (g : S -> S) : (forall s, f (g s) = f s) -> keeps f (modify g).
Proof. intros Hg s. by apply wlp_modify. Qed.
Lemma keeps_zoom {U A} (get : S -> U) put (m : M U A) :
  (forall u s, f (put u s) = f s) -> keeps f (zoom get put m).
Proof. intros Hp s. apply wlp_zoom, wlp_true. auto. Qed.
End Keeps.

Create HintDb keeps discriminated.
#[export] Hint Resolve keeps_ret keeps_gets keeps_abort keeps_undef keeps_timeout keeps_assert keeps_deref : keeps.

(** One step along the structure of a computation. *)
Ltac keeps_step :=
  match goal with
  | |- forall _, _ => intro
  | |- keeps _ (mbind _ _) => apply keeps_bind
  | |- keeps _ (modify _) => apply keeps_modify; intros; reflexivity
  | |- keeps _ (zoom _ _ _) => apply keeps_zoom; intros; reflexivity
  | |- keeps _ (match ?x with _ => _ end) => destruct x
  | |- keeps _ (if ?x then _ else _) => destruct x
  | |- keeps _ _ => solve [eauto 2 with keeps]
  end.
Ltac keeps_steps := repeat (keeps_step; cbv zeta).

(** ** What a computation returns *)

(** If [m] returns, its result has property [P]. *)
Definition gives {S A} (P : A -> Prop) (m : M S A) : Prop := forall s, wlp m (fun a _ => P a) s.

Lemma gives_bind {S A B} (P : A -> Prop) (Q : B -> Prop) (m : M S A) k :
  gives P m -> (forall a, P a -> gives Q (k a)) -> gives Q (m ≫= k).
Proof. intros Hm Hk s. apply wlp_bind. eapply wlp_mono; [apply Hm|]. intros a s' Ha. by apply Hk. Qed.
Lemma gives_then {S A B} (Q : B -> Prop) (m : M S A) k : (forall a, gives Q (k a)) -> gives Q (m ≫= k).
Proof. intros Hk s. apply wlp_bind, wlp_true. intros a s'. apply Hk. Qed.
Lemma gives_ret {S A} (P : A -> Prop) a : P a -> gives P (mret a : M S A).
Proof. intros Ha s. by apply wlp_ret. Qed.
Lemma gives_abort {S A} (P : A -> Prop) : gives P (abort : M S A).
Proof. intros s. apply wlp_abort. Qed.
Lemma gives_undef {S A} (P : A -> Prop) : gives P (undef : M S A).
Proof. intros s. apply wlp_undef. Qed.
Lemma gives_timeout {S A} (P : A -> Prop) : gives P (timeout : M S A).
Proof. intros s. apply wlp_timeout. Qed.

Lemma gives_mono {S A} (P Q : A -> Prop) (m : M S A) : gives P m -> (forall a, P a -> Q a) -> gives Q m.
Proof. intros Hm Hpq s. eapply wlp_mono; [apply Hm|]. auto. Qed.

Lemma gives_assert {S A} (Q : A -> Prop) b (m : M S A) : (b = true -> gives Q m) -> gives Q (assert_ b;; m).
Proof. intros Hm. destruct b; [|intros s; apply wlp_bind, wlp_abort]. apply gives_then. intros _. by apply Hm. Qed.

Ltac gives_step :=
  cbv zeta;
  match goal with
  | |- forall _, _ => intro
  | |- gives _ (mbind _ _) => apply gives_then
  | |- gives _ abort => apply gives_abort
  | |- gives _ undef => apply gives_undef
  | |- gives _ timeout => apply gives_timeout
  | |- gives _ (match ?x with _ => _ end) => destruct x
  | |- gives _ (if ?x then _ else _) => destruct x
  end.

(** ** Lists *)

Lemma Permutation_app_middle_swap {A} (a b c : list A) : a ++ b ++ c ≡ₚ b ++ a ++ c.
Proof. rewrite !(assoc_L (++)). by rewrite (Permutation_app_comm a b). Qed.

Lemma NoDup_app_disjoint {A} (l k : list A) x : NoDup (l ++ k) -> x ∈ l -> x ∈ k -> False.
Proof. intros (_ & Hd & _)%NoDup_app. apply Hd. Qed.

(** ** Sums *)

Definition zsum {A} (f : A -> Z) (l : list A) : Z := foldr (fun x n => f x + n) 0 l.

Lemma zsum_insert {A} (f : A -> Z) l i x y :
  l !! i = Some x -> zsum f (<[i := y]> l) = zsum f l - f x + f y.
Proof.
  revert i. induction l as [|z l IH]; intros [|i] Hx; simplify_eq/=; [lia|]. rewrite (IH i) by done. lia.
Qed.

Lemma zsum_le {A} (f g : A -> Z) l : Forall (fun x => f x <= g x) l -> zsum f l <= zsum g l.
Proof. induction 1; simpl; lia. Qed.

Lemma zsum_nonneg {A} (f : A -> Z) l : Forall (fun x => 0 <= f x) l -> 0 <= zsum f l.
Proof. induction 1; simpl; lia. Qed.

Lemma zsum_rest {A} (f g : A -> Z) l i x :
  l !! i = Some x -> Forall (fun x => f x <= g x) l -> zsum f l + (g x - f x) <= zsum g l.
Proof.
  revert i. induction l as [|y l IH]; intros [|i] Hx Hl; simplify_eq/=; apply Forall_cons in Hl as [Hy Hl].
  - pose proof (zsum_le f g l Hl). lia.
  - specialize (IH i Hx Hl). lia.
Qed.
