(* ===== verification/FsTypes.v ===== *)
(** * Shared types of the file system

    The configuration ([Config.in], from which the build generates
    [config/config.h]), the status codes of [sys/server/include/server.h], the
    inode types, open flags and path hashing of [sys/fs/include/fs.h]. *)

From S2P Require Import Prelude.

(** ** Configuration

    [config/config.h] is generated by the build, so its values are the fields
    of a class; [Config_in] holds the defaults of [Config.in].  The debug
    switches [DBG_SHOW_FDS], [DBG_SHOW_ORPHANS], [DBG_SHOW_BUFFERCACHE],
    [DBG_SHOW_QUEUE_DELAY] and [DBG_CHECK_QUEUES] are off, as in [Config.in]. *)
Class Config : Type := {
  CONFIG_HARDWARE_KHZ : Z;
  CONFIG_CHANNEL_BUF_SIZE : Z;
  CONFIG_FS_SERVER_COUNT : Z;
  CONFIG_MAX_FNAME_LEN : Z;
  CONFIG_FS_CHUNK_SIZE : Z;
  CONFIG_FD_COUNT : Z;
  CONFIG_BUFFER_CACHE_SIZE : Z;        (* in megabytes *)
  CONFIG_BUFFER_CACHE_BLOCKSIZE : Z;
  ENABLE_DIRECTORY_DISTRIBUTION : bool;
  ENABLE_DIRECTORY_CACHE : bool;
  ENABLE_DBG_SHOW_OPS : bool;
  ENABLE_RM_SCATTER_GATHER : bool;
  ENABLE_DENT_SNAPSHOT : bool
}.

Definition Config_in : Config := {|
  CONFIG_HARDWARE_KHZ := 2000000;
  CONFIG_CHANNEL_BUF_SIZE := 65536;
  CONFIG_FS_SERVER_COUNT := 1;
  CONFIG_MAX_FNAME_LEN := 4096;
  CONFIG_FS_CHUNK_SIZE := 32768;
  CONFIG_FD_COUNT := 256;
  CONFIG_BUFFER_CACHE_SIZE := 1024;
  CONFIG_BUFFER_CACHE_BLOCKSIZE := 4096;
  ENABLE_DIRECTORY_DISTRIBUTION := true;
  ENABLE_DIRECTORY_CACHE := true;
  ENABLE_DBG_SHOW_OPS := true;
  ENABLE_RM_SCATTER_GATHER := true;
  ENABLE_DENT_SNAPSHOT := true
|}.

(** What the code relies on: the block size is a power of two (offsets inside
    a block are computed with [& (block_size - 1)]), the cache is not empty and
    there is a server. *)
Class ConfigOk `{Config} : Prop := {
  block_size_pow2 : exists k, 0 <= k < 32 /\ CONFIG_BUFFER_CACHE_BLOCKSIZE = 2 ^ k;
  cache_size_pos : 0 < CONFIG_BUFFER_CACHE_SIZE;
  server_count_pos : 0 < CONFIG_FS_SERVER_COUNT
}.

#[export] Instance Config_in_ok : @ConfigOk Config_in.
Proof. split; simpl; [exists 12|..]; lia. Qed.

(** ** System constants (x86_64 Linux headers) *)

Definition ENOENT : Z := 2.
Definition EAGAIN : Z := 11.
Definition ENOMEM : Z := 12.
Definition EEXIST : Z := 17.
Definition ENOTDIR : Z := 20.
Definition EISDIR : Z := 21.
Definition EINVAL : Z := 22.
Definition ENOSPC : Z := 28.
Definition ENOTEMPTY : Z := 39.

Definition O_WRONLY : Z := 1.
Definition O_RDWR : Z := 2.
Definition O_CREAT : Z := 64.
Definition O_EXCL : Z := 128.
Definition O_TRUNC : Z := 512.
Definition O_APPEND : Z := 1024.
Definition O_DIRECTORY : Z := 65536.

Definition S_IFIFO : Z := 4096.
Definition S_IFDIR : Z := 16384.
Definition S_IFBLK : Z := 24576.
Definition S_IFREG : Z := 32768.
Definition S_IFLNK : Z := 40960.
Definition S_ISVTX : Z := 512.

Definition DT_DIR : Z := 4.
Definition DT_BLK : Z := 6.
Definition DT_REG : Z := 8.
Definition DT_LNK : Z := 10.

Definition SEEK_SET : Z := 0.
Definition SEEK_CUR : Z := 1.
Definition SEEK_END : Z := 2.
Definition SEEK_DATA : Z := 3.
Definition SEEK_HOLE : Z := 4.

Definition UTIME_OMIT : Z := 2 ^ 30 - 2.
Definition AT_SYMLINK_NOFOLLOW : Z := 256.

(** [flags & mask] used as a condition. *)
Definition has_flag (flags mask : Z) : bool := negb (Z.land flags mask =? 0).

(** [time_t] and nanoseconds. *)
Record timespec : Type := { tv_sec : Z; tv_nsec : Z }.

(** ** Status codes of the servers *)

Definition OK : Z := 0.
Definition NOT_FOUND : Z := - ENOENT.
Definition NO_MEMORY : Z := - ENOMEM.
Definition EXIST : Z := - EEXIST.
Definition NOT_DIR : Z := - ENOTDIR.
Definition ISDIR : Z := - EISDIR.
Definition INVALID : Z := - EINVAL.
Definition NOT_EMPTY : Z := - ENOTEMPTY.
Definition NO_SPACE : Z := - ENOSPC.
Definition ISSYM : Z := NOT_EMPTY.

(** ** Inodes *)

Inductive FileType : Type :=
| TYPE_FILE | TYPE_DIR | TYPE_SYMLINK | TYPE_PIPE | TYPE_DIR_SHARED.

#[export] Instance FileType_eq_dec : EqDecision FileType.
Proof. solve_decision. Defined.

(** The enumerators' values. *)
Definition FileType_val (t : FileType) : Z :=
  match t with
  | TYPE_FILE => S_IFREG
  | TYPE_DIR => S_IFDIR
  | TYPE_SYMLINK => S_IFLNK
  | TYPE_PIPE => S_IFIFO
  | TYPE_DIR_SHARED => S_IFBLK
  end.

Record Inode : Type := mkInode { in_server : Z; in_id : Z }.

Record InodeType : Type := mkInodeType { it_server : Z; it_id : Z; it_type : FileType }.

#[export] Instance Inode_eq_dec : EqDecision Inode.
Proof. solve_decision. Defined.
#[export] Instance InodeType_eq_dec : EqDecision InodeType.
Proof. solve_decision. Defined.

(** [#define InodeOnly(inodetype)]: the prefix of an [InodeType]. *)
Definition InodeOnly (i : InodeType) : Inode := mkInode (it_server i) (it_id i).

Definition CACHE_SHARED : Z := 2.
Definition CACHE_INVALID : Z := 3.

Definition RMDIR_TRY : Z := 0.
Definition RMDIR_FAIL : Z := 1.
Definition RMDIR_SUCCESS : Z := 2.
Definition RMDIR_FORCE : Z := 3.
Definition RMDIR_AND_MAP : Z := 4.

Definition S_ISSHR : Z := S_ISVTX.
Definition INODE_MASK : Z := 67108863.  (* 0x3FFFFFF *)
Definition INODE_SHIFT : Z := 26.

(** ** Path hashing

    A path is a string; the hash reads its bytes as (signed) [char]s. *)

Definition char_val (c : Ascii.ascii) : Z := i8 (Z.of_N (Ascii.N_of_ascii c)).
Definition path_bytes (s : string) : list Z := char_val <$> String.list_ascii_of_string s.

(** The loop of [getCRC]: [chk += (int)data[i] * (i + 1)]; [i] is unsigned, so
    the product is computed on 32 unsigned bits and [chk] wraps. *)
Fixpoint getCRC_loop (chk : Z) (i : Z) (data : list Z) : Z :=
  match data with
  | [] => chk
  | d :: data' => getCRC_loop (i32 (u32 chk + u32 (u32 d * u32 (i + 1)))) (i + 1) data'
  end.

Definition getCRC (init : Z) (data : list Z) : Z :=
  u32 (getCRC_loop (i32 (if init =? 0 then 305747577 else init)) 0 data).  (* 0x12395679 *)

(** The eight bytes of a [file_id_t] in memory, as [char]s. *)
Definition id_bytes (fid : Z) : list Z :=
  (fun k => i8 (Z.shiftr fid (8 * k))) <$> seqZ 0 8.

Definition fosPathHashn (fid : Z) (path : list Z) : Z :=
  getCRC (getCRC 0 (id_bytes fid)) path.

Section PathOwner.
Context `{Config}.

Definition fosPathHashDirect (path : string) : Z :=
  fosPathHashn 0 (path_bytes path) mod CONFIG_FS_SERVER_COUNT.

(** [None] is the failed assertion on an inode that is not a directory. *)
Definition fosPathOwnern (inode : InodeType) (path : string) : option Z :=
  if (it_id inode =? 0) && ((path =? "")%string || (path =? "..")%string) then Some 0
  else match it_type inode with
       | TYPE_DIR_SHARED =>
           Some (if 1 <? CONFIG_FS_SERVER_COUNT
                 then fosPathHashn (it_id inode) (path_bytes path) mod CONFIG_FS_SERVER_COUNT
                 else 0)
       | TYPE_DIR => Some (it_server inode)
       | _ => None
       end.

Definition fosPathOwner (inode : InodeType) (path : string) : option Z :=
  if 1 <? CONFIG_FS_SERVER_COUNT then fosPathOwnern inode path else Some 0.
End PathOwner.

(** ** The environment

    Values the code obtains from outside: the clocks, [rand], the addresses
    [new] returns, what uninitialised memory holds, and the iteration order of
    an [unordered_map] after an insertion.  Each use takes the value of the current tick and advances the
    tick counter, so successive uses are unrelated. *)
Class Env : Type := {
  env_clock : nat -> timespec;
  env_tsc : nat -> Z;
  env_rand : nat -> Z;
  env_new : nat -> Z;
  env_junk : nat -> Z;
  env_order : forall A, nat -> list A -> list A
}.

(** Their documented ranges; an insertion may reorder a table but neither
    loses nor invents an element. *)
Class EnvOk `{Env} : Prop := {
  env_tsc_range t : 0 <= env_tsc t < 2 ^ 64;
  env_rand_range t : 0 <= env_rand t < 2 ^ 31;
  env_order_perm A t (l : list A) : env_order A t l ≡ₚ l
}.

(** One use of the environment. *)
Definition tick : M nat nat := fun t => Done t (S t).

(** A concrete environment: clocks that advance by one, descriptor numbers and
    addresses that do not repeat, tables in reverse order of insertion. *)
Definition plain_env : Env := {|
  env_clock t := {| tv_sec := Z.of_nat t; tv_nsec := 0 |};
  env_tsc t := Z.of_nat t mod 2 ^ 64;
  env_rand t := (1000 + Z.of_nat t) mod 2 ^ 31;
  env_new t := 4096 + 64 * Z.of_nat t;
  env_junk t := 3735928559;
  env_order _ _ l := l
|}.

#[export] Instance plain_env_ok : @EnvOk plain_env.
Proof. split; intros; simpl; [by apply Z.mod_pos_bound..|done]. Qed.
