(* ===== verification/BufferCache.v ===== *)
(** * The buffer cache of a file server

    [sys/fs/buffer_cache.hpp] and [sys/fs/buffer_cache.cpp]: the shared memory
    region is divided among the servers, and each server keeps the list of the
    free blocks of its partition.  The bytes of the region are a finite map
    from addresses to bytes. *)

From S2P Require Import Prelude FsTypes.

(** ** The shared memory *)

Definition mem_get (m : gmap Z Z) (a : Z) : Z := default 0 (m !! a).

(** [memcpy] out of the region, [n] bytes from address [a]. *)
Fixpoint mem_read (m : gmap Z Z) (a : Z) (n : nat) : list Z :=
  match n with
  | O => []
  | S n' => mem_get m a :: mem_read m (a + 1) n'
  end.

(** [memcpy] into the region at address [a]. *)
Fixpoint mem_write (m : gmap Z Z) (a : Z) (bs : list Z) : gmap Z Z :=
  match bs with
  | [] => m
  | b :: bs' => mem_write (<[a := b]> m) (a + 1) bs'
  end.

Lemma length_mem_read m a n : length (mem_read m a n) = n.
Proof. revert a. induction n as [|n IH]; intros a; simpl; [done|]. by rewrite IH. Qed.

Lemma mem_read_lookup m a n (i : nat) :
  (i < n)%nat -> mem_read m a n !! i = Some (mem_get m (a + Z.of_nat i)).
Proof.
  revert a i. induction n as [|n IH]; intros a i Hi; [lia|].
  destruct i as [|i]; simpl.
  - do 2 f_equal. lia.
  - rewrite IH by lia. do 2 f_equal. lia.
Qed.

Lemma mem_get_write_out m a bs x :
  x < a \/ a + Z.of_nat (length bs) <= x -> mem_get (mem_write m a bs) x = mem_get m x.
Proof.
  revert m a. induction bs as [|b bs IH]; intros m a Hx; simpl in *; [done|].
  rewrite IH by lia. unfold mem_get. rewrite lookup_insert_ne by lia. done.
Qed.

Lemma mem_get_write_in m a bs (i : nat) b :
  bs !! i = Some b -> mem_get (mem_write m a bs) (a + Z.of_nat i) = b.
Proof.
  revert m a i. induction bs as [|b' bs IH]; intros m a i Hi; simpl in *; [done|].
  destruct i as [|i]; simplify_eq/=.
  - replace (a + Z.of_nat 0) with a by lia.
    rewrite mem_get_write_out by lia. unfold mem_get. by rewrite lookup_insert_eq.
  - replace (a + Z.of_nat (S i)) with ((a + 1) + Z.of_nat i) by lia. by apply IH.
Qed.

Lemma mem_read_ext m m' a n :
  (forall x, a <= x < a + Z.of_nat n -> mem_get m x = mem_get m' x) ->
  mem_read m a n = mem_read m' a n.
Proof.
  revert a. induction n as [|n IH]; intros a Hx; simpl; [done|].
  f_equal; [apply Hx; lia|]. apply IH. intros x ?. apply Hx. lia.
Qed.

(** ** The cache *)

Section BufferCache.
Context `{Config}.

Definition memory_size : Z := CONFIG_BUFFER_CACHE_SIZE * 1024 * 1024.
Definition block_size : Z := CONFIG_BUFFER_CACHE_BLOCKSIZE.

Record BufferCache : Type := mkBufferCache {
  bc_id : Z;
  m_memory : Z;
  m_blocks : list Z;
  m_blocks_free : Z
}.

(** The loop that fills [m_blocks]. *)
Fixpoint region_blocks (fuel : nat) (base offset region_end : Z) : list Z :=
  match fuel with
  | O => []
  | S fuel' =>
      if offset <? region_end
      then base + offset :: region_blocks fuel' base (offset + block_size) region_end
      else []
  end.

(** The product of two [int]s; overflow is undefined. *)
Definition int_mul (a b : Z) : option Z :=
  if (- 2 ^ 31 <=? a * b) && (a * b <? 2 ^ 31) then Some (a * b) else None.

(** The constructor, [memory] being the address [mmap] returned. *)
Definition BufferCache_new (id memory : Z) : option BufferCache :=
  let free := memory_size / (block_size * CONFIG_FS_SERVER_COUNT) in
  let server_count := CONFIG_FS_SERVER_COUNT in
  let partition_size := i32 (memory_size / server_count) in
  region_start ← int_mul id partition_size;
  region_end ← int_mul (id + 1) partition_size;
  let fuel := S (Z.to_nat ((u64 region_end - u64 region_start) / block_size)) in
  Some (mkBufferCache id memory
          (region_blocks fuel memory (u64 region_start) (u64 region_end)) free).

(** [BufferCache::get]: nothing is handed out when the counter says there are
    too few blocks; advancing past the end of the list is undefined. *)
Definition BufferCache_get (blocks_nr : Z) : M BufferCache (list Z) :=
  bc ← gets (fun bc => bc);
  if m_blocks_free bc <? blocks_nr then mret []
  else if Z.of_nat (length (m_blocks bc)) <? blocks_nr then undef
  else
    let n := Z.to_nat blocks_nr in
    modify (fun bc => mkBufferCache (bc_id bc) (m_memory bc)
                        (drop n (m_blocks bc)) (u64 (m_blocks_free bc - blocks_nr)));;
    mret (take n (m_blocks bc)).

(** [BufferCache::put]: splice in front of the list. *)
Definition BufferCache_put (blocks : list Z) : M BufferCache unit :=
  modify (fun bc => mkBufferCache (bc_id bc) (m_memory bc)
                      (blocks ++ m_blocks bc)
                      (u64 (m_blocks_free bc + Z.of_nat (length blocks)))).

(** The statistics the stat file shows. *)
Definition bc_free (bc : BufferCache) : Z := u64 (m_blocks_free bc * block_size).
Definition bc_used (bc : BufferCache) : Z :=
  u64 (memory_size / CONFIG_FS_SERVER_COUNT - bc_free bc).
Definition bc_total (bc : BufferCache) : Z := memory_size / CONFIG_FS_SERVER_COUNT.

(** The blocks the counter lets the server hand out: the front of the list. *)
Definition bc_usable (bc : BufferCache) : list Z :=
  take (Z.to_nat (m_blocks_free bc)) (m_blocks bc).

(** How many listed blocks the counter does not count: a partition that is not
    a multiple of the block size lists one block that it has no room for. *)
Definition bc_spare (bc : BufferCache) : Z :=
  Z.of_nat (length (m_blocks bc)) - m_blocks_free bc.

(** The free counter counts blocks the list really has. *)
Definition bc_ok (bc : BufferCache) : Prop :=
  0 <= m_blocks_free bc <= Z.of_nat (length (m_blocks bc)) /\
  Z.of_nat (length (m_blocks bc)) < 2 ^ 63.
End BufferCache.

(** ** The division of the memory among the servers *)

Section Partition.
Context `{ConfigOk}.

Lemma block_size_pos : 0 < block_size.
Proof. unfold block_size. destruct block_size_pow2 as (k & ? & ->). apply Z.pow_pos_nonneg; lia. Qed.

Lemma memory_size_pos : 0 < memory_size.
Proof. unfold memory_size. pose proof cache_size_pos. lia. Qed.

(** The [k]-th block of the list is the [k]-th block-sized chunk of the region. *)
Lemma region_blocks_lookup fuel base off region_end (k : nat) :
  (k < fuel)%nat -> off + Z.of_nat k * block_size < region_end ->
  region_blocks fuel base off region_end !! k = Some (base + off + Z.of_nat k * block_size).
Proof.
  pose proof block_size_pos as Hbs.
  revert off k. induction fuel as [|fuel IH]; intros off k Hk Hlt; [lia|]. simpl.
  rewrite (proj2 (Z.ltb_lt off region_end)) by nia.
  destruct k as [|k]; simpl; [f_equal; lia|].
  rewrite IH by nia. f_equal. nia.
Qed.

Lemma region_blocks_length fuel base off region_end :
  off <= region_end ->
  (region_end - off) / block_size < Z.of_nat fuel ->
  Z.of_nat (length (region_blocks fuel base off region_end))
  = (region_end - off + block_size - 1) / block_size.
Proof.
  pose proof block_size_pos as Hbs.
  revert off. induction fuel as [|fuel IH]; intros off Hle Hf; simpl.
  - pose proof (Z.div_pos (region_end - off) block_size). lia.
  - destruct (Z.ltb_spec off region_end); simpl.
    + destruct (decide (off + block_size <= region_end)).
      * rewrite Nat2Z.inj_succ, IH; [|lia|].
        -- rewrite <- Z.add_1_r, <- Z.div_add by lia. f_equal. lia.
        -- replace (region_end - (off + block_size)) with (region_end - off + (-1) * block_size) by lia.
           rewrite Z.div_add by lia. lia.
      * replace (region_blocks fuel base (off + block_size) region_end) with (@nil Z).
        2: { destruct fuel; [done|]. simpl. by rewrite (proj2 (Z.ltb_ge _ _)) by lia. }
        simpl. apply Z.div_unique with (region_end - off - 1); lia.
    + symmetry. apply Z.div_small. lia.
Qed.

(** The constructor's result when no [int] product overflows. *)
Lemma BufferCache_new_spec i memory :
  0 <= i < CONFIG_FS_SERVER_COUNT -> memory_size < 2 ^ 31 ->
  let ps := memory_size / CONFIG_FS_SERVER_COUNT in
  BufferCache_new i memory
  = Some (mkBufferCache i memory
            (region_blocks (S (Z.to_nat (ps / block_size))) memory (i * ps) ((i + 1) * ps))
            (ps / block_size)).
Proof.
  intros Hi Hm ps. pose proof memory_size_pos. pose proof block_size_pos.
  pose proof server_count_pos as Hn.
  assert (Hps : 0 <= ps <= memory_size).
  { split; [apply Z.div_pos; lia|]. apply Z.div_le_upper_bound; nia. }
  assert (Hmul : CONFIG_FS_SERVER_COUNT * ps <= memory_size) by (apply Z.mul_div_le; lia).
  assert (0 <= i * ps /\ i * ps <= (i + 1) * ps /\ (i + 1) * ps <= memory_size) as (?&?&?).
  { split; [nia|]. split; [nia|]. transitivity (CONFIG_FS_SERVER_COUNT * ps); nia. }
  unfold BufferCache_new. fold ps. rewrite (i32_small ps) by lia.
  unfold int_mul.
  rewrite !(proj2 (Z.leb_le _ _)), !(proj2 (Z.ltb_lt _ _)) by lia. simpl.
  rewrite !u64_small by lia. do 2 f_equal.
  - by replace ((i + 1) * ps - i * ps) with ps by lia.
  - unfold ps. rewrite Z.div_div by lia. f_equal. lia.
Qed.

Lemma region_blocks_partition i memory :
  let ps := memory_size / CONFIG_FS_SERVER_COUNT in
  let bl := region_blocks (S (Z.to_nat (ps / block_size))) memory (i * ps) ((i + 1) * ps) in
  0 <= ps /\ ps / block_size <= Z.of_nat (length bl) <= ps / block_size + 1 /\
  forall k b, (Z.of_nat k < ps / block_size) -> bl !! k = Some b ->
    b = memory + i * ps + Z.of_nat k * block_size /\ b + block_size <= memory + (i + 1) * ps.
Proof.
  intros ps bl. pose proof memory_size_pos. pose proof block_size_pos.
  pose proof server_count_pos.
  assert (Hps : 0 <= ps) by (apply Z.div_pos; lia).
  assert (Hdiv : 0 <= ps / block_size) by (apply Z.div_pos; lia).
  assert (Hmul : block_size * (ps / block_size) <= ps) by (apply Z.mul_div_le; lia).
  split; [done|]. split.
  - unfold bl. rewrite region_blocks_length; [|nia|].
    + replace ((i + 1) * ps - i * ps) with ps by lia.
      split; [apply Z.div_le_mono; lia|].
      transitivity ((ps + 1 * block_size) / block_size); [apply Z.div_le_mono; lia|].
      rewrite Z.div_add; lia.
    + replace ((i + 1) * ps - i * ps) with ps by lia. lia.
  - intros k b Hk Hb. unfold bl in Hb.
    rewrite region_blocks_lookup in Hb by nia. simplify_eq. nia.
Qed.
End Partition.

(** ** Getting and returning blocks *)

Section GetPut.
Context `{ConfigOk}.

(** [get] either hands out exactly the requested number of blocks, taken off
    the free list, or none and leaves the cache alone. *)
Lemma BufferCache_get_spec n bc :
  bc_ok bc -> 0 <= n ->
  wp (BufferCache_get n) (fun bl bc' =>
    bc_ok bc' /\
    ((m_blocks_free bc < n /\ bl = [] /\ bc' = bc) \/
     (n <= m_blocks_free bc /\ Z.of_nat (length bl) = n /\
      bc_usable bc = bl ++ bc_usable bc' /\
      bc_spare bc' = bc_spare bc /\
      m_memory bc' = m_memory bc))) bc.
Proof.
  intros [Hf Hl] Hn. unfold wp, BufferCache_get, mbind, M_bind, gets; simpl.
  destruct (Z.ltb_spec (m_blocks_free bc) n); simpl.
  { split; [done|]. left. done. }
  rewrite (proj2 (Z.ltb_ge _ _)) by lia. simpl.
  assert (Hu : u64 (m_blocks_free bc - n) = m_blocks_free bc - n) by (apply u64_small; lia).
  unfold bc_ok, bc_usable, bc_spare; simpl. rewrite Hu, length_drop, length_take. split; [lia|].
  right. split; [done|]. split; [lia|]. split; [|split; [lia|done]].
  rewrite Z2Nat.inj_sub, take_drop_commute by lia.
  replace (Z.to_nat n + (Z.to_nat (m_blocks_free bc) - Z.to_nat n))%nat
    with (Z.to_nat (m_blocks_free bc)) by lia.
  rewrite <- (take_drop (Z.to_nat n) (take (Z.to_nat (m_blocks_free bc)) (m_blocks bc))) at 1.
  f_equal. rewrite take_take. f_equal. lia.
Qed.

Lemma BufferCache_put_spec bl bc :
  bc_ok bc -> Z.of_nat (length bl) + Z.of_nat (length (m_blocks bc)) < 2 ^ 63 ->
  wp (BufferCache_put bl) (fun _ bc' =>
    bc_ok bc' /\ bc_usable bc' = bl ++ bc_usable bc /\ m_blocks bc' = bl ++ m_blocks bc /\
    bc_spare bc' = bc_spare bc /\ m_memory bc' = m_memory bc) bc.
Proof.
  intros [Hf Hl] Hb. unfold wp, BufferCache_put, modify, bc_ok, bc_usable, bc_spare; simpl.
  rewrite u64_small by lia. rewrite length_app. split; [lia|]. split; [|split; [done|split; [lia|done]]].
  rewrite take_app. f_equal; [rewrite take_ge by lia; done|f_equal; lia].
Qed.

(** C19: After start-up every file server owns the right part of the shared
    memory.  Whatever the number of servers (it need not divide the memory
    size), the free counter never exceeds the number of listed blocks, and each
    of the blocks that counter lets the server hand out lies inside the server's
    own partition, on a block boundary of it, so that the usable blocks of two
    servers never overlap.  The memory must be smaller than 2 GB, because the
    partition bounds are computed in [int]. *)
Theorem buffer_cache_partition (i j memory : Z) (bci bcj : BufferCache) (ki kj : nat) (bi bj : Z) :
  memory_size < 2 ^ 31 ->
  0 <= i < CONFIG_FS_SERVER_COUNT -> 0 <= j < CONFIG_FS_SERVER_COUNT ->
  BufferCache_new i memory = Some bci -> BufferCache_new j memory = Some bcj ->
  m_blocks bci !! ki = Some bi -> Z.of_nat ki < m_blocks_free bci ->
  m_blocks bcj !! kj = Some bj -> Z.of_nat kj < m_blocks_free bcj ->
  bc_ok bci /\
  memory <= bi /\ bi + block_size <= memory + memory_size /\
  ((i, ki) <> (j, kj) -> bi + block_size <= bj \/ bj + block_size <= bi).
Proof.
  intros Hm Hi Hj Hbi Hbj Hki Hfi Hkj Hfj.
  rewrite BufferCache_new_spec in Hbi, Hbj by done. simplify_eq.
  cbn [m_blocks m_blocks_free] in *.
  pose proof memory_size_pos. pose proof block_size_pos. pose proof server_count_pos.
  destruct (region_blocks_partition i memory) as (Hps & Hli & Hini).
  destruct (region_blocks_partition j memory) as (_ & Hlj & Hinj).
  destruct (Hini ki bi Hfi Hki) as [-> Hbi].
  destruct (Hinj kj bj Hfj Hkj) as [-> Hbj]. clear Hini Hinj.
  set (ps := memory_size / CONFIG_FS_SERVER_COUNT) in *.
  assert (CONFIG_FS_SERVER_COUNT * ps <= memory_size) by (apply Z.mul_div_le; lia).
  assert (ps <= memory_size) by nia.
  assert (ps / block_size <= ps) by (apply Z.div_le_upper_bound; nia).
  split; [|split; [nia|split; [nia|]]].
  - unfold bc_ok. cbn [m_blocks m_blocks_free]. split; [|lia].
    split; [apply Z.div_pos|]; lia.
  - intros Hne. destruct (Z.lt_trichotomy i j) as [|[->|]]; [left; nia| |right; nia].
    assert (ki <> kj) by congruence.
    destruct (Nat.lt_trichotomy ki kj) as [|[|]]; [left; nia|done|right; nia].
Qed.
End GetPut.

Definition small_config : Config := {|
  CONFIG_HARDWARE_KHZ := 2000000; CONFIG_CHANNEL_BUF_SIZE := 65536;
  CONFIG_FS_SERVER_COUNT := 3; CONFIG_MAX_FNAME_LEN := 4096;
  CONFIG_FS_CHUNK_SIZE := 32768; CONFIG_FD_COUNT := 256;
  CONFIG_BUFFER_CACHE_SIZE := 1; CONFIG_BUFFER_CACHE_BLOCKSIZE := 65536;
  ENABLE_DIRECTORY_DISTRIBUTION := true; ENABLE_DIRECTORY_CACHE := true;
  ENABLE_DBG_SHOW_OPS := true; ENABLE_RM_SCATTER_GATHER := true; ENABLE_DENT_SNAPSHOT := true
|}.

#[export] Instance small_config_ok : @ConfigOk small_config.
Proof. split; simpl; [exists 16|..]; lia. Qed.

(** Three servers, 1 MB in 64 KB blocks: a size the servers do not divide evenly. *)
Lemma buffer_cache_partition_witness :
  exists bc0 bc2 b0 b2,
    @BufferCache_new small_config 0 4096 = Some bc0 /\
    @BufferCache_new small_config 2 4096 = Some bc2 /\
    m_blocks bc0 !! 4%nat = Some b0 /\ m_blocks bc2 !! 0%nat = Some b2 /\
    (b0 + 65536 <= b2 \/ b2 + 65536 <= b0).
Proof.
  do 4 eexists. repeat (split; [vm_compute; reflexivity|]).
  eapply (@buffer_cache_partition small_config small_config_ok 0 2 4096 _ _ 4%nat 0%nat);
    [vm_compute; done..|vm_compute; reflexivity|vm_compute; reflexivity|
     vm_compute; reflexivity|vm_compute; done|vm_compute; reflexivity|vm_compute; done|done].
Defined.
