(* ===== verification/FsFile.v ===== *)
(** * Files of the server: data on buffer-cache blocks

    The [VFile] base class and the [File] class of [sys/fs/file.hpp] and
    [sys/fs/file.cpp].  A file is a list of blocks of the shared memory; its
    methods run in a state made of the file, the buffer cache it shares with
    the other files of the server, the memory and the tick counter. *)

From S2P Require Import Prelude FsTypes BufferCache.

(** ** Definitions *)

(** The data members of [VFile]. *)
Record VFileBase : Type := mkVFileBase {
  m_id : Z;
  m_type : FileType;
  m_mode : Z;
  m_atime : timespec;
  m_mtime : timespec;
  m_ctime : timespec;
  m_uid : Z;
  m_gid : Z
}.

Definition set_id (i : Z) (v : VFileBase) : VFileBase :=
  mkVFileBase i (m_type v) (m_mode v) (m_atime v) (m_mtime v) (m_ctime v) (m_uid v) (m_gid v).
Definition set_mode (m : Z) (v : VFileBase) : VFileBase :=
  mkVFileBase (m_id v) (m_type v) m (m_atime v) (m_mtime v) (m_ctime v) (m_uid v) (m_gid v).
Definition set_atime (t : timespec) (v : VFileBase) : VFileBase :=
  mkVFileBase (m_id v) (m_type v) (m_mode v) t (m_mtime v) (m_ctime v) (m_uid v) (m_gid v).
Definition set_mtime (t : timespec) (v : VFileBase) : VFileBase :=
  mkVFileBase (m_id v) (m_type v) (m_mode v) (m_atime v) t (m_ctime v) (m_uid v) (m_gid v).
Definition set_ctime (t : timespec) (v : VFileBase) : VFileBase :=
  mkVFileBase (m_id v) (m_type v) (m_mode v) (m_atime v) (m_mtime v) t (m_uid v) (m_gid v).

(** [VFile::uid] and [VFile::gid]: [UINT32_MAX] leaves the owner unchanged. *)
Definition set_uid (u : Z) (v : VFileBase) : VFileBase :=
  if u =? UINT32_MAX then v else
  mkVFileBase (m_id v) (m_type v) (m_mode v) (m_atime v) (m_mtime v) (m_ctime v) u (m_gid v).
Definition set_gid (g : Z) (v : VFileBase) : VFileBase :=
  if g =? UINT32_MAX then v else
  mkVFileBase (m_id v) (m_type v) (m_mode v) (m_atime v) (m_mtime v) (m_ctime v) (m_uid v) g.

(** [VFile::VFile]: the inode number is the sequence number [seq], tagged on
    the servers other than 0 with the server's number (32-bit arithmetic). *)
Definition inode_number (server seq : Z) : Z :=
  if server =? 0 then u64 seq
  else Z.lor (Z.land (u64 seq) INODE_MASK) (u32 (Z.shiftl server INODE_SHIFT)).

Definition VFile_new (server seq : Z) (now : timespec) (type : FileType) (mode : Z) : VFileBase :=
  mkVFileBase (inode_number server seq) type mode now now now 0 0.

Record File : Type := mkFile {
  f_base : VFileBase;
  m_memory_blocks : list Z;
  m_orphan_blocks : list Z;
  m_size : Z
}.

(** The state a method of [File] runs in. *)
Record FState : Type := mkFState {
  fs_file : File;
  fs_cache : BufferCache;
  fs_mem : gmap Z Z;
  fs_tick : nat
}.

Definition set_file (f : File) (s : FState) : FState :=
  mkFState f (fs_cache s) (fs_mem s) (fs_tick s).
Definition set_cache (c : BufferCache) (s : FState) : FState :=
  mkFState (fs_file s) c (fs_mem s) (fs_tick s).
Definition set_mem (m : gmap Z Z) (s : FState) : FState :=
  mkFState (fs_file s) (fs_cache s) m (fs_tick s).
Definition set_tick (t : nat) (s : FState) : FState :=
  mkFState (fs_file s) (fs_cache s) (fs_mem s) t.

Definition file_with_base (g : VFileBase -> VFileBase) (f : File) : File :=
  mkFile (g (f_base f)) (m_memory_blocks f) (m_orphan_blocks f) (m_size f).
Definition file_with_size (n : Z) (f : File) : File :=
  mkFile (f_base f) (m_memory_blocks f) (m_orphan_blocks f) n.
Definition file_with_blocks (mb ob : list Z) (f : File) : File :=
  mkFile (f_base f) mb ob (m_size f).

Section File.
Context `{Config} `{Env}.

Definition File_new (base : VFileBase) : File := mkFile base [] [] 0.

(** [File::~File]: both block lists go back to the cache. *)
Definition File_delete : M FState unit :=
  f ← gets fs_file;
  zoom fs_cache set_cache (BufferCache_put (m_memory_blocks f));;
  zoom fs_cache set_cache (BufferCache_put (m_orphan_blocks f)).

(** The number of blocks [shrink] and [grow] compute for a size. *)
Definition blocks_for (new_size : Z) : Z :=
  if negb (Z.land new_size (block_size - 1) =? 0)
  then new_size / block_size + 1 else new_size / block_size.

(** [File::shrink]: the blocks past the new size become orphan blocks.  A size
    that needs more blocks than there are makes the iterator range invalid. *)
Definition shrink (new_size : Z) : M FState Z :=
  f ← gets fs_file;
  let memory_blocks_nr := blocks_for new_size in
  let size := Z.of_nat (length (m_memory_blocks f)) in
  if u64 (size - memory_blocks_nr) =? 0 then mret 0
  else if size <? memory_blocks_nr then undef
  else
    let n := Z.to_nat memory_blocks_nr in
    modify (fun s => set_file (file_with_blocks (take n (m_memory_blocks f))
              (m_orphan_blocks f ++ drop n (m_memory_blocks f)) (fs_file s)) s);;
    mret 0.

(** [File::grow]: the difference is a [size_t]. *)
Definition grow (new_size : Z) : M FState Z :=
  f ← gets fs_file;
  let memory_blocks_nr := blocks_for new_size in
  let diff := u64 (memory_blocks_nr - Z.of_nat (length (m_memory_blocks f))) in
  if diff =? 0 then mret 0
  else
    memory_blocks ← zoom fs_cache set_cache (BufferCache_get diff);
    if negb (Z.of_nat (length memory_blocks) =? diff) then mret (- ENOSPC)
    else
      modify (fun s => set_file (file_with_blocks (m_memory_blocks f ++ memory_blocks)
                (m_orphan_blocks f) (fs_file s)) s);;
      mret 0.

(** [clock_gettime] *)
Definition f_clock : M FState timespec :=
  t ← zoom fs_tick set_tick tick; mret (env_clock t).

Definition f_base_update (g : VFileBase -> VFileBase) : M FState unit :=
  modify (fun s => set_file (file_with_base g (fs_file s)) s).

(** The copy loop of [File::read]; [buf] holds the bytes copied so far, as
    many as [retval] says.  An index past the last block is undefined. *)
Fixpoint read_loop (fuel : nat) (offset count : Z) (buf : list Z) : M FState (list Z) :=
  match fuel with
  | O => timeout
  | S fuel' =>
      let retval := Z.of_nat (length buf) in
      if negb (retval <? count) then mret buf
      else
        let memory_block_offset := Z.land offset (block_size - 1) in
        let memory_block_nr := offset / block_size in
        let n := Z.min (block_size - memory_block_offset) (count - retval) in
        f ← gets fs_file;
        memory_block ← deref (m_memory_blocks f !! Z.to_nat memory_block_nr);
        mem ← gets fs_mem;
        read_loop fuel' (u64 (offset + n)) count
          (buf ++ mem_read mem (memory_block + memory_block_offset) (Z.to_nat n))
  end.

(** A bound on the passes of either copy loop: every pass but the first and
    the last moves a whole block. *)
Definition loop_fuel (count : Z) : nat := Z.to_nat (count / block_size + 3).

(** The part of [File::read] before the access time is set. *)
Definition read_bytes (count offset : Z) : M FState (list Z) :=
  size ← gets (fun s => m_size (fs_file s));
  if offset <? size
  then
    let count := if size <? u64 (offset + count) then size - offset else count in
    buf ← read_loop (loop_fuel count) offset count [];
    assert_ (Z.of_nat (length buf) =? count);;
    mret buf
  else mret [].

Definition File_read (count offset : Z) : M FState (Z * list Z) :=
  buf ← read_bytes count offset;
  now ← f_clock;
  f_base_update (set_atime now);;
  mret (Z.of_nat (length buf), buf).

(** The copy loop of [File::write]; [buf] is what is left of the caller's
    buffer, and reading past its end is undefined. *)
Fixpoint write_loop (fuel : nat) (offset retval count : Z) (buf : list Z) : M FState Z :=
  match fuel with
  | O => timeout
  | S fuel' =>
      if negb (retval <? count) then mret retval
      else
        let memory_block_offset := Z.land offset (block_size - 1) in
        let memory_block_nr := offset / block_size in
        let n := Z.min (block_size - memory_block_offset) (count - retval) in
        f ← gets fs_file;
        memory_block ← deref (m_memory_blocks f !! Z.to_nat memory_block_nr);
        if Z.of_nat (length buf) <? n then undef
        else
          modify (fun s => set_mem (mem_write (fs_mem s) (memory_block + memory_block_offset)
                                      (take (Z.to_nat n) buf)) s);;
          write_loop fuel' (u64 (offset + n)) (retval + n) count (drop (Z.to_nat n) buf)
  end.

(** The first part of [File::write]: the file grows when the request ends past
    its size, and the size is set whether [grow] succeeded or not. *)
Definition write_grow (new_size : Z) : M FState Z :=
  size ← gets (fun s => m_size (fs_file s));
  if size <? new_size
  then
    r ← grow new_size;
    modify (fun s => set_file (file_with_size new_size (fs_file s)) s);;
    mret r
  else mret 0.

Definition File_write (buf : list Z) (count offset : Z) : M FState Z :=
  if count =? 0 then mret 0
  else
    retval ← write_grow (u64 (offset + count));
    if negb (retval =? 0) then mret retval
    else
      retval ← write_loop (loop_fuel count) offset 0 count buf;
      assert_ (retval =? count);;
      now ← f_clock;
      f_base_update (fun b => set_mtime now (set_atime now b));;
      mret retval.

Definition File_truncate (new_size : Z) : M FState Z :=
  size ← gets (fun s => m_size (fs_file s));
  retval ← (if size <? new_size then grow new_size
            else if new_size <? size then shrink new_size
            else mret 0);
  if negb (retval =? 0) then mret retval
  else
    modify (fun s => set_file (file_with_size new_size (fs_file s)) s);;
    mret 0.

(** [File::blocks]: [offset] and [count] are [int]s; [begin() + offset] must
    stay inside the vector.  The block numbers found come with the status. *)
Definition File_blocks (offset count : Z) : M FState (Z * list Z) :=
  f ← gets fs_file;
  c ← gets fs_cache;
  let entry b := u64 (b - m_memory c) in
  let from (v : list Z) (off : Z) : M FState (list Z) :=
    if (0 <=? off) && (off <=? Z.of_nat (length v)) then mret (drop (Z.to_nat off) v) else undef in
  v ← from (m_memory_blocks f) offset;
  let first := take (Z.to_nat count) (entry <$> v) in
  blocklist ← (if Z.of_nat (length first) <? count
               then
                 v' ← from (m_orphan_blocks f) (i32 (offset - Z.of_nat (length (m_memory_blocks f))));
                 mret (first ++ take (Z.to_nat count - length first) (entry <$> v'))
               else mret first);
  if Z.of_nat (length blocklist) <? count then mret (NO_MEMORY, blocklist)
  else mret (OK, blocklist).

Definition File_capacity (f : File) : Z :=
  u64 (block_size * Z.of_nat (length (m_orphan_blocks f) + length (m_memory_blocks f))).
End File.

(** ** What the bytes of a file are *)

Section Bytes.
Context `{Config}.

(** The address of byte [i] of the file. *)
Definition faddr (f : File) (i : Z) : option Z :=
  (fun b => b + i mod block_size) <$> m_memory_blocks f !! Z.to_nat (i / block_size).

Definition fbyte (mem : gmap Z Z) (f : File) (i : Z) : Z :=
  from_option (mem_get mem) 0 (faddr f i).

(** The contents of the file, as a list of bytes. *)
Definition file_data (mem : gmap Z Z) (f : File) : list Z := fbyte mem f <$> seqZ 0 (m_size f).

(** The file has the blocks its size needs. *)
Definition file_ok (f : File) : Prop :=
  0 <= m_size f <= Z.of_nat (length (m_memory_blocks f)) * block_size /\
  Z.of_nat (length (m_memory_blocks f)) * block_size < 2 ^ 63.

(** All blocks lie on a grid of block size: two different ones do not overlap. *)
Definition aligned (base b : Z) : Prop := (b - base) mod block_size = 0.
End Bytes.

Section BytesLemmas.
Context `{ConfigOk}.

Lemma block_mask i : Z.land i (block_size - 1) = i mod block_size.
Proof.
  unfold block_size. destruct block_size_pow2 as (k & Hk & ->).
  apply land_pow2_mask. lia.
Qed.

Lemma block_div_mod n :
  n = block_size * (n / block_size) + n mod block_size /\ 0 <= n mod block_size < block_size.
Proof.
  pose proof block_size_pos as Hb.
  split; [apply Z.div_mod; lia|by apply Z.mod_pos_bound].
Qed.

(** [blocks_for] rounds up. *)
Lemma blocks_for_spec n :
  0 <= n -> 0 <= blocks_for n /\ n <= blocks_for n * block_size < n + block_size.
Proof.
  intros Hn. pose proof block_size_pos as Hb. unfold blocks_for. rewrite block_mask.
  destruct (block_div_mod n).
  pose proof (Z.div_pos n block_size Hn Hb).
  destruct (Z.eqb_spec (n mod block_size) 0); simpl; nia.
Qed.

Lemma blocks_for_le n k : 0 <= n -> n <= k * block_size -> blocks_for n <= k.
Proof.
  intros Hn Hk. pose proof block_size_pos as Hb. pose proof (blocks_for_spec n Hn).
  assert (blocks_for n * block_size < (k + 1) * block_size) as Hlt by lia.
  apply Z.mul_lt_mono_pos_r in Hlt; lia.
Qed.

Lemma aligned_disjoint base a b :
  aligned base a -> aligned base b -> a <> b -> a + block_size <= b \/ b + block_size <= a.
Proof.
  unfold aligned. intros Ha Hb Hne. pose proof block_size_pos as Hbs.
  apply Z.mod_divide in Ha as [x Hx]; [|lia]. apply Z.mod_divide in Hb as [y Hy]; [|lia].
  destruct (Z.lt_trichotomy x y) as [|[->|]]; [left; nia|lia|right; nia].
Qed.

Lemma faddr_Some f i :
  0 <= i < Z.of_nat (length (m_memory_blocks f)) * block_size ->
  exists b, m_memory_blocks f !! Z.to_nat (i / block_size) = Some b /\
            faddr f i = Some (b + i mod block_size).
Proof.
  intros Hi. pose proof block_size_pos. unfold faddr.
  destruct (lookup_lt_is_Some_2 (m_memory_blocks f) (Z.to_nat (i / block_size))) as [b Hb].
  - assert (i / block_size < Z.of_nat (length (m_memory_blocks f)))
      by (apply Z.div_lt_upper_bound; lia).
    pose proof (Z.div_pos i block_size). lia.
  - exists b. rewrite Hb. done.
Qed.

(** Distinct bytes of a file have distinct addresses. *)
Lemma faddr_inj base f i j a :
  NoDup (m_memory_blocks f) -> Forall (aligned base) (m_memory_blocks f) ->
  0 <= i -> 0 <= j -> faddr f i = Some a -> faddr f j = Some a -> i = j.
Proof.
  intros Hnd Hal Hi Hj. unfold faddr.
  destruct (m_memory_blocks f !! Z.to_nat (i / block_size)) as [bi|] eqn:Ei; [|done].
  destruct (m_memory_blocks f !! Z.to_nat (j / block_size)) as [bj|] eqn:Ej; [|done].
  simpl. intros ? ?. simplify_eq. pose proof block_size_pos as Hb.
  destruct (block_div_mod i), (block_div_mod j).
  assert (bi = bj) as ->.
  { destruct (decide (bi = bj)) as [|Hne]; [done|]. exfalso.
    rewrite Forall_lookup in Hal.
    destruct (aligned_disjoint base bi bj); eauto; lia. }
  assert (Z.to_nat (i / block_size) = Z.to_nat (j / block_size)) as Hd
    by (eapply NoDup_lookup; eauto).
  pose proof (Z.div_pos i block_size Hi Hb). pose proof (Z.div_pos j block_size Hj Hb).
  assert (i / block_size = j / block_size) by lia. nia.
Qed.

(** Bytes of the same block are next to each other. *)
Lemma faddr_chunk f i b k :
  0 <= i -> m_memory_blocks f !! Z.to_nat (i / block_size) = Some b ->
  0 <= k -> i mod block_size + k < block_size ->
  faddr f (i + k) = Some (b + i mod block_size + k).
Proof.
  intros Hi Hb Hk Hlt. pose proof block_size_pos as Hbs.
  destruct (block_div_mod i).
  assert ((i + k) / block_size = i / block_size /\ (i + k) mod block_size = i mod block_size + k)
    as [Hd Hm].
  { split; symmetry; [apply Z.div_unique with (i mod block_size + k)
                     |apply Z.mod_unique with (i / block_size)]; lia. }
  unfold faddr. rewrite Hd, Hm, Hb. simpl. f_equal. lia.
Qed.

Lemma mem_read_chunk mem f i b n :
  0 <= i -> m_memory_blocks f !! Z.to_nat (i / block_size) = Some b ->
  i mod block_size + Z.of_nat n <= block_size ->
  mem_read mem (b + i mod block_size) n = fbyte mem f <$> seqZ i (Z.of_nat n).
Proof.
  intros Hi Hb Hn. apply list_eq. intros k.
  destruct (decide (k < n)%nat) as [Hk|Hk].
  - rewrite mem_read_lookup by done. rewrite list_lookup_fmap, lookup_seqZ_lt by lia. simpl.
    unfold fbyte. rewrite (faddr_chunk f i b) by (done || lia). done.
  - rewrite !lookup_ge_None_2; [done| |rewrite length_mem_read; lia].
    rewrite length_fmap, length_seqZ. lia.
Qed.
End BytesLemmas.

(** ** Reading *)

Section Read.
Context `{ConfigOk} `{Env}.

(** One pass covers the rest of a block or of the request. *)
Lemma pass_bounds offset rem :
  0 < rem -> let n := Z.min (block_size - offset mod block_size) rem in
  0 < n <= rem /\ offset mod block_size + n <= block_size /\
  (n = rem \/ ((offset + n) mod block_size + (rem - n)) / block_size + 1
              = (offset mod block_size + rem) / block_size).
Proof.
  intros Hr n. pose proof block_size_pos. destruct (block_div_mod offset) as [Hd Hm].
  split; [lia|]. split; [lia|].
  destruct (decide (rem <= block_size - offset mod block_size)); [left; lia|right].
  replace n with (block_size - offset mod block_size) by lia.
  assert ((offset + (block_size - offset mod block_size)) mod block_size = 0) as ->.
  { symmetry. apply Z.mod_unique with (offset / block_size + 1); lia. }
  rewrite <- Z.div_add by lia. f_equal. lia.
Qed.

(** Enough fuel for the [rem] bytes left at [offset]. *)
Definition fuel_ok (fuel : nat) (offset rem : Z) : Prop :=
  (rem = 0 /\ (0 < fuel)%nat) \/
  (0 <= rem /\ (offset mod block_size + rem) / block_size + 2 <= Z.of_nat fuel).

Lemma fuel_ok_pos fuel offset rem : fuel_ok fuel offset rem -> (0 < fuel)%nat.
Proof.
  intros [?|[Hr Hf]]; [lia|]. pose proof block_size_pos. destruct (block_div_mod offset).
  pose proof (Z.div_pos (offset mod block_size + rem) block_size). lia.
Qed.

Lemma fuel_ok_next fuel offset rem :
  0 < rem -> fuel_ok (S fuel) offset rem ->
  let n := Z.min (block_size - offset mod block_size) rem in
  fuel_ok fuel (offset + n) (rem - n).
Proof.
  intros Hr [|[_ Hf]] n; [lia|]. destruct (pass_bounds offset rem Hr) as (H1n & H2n & Hn).
  fold n in H1n, H2n, Hn. destruct Hn as [Hn|Hn].
  - left. split; [lia|]. destruct (block_div_mod offset). pose proof block_size_pos.
    pose proof (Z.div_pos (offset mod block_size + rem) block_size). lia.
  - right. lia.
Qed.

Lemma loop_fuel_ok offset count : 0 <= count -> fuel_ok (loop_fuel count) offset count.
Proof.
  intros Hc. right. split; [done|].
  pose proof block_size_pos as Hb. destruct (block_div_mod offset).
  pose proof (Z.div_pos count block_size Hc Hb). unfold loop_fuel. rewrite Z2Nat.id by lia.
  assert ((offset mod block_size + count) / block_size <= (count + 1 * block_size) / block_size)
    by (apply Z.div_le_mono; lia).
  rewrite Z.div_add in *; lia.
Qed.

Lemma read_loop_spec fuel offset count buf s :
  0 <= offset -> Z.of_nat (length buf) <= count ->
  offset + (count - Z.of_nat (length buf))
    <= Z.of_nat (length (m_memory_blocks (fs_file s))) * block_size < 2 ^ 64 ->
  fuel_ok fuel offset (count - Z.of_nat (length buf)) ->
  read_loop fuel offset count buf s =
    Done (buf ++ (fbyte (fs_mem s) (fs_file s) <$> seqZ offset (count - Z.of_nat (length buf)))) s.
Proof.
  pose proof block_size_pos as Hbs.
  revert offset buf. induction fuel as [|fuel IH]; intros offset buf Ho Hc Hcap Hfuel.
  { apply fuel_ok_pos in Hfuel. lia. }
  cbn [read_loop]. destruct (Z.ltb_spec (Z.of_nat (length buf)) count) as [Hlt|Hge].
  2: { replace (count - Z.of_nat (length buf)) with 0 by lia. simpl. by rewrite app_nil_r. }
  cbn [negb]. rewrite block_mask.
  set (rem := count - Z.of_nat (length buf)) in *.
  destruct (pass_bounds offset rem) as (Hn & Hblk & _); [lia|].
  apply fuel_ok_next in Hfuel; [|lia]. cbv zeta in Hfuel. set (n := Z.min _ _) in *.
  destruct (faddr_Some (fs_file s) offset) as (b & Hb & _); [lia|].
  unfold mbind, M_bind, gets, deref. rewrite Hb. simpl.
  rewrite (mem_read_chunk (fs_mem s) (fs_file s)) by (done || lia).
  rewrite Z2Nat.id, u64_small by lia.
  assert (Hrem : count - Z.of_nat (length (buf ++ (fbyte (fs_mem s) (fs_file s) <$> seqZ offset n)))
                 = rem - n).
  { rewrite length_app, length_fmap, length_seqZ. lia. }
  rewrite IH; rewrite ?Hrem; [|lia..|].
  - rewrite <- (assoc_L (++)), <- fmap_app, <- seqZ_app by lia. do 4 f_equal. lia.
  - done.
Qed.

(** The bytes a read at [offset] of [count] bytes is to return. *)
Definition read_result (data : list Z) (count offset : Z) : list Z :=
  take (Z.to_nat count) (drop (Z.to_nat offset) data).

Lemma drop_seqZ k m n : drop k (seqZ m n) = seqZ (m + Z.of_nat k) (n - Z.of_nat k).
Proof.
  apply list_eq. intros i. rewrite lookup_drop.
  destruct (decide (Z.of_nat (k + i) < n)).
  - rewrite !lookup_seqZ_lt by lia. f_equal. lia.
  - rewrite !lookup_ge_None_2; [done|rewrite length_seqZ; lia..].
Qed.

Lemma take_seqZ k m n : take k (seqZ m n) = seqZ m (Z.min (Z.of_nat k) n).
Proof.
  apply list_eq. intros i.
  destruct (decide (Z.of_nat i < Z.min (Z.of_nat k) n)).
  - rewrite lookup_take_lt by lia. rewrite !lookup_seqZ_lt by lia. done.
  - rewrite !lookup_ge_None_2; [done|..]; rewrite ?length_take, length_seqZ; lia.
Qed.

Lemma read_result_seqZ mem f count offset :
  0 <= count -> 0 <= offset ->
  read_result (file_data mem f) count offset
  = fbyte mem f <$> seqZ offset (Z.min count (m_size f - offset)).
Proof.
  intros. unfold read_result, file_data.
  rewrite <- fmap_drop, <- fmap_take, drop_seqZ, take_seqZ. do 2 f_equal; lia.
Qed.

Lemma File_read_spec count offset s :
  file_ok (fs_file s) -> 0 <= offset -> 0 <= count -> offset + count < 2 ^ 64 ->
  let bytes := read_result (file_data (fs_mem s) (fs_file s)) count offset in
  File_read count offset s =
    Done (Z.of_nat (length bytes), bytes)
         (set_tick (S (fs_tick s))
           (set_file (file_with_base (set_atime (env_clock (fs_tick s))) (fs_file s)) s)).
Proof.
  intros [Hsz Hcap] Ho Hc Hoc bytes. unfold File_read, mbind at 1, M_bind at 1.
  assert (Hb : read_bytes count offset s = Done bytes s); [|by rewrite Hb].
  unfold bytes, read_bytes, mbind at 1, M_bind at 1, gets.
  rewrite read_result_seqZ, (u64_small (offset + count)) by lia.
  destruct (Z.ltb_spec offset (m_size (fs_file s))).
  - set (c := if m_size (fs_file s) <? offset + count then _ else _).
    assert (c = Z.min count (m_size (fs_file s) - offset)) as Hceq.
    { unfold c. destruct (Z.ltb_spec (m_size (fs_file s)) (offset + count)); lia. }
    rewrite <- Hceq. cbn zeta. unfold mbind, M_bind.
    assert (Hc0 : c - Z.of_nat (length (@nil Z)) = c) by (simpl; lia).
    rewrite read_loop_spec; rewrite ?Hc0; [|simpl; lia..|apply loop_fuel_ok; lia].
    simpl. unfold assert_. rewrite length_fmap, length_seqZ.
    by rewrite (proj2 (Z.eqb_eq _ _)) by lia.
  - by rewrite (seqZ_nil offset (Z.min _ _)) by lia.
Qed.
End Read.

(** ** Writing *)

Section Write.
Context `{ConfigOk} `{Env}.

(** The blocks of a file are distinct and on the grid of [base]. *)
Definition blocks_wf (base : Z) (f : File) : Prop :=
  NoDup (m_memory_blocks f) /\ Forall (aligned base) (m_memory_blocks f).

(** [mem'] is [mem] with bytes [offset ..] of the file set to [bytes], and no
    other address touched. *)
Definition written (f : File) (mem mem' : gmap Z Z) (offset : Z) (bytes : list Z) : Prop :=
  (forall (k : nat) b a, bytes !! k = Some b -> faddr f (offset + Z.of_nat k) = Some a ->
     mem_get mem' a = b) /\
  (forall a, (forall k, (k < length bytes)%nat -> faddr f (offset + Z.of_nat k) <> Some a) ->
     mem_get mem' a = mem_get mem a).

Lemma written_nil f mem offset : written f mem mem offset [].
Proof. split; [intros ????; by rewrite lookup_nil in *|done]. Qed.

Lemma written_chunk f mem offset b bytes :
  0 <= offset -> m_memory_blocks f !! Z.to_nat (offset / block_size) = Some b ->
  offset mod block_size + Z.of_nat (length bytes) <= block_size ->
  written f mem (mem_write mem (b + offset mod block_size) bytes) offset bytes.
Proof.
  intros Ho Hb Hlen. split.
  - intros k x a Hk Ha. pose proof (lookup_lt_Some _ _ _ Hk).
    rewrite (faddr_chunk f offset b) in Ha by (done || lia). simplify_eq.
    by apply mem_get_write_in.
  - intros a Ha. apply mem_get_write_out.
    destruct (decide (b + offset mod block_size <= a < b + offset mod block_size + Z.of_nat (length bytes)));
      [|lia].
    exfalso. apply (Ha (Z.to_nat (a - (b + offset mod block_size)))); [lia|].
    rewrite (faddr_chunk f offset b) by (done || lia). f_equal. lia.
Qed.

Lemma written_app base f mem mem' mem'' offset l1 l2 :
  blocks_wf base f -> 0 <= offset ->
  written f mem mem' offset l1 -> written f mem' mem'' (offset + Z.of_nat (length l1)) l2 ->
  written f mem mem'' offset (l1 ++ l2).
Proof.
  intros [Hnd Hal] Ho [Hin1 Hout1] [Hin2 Hout2]. split.
  - intros k x a Hk Ha. apply lookup_app_Some in Hk as [Hk|[Hge Hk]].
    + rewrite Hout2; [by eapply Hin1|]. intros k' _ Ha'. pose proof (lookup_lt_Some _ _ _ Hk).
      assert (offset + Z.of_nat k = offset + Z.of_nat (length l1) + Z.of_nat k')
        by (eapply (faddr_inj base f); eauto; lia). lia.
    + eapply Hin2; [done|]. rewrite <- Ha. f_equal. lia.
  - intros a Ha. rewrite length_app in Ha. rewrite Hout2, Hout1; [done|..].
    + intros k Hk. apply Ha. lia.
    + intros k Hk. replace (offset + Z.of_nat (length l1) + Z.of_nat k)
        with (offset + Z.of_nat (length l1 + k)) by lia. apply Ha. lia.
Qed.

Lemma write_loop_spec base fuel offset retval count buf s :
  blocks_wf base (fs_file s) ->
  0 <= offset -> retval <= count -> count - retval <= Z.of_nat (length buf) ->
  offset + (count - retval)
    <= Z.of_nat (length (m_memory_blocks (fs_file s))) * block_size < 2 ^ 64 ->
  fuel_ok fuel offset (count - retval) ->
  exists mem', write_loop fuel offset retval count buf s = Done count (set_mem mem' s) /\
    written (fs_file s) (fs_mem s) mem' offset (take (Z.to_nat (count - retval)) buf).
Proof.
  pose proof block_size_pos as Hbs.
  revert offset retval buf s. induction fuel as [|fuel IH]; intros offset retval buf s Hwf Ho Hr Hl Hcap Hfuel.
  { apply fuel_ok_pos in Hfuel. lia. }
  cbn [write_loop]. destruct (Z.ltb_spec retval count) as [Hlt|Hge].
  2: { exists (fs_mem s). assert (retval = count) as -> by lia.
       rewrite Z.sub_diag. simpl. split; [by destruct s|apply written_nil]. }
  cbn [negb]. rewrite block_mask. set (rem := count - retval) in *.
  destruct (pass_bounds offset rem) as (Hn & Hblk & _); [lia|].
  apply fuel_ok_next in Hfuel; [|lia]. cbv zeta in Hfuel. set (n := Z.min _ _) in *.
  destruct (faddr_Some (fs_file s) offset) as (b & Hb & _); [lia|].
  unfold mbind, M_bind, gets, deref, modify. rewrite Hb. simpl.
  rewrite (proj2 (Z.ltb_ge _ _)) by lia. rewrite u64_small by lia.
  set (s1 := set_mem _ s).
  destruct (IH (offset + n) (retval + n) (drop (Z.to_nat n) buf) s1) as (mem' & -> & Hw);
    rewrite ?length_drop; try done; try lia.
  { replace (count - (retval + n)) with (rem - n) by lia. simpl. lia. }
  { by replace (count - (retval + n)) with (rem - n) by lia. }
  exists mem'. split; [done|].
  assert (take (Z.to_nat rem) buf
          = take (Z.to_nat n) buf ++ take (Z.to_nat (count - (retval + n))) (drop (Z.to_nat n) buf)) as ->.
  { rewrite <- (take_drop (Z.to_nat n) (take (Z.to_nat rem) buf)).
    rewrite take_take, take_drop_commute. f_equal; f_equal; [lia|f_equal; lia]. }
  eapply (written_app base); [done..| |].
  - apply written_chunk; [done..|]. rewrite length_take. lia.
  - replace (offset + Z.of_nat (length (take (Z.to_nat n) buf))) with (offset + n)
      by (rewrite length_take; lia). exact Hw.
Qed.

Lemma written_fbyte base f mem mem' offset bytes i :
  blocks_wf base f -> 0 <= offset -> 0 <= i ->
  offset + Z.of_nat (length bytes) <= Z.of_nat (length (m_memory_blocks f)) * block_size ->
  written f mem mem' offset bytes ->
  fbyte mem' f i =
    if decide (offset <= i < offset + Z.of_nat (length bytes))
    then default 0 (bytes !! Z.to_nat (i - offset)) else fbyte mem f i.
Proof.
  intros [Hnd Hal] Ho Hi Hcap [Hin Hout]. case_decide as Hr.
  - destruct (faddr_Some f i) as (b & _ & Ha); [lia|].
    destruct (lookup_lt_is_Some_2 bytes (Z.to_nat (i - offset))) as [x Hx]; [lia|].
    unfold fbyte. rewrite Ha, Hx. simpl. eapply Hin; [done|]. rewrite <- Ha. f_equal. lia.
  - unfold fbyte. destruct (faddr f i) as [a|] eqn:Ha; [|done]. simpl. apply Hout.
    intros k Hk Ha'. apply Hr.
    assert (i = offset + Z.of_nat k) by (eapply (faddr_inj base f); eauto; lia). lia.
Qed.

(** [grow] adds exactly the missing blocks or, when there are too few free
    ones, returns [-ENOSPC].  A file with more blocks than the new size needs
    makes the unsigned difference wrap around, and the answer is [-ENOSPC] too. *)
Lemma grow_spec new_size s :
  bc_ok (fs_cache s) -> 0 <= new_size < 2 ^ 63 ->
  Z.of_nat (length (m_memory_blocks (fs_file s))) * block_size < 2 ^ 63 ->
  let diff := blocks_for new_size - Z.of_nat (length (m_memory_blocks (fs_file s))) in
  (0 <= diff <= m_blocks_free (fs_cache s) /\ exists bl cache',
     grow new_size s = Done 0
       (set_file (file_with_blocks (m_memory_blocks (fs_file s) ++ bl)
                    (m_orphan_blocks (fs_file s)) (fs_file s)) (set_cache cache' s)) /\
     Z.of_nat (length bl) = diff /\ bc_ok cache' /\
     bc_usable (fs_cache s) = bl ++ bc_usable cache' /\ m_memory cache' = m_memory (fs_cache s)) \/
  ((diff < 0 \/ m_blocks_free (fs_cache s) < diff) /\ grow new_size s = Done (- ENOSPC) s).
Proof.
  intros Hbc Hn Hcap diff. pose proof block_size_pos as Hb.
  destruct (blocks_for_spec new_size) as [Hf0 Hf]; [lia|].
  assert (Hlen : Z.of_nat (length (m_memory_blocks (fs_file s))) < 2 ^ 63) by nia.
  assert (Hbf : blocks_for new_size <= 2 ^ 63) by (apply blocks_for_le; nia).
  unfold grow, mbind, M_bind, gets, zoom. cbv beta zeta iota. fold diff.
  destruct (decide (diff = 0)) as [Hz|Hz].
  { rewrite Hz. left. split; [destruct Hbc; lia|]. exists [], (fs_cache s).
    split; [|by destruct Hbc]. simpl. rewrite app_nil_r. by destruct s as [[] ? ? ?]. }
  assert (Hu : u64 diff = diff \/ (diff < 0 /\ u64 diff = diff + 2 ^ 64 /\ 2 ^ 63 < u64 diff)).
  { destruct (decide (0 <= diff)); [left; apply u64_small; lia|right].
    assert (u64 diff = diff + 2 ^ 64) by (symmetry; apply Z.mod_unique with (-1); lia). lia. }
  rewrite (proj2 (Z.eqb_neq (u64 diff) 0)) by lia.
  pose proof (BufferCache_get_spec (u64 diff) (fs_cache s) Hbc (proj1 (u64_range _))) as Hget.
  apply wp_Done in Hget as (bl & c' & Hget & Hok & Hcase).
  rewrite Hget. cbv beta iota. destruct Hcase as [(Hlt & -> & ->)|(Hge & Hlbl & Hus & _ & Hm)].
  - right. split; [lia|]. change (Z.of_nat (length (@nil Z))) with 0.
    rewrite (proj2 (Z.eqb_neq 0 (u64 diff))) by lia. simpl. by destruct s.
  - destruct Hbc as [Hbc1 Hbc2]. assert (u64 diff = diff) as Hd by lia. rewrite Hd in *.
    left. split; [lia|]. exists bl, c'. rewrite Hlbl, Z.eqb_refl. done.
Qed.

(** [shrink] sets the surplus blocks aside as orphan blocks. *)
Lemma shrink_spec new_size s :
  0 <= new_size -> Z.of_nat (length (m_memory_blocks (fs_file s))) < 2 ^ 63 ->
  blocks_for new_size <= Z.of_nat (length (m_memory_blocks (fs_file s))) ->
  let f := fs_file s in
  shrink new_size s = Done 0
    (set_file (file_with_blocks (take (Z.to_nat (blocks_for new_size)) (m_memory_blocks f))
       (m_orphan_blocks f ++ drop (Z.to_nat (blocks_for new_size)) (m_memory_blocks f)) f) s).
Proof.
  intros Hn Hl Hle f. destruct (blocks_for_spec new_size) as [Hf0 Hf]; [lia|].
  unfold shrink, mbind at 1, M_bind at 1, gets. fold f in Hl, Hle |- *.
  rewrite u64_small by lia. destruct (Z.eqb_spec (Z.of_nat (length (m_memory_blocks f)) - blocks_for new_size) 0).
  - rewrite take_ge, drop_ge, app_nil_r by lia. unfold f. by destruct s as [[] ? ? ?].
  - by rewrite (proj2 (Z.ltb_ge _ _)) by lia.
Qed.
End Write.

(** ** Blocks are conserved and other files' bytes are left alone

    These facts hold of every call that returns, whatever its arguments. *)

Section Conservation.
Context `{ConfigOk} `{Env}.

Definition all_blocks (s : FState) : list Z :=
  m_memory_blocks (fs_file s) ++ m_orphan_blocks (fs_file s) ++ bc_usable (fs_cache s).

Definition in_block (b a : Z) : Prop := b <= a < b + block_size.

(** What a method may do to the state of a file: move blocks between the file
    and the cache and write to the blocks it ends up with. *)
Record moves (s s' : FState) : Prop := {
  moves_cache : bc_ok (fs_cache s');
  moves_blocks : all_blocks s' ≡ₚ all_blocks s;
  moves_memory : m_memory (fs_cache s') = m_memory (fs_cache s);
  moves_spare : bc_spare (fs_cache s') = bc_spare (fs_cache s);
  moves_ident : m_id (f_base (fs_file s')) = m_id (f_base (fs_file s)) /\
                m_type (f_base (fs_file s')) = m_type (f_base (fs_file s));
  moves_mem a : (forall b, b ∈ m_memory_blocks (fs_file s') -> ~ in_block b a) ->
                mem_get (fs_mem s') a = mem_get (fs_mem s) a
}.

(** A state change that keeps the blocks, the cache and the memory. *)
Lemma moves_same s s' :
  bc_ok (fs_cache s) ->
  m_memory_blocks (fs_file s') = m_memory_blocks (fs_file s) ->
  m_orphan_blocks (fs_file s') = m_orphan_blocks (fs_file s) ->
  m_id (f_base (fs_file s')) = m_id (f_base (fs_file s)) ->
  m_type (f_base (fs_file s')) = m_type (f_base (fs_file s)) ->
  fs_cache s' = fs_cache s -> fs_mem s' = fs_mem s -> moves s s'.
Proof.
  intros Hok Hm Ho Hi Ht Hc Hmem.
  split; unfold all_blocks; rewrite ?Hm, ?Ho, ?Hc, ?Hmem; done.
Qed.

Lemma moves_refl s : bc_ok (fs_cache s) -> moves s s.
Proof. intros. by apply moves_same. Qed.

(** A step that keeps the block list can follow any other step. *)
Lemma moves_trans s s' s'' :
  moves s s' -> moves s' s'' ->
  (forall b, b ∈ m_memory_blocks (fs_file s') -> b ∈ m_memory_blocks (fs_file s'')) ->
  moves s s''.
Proof.
  intros [? Hb1 Hm1 Hs1 [Hi1 Ht1] Hw1] [? Hb2 Hm2 Hs2 [Hi2 Ht2] Hw2] Hsub. split.
  - done.
  - by rewrite Hb2.
  - by rewrite Hm2.
  - by rewrite Hs2.
  - by rewrite Hi2, Ht2.
  - intros a Ha. rewrite Hw2 by done. apply Hw1. eauto.
Qed.

Lemma grow_moves n s :
  bc_ok (fs_cache s) ->
  wlp (grow n) (fun _ s' => moves s s' /\ fs_mem s' = fs_mem s /\
    forall b, b ∈ m_memory_blocks (fs_file s) -> b ∈ m_memory_blocks (fs_file s')) s.
Proof.
  intros Hok. unfold grow. do 2 wlp_step. cbv zeta.
  set (diff := u64 _). wlp_step; [wlp_step; eauto using moves_refl|].
  pose proof (BufferCache_get_spec diff _ Hok (proj1 (u64_range _))) as Hsp.
  wlp_step. apply wlp_zoom. eapply wlp_mono; [apply wp_wlp, Hsp|]. simpl.
  intros bl c' [Hok' Hcase]. destruct (Z.eqb_spec (Z.of_nat (length bl)) diff) as [Hl|Hl]; simpl.
  - wlp_steps. destruct Hcase as [(_ & -> & _)|(_ & _ & Hus & Hsp' & Hm)].
    { rewrite (proj2 (Z.eqb_eq diff 0)) in Heqb by (simpl in Hl; lia). done. }
    split; [|set_solver]. split; simpl; try done. unfold all_blocks; simpl. rewrite Hus.
    rewrite <- !(assoc_L (++)). f_equiv. apply Permutation_app_middle_swap.
  - wlp_steps. destruct Hcase as [(_ & -> & ->)|(_ & ? & _)]; [|done].
    split; [by apply moves_same|done].
Qed.

Lemma shrink_moves n s :
  bc_ok (fs_cache s) -> wlp (shrink n) (fun _ s' => moves s s' /\ fs_mem s' = fs_mem s) s.
Proof.
  intros Hok. unfold shrink. wlp_steps; (split; [|done]); [by apply moves_refl|].
  split; simpl; try done. unfold all_blocks; simpl.
  rewrite <- (take_drop (Z.to_nat (blocks_for n)) (m_memory_blocks (fs_file s))) at 3.
  rewrite <- !(assoc_L (++)). f_equiv.
  rewrite (Permutation_app_middle_swap (m_orphan_blocks _)). done.
Qed.

Lemma write_loop_moves fuel offset retval count buf s :
  bc_ok (fs_cache s) ->
  wlp (write_loop fuel offset retval count buf)
    (fun _ s' => moves s s' /\ m_memory_blocks (fs_file s') = m_memory_blocks (fs_file s)) s.
Proof.
  revert offset retval buf s. induction fuel as [|fuel IH]; intros offset retval buf s Hok; [done|].
  cbn [write_loop]. wlp_step; [wlp_step; by split; [apply moves_refl|]|].
  cbv zeta. rewrite block_mask. do 3 wlp_step. apply wlp_deref. intros b Hb.
  wlp_step; [apply wlp_undef|]. do 2 wlp_step.
  destruct (block_div_mod offset) as [_ Hm].
  set (n := Z.min _ _) in *. set (s1 := set_mem _ s).
  eapply wlp_mono; [by apply IH|]. simpl. intros ? s2 [Hmv Hbl].
  split; [|by rewrite Hbl]. eapply moves_trans; [|done|by rewrite Hbl].
  split; try done. simpl. intros x Ha. apply mem_get_write_out.
  specialize (Ha b (list_elem_of_lookup_2 _ _ _ Hb)). unfold in_block in Ha.
  rewrite length_take. lia.
Qed.

(** [moves] together with: no block left the file. *)
Definition moves_mono (s s' : FState) : Prop :=
  moves s s' /\ forall b, b ∈ m_memory_blocks (fs_file s) -> b ∈ m_memory_blocks (fs_file s').

Lemma moves_mono_trans s s' s'' : moves_mono s s' -> moves_mono s' s'' -> moves_mono s s''.
Proof. intros [? Hs] [? Hs']. split; [by eapply moves_trans; eauto|eauto]. Qed.

Lemma moves_mono_same s s' :
  bc_ok (fs_cache s) ->
  m_memory_blocks (fs_file s') = m_memory_blocks (fs_file s) ->
  m_orphan_blocks (fs_file s') = m_orphan_blocks (fs_file s) ->
  m_id (f_base (fs_file s')) = m_id (f_base (fs_file s)) ->
  m_type (f_base (fs_file s')) = m_type (f_base (fs_file s)) ->
  fs_cache s' = fs_cache s -> fs_mem s' = fs_mem s -> moves_mono s s'.
Proof. intros ? Hm ?????. split; [by apply moves_same|]. by rewrite Hm. Qed.

Lemma File_write_moves buf count offset s :
  bc_ok (fs_cache s) -> wlp (File_write buf count offset) (fun _ s' => moves_mono s s') s.
Proof.
  intros Hok. unfold File_write. wlp_step; [wlp_step; by apply moves_mono_same|]. wlp_step.
  apply wlp_mono with (Q := fun _ s' => moves_mono s s').
  { unfold write_grow. do 2 wlp_step. wlp_step; [|wlp_step; by apply moves_mono_same]. wlp_step.
    eapply wlp_mono; [by apply grow_moves|]. simpl. intros ? s1 (Hmv & _ & Hsub). wlp_steps.
    apply (moves_mono_trans _ s1); [done|]. apply moves_mono_same; try done. by apply Hmv. }
  simpl. intros r s1 Hmv. wlp_step; [by wlp_step|]. wlp_step.
  eapply wlp_mono; [apply write_loop_moves, Hmv|]. simpl. intros ? s2 [Hmv2 Hbl].
  assert (moves_mono s s2) as Hmv'.
  { eapply moves_mono_trans; [done|]. split; [done|]. by rewrite Hbl. }
  unfold f_clock, f_base_update. do 4 wlp_step. apply wlp_zoom. unfold tick, wlp. simpl.
  eapply moves_mono_trans; [done|]. apply moves_mono_same; try done. by apply Hmv'.
Qed.

Lemma File_truncate_moves n s :
  bc_ok (fs_cache s) -> wlp (File_truncate n) (fun _ s' => moves s s' /\ fs_mem s' = fs_mem s) s.
Proof.
  intros Hok. unfold File_truncate. do 3 wlp_step.
  apply wlp_mono with (Q := fun _ s' => moves s s' /\ fs_mem s' = fs_mem s).
  { do 2 (try wlp_step).
    - eapply wlp_mono; [by apply grow_moves|]. simpl. naive_solver.
    - by apply shrink_moves.
    - wlp_step. by split; [apply moves_refl|]. }
  simpl. intros r s1 [Hmv Hmem]. wlp_steps; [done|]. split; [|done].
  eapply moves_trans; [done| |done]. apply moves_same; try done. by apply Hmv.
Qed.

Lemma File_read_moves count offset s :
  wlp (File_read count offset) (fun _ s' => fs_cache s' = fs_cache s /\ fs_mem s' = fs_mem s /\
    exists now, fs_file s' = file_with_base (set_atime now) (fs_file s)) s.
Proof.
  unfold File_read, f_clock, f_base_update. wlp_step.
  apply wlp_mono with (Q := fun _ s' => s' = s).
  { assert (Hloop : forall fuel offset count buf,
      wlp (read_loop fuel offset count buf) (fun _ s' => s' = s) s).
    { intros fuel. induction fuel as [|fuel IH]; intros off c buf; [done|].
      cbn [read_loop]. wlp_steps; [done|]. apply IH. }
    unfold read_bytes. do 3 wlp_step; [|by wlp_step]. cbv zeta. wlp_step.
    eapply wlp_mono; [apply Hloop|]. simpl. intros ?? ->. by wlp_steps. }
  simpl. intros buf ? ->. do 2 wlp_step. apply wlp_zoom. unfold tick, wlp. simpl. eauto.
Qed.

Lemma File_blocks_moves offset count s : wlp (File_blocks offset count) (fun _ s' => s' = s) s.
Proof. unfold File_blocks. by wlp_steps. Qed.

(** The destructor hands every block of the file back. *)
Lemma File_delete_spec s :
  bc_ok (fs_cache s) ->
  Z.of_nat (length (m_memory_blocks (fs_file s) ++ m_orphan_blocks (fs_file s)))
    + Z.of_nat (length (m_blocks (fs_cache s))) < 2 ^ 63 ->
  exists c', File_delete s = Done tt (set_cache c' s) /\ bc_ok c' /\
    m_memory c' = m_memory (fs_cache s) /\ bc_usable c' ≡ₚ all_blocks s /\
    bc_spare c' = bc_spare (fs_cache s).
Proof.
  intros Hok Hb. rewrite length_app in Hb.
  pose proof (BufferCache_put_spec (m_memory_blocks (fs_file s)) _ Hok ltac:(lia)) as H1p.
  apply wp_Done in H1p as ([] & c1 & Hp1 & Hok1 & Hu1 & Hb1 & Hs1 & Hm1).
  pose proof (BufferCache_put_spec (m_orphan_blocks (fs_file s)) _ Hok1) as H2p.
  rewrite Hb1, length_app in H2p. specialize (H2p ltac:(lia)).
  apply wp_Done in H2p as ([] & c2 & Hp2 & Hok2 & Hu2 & _ & Hs2 & Hm2).
  exists c2. unfold File_delete, mbind, M_bind, gets, zoom. rewrite Hp1.
  cbn [set_cache fs_cache]. rewrite Hp2.
  split; [done|]. split; [done|]. split; [congruence|]. rewrite Hu2, Hu1. split; [|congruence].
  unfold all_blocks. apply Permutation_app_middle_swap.
Qed.
End Conservation.

(** ** The contents of a file after a write *)

Section Contents.
Context `{ConfigOk} `{Env}.

(** The state of a file that its blocks, the free blocks and the cache are
    consistent in. *)
Definition fstate_wf (base : Z) (s : FState) : Prop :=
  bc_ok (fs_cache s) /\ file_ok (fs_file s) /\
  NoDup (all_blocks s) /\ Forall (aligned base) (all_blocks s).

(** Enough free blocks for the file to end at [new_size]; the file must not
    have more blocks than that size needs. *)
Definition can_grow (new_size : Z) (s : FState) : Prop :=
  m_size (fs_file s) < new_size ->
  0 <= blocks_for new_size - Z.of_nat (length (m_memory_blocks (fs_file s)))
    <= m_blocks_free (fs_cache s).

(** [data] with [bytes] put at [offset]; [gap] is what lies between the old end
    and [offset]. *)
Definition splice (data gap : list Z) (offset : Z) (bytes : list Z) : list Z :=
  take (Z.to_nat offset) (data ++ gap) ++ bytes ++ drop (Z.to_nat offset + length bytes) data.

Lemma fstate_wf_blocks base s : fstate_wf base s -> blocks_wf base (fs_file s).
Proof.
  intros (_ & _ & Hnd & Hal). unfold all_blocks in *. split.
  - by apply NoDup_app in Hnd as [? _].
  - by apply Forall_app in Hal as [? _].
Qed.

Lemma write_grow_spec base new_size s :
  fstate_wf base s -> 0 <= new_size -> new_size + block_size < 2 ^ 63 -> can_grow new_size s ->
  exists bl c' , let s' := set_file (mkFile (f_base (fs_file s)) (m_memory_blocks (fs_file s) ++ bl)
                     (m_orphan_blocks (fs_file s)) (Z.max (m_size (fs_file s)) new_size)) (set_cache c' s) in
    write_grow new_size s = Done 0 s' /\ fstate_wf base s'.
Proof.
  intros Hwf Hn Hn' Hcan. pose proof block_size_pos as Hb.
  destruct Hwf as (Hok & [Hsz Hcap] & Hnd & Hal). unfold write_grow, mbind at 1, M_bind at 1, gets.
  destruct (Z.ltb_spec (m_size (fs_file s)) new_size) as [Hlt|Hge].
  - specialize (Hcan Hlt). destruct (blocks_for_spec new_size Hn) as [? Hbf].
    destruct (grow_spec new_size s Hok) as [(_ & bl & c' & Hg & Hl & Hok' & Hus & Hm)|[? _]]; [lia..| |lia].
    exists bl, c'. unfold mbind, M_bind. rewrite Hg. simpl. rewrite Z.max_r by lia.
    split; [done|]. unfold fstate_wf, file_ok, all_blocks; simpl. split; [done|].
    rewrite length_app. split; [nia|].
    unfold all_blocks in Hnd, Hal. rewrite Hus in Hnd, Hal.
    assert (Hperm : m_memory_blocks (fs_file s) ++ m_orphan_blocks (fs_file s) ++ bl ++ bc_usable c'
                    ≡ₚ (m_memory_blocks (fs_file s) ++ bl) ++ m_orphan_blocks (fs_file s) ++ bc_usable c').
    { rewrite <- !(assoc_L (++)). f_equiv. apply Permutation_app_middle_swap. }
    by rewrite <- !Hperm.
  - exists [], (fs_cache s). rewrite app_nil_r, Z.max_l by lia.
    destruct s as [[] ? ? ?]; simpl in *. done.
Qed.

Lemma fbyte_prefix mem f f' bl i :
  m_memory_blocks f' = m_memory_blocks f ++ bl ->
  0 <= i < Z.of_nat (length (m_memory_blocks f)) * block_size ->
  fbyte mem f' i = fbyte mem f i.
Proof.
  intros Hbl Hi. destruct (faddr_Some f i Hi) as (b & Hb & _).
  unfold fbyte, faddr. rewrite Hbl, lookup_app_l, Hb; [done|]. by eapply lookup_lt_Some.
Qed.

Lemma fmap_seqZ_ext (g h : Z -> Z) m n :
  (forall i, m <= i < m + n -> g i = h i) -> g <$> seqZ m n = h <$> seqZ m n.
Proof.
  intros Hgh. apply list_fmap_ext. intros k x Hx. apply lookup_seqZ in Hx. apply Hgh. lia.
Qed.

Lemma fmap_seqZ_list (g : Z -> Z) m (l : list Z) :
  (forall k x, l !! k = Some x -> g (m + Z.of_nat k) = x) ->
  g <$> seqZ m (Z.of_nat (length l)) = l.
Proof.
  intros Hg. apply list_eq. intros k. rewrite list_lookup_fmap.
  destruct (l !! k) as [x|] eqn:Hk.
  - pose proof (lookup_lt_Some _ _ _ Hk). rewrite lookup_seqZ_lt by lia. simpl. f_equal. by apply Hg.
  - apply lookup_ge_None in Hk. rewrite lookup_seqZ_ge by lia. done.
Qed.

(** The contents of the grown file, after the copy loop, are the spliced contents. *)
Lemma written_splice base f f' mem mem' offset bytes bl :
  file_ok f -> blocks_wf base f' -> 0 <= offset ->
  m_memory_blocks f' = m_memory_blocks f ++ bl ->
  m_size f' = Z.max (m_size f) (offset + Z.of_nat (length bytes)) ->
  offset + Z.of_nat (length bytes) <= Z.of_nat (length (m_memory_blocks f')) * block_size ->
  written f' mem mem' offset bytes ->
  file_data mem' f' =
    splice (file_data mem f) (fbyte mem f' <$> seqZ (m_size f) (offset - m_size f)) offset bytes.
Proof.
  intros [Hsz Hcap] Hwf Ho Hbl Hs' Hcap' Hw. unfold splice.
  assert (Hdata : file_data mem f = fbyte mem f' <$> seqZ 0 (m_size f)).
  { apply fmap_seqZ_ext. intros i Hi. symmetry. eapply fbyte_prefix; [done|lia]. }
  rewrite Hdata, <- fmap_app, <- fmap_drop, drop_seqZ.
  assert (take (Z.to_nat offset) (fbyte mem f' <$> seqZ 0 (m_size f) ++ seqZ (m_size f) (offset - m_size f))
          = fbyte mem f' <$> seqZ 0 offset) as ->.
  { rewrite <- fmap_take. f_equal. destruct (decide (m_size f <= offset)).
    - rewrite <- seqZ_app, take_seqZ by lia. f_equal. lia.
    - rewrite (seqZ_nil (m_size f)) by lia. rewrite app_nil_r, take_seqZ. f_equal. lia. }
  unfold file_data. rewrite Hs'.
  set (len := Z.of_nat (length bytes)) in *.
  replace (Z.max (m_size f) (offset + len)) with (offset + (len + Z.max 0 (m_size f - (offset + len)))) by lia.
  rewrite !seqZ_app, !fmap_app by lia. f_equal; [|f_equal].
  - apply fmap_seqZ_ext. intros i Hi. rewrite (written_fbyte base f' mem mem' offset bytes) by (done || lia).
    rewrite decide_False by lia. done.
  - rewrite Z.add_0_l. apply fmap_seqZ_list. intros k x Hk. pose proof (lookup_lt_Some _ _ _ Hk).
    rewrite (written_fbyte base f' mem mem' offset bytes) by (done || lia). rewrite decide_True by lia.
    replace (Z.to_nat (offset + Z.of_nat k - offset)) with k by lia. by rewrite Hk.
  - replace (0 + offset + len) with (0 + Z.of_nat (Z.to_nat offset + length bytes)) by lia.
    replace (Z.max 0 (m_size f - (offset + len)))
      with (Z.max 0 (m_size f - Z.of_nat (Z.to_nat offset + length bytes))) by lia.
    transitivity (fbyte mem' f' <$> seqZ (0 + Z.of_nat (Z.to_nat offset + length bytes))
                    (m_size f - Z.of_nat (Z.to_nat offset + length bytes))).
    { f_equal. apply list_eq. intros k. unfold seqZ. do 3 f_equal. lia. }
    apply fmap_seqZ_ext. intros i Hi. rewrite (written_fbyte base f' mem mem' offset bytes) by (done || lia).
    rewrite decide_False by lia. done.
Qed.

Lemma File_write_spec base buf count offset s :
  fstate_wf base s -> 0 <= offset -> 0 < count <= Z.of_nat (length buf) ->
  offset + count + block_size < 2 ^ 63 -> can_grow (offset + count) s ->
  exists s' gap, File_write buf count offset s = Done count s' /\
    fstate_wf base s' /\ length gap = Z.to_nat (offset - m_size (fs_file s)) /\
    m_size (fs_file s') = Z.max (m_size (fs_file s)) (offset + count) /\
    file_data (fs_mem s') (fs_file s')
      = splice (file_data (fs_mem s) (fs_file s)) gap offset (take (Z.to_nat count) buf) /\
    moves_mono s s'.
Proof.
  intros Hwf Ho Hc Hmax Hcan. pose proof block_size_pos as Hb.
  pose proof (File_write_moves buf count offset s (proj1 Hwf)) as Hmv.
  destruct (write_grow_spec base (offset + count) s) as (bl & c' & Hg & Hwf1); [done|lia..|done|].
  set (s1 := set_file _ _) in *. pose proof Hwf1 as (_ & [Hsz1 Hcap1] & _).
  assert (Hms : m_size (fs_file s1) = Z.max (m_size (fs_file s)) (offset + count)) by done.
  destruct (write_loop_spec base (loop_fuel count) offset 0 count buf s1) as (mem' & Hl & Hw);
    [by apply fstate_wf_blocks|lia..|rewrite Z.sub_0_r; apply loop_fuel_ok; lia|].
  rewrite Z.sub_0_r in Hw. unfold wlp, File_write in Hmv |- *.
  rewrite (proj2 (Z.eqb_neq count 0)), (u64_small (offset + count)) in Hmv |- * by lia.
  unfold mbind, M_bind in Hmv |- *. rewrite Hg in Hmv |- *. cbn [negb Z.eqb] in Hmv |- *.
  rewrite Hl in Hmv |- *. unfold assert_ in Hmv |- *. rewrite Z.eqb_refl in Hmv |- *. simpl in Hmv |- *.
  eexists _, _. split; [done|]. split; [exact Hwf1|]. split; [|split; [done|split; [|exact Hmv]]].
  2: { eapply (written_splice base (fs_file s) (fs_file s1) (fs_mem s1) mem' offset
         (take (Z.to_nat count) buf) bl);
         [apply Hwf|by apply fstate_wf_blocks|done|done|..|done];
         rewrite length_take; lia. }
  rewrite length_fmap, length_seqZ. done.
Qed.

(** Reading a range of spliced contents that lies inside the spliced bytes. *)
Lemma read_result_splice data gap offset bytes :
  0 <= offset -> length gap = Z.to_nat (offset - Z.of_nat (length data)) ->
  read_result (splice data gap offset bytes) (Z.of_nat (length bytes)) offset = bytes.
Proof.
  intros Ho Hgap. unfold read_result, splice. rewrite Nat2Z.id.
  rewrite drop_app_length' by (rewrite length_take, length_app; lia).
  by rewrite take_app_length.
Qed.

Lemma length_file_data mem f : 0 <= m_size f -> Z.of_nat (length (file_data mem f)) = m_size f.
Proof. intros. unfold file_data. rewrite length_fmap, length_seqZ. lia. Qed.

(** [truncate] to a size the blocks already allow keeps the contents up to it. *)
Lemma file_data_shrink mem f n :
  0 <= n <= m_size f -> file_ok f ->
  file_data mem (mkFile (f_base f) (take (Z.to_nat (blocks_for n)) (m_memory_blocks f))
    (m_orphan_blocks f ++ drop (Z.to_nat (blocks_for n)) (m_memory_blocks f)) n)
  = take (Z.to_nat n) (file_data mem f).
Proof.
  intros Hn [Hsz Hcap]. destruct (blocks_for_spec n) as [Hbf Hr]; [lia|].
  unfold file_data; simpl. rewrite <- fmap_take, take_seqZ.
  replace (Z.min (Z.of_nat (Z.to_nat n)) (m_size f)) with n by lia.
  apply fmap_seqZ_ext. intros i Hi. symmetry.
  assert (blocks_for n <= Z.of_nat (length (m_memory_blocks f))) by (apply blocks_for_le; lia).
  eapply fbyte_prefix; [simpl; by rewrite take_drop|]. simpl. rewrite length_take. nia.
Qed.
End Contents.

(** ** Properties of the file class *)

Section FileProperties.
Context `{ConfigOk} `{Env}.

(** Whatever a method did, a file with other blocks keeps its contents. *)
Lemma moves_other base s s' g :
  moves s s' ->
  Forall (aligned base) (m_memory_blocks (fs_file s')) -> Forall (aligned base) (m_memory_blocks g) ->
  (forall b, b ∈ m_memory_blocks g -> b ∉ m_memory_blocks (fs_file s')) ->
  file_data (fs_mem s') g = file_data (fs_mem s) g.
Proof.
  intros Hmv Hal Halg Hdisj. apply fmap_seqZ_ext. intros i _. unfold fbyte.
  destruct (faddr g i) as [a|] eqn:Ha; [|done]. simpl. apply Hmv. intros b Hb Hin.
  unfold faddr in Ha.
  destruct (m_memory_blocks g !! Z.to_nat (i / block_size)) as [bg|] eqn:Hbg; [|done].
  simplify_eq/=. pose proof (list_elem_of_lookup_2 _ _ _ Hbg) as Hbg'.
  rewrite Forall_forall in Hal, Halg. destruct (block_div_mod i) as [_ Hm].
  destruct (aligned_disjoint base b bg) as [|]; unfold in_block in *; eauto; [|lia..].
  intros ->. by apply (Hdisj bg).
Qed.


(** C16: Reading from a file returns exactly the bytes of its contents from the
    offset on, at most [count] of them and none past the end of the file, and
    changes nothing but the access time.  The copy loop terminates. *)
Theorem file_read_contents count offset s :
  file_ok (fs_file s) -> 0 <= offset -> 0 <= count -> offset + count < 2 ^ 64 ->
  exists s', File_read count offset s =
    Done (Z.max 0 (Z.min count (m_size (fs_file s) - offset)),
          read_result (file_data (fs_mem s) (fs_file s)) count offset) s' /\
  fs_mem s' = fs_mem s /\ fs_cache s' = fs_cache s /\
  fs_file s' = file_with_base (set_atime (env_clock (fs_tick s))) (fs_file s).
Proof.
  intros Hok Ho Hc Hoc. rewrite File_read_spec by done.
  assert (Z.of_nat (length (read_result (file_data (fs_mem s) (fs_file s)) count offset))
          = Z.max 0 (Z.min count (m_size (fs_file s) - offset))) as ->; [|by eexists].
  rewrite read_result_seqZ, length_fmap, length_seqZ by lia. lia.
Qed.

(** C17: Truncating a file to a smaller size keeps the first bytes, and the
    blocks it no longer needs stay with the file as orphan blocks, so a client
    that still maps them never sees them reused while the file exists. *)
Theorem file_truncate_contents base n s :
  fstate_wf base s -> 0 <= n < m_size (fs_file s) ->
  exists s', File_truncate n s = Done 0 s' /\ fstate_wf base s' /\
    file_data (fs_mem s') (fs_file s') = take (Z.to_nat n) (file_data (fs_mem s) (fs_file s)) /\
    fs_cache s' = fs_cache s /\
    m_memory_blocks (fs_file s') ++ m_orphan_blocks (fs_file s')
      ≡ₚ m_memory_blocks (fs_file s) ++ m_orphan_blocks (fs_file s).
Proof.
  intros Hwf Hn. pose proof block_size_pos as Hb. pose proof Hwf as (Hok & [Hsz Hcap] & Hnd & Hal).
  assert (blocks_for n <= Z.of_nat (length (m_memory_blocks (fs_file s)))) as Hbl
    by (apply blocks_for_le; lia).
  destruct (blocks_for_spec n) as [Hbf Hr]; [lia|].
  set (f := fs_file s) in *.
  set (f' := mkFile (f_base f) (take (Z.to_nat (blocks_for n)) (m_memory_blocks f))
    (m_orphan_blocks f ++ drop (Z.to_nat (blocks_for n)) (m_memory_blocks f)) n).
  assert (Hperm : m_memory_blocks f' ++ m_orphan_blocks f' ≡ₚ m_memory_blocks f ++ m_orphan_blocks f).
  { simpl. rewrite <- (take_drop (Z.to_nat (blocks_for n)) (m_memory_blocks f)) at 3.
    rewrite <- !(assoc_L (++)). f_equiv. apply Permutation_app_comm. }
  exists (set_file f' s). split; [|split; [|split; [|done]]].
  - unfold File_truncate, mbind, M_bind, gets. fold f.
    rewrite (proj2 (Z.ltb_ge _ _)), (proj2 (Z.ltb_lt n _)) by lia.
    assert (Z.of_nat (length (m_memory_blocks f)) < 2 ^ 63) by nia.
    by rewrite shrink_spec by (unfold f in *; lia).
  - split; [done|]. split.
    + unfold file_ok; simpl. rewrite length_take. split; nia.
    + unfold all_blocks in *. simpl fs_file. simpl fs_cache. fold f in Hnd, Hal.
      rewrite !(assoc_L (++)) in *. by rewrite Hperm.
  - apply file_data_shrink; [lia|by apply Hwf].
Qed.

(** C18: A write that does not fit returns [-ENOSPC] and changes no byte and no
    block, but leaves the size set to the end of the failed request: the file
    then claims bytes it has no blocks for, and reading them indexes past the
    block vector. *)
Theorem file_write_no_space buf count offset s :
  bc_ok (fs_cache s) -> file_ok (fs_file s) -> 0 <= offset -> 0 < count ->
  offset + count + block_size < 2 ^ 63 -> ~ can_grow (offset + count) s ->
  let f' := file_with_size (offset + count) (fs_file s) in
  File_write buf count offset s = Done (- ENOSPC) (set_file f' s) /\
  (m_blocks_free (fs_cache s) < blocks_for (offset + count) - Z.of_nat (length (m_memory_blocks (fs_file s))) ->
   Z.of_nat (length (m_memory_blocks (fs_file s))) * block_size < offset + count /\
   File_read 1 (Z.of_nat (length (m_memory_blocks (fs_file s))) * block_size) (set_file f' s) = Undef).
Proof.
  intros Hok [Hsz Hcap] Ho Hc Hmax Hcan f'. pose proof block_size_pos as Hb.
  assert (Hlt : m_size (fs_file s) < offset + count).
  { destruct (decide (m_size (fs_file s) < offset + count)); [done|]. destruct Hcan. intros ?. lia. }
  destruct (blocks_for_spec (offset + count)) as [Hbf Hbr]; [lia|].
  set (len := Z.of_nat (length (m_memory_blocks (fs_file s)))) in *.
  destruct (grow_spec (offset + count) s Hok) as [(Hd & _)|[_ Hg]]; [lia..| |].
  { destruct Hcan. intros _. done. }
  split.
  - unfold File_write. rewrite (proj2 (Z.eqb_neq count 0)), u64_small by lia.
    unfold write_grow, mbind, M_bind, gets. rewrite (proj2 (Z.ltb_lt _ _)) by done. by rewrite Hg.
  - intros Hns. assert (Hfree : 0 <= m_blocks_free (fs_cache s)) by apply Hok.
    assert (Hlen : len * block_size < offset + count).
    { destruct (Z.lt_ge_cases (len * block_size) (offset + count)) as [|Hge]; [done|].
      apply blocks_for_le in Hge; lia. }
    split; [done|].
    unfold File_read, read_bytes, mbind, M_bind, gets. cbn [fs_file set_file m_size f' file_with_size].
    rewrite (proj2 (Z.ltb_lt _ _)), u64_small by (done || lia).
    replace (if offset + count <? len * block_size + 1 then offset + count - len * block_size else 1) with 1
      by (destruct (Z.ltb_spec (offset + count) (len * block_size + 1)); lia).
    assert (exists n, loop_fuel 1 = S n) as [n ->].
    { exists (Nat.pred (loop_fuel 1)). pose proof (fuel_ok_pos _ 0 _ (loop_fuel_ok 0 1 ltac:(lia))). lia. }
    cbn [read_loop length]. rewrite Z.div_mul by lia. unfold mbind, M_bind, gets, deref. simpl.
    rewrite lookup_ge_None_2; [done|]. lia.
Qed.
End FileProperties.

(** ** A small file *)

(** Blocks of four bytes. *)
Definition tiny_config : Config := {|
  CONFIG_HARDWARE_KHZ := 2000000; CONFIG_CHANNEL_BUF_SIZE := 65536;
  CONFIG_FS_SERVER_COUNT := 1; CONFIG_MAX_FNAME_LEN := 4096;
  CONFIG_FS_CHUNK_SIZE := 32768; CONFIG_FD_COUNT := 256;
  CONFIG_BUFFER_CACHE_SIZE := 1; CONFIG_BUFFER_CACHE_BLOCKSIZE := 4;
  ENABLE_DIRECTORY_DISTRIBUTION := true; ENABLE_DIRECTORY_CACHE := true;
  ENABLE_DBG_SHOW_OPS := true; ENABLE_RM_SCATTER_GATHER := true; ENABLE_DENT_SNAPSHOT := true
|}.

#[export] Instance tiny_config_ok : @ConfigOk tiny_config.
Proof. split; simpl; [exists 2|..]; lia. Qed.

Definition tiny_base : VFileBase :=
  VFile_new 0 7 {| tv_sec := 0; tv_nsec := 0 |} TYPE_FILE 420.

(** Five bytes in two blocks; two blocks are free, and a neighbour has one. *)
Definition tiny_state : FState :=
  mkFState (mkFile tiny_base [1008; 1000] [1012] 5)
    (mkBufferCache 0 1000 [1004; 1020] 2)
    (list_to_map [(1008, 1); (1009, 2); (1010, 3); (1011, 4); (1000, 5); (1016, 9)]) 0.

Definition tiny_neighbour : File := mkFile tiny_base [1016] [] 1.

Lemma tiny_wf : @fstate_wf tiny_config 1000 tiny_state.
Proof. vm_compute. repeat split; try lia; try congruence; by apply (bool_decide_unpack _). Qed.


Lemma file_read_contents_witness :
  exists s', @File_read tiny_config plain_env 10 2 tiny_state = Done (3, [3; 4; 5]) s' /\
             fs_mem s' = fs_mem tiny_state.
Proof.
  destruct (@file_read_contents tiny_config tiny_config_ok plain_env 10 2 tiny_state)
    as (s' & Hr & Hm & _); [apply tiny_wf|lia|lia|lia|].
  exists s'. split; [exact Hr|done].
Defined.

Lemma file_truncate_contents_witness :
  exists s', @File_truncate tiny_config 3 tiny_state = Done 0 s' /\
             @file_data tiny_config (fs_mem s') (fs_file s') = [1; 2; 3] /\
             m_memory_blocks (fs_file s') = [1008].
Proof.
  destruct (@file_truncate_contents tiny_config tiny_config_ok 1000 3 tiny_state)
    as (s' & Hr & _ & Hd & _); [apply tiny_wf|simpl; lia|].
  exists s'. split; [done|]. split; [exact Hd|]. vm_compute in Hr. by simplify_eq.
Defined.

Lemma file_write_no_space_witness :
  exists s', @File_write tiny_config plain_env (repeat 7 40) 40 0 tiny_state = Done (- ENOSPC) s' /\
             m_size (fs_file s') = 40 /\ @File_read tiny_config plain_env 1 8 s' = Undef.
Proof.
  destruct (@file_write_no_space tiny_config tiny_config_ok plain_env (repeat 7 40) 40 0 tiny_state)
    as [Hr Hu]; [apply tiny_wf|apply tiny_wf|lia|lia|vm_compute; done| |].
  - intros Hcan. specialize (Hcan ltac:(done)). vm_compute in Hcan. destruct Hcan as [_ Hcan]. by apply Hcan.
  - eexists. split; [exact Hr|]. split; [done|]. by apply Hu.
Defined.
