(* ===== verification/FsNode.v ===== *)
(** * Directories, pipes, symbolic links and descriptors of the server

    The other subclasses of [VFile] in [sys/fs/file.hpp] and [sys/fs/file.cpp],
    the sum of all of them, and [FileDescriptor] of [sys/fs/server.hpp]. *)

From S2P Require Import Prelude FsTypes BufferCache FsFile.

(** ** Directories *)

(** A directory entry is a heap object; the server remembers its address. *)
Record VFileLoc : Type := mkVFileLoc { vfl_addr : Z; vfl_inode : InodeType }.

Definition vfl_isDir (l : VFileLoc) : bool :=
  match it_type (vfl_inode l) with TYPE_DIR | TYPE_DIR_SHARED => true | _ => false end.
Definition vfl_isFile (l : VFileLoc) : bool :=
  match it_type (vfl_inode l) with TYPE_FILE => true | _ => false end.
Definition vfl_isSymlink (l : VFileLoc) : bool :=
  match it_type (vfl_inode l) with TYPE_SYMLINK => true | _ => false end.
Definition vfl_isShared (l : VFileLoc) : bool :=
  match it_type (vfl_inode l) with TYPE_DIR_SHARED => true | _ => false end.

(** [ChildMap] in its current iteration order. *)
Definition ChildMap : Type := list (string * VFileLoc).

Fixpoint child_find (name : string) (c : ChildMap) : option VFileLoc :=
  match c with
  | [] => None
  | (k, l) :: c' => if (k =? name)%string then Some l else child_find name c'
  end.

Fixpoint child_replace (name : string) (l : VFileLoc) (c : ChildMap) : ChildMap :=
  match c with
  | [] => []
  | (k, l') :: c' => if (k =? name)%string then (k, l) :: c' else (k, l') :: child_replace name l c'
  end.

Fixpoint child_erase (name : string) (c : ChildMap) : ChildMap :=
  match c with
  | [] => []
  | (k, l) :: c' => if (k =? name)%string then c' else (k, l) :: child_erase name c'
  end.

Record Dir : Type := mkDir {
  d_base : VFileBase;
  m_vdir : bool;
  m_locked : bool;
  m_children : ChildMap
}.

Definition dir_with_children (c : ChildMap) (d : Dir) : Dir :=
  mkDir (d_base d) (m_vdir d) (m_locked d) c.
Definition dir_with_lock (l : bool) (d : Dir) : Dir :=
  mkDir (d_base d) (m_vdir d) l (m_children d).
Definition dir_with_base (b : VFileBase) (d : Dir) : Dir :=
  mkDir b (m_vdir d) (m_locked d) (m_children d).

Section Dir.
Context `{Config} `{Env}.

(** The type and mode the constructor passes to [VFile]. *)
Definition Dir_type (vdir : bool) (mode : Z) : FileType :=
  if ENABLE_DIRECTORY_DISTRIBUTION
  then if has_flag mode S_ISSHR || vdir then TYPE_DIR_SHARED else TYPE_DIR
  else TYPE_DIR.

Definition Dir_new (base : VFileBase) (vdir : bool) : Dir := mkDir base vdir false [].

(** [m_children[name] = new VFileLoc(inode)]: the entry is replaced where it
    stands or added, which may reorder the table. *)
Definition addChild (t : nat) (name : string) (inode : InodeType) (d : Dir) : Dir :=
  let l := mkVFileLoc (env_new t) inode in
  match child_find name (m_children d) with
  | Some _ => dir_with_children (child_replace name l (m_children d)) d
  | None => dir_with_children (env_order _ t ((name, l) :: m_children d)) d
  end.

Definition Dir_erase (name : string) (d : Dir) : Dir :=
  dir_with_children (child_erase name (m_children d)) d.

(** [Dir::find(file_id_t)]: the first entry with that inode number. *)
Definition Dir_find_id (needle : Z) (d : Dir) : option string :=
  fst <$> List.find (fun kl => it_id (vfl_inode (snd kl)) =? needle) (m_children d).
End Dir.

(** ** Pipes

    The constructor leaves the descriptors as the memory held them; the server
    sets both.  Pipes carry no data: only the number of bytes is kept. *)
Record Pipe : Type := mkPipe {
  p_base : VFileBase;
  p_size : Z;
  m_read_fd : Z;
  m_write_fd : Z
}.

Definition Pipe_new (base : VFileBase) (junk : Z) : Pipe := mkPipe base 0 junk junk.
Definition set_readFd (fd : Z) (p : Pipe) : Pipe :=
  mkPipe (p_base p) (p_size p) fd (m_write_fd p).
Definition set_writeFd (fd : Z) (p : Pipe) : Pipe :=
  mkPipe (p_base p) (p_size p) (m_read_fd p) fd.
Definition closeRead (p : Pipe) : Pipe := set_readFd 0 p.
Definition closeWrite (p : Pipe) : Pipe := set_writeFd 0 p.
Definition pipe_with_size (n : Z) (p : Pipe) : Pipe :=
  mkPipe (p_base p) n (m_read_fd p) (m_write_fd p).

Definition Pipe_write (count : Z) (p : Pipe) : Z * Pipe :=
  (i64 count, pipe_with_size (u64 (p_size p + count)) p).

Definition Pipe_read (count : Z) (p : Pipe) : Z * Pipe :=
  if negb (p_size p =? 0)
  then
    let count := if p_size p <? count then p_size p else count in
    (i64 count, pipe_with_size (u64 (p_size p - count)) p)
  else if negb (m_write_fd p =? 0) then (- EAGAIN, p)
  else (0, p).

(** ** Symbolic links *)

Record Symlink : Type := mkSymlink { s_base : VFileBase; m_dest : string }.

(** ** Any file *)

Inductive VFile : Type :=
| FileV (f : File)
| DirV (d : Dir)
| PipeV (p : Pipe)
| SymlinkV (l : Symlink).

Definition v_base (v : VFile) : VFileBase :=
  match v with
  | FileV f => f_base f
  | DirV d => d_base d
  | PipeV p => p_base p
  | SymlinkV l => s_base l
  end.

Definition v_with_base (b : VFileBase) (v : VFile) : VFile :=
  match v with
  | FileV f => FileV (file_with_base (fun _ => b) f)
  | DirV d => DirV (dir_with_base b d)
  | PipeV p => PipeV (mkPipe b (p_size p) (m_read_fd p) (m_write_fd p))
  | SymlinkV l => SymlinkV (mkSymlink b (m_dest l))
  end.

(** The virtual [size()]. *)
Definition v_size (v : VFile) : Z :=
  match v with
  | FileV f => m_size f
  | DirV _ => 4096
  | PipeV _ => 0
  | SymlinkV l => Z.of_nat (String.length (m_dest l))
  end.

Definition v_id (v : VFile) : Z := m_id (v_base v).
Definition v_type (v : VFile) : FileType := m_type (v_base v).

Definition isDir (v : VFile) : bool :=
  match v_type v with TYPE_DIR | TYPE_DIR_SHARED => true | _ => false end.
Definition isFile (v : VFile) : bool :=
  match v_type v with TYPE_FILE => true | _ => false end.
Definition isSymlink (v : VFile) : bool :=
  match v_type v with TYPE_SYMLINK => true | _ => false end.
Definition isShared (v : VFile) : bool :=
  match v_type v with TYPE_DIR_SHARED => true | _ => false end.

(** The class of an object agrees with its type tag. *)
Definition v_class_ok (v : VFile) : bool :=
  match v, v_type v with
  | FileV _, TYPE_FILE | SymlinkV _, TYPE_SYMLINK | PipeV _, TYPE_PIPE
  | DirV _, TYPE_DIR | DirV _, TYPE_DIR_SHARED => true
  | _, _ => false
  end.

(** ** Descriptors *)

Record FileDescriptor : Type := mkFileDescriptor {
  fd_count : Z;
  fd_offset : Z;
  fd_id : Z;
  fd_fd : Z
}.

Definition FileDescriptor_new (inode rand : Z) : FileDescriptor :=
  mkFileDescriptor 1 0 inode (u64 rand).
(** [int count()] of a [uint64_t] member. *)
Definition fd_count_int (d : FileDescriptor) : Z := i32 (fd_count d).
Definition fd_add (d : FileDescriptor) : FileDescriptor :=
  mkFileDescriptor (u64 (fd_count d + 1)) (fd_offset d) (fd_id d) (fd_fd d).
Definition fd_remove (d : FileDescriptor) : FileDescriptor :=
  mkFileDescriptor (u64 (fd_count d - 1)) (fd_offset d) (fd_id d) (fd_fd d).
Definition fd_set_offset (off : Z) (d : FileDescriptor) : FileDescriptor :=
  mkFileDescriptor (fd_count d) off (fd_id d) (fd_fd d).
