(* ===== verification/TimeArith.v ===== *)
(** * Time arithmetic

    [libs/utilities/time_arith.c]: sums and differences of [struct timeval] and
    the conversions of cycle counts. *)

From S2P Require Import Prelude FsTypes.

Record timeval : Type := mkTimeval { t_sec : Z; t_usec : Z }.

(** [timeval_subtract]: the carry is done on [y], which the caller sees
    changed; the result is the difference, the flag whether it is negative.
    Division of C truncates. *)
Definition timeval_subtract (x y : timeval) : timeval * timeval * bool :=
  let y1 := if t_usec x <? t_usec y
            then let nsec := Z.quot (t_usec y - t_usec x) 1000000 + 1 in
                 mkTimeval (t_sec y + nsec) (t_usec y - 1000000 * nsec)
            else y in
  let y2 := if 1000000 <? t_usec x - t_usec y1
            then let nsec := Z.quot (t_usec x - t_usec y1) 1000000 in
                 mkTimeval (t_sec y1 - nsec) (t_usec y1 + 1000000 * nsec)
            else y1 in
  (mkTimeval (t_sec x - t_sec y2) (t_usec x - t_usec y2), y2,
   (t_sec x <? t_sec y2) || ((t_sec x =? t_sec y2) && (t_usec x <? t_usec y2))).

Definition timeval_add (x y : timeval) : timeval :=
  let sec := t_sec x + t_sec y in
  let usec := t_usec x + t_usec y in
  if 1000000 <? usec then mkTimeval (sec + 1) (usec - 1000000) else mkTimeval sec usec.

Definition timeval_diff_ms (x y : timeval) : Z :=
  let '(elapsed, _, _) := timeval_subtract x y in
  i32 (t_sec elapsed * 1000 + Z.quot (t_usec elapsed) 1000).

Section Cycles.
Context `{Config}.

Definition ts_to_ms (cycles : Z) : Z := cycles / CONFIG_HARDWARE_KHZ.
Definition ts_to_us (cycles : Z) : Z := cycles / (CONFIG_HARDWARE_KHZ / 1000).
End Cycles.

(** The instant a [timeval] stands for, in microseconds. *)
Definition usecs (t : timeval) : Z := t_sec t * 1000000 + t_usec t.

Definition normalised (t : timeval) : Prop := 0 <= t_usec t < 1000000.

(** The difference of two times of day is exact: it stands for the
    difference of the two instants, its microseconds are in range, the flag says
    whether it is negative, and the changed subtrahend still stands for the same
    instant. *)
Theorem timeval_subtract_exact x y :
  normalised x -> normalised y ->
  let '(elapsed, y', negative) := timeval_subtract x y in
  usecs elapsed = usecs x - usecs y /\ normalised elapsed /\ usecs y' = usecs y /\
  negative = (usecs x <? usecs y).
Proof.
  destruct x as [xs xu], y as [ys yu]. unfold normalised, timeval_subtract, usecs. simpl. intros Hx Hy.
  destruct (Z.ltb_spec xu yu) as [Hlt|Hge]; simpl.
  - rewrite Z.quot_small by lia. change (0 + 1) with 1.
    rewrite (proj2 (Z.ltb_ge 1000000 (xu - (yu - 1000000 * 1)))) by lia. simpl.
    repeat split; try lia.
  - rewrite (proj2 (Z.ltb_ge 1000000 (xu - yu))) by lia. simpl. repeat split; lia.
Qed.

Lemma timeval_subtract_exact_witness :
  let '(elapsed, _, negative) := timeval_subtract (mkTimeval 5 100) (mkTimeval 3 999999) in
  usecs elapsed = 1000101 /\ negative = false.
Proof.
  pose proof (timeval_subtract_exact (mkTimeval 5 100) (mkTimeval 3 999999)
    ltac:(unfold normalised; simpl; lia) ltac:(unfold normalised; simpl; lia)) as Hx.
  revert Hx. vm_compute. intros (? & _ & _ & ?). done.
Defined.

(** The sum stands for the sum of the two instants, but its microseconds are
    out of range exactly when those of the operands add up to one second, which
    the carry test misses. *)
Theorem timeval_add_range x y :
  normalised x -> normalised y ->
  usecs (timeval_add x y) = usecs x + usecs y /\
  (normalised (timeval_add x y) <-> t_usec x + t_usec y <> 1000000).
Proof.
  destruct x as [xs xu], y as [ys yu]. unfold normalised, timeval_add, usecs. simpl. intros Hx Hy.
  destruct (Z.ltb_spec 1000000 (xu + yu)); simpl; lia.
Qed.

Lemma timeval_add_range_witness :
  ~ normalised (timeval_add (mkTimeval 1 400000) (mkTimeval 2 600000)).
Proof.
  intros Hn. apply (timeval_add_range (mkTimeval 1 400000) (mkTimeval 2 600000)) in Hn;
    [done|unfold normalised; simpl; lia..].
Defined.
