(* ===== verification/FsServer.v ===== *)
(** * The file server

    [sys/fs/server.hpp] and [sys/fs/server.cpp]: the state of a
    [FilesystemServer] and its operations, one definition per method. *)

From S2P Require Import Prelude FsTypes BufferCache FsFile FsNode TimeArith.

(** ** State

    [m_root] and [m_orphans] are the objects stored under inode numbers 0 (on
    server 0) and [ORPHANS]; [g_inode_seq] is the counter of [file.cpp];
    [s_mem] the shared memory; [s_notes] the notifications sent to the
    channels, oldest first. *)

Record Server : Type := mkServer {
  s_id : Z;
  m_files : gmap Z VFile;
  m_pipes : gmap Z VFile;
  m_fds : gmap Z FileDescriptor;
  m_buffer_cache : BufferCache;
  m_apps : gmap Z (gset Z);
  m_op_count : list Z;
  m_op_times : list Z;
  g_inode_seq : Z;
  s_mem : gmap Z Z;
  s_tick : nat;
  s_notes : list (Z * Inode)
}.

Definition set_files (x : gmap Z VFile) (s : Server) : Server :=
  mkServer (s_id s) x (m_pipes s) (m_fds s) (m_buffer_cache s) (m_apps s) (m_op_count s) (m_op_times s) (g_inode_seq s) (s_mem s) (s_tick s) (s_notes s).
Definition set_pipes (x : gmap Z VFile) (s : Server) : Server :=
  mkServer (s_id s) (m_files s) x (m_fds s) (m_buffer_cache s) (m_apps s) (m_op_count s) (m_op_times s) (g_inode_seq s) (s_mem s) (s_tick s) (s_notes s).
Definition set_fds (x : gmap Z FileDescriptor) (s : Server) : Server :=
  mkServer (s_id s) (m_files s) (m_pipes s) x (m_buffer_cache s) (m_apps s) (m_op_count s) (m_op_times s) (g_inode_seq s) (s_mem s) (s_tick s) (s_notes s).
Definition set_bc (x : BufferCache) (s : Server) : Server :=
  mkServer (s_id s) (m_files s) (m_pipes s) (m_fds s) x (m_apps s) (m_op_count s) (m_op_times s) (g_inode_seq s) (s_mem s) (s_tick s) (s_notes s).
Definition set_apps (x : gmap Z (gset Z)) (s : Server) : Server :=
  mkServer (s_id s) (m_files s) (m_pipes s) (m_fds s) (m_buffer_cache s) x (m_op_count s) (m_op_times s) (g_inode_seq s) (s_mem s) (s_tick s) (s_notes s).
Definition set_op_count (x : list Z) (s : Server) : Server :=
  mkServer (s_id s) (m_files s) (m_pipes s) (m_fds s) (m_buffer_cache s) (m_apps s) x (m_op_times s) (g_inode_seq s) (s_mem s) (s_tick s) (s_notes s).
Definition set_op_times (x : list Z) (s : Server) : Server :=
  mkServer (s_id s) (m_files s) (m_pipes s) (m_fds s) (m_buffer_cache s) (m_apps s) (m_op_count s) x (g_inode_seq s) (s_mem s) (s_tick s) (s_notes s).
Definition set_seq (x : Z) (s : Server) : Server :=
  mkServer (s_id s) (m_files s) (m_pipes s) (m_fds s) (m_buffer_cache s) (m_apps s) (m_op_count s) (m_op_times s) x (s_mem s) (s_tick s) (s_notes s).
Definition set_smem (x : gmap Z Z) (s : Server) : Server :=
  mkServer (s_id s) (m_files s) (m_pipes s) (m_fds s) (m_buffer_cache s) (m_apps s) (m_op_count s) (m_op_times s) (g_inode_seq s) x (s_tick s) (s_notes s).
Definition set_stick (x : nat) (s : Server) : Server :=
  mkServer (s_id s) (m_files s) (m_pipes s) (m_fds s) (m_buffer_cache s) (m_apps s) (m_op_count s) (m_op_times s) (g_inode_seq s) (s_mem s) x (s_notes s).
Definition set_notes (x : list (Z * Inode)) (s : Server) : Server :=
  mkServer (s_id s) (m_files s) (m_pipes s) (m_fds s) (m_buffer_cache s) (m_apps s) (m_op_count s) (m_op_times s) (g_inode_seq s) (s_mem s) (s_tick s) x.

(** The key of [m_orphans]: [-1] as a [file_id_t]. *)
Definition ORPHANS : Z := UINT64_MAX.
Definition ROOT_INO : Z := 0.

(** [enum MessageTypes]: the index of each operation in the statistics. *)
Inductive MessageTypes : Type :=
| CREATE | DESTROY | ADDMAP | REMOVEMAP | PIPE | OPEN | READ | WRITE | LSEEK | CLOSE | DUP
| FSTAT | DIRENT | UNLINK | READLINK | RMDIR | TRUNC | CHMOD | CHOWN | RESOLVE | UTIMENS
| SYMLINK | BLOCKS | FLUSH.

Definition op_index (o : MessageTypes) : nat :=
  match o with
  | CREATE => 0 | DESTROY => 1 | ADDMAP => 2 | REMOVEMAP => 3 | PIPE => 4 | OPEN => 5
  | READ => 6 | WRITE => 7 | LSEEK => 8 | CLOSE => 9 | DUP => 10 | FSTAT => 11 | DIRENT => 12
  | UNLINK => 13 | READLINK => 14 | RMDIR => 15 | TRUNC => 16 | CHMOD => 17 | CHOWN => 18
  | RESOLVE => 19 | UTIMENS => 20 | SYMLINK => 21 | BLOCKS => 22 | FLUSH => 23
  end.

Definition NUM_FS_TYPES : nat := 24.

Section Server.
Context `{Config} `{Env}.

(** ** Access to the state *)

Definition s_use : M Server nat := zoom s_tick set_stick tick.
Definition rdtscll : M Server Z := t ← s_use; mret (env_tsc t).
Definition clock_gettime : M Server timespec := t ← s_use; mret (env_clock t).

Definition find_file (i : Z) : M Server (option VFile) := gets (fun s => m_files s !! i).
Definition find_pipe (i : Z) : M Server (option VFile) := gets (fun s => m_pipes s !! i).
Definition find_fd (fd : Z) : M Server (option FileDescriptor) := gets (fun s => m_fds s !! fd).
Definition put_file (i : Z) (v : VFile) : M Server unit :=
  modify (fun s => set_files (<[i := v]> (m_files s)) s).
Definition put_pipe (i : Z) (v : VFile) : M Server unit :=
  modify (fun s => set_pipes (<[i := v]> (m_pipes s)) s).
Definition put_fd (fd : Z) (d : FileDescriptor) : M Server unit :=
  modify (fun s => set_fds (<[fd := d]> (m_fds s)) s).

(** [static_cast] to a subclass: undefined on an object of another class. *)
Definition as_dir (v : VFile) : M Server Dir := match v with DirV d => mret d | _ => undef end.
Definition as_file (v : VFile) : M Server File := match v with FileV f => mret f | _ => undef end.
Definition as_pipe (v : VFile) : M Server Pipe := match v with PipeV p => mret p | _ => undef end.

(** A method of the file stored under [i], run on the server's cache, memory
    and clock. *)
Definition on_file {A} (i : Z) (f : File) (m : M FState A) : M Server A :=
  fun s =>
    match m (mkFState f (m_buffer_cache s) (s_mem s) (s_tick s)) with
    | Done a t => Done a (set_files (<[i := FileV (fs_file t)]> (m_files s))
                   (set_bc (fs_cache t) (set_smem (fs_mem t) (set_stick (fs_tick t) s))))
    | Abort => Abort
    | Undef => Undef
    | Timeout => Timeout
    end.

(** [m_files.erase(i); delete v].  A file returns its blocks; [m_root] and
    [m_orphans] are members of the server, and deleting them is undefined. *)
Definition erase_delete (i : Z) (v : VFile) : M Server unit :=
  server ← gets s_id;
  if (i =? ORPHANS) || ((server =? 0) && (i =? ROOT_INO)) then undef
  else
    match v with FileV f => on_file i f File_delete | _ => mret tt end;;
    modify (fun s => set_files (delete i (m_files s)) s).

(** The constructor [VFile::VFile]; overflow of the counter is undefined. *)
Definition new_base (type : FileType) (mode : Z) : M Server VFileBase :=
  seq ← gets g_inode_seq;
  (if seq =? INT32_MAX then undef else modify (set_seq (seq + 1)));;
  now ← clock_gettime;
  server ← gets s_id;
  mret (VFile_new server seq now type mode).

Definition new_dir (vdir : bool) (mode : Z) : M Server Dir :=
  base ← new_base (Dir_type vdir mode) (Z.land mode (Z.lnot S_ISSHR));
  mret (Dir_new base vdir).

Definition new_file (mode : Z) : M Server File :=
  base ← new_base TYPE_FILE mode; mret (File_new base).

Definition new_fd (inode : Z) : M Server FileDescriptor :=
  t ← s_use; mret (FileDescriptor_new inode (env_rand t)).

(** [m_files[id] = new Dir(true, 0777)] when the server has no entry for the
    inode of a distributed directory. *)
Definition lazy_dir (i : Z) : M Server unit :=
  o ← find_file i;
  match o with
  | Some _ => mret tt
  | None =>
      d ← new_dir true 511;
      put_file i (DirV (dir_with_base (set_id i (d_base d)) d))
  end.

(** [OP_COUNTER(op)]: the counter object lives until the method returns. *)
Definition opStart (op : MessageTypes) : M Server unit :=
  modify (fun s => set_op_count (alter (fun c => u64 (c + 1)) (op_index op) (m_op_count s)) s).
Definition opEnd (op : MessageTypes) (start : Z) : M Server unit :=
  now ← rdtscll;
  let elapsed_cycles := i64 (now - start) in
  if 0 <? elapsed_cycles
  then modify (fun s => set_op_times
                 (alter (fun c => u64 (c + elapsed_cycles)) (op_index op) (m_op_times s)) s)
  else mret tt.

Definition OP_COUNTER {A} (op : MessageTypes) (body : M Server A) : M Server A :=
  if ENABLE_DBG_SHOW_OPS
  then
    start ← rdtscll;
    opStart op;;
    r ← body;
    opEnd op start;;
    mret r
  else body.

(** ** Caching of directory entries by applications *)

Definition appClose (appId : Z) : M Server unit :=
  modify (fun s => set_apps (delete appId (m_apps s)) s).

Definition appAddCache (appId : Z) (entry : VFileLoc) : M Server unit :=
  modify (fun s => set_apps
    (<[appId := {[vfl_addr entry]} ∪ default ∅ (m_apps s !! appId)]> (m_apps s)) s).

Definition appAddCache_path (appId : Z) (parent : Inode) (path : string) : M Server unit :=
  o ← find_file (in_id parent);
  match o with
  | None => abort
  | Some v =>
      assert_ (isDir v);;
      p ← as_dir v;
      match child_find path (m_children p) with
      | None => abort
      | Some vfl_p => appAddCache appId vfl_p
      end
  end.

(** Every application that cached the entry forgets it, and all but the
    requester are notified, in the iteration order of the table. *)
Definition appRemoveCache (appId : Z) (entry : VFileLoc) : M Server unit :=
  t ← s_use;
  modify (fun s =>
    let cachers := filter (fun a => vfl_addr entry ∈ snd a) (env_order _ t (map_to_list (m_apps s))) in
    let others := filter (fun a => a <> appId) (fst <$> cachers) in
    set_notes (s_notes s ++ ((fun a => (a, InodeOnly (vfl_inode entry))) <$> others))
      (set_apps ((fun c => c ∖ {[vfl_addr entry]}) <$> m_apps s) s)).
End Server.

(** ** Operations *)

Section Operations.
Context `{Config} `{Env}.

(** [create]: the inode of a new file or directory, without its directory
    entry.  The second component is [exist], [None] where it is not set. *)
Definition create (parent : Inode) (path : string) (flags mode : Z)
  : M Server (Z * option InodeType) :=
  OP_COUNTER CREATE (
    lazy_dir (in_id parent);;
    o ← find_file (in_id parent);
    v ← deref o;
    if negb (isDir v) then mret (INVALID, None)
    else
      parent_p ← as_dir v;
      assert_ (negb (path =? "")%string);;
      match child_find path (m_children parent_p) with
      | Some vfileloc =>
          let exist := Some (vfl_inode vfileloc) in
          if vfl_isDir vfileloc && has_flag (if flags =? 0 then 1 else 0) O_DIRECTORY
          then mret (ISDIR, exist)
          else if vfl_isSymlink vfileloc then mret (ISSYM, exist)
          else mret (EXIST, exist)
      | None =>
          vfile ← (if has_flag flags O_DIRECTORY
                   then d ← new_dir false mode; mret (DirV d)
                   else f ← new_file mode; mret (FileV f));
          server ← gets s_id;
          put_file (v_id vfile) vfile;;
          mret (OK, Some (mkInodeType server (v_id vfile) (v_type vfile)))
      end).

(** The loop that looks for an open descriptor of an inode. *)
Definition has_open_fd (inode : Z) : M Server bool :=
  gets (fun s => existsb (fun kd => (fd_id (snd kd) =? inode) && negb (fd_count_int (snd kd) =? 0))
                   (map_to_list (m_fds s))).

(** [m_orphans.addChild(name, child)] *)
Definition add_orphan (name : string) (child : InodeType) : M Server unit :=
  t ← s_use;
  o ← find_file ORPHANS;
  v ← deref o;
  orphans ← as_dir v;
  put_file ORPHANS (DirV (addChild t name child orphans)).

(** [sprintf(newname, "f.%lld", rdtscll())] and its hexadecimal variant. *)
Definition orphan_name (tsc : Z) : string := "f." +:+ pretty (i64 tsc).

Definition hex_digit (d : N) : string :=
  String (Ascii.ascii_of_N (if (d <? 10)%N then 48 + d else 87 + d)) "".
Fixpoint hex_digits (fuel : nat) (n : N) : string :=
  match fuel with
  | O => ""
  | S fuel' => if (n <? 16)%N then hex_digit n else hex_digits fuel' (n / 16) +:+ hex_digit (n mod 16)
  end.
Definition orphan_name_hex (tsc : Z) : string := "f." +:+ hex_digits 16 (Z.to_N tsc).

(** The last step of [destroy], [unlink] and [rmdir]: an inode with open
    descriptors moves to the orphans, any other is deleted. *)
Definition orphan_or_delete (name_of : Z -> string) (inode : Z) (c : VFile) : M Server unit :=
  anonymous ← has_open_fd (v_id c);
  if (anonymous : bool)
  then
    tsc ← rdtscll;
    server ← gets s_id;
    add_orphan (name_of tsc) (mkInodeType server (v_id c) (v_type c))
  else erase_delete inode c.

Definition destroy (inode : Z) : M Server Z :=
  OP_COUNTER DESTROY (
    o ← find_file inode;
    match o with
    | None => mret NOT_FOUND
    | Some c =>
        if isDir c
        then erase_delete inode c;; mret OK
        else orphan_or_delete orphan_name inode c;; mret OK
    end).

(** What [open] returns: the status, [fd], [type], [size] ([None] where the
    method does not assign them) and the cache state. *)
Record OpenResult : Type := mkOpenResult {
  or_ret : Z;
  or_fd : option Z;
  or_type : option FileType;
  or_size : option Z;
  or_state : Z
}.

Definition open_failed (ret : Z) : OpenResult := mkOpenResult ret None None None CACHE_INVALID.

Definition open (inode flags : Z) : M Server OpenResult :=
  OP_COUNTER OPEN (
    o ← find_file inode;
    match o with
    | None => mret (open_failed NOT_FOUND)
    | Some vfile =>
        if isFile vfile && has_flag flags O_DIRECTORY then mret (open_failed NOT_DIR)
        else if negb (isFile vfile) && isDir vfile &&
                has_flag flags (Z.lor O_CREAT (Z.lor O_TRUNC (Z.lor O_WRONLY O_RDWR)))
        then mret (open_failed ISDIR)
        else if negb (isFile vfile) && negb (isDir vfile) && isSymlink vfile
        then mret (mkOpenResult OK None (Some (v_type vfile)) None CACHE_INVALID)
        else
          newfd ← new_fd inode;
          put_fd (fd_fd newfd) newfd;;
          (if isFile vfile
           then
             (if has_flag flags O_TRUNC
              then
                now ← clock_gettime;
                file ← as_file vfile;
                on_file inode (file_with_base
                    (fun b => set_mtime now (set_atime now (set_ctime now b))) file)
                  (File_truncate 0);;
                mret tt
              else mret tt);;
             (if has_flag flags O_APPEND
              then
                o' ← find_file inode;
                v' ← deref o';
                put_fd (fd_fd newfd) (fd_set_offset (v_size v') newfd)
              else mret tt)
           else mret tt);;
          o' ← find_file inode;
          v' ← deref o';
          mret (mkOpenResult OK (Some (fd_fd newfd)) (Some (v_type vfile))
                  (Some (v_size v')) CACHE_SHARED)
    end).

Definition pipe : M Server (Z * Z * Z * Inode) :=
  OP_COUNTER PIPE (
    base ← new_base TYPE_PIPE 511;
    t ← s_use;
    let vfile := Pipe_new base (env_junk t) in
    newfd_read ← new_fd (m_id base);
    newfd_write ← new_fd (m_id base);
    server ← gets s_id;
    let p := set_writeFd (fd_fd newfd_write) (set_readFd (fd_fd newfd_read) vfile) in
    put_fd (fd_fd newfd_read) newfd_read;;
    put_fd (fd_fd newfd_write) newfd_write;;
    put_pipe (m_id base) (PipeV p);;
    mret (OK, fd_fd newfd_read, fd_fd newfd_write, mkInode server (m_id base))).

(** [read(file_id_t, ...)]: the status, [*count] and the bytes put into the
    buffer; a pipe writes none there. *)
Definition read_inode (inode offset count : Z) : M Server (Z * Z * list Z) :=
  OP_COUNTER READ (
    o ← find_file inode;
    r ← match o with
        | None =>
            op ← find_pipe inode;
            match op with
            | None => mret (inl NOT_FOUND)
            | Some v =>
                p ← as_pipe v;
                let '(retval, p') := Pipe_read count p in
                put_pipe inode (PipeV p');;
                mret (inr (retval, []))
            end
        | Some v =>
            assert_ (isFile v);;
            f ← as_file v;
            rb ← on_file inode f (File_read count offset);
            mret (inr rb)
        end;
    match r with
    | inl e => mret (e, 0, [])
    | inr (retval, buf) =>
        if 0 <? retval then mret (OK, retval, buf) else mret (i32 retval, 0, buf)
    end).

(** [write(file_id_t, ...)]: the status and [*count], which the first error
    path leaves as it was. *)
Definition write_inode (inode offset : Z) (buf : list Z) (count : Z) : M Server (Z * Z) :=
  OP_COUNTER WRITE (
    o ← find_file inode;
    r ← match o with
        | None =>
            op ← find_pipe inode;
            match op with
            | None => mret None
            | Some v =>
                p ← as_pipe v;
                let '(retval, p') := Pipe_write count p in
                put_pipe inode (PipeV p');;
                mret (Some retval)
            end
        | Some v =>
            f ← as_file v;
            retval ← on_file inode f (File_write buf count offset);
            mret (Some retval)
        end;
    match r with
    | None => mret (NOT_FOUND, count)
    | Some retval => if 0 <? retval then mret (OK, retval) else mret (i32 retval, 0)
    end).
End Operations.

(** ** Statistics file *)

Section Statistics.
Context `{Config} `{Env}.

Definition endl : string := String (Ascii.ascii_of_nat 10) "".
Fixpoint spaces (n : nat) : string := match n with O => "" | S n' => String (Ascii.ascii_of_nat 32) (spaces n') end.
(** [os << setw(n) << s] *)
Definition setw (n : nat) (s : string) : string := spaces (n - String.length s) +:+ s.

Definition opnames : list string :=
  ["CREATE   "; "DESTROY  "; "ADD_MAP  "; "RM_MAP   "; "PIPE     "; "OPEN     "; "READ     ";
   "WRITE    "; "LSEEK    "; "CLOSE    "; "DUP      "; "FSTAT    "; "DIRENT   "; "UNLINK   ";
   "READLINK "; "RMDIR    "; "TRUNC    "; "CHMOD    "; "CHOWN    "; "RESOLVE  "; "UTIMENS  ";
   "SYMLINK  "; "BLOCKS   "; "FLUSH    "].

Definition rule : string := "------------------------------------------------------------" +:+ endl.

Definition op_line (name : string) (count cycles : Z) : string :=
  let avg := if 0 <? count then cycles / count else 0 in
  name +:+ setw 10 (pretty count) +:+ setw 16 (pretty (ts_to_us cycles)) +:+ setw 16 (pretty avg) +:+ endl.

(** The text; the average in the last line divides by the number of calls. *)
Definition stat_text (counts times : list Z) : option string :=
  if ENABLE_DBG_SHOW_OPS
  then
    let count_total := foldl (fun t c => u64 (t + c)) 0 counts in
    let time_total := foldl (fun t c => u64 (t + ts_to_us c)) 0 times in
    let cycles_total := foldl (fun t c => u64 (t + c)) 0 times in
    if count_total =? 0 then None
    else Some (
      rule +:+ "Ops:" +:+ endl +:+
      "Name     " +:+ setw 10 "Count" +:+ setw 16 "Time (us)" +:+ setw 16 "Avg (cycle/op)" +:+ endl +:+
      foldr (fun x acc => x +:+ acc) "" (zip_with (fun n ct => op_line n (fst ct) (snd ct)) opnames (zip counts times)) +:+
      rule +:+
      "TOTAL    " +:+ setw 10 (pretty count_total) +:+ setw 16 (pretty time_total)
        +:+ setw 16 (pretty (cycles_total / count_total)) +:+ endl)
  else Some "".

Definition string_bytes (s : string) : list Z :=
  (fun c => Z.of_N (Ascii.N_of_ascii c)) <$> String.list_ascii_of_string s.

(** [update_stat_file]: the inode is looked up on this server and taken for a
    file without a check. *)
Definition update_stat_file (inode : Inode) : M Server unit :=
  o ← find_file (in_id inode);
  match o with
  | None => abort
  | Some v =>
      f ← as_file v;
      counts ← gets m_op_count;
      times ← gets m_op_times;
      text ← deref (stat_text counts times);
      let size := Z.of_nat (String.length text) in
      on_file (in_id inode) f (File_truncate size);;
      o' ← find_file (in_id inode);
      v' ← deref o';
      f' ← as_file v';
      on_file (in_id inode) f' (File_write (string_bytes text) size 0);;
      mret tt
  end.

Definition clear_stats : M Server unit :=
  modify (fun s => set_op_count (replicate NUM_FS_TYPES 0)
                     (set_op_times (replicate NUM_FS_TYPES 0) s)).
End Statistics.

(** ** Directory entries *)

Section Entries.
Context `{Config} `{Env}.

(** The second half of [addmap]: the old entry, if any, is dropped from the
    applications' caches and erased; the new one is added and, unless it is
    [".."], remembered as cached by the caller. *)
Definition set_entry (appId parent : Z) (path : string) (child : InodeType) (p : Dir)
    (found : option VFileLoc) : M Server unit :=
  p' ← match found with
       | Some c =>
           (if ENABLE_DIRECTORY_CACHE then appRemoveCache appId c else mret tt);;
           mret (Dir_erase path p)
       | None => mret p
       end;
  t ← s_use;
  let p'' := addChild t path child p' in
  put_file parent (DirV p'');;
  (if ENABLE_DIRECTORY_CACHE && negb (path =? "..")%string
   then l ← deref (child_find path (m_children p'')); appAddCache appId l
   else mret tt).

(** [addmap]: the entry [path] of directory [parent] is to be [child].  The
    second component is [*exist], the inode the entry had or now has. *)
Definition addmap (appId : Z) (parent : Inode) (path : string) (child : InodeType) (overwrite : bool)
  : M Server (Z * InodeType) :=
  OP_COUNTER ADDMAP (
    (if (path =? "stats")%string then update_stat_file (InodeOnly child) else mret tt);;
    lazy_dir (in_id parent);;
    o ← find_file (in_id parent);
    v ← deref o;
    p ← as_dir v;
    let found := child_find path (m_children p) in
    match found, overwrite with
    | Some c, false => mret (EXIST, vfl_inode c)
    | _, _ =>
        set_entry appId (in_id parent) path child p found;;
        mret (match found with Some c => (EXIST, vfl_inode c) | None => (OK, child) end)
    end).

Definition removemap (appId parent_inode : Z) (path : string) : M Server Z :=
  OP_COUNTER REMOVEMAP (
    (if (path =? "stats")%string then clear_stats else mret tt);;
    o ← find_file parent_inode;
    match o with
    | None => mret NOT_FOUND
    | Some v =>
        if negb (isDir v) then mret NOT_DIR
        else
          p ← as_dir v;
          match child_find path (m_children p) with
          | None => mret NOT_FOUND
          | Some c =>
              (if ENABLE_DIRECTORY_CACHE && negb (path =? "..")%string
               then appRemoveCache appId c else mret tt);;
              put_file parent_inode (DirV (Dir_erase path p));;
              mret OK
          end
    end).

(** [struct FauxStat64] *)
Record FauxStat64 : Type := mkFauxStat64 {
  st_dev : Z; st_ino : Z; st_nlink : Z; st_mode : Z; st_uid : Z; st_gid : Z; st_rdev : Z;
  st_size : Z; st_blksize : Z; st_blocks : Z;
  st_atime : timespec; st_mtime : timespec; st_ctime : timespec
}.

Definition fstatat (inode : Z) : M Server (Z * option FauxStat64) :=
  OP_COUNTER FSTAT (
    o ← find_file inode;
    match o with
    | None => mret (NOT_FOUND, None)
    | Some vfile =>
        let b := v_base vfile in
        let size := v_size vfile in
        mret (OK, Some (mkFauxStat64 0 (m_id b) 0 (Z.lor (m_mode b) (FileType_val (m_type b)))
                (m_uid b) (m_gid b) 0 size block_size (size / block_size + 1)
                (m_atime b) (m_mtime b) (m_ctime b)))
    end).

(** Updates of the common members of a file. *)
Definition update_base (inode : Z) (v : VFile) (g : VFileBase -> VFileBase) : M Server unit :=
  put_file inode (v_with_base (g (v_base v)) v).

Definition chmod (inode mode : Z) : M Server Z :=
  OP_COUNTER CHMOD (
    o ← find_file inode;
    match o with
    | None => mret NOT_FOUND
    | Some v => update_base inode v (set_mode mode);; mret OK
    end).

Definition chown (inode uid gid : Z) : M Server Z :=
  OP_COUNTER CHOWN (
    o ← find_file inode;
    match o with
    | None => mret NOT_FOUND
    | Some v => update_base inode v (fun b => set_gid gid (set_uid uid b));; mret OK
    end).

Definition utimens (inode : Z) (atime mtime : timespec) (flags : Z) : M Server Z :=
  OP_COUNTER UTIMENS (
    o ← find_file inode;
    match o with
    | None => mret NOT_FOUND
    | Some v =>
        if isSymlink v && negb (has_flag flags AT_SYMLINK_NOFOLLOW) then mret ISSYM
        else
          update_base inode v (fun b =>
            let b1 := if tv_nsec atime =? UTIME_OMIT then b else set_atime atime b in
            if tv_nsec mtime =? UTIME_OMIT then b1 else set_mtime mtime b1);;
          mret 0
    end).

(** [struct FauxDirent] *)
Record FauxDirent : Type := mkFauxDirent {
  d_ino : Z; d_off : Z; d_reclen : Z; d_type : Z; d_name : string
}.

(** [ALIGN(offsetof(struct FauxDirent, d_name) + namelen + 1, 8)]; the name is
    at offset 19 of the packed struct. *)
Definition dirent_reclen (name : string) : Z :=
  u32 (Z.land (19 + Z.of_nat (String.length name) + 1 + 7) (Z.lnot 7)).

(** [if(dest->d_ino == 0) dest->d_ino = 0xDEADBEEF] *)
Definition dirent_ino (i : Z) : Z := if i =? 0 then 3735928559 else i.

Definition dirent_type (l : VFileLoc) : option Z :=
  if vfl_isDir l then Some (if vfl_isShared l then DT_BLK else DT_DIR)
  else if vfl_isFile l then Some DT_REG
  else if vfl_isSymlink l then Some DT_LNK
  else None.

(** What the loop of [direntry] has produced: the records, the bytes they take
    and whether it stopped before the end. *)
Fixpoint direntry_loop (appId size : Z) (i offset written : Z) (out : list FauxDirent) (c : ChildMap)
  : M Server (list FauxDirent * Z * bool) :=
  match c with
  | [] => mret (out, written, false)
  | (name, l) :: c' =>
      if offset <=? i
      then
        let reclen := dirent_reclen name in
        if size <? u32 (written + reclen) then mret (out, written, true)
        else
          type ← match dirent_type l with Some x => mret x | None => abort end;
          let dest := mkFauxDirent (dirent_ino (it_id (vfl_inode l))) (offset + 1) (u16 reclen) type name in
          (if ENABLE_DIRECTORY_CACHE && ((type =? DT_DIR) || (type =? DT_BLK)) && negb (name =? "..")%string
           then appAddCache appId l else mret tt);;
          direntry_loop appId size (i + 1) (offset + 1) (u32 (written + reclen)) (out ++ [dest]) c'
      else direntry_loop appId size (i + 1) offset written out c'
  end.

(** [direntry]: the status, the records, [*size] and [*more].  The directory
    itself comes first, unless it is virtual. *)
Definition direntry (appId inode offset size : Z) : M Server (Z * list FauxDirent * Z * bool) :=
  OP_COUNTER DIRENT (
    o ← find_file inode;
    match o with
    | None => mret (NOT_FOUND, [], 0, false)
    | Some v =>
        assert_ (isDir v);;
        p ← as_dir v;
        st ← (if m_vdir p then mret (0, offset, 0, [])
              else if offset =? 0
              then
                let reclen := dirent_reclen "." in
                assert_ (reclen <=? size);;
                mret (1, 1, reclen,
                      [mkFauxDirent (dirent_ino inode) 1 (u16 reclen) (u8 (FileType_val (v_type v))) "."])
              else mret (1, offset, 0, []));
        let '(i, offset, written, out) := st in
        r ← direntry_loop appId size i offset written out (m_children p);
        let '(out, written, more) := r in
        mret (if written =? 0 then -1 else Z.of_nat (length out), out, written, more)
    end).
End Entries.

(** ** Removal and links *)

Section Removal.
Context `{Config} `{Env}.

Definition unlink (inode : Z) : M Server Z :=
  OP_COUNTER UNLINK (
    o ← find_file inode;
    match o with
    | None => mret NOT_FOUND
    | Some c =>
        assert_ (isFile c || isSymlink c);;
        orphan_or_delete orphan_name inode c;;
        mret OK
    end).

(** The loop over the children: any entry but [".."] makes the directory not
    empty. *)
Definition dir_empty (d : Dir) : bool := forallb (fun kl => (fst kl =? "..")%string) (m_children d).

(** [rmdir]: the phases of the removal of a directory that may have a part on
    every server. *)
Definition rmdir (inode phase : Z) : M Server Z :=
  OP_COUNTER RMDIR (
    lazy_dir inode;;
    o ← find_file inode;
    c ← deref o;
    if negb (isDir c) then mret NOT_DIR
    else
      c_d ← as_dir c;
      if negb (dir_empty c_d) then mret NOT_EMPTY
      else if phase =? RMDIR_TRY
      then
        if m_locked c_d then mret (- EAGAIN)
        else put_file inode (DirV (dir_with_lock true c_d));; mret OK
      else if phase =? RMDIR_FAIL
      then
        assert_ (m_locked c_d);;
        put_file inode (DirV (dir_with_lock false c_d));;
        mret OK
      else
        (if phase =? RMDIR_SUCCESS
         then
           assert_ (m_locked c_d);;
           put_file inode (DirV (dir_with_lock false c_d))
         else mret tt);;
        o' ← find_file inode;
        c' ← deref o';
        orphan_or_delete orphan_name_hex inode c';;
        mret OK).

Definition readlink (inode : Z) : M Server (Z * option string * option Z) :=
  OP_COUNTER READLINK (
    o ← find_file inode;
    match o with
    | None => mret (NOT_FOUND, None, None)
    | Some vfile =>
        assert_ (isSymlink vfile);;
        match vfile with
        | SymlinkV l =>
            assert_ (v_size vfile <? CONFIG_MAX_FNAME_LEN);;
            mret (OK, Some (m_dest l), Some (v_size vfile))
        | _ => undef
        end
    end).

(** [truncate]: the result of [File::truncate] is dropped. *)
Definition truncate (inode len : Z) : M Server Z :=
  OP_COUNTER TRUNC (
    o ← find_file inode;
    match o with
    | None => mret NOT_FOUND
    | Some vfile =>
        if isSymlink vfile then mret ISSYM
        else if isDir vfile then mret ISDIR
        else
          assert_ (isFile vfile);;
          file ← as_file vfile;
          on_file inode file (File_truncate len);;
          mret OK
    end).

Definition resolve (appId parent_id : Z) (path : string) : M Server (Z * option InodeType) :=
  OP_COUNTER RESOLVE (
    assert_ (negb (path =? "")%string);;
    o ← find_file parent_id;
    match o with
    | None => mret (NOT_FOUND, None)
    | Some v =>
        if negb (isDir v) then mret (INVALID, None)
        else
          p ← as_dir v;
          match child_find path (m_children p) with
          | None => mret (NOT_FOUND, None)
          | Some vfl_p =>
              (if ENABLE_DIRECTORY_CACHE then appAddCache appId vfl_p else mret tt);;
              mret (OK, Some (vfl_inode vfl_p))
          end
    end).

(** [symlink]: the parent pointer is taken before the link is stored; should
    the new inode number be the parent's, the entry goes to the object that was
    replaced. *)
Definition symlink (parent_inode : Z) (src dest : string) : M Server Z :=
  OP_COUNTER SYMLINK (
    lazy_dir parent_inode;;
    o ← find_file parent_inode;
    v ← deref o;
    if negb (isDir v) then mret NOT_DIR
    else
      np ← as_dir v;
      match child_find src (m_children np) with
      | Some _ => mret EXIST
      | None =>
          base ← new_base TYPE_SYMLINK 511;
          put_file (m_id base) (SymlinkV (mkSymlink base dest));;
          server ← gets s_id;
          t ← s_use;
          (if m_id base =? parent_inode then mret tt
           else put_file parent_inode
                  (DirV (addChild t src (mkInodeType server (m_id base) TYPE_SYMLINK) np)));;
          mret OK
      end).
End Removal.

(** ** Descriptors *)

Section Descriptors.
Context `{Config} `{Env}.

(** The last descriptor of a pipe end or of a file goes away. *)
Definition close_pipe (inode fd : Z) : M Server unit :=
  op ← find_pipe inode;
  match op with
  | None => abort
  | Some v =>
      p ← as_pipe v;
      let p1 := if m_read_fd p =? fd then closeRead p else p in
      let p2 := if m_write_fd p1 =? fd then closeWrite p1 else p1 in
      if (m_read_fd p2 =? 0) && (m_write_fd p2 =? 0)
      then modify (fun s => set_pipes (delete inode (m_pipes s)) s)
      else put_pipe inode (PipeV p2)
  end.

Definition close_file (inode size : Z) (v : VFile) : M Server unit :=
  oo ← find_file ORPHANS;
  vo ← deref oo;
  orphans ← as_dir vo;
  match Dir_find_id (v_id v) orphans with
  | Some name =>
      put_file ORPHANS (DirV (Dir_erase name orphans));;
      erase_delete inode v
  | None =>
      if size =? UINT64_MAX then mret tt
      else f ← as_file v; put_file inode (FileV (file_with_size size f))
  end.

(** [static_cast<File &>( *m_files.find(id)->second).size(size)] *)
Definition set_file_size (inode size : Z) : M Server unit :=
  o ← find_file inode;
  v ← deref o;
  f ← as_file v;
  put_file inode (FileV (file_with_size size f)).

Definition close (fd offset size : Z) : M Server Z :=
  OP_COUNTER CLOSE (
    o ← find_fd fd;
    match o with
    | None => abort
    | Some d =>
        let fd_p := fd_remove d in
        put_fd fd fd_p;;
        let count := fd_count_int fd_p in
        assert_ (0 <=? count);;
        if count =? 0
        then
          let inode := fd_id fd_p in
          ofile ← find_file inode;
          match ofile with
          | None => close_pipe inode fd
          | Some v => close_file inode size v
          end;;
          modify (fun s => set_fds (delete fd (m_fds s)) s);;
          mret OK
        else
          (if offset =? -1 then mret tt else put_fd fd (fd_set_offset (u64 offset) fd_p));;
          (if size =? UINT64_MAX then mret tt else set_file_size (fd_id fd_p) size);;
          mret OK
    end).

(** What [dup] returns: status, inode, type and size. *)
Definition dup (fd : Z) : M Server (Z * option (Inode * FileType * Z)) :=
  OP_COUNTER DUP (
    o ← find_fd fd;
    match o with
    | None => mret (INVALID, None)
    | Some fd_p =>
        ofile ← find_file (fd_id fd_p);
        op ← find_pipe (fd_id fd_p);
        match (match ofile with Some v => Some v | None => op end) with
        | None => mret (NOT_FOUND, None)
        | Some vf =>
            server ← gets s_id;
            put_fd fd (fd_add fd_p);;
            mret (OK, Some (mkInode server (v_id vf), v_type vf, v_size vf))
        end
    end).

(** [read(fd_t, ...)] *)
Definition read (fd count : Z) : M Server (Z * Z * list Z) :=
  o ← find_fd fd;
  match o with
  | None => abort
  | Some fd_p =>
      let old_offset := fd_offset fd_p in
      r ← read_inode (fd_id fd_p) old_offset count;
      let '(ret, count', buf) := r in
      put_fd fd (fd_set_offset (u64 (old_offset + count')) fd_p);;
      mret (ret, count', buf)
  end.

(** [write(fd_t, ...)] *)
Definition write (fd : Z) (buf : list Z) (count : Z) : M Server (Z * Z) :=
  o ← find_fd fd;
  match o with
  | None => abort
  | Some fd_p =>
      let old_offset := fd_offset fd_p in
      r ← write_inode (fd_id fd_p) old_offset buf count;
      let '(ret, count') := r in
      put_fd fd (fd_set_offset (u64 (old_offset + count')) fd_p);;
      mret (ret, count')
  end.

Definition lseek (fd offset whence : Z) : M Server (Z * Z) :=
  OP_COUNTER LSEEK (
    o ← find_fd fd;
    match o with
    | None => abort
    | Some fd_p =>
        ofile ← find_file (fd_id fd_p);
        match ofile with
        | None => abort
        | Some v =>
            assert_ (isFile v);;
            vf ← as_file v;
            let size := m_size vf in
            let old_offset := fd_offset fd_p in
            offset' ← (if whence =? SEEK_SET then mret offset
                       else if whence =? SEEK_CUR then mret (u64 (offset + old_offset))
                       else if whence =? SEEK_END then mret (u64 (size + offset))
                       else if whence =? SEEK_DATA then mret old_offset
                       else if whence =? SEEK_HOLE then mret size
                       else abort);
            put_fd fd (fd_set_offset offset' fd_p);;
            mret (OK, offset')
        end
    end).

Definition blocks (inode offset count : Z) : M Server (Z * list Z) :=
  OP_COUNTER BLOCKS (
    o ← find_file inode;
    match o with
    | None => abort
    | Some v =>
        assert_ (isFile v);;
        f ← as_file v;
        on_file inode f (File_blocks (i32 offset) (i32 count))
    end).

Definition flush (fd size offset : Z) : M Server Z :=
  OP_COUNTER FLUSH (
    o ← find_fd fd;
    match o with
    | None => mret INVALID
    | Some fd_p =>
        put_fd fd (fd_set_offset (u64 offset) fd_p);;
        set_file_size (fd_id fd_p) size;;
        mret OK
    end).
End Descriptors.

(** ** Start *)

Section Start.
Context `{Config} `{Env}.

(** [FilesystemServer::FilesystemServer]: the string literals passed for [bool
    vdir] make both member directories virtual; [m_op_count] and [m_op_times]
    are not initialised. *)
Definition FilesystemServer_new (server memory : Z) (counts times : list Z) : option Server :=
  bc ← BufferCache_new server memory;
  let root_base := VFile_new server 0 (env_clock 0) (Dir_type true 493) (Z.land 493 (Z.lnot S_ISSHR)) in
  let orphans_base := VFile_new server 1 (env_clock 1) (Dir_type true 493) (Z.land 493 (Z.lnot S_ISSHR)) in
  let root := addChild 2 ".." (mkInodeType server 0 TYPE_DIR) (Dir_new (set_id 0 root_base) true) in
  let orphans := Dir_new (set_id ORPHANS orphans_base) true in
  Some (mkServer server
    (<[ORPHANS := DirV orphans]> (if server =? 0 then {[0 := DirV root]} else ∅))
    ∅ ∅ bc ∅ counts times 2 ∅ 3 []).
End Start.
