(* ===== verification/FsServerInv.v ===== *)
(** * The invariant of a file server

    What holds of the state of a server whatever requests it serves: every
    block of its partition is either free or in exactly one file, objects are
    stored under their inode numbers and have the class their type says, and
    numbers not yet handed out are unused.  Each primitive step of [FsServer]
    is shown to keep it; [FsServerOps] lifts this to the operations. *)

From S2P Require Import Prelude FsTypes BufferCache FsFile FsNode TimeArith FsServer.

(** ** Inode numbers *)

(** With fewer than 64 servers and [2^26] inodes each, the number is the pair. *)
Lemma inode_number_pair server seq :
  0 <= server < 64 -> 0 <= seq < 2 ^ 26 -> inode_number server seq = seq + server * 2 ^ 26.
Proof.
  intros Hs Hq. unfold inode_number. rewrite (u64_small seq) by lia.
  destruct (Z.eqb_spec server 0) as [->|]; [lia|].
  change INODE_MASK with (2 ^ 26 - 1). change INODE_SHIFT with 26.
  rewrite land_pow2_mask, Z.mod_small by lia.
  rewrite (u32_small (Z.shiftl server 26)) by (rewrite Z.shiftl_mul_pow2; lia).
  apply lor_disjoint_add; lia.
Qed.

Lemma inode_number_inj server seq seq' :
  0 <= server < 64 -> 0 <= seq < 2 ^ 26 -> 0 <= seq' < 2 ^ 26 ->
  inode_number server seq = inode_number server seq' -> seq = seq'.
Proof. intros ???. rewrite !inode_number_pair by done. lia. Qed.

Lemma inode_number_orphans server seq :
  0 <= server < 64 -> 0 <= seq < 2 ^ 26 -> inode_number server seq <> ORPHANS.
Proof. intros. rewrite inode_number_pair by done. unfold ORPHANS, UINT64_MAX. lia. Qed.

(** C21: Inode numbers are unique across the servers: two constructor calls give
    the same number only on the same server with the same sequence number, and
    the server can be read off the number.  This holds for up to 64 servers and
    [2^26] inodes on each. *)
Theorem inode_numbers_unique server seq server' seq' :
  0 <= server < 64 -> 0 <= server' < 64 -> 0 <= seq < 2 ^ 26 -> 0 <= seq' < 2 ^ 26 ->
  Z.shiftr (inode_number server seq) INODE_SHIFT = server /\
  (inode_number server seq = inode_number server' seq' -> server = server' /\ seq = seq').
Proof.
  intros. rewrite !inode_number_pair by done. split; [|lia].
  rewrite Z.shiftr_div_pow2 by done. symmetry.
  apply Z.div_unique with seq; unfold INODE_SHIFT; lia.
Qed.

Lemma inode_numbers_unique_witness :
  inode_number 5 77 = 335544397 /\ Z.shiftr (inode_number 5 77) INODE_SHIFT = 5.
Proof.
  split; [reflexivity|]. apply (inode_numbers_unique 5 77 5 77); lia.
Defined.

(** ** The blocks the files own *)

Definition v_blocks (v : VFile) : list Z :=
  match v with FileV f => m_memory_blocks f ++ m_orphan_blocks f | _ => [] end.

Definition owned (m : gmap Z VFile) : list Z := map_to_list m ≫= (fun kv => v_blocks (snd kv)).

Lemma owned_insert m i v : m !! i = None -> owned (<[i := v]> m) ≡ₚ v_blocks v ++ owned m.
Proof. intros Hi. unfold owned. by rewrite map_to_list_insert. Qed.

Lemma owned_delete m i v : m !! i = Some v -> owned m ≡ₚ v_blocks v ++ owned (delete i m).
Proof. intros Hi. rewrite <- owned_insert by apply lookup_delete_eq. by rewrite insert_delete_id. Qed.

Lemma owned_update m i v w :
  m !! i = Some v -> v_blocks v ++ owned (<[i := w]> m) ≡ₚ v_blocks w ++ owned m.
Proof.
  intros Hi. rewrite (owned_delete m i v Hi).
  rewrite <- insert_delete_eq, owned_insert by apply lookup_delete_eq.
  apply Permutation_app_middle_swap.
Qed.

Lemma owned_same m i v w :
  m !! i = Some v -> v_blocks w = v_blocks v -> owned (<[i := w]> m) ≡ₚ owned m.
Proof.
  intros Hi Hw. pose proof (owned_update m i v w Hi) as Hu. rewrite Hw in Hu.
  by apply Permutation_app_inv_l in Hu.
Qed.

Lemma owned_nil m : (forall i v, m !! i = Some v -> v_blocks v = []) -> owned m = [].
Proof.
  induction m as [|i v m Hi IH] using map_ind; intros Hm; [done|].
  apply Permutation_nil_r. rewrite owned_insert by done.
  rewrite (Hm i v) by apply lookup_insert_eq. rewrite IH; [done|].
  intros j w Hj. apply (Hm j). rewrite lookup_insert_ne; [done|]. congruence.
Qed.

Lemma owned_lookup m i v b : m !! i = Some v -> b ∈ v_blocks v -> b ∈ owned m.
Proof. intros Hi Hb. rewrite (owned_delete m i v Hi). set_solver. Qed.

(** The entry [path] of the directory with number [parent], as the server has
    it. *)
Definition entry (s : Server) (parent : Z) (path : string) : option InodeType :=
  match m_files s !! parent with
  | Some (DirV d) => vfl_inode <$> child_find path (m_children d)
  | _ => None
  end.

(** ** The invariant *)

(** An object stored under number [i]. *)
Definition v_ok (i : Z) (v : VFile) : Prop :=
  v_id v = i /\ v_class_ok v = true /\ v_type v <> TYPE_PIPE /\
  match v with DirV d => NoDup (m_children d).*1 | _ => True end.

Lemma v_ok_file i f : v_ok i (FileV f) <-> m_id (f_base f) = i /\ m_type (f_base f) = TYPE_FILE.
Proof.
  unfold v_ok, v_id, v_type, v_class_ok, v_type. simpl.
  destruct (m_type (f_base f)); naive_solver.
Qed.

Lemma Dir_type_dir `{Config} vdir mode : Dir_type vdir mode = TYPE_DIR \/ Dir_type vdir mode = TYPE_DIR_SHARED.
Proof. unfold Dir_type. repeat case_match; auto. Qed.

Lemma v_ok_dir i d :
  v_ok i (DirV d) <-> m_id (d_base d) = i /\
    (m_type (d_base d) = TYPE_DIR \/ m_type (d_base d) = TYPE_DIR_SHARED) /\
    NoDup (m_children d).*1.
Proof.
  unfold v_ok, v_id, v_type, v_class_ok, v_type. simpl. destruct (m_type (d_base d)); naive_solver.
Qed.

Lemma v_ok_symlink i l :
  v_ok i (SymlinkV l) <-> m_id (s_base l) = i /\ m_type (s_base l) = TYPE_SYMLINK.
Proof.
  unfold v_ok, v_id, v_type, v_class_ok, v_type. simpl. destruct (m_type (s_base l)); naive_solver.
Qed.

Lemma v_ok_Dir_new `{Config} i b vdir mode :
  m_id b = i -> m_type b = Dir_type vdir mode -> v_ok i (DirV (Dir_new b vdir)).
Proof.
  intros Hi Ht. apply v_ok_dir. simpl. rewrite Ht. split; [done|]. split; [apply Dir_type_dir|].
  apply NoDup_nil_2.
Qed.

Section Invariant.
Context `{ConfigOk} `{EnvOk}.

(** [init]: the blocks of the partition, on the grid of [base]; [sid]: the
    server; [seq0]: the sequence number at some earlier time; [prot]: possibly
    an inode whose contents, [pdata], are not to change. *)
Variables (init : list Z) (base sid seq0 : Z) (prot : option Z) (pdata : list Z).

Record sinv (s : Server) : Prop := {
  inv_bc : bc_ok (m_buffer_cache s);
  inv_spare : 0 <= bc_spare (m_buffer_cache s) <= 1;
  inv_blocks : bc_usable (m_buffer_cache s) ++ owned (m_files s) ≡ₚ init;
  inv_files i v : m_files s !! i = Some v -> v_ok i v;
  inv_pipes i v : m_pipes s !! i = Some v -> v_id v = i /\ exists p, v = PipeV p;
  inv_orphans : exists d, m_files s !! ORPHANS = Some (DirV d);
  inv_fresh q : g_inode_seq s <= q < 2 ^ 26 ->
    m_files s !! inode_number sid q = None /\ m_pipes s !! inode_number sid q = None;
  inv_prot i f : prot = Some i -> m_files s !! i = Some (FileV f) -> file_data (s_mem s) f = pdata
}.

(** Descriptors are stored under their numbers. *)
Definition fds_ok (s : Server) : Prop := forall k d, m_fds s !! k = Some d -> fd_fd d = k.

(** The form carried through a computation: the sequence number only grows, so
    its bound at the end holds all along. *)
Definition I (s : Server) : Prop :=
  s_id s = sid /\ seq0 <= g_inode_seq s /\ fds_ok s /\ (g_inode_seq s <= 2 ^ 26 -> sinv s).

(** A number no later constructor call will produce. *)
Definition known_at (q0 i : Z) : Prop := forall q, q0 <= q < 2 ^ 26 -> i <> inode_number sid q.

(** What is assumed of the parameters. *)
Record params_ok : Prop := {
  init_nodup : NoDup init;
  init_aligned : Forall (aligned base) init;
  init_length : Z.of_nat (length init) < 2 ^ 62;
  sid_range : 0 <= sid < 64;
  seq0_pos : 0 <= seq0;
  prot_known i : prot = Some i -> known_at seq0 i
}.

Hypothesis Hpar : params_ok.

Lemma known_at_mono q q' i : q <= q' -> known_at q i -> known_at q' i.
Proof. intros Hq Hk k Hk'. apply Hk. lia. Qed.

(** Changes to the statistics, the caches and the clock are irrelevant. *)
Record same_core (s s' : Server) : Prop := {
  sc_id : s_id s' = s_id s;
  sc_files : m_files s' = m_files s;
  sc_pipes : m_pipes s' = m_pipes s;
  sc_fds : m_fds s' = m_fds s;
  sc_bc : m_buffer_cache s' = m_buffer_cache s;
  sc_seq : g_inode_seq s' = g_inode_seq s;
  sc_mem : s_mem s' = s_mem s
}.

#[export] Instance same_core_equiv : Equivalence same_core.
Proof.
  split.
  - intros s. by split.
  - intros s s' []. by split.
  - intros s s' s'' [] []. split; congruence.
Qed.

Lemma sinv_core s s' : same_core s s' -> sinv s -> sinv s'.
Proof.
  intros [Hi Hf Hp Hd Hb Hq Hm] []. split; rewrite ?Hf, ?Hp, ?Hb, ?Hq, ?Hm; auto.
Qed.

Lemma I_core s s' : same_core s s' -> I s -> I s'.
Proof.
  intros Hc (Hid & Hq & Hfd & Hs). pose proof Hc as []. unfold I, fds_ok.
  rewrite sc_id0, sc_seq0, sc_fds0. do 3 (split; [done|]). eauto using sinv_core.
Qed.

(** An object is replaced by one with the same blocks. *)
Lemma I_put_file i w s :
  I s ->
  (g_inode_seq s <= 2 ^ 26 -> sinv s -> exists v, m_files s !! i = Some v /\ v_blocks w = v_blocks v /\ v_ok i w /\
     (i = ORPHANS -> exists d, w = DirV d) /\
     (forall f, prot = Some i -> w = FileV f -> file_data (s_mem s) f = pdata)) ->
  I (set_files (<[i := w]> (m_files s)) s).
Proof.
  intros (Hid & Hq & Hfd & Hs) Hw. split; [done|]. split; [done|]. split; [done|]. simpl. intros Hle.
  specialize (Hs Hle). destruct (Hw Hle Hs) as (v & Hv & Hbl & Hok & Ho & Hp). destruct Hs.
  split; simpl; auto.
  - by rewrite (owned_same _ i v).
  - intros j u [[<- <-]|[? Hj]]%lookup_insert_Some; auto.
  - destruct (decide (i = ORPHANS)) as [->|].
    + rewrite lookup_insert_eq. destruct Ho as [d ->]; eauto.
    + by rewrite lookup_insert_ne.
  - intros q Hq'. destruct (inv_fresh0 q Hq') as [Hn ?]. split; [|done].
    rewrite lookup_insert_ne; [done|]. intros ->. congruence.
  - intros j f Hj [[-> ->]|[? Hj']]%lookup_insert_Some; eauto.
Qed.

(** A new object without blocks under a number that is not in use. *)
Lemma I_put_new i w s :
  I s ->
  (g_inode_seq s <= 2 ^ 26 -> sinv s -> m_files s !! i = None /\ v_blocks w = [] /\ v_ok i w /\
     known_at (g_inode_seq s) i /\ (forall f, w = FileV f -> prot <> Some i)) ->
  I (set_files (<[i := w]> (m_files s)) s).
Proof.
  intros (Hid & Hq & Hfd & Hs) Hw. split; [done|]. split; [done|]. split; [done|]. simpl. intros Hle.
  specialize (Hs Hle). destruct (Hw Hle Hs) as (Hv & Hbl & Hok & Hk & Hp). destruct Hs.
  split; simpl; auto.
  - by rewrite owned_insert, Hbl.
  - intros j u [[<- <-]|[? Hj]]%lookup_insert_Some; auto.
  - destruct inv_orphans0 as [d Hd]. exists d. rewrite lookup_insert_ne; congruence.
  - intros q Hq'. destruct (inv_fresh0 q Hq') as [Hn ?]. split; [|done].
    rewrite lookup_insert_ne; [done|]. by apply Hk.
  - intros j f Hj [[-> Hf]|[? Hj']]%lookup_insert_Some; [|eauto]. by destruct (Hp f).
Qed.

Lemma I_put_fd k d s : I s -> fd_fd d = k -> I (set_fds (<[k := d]> (m_fds s)) s).
Proof.
  intros (Hid & Hq & Hfd & Hs) Hd. split; [done|]. split; [done|]. split.
  - simpl. intros j u. simpl. intros [[<- <-]|[? Hj]]%lookup_insert_Some; auto.
  - simpl. intros Hle. destruct (Hs Hle). by split.
Qed.

Lemma I_delete_fd k s : I s -> I (set_fds (delete k (m_fds s)) s).
Proof.
  intros (Hid & Hq & Hfd & Hs). split; [done|]. split; [done|]. split.
  - intros j u. simpl. intros [? Hj]%lookup_delete_Some; auto.
  - simpl. intros Hle. destruct (Hs Hle). by split.
Qed.

Lemma I_put_pipe i p s :
  I s -> (g_inode_seq s <= 2 ^ 26 -> sinv s -> m_id (p_base p) = i /\ known_at (g_inode_seq s) i) ->
  I (set_pipes (<[i := PipeV p]> (m_pipes s)) s).
Proof.
  intros (Hid & Hq & Hfd & Hs) Hp. split; [done|]. split; [done|]. split; [done|]. simpl. intros Hle.
  specialize (Hs Hle). destruct (Hp Hle Hs) as [Hi Hk]. destruct Hs. split; simpl; auto.
  - intros j u [[<- <-]|[? Hj]]%lookup_insert_Some; eauto.
  - intros q Hq'. destruct (inv_fresh0 q Hq') as [? Hn]. split; [done|].
    rewrite lookup_insert_ne; [done|]. by apply Hk.
Qed.

Lemma I_delete_pipe i s : I s -> I (set_pipes (delete i (m_pipes s)) s).
Proof.
  intros (Hid & Hq & Hfd & Hs). split; [done|]. split; [done|]. split; [done|]. simpl. intros Hle.
  destruct (Hs Hle). split; simpl; auto.
  - intros j u [? Hj]%lookup_delete_Some; auto.
  - intros q Hq'. destruct (inv_fresh0 q Hq') as [? Hn]. split; [done|].
    rewrite lookup_delete_None. auto.
Qed.

(** ** Steps on a file *)

Lemma perm_exchange (x x' o o' u u' : list Z) :
  x ++ o' ≡ₚ x' ++ o -> x' ++ u' ≡ₚ x ++ u -> u' ++ o' ≡ₚ u ++ o.
Proof.
  intros Ho Hu. apply (Permutation_app_inv_l x).
  rewrite Permutation_app_middle_swap, Ho, Permutation_app_middle_swap.
  by rewrite !(assoc_L (++)), Hu.
Qed.

(** The blocks of a file and the free blocks are disjoint from the other
    files' blocks. *)
Lemma other_file_disjoint s i j f g b :
  sinv s -> m_files s !! i = Some (FileV f) -> m_files s !! j = Some (FileV g) -> i <> j ->
  b ∈ m_memory_blocks g -> b ∈ v_blocks (FileV f) ++ bc_usable (m_buffer_cache s) -> False.
Proof.
  intros Hs Hi Hj Hne Hb Hin. pose proof (inv_blocks s Hs) as Hbl.
  rewrite (owned_delete _ i _ Hi), (assoc_L (++)) in Hbl.
  assert (Hnd : NoDup ((bc_usable (m_buffer_cache s) ++ v_blocks (FileV f)) ++ owned (delete i (m_files s)))).
  { rewrite Hbl. apply Hpar. }
  apply (NoDup_app_disjoint _ _ b Hnd); [set_solver|].
  apply (owned_lookup _ j (FileV g)); [by rewrite lookup_delete_ne|]. simpl. set_solver.
Qed.

Lemma init_block_aligned s b :
  sinv s -> b ∈ bc_usable (m_buffer_cache s) ++ owned (m_files s) -> aligned base b.
Proof.
  intros Hs Hb. pose proof (init_aligned Hpar) as Ha. rewrite Forall_forall in Ha. apply Ha.
  by rewrite <- (inv_blocks s Hs).
Qed.

(** A method that only moves blocks keeps the invariant. *)
Lemma wlp_on_file {A} i f0 f (m : M FState A) s :
  I s -> m_files s !! i = Some (FileV f0) ->
  m_memory_blocks f = m_memory_blocks f0 -> m_orphan_blocks f = m_orphan_blocks f0 ->
  m_id (f_base f) = m_id (f_base f0) -> m_type (f_base f) = m_type (f_base f0) ->
  (let st := mkFState f (m_buffer_cache s) (s_mem s) (s_tick s) in
   g_inode_seq s <= 2 ^ 26 -> bc_ok (m_buffer_cache s) ->
   wlp m (fun _ t => moves st t /\
     (prot = Some i -> file_data (fs_mem t) (fs_file t) = file_data (s_mem s) f0)) st) ->
  wlp (on_file i f m) (fun _ s' => I s' /\ g_inode_seq s' = g_inode_seq s /\
    exists f', m_files s' !! i = Some (FileV f')) s.
Proof.
  intros (Hid & Hq & Hfd & Hs) Hi Hmb Hob Hmi Hmt Hm. unfold wlp, on_file.
  set (st := mkFState _ _ _ _) in *. destruct (m st) as [a t| | |] eqn:Hrun; try done.
  split; [|simpl; rewrite lookup_insert_eq; eauto].
  split; [done|]. split; [done|]. split; [done|]. simpl. intros Hle. specialize (Hs Hle).
  specialize (Hm Hle (inv_bc s Hs)). unfold wlp in Hm. rewrite Hrun in Hm. destruct Hm as [Hmv Hprot].
  assert (Hx : v_blocks (FileV (fs_file t)) ++ bc_usable (fs_cache t)
               ≡ₚ v_blocks (FileV f0) ++ bc_usable (m_buffer_cache s)).
  { pose proof (moves_blocks _ _ Hmv) as Hb. unfold all_blocks in Hb. simpl in Hb |- *.
    rewrite Hmb, Hob in Hb. by rewrite <- !(assoc_L (++)). }
  pose proof (inv_files s Hs i _ Hi) as [Hvi Hvt]%v_ok_file.
  destruct (moves_ident _ _ Hmv) as [Hti Htt]. simpl in Hti, Htt.
  split; simpl; try by apply Hs.
  - apply Hmv.
  - rewrite (moves_spare _ _ Hmv). apply Hs.
  - rewrite <- (inv_blocks s Hs).
    apply (perm_exchange (v_blocks (FileV f0)) (v_blocks (FileV (fs_file t)))); [|done].
    by apply owned_update.
  - intros j u [[<- <-]|[? Hj]]%lookup_insert_Some; [|by apply Hs].
    apply v_ok_file. split; congruence.
  - destruct (inv_orphans s Hs) as [d Hd]. exists d. rewrite lookup_insert_ne; [done|].
    intros ->. by rewrite Hi in Hd.
  - intros q Hq'. destruct (inv_fresh s Hs q Hq') as [Hn ?]. split; [|done].
    rewrite lookup_insert_ne; [done|]. intros ->. by rewrite Hi in Hn.
  - intros k g Hk [[-> [= <-]]|[Hne Hg]]%lookup_insert_Some.
    + rewrite Hprot by done. by apply (inv_prot s Hs k).
    + rewrite <- (inv_prot s Hs k g Hk Hg). apply (moves_other base st t g Hmv).
      * apply Forall_forall. intros b Hb. apply (init_block_aligned s); [done|].
        assert (b ∈ v_blocks (FileV f0) ++ bc_usable (m_buffer_cache s)) as Hin
          by (rewrite <- Hx; simpl; set_solver).
        rewrite (owned_delete _ i _ Hi). set_solver.
      * apply Forall_forall. intros b Hb. apply (init_block_aligned s); [done|].
        apply elem_of_app. right. apply (owned_lookup _ k _ _ Hg). simpl. set_solver.
      * intros b Hb Hb'. apply (other_file_disjoint s i k f0 g b); try done.
        rewrite <- Hx. simpl. set_solver.
Qed.

(** Deleting an object returns its blocks. *)
(** A file's blocks and the free ones are no more than the partition has. *)
Lemma file_blocks_bound s i f :
  sinv s -> m_files s !! i = Some (FileV f) ->
  Z.of_nat (length (m_memory_blocks f ++ m_orphan_blocks f))
    + Z.of_nat (length (m_blocks (m_buffer_cache s))) < 2 ^ 63.
Proof.
  intros Hs Hi. pose proof (inv_blocks s Hs) as Hb. rewrite (owned_delete _ i _ Hi) in Hb.
  apply Permutation_length in Hb. pose proof (init_length Hpar). pose proof (inv_spare s Hs).
  pose proof (inv_bc s Hs) as [Hb1 Hb2].
  unfold bc_spare, bc_usable in *. simpl in *. rewrite !length_app in *. rewrite length_take in Hb.
  lia.
Qed.

Lemma wlp_erase_delete i v s :
  I s -> m_files s !! i = Some v -> wlp (erase_delete i v) (fun _ s' => I s') s.
Proof.
  intros (Hid & Hq & Hfd & Hs) Hi. unfold erase_delete. do 2 wlp_step. rewrite Hid.
  wlp_step; [apply wlp_undef|]. apply orb_false_elim in Heqb as [Ho _].
  apply Z.eqb_neq in Ho. apply wlp_bind.
  destruct (decide (g_inode_seq s <= 2 ^ 26)) as [Hle|Hgt].
  2: { destruct v; [|by wlp_steps..]. unfold wlp, on_file.
       by destruct (File_delete _). }
  specialize (Hs Hle).
  assert (Hdel : forall s', delete i (m_files s') = delete i (m_files s) ->
    s_id s' = s_id s -> m_pipes s' = m_pipes s -> m_fds s' = m_fds s -> g_inode_seq s' = g_inode_seq s ->
    s_mem s' = s_mem s -> bc_ok (m_buffer_cache s') ->
    bc_spare (m_buffer_cache s') = bc_spare (m_buffer_cache s) ->
    bc_usable (m_buffer_cache s') ≡ₚ v_blocks v ++ bc_usable (m_buffer_cache s) ->
    I (set_files (delete i (m_files s')) s')).
  { intros s' Hf' Hid' Hp Hfd' Hsq Hm Hok Hsp Hus.
    split; [by simpl; rewrite Hid'|]. split; [by simpl; rewrite Hsq|].
    split; [unfold fds_ok; simpl; by rewrite Hfd'|]. simpl. intros _.
    rewrite Hf'. destruct Hs. split; simpl; rewrite ?Hp, ?Hsq, ?Hm, ?Hsp; auto.
    - rewrite <- inv_blocks0, Hus, (owned_delete _ i v Hi), <- (assoc_L (++)).
      apply Permutation_app_middle_swap.
    - intros j u [? Hj]%lookup_delete_Some; auto.
    - destruct inv_orphans0 as [d Hd]. exists d. by rewrite lookup_delete_ne.
    - intros q Hq'. destruct (inv_fresh0 q Hq') as [Hn ?]. split; [|done].
      rewrite lookup_delete_None. auto.
    - intros k f Hk [? Hf'']%lookup_delete_Some; eauto. }
  destruct v as [f| | |]; [|wlp_steps; apply Hdel; auto; apply Hs..].
  unfold wlp, on_file.
  destruct (File_delete_spec (mkFState f (m_buffer_cache s) (s_mem s) (s_tick s)))
    as (c' & Hrun & Hok & _ & Hus & Hsp); [apply Hs| |].
  { by apply (file_blocks_bound s i). }
  rewrite Hrun. simpl. wlp_steps. apply Hdel; simpl; try done; [apply delete_insert_eq|].
  rewrite Hus. unfold all_blocks. simpl. by rewrite (assoc_L (++)).
Qed.

(** ** Steps that leave the core alone *)

Lemma wlp_s_use (Q : nat -> Server -> Prop) s :
  (forall s', same_core s s' -> Q (s_tick s) s') -> wlp s_use Q s.
Proof. intros HQ. unfold s_use. apply wlp_zoom. unfold wlp, tick. apply HQ. by split. Qed.

Lemma wlp_rdtscll (Q : Z -> Server -> Prop) s :
  (forall x s', same_core s s' -> Q x s') -> wlp rdtscll Q s.
Proof. intros HQ. unfold rdtscll. wlp_step. apply wlp_s_use. intros. wlp_step. auto. Qed.

Lemma wlp_clock_gettime (Q : timespec -> Server -> Prop) s :
  (forall x s', same_core s s' -> Q x s') -> wlp clock_gettime Q s.
Proof. intros HQ. unfold clock_gettime. wlp_step. apply wlp_s_use. intros. wlp_step. auto. Qed.

Lemma wlp_appAddCache appId l (Q : unit -> Server -> Prop) s :
  (forall s', same_core s s' -> Q tt s') -> wlp (appAddCache appId l) Q s.
Proof. intros HQ. unfold appAddCache. wlp_step. apply HQ. by split. Qed.

Lemma wlp_appRemoveCache appId l (Q : unit -> Server -> Prop) s :
  (forall s', same_core s s' -> Q tt s') -> wlp (appRemoveCache appId l) Q s.
Proof.
  intros HQ. unfold appRemoveCache. wlp_step. apply wlp_s_use. intros s' Hc. wlp_step.
  apply HQ. destruct Hc. by split.
Qed.

Lemma wlp_clear_stats (Q : unit -> Server -> Prop) s :
  (forall s', same_core s s' -> Q tt s') -> wlp clear_stats Q s.
Proof. intros HQ. unfold clear_stats. wlp_step. apply HQ. by split. Qed.

Lemma wlp_OP_COUNTER {A} op (body : M Server A) (Q : A -> Server -> Prop) s :
  (forall s1, same_core s s1 ->
     wlp body (fun a s2 => forall s3, same_core s2 s3 -> Q a s3) s1) ->
  wlp (OP_COUNTER op body) Q s.
Proof.
  intros Hb. unfold OP_COUNTER. destruct ENABLE_DBG_SHOW_OPS.
  - wlp_step. apply wlp_rdtscll. intros st s1 Hc1. wlp_step. unfold opStart. wlp_step. wlp_step.
    eapply wlp_mono; [apply Hb; destruct Hc1; by split|]. simpl. intros a s2 HQ.
    wlp_step. unfold opEnd. wlp_step. apply wlp_rdtscll. intros x s3 Hc3. cbv zeta.
    wlp_steps; apply HQ; destruct Hc3; by split.
  - eapply wlp_mono; [by apply Hb|]. simpl. intros a s2 HQ. by apply HQ.
Qed.

Lemma wlp_OP_COUNTER_I {A} op (body : M Server A) s :
  I s -> (forall s1, I s1 -> same_core s s1 -> wlp body (fun _ s2 => I s2) s1) ->
  wlp (OP_COUNTER op body) (fun _ s' => I s') s.
Proof.
  intros HI Hb. apply wlp_OP_COUNTER. intros s1 Hc.
  eapply wlp_mono; [apply Hb; eauto using I_core|]. simpl. eauto using I_core.
Qed.

(** ** New objects *)

(** What is known of the number of a new object in the state after its
    construction. *)
Definition fresh_base (b : VFileBase) (s : Server) : Prop :=
  g_inode_seq s <= 2 ^ 26 ->
  m_files s !! m_id b = None /\ m_pipes s !! m_id b = None /\
  known_at (g_inode_seq s) (m_id b) /\ prot <> Some (m_id b).

Lemma wlp_new_base type mode (Q : VFileBase -> Server -> Prop) s :
  I s ->
  (forall b s', I s' -> m_files s' = m_files s -> m_pipes s' = m_pipes s -> m_fds s' = m_fds s ->
     g_inode_seq s' = g_inode_seq s + 1 -> fresh_base b s' ->
     m_id b = inode_number sid (g_inode_seq s) -> m_type b = type -> Q b s') ->
  wlp (new_base type mode) Q s.
Proof.
  intros (Hid & Hq & Hfd & Hs) HQ. unfold new_base. do 3 wlp_step. wlp_step; [apply wlp_undef|].
  do 2 wlp_step. apply wlp_clock_gettime. intros now s' Hc. do 2 wlp_step.
  pose proof (seq0_pos Hpar). pose proof (sid_range Hpar).
  destruct Hc as [Hci Hcf Hcp Hcd Hcb Hcq Hcm]. simpl in *. wlp_step. rewrite Hci, Hid.
  apply HQ; try done.
  - split; [congruence|]. split; [lia|]. split; [unfold fds_ok; by rewrite Hcd|].
    rewrite Hcq. intros Hle. specialize (Hs ltac:(lia)). destruct Hs.
    split; rewrite ?Hcf, ?Hcp, ?Hcb, ?Hcq, ?Hcm; auto.
    intros q Hq'. apply inv_fresh0. lia.
  - unfold fresh_base. rewrite Hcf, Hcp, Hcq. intros Hle. specialize (Hs ltac:(lia)).
    destruct (inv_fresh s Hs (g_inode_seq s)) as [Hf Hp]; [lia|]. split; [done|]. split; [done|].
    split; [|intros Hp'; by apply (prot_known Hpar _ Hp' (g_inode_seq s)); [lia|]].
    intros q Hq' Heq. apply inode_number_inj in Heq; lia.
Qed.

(** After [lazy_dir] the parent is there; nothing else changed. *)
Lemma wlp_lazy_dir i (Q : unit -> Server -> Prop) s :
  I s -> known_at (g_inode_seq s) i ->
  (forall s' v, I s' -> m_files s' !! i = Some v -> g_inode_seq s <= g_inode_seq s' ->
     (s' = s \/ exists d, v = DirV d /\ m_children d = []) -> Q tt s') ->
  wlp (lazy_dir i) Q s.
Proof.
  intros HI Hk HQ. unfold lazy_dir, find_file. do 2 wlp_step. destruct (m_files s !! i) as [v|] eqn:Hi.
  { wlp_step. eapply HQ; eauto; lia. }
  wlp_step. unfold new_dir. wlp_step. apply wlp_new_base; [done|].
  intros b s' HI' Hf Hp Hd Hq Hfr Hb Ht. wlp_step. unfold put_file. wlp_step.
  eapply HQ; simpl; [|by rewrite lookup_insert_eq|lia|right; eexists; by split].
  apply I_put_new; [done|]. intros _ _. rewrite Hf. split; [done|]. split; [done|]. split.
  - apply v_ok_dir. simpl. rewrite Ht. split; [done|]. split; [apply Dir_type_dir|apply NoDup_nil_2].
  - split; [|done]. apply (known_at_mono (g_inode_seq s)); [lia|done].
Qed.
End Invariant.
