(* ===== verification/FsServerOps.v ===== *)
(** * Every operation of the server keeps the invariant

    One lemma per method of [FilesystemServer].  A method may be called with
    any arguments, except that a directory it may create on demand must have a
    number that no server will hand out later, and that it must not be one that
    changes the protected file. *)

From S2P Require Import Prelude FsTypes BufferCache FsFile FsNode TimeArith FsServer FsServerInv.

#[local] Arguments on_file : simpl never.
#[local] Arguments erase_delete : simpl never.
#[local] Arguments new_base : simpl never.
#[local] Arguments lazy_dir : simpl never.
#[local] Arguments OP_COUNTER : simpl never.
#[local] Arguments addChild : simpl never.
#[local] Arguments update_stat_file : simpl never.
#[local] Arguments Z.pow : simpl never.

(** One step of a computation of the server. *)
Ltac srv_step :=
  lazymatch goal with
  | |- wlp (find_file _) _ _ => apply wlp_gets
  | |- wlp (find_pipe _) _ _ => apply wlp_gets
  | |- wlp (find_fd _) _ _ => apply wlp_gets
  | |- wlp (has_open_fd _) _ _ => apply wlp_gets
  | |- wlp (put_file _ _) _ _ => apply wlp_modify
  | |- wlp (put_pipe _ _) _ _ => apply wlp_modify
  | |- wlp (put_fd _ _) _ _ => apply wlp_modify
  | |- wlp (as_dir ?v) _ _ => destruct v; try apply wlp_undef; apply wlp_ret
  | |- wlp (as_file ?v) _ _ => destruct v; try apply wlp_undef; apply wlp_ret
  | |- wlp (as_pipe ?v) _ _ => destruct v; try apply wlp_undef; apply wlp_ret
  | |- wlp s_use _ _ => apply wlp_s_use; intros ? ?
  | |- wlp rdtscll _ _ => apply wlp_rdtscll; intros ? ? ?
  | |- wlp clock_gettime _ _ => apply wlp_clock_gettime; intros ? ? ?
  | |- wlp (appAddCache _ _) _ _ => apply wlp_appAddCache; intros ? ?
  | |- wlp (appRemoveCache _ _) _ _ => apply wlp_appRemoveCache; intros ? ?
  | |- wlp clear_stats _ _ => apply wlp_clear_stats; intros ? ?
  | |- _ => wlp_step
  end.
Ltac srv_steps := repeat (srv_step; simpl in *).

(** Enter a method whose specification does not depend on the state. *)
Ltac op_start s HI :=
  apply wlp_OP_COUNTER_I; [exact HI|]; clear HI;
  let s' := fresh "s" in intros s' HI _; clear s; rename s' into s.

(** ** Tables of directory entries *)

Section Children.
Context `{EnvOk}.

Lemma child_find_None name c : child_find name c = None <-> name ∉ c.*1.
Proof.
  induction c as [|[k l] c IH]; simpl; [split; [set_solver|done]|].
  destruct (String.eqb_spec k name) as [->|]; [set_solver|]. rewrite IH. set_solver.
Qed.

Lemma child_replace_keys name l c : (child_replace name l c).*1 = c.*1.
Proof.
  induction c as [|[k l'] c IH]; [done|]. cbn [child_replace].
  destruct (k =? name)%string; [done|]. rewrite !fmap_cons. by rewrite IH.
Qed.

Lemma child_erase_keys name c : (child_erase name c).*1 `sublist_of` c.*1.
Proof.
  induction c as [|[k l'] c IH]; [constructor|]. cbn [child_erase].
  destruct (k =? name)%string; rewrite ?fmap_cons; by constructor.
Qed.

Lemma addChild_nodup t name inode d :
  NoDup (m_children d).*1 -> NoDup (m_children (addChild t name inode d)).*1.
Proof.
  intros Hnd. unfold addChild. destruct (child_find name (m_children d)) eqn:Hf; simpl.
  - by rewrite child_replace_keys.
  - rewrite env_order_perm. simpl. constructor; [|done]. by apply child_find_None.
Qed.

Lemma Dir_erase_nodup name d :
  NoDup (m_children d).*1 -> NoDup (m_children (Dir_erase name d)).*1.
Proof.
  intros Hnd. simpl. eapply sublist_NoDup; [done|]. apply child_erase_keys.
Qed.

Lemma addChild_base t name inode d : d_base (addChild t name inode d) = d_base d.
Proof. unfold addChild. by case_match. Qed.
End Children.

Section Ops.
Context `{ConfigOk} `{EnvOk}.
Variables (init : list Z) (base sid seq0 : Z) (prot : option Z) (pdata : list Z).
Hypothesis Hpar : params_ok init base sid seq0 prot.
Local Abbreviation INV := (I init sid seq0 prot pdata).
Local Abbreviation known := (known_at sid).

Lemma sc_lookup s s' i v :
  same_core s s' -> m_files s !! i = Some v -> m_files s' !! i = Some v.
Proof. intros [] Hi. congruence. Qed.

(** Replacing a directory by a directory. *)
Lemma I_put_dir i d d' s :
  INV s -> m_files s !! i = Some (DirV d) -> d_base d' = d_base d ->
  (NoDup (m_children d).*1 -> NoDup (m_children d').*1) ->
  INV (set_files (<[i := DirV d']> (m_files s)) s).
Proof.
  intros HI Hi Hb Hnd. apply I_put_file; [done|]. intros _ Hs. exists (DirV d).
  pose proof (inv_files _ _ _ _ _ Hs i _ Hi) as (? & ? & ?)%v_ok_dir.
  split; [done|]. split; [done|]. split; [|split; [eauto|done]].
  apply v_ok_dir. rewrite Hb. auto.
Qed.

Lemma in_use_known s i v : sinv init sid prot pdata s -> m_files s !! i = Some v -> known (g_inode_seq s) i.
Proof. intros Hs Hi q Hq ->. destruct (inv_fresh _ _ _ _ _ Hs q Hq). congruence. Qed.

Lemma known_now s i : INV s -> known seq0 i -> known (g_inode_seq s) i.
Proof. intros (_ & Hq & _). by apply known_at_mono. Qed.

Lemma pipe_in_use_known s i v :
  sinv init sid prot pdata s -> m_pipes s !! i = Some v -> known (g_inode_seq s) i.
Proof. intros Hs Hi q Hq ->. destruct (inv_fresh _ _ _ _ _ Hs q Hq). congruence. Qed.

(** ** Inodes *)

(** What [create] tells its caller: the number of the new inode, or the entry
    that was there. *)
Definition create_result (s s' : Server) (parent : Inode) (path : string) (r : Z * option InodeType) : Prop :=
  match snd r with
  | Some e =>
      (fst r = OK /\ known (g_inode_seq s') (it_id e) /\ (g_inode_seq s' <= 2 ^ 26 -> prot <> Some (it_id e))) \/
      (fst r <> OK /\ entry s (in_id parent) path = Some e)
  | None => fst r <> OK
  end.

Lemma create_I parent path flags mode s :
  INV s -> known seq0 (in_id parent) ->
  wlp (create parent path flags mode) (fun r s' => INV s' /\ create_result s s' parent path r) s.
Proof.
  intros HI Hk. apply wlp_OP_COUNTER. intros s1 Hc1.
  apply (wlp_mono _ (fun r s' => INV s' /\ create_result s1 s' parent path r)).
  2: { simpl. intros r s2 [HI2 Hr] s3 Hc3. split; [eauto using I_core|].
       unfold create_result, entry in *. rewrite (sc_seq _ _ Hc3). by rewrite (sc_files _ _ Hc1) in Hr. }
  apply (I_core _ _ _ _ _ _ _ Hc1) in HI. clear s Hc1.
  wlp_step. eapply (wlp_lazy_dir init base); [done..|by apply known_now|]. intros s2 v HI2 Hv Hq Hsame.
  do 2 srv_step. rewrite Hv. simpl. do 2 srv_step. simplify_eq.
  srv_step; [srv_step; simpl; done|]. do 2 srv_step. do 2 srv_step. srv_step.
  { assert (Hent : entry s1 (in_id parent) path = Some (vfl_inode v)).
    { destruct Hsame as [<-|(d' & [= <-] & Hch)]; [|by rewrite Hch in Heqo].
      unfold entry. by rewrite Hv, Heqo. }
    srv_steps; (split; [done|]); right; done. }
  srv_step.
  apply (wlp_mono _ (fun w s' => INV s' /\ v_blocks w = [] /\
    (forall b, v_base w = b -> fresh_base sid prot b s' /\ v_ok (m_id b) w))).
  { srv_step; srv_step; unfold new_dir, new_file; srv_step; (eapply (wlp_new_base init base); [done..|]);
      intros b s' HI' Hf Hp Hd Hsq Hfr Hid Ht; do 2 srv_step; (split; [done|]); (split; [done|]);
      intros ? <-; (split; [done|]); [by eapply v_ok_Dir_new|by apply v_ok_file]. }
  simpl. intros w s3 (HI3 & Hbl & Hw). destruct (Hw _ eq_refl) as [Hfr Hok].
  srv_steps. split.
  - apply I_put_new; [done|]. intros Hle Hs. by destruct (Hfr Hle) as (? & ? & ? & ?).
  - left. simpl. split; [done|]. unfold v_id. split; [|intros Hle; by destruct (Hfr Hle) as (? & ? & ? & ?)].
    destruct (decide (g_inode_seq s3 <= 2 ^ 26)) as [Hle|].
    + by destruct (Hfr Hle) as (? & ? & ? & ?).
    + intros q. lia.
Qed.

Lemma add_orphan_I name child s : INV s -> wlp (add_orphan name child) (fun _ s' => INV s') s.
Proof.
  intros HI. unfold add_orphan. do 2 srv_step. do 2 srv_step. do 2 srv_step. do 2 srv_step. srv_step.
  eapply I_put_dir; [eauto using I_core|done|apply addChild_base|apply addChild_nodup].
Qed.

Lemma orphan_or_delete_I name_of inode c s :
  INV s -> m_files s !! inode = Some c ->
  wlp (orphan_or_delete name_of inode c) (fun _ s' => INV s') s.
Proof.
  intros HI Hi. unfold orphan_or_delete. do 3 srv_step.
  - do 4 srv_step. apply add_orphan_I. eauto using I_core.
  - by eapply (wlp_erase_delete init base).
Qed.

Lemma destroy_I inode s : INV s -> wlp (destroy inode) (fun _ s' => INV s') s.
Proof.
  intros HI. op_start s HI.
  do 3 srv_step; [|by srv_step]. srv_step; apply wlp_seq_ret.
  - by eapply (wlp_erase_delete init base).
  - by apply orphan_or_delete_I.
Qed.

(** A method run on a file that is not the protected one. *)
Lemma on_file_I {A} i f0 f (m : M FState A) s :
  INV s -> m_files s !! i = Some (FileV f0) ->
  m_memory_blocks f = m_memory_blocks f0 -> m_orphan_blocks f = m_orphan_blocks f0 ->
  m_id (f_base f) = m_id (f_base f0) -> m_type (f_base f) = m_type (f_base f0) ->
  (g_inode_seq s <= 2 ^ 26 -> prot <> Some i) ->
  (forall st, bc_ok (fs_cache st) -> wlp m (fun _ t => moves st t) st) ->
  wlp (on_file i f m) (fun _ s' => INV s' /\ g_inode_seq s' = g_inode_seq s /\
    exists f', m_files s' !! i = Some (FileV f')) s.
Proof.
  intros HI Hi Hmb Hob Hmi Hmt Hne Hm. eapply (wlp_on_file init base); try done. simpl.
  intros Hle Hok. eapply wlp_mono; [by apply Hm|]. simpl. intros ?? ?. split; [done|].
  intros Hp. by destruct (Hne Hle).
Qed.

Lemma truncate_moves n st :
  bc_ok (fs_cache st) -> wlp (File_truncate n) (fun _ t => moves st t) st.
Proof. intros Hok. eapply wlp_mono; [by apply File_truncate_moves|]. simpl. naive_solver. Qed.

Lemma write_moves buf count offset st :
  bc_ok (fs_cache st) -> wlp (File_write buf count offset) (fun _ t => moves st t) st.
Proof. intros Hok. eapply wlp_mono; [by apply File_write_moves|]. simpl. intros ?? [? _]. done. Qed.

Lemma open_I inode flags s :
  INV s -> (has_flag flags O_TRUNC = true -> g_inode_seq s <= 2 ^ 26 -> prot <> Some inode) ->
  wlp (open inode flags) (fun _ s' => INV s') s.
Proof.
  intros HI Hne. apply wlp_OP_COUNTER_I; [done|]. intros s0 HI0 Hc0.
  rewrite <- (sc_seq _ _ Hc0) in Hne. clear s HI Hc0. rename s0 into s, HI0 into HI.
  do 2 srv_step. destruct (m_files s !! inode) as [v|] eqn:Hi; [|by srv_step].
  do 3 (srv_step; [by srv_step|]). unfold new_fd. do 3 srv_step. srv_step. do 2 srv_step.
  set (nfd := FileDescriptor_new _ _).
  set (s1 := set_fds _ _). assert (HI1 : INV s1) by (apply I_put_fd; eauto using I_core).
  assert (Hi1 : m_files s1 !! inode = Some v) by (simpl; by eapply sc_lookup).
  assert (Hq1 : g_inode_seq s1 = g_inode_seq s) by (simpl; by destruct H3).
  clearbody s1. clear Heqb Heqb0 Heqb1. srv_step.
  apply (wlp_mono _ (fun _ s' => INV s')).
  2: { simpl. intros ? ? ?. do 4 srv_step. by srv_step. }
  srv_step; [|by srv_step]. srv_step.
  apply (wlp_mono _ (fun _ s' => INV s' /\ exists v', m_files s' !! inode = Some v')).
  - srv_step; [|srv_step; eauto]. do 2 srv_step. srv_step. srv_step. srv_step.
    eapply wlp_mono; [apply (on_file_I _ f)|]; try done; eauto using I_core, sc_lookup, truncate_moves.
    { rewrite (sc_seq _ _ H4), Hq1. by apply Hne. }
    simpl. intros ? ? (? & _ & f' & ?). srv_step. eauto.
  - simpl. intros _ s2 (HI2 & v2 & Hi2). srv_steps; [by apply I_put_fd|done].
Qed.

Lemma pipe_I s : INV s -> wlp pipe (fun _ s' => INV s') s.
Proof.
  intros HI. op_start s HI.
  srv_step. eapply (wlp_new_base init base); [done..|].
  intros b s1 HI1 Hf Hp Hd Hsq Hfr Hid Ht. do 2 srv_step. cbv zeta. unfold new_fd.
  do 4 srv_step. do 4 srv_step. srv_steps.
  set (s3 := set_fds _ _). assert (INV s3) as HI3.
  { apply I_put_fd; [|done]. apply I_put_fd; [|done]. eauto using I_core. }
  apply (I_put_pipe init sid seq0 prot pdata (m_id b) _ s3); [done|]. intros Hle _. split; [done|].
  assert (g_inode_seq s3 = g_inode_seq s1) as Hs3.
  { simpl. repeat match goal with Hc : same_core _ _ |- _ => rewrite (sc_seq _ _ Hc); clear Hc end. done. }
  rewrite Hs3 in *. by destruct (Hfr Hle) as (? & ? & ? & ?).
Qed.

Lemma Pipe_read_base count p : p_base (snd (Pipe_read count p)) = p_base p.
Proof. unfold Pipe_read. by repeat case_match. Qed.

Lemma read_inode_I inode offset count s :
  INV s -> wlp (read_inode inode offset count) (fun _ s' => INV s') s.
Proof.
  intros HI. op_start s HI.
  do 3 srv_step. apply (wlp_mono _ (fun _ s' => INV s')).
  2: { simpl. intros ? ? ?. by srv_steps. }
  destruct (m_files s !! inode) as [v|] eqn:Hi.
  - do 4 srv_step. srv_step.
    eapply wlp_mono; [apply (wlp_on_file init base sid seq0 prot pdata Hpar _ f)|]; try done.
    + simpl. intros _ Hok. eapply wlp_mono; [apply File_read_moves|]. simpl.
      intros _ t (Hc & Hm & now & Hf). split.
      * apply moves_same; simpl; rewrite ?Hf; try done.
      * intros _. by rewrite Hm, Hf.
    + simpl. intros ? ? [? _]. by srv_step.
  - do 3 srv_step; [|by srv_step]. do 2 srv_step.
    destruct (Pipe_read count p) as [r p'] eqn:Hpr. srv_steps. apply I_put_pipe; [done|].
    intros _ Hs. split; [|by eapply pipe_in_use_known].
    destruct (inv_pipes _ _ _ _ _ Hs _ _ Heqo) as [Hv _]. unfold v_id in Hv. simpl in Hv.
    pose proof (Pipe_read_base count p) as Hb. rewrite Hpr in Hb. simpl in Hb. by rewrite Hb.
Qed.

Lemma write_inode_I inode offset buf count s :
  INV s -> prot <> Some inode -> wlp (write_inode inode offset buf count) (fun _ s' => INV s') s.
Proof.
  intros HI Hne. op_start s HI.
  do 3 srv_step. apply (wlp_mono _ (fun _ s' => INV s')).
  2: { simpl. intros ? ? ?. by srv_steps. }
  destruct (m_files s !! inode) as [v|] eqn:Hi.
  - do 2 srv_step. srv_step.
    eapply wlp_mono; [apply (on_file_I _ f)|]; try done; eauto using write_moves.
    simpl. intros ? ? [? _]. by srv_step.
  - do 3 srv_step; [|by srv_step]. do 2 srv_step.
    srv_steps. apply I_put_pipe; [done|].
    intros _ Hs. split; [|by eapply pipe_in_use_known].
    destruct (inv_pipes _ _ _ _ _ Hs _ _ Heqo) as [Hv _].
    unfold Pipe_write in Heqp0. by simplify_eq.
Qed.

(** ** Directory entries *)

Lemma update_stat_file_I inode s :
  INV s -> (g_inode_seq s <= 2 ^ 26 -> prot <> Some (in_id inode)) -> wlp (update_stat_file inode) (fun _ s' => INV s') s.
Proof.
  intros HI Hne. unfold update_stat_file. do 3 srv_step; [|apply wlp_abort].
  do 2 srv_step. do 4 srv_step. do 2 srv_step. cbv zeta. srv_step.
  eapply wlp_mono; [apply (on_file_I _ f); try done; apply truncate_moves|].
  simpl. intros _ s1 (HI1 & Hq1 & f1 & Hf1). do 4 srv_step. simplify_eq. srv_step. srv_step.
  apply wlp_seq_ret.
  eapply wlp_mono; [eapply on_file_I; try done; [by rewrite Hq1|apply write_moves]|]. simpl. naive_solver.
Qed.

Lemma set_entry_I appId parent path child d found s :
  INV s -> m_files s !! parent = Some (DirV d) ->
  wlp (set_entry appId parent path child d found) (fun _ s' => INV s') s.
Proof.
  intros HI Hd. unfold set_entry. srv_step.
  apply (wlp_mono _ (fun p' s' => same_core s s' /\ d_base p' = d_base d /\
    (NoDup (m_children d).*1 -> NoDup (m_children p').*1))).
  { destruct found; [|by srv_step]. srv_step. srv_step; srv_step; srv_step;
      (split; [done|]); (split; [done|]); apply Dir_erase_nodup. }
  simpl. intros p' s1 (Hc & Hb & Hnd). do 2 srv_step. cbv zeta. do 2 srv_step.
  set (s2 := set_files _ _). assert (INV s2) as HI2.
  { eapply I_put_dir; [eauto using I_core|eapply sc_lookup; [|done]; by etrans|
                       by rewrite addChild_base|intros; by apply addChild_nodup, Hnd]. }
  clearbody s2. srv_step; [|by srv_step]. do 3 srv_step. eauto using I_core.
Qed.

Lemma addmap_I appId parent path child overwrite s :
  INV s -> known seq0 (in_id parent) -> 
  (path = "stats" -> g_inode_seq s <= 2 ^ 26 -> prot <> Some (it_id child)) ->
  wlp (addmap appId parent path child overwrite) (fun _ s' => INV s') s.
Proof.
  intros HI Hk Hne. apply wlp_OP_COUNTER_I; [done|]. intros s0 HI0 Hc0.
  rewrite <- (sc_seq _ _ Hc0) in Hne. clear s HI Hc0. rename s0 into s, HI0 into HI. srv_step.
  apply (wlp_mono _ (fun _ s' => INV s')).
  { destruct (String.eqb_spec path "stats"); [|by srv_step].
    apply update_stat_file_I; [done|]. by apply Hne. }
  clear s HI Hne. intros _ s HI. srv_step. eapply (wlp_lazy_dir init base); [done..|by apply known_now|].
  intros s1 v HI1 Hv _ _. clear s HI. do 4 srv_step. simplify_eq. do 2 srv_step. cbv zeta.
  assert (wlp (set_entry appId (in_id parent) path child d (child_find path (m_children d)))
            (fun _ s' => INV s') s1) by (by apply set_entry_I).
  destruct (child_find path (m_children d)); [destruct overwrite|]; [|by srv_step|];
    by apply wlp_seq_ret.
Qed.

Lemma removemap_I appId parent_inode path s :
  INV s -> wlp (removemap appId parent_inode path) (fun _ s' => INV s') s.
Proof.
  intros HI. op_start s HI. srv_step. apply (wlp_mono _ (fun _ s' => INV s')).
  { srv_step; srv_step; eauto using I_core. }
  clear s HI. intros _ s HI. do 3 srv_step; [|by srv_step]. srv_step; [by srv_step|].
  do 3 srv_step; [|by srv_step]. srv_step.
  apply (wlp_mono _ (fun _ s' => same_core s s')).
  { srv_step; srv_step; done. }
  simpl. intros _ s1 Hc. srv_steps.
  eapply I_put_dir; [by eapply I_core|by eapply sc_lookup|done|apply Dir_erase_nodup].
Qed.

Lemma fstatat_I inode s : INV s -> wlp (fstatat inode) (fun _ s' => INV s') s.
Proof. intros HI. op_start s HI. by srv_steps. Qed.

Lemma v_ok_with_base i b v :
  v_ok i v -> m_id b = m_id (v_base v) -> m_type b = m_type (v_base v) -> v_ok i (v_with_base b v).
Proof.
  unfold v_ok, v_id, v_type, v_class_ok, v_type.
  destruct v; simpl; intros (? & ? & ? & ?) -> ->; done.
Qed.

(** Changing members of the base class other than the number and the type. *)
Lemma update_base_I i v g s :
  INV s -> m_files s !! i = Some v ->
  (forall b, m_id (g b) = m_id b /\ m_type (g b) = m_type b) ->
  wlp (update_base i v g) (fun _ s' => INV s') s.
Proof.
  intros HI Hi Hg. unfold update_base. srv_step. apply I_put_file; [done|]. intros _ Hs.
  exists v. destruct (Hg (v_base v)) as [Hgi Hgt].
  split; [done|]. split; [by destruct v|].
  split; [by apply v_ok_with_base; [apply (inv_files _ _ _ _ _ Hs)|..]|]. split.
  - intros ->. destruct (inv_orphans _ _ _ _ _ Hs) as [d Hd]. simplify_eq. by eexists.
  - intros f Hp' Hf. destruct v as [f0| | |]; try done. simpl in Hf. injection Hf as <-.
    by rewrite <- (inv_prot _ _ _ _ _ Hs i f0 Hp' Hi).
Qed.

Lemma chmod_I inode mode s : INV s -> wlp (chmod inode mode) (fun _ s' => INV s') s.
Proof.
  intros HI. op_start s HI. do 3 srv_step; [|by srv_step].
  apply wlp_seq_ret. by apply update_base_I.
Qed.

Lemma chown_I inode uid gid s : INV s -> wlp (chown inode uid gid) (fun _ s' => INV s') s.
Proof.
  intros HI. op_start s HI. do 3 srv_step; [|by srv_step].
  apply wlp_seq_ret. apply update_base_I; [done..|].
  intros b. unfold set_gid, set_uid. by repeat case_match.
Qed.

Lemma utimens_I inode atime mtime flags s :
  INV s -> wlp (utimens inode atime mtime flags) (fun _ s' => INV s') s.
Proof.
  intros HI. op_start s HI. do 3 srv_step; [|by srv_step]. srv_step; [by srv_step|].
  apply wlp_seq_ret. apply update_base_I; [done..|]. intros b. by repeat case_match.
Qed.

Lemma direntry_loop_I appId size i offset written out c s :
  INV s -> wlp (direntry_loop appId size i offset written out c) (fun _ s' => INV s') s.
Proof.
  revert i offset written out s.
  induction c as [|[name l] c IH]; intros i offset written out s HI; simpl; [by srv_step|].
  srv_step; [|by apply IH]. srv_step; [by srv_step|]. do 2 srv_step; [|apply wlp_abort].
  do 2 srv_step. srv_step; [|srv_step; by apply IH]. srv_step. apply IH. eauto using I_core.
Qed.

Lemma direntry_I appId inode offset size s :
  INV s -> wlp (direntry appId inode offset size) (fun _ s' => INV s') s.
Proof.
  intros HI. op_start s HI. do 3 srv_step; [|by srv_step]. do 4 srv_step. srv_step.
  apply (wlp_mono _ (fun _ s' => s' = s)).
  { by srv_steps. }
  simpl. intros [[[i off] written] out] s1 ->. srv_step.
  eapply wlp_mono; [by apply direntry_loop_I|]. simpl. intros [[? ?] ?] s1 HI1. by srv_step.
Qed.

(** ** Removal and links *)

Lemma unlink_I inode s : INV s -> wlp (unlink inode) (fun _ s' => INV s') s.
Proof.
  intros HI. op_start s HI. do 3 srv_step; [|by srv_step]. do 2 srv_step. apply wlp_seq_ret.
  by apply orphan_or_delete_I.
Qed.

Lemma rmdir_I inode phase s :
  INV s -> known seq0 inode -> wlp (rmdir inode phase) (fun _ s' => INV s') s.
Proof.
  intros HI Hk. op_start s HI. srv_step.
  eapply (wlp_lazy_dir init base); [done..|by apply known_now|].
  intros s1 v HI1 Hv _ _. clear s HI. do 4 srv_step. simplify_eq. srv_step; [by srv_step|].
  do 2 srv_step. srv_step; [by srv_step|].
  assert (Hlock : forall b, INV (set_files (<[inode := DirV (dir_with_lock b d)]> (m_files s1)) s1))
    by (intros b; by eapply I_put_dir).
  srv_step; [srv_step; [by srv_step|]; srv_steps; apply Hlock|].
  srv_step; [srv_steps; apply Hlock|]. srv_step.
  apply (wlp_mono _ (fun _ s' => INV s')).
  { srv_step; [|by srv_step]. do 2 srv_step. srv_step. apply Hlock. }
  simpl. intros _ s2 HI2. do 4 srv_step. apply wlp_seq_ret. by apply orphan_or_delete_I.
Qed.

Lemma readlink_I inode s : INV s -> wlp (readlink inode) (fun _ s' => INV s') s.
Proof. intros HI. op_start s HI. by srv_steps. Qed.

Lemma truncate_I inode len s :
  INV s -> prot <> Some inode -> wlp (truncate inode len) (fun _ s' => INV s') s.
Proof.
  intros HI Hne. op_start s HI. do 3 srv_step; [|by srv_step]. do 2 (srv_step; [by srv_step|]).
  do 4 srv_step. apply wlp_seq_ret.
  eapply wlp_mono; [eapply on_file_I; try done; apply truncate_moves|]. simpl. naive_solver.
Qed.

Lemma resolve_I appId parent_id path s :
  INV s -> wlp (resolve appId parent_id path) (fun _ s' => INV s') s.
Proof. intros HI. op_start s HI. srv_steps; eauto using I_core. Qed.

Lemma symlink_I parent_inode src dest s :
  INV s -> known seq0 parent_inode -> wlp (symlink parent_inode src dest) (fun _ s' => INV s') s.
Proof.
  intros HI Hk. op_start s HI. srv_step.
  eapply (wlp_lazy_dir init base); [done..|by apply known_now|].
  intros s1 v HI1 Hv _ _. clear s HI. do 4 srv_step. simplify_eq. srv_step; [by srv_step|].
  do 3 srv_step; [by srv_step|]. srv_step. eapply (wlp_new_base init base); [done..|].
  intros b s2 HI2 Hf Hp Hd Hsq Hfr Hid Ht. do 2 srv_step. do 4 srv_step. cbv zeta.
  apply wlp_seq_ret. set (s3 := set_files _ _) in *.
  assert (INV s3) as HI3.
  { apply I_put_new; [done|]. intros Hle _. destruct (Hfr Hle) as (? & ? & ? & ?).
    split; [done|]. split; [done|]. split; [by apply v_ok_symlink|done]. }
  srv_step; [srv_step; eauto using I_core|]. srv_step.
  eapply I_put_dir; [eauto using I_core| |apply addChild_base|apply addChild_nodup].
  eapply sc_lookup; [done|]. simpl. apply Z.eqb_neq in Heqb0.
  rewrite lookup_insert_ne by done. by rewrite Hf.
Qed.

(** ** Descriptors *)

Lemma close_pipe_I inode fd s : INV s -> wlp (close_pipe inode fd) (fun _ s' => INV s') s.
Proof.
  intros HI. unfold close_pipe. do 3 srv_step; [|apply wlp_abort]. do 2 srv_step. cbv zeta.
  set (p2 := if m_write_fd _ =? fd then _ else _).
  assert (p_base p2 = p_base p) as Hb by (unfold p2; by repeat case_match).
  srv_step; srv_step; [by apply I_delete_pipe|]. apply I_put_pipe; [done|]. intros _ Hs.
  split; [|by eapply pipe_in_use_known]. rewrite Hb. by destruct (inv_pipes _ _ _ _ _ Hs _ _ Heqo).
Qed.

Lemma I_put_size i f n s :
  INV s -> m_files s !! i = Some (FileV f) -> prot <> Some i ->
  INV (set_files (<[i := FileV (file_with_size n f)]> (m_files s)) s).
Proof.
  intros HI Hi Hne. apply I_put_file; [done|]. intros _ Hs. exists (FileV f).
  split; [done|]. split; [done|].
  split; [apply v_ok_file; by apply (v_ok_file i f), (inv_files _ _ _ _ _ Hs)|]. split; [|done].
  intros ->. destruct (inv_orphans _ _ _ _ _ Hs) as [d Hd]. by simplify_eq.
Qed.

Lemma close_file_I inode size v s :
  INV s -> m_files s !! inode = Some v -> (size <> UINT64_MAX -> prot <> Some inode) ->
  wlp (close_file inode size v) (fun _ s' => INV s') s.
Proof.
  intros HI Hi Hne. unfold close_file. do 4 srv_step. do 2 srv_step. srv_step.
  - do 2 srv_step. set (s1 := set_files _ _).
    assert (INV s1) as HI1 by (eapply I_put_dir; [done..|apply Dir_erase_nodup]).
    destruct (decide (inode = ORPHANS)) as [->|Hno].
    + unfold erase_delete. do 2 srv_step. rewrite Z.eqb_refl. apply wlp_undef.
    + eapply (wlp_erase_delete init base); [done..|]. simpl. by rewrite lookup_insert_ne.
  - srv_step; [by srv_step|]. do 2 srv_step. srv_step. apply I_put_size; [done..|].
    apply Z.eqb_neq in Heqb. auto.
Qed.

Lemma set_file_size_I inode size s :
  INV s -> prot <> Some inode -> wlp (set_file_size inode size) (fun _ s' => INV s') s.
Proof.
  intros HI Hne. unfold set_file_size. do 4 srv_step. do 2 srv_step. srv_step. by apply I_put_size.
Qed.

(** The inode behind a descriptor is not the protected one. *)
Definition fd_not_prot (s : Server) (fd : Z) : Prop :=
  forall d, m_fds s !! fd = Some d -> prot <> Some (fd_id d).

Lemma I_put_fd_same fd d d' s :
  INV s -> m_fds s !! fd = Some d -> fd_fd d' = fd_fd d -> INV (set_fds (<[fd := d']> (m_fds s)) s).
Proof.
  intros HI Hd Heq. apply I_put_fd; [done|]. rewrite Heq. by apply HI.
Qed.

Lemma close_I fd offset size s :
  INV s -> (size <> UINT64_MAX -> fd_not_prot s fd) ->
  wlp (close fd offset size) (fun _ s' => INV s') s.
Proof.
  intros HI Hne. apply wlp_OP_COUNTER_I; [done|]. intros s1 HI1 Hc1.
  assert (Hne1 : size <> UINT64_MAX -> fd_not_prot s1 fd).
  { unfold fd_not_prot. by rewrite (sc_fds _ _ Hc1). }
  clear s HI Hc1 Hne. do 3 srv_step; [|apply wlp_abort]. cbv zeta. do 2 srv_step. do 2 srv_step.
  set (s2 := set_fds _ _). assert (INV s2) as HI2 by (eapply I_put_fd_same; [done|eassumption|done]).
  srv_step.
  - do 3 srv_step. apply (wlp_mono _ (fun _ s' => INV s')).
    + srv_step; [|by apply close_pipe_I]. apply close_file_I; [done..|]. intros Hsz. by apply (Hne1 Hsz f).
    + simpl. intros _ s3 HI3. srv_steps. by apply I_delete_fd.
  - srv_step. apply (wlp_mono _ (fun _ s' => INV s')).
    + srv_step; srv_step; [done|]. eapply I_put_fd_same; [done|simpl; by rewrite lookup_insert_eq|done].
    + simpl. intros _ s3 HI3. apply wlp_seq_ret. srv_step; [by srv_step|].
      apply set_file_size_I; [done|]. apply Z.eqb_neq in Heqb0. by apply (Hne1 Heqb0 f).
Qed.

Lemma dup_I fd s : INV s -> wlp (dup fd) (fun _ s' => INV s') s.
Proof.
  intros HI. op_start s HI. do 3 srv_step; [|by srv_step]. do 4 srv_step.
  destruct (match m_files s !! fd_id f with Some v => Some v | None => m_pipes s !! fd_id f end);
    srv_steps; [|done]. eapply I_put_fd_same; [done|eassumption|done].
Qed.

Lemma read_I fd count s : INV s -> wlp (read fd count) (fun _ s' => INV s') s.
Proof.
  intros HI. unfold read. do 3 srv_step; [|apply wlp_abort]. cbv zeta. srv_step.
  eapply wlp_mono; [by apply read_inode_I|]. simpl. intros [[ret count'] buf] s1 HI1.
  srv_steps. apply I_put_fd; [done|]. destruct HI as (_ & _ & Hfd & _). simpl. by apply Hfd.
Qed.

Lemma write_I fd buf count s :
  INV s -> fd_not_prot s fd -> wlp (write fd buf count) (fun _ s' => INV s') s.
Proof.
  intros HI Hne. unfold write. do 3 srv_step; [|apply wlp_abort]. cbv zeta. srv_step.
  eapply wlp_mono; [apply write_inode_I; [done|by apply Hne]|]. simpl. intros [ret count'] s1 HI1.
  srv_steps. apply I_put_fd; [done|]. destruct HI as (_ & _ & Hfd & _). simpl. by apply Hfd.
Qed.

Lemma lseek_I fd offset whence s : INV s -> wlp (lseek fd offset whence) (fun _ s' => INV s') s.
Proof.
  intros HI. op_start s HI. do 3 srv_step; [|apply wlp_abort]. do 3 srv_step; [|apply wlp_abort].
  do 4 srv_step. cbv zeta. srv_step. apply (wlp_mono _ (fun _ s' => s' = s)).
  { by srv_steps. }
  simpl. intros off s1 ->. srv_steps. eapply I_put_fd_same; [done|eassumption|done].
Qed.

Lemma blocks_I inode offset count s :
  INV s -> wlp (blocks inode offset count) (fun _ s' => INV s') s.
Proof.
  intros HI. op_start s HI. do 3 srv_step; [|apply wlp_abort]. do 4 srv_step.
  eapply wlp_mono; [apply (wlp_on_file init base sid seq0 prot pdata Hpar _ f)|]; try done.
  - simpl. intros _ Hok. eapply wlp_mono; [apply File_blocks_moves|]. simpl. intros _ t ->.
    split; [by apply moves_refl|done].
  - simpl. naive_solver.
Qed.

Lemma flush_I fd size offset s :
  INV s -> fd_not_prot s fd -> wlp (flush fd size offset) (fun _ s' => INV s') s.
Proof.
  intros HI Hne. apply wlp_OP_COUNTER_I; [done|]. intros s1 HI1 Hc1.
  assert (Hne1 : fd_not_prot s1 fd) by (unfold fd_not_prot; by rewrite (sc_fds _ _ Hc1)).
  clear s HI Hc1 Hne. do 3 srv_step; [|by srv_step]. do 2 srv_step. apply wlp_seq_ret.
  apply set_file_size_I; [eapply I_put_fd_same; [done|eassumption|done]|]. by apply Hne1.
Qed.

Lemma appAddCache_path_I appId parent path s :
  INV s -> wlp (appAddCache_path appId parent path) (fun _ s' => INV s') s.
Proof. intros HI. unfold appAddCache_path. srv_steps; eauto using I_core. Qed.
End Ops.
