(* ===== verification/FsMarshall.v ===== *)
(** * Requests to the file server

    The messages of [sys/fs/include/interface.h] and the handlers of
    [sys/fs/marshall.cpp]: one definition per handler, and [handle], the table
    the server's constructor registers with the dispatcher.  Allocation of the
    reply buffer and its transmission belong to the messaging layer; a handler
    returns the contents of its reply.  Members of a reply that are not
    assigned are [None]. *)

From S2P Require Import Prelude FsTypes BufferCache FsFile FsNode FsServer.

(** ** Messages *)

Inductive Request : Type :=
| CreateRequest (parent : InodeType) (flags mode : Z) (path : string)
| DestroyRequest (id : Z)
| AddMapRequest (parent : Inode) (child : InodeType) (overwrite : bool) (path : string)
| UpdateMapRequest (parent : Inode) (child : InodeType) (overwrite : bool)
    (old_parent : InodeType) (path old_path : string)
| RemoveMapRequest (id : Z) (path : string)
| PipeRequest
| OpenRequest (flags id : Z)
| CreateOpenRequest (flags : Z) (parent : Inode) (mode : Z) (path : string)
| ReadRequest (fd count : Z)
| WriteRequest (fd count : Z) (data : list Z)
| LseekRequest (fd offset whence : Z)
| CloseRequest (fd offset size : Z)
| DupRequest (fd : Z)
| FstatRequest (id : Z)
| DirEntRequest (inode offset size : Z)
| UnlinkRequest (id parent_id : Z) (path : string)
| ReadlinkRequest (id : Z)
| RmdirRequest (id phase : Z)
| RmdirAndMapRequest (id : Z) (parent : InodeType) (path : string)
| TruncRequest (inode len : Z)
| ChmodRequest (inode mode : Z)
| ChownRequest (inode uid gid : Z)
| ResolveRequest (id : Z) (path : string)
| UTimeNSRequest (inode : Z) (atime mtime : timespec) (flags : Z)
| SymlinkRequest (parent_id : Z) (src dest : string)
| BlockListRequest (inode offset count : Z)
| FlushRequest (fd size offset : Z).

Inductive Reply : Type :=
| StatusReply (retval : Z)
| StatusInodeTypeReply (retval : Z) (inode : option InodeType)
| PipeReply (retval read_fd write_fd : Z) (inode : Inode)
| OpenReply (retval : Z) (fd : option Z) (type : option FileType) (size : option Z)
    (state : option Z) (exist : option InodeType)
| ReadReply (retval count : Z) (data : list Z)
| WriteReply (retval count : Z)
| LseekReply (retval offset : Z)
| DupReply (retval : Z) (info : option (Inode * FileType * Z))
| StatReply (retval : Z) (buf : option FauxStat64)
| DirEntReply (retval : Z) (more : bool) (size : Z) (buf : list FauxDirent)
| PathReply (retval : Z) (size : option Z) (path : option string)
| ResolveReply (retval : Z) (child : option InodeType) (size : option Z)
| BlockListReply (retval count : Z) (more : option bool) (blocklist : list Z).

Section Handlers.
Context `{Config} `{Env}.

(** The channel of a request is the address of its [Channel] object. *)
Variable chan : Z.

(** [addmap] whose failure is an assertion failure. *)
Definition addmap_ok (parent : Inode) (path : string) (child : InodeType) : M Server InodeType :=
  r ← FsServer.addmap chan parent path child false;
  assert_ (fst r =? OK);;
  mret (snd r).

Definition create (parent : InodeType) (flags mode : Z) (path : string) : M Server Reply :=
  r ← FsServer.create (InodeOnly parent) path flags mode;
  let '(retval, oexist) := r in
  (if (retval =? OK) && has_flag flags O_DIRECTORY
   then
     exist ← deref oexist;
     server ← gets s_id;
     dot_dot_server ← (match it_type exist with
                       | TYPE_DIR_SHARED =>
                           match fosPathOwner exist ".." with Some o => mret o | None => abort end
                       | _ => mret (it_server exist)
                       end);
     exist ← (if (it_server parent =? it_server exist) || bool_decide (it_type parent = TYPE_DIR_SHARED)
              then addmap_ok (InodeOnly parent) path exist
              else mret exist);
     (if u32 dot_dot_server =? server
      then addmap_ok (InodeOnly exist) ".." parent;; mret tt
      else mret tt)
   else mret tt);;
  mret (StatusInodeTypeReply retval oexist).

Definition destroy (id : Z) : M Server Reply :=
  retval ← FsServer.destroy id; mret (StatusReply retval).

Definition addmap (parent : Inode) (child : InodeType) (overwrite : bool) (path : string)
  : M Server Reply :=
  r ← FsServer.addmap chan parent path child overwrite;
  assert_ ((fst r =? OK) || (fst r =? EXIST));;
  mret (StatusInodeTypeReply (fst r) (Some (snd r))).

(** The same message with [update] set: the old entry is removed afterwards. *)
Definition updatemap (parent : Inode) (child : InodeType) (overwrite : bool)
    (old_parent : InodeType) (path old_path : string) : M Server Reply :=
  r ← FsServer.addmap chan parent path child overwrite;
  assert_ ((fst r =? OK) || (fst r =? EXIST));;
  remove_retval ← FsServer.removemap chan (it_id old_parent) old_path;
  assert_ (remove_retval =? OK);;
  mret (StatusInodeTypeReply (fst r) (Some (snd r))).

Definition removemap (id : Z) (path : string) : M Server Reply :=
  retval ← FsServer.removemap chan id path; mret (StatusReply retval).

Definition pipe : M Server Reply :=
  r ← FsServer.pipe;
  let '(retval, read_fd, write_fd, inode) := r in
  mret (PipeReply retval read_fd write_fd inode).

Definition open_reply (r : OpenResult) (exist : option InodeType) : Reply :=
  OpenReply (or_ret r) (or_fd r) (or_type r) (or_size r) (Some (or_state r)) exist.

Definition open (flags id : Z) : M Server Reply :=
  r ← FsServer.open id flags; mret (open_reply r None).

(** [open] with [O_CREAT]: create, enter the name, and open if the inode is on
    this server. *)
Definition create_open (flags : Z) (parent : Inode) (mode : Z) (path : string) : M Server Reply :=
  r ← FsServer.create parent path flags mode;
  let '(retval, oexist) := r in
  let excl := has_flag flags O_EXCL in
  if ((retval =? EXIST) && negb excl) || (retval =? OK)
  then
    exist ← deref oexist;
    exist ← (if negb (retval =? EXIST)
             then addmap_ok parent path exist
             else appAddCache_path chan parent path;; mret exist);
    server ← gets s_id;
    if it_server exist =? i32 server
    then
      r ← FsServer.open (it_id exist) (Z.land flags (Z.lnot O_CREAT));
      mret (open_reply r (Some exist))
    else mret (OpenReply EXIST None None None None (Some exist))
  else mret (OpenReply retval None None None None oexist).

Definition read (fd count : Z) : M Server Reply :=
  r ← FsServer.read fd count;
  let '(retval, count', data) := r in
  mret (ReadReply retval count' data).

Definition write (fd count : Z) (data : list Z) : M Server Reply :=
  r ← FsServer.write fd data count; mret (WriteReply (fst r) (snd r)).

Definition lseek (fd offset whence : Z) : M Server Reply :=
  r ← FsServer.lseek fd offset whence; mret (LseekReply (fst r) (snd r)).

Definition close (fd offset size : Z) : M Server Reply :=
  retval ← FsServer.close fd offset size; mret (StatusReply retval).

Definition dup (fd : Z) : M Server Reply :=
  r ← FsServer.dup fd; mret (DupReply (fst r) (snd r)).

Definition fstat (id : Z) : M Server Reply :=
  r ← FsServer.fstatat id; mret (StatReply (fst r) (snd r)).

Definition direntry (inode offset size : Z) : M Server Reply :=
  r ← FsServer.direntry chan inode (i32 offset) size;
  let '(retval, buf, size', more) := r in
  mret (DirEntReply retval more size' buf).

Definition unlink (id parent_id : Z) (path : string) : M Server Reply :=
  retval ← (if parent_id =? UINT64_MAX then mret OK else FsServer.removemap chan parent_id path);
  retval ← (if retval =? OK then FsServer.unlink id else mret retval);
  mret (StatusReply retval).

Definition readlink (id : Z) : M Server Reply :=
  r ← FsServer.readlink id;
  let '(retval, path, size) := r in
  mret (PathReply retval size path).

(** A plain [RmdirRequest] carries any phase but [RMDIR_AND_MAP]. *)
Definition rmdir (id phase : Z) : M Server Reply :=
  retval ← FsServer.rmdir id phase; mret (StatusReply retval).

Definition rmdir_and_map (id : Z) (parent : InodeType) (path : string) : M Server Reply :=
  retval ← FsServer.rmdir id RMDIR_FORCE;
  retval ← (if retval =? OK then FsServer.removemap chan (it_id parent) path else mret retval);
  mret (StatusReply retval).

Definition truncate (inode len : Z) : M Server Reply :=
  retval ← FsServer.truncate inode len; mret (StatusReply retval).

Definition chmod (inode mode : Z) : M Server Reply :=
  retval ← FsServer.chmod inode mode; mret (StatusReply retval).

Definition chown (inode uid gid : Z) : M Server Reply :=
  retval ← FsServer.chown inode uid gid; mret (StatusReply retval).

(** The member [size], by which the answer is longer than its structure, is not
    assigned. *)
Definition resolve (id : Z) (path : string) : M Server Reply :=
  r ← FsServer.resolve chan id path; mret (ResolveReply (fst r) (snd r) None).

Definition utimens (inode : Z) (atime mtime : timespec) (flags : Z) : M Server Reply :=
  retval ← FsServer.utimens inode atime mtime flags; mret (StatusReply retval).

Definition symlink (parent_id : Z) (src dest : string) : M Server Reply :=
  retval ← FsServer.symlink parent_id src dest; mret (StatusReply retval).

(** Nor is [more]. *)
Definition blocks (inode offset count : Z) : M Server Reply :=
  r ← FsServer.blocks inode offset count; mret (BlockListReply (fst r) count None (snd r)).

Definition flush (fd size offset : Z) : M Server Reply :=
  retval ← FsServer.flush fd size offset; mret (StatusReply retval).

(** The handlers as registered by the server's constructor.  The flags of an
    [OPEN] message say which of its two forms it has; reading it as the other is
    undefined. *)
Definition handle (r : Request) : M Server Reply :=
  match r with
  | CreateRequest parent flags mode path => create parent flags mode path
  | DestroyRequest id => destroy id
  | AddMapRequest parent child overwrite path => addmap parent child overwrite path
  | UpdateMapRequest parent child overwrite old_parent path old_path =>
      updatemap parent child overwrite old_parent path old_path
  | RemoveMapRequest id path => removemap id path
  | PipeRequest => pipe
  | OpenRequest flags id => if has_flag flags O_CREAT then undef else open flags id
  | CreateOpenRequest flags parent mode path =>
      if has_flag flags O_CREAT then create_open flags parent mode path else undef
  | ReadRequest fd count => read fd count
  | WriteRequest fd count data => write fd count data
  | LseekRequest fd offset whence => lseek fd offset whence
  | CloseRequest fd offset size => close fd offset size
  | DupRequest fd => dup fd
  | FstatRequest id => fstat id
  | DirEntRequest inode offset size => direntry inode offset size
  | UnlinkRequest id parent_id path => unlink id parent_id path
  | ReadlinkRequest id => readlink id
  | RmdirRequest id phase => rmdir id phase
  | RmdirAndMapRequest id parent path => rmdir_and_map id parent path
  | TruncRequest inode len => truncate inode len
  | ChmodRequest inode mode => chmod inode mode
  | ChownRequest inode uid gid => chown inode uid gid
  | ResolveRequest id path => resolve id path
  | UTimeNSRequest inode atime mtime flags => utimens inode atime mtime flags
  | SymlinkRequest parent_id src dest => symlink parent_id src dest
  | BlockListRequest inode offset count => blocks inode offset count
  | FlushRequest fd size offset => flush fd size offset
  end.

(** [closeCallback]: the application behind a channel went away. *)
Definition closeCallback : M Server unit := appClose chan.
End Handlers.

(** ** Runs of the server *)

(** What reaches the server: a request on a channel, or the end of a channel. *)
Inductive Event : Type :=
| Message (chan : Z) (r : Request)
| ChannelClosed (chan : Z).

Section Runs.
Context `{Config} `{Env}.

Definition event_run (e : Event) : M Server (option Reply) :=
  match e with
  | Message chan r => x ← handle chan r; mret (Some x)
  | ChannelClosed chan => (if ENABLE_DIRECTORY_CACHE then closeCallback chan else mret tt);; mret None
  end.

Fixpoint run (es : list Event) : M Server (list (option Reply)) :=
  match es with
  | [] => mret []
  | e :: es' => x ← event_run e; xs ← run es'; mret (x :: xs)
  end.
End Runs.
