(* ===== verification/FsReach.v ===== *)
(** * The states a file server reaches

    The handlers keep the invariant, hence so does every run of the server
    from its start.  From this: no two files ever share a block, no block is
    lost, and a request changes the contents of no file but the one it
    addresses. *)

From S2P Require Import Prelude FsTypes BufferCache FsFile FsNode TimeArith FsServer FsServerInv FsServerOps FsMarshall.

(** ** What a request names and what it changes *)

(** The directories a request may bring into being on a server. *)
Definition request_ids (r : Request) : list Z :=
  match r with
  | CreateRequest parent _ _ _ => [it_id parent]
  | AddMapRequest parent _ _ _ | UpdateMapRequest parent _ _ _ _ _
  | CreateOpenRequest _ parent _ _ => [in_id parent]
  | RmdirRequest id _ | RmdirAndMapRequest id _ _ => [id]
  | SymlinkRequest parent_id _ _ => [parent_id]
  | _ => []
  end.

Definition fd_of (s : Server) (fd i : Z) : Prop := exists d, m_fds s !! fd = Some d /\ fd_id d = i.

(** The requests that are meant to change the bytes or the size of file [i]. *)
Definition touches (s : Server) (r : Request) (i : Z) : Prop :=
  match r with
  | AddMapRequest _ child _ path | UpdateMapRequest _ child _ _ path _ =>
      path = "stats" /\ it_id child = i
  | OpenRequest flags id => has_flag flags O_TRUNC = true /\ id = i
  | CreateOpenRequest flags parent _ path =>
      has_flag flags O_TRUNC = true /\ it_id <$> entry s (in_id parent) path = Some i
  | WriteRequest fd _ _ | FlushRequest fd _ _ => fd_of s fd i
  | CloseRequest fd _ size => size <> UINT64_MAX /\ fd_of s fd i
  | TruncRequest inode _ => inode = i
  | _ => False
  end.

Section Handlers.
Context `{ConfigOk} `{EnvOk}.
Variables (init : list Z) (base sid : Z) (prot : option Z) (pdata : list Z).

Lemma I_weaken q0 q1 s : q0 <= q1 -> I init sid q1 prot pdata s -> I init sid q0 prot pdata s.
Proof. intros Hq (? & ? & ?). split; [done|]. split; [lia|done]. Qed.

Lemma I_now q0 s : I init sid q0 prot pdata s -> I init sid (g_inode_seq s) prot pdata s.
Proof. intros (? & ? & ?). split; [done|]. split; [lia|done]. Qed.

Lemma params_ok_mono q0 q1 :
  q0 <= q1 -> params_ok init base sid q0 prot -> params_ok init base sid q1 prot.
Proof. intros Hq []. split; try done; [lia|]. intros i Hi. apply (known_at_mono _ q0); auto. Qed.

Variable seq0 : Z.
Hypothesis Hpar : params_ok init base sid seq0 prot.
Local Abbreviation INV := (I init sid seq0 prot pdata).

Lemma addmap_result appId parent path child overwrite s :
  wlp (FsServer.addmap appId parent path child overwrite)
    (fun r _ => fst r = OK -> snd r = child) s.
Proof.
  apply wlp_OP_COUNTER. intros s1 _. wlp_step. apply wlp_true. intros _ s2.
  wlp_step. apply wlp_true. intros _ s3. do 4 srv_step. wlp_step. apply wlp_true. intros p s4.
  cbv zeta. destruct (child_find path (m_children p)); [destruct overwrite|].
  - wlp_step. apply wlp_true. intros. wlp_step. done.
  - wlp_step. done.
  - wlp_step. apply wlp_true. intros. wlp_step. done.
Qed.

(** [addmap] on a directory whose number is not a future one. *)
Lemma addmap_ok_I chan parent path child s :
  INV s -> known_at sid (g_inode_seq s) (in_id parent) ->
  (path = "stats" -> g_inode_seq s <= 2 ^ 26 -> prot <> Some (it_id child)) ->
  wlp (addmap_ok chan parent path child)
    (fun e s' => e = child /\ INV s' /\ g_inode_seq s <= g_inode_seq s') s.
Proof.
  intros HI Hk Hne. pose proof HI as (_ & Hq & _). unfold addmap_ok. wlp_step.
  eapply wlp_mono; [apply wlp_and; [apply addmap_result|
    apply (addmap_I init base sid (g_inode_seq s) prot pdata);
      [by eapply params_ok_mono|by eapply I_now|done..]]|].
  simpl. intros r s' [Hr HI']. wlp_steps. apply Z.eqb_eq in H3. split; [auto|].
  split; [by eapply I_weaken|apply HI'].
Qed.

Lemma create_handler_I chan parent flags mode path s :
  INV s -> known_at sid seq0 (it_id parent) ->
  wlp (FsMarshall.create chan parent flags mode path) (fun _ s' => INV s') s.
Proof.
  intros HI Hk. unfold create. wlp_step.
  eapply wlp_mono; [by eapply (create_I init base)|]. simpl. intros [ret oe] s1 [HI1 Hr].
  apply wlp_seq_ret. destruct (Z.eqb_spec ret OK) as [->|]; simpl; [|by wlp_step].
  wlp_step; [|by wlp_step]. do 4 wlp_step. subst oe.
  destruct Hr as [(_ & Hke & Hne)|[? _]]; [|done]. wlp_step.
  apply (wlp_mono _ (fun _ s' => s' = s1)).
  { repeat (wlp_step || case_match); done. }
  simpl. intros dd ? ->. wlp_step.
  apply (wlp_mono _ (fun e s' => e = a /\ INV s' /\ g_inode_seq s1 <= g_inode_seq s')).
  { wlp_step; [|wlp_step; split; [done|]; split; [done|lia]].
    apply addmap_ok_I; [done| |auto]. simpl. eapply known_at_mono; [|done]. apply HI1. }
  simpl. intros e s2 (-> & HI2 & Hq2). wlp_step; [|by wlp_step]. apply wlp_seq_ret.
  eapply wlp_mono; [apply addmap_ok_I; [done| |done]|].
  - simpl. by eapply known_at_mono.
  - simpl. naive_solver.
Qed.

Lemma create_open_I chan flags parent mode path s :
  INV s -> known_at sid seq0 (in_id parent) -> 
  (forall i, prot = Some i -> ~ touches s (CreateOpenRequest flags parent mode path) i) ->
  wlp (create_open chan flags parent mode path) (fun _ s' => INV s') s.
Proof.
  intros HI Hk Ht. unfold create_open. wlp_step.
  eapply wlp_mono; [by eapply (create_I init base)|]. simpl. intros [ret oe] s1 [HI1 Hr].
  wlp_step; [|by wlp_step].
  assert (Hret : ret = EXIST \/ ret = OK).
  { apply orb_true_iff in Heqb as [[Hb _]%andb_true_iff|Hb]; apply Z.eqb_eq in Hb; auto. }
  do 2 wlp_step. subst oe. unfold create_result in Hr. simpl in Hr. wlp_step.
  apply (wlp_mono _ (fun e s' => e = a /\ INV s' /\
    (has_flag flags O_TRUNC = true -> g_inode_seq s' <= 2 ^ 26 -> prot <> Some (it_id a)))).
  - destruct (Z.eqb_spec ret EXIST) as [->|Hne]; simpl.
    + destruct Hr as [[? _]|[_ Hent]]; [done|]. wlp_step.
      eapply wlp_mono; [by apply (appAddCache_path_I init sid seq0 prot pdata)|]. simpl. intros _ s2 HI2. wlp_step.
      split; [done|]. split; [done|]. intros Htr _ Hp. apply (Ht _ Hp). simpl. by rewrite Hent.
    + destruct Hr as [(-> & Hke & Hp)|[Hok _]].
      * eapply wlp_mono; [apply addmap_ok_I; [done| |auto]|].
        -- eapply known_at_mono; [|done]. apply HI1.
        -- simpl. intros e s2 (-> & HI2 & Hq2). split; [done|]. split; [done|]. intros _ Hle.
           apply Hp. lia.
      * destruct Hret; done.
  - simpl. intros e s2 (-> & HI2 & Htr). do 2 wlp_step. wlp_step; [|by wlp_step].
    wlp_step. eapply wlp_mono; [apply (open_I init base sid seq0 prot pdata); [done..|]|].
    + intros Hf Hle. apply Htr; [|done]. revert Hf. unfold has_flag.
      rewrite <- Z.land_assoc. by change (Z.land (Z.lnot O_CREAT) O_TRUNC) with O_TRUNC.
    + simpl. intros. by wlp_step.
Qed.

Lemma unlink_handler_I chan id parent_id path s :
  INV s -> wlp (FsMarshall.unlink chan id parent_id path) (fun _ s' => INV s') s.
Proof.
  intros HI. unfold unlink. wlp_step. apply (wlp_mono _ (fun _ s' => INV s')).
  { wlp_step; [by wlp_step|]. by eapply (removemap_I init sid). }
  simpl. intros r s1 HI1. wlp_step. apply (wlp_mono _ (fun _ s' => INV s')).
  { wlp_step; [|by wlp_step]. by eapply (unlink_I init base). }
  simpl. intros. by wlp_step.
Qed.

Lemma rmdir_and_map_I chan id parent path s :
  INV s -> known_at sid seq0 id -> wlp (rmdir_and_map chan id parent path) (fun _ s' => INV s') s.
Proof.
  intros HI Hk. unfold rmdir_and_map. wlp_step.
  eapply wlp_mono; [by eapply (rmdir_I init base)|]. simpl. intros r s1 HI1. wlp_step.
  apply (wlp_mono _ (fun _ s' => INV s')).
  { wlp_step; [|by wlp_step]. by eapply (removemap_I init sid). }
  simpl. intros. by wlp_step.
Qed.

Lemma updatemap_I chan parent child overwrite old_parent path old_path s :
  INV s -> known_at sid seq0 (in_id parent) -> (path = "stats" -> prot <> Some (it_id child)) ->
  wlp (updatemap chan parent child overwrite old_parent path old_path) (fun _ s' => INV s') s.
Proof.
  intros HI Hk Hne. unfold updatemap. wlp_step.
  eapply wlp_mono; [eapply (addmap_I init base sid seq0 prot pdata); auto|].
  simpl. intros r s1 HI1. do 3 wlp_step.
  eapply wlp_mono; [by eapply (removemap_I init sid)|]. simpl. intros. by wlp_steps.
Qed.

(** A handler that calls one method and puts its results into the reply. *)
Ltac one_call :=
  lazymatch goal with
  | |- wlp (?m ≫= _) _ _ =>
      wlp_step; eapply wlp_mono; [solve [eauto]|simpl; intros; repeat case_match; by wlp_steps]
  end.

Lemma handle_I chan r s :
  INV s -> Forall (known_at sid seq0) (request_ids r) ->
  (forall i, prot = Some i -> ~ touches s r i) ->
  wlp (handle chan r) (fun _ s' => INV s') s.
Proof.
  intros HI Hk Ht. destruct r; simpl in Hk, Ht |- *; rewrite ?Forall_singleton in Hk.
  - by apply create_handler_I.
  - unfold destroy. pose proof (destroy_I init base sid seq0 prot pdata Hpar). one_call.
  - unfold addmap. wlp_step. eapply wlp_mono;
      [eapply (addmap_I init base sid seq0 prot pdata); [done..|]|simpl; intros; by wlp_steps].
    intros Hp _ Hpr. by apply (Ht _ Hpr).
  - apply updatemap_I; [done..|]. intros Hp Hpr. by apply (Ht _ Hpr).
  - unfold removemap. pose proof (removemap_I init sid seq0 prot pdata). one_call.
  - unfold pipe. pose proof (pipe_I init base sid seq0 prot pdata Hpar). one_call.
  - case_match; [apply wlp_undef|]. unfold open. wlp_step. eapply wlp_mono;
      [eapply (open_I init base sid seq0 prot pdata); [done..|]|simpl; intros; by wlp_steps].
    intros Hf _ Hpr. by apply (Ht _ Hpr).
  - case_match; [by apply create_open_I|apply wlp_undef].
  - unfold read. pose proof (read_I init base sid seq0 prot pdata Hpar). one_call.
  - unfold write. wlp_step. eapply wlp_mono;
      [eapply (write_I init base sid seq0 prot pdata); [done..|]|simpl; intros; by wlp_steps].
    intros d Hd Hp. apply (Ht _ Hp). by exists d.
  - unfold lseek. pose proof (lseek_I init sid seq0 prot pdata). one_call.
  - unfold close. wlp_step. eapply wlp_mono;
      [eapply (close_I init base sid seq0 prot pdata); [done..|]|simpl; intros; by wlp_steps].
    intros Hsz d Hd Hp. apply (Ht _ Hp). split; [done|]. by exists d.
  - unfold dup. pose proof (dup_I init sid seq0 prot pdata). one_call.
  - unfold fstat. pose proof (fstatat_I init sid seq0 prot pdata). one_call.
  - unfold direntry. pose proof (direntry_I init sid seq0 prot pdata). one_call.
  - by apply unlink_handler_I.
  - unfold readlink. pose proof (readlink_I init sid seq0 prot pdata). one_call.
  - unfold rmdir. pose proof (rmdir_I init base sid seq0 prot pdata Hpar). one_call.
  - by apply rmdir_and_map_I.
  - unfold truncate. wlp_step. eapply wlp_mono;
      [eapply (truncate_I init base sid seq0 prot pdata); [done..|]|simpl; intros; by wlp_steps].
    intros Hp. by apply (Ht _ Hp).
  - unfold chmod. pose proof (chmod_I init sid seq0 prot pdata). one_call.
  - unfold chown. pose proof (chown_I init sid seq0 prot pdata). one_call.
  - unfold resolve. pose proof (resolve_I init sid seq0 prot pdata). one_call.
  - unfold utimens. pose proof (utimens_I init sid seq0 prot pdata). one_call.
  - unfold symlink. pose proof (symlink_I init base sid seq0 prot pdata Hpar). one_call.
  - unfold blocks. pose proof (blocks_I init base sid seq0 prot pdata Hpar). one_call.
  - unfold flush. wlp_step. eapply wlp_mono;
      [eapply (flush_I init sid seq0 prot pdata); [done..|]|simpl; intros; by wlp_steps].
    intros d Hd Hp. apply (Ht _ Hp). by exists d.
Qed.
End Handlers.

(** ** Start and runs *)

Section Reach.
Context `{ConfigOk} `{EnvOk}.

(** The blocks a new server can hand out. *)
Lemma start_usable server memory bc :
  memory_size < 2 ^ 31 -> 0 <= server < CONFIG_FS_SERVER_COUNT ->
  BufferCache_new server memory = Some bc ->
  let ps := memory_size / CONFIG_FS_SERVER_COUNT in
  bc_ok bc /\ 0 <= bc_spare bc <= 1 /\
  bc_usable bc = (fun k => memory + server * ps + k * block_size) <$> seqZ 0 (ps / block_size).
Proof.
  intros Hm Hi Hbc ps. rewrite BufferCache_new_spec in Hbc by done. simplify_eq.
  pose proof block_size_pos. pose proof memory_size_pos. pose proof server_count_pos.
  destruct (region_blocks_partition server memory) as (Hps & Hlen & Hbl).
  cbv zeta in Hps, Hlen, Hbl. fold ps in Hps, Hlen, Hbl |- *.
  unfold bc_ok, bc_spare, bc_usable. cbn [m_blocks m_blocks_free].
  assert (ps <= memory_size) by (apply Z.div_le_upper_bound; nia).
  assert (0 <= ps / block_size <= ps).
  { split; [apply Z.div_pos; lia|]. apply Z.div_le_upper_bound; nia. }
  split; [lia|]. split; [lia|]. apply list_eq. intros k.
  destruct (decide (Z.of_nat k < ps / block_size)) as [Hk|Hk].
  - rewrite lookup_take_lt by lia. rewrite list_lookup_fmap, lookup_seqZ_lt by lia. simpl fmap.
    destruct (lookup_lt_is_Some_2 (region_blocks (S (Z.to_nat (ps / block_size))) memory
      (server * ps) ((server + 1) * ps)) k) as [b Hb]; [lia|].
    rewrite Hb. destruct (Hbl k b Hk Hb) as [-> _]. done.
  - rewrite !lookup_ge_None_2; [done| |]; rewrite ?length_fmap, ?length_seqZ, ?length_take; lia.
Qed.

Lemma grid_ok (base n : Z) :
  let l := (fun k => base + k * block_size) <$> seqZ 0 n in
  NoDup l /\ Forall (aligned base) l.
Proof.
  pose proof block_size_pos. split.
  - apply NoDup_fmap_2; [|apply NoDup_seqZ]. intros x y ?. nia.
  - apply Forall_fmap, Forall_forall. intros k _. unfold aligned, compose.
    replace (base + k * block_size - base) with (k * block_size) by lia. by apply Z.mod_mul, Z.neq_sym, Z.lt_neq.
Qed.

Definition start_base (server memory : Z) : Z :=
  memory + server * (memory_size / CONFIG_FS_SERVER_COUNT).

(** The directories of a new server. *)
Lemma start_files server memory counts times s0 i v :
  FilesystemServer_new server memory counts times = Some s0 -> m_files s0 !! i = Some v ->
  (i = ORPHANS \/ (server = 0 /\ i = 0)) /\ v_ok i v /\ exists d, v = DirV d.
Proof.
  intros Hs0. unfold FilesystemServer_new in Hs0.
  apply bind_Some in Hs0 as (bc & _ & Hs0). simplify_eq. simpl.
  intros [[<- <-]|[_ Hi]]%lookup_insert_Some.
  - split; [by left|]. split; [|by eexists]. by eapply v_ok_Dir_new.
  - destruct (Z.eqb_spec server 0) as [->|]; [|by rewrite lookup_empty in Hi].
    apply lookup_singleton_Some in Hi as [<- <-]. split; [by right|]. split; [|by eexists].
    apply v_ok_dir. rewrite addChild_base. split; [done|]. split; [apply Dir_type_dir|].
    apply addChild_nodup, NoDup_nil_2.
Qed.

Lemma start_I server memory counts times s0 :
  memory_size < 2 ^ 31 -> 0 <= server < CONFIG_FS_SERVER_COUNT -> server < 64 ->
  FilesystemServer_new server memory counts times = Some s0 ->
  params_ok (bc_usable (m_buffer_cache s0)) (start_base server memory) server 2 None /\
  I (bc_usable (m_buffer_cache s0)) server 2 None [] s0.
Proof.
  intros Hm Hi H64 Hs0. pose proof (fun i v => start_files _ _ _ _ _ i v Hs0) as Hfiles.
  unfold FilesystemServer_new in Hs0.
  apply bind_Some in Hs0 as (bc & Hbc & Hs0). inversion Hs0 as [Hs0']. rewrite Hs0' in *. clear Hs0.
  assert (Hp : m_buffer_cache s0 = bc /\ m_pipes s0 = ∅ /\ m_fds s0 = ∅ /\ g_inode_seq s0 = 2 /\
               s_id s0 = server /\ is_Some (m_files s0 !! ORPHANS)).
  { rewrite <- Hs0'. simpl. by rewrite lookup_insert_eq. }
  clear Hs0'. destruct Hp as (Hbe & Hpi & Hfd & Hsq & Hid & [vo Hvo]). rewrite Hbe.
  destruct (start_usable server memory bc Hm Hi Hbc) as (Hok & Hsp & Hus).
  pose proof memory_size_pos. pose proof server_count_pos. pose proof block_size_pos.
  set (ps := memory_size / CONFIG_FS_SERVER_COUNT) in *.
  assert (0 <= ps <= memory_size).
  { split; [apply Z.div_pos; lia|]. apply Z.div_le_upper_bound; nia. }
  assert (ps / block_size <= ps) by (apply Z.div_le_upper_bound; nia).
  assert (Hfresh : forall q, 2 <= q < 2 ^ 26 -> inode_number server q <> ORPHANS /\ inode_number server q <> 0).
  { intros q Hq. split; [apply inode_number_orphans; lia|]. rewrite inode_number_pair by lia. lia. }
  split.
  - split; [rewrite Hus; by apply grid_ok..| | |lia|].
    + rewrite Hus, length_fmap, length_seqZ. lia.
    + lia.
    + done.
  - split; [done|]. split; [lia|]. split; [intros ? ?; by rewrite Hfd, lookup_empty|]. intros _.
    split; rewrite ?Hpi, ?Hbe; try done.
    + rewrite owned_nil; [by rewrite app_nil_r|].
      intros i v Hv. by destruct (Hfiles i v Hv) as (_ & _ & d & ->).
    + intros i v Hv. by apply Hfiles.
    + destruct (Hfiles _ _ Hvo) as (_ & _ & d & ->). eauto.
    + intros q Hq. rewrite lookup_empty. split; [|done]. rewrite Hsq in Hq.
      destruct (m_files s0 !! inode_number server q) as [v|] eqn:Hv; [|done].
      destruct (Hfresh q Hq), (Hfiles _ _ Hv) as [[|[_ ?]] _]; done.
Qed.

(** What an event may name: numbers that are not still to be handed out. *)
Definition honest (s : Server) (e : Event) : Prop :=
  match e with
  | Message _ r => Forall (known_at (s_id s) (g_inode_seq s)) (request_ids r)
  | ChannelClosed _ => True
  end.

Definition event_touches (s : Server) (e : Event) (i : Z) : Prop :=
  match e with Message _ r => touches s r i | ChannelClosed _ => False end.

(** One event served, and any number of them. *)
Inductive step (s : Server) (e : Event) (x : option Reply) (s' : Server) : Prop :=
| step_event : honest s e -> event_run e s = Done x s' -> step s e x s'.

Inductive reach (s0 : Server) : Server -> Prop :=
| reach_start : reach s0 s0
| reach_step s e x s' : reach s0 s -> step s e x s' -> reach s0 s'.

Lemma event_I init base sid seq0 prot pdata e s :
  params_ok init base sid seq0 prot -> I init sid seq0 prot pdata s ->
  honest s e -> (forall i, prot = Some i -> ~ event_touches s e i) ->
  wlp (event_run e) (fun _ s' => I init sid seq0 prot pdata s' /\ g_inode_seq s <= g_inode_seq s') s.
Proof.
  intros Hpar HI Hh Ht. pose proof HI as (Hid & Hq & _).
  destruct e as [chan r|chan]; simpl in *.
  - wlp_step. eapply wlp_mono.
    + apply (handle_I init base sid prot pdata (g_inode_seq s)); [by eapply params_ok_mono|
        by eapply I_now|by rewrite <- Hid|done].
    + simpl. intros x s' HI'. wlp_step. split; [by eapply I_weaken|]. apply HI'.
  - apply (wlp_mono _ (fun _ s' => same_core s s')).
    + wlp_steps; by split.
    + simpl. intros _ s' Hc. split; [by eapply I_core|]. by rewrite (sc_seq _ _ Hc).
Qed.


(** A server that was started as one of the configured ones. *)
Definition started (server memory : Z) (s0 : Server) : Prop :=
  memory_size < 2 ^ 31 /\ 0 <= server < CONFIG_FS_SERVER_COUNT /\ server < 64 /\
  exists counts times, FilesystemServer_new server memory counts times = Some s0.

Lemma reach_I server memory s0 s :
  started server memory s0 -> reach s0 s ->
  params_ok (bc_usable (m_buffer_cache s0)) (start_base server memory) server 2 None /\
  I (bc_usable (m_buffer_cache s0)) server 2 None [] s.
Proof.
  intros (Hm & Hi & H64 & counts & times & Hs0) Hr.
  destruct (start_I server memory counts times s0) as [Hpar HI]; [done..|]. split; [done|].
  induction Hr as [|s e x s' Hr IH [Hh Hrun]]; [done|].
  pose proof (event_I _ _ _ _ None [] e s Hpar IH Hh) as Hw.
  rewrite wlp_Done in Hw. by apply (Hw ltac:(done) x s').
Qed.

(** C1: In every state a server reaches, whatever requests it served, each block
    of its partition is either free or held by exactly one file: the free blocks
    together with the files' blocks are a rearrangement of the blocks it started
    with, and the blocks of two different files do not overlap.  The requests
    must not name inode numbers that are still to be handed out, and there are at
    most [2^26] inodes. *)
Theorem server_blocks_disjoint server memory s0 s :
  started server memory s0 -> reach s0 s -> g_inode_seq s <= 2 ^ 26 ->
  bc_usable (m_buffer_cache s) ++ owned (m_files s) ≡ₚ bc_usable (m_buffer_cache s0) /\
  (forall i j f g bi bj, i <> j ->
     m_files s !! i = Some (FileV f) -> m_files s !! j = Some (FileV g) ->
     bi ∈ v_blocks (FileV f) -> bj ∈ v_blocks (FileV g) ->
     bi + block_size <= bj \/ bj + block_size <= bi).
Proof.
  intros Hst Hr Hle. destruct (reach_I server memory s0 s Hst Hr) as [Hpar (_ & _ & _ & Hs)].
  specialize (Hs Hle). split; [apply Hs|].
  intros i j f g bi bj Hne Hf Hg Hbi Hbj.
  assert (Hnd : NoDup (owned (m_files s))).
  { pose proof (init_nodup _ _ _ _ _ Hpar) as Hnd. rewrite <- (inv_blocks _ _ _ _ _ Hs) in Hnd.
    by apply NoDup_app in Hnd as (_ & _ & ?). }
  apply (aligned_disjoint (start_base server memory)).
  - eapply init_block_aligned; [done..|]. apply elem_of_app. right. by apply (owned_lookup _ i (FileV f)).
  - eapply init_block_aligned; [done..|]. apply elem_of_app. right. by apply (owned_lookup _ j (FileV g)).
  - intros ->. rewrite (owned_delete _ i _ Hf) in Hnd.
    apply (NoDup_app_disjoint _ _ bj Hnd); [done|].
    apply (owned_lookup _ j (FileV g)); [by rewrite lookup_delete_ne|done].
Qed.

(** C2: A request changes no file it does not address: if file [i] exists and
    the event is not a write, flush, truncation, truncating open, size-setting
    close or statistics update of [i], then [i], if it still exists, has the same
    contents afterwards. *)
Theorem server_contents_isolated server memory s0 s e x s' i f f' :
  started server memory s0 -> reach s0 s -> step s e x s' -> g_inode_seq s' <= 2 ^ 26 ->
  ~ event_touches s e i ->
  m_files s !! i = Some (FileV f) -> m_files s' !! i = Some (FileV f') ->
  file_data (s_mem s') f' = file_data (s_mem s) f.
Proof.
  intros Hst Hr [Hh Hrun] Hle Ht Hf Hf'.
  destruct (reach_I server memory s0 s Hst Hr) as [Hpar HI].
  pose proof (event_I _ _ _ _ None [] e s Hpar HI Hh) as Hw. rewrite wlp_Done in Hw.
  destruct (Hw ltac:(done) x s' Hrun) as [_ Hq]. clear Hw.
  destruct HI as (Hid & Hq2 & Hfd & Hs). specialize (Hs ltac:(lia)).
  assert (Hpar' : params_ok (bc_usable (m_buffer_cache s0)) (start_base server memory) server
                    (g_inode_seq s) (Some i)).
  { destruct Hpar. split; try done; [lia|]. intros ? [= <-]. by apply (in_use_known _ _ _ _ s i (FileV f) Hs). }
  assert (HI' : I (bc_usable (m_buffer_cache s0)) server (g_inode_seq s) (Some i) (file_data (s_mem s) f) s).
  { split; [done|]. split; [lia|]. split; [done|]. intros _. destruct Hs. split; try done.
    intros ? g [= <-] Hg. by simplify_eq. }
  pose proof (event_I _ _ _ _ _ _ e s Hpar' HI' Hh) as Hw. rewrite wlp_Done in Hw.
  destruct (Hw ltac:(by intros ? [= <-]) x s' Hrun) as [(_ & _ & _ & Hs') _].
  by apply (inv_prot _ _ _ _ _ (Hs' Hle) i f').
Qed.
End Reach.

(** ** A run *)

Definition demo_start : Server :=
  default (mkServer 0 ∅ ∅ ∅ (mkBufferCache 0 0 [] 0) ∅ [] [] 0 ∅ 0 [])
    (@FilesystemServer_new small_config plain_env 0 4096 (replicate 24 0) (replicate 24 0)).

Definition demo_after (s : Server) (e : Event) : Server :=
  match @event_run small_config plain_env e s with Done _ s' => s' | _ => s end.

(** Two files are created under the root and written to, the first is opened by
    a second application, and a directory is made. *)
Definition demo_events : list Event :=
  [Message 77 (CreateOpenRequest (Z.lor O_CREAT O_RDWR) (mkInode 0 0) 420 "a");
   Message 77 (WriteRequest 1010 5 [1; 2; 3; 4; 5]);
   Message 88 (CreateOpenRequest (Z.lor O_CREAT O_RDWR) (mkInode 0 0) 420 "b");
   Message 88 (WriteRequest 1022 3 [7; 8; 9]);
   Message 88 (OpenRequest O_RDWR 2);
   Message 77 (CreateRequest (mkInodeType 0 0 TYPE_DIR_SHARED) (Z.lor O_CREAT O_DIRECTORY) 493 "d")].

Definition demo_state (n : nat) : Server := foldl demo_after demo_start (take n demo_events).

Lemma demo_started : @started small_config plain_env 0 4096 demo_start.
Proof.
  split; [vm_compute; done|]. split; [vm_compute; done|]. split; [vm_compute; done|].
  exists (replicate 24 0), (replicate 24 0). vm_compute. done.
Qed.

Lemma root_known s : s_id s = 0 -> 1 <= g_inode_seq s -> known_at (s_id s) (g_inode_seq s) 0.
Proof.
  intros -> Hq q Hr Heq. rewrite inode_number_pair in Heq; lia.
Qed.

Lemma demo_step k e :
  demo_events !! k = Some e ->
  exists x, @step small_config plain_env (demo_state k) e x (demo_state (S k)).
Proof.
  intros Hk. do 6 (destruct k as [|k]; [injection Hk as <-; eexists; split;
    [first [apply Forall_nil_2|apply Forall_singleton; apply root_known; vm_compute; done]
    |vm_compute; reflexivity]|]). done.
Qed.

Lemma demo_reach k : (k <= 6)%nat -> @reach small_config plain_env demo_start (demo_state k).
Proof.
  induction k as [|k IH]; intros Hk; [apply reach_start|].
  destruct (lookup_lt_is_Some_2 demo_events k) as [e He]; [simpl; lia|].
  destruct (demo_step k e He) as [x Hx]. eapply reach_step; [apply IH; lia|exact Hx].
Qed.

Definition demo_file (k : nat) (i : Z) : File :=
  match m_files (demo_state k) !! i with Some (FileV f) => f | _ => mkFile tiny_base [] [] 0 end.

Lemma server_blocks_disjoint_witness :
  m_memory_blocks (demo_file 4 2) = [4096] /\ m_memory_blocks (demo_file 4 3) = [69632] /\
  (4096 + 65536 <= 69632 \/ 69632 + 65536 <= 4096).
Proof.
  do 2 (split; [vm_compute; reflexivity|]).
  apply (proj2 (@server_blocks_disjoint small_config small_config_ok plain_env plain_env_ok 0 4096
    demo_start (demo_state 4) demo_started (demo_reach 4 ltac:(lia)) ltac:(vm_compute; done))
    2 3 (demo_file 4 2) (demo_file 4 3)); [done|vm_compute; reflexivity..| |];
    vm_compute; constructor.
Defined.

(** The write to "b" leaves "a" as it was. *)
Lemma server_contents_isolated_witness :
  @file_data small_config (s_mem (demo_state 4)) (demo_file 4 2) = [1; 2; 3; 4; 5].
Proof.
  destruct (demo_step 3 _ eq_refl) as [x Hx].
  rewrite (@server_contents_isolated small_config small_config_ok plain_env plain_env_ok 0 4096
    demo_start (demo_state 3) _ x (demo_state 4) 2 (demo_file 3 2) (demo_file 4 2) demo_started
    (demo_reach 3 ltac:(lia)) Hx);
    [vm_compute; reflexivity|vm_compute; done| |vm_compute; reflexivity|vm_compute; reflexivity].
  intros (d & Hd & Hi). vm_compute in Hd. by simplify_eq.
Defined.
