(* ===== verification/FsServerSpec.v ===== *)
(** * What the operations of the server do

    Total-correctness statements about single operations and about sequences of
    them: directory entries behave as a finite map, data written through a
    descriptor is read back, an unlinked file lives until its last descriptor
    is closed, descriptors are reference counted, removing an entry notifies
    the applications that cached it, and a listing can be read in pieces. *)

From S2P Require Import Prelude FsTypes BufferCache FsFile FsNode TimeArith FsServer FsServerInv FsServerOps FsReach.

#[local] Arguments on_file : simpl never.
#[local] Arguments erase_delete : simpl never.
#[local] Arguments new_base : simpl never.
#[local] Arguments lazy_dir : simpl never.
#[local] Arguments OP_COUNTER : simpl never.
#[local] Arguments addChild : simpl never.
#[local] Arguments Z.pow : simpl never.

(** ** Execution *)

Section Execution.
Context `{ConfigOk} `{EnvOk}.

Lemma wp_s_use (Q : nat -> Server -> Prop) s :
  (forall s', same_core s s' -> m_apps s' = m_apps s -> s_notes s' = s_notes s -> Q (s_tick s) s') ->
  wp s_use Q s.
Proof. intros HQ. unfold s_use. apply wp_zoom. unfold wp, tick. by apply HQ; [split|..]. Qed.

Lemma wp_rdtscll (Q : Z -> Server -> Prop) s :
  (forall x s', same_core s s' -> m_apps s' = m_apps s -> s_notes s' = s_notes s -> Q x s') ->
  wp rdtscll Q s.
Proof. intros HQ. unfold rdtscll. apply wp_bind, wp_s_use. intros. by apply HQ. Qed.

(** States that agree on everything the clients can observe. *)
Record same_obs (s s' : Server) : Prop := {
  so_core : same_core s s';
  so_apps : m_apps s' = m_apps s;
  so_notes : s_notes s' = s_notes s
}.

#[export] Instance same_obs_equiv : Equivalence same_obs.
Proof.
  split.
  - intros s. by split.
  - intros s s' [Hc ? ?]. split; [by symmetry|done..].
  - intros s s' s'' [Hc ? ?] [Hc' ? ?]. split; [by etrans|congruence..].
Qed.

Lemma wp_OP_COUNTER {A} op (body : M Server A) (Q : A -> Server -> Prop) s :
  (forall s1, same_obs s s1 ->
     wp body (fun a s2 => forall s3, same_obs s2 s3 -> Q a s3) s1) ->
  wp (OP_COUNTER op body) Q s.
Proof.
  intros Hb. unfold OP_COUNTER. destruct ENABLE_DBG_SHOW_OPS.
  - apply wp_bind, wp_rdtscll. intros st s1 Hc1 Ha1 Hn1. apply wp_bind. unfold opStart.
    apply wp_modify, wp_bind. eapply wp_mono; [apply Hb; split; [|done..]; destruct Hc1; by split|].
    simpl. intros a s2 HQ. apply wp_bind. unfold opEnd. apply wp_bind, wp_rdtscll.
    intros x s3 Hc3 Ha3 Hn3. cbv zeta.
    case_match; [apply wp_modify|]; apply wp_ret, HQ; (split; [|done..]); destruct Hc3; by split.
  - eapply wp_mono; [by apply Hb|]. simpl. intros a s2 HQ. by apply HQ.
Qed.
End Execution.

(** ** Data through descriptors *)

Section Data.
Context `{ConfigOk} `{EnvOk}.

Lemma wp_on_file {A} i f (m : M FState A) (Q : A -> Server -> Prop) s :
  wp m (fun a t => Q a (set_files (<[i := FileV (fs_file t)]> (m_files s))
          (set_bc (fs_cache t) (set_smem (fs_mem t) (set_stick (fs_tick t) s)))))
    (mkFState f (m_buffer_cache s) (s_mem s) (s_tick s)) -> wp (on_file i f m) Q s.
Proof. unfold wp, on_file. by destruct (m _). Qed.

(** A file of the server with its blocks, on the grid of [base]. *)
Definition file_wf (base : Z) (s : Server) (f : File) : Prop :=
  fstate_wf base (mkFState f (m_buffer_cache s) (s_mem s) (s_tick s)).

Lemma file_wf_core base s s' f : same_core s s' -> file_wf base s f -> file_wf base s' f.
Proof.
  intros [] Hwf. unfold file_wf, fstate_wf, all_blocks in *. simpl in *. by rewrite sc_bc.
Qed.

(** The state after a call on file [i] through descriptor [fd]. *)
Record fd_state (s s' : Server) (fd : Z) (d' : FileDescriptor) (i : Z) (f' : File) : Prop := {
  fs_fds : m_fds s' = <[fd := d']> (m_fds s);
  fs_files : m_files s' = <[i := FileV f']> (m_files s)
}.

Lemma write_wp base s fd d f buf count :
  m_fds s !! fd = Some d -> m_files s !! fd_id d = Some (FileV f) -> file_wf base s f ->
  0 <= fd_offset d -> 0 < count <= Z.of_nat (length buf) -> fd_offset d + count + block_size < 2 ^ 63 ->
  can_grow (fd_offset d + count) (mkFState f (m_buffer_cache s) (s_mem s) (s_tick s)) ->
  wp (write fd buf count) (fun r s' => r = (OK, count) /\
    exists f' gap, fd_state s s' fd (fd_set_offset (fd_offset d + count) d) (fd_id d) f' /\
      file_wf base s' f' /\ m_size f' = Z.max (m_size f) (fd_offset d + count) /\
      m_id (f_base f') = m_id (f_base f) /\ m_type (f_base f') = m_type (f_base f) /\
      length gap = Z.to_nat (fd_offset d - m_size f) /\
      file_data (s_mem s') f' = splice (file_data (s_mem s) f) gap (fd_offset d) (take (Z.to_nat count) buf)) s.
Proof.
  intros Hd Hf Hwf Ho Hc Hmax Hcan. pose proof block_size_pos. unfold write, find_fd. apply wp_bind, wp_gets.
  rewrite Hd. cbv zeta. apply wp_bind. unfold write_inode. apply wp_OP_COUNTER.
  intros s1 [Hc1 _ _]. pose proof Hc1 as [Hid1 Hf1 Hp1 Hd1 Hb1 Hq1 Hm1].
  unfold find_file. apply wp_bind, wp_gets. rewrite Hf1, Hf. do 2 apply wp_bind. apply wp_ret.
  apply wp_bind, wp_on_file. rewrite Hb1, Hm1.
  destruct (File_write_spec base buf count (fd_offset d)
    (mkFState f (m_buffer_cache s) (s_mem s) (s_tick s1))) as (t & gap & Hrun & Hwf' & Hgap & Hsz & Hdata & [Hmv _]);
    [exact Hwf|done..|].
  apply wp_Done. eexists count, t. split; [done|]. apply wp_ret.
  rewrite (proj2 (Z.ltb_lt 0 count)) by lia. apply wp_ret. intros s3 [Hc3 _ _].
  apply wp_bind. unfold put_fd. apply wp_modify, wp_ret. split; [done|].
  rewrite u64_small by lia. destruct Hc3 as [Hid3 Hf3 Hp3 Hd3 Hb3 Hq3 Hm3]. simpl in *.
  exists (fs_file t), gap. split.
  - split; simpl; [by rewrite Hd3, Hd1|by rewrite Hf3, Hf1].
  - destruct (moves_ident _ _ Hmv) as [Hi Ht]. rewrite Hm3.
    split; [|done]. unfold file_wf, fstate_wf, all_blocks in *. simpl. by rewrite Hb3.
Qed.

Lemma lseek_set_wp s fd d f offset :
  m_fds s !! fd = Some d -> m_files s !! fd_id d = Some (FileV f) ->
  m_type (f_base f) = TYPE_FILE ->
  wp (lseek fd offset SEEK_SET) (fun r s' => r = (OK, offset) /\
    m_fds s' = <[fd := fd_set_offset offset d]> (m_fds s) /\ m_files s' = m_files s /\
    m_buffer_cache s' = m_buffer_cache s /\ s_mem s' = s_mem s) s.
Proof.
  intros Hd Hf Ht. unfold lseek. apply wp_OP_COUNTER.
  intros s1 [[Hid1 Hf1 Hp1 Hd1 Hb1 Hq1 Hm1] _ _]. unfold find_fd, find_file.
  apply wp_bind, wp_gets. rewrite Hd1, Hd. apply wp_bind, wp_gets. rewrite Hf1, Hf.
  apply wp_bind, wp_assert; [unfold isFile, v_type; simpl; by rewrite Ht|].
  apply wp_bind, wp_ret. cbv zeta. apply wp_bind, wp_ret. apply wp_bind. unfold put_fd.
  apply wp_modify, wp_ret. intros s3 [[Hid3 Hf3 Hp3 Hd3 Hb3 Hq3 Hm3] _ _]. simpl in *.
  split; [done|]. by rewrite Hf3, Hd3, Hb3, Hm3, Hd1.
Qed.

Lemma read_wp base s fd d f count :
  m_fds s !! fd = Some d -> m_files s !! fd_id d = Some (FileV f) -> file_wf base s f ->
  m_type (f_base f) = TYPE_FILE ->
  0 <= fd_offset d < m_size f -> 0 < count -> fd_offset d + count < 2 ^ 64 ->
  let bytes := read_result (file_data (s_mem s) f) count (fd_offset d) in
  wp (read fd count) (fun r s' => r = (OK, Z.of_nat (length bytes), bytes) /\
    exists now, fd_state s s' fd (fd_set_offset (fd_offset d + Z.of_nat (length bytes)) d) (fd_id d)
      (file_with_base (set_atime now) f) /\
    s_mem s' = s_mem s /\ m_buffer_cache s' = m_buffer_cache s) s.
Proof.
  intros Hd Hf Hwf Ht Ho Hc Hmax bytes. pose proof Hwf as (_ & Hok & _). simpl in Hok.
  assert (Hlen : Z.of_nat (length bytes) = Z.min count (m_size f - fd_offset d)).
  { unfold bytes. rewrite read_result_seqZ, length_fmap, length_seqZ by lia. lia. }
  pose proof Hok as [Hsz Hcap].
  unfold read, find_fd. apply wp_bind, wp_gets. rewrite Hd. cbv zeta. apply wp_bind.
  unfold read_inode. apply wp_OP_COUNTER. intros s1 [[Hid1 Hf1 Hp1 Hd1 Hb1 Hq1 Hm1] _ _].
  unfold find_file. apply wp_bind, wp_gets. rewrite Hf1, Hf. apply wp_bind.
  apply wp_bind, wp_assert; [unfold isFile, v_type; simpl; by rewrite Ht|].
  apply wp_bind, wp_ret. apply wp_bind, wp_on_file. apply wp_Done. do 2 eexists.
  split; [apply File_read_spec; simpl; done || lia|]. simpl. rewrite Hm1. fold bytes.
  apply wp_ret. rewrite (proj2 (Z.ltb_lt 0 _)) by lia. apply wp_ret.
  intros s3 [[Hid3 Hf3 Hp3 Hd3 Hb3 Hq3 Hm3] _ _]. simpl in *.
  apply wp_bind. unfold put_fd. apply wp_modify, wp_ret. split; [done|].
  rewrite u64_small by lia. eexists. split; [split; simpl; [by rewrite Hd3, Hd1|by rewrite Hf3, Hf1]|].
  simpl. by rewrite Hm3, Hb3.
Qed.

(** In a reachable state the blocks of a file are its own. *)
Lemma reach_file_wf server memory s0 s i f :
  started server memory s0 -> reach s0 s -> g_inode_seq s <= 2 ^ 26 ->
  m_files s !! i = Some (FileV f) -> file_ok f ->
  file_wf (start_base server memory) s f /\ m_id (f_base f) = i /\ m_type (f_base f) = TYPE_FILE.
Proof.
  intros Hst Hr Hq Hf Hok. destruct (reach_I server memory s0 s Hst Hr) as [Hpar (_ & _ & _ & Hs)].
  specialize (Hs Hq). split; [|by apply v_ok_file, (inv_files _ _ _ _ _ Hs)].
  split; [apply Hs|]. split; [done|].
  pose proof (init_nodup _ _ _ _ _ Hpar) as Hnd. pose proof (init_aligned _ _ _ _ _ Hpar) as Hal.
  rewrite <- (inv_blocks _ _ _ _ _ Hs), (owned_delete _ i _ Hf) in Hnd, Hal.
  assert (Hp : all_blocks (mkFState f (m_buffer_cache s) (s_mem s) (s_tick s)) ++ owned (delete i (m_files s))
    ≡ₚ bc_usable (m_buffer_cache s) ++ v_blocks (FileV f) ++ owned (delete i (m_files s))).
  { unfold all_blocks. simpl. solve_Permutation. }
  rewrite <- Hp in Hnd, Hal. apply NoDup_app in Hnd as [? _]. by apply Forall_app in Hal as [? _].
Qed.

End Data.

(** ** Directory entries as a finite map *)

Section ChildMap.
Context `{EnvOk}.

Lemma child_find_elem n l c : NoDup c.*1 -> child_find n c = Some l <-> (n, l) ∈ c.
Proof.
  induction c as [|[k l'] c IH]; cbn [child_find]; [set_solver|].
  rewrite fmap_cons, NoDup_cons, elem_of_cons. intros [Hk Hnd].
  destruct (String.eqb_spec k n) as [->|Hne].
  - split; [intros [= <-]; by left|]. intros [[= ->]|Hin]; [done|].
    destruct Hk. apply list_elem_of_fmap. by exists (n, l).
  - rewrite IH by done. split; [by right|]. intros [[= -> ->]|]; done.
Qed.

Lemma child_find_perm n c c' : NoDup c.*1 -> c ≡ₚ c' -> child_find n c = child_find n c'.
Proof.
  intros Hnd Hp. assert (Hnd' : NoDup c'.*1) by (by rewrite <- Hp).
  apply option_eq. intros l. by rewrite !child_find_elem, Hp.
Qed.

Lemma child_find_replace n name l c :
  is_Some (child_find name c) ->
  child_find n (child_replace name l c) = if decide (n = name) then Some l else child_find n c.
Proof.
  induction c as [|[k l'] c IH]; simpl; [by intros [? ?]|].
  destruct (String.eqb_spec k name) as [->|Hk]; simpl.
  - intros _. destruct (String.eqb_spec name n); case_decide; congruence.
  - intros Hs. rewrite IH by done. destruct (String.eqb_spec k n); case_decide; congruence.
Qed.

Lemma child_find_erase n name c :
  NoDup c.*1 ->
  child_find n (child_erase name c) = if decide (n = name) then None else child_find n c.
Proof.
  induction c as [|[k l'] c IH]; cbn [child_erase child_find]; [by case_decide|].
  rewrite fmap_cons, NoDup_cons. intros [Hk Hnd]. destruct (String.eqb_spec k name) as [->|Hne].
  - case_decide as Hn.
    + subst. by apply child_find_None.
    + by destruct (String.eqb_spec name n); [congruence|].
  - cbn [child_find]. rewrite IH by done.
    destruct (String.eqb_spec k n); case_decide; congruence.
Qed.

Lemma child_find_addChild t name inode d n :
  NoDup (m_children d).*1 ->
  child_find n (m_children (addChild t name inode d)) =
    if decide (n = name) then Some (mkVFileLoc (env_new t) inode) else child_find n (m_children d).
Proof.
  intros Hnd. unfold addChild. destruct (child_find name (m_children d)) eqn:Hf; simpl.
  - by rewrite child_find_replace by (by eexists).
  - set (l := mkVFileLoc _ _).
    assert (Hnd' : NoDup ((name, l) :: m_children d).*1).
    { rewrite fmap_cons. constructor; [by apply child_find_None|done]. }
    rewrite <- (child_find_perm n _ _ Hnd' (symmetry (env_order_perm _ t _))). simpl.
    destruct (String.eqb_spec name n); case_decide; congruence.
Qed.
End ChildMap.

Section Entries.
Context `{ConfigOk} `{EnvOk}.

(** A directory has a directory's type and no two entries of one name. *)
Definition dir_ok (d : Dir) : Prop := isDir (DirV d) = true /\ NoDup (m_children d).*1.
Definition dirs_ok (s : Server) : Prop :=
  forall i d, m_files s !! i = Some (DirV d) -> dir_ok d.

Lemma dir_ok_addChild t name inode d : dir_ok d -> dir_ok (addChild t name inode d).
Proof.
  unfold dir_ok, isDir, v_type, v_base. rewrite addChild_base. intros [? ?]. split; [done|].
  by apply addChild_nodup.
Qed.

Lemma dir_ok_erase name d : dir_ok d -> dir_ok (Dir_erase name d).
Proof. intros [? ?]. split; [done|]. by apply Dir_erase_nodup. Qed.

Lemma entry_core s s' p n : same_core s s' -> entry s' p n = entry s p n.
Proof. intros []. unfold entry. by rewrite sc_files. Qed.

Lemma entry_insert s i d p n :
  entry (set_files (<[i := DirV d]> (m_files s)) s) p n =
    if decide (p = i) then vfl_inode <$> child_find n (m_children d) else entry s p n.
Proof.
  unfold entry. simpl. case_decide as Hp; [subst; by rewrite lookup_insert_eq|].
  by rewrite lookup_insert_ne.
Qed.

Definition dir_or_absent (s : Server) (i : Z) : Prop :=
  forall v, m_files s !! i = Some v -> exists d, v = DirV d.

Definition is_DirV (v : VFile) : bool := match v with DirV _ => true | _ => false end.

(** What is not in the table of files. *)
Definition same_rest (s s' : Server) : Prop :=
  s_id s' = s_id s /\ m_pipes s' = m_pipes s /\ m_fds s' = m_fds s /\ m_buffer_cache s' = m_buffer_cache s /\
  s_mem s' = s_mem s.

(** The directories stay directories with distinct names; the other files, their
    blocks and the descriptors do not change. *)
Record dirs_kept (s s' : Server) : Prop := {
  dk_ok : dirs_ok s -> dirs_ok s';
  dk_dir i : dir_or_absent s i -> dir_or_absent s' i;
  dk_files i v : is_DirV v = false -> m_files s' !! i = Some v <-> m_files s !! i = Some v;
  dk_present i : is_Some (m_files s !! i) -> is_Some (m_files s' !! i);
  dk_rest : same_rest s s'
}.

#[export] Instance dirs_kept_preorder : PreOrder dirs_kept.
Proof.
  split; [intros s; by split|]. intros s s' s'' [? ? Hf ? (? & ? & ? & ? & ?)] [? ? Hf' ? (? & ? & ? & ? & ?)]. split; eauto.
  - intros i v Hv. by rewrite Hf', Hf.
  - split_and!; congruence.
Qed.

Lemma dirs_kept_core s s' : same_core s s' -> dirs_kept s s'.
Proof. intros []. split; [unfold dirs_ok, dir_or_absent; by rewrite sc_files..|]. by split_and!. Qed.

Lemma dirs_kept_insert s s' i d :
  m_files s' = <[i := DirV d]> (m_files s) -> dir_ok d -> dir_or_absent s i -> same_rest s s' -> dirs_kept s s'.
Proof.
  intros Hf Hnd Hda Hr. split; [unfold dirs_ok, dir_or_absent; rewrite Hf..|done].
  - intros Hok j e [[<- [= <-]]|[_ Hj]]%lookup_insert_Some; eauto.
  - intros j Hj v [[<- <-]|[_ Hv]]%lookup_insert_Some; eauto.
  - intros j v Hv. destruct (decide (j = i)) as [->|Hne]; [|by rewrite lookup_insert_ne].
    rewrite lookup_insert_eq. split; [by intros [= <-]|]. intros Hj. by destruct (Hda v Hj) as [? ->].
  - intros j Hj. destruct (decide (j = i)) as [->|]; [by rewrite lookup_insert_eq|by rewrite lookup_insert_ne].
Qed.

(** [lazy_dir] adds no entry. *)
Lemma wp_lazy_dir i (Q : unit -> Server -> Prop) s :
  g_inode_seq s <> INT32_MAX -> dirs_ok s -> dir_or_absent s i ->
  (forall s' d, m_files s' !! i = Some (DirV d) -> dir_ok d ->
     m_apps s' = m_apps s -> s_notes s' = s_notes s ->
     (forall p n, entry s' p n = entry s p n) ->
     dirs_kept s s' -> g_inode_seq s' <= g_inode_seq s + 1 -> Q tt s') ->
  wp (lazy_dir i) Q s.
Proof.
  intros Hq Hok Hdir HQ. unfold lazy_dir, find_file. apply wp_bind, wp_gets.
  destruct (m_files s !! i) as [v|] eqn:Hi.
  { destruct (Hdir v Hi) as [d ->]. apply wp_ret. eapply HQ; eauto; [done|lia]. }
  apply wp_bind. unfold new_dir, new_base. do 2 apply wp_bind. apply wp_gets.
  rewrite (proj2 (Z.eqb_neq _ _)) by done. apply wp_bind, wp_modify. unfold clock_gettime.
  do 2 apply wp_bind. apply wp_s_use. intros s1 [Hid1 Hf1 Hp1 Hd1 Hb1 Hq1 Hm1] Ha1 Hn1. simpl in *.
  apply wp_ret, wp_bind, wp_gets, wp_ret, wp_ret. unfold put_file. apply wp_modify. rewrite Hf1.
  match goal with |- Q _ (set_files (<[i := DirV ?d]> _) _) => assert (Hnew : dir_ok d) end.
  { split; [|apply NoDup_nil_2]. unfold isDir, v_type. simpl.
    by destruct (Dir_type_dir true 511) as [-> | ->]. }
  eapply HQ; simpl; [by rewrite lookup_insert_eq|done|done|done|
    |by eapply dirs_kept_insert; [done..|by split_and!]|by rewrite Hq1].
  intros p n. unfold entry. simpl. destruct (decide (p = i)) as [->|].
  - by rewrite lookup_insert_eq, Hi.
  - by rewrite lookup_insert_ne.
Qed.

(** The entries after a new one is put in. *)
Lemma set_entry_wp appId parent path child d s :
  m_files s !! parent = Some (DirV d) -> dir_ok d ->
  wp (set_entry appId parent path child d (child_find path (m_children d))) (fun _ s' =>
    (forall p n, entry s' p n =
       if decide (p = parent /\ n = path) then Some child else entry s p n) /\
    dirs_kept s s' /\ g_inode_seq s' = g_inode_seq s) s.
Proof.
  intros Hd Hnd. unfold set_entry. apply wp_bind.
  apply (wp_mono _ (fun p' s' => same_core s s' /\ dir_ok p' /\
    forall n, n <> path -> child_find n (m_children p') = child_find n (m_children d))).
  { destruct (child_find path (m_children d)); [|by apply wp_ret]. apply wp_bind.
    assert (Hfin : forall s1, same_core s s1 -> wp (mret (Dir_erase path d)) (fun p' s' => same_core s s' /\
      dir_ok p' /\
      forall n, n <> path -> child_find n (m_children p') = child_find n (m_children d)) s1).
    { intros s1 Hc. apply wp_ret. split; [done|]. split; [by apply dir_ok_erase|].
      intros n Hn. simpl. rewrite child_find_erase by apply Hnd. by rewrite decide_False. }
    destruct ENABLE_DIRECTORY_CACHE; [|by apply wp_ret, Hfin].
    unfold appRemoveCache. apply wp_bind, wp_s_use. intros s1 Hc _ _. apply wp_modify, Hfin.
    destruct Hc. by split. }
  simpl. intros p' s1 (Hc1 & Hnd' & Hfind). apply wp_bind, wp_s_use. intros s2 Hc2 _ _. cbv zeta.
  apply wp_bind. unfold put_file. apply wp_modify.
  set (s3 := set_files _ _).
  assert (Hent : forall p n, entry s3 p n =
      if decide (p = parent /\ n = path) then Some child else entry s p n).
  { intros p n. unfold s3. rewrite entry_insert, child_find_addChild by apply Hnd'.
    rewrite (entry_core s1 s2), (entry_core s s1) by done.
    destruct (decide (p = parent)) as [->|]; destruct (decide (n = path)) as [->|];
      repeat case_decide; try naive_solver.
    unfold entry. rewrite Hd. by rewrite Hfind. }
  assert (Hkept : dirs_kept s s3 /\ g_inode_seq s3 = g_inode_seq s).
  { unfold s3. simpl. rewrite (sc_seq _ _ Hc2), (sc_seq _ _ Hc1). split; [|done].
    transitivity s2; [by etrans; apply dirs_kept_core|].
    eapply dirs_kept_insert; [done|by apply dir_ok_addChild| |done]. intros v.
    rewrite (sc_files _ _ Hc2), (sc_files _ _ Hc1), Hd. intros [= <-]. by exists d. }
  case_match; [|by apply wp_ret]. rewrite child_find_addChild, decide_True by (apply Hnd' || done).
  apply wp_bind, (wp_deref _ _ _ _ eq_refl). unfold appAddCache. apply wp_modify. split.
  - intros p n. rewrite <- Hent. by apply entry_core.
  - destruct Hkept as [Hk Hsq]. split; [|done]. etrans; [exact Hk|]. by apply dirs_kept_core.
Qed.

(** [addmap] reports the entry that was there, if any; the entry becomes
    [child] when there was none or overwriting was asked for; no other entry of
    any directory changes. *)
Lemma addmap_wp appId parent path child overwrite s :
  dirs_ok s -> g_inode_seq s <> INT32_MAX -> path <> "stats" -> dir_or_absent s (in_id parent) ->
  wp (addmap appId parent path child overwrite) (fun r s' =>
    let old := entry s (in_id parent) path in
    r = match old with Some e => (EXIST, e) | None => (OK, child) end /\
    (forall p n, entry s' p n =
       if decide ((p = in_id parent /\ n = path) /\ (overwrite = true \/ old = None))
       then Some child else entry s p n) /\
    dirs_kept s s' /\ g_inode_seq s' <= g_inode_seq s + 1) s.
Proof.
  intros Hok Hq Hst Hdir. unfold addmap. apply wp_OP_COUNTER. intros s1 [Hc1 _ _].
  rewrite (proj2 (String.eqb_neq path "stats")) by done. apply wp_bind, wp_ret, wp_bind.
  pose proof (dirs_kept_core _ _ Hc1) as Hk1. rewrite <- (sc_seq _ _ Hc1) in *.
  apply wp_lazy_dir; [done|by apply Hk1|by apply Hk1|].
  intros s2 d Hd Hnd _ _ Hent2 Hk2 Hq2. unfold find_file. apply wp_bind, wp_gets. rewrite Hd.
  apply wp_bind, (wp_deref _ _ _ _ eq_refl). apply wp_bind, wp_ret. cbv zeta.
  assert (Hold : entry s (in_id parent) path = vfl_inode <$> child_find path (m_children d)).
  { rewrite <- (entry_core s s1), <- Hent2 by done. unfold entry. by rewrite Hd. }
  assert (Hsame : forall p n, entry s2 p n = entry s p n).
  { intros p n. by rewrite Hent2, (entry_core s s1). }
  pose proof (set_entry_wp appId (in_id parent) path child d s2 Hd Hnd) as Hset.
  assert (Hend : forall s3 s4, same_core s3 s4 -> dirs_kept s2 s3 -> g_inode_seq s3 = g_inode_seq s2 ->
    dirs_kept s s4 /\ g_inode_seq s4 <= g_inode_seq s1 + 1).
  { intros s3 s4 Hc4 Hk3 Hq3. rewrite (sc_seq _ _ Hc4), Hq3. split; [|done].
    do 2 (etrans; [eassumption|]). etrans; [eassumption|]. by apply dirs_kept_core. }
  rewrite Hold. destruct (child_find path (m_children d)) as [c|]; simpl; [destruct overwrite|].
  - apply wp_bind. eapply wp_mono; [exact Hset|]. simpl. intros _ s3 (Hent3 & Hk3 & Hq3). apply wp_ret.
    intros s4 [Hc4 _ _]. split; [done|]. split; [|by eapply Hend]. intros p n.
    rewrite (entry_core s3 s4), Hent3, Hsame by done. repeat case_decide; naive_solver.
  - apply wp_ret. intros s4 [Hc4 _ _]. split; [done|]. split; [|by eapply Hend]. intros p n.
    rewrite (entry_core s2 s4), Hsame by done. rewrite decide_False; naive_solver.
  - apply wp_bind. eapply wp_mono; [exact Hset|]. simpl. intros _ s3 (Hent3 & Hk3 & Hq3). apply wp_ret.
    intros s4 [Hc4 _ _]. split; [done|]. split; [|by eapply Hend]. intros p n.
    rewrite (entry_core s3 s4), Hent3, Hsame by done. repeat case_decide; naive_solver.
Qed.

(** [removemap] removes exactly the named entry; it reports a missing directory
    or entry, and leaves the entries as they are in that case. *)
Lemma removemap_wp appId parent path s :
  dirs_ok s -> dir_or_absent s parent ->
  wp (removemap appId parent path) (fun r s' =>
    r = match entry s parent path with Some _ => OK | None => NOT_FOUND end /\
    (forall p n, entry s' p n = if decide (p = parent /\ n = path) then None else entry s p n) /\
    dirs_kept s s' /\ g_inode_seq s' = g_inode_seq s /\
    (forall i, i <> parent -> m_files s' !! i = m_files s !! i)) s.
Proof.
  intros Hok Hda. unfold removemap. apply wp_OP_COUNTER. intros s1 [Hc1 _ _]. apply wp_bind.
  apply (wp_mono _ (fun _ s' => same_core s s')).
  { case_match; [unfold clear_stats; apply wp_modify|by apply wp_ret]. destruct Hc1. by split. }
  clear s1 Hc1. intros [] s1 Hc1. unfold find_file. apply wp_bind, wp_gets. rewrite (sc_files _ _ Hc1).
  assert (Hkeep : entry s parent path = None -> wp (mret NOT_FOUND : M Server Z)
    (fun r s2 => forall s3, same_obs s2 s3 ->
      r = match entry s parent path with Some _ => OK | None => NOT_FOUND end /\
      (forall p n, entry s3 p n = if decide (p = parent /\ n = path) then None else entry s p n) /\
      dirs_kept s s3 /\ g_inode_seq s3 = g_inode_seq s /\
      (forall i, i <> parent -> m_files s3 !! i = m_files s !! i)) s1).
  { intros Hno. apply wp_ret. intros s3 [Hc3 _ _]. rewrite Hno. split; [done|].
    pose proof (transitivity Hc1 Hc3) as Hc. split.
    2: { split; [by apply dirs_kept_core|]. split; [apply Hc|]. intros. by rewrite (sc_files _ _ Hc). }
    intros p n. rewrite (entry_core s s3) by done. case_decide as Hd; [|done]. by destruct Hd as [-> ->]. }
  destruct (m_files s !! parent) as [v|] eqn:Hv.
  2: { apply Hkeep. unfold entry. by rewrite Hv. }
  destruct (Hda v Hv) as [d ->]. rewrite (proj1 (Hok _ d Hv)). simpl negb. cbv iota.
  apply wp_bind, wp_ret. destruct (child_find path (m_children d)) as [c|] eqn:Hc.
  2: { apply Hkeep. unfold entry. by rewrite Hv, Hc. }
  apply wp_bind. apply (wp_mono _ (fun _ s' => same_core s s')).
  { destruct (_ && _); [|by apply wp_ret]. unfold appRemoveCache. apply wp_bind, wp_s_use.
    intros s2 Hc2 _ _. apply wp_modify. etrans; [done|]. destruct Hc2. by split. }
  intros [] s2 Hc2. unfold put_file. apply wp_bind, wp_modify, wp_ret. intros s3 [Hc3 _ _].
  split; [unfold entry; by rewrite Hv, Hc|]. split.
  - intros p n. rewrite (entry_core _ s3 p n Hc3), entry_insert.
    simpl. rewrite child_find_erase by (by eapply Hok). rewrite (entry_core s s2) by done.
    repeat case_decide; try naive_solver. subst. unfold entry. by rewrite Hv.
  - rewrite (sc_seq _ _ Hc3), (sc_files _ _ Hc3). simpl. rewrite (sc_seq _ _ Hc2), (sc_files _ _ Hc2).
    split; [|split; [done|intros; by apply lookup_insert_ne]].
    etrans; [exact (dirs_kept_core _ _ Hc2)|]. etrans; [|exact (dirs_kept_core _ _ Hc3)].
    eapply dirs_kept_insert; [done|by eapply dir_ok_erase, Hok| |done].
    intros v. rewrite (sc_files _ _ Hc2). apply Hda.
Qed.

(** [resolve] returns the entry and changes none. *)
Lemma resolve_wp appId parent path s :
  path <> "" -> dirs_ok s -> dir_or_absent s parent ->
  wp (resolve appId parent path) (fun r s' =>
    r = match entry s parent path with Some e => (OK, Some e) | None => (NOT_FOUND, None) end /\
    same_core s s') s.
Proof.
  intros Hne Hok Hda. unfold resolve. apply wp_OP_COUNTER. intros s1 [Hc1 _ _].
  rewrite (proj2 (String.eqb_neq path "")) by done. apply wp_bind, wp_assert; [done|].
  unfold find_file. apply wp_bind, wp_gets. rewrite (sc_files _ _ Hc1).
  assert (Hret : forall r s2, same_core s s2 -> wp (mret r : M Server (Z * option InodeType))
    (fun a s2 => forall s3, same_obs s2 s3 -> a = r /\ same_core s s3) s2).
  { intros r s2 Hc2. apply wp_ret. intros s3 [Hc3 _ _]. split; [done|]. by etrans. }
  unfold entry. destruct (m_files s !! parent) as [v|] eqn:Hv; [|by apply Hret].
  destruct (Hda v Hv) as [d ->]. rewrite (proj1 (Hok _ d Hv)). simpl negb. cbv iota.
  apply wp_bind, wp_ret. destruct (child_find path (m_children d)) as [c|] eqn:Hc; [|by apply Hret].
  apply wp_bind. case_match; [unfold appAddCache; apply wp_modify|apply wp_ret]; apply Hret; [|done].
  destruct Hc1. by split.
Qed.
End Entries.

(** ** Demonstration *)

Definition demo_fd (k : nat) (fd : Z) : FileDescriptor :=
  default (FileDescriptor_new 0 0) (m_fds (demo_state k) !! fd).

