(* ===== verification/FsNamespace.v ===== *)
(** * The name space of a server

    A server keeps its part of the name space in the tables of its directory
    objects.  To its clients that part is a finite map from a directory and a
    name to an inode: this file states that map as an abstract machine and shows
    that the handlers of [ADDMAP], [REMOVEMAP] and [RESOLVE] implement it, for
    any sequence of such requests a reachable server is sent. *)

From S2P Require Import Prelude FsTypes BufferCache FsFile FsNode FsServer FsServerInv FsServerOps FsMarshall FsReach FsServerSpec.

(** ** The abstract machine *)

Module Names.

Inductive op : Type :=
| Add (parent : Inode) (name : string) (child : InodeType) (overwrite : bool)
| Remove (parent : Z) (name : string)
| Lookup (parent : Z) (name : string).

Abbreviation t := (gmap (Z * string) InodeType).

Definition parent_of (o : op) : Z :=
  match o with Add p _ _ _ => in_id p | Remove p _ => p | Lookup p _ => p end.

(** The message a client sends for an operation. *)
Definition request (o : op) : Request :=
  match o with
  | Add p n c w => AddMapRequest p c w n
  | Remove p n => RemoveMapRequest p n
  | Lookup p n => ResolveRequest p n
  end.

(** "stats" makes the server rewrite a file; an empty name is not resolved. *)
Definition allowed (o : op) : bool :=
  match o with
  | Add _ n _ _ => negb (n =? "stats")%string
  | Remove _ _ => true
  | Lookup _ n => negb (n =? "")%string
  end.

(** The reply and the map afterwards. *)
Definition step (o : op) (m : t) : Reply * t :=
  match o with
  | Add p n c w =>
      match m !! (in_id p, n) with
      | Some e => (StatusInodeTypeReply EXIST (Some e), if w then <[(in_id p, n) := c]> m else m)
      | None => (StatusInodeTypeReply OK (Some c), <[(in_id p, n) := c]> m)
      end
  | Remove p n =>
      (StatusReply (match m !! (p, n) with Some _ => OK | None => NOT_FOUND end), delete (p, n) m)
  | Lookup p n =>
      (match m !! (p, n) with
       | Some e => ResolveReply OK (Some e) None
       | None => ResolveReply NOT_FOUND None None
       end, m)
  end.

Fixpoint exec (os : list op) (m : t) : list (option Reply) * t :=
  match os with
  | [] => ([], m)
  | o :: os' =>
      let (x, m1) := step o m in
      let (xs, m2) := exec os' m1 in
      (Some x :: xs, m2)
  end.
End Names.

(** ** Refinement *)

Section Refinement.
Context `{ConfigOk} `{EnvOk}.

(** The map is the server's directories. *)
Definition represents (m : Names.t) (s : Server) : Prop :=
  forall p n, m !! (p, n) = entry s p n.

(** The map of a server. *)
Definition dir_names (i : Z) (c : ChildMap) (m : Names.t) : Names.t :=
  foldr (fun nl acc => <[(i, nl.1) := vfl_inode nl.2]> acc) m c.
Definition names_of (s : Server) : Names.t :=
  map_fold (fun i v acc => match v with DirV d => dir_names i (m_children d) acc | _ => acc end)
    ∅ (m_files s).

Lemma dir_names_lookup i c m p n :
  dir_names i c m !! (p, n) =
    if decide (p = i)
    then match child_find n c with Some l => Some (vfl_inode l) | None => m !! (p, n) end
    else m !! (p, n).
Proof.
  induction c as [|[k l] c IH]; simpl; [by case_decide|].
  destruct (decide ((i, k) = (p, n))) as [[= -> ->]|Hne].
  - by rewrite lookup_insert_eq, decide_True, String.eqb_refl.
  - rewrite lookup_insert_ne, IH by done. case_decide; [|done]. subst.
    destruct (String.eqb_spec k n); [congruence|done].
Qed.

Lemma names_of_represents s : represents (names_of s) s.
Proof.
  unfold represents, names_of, entry.
  apply (map_fold_weak_ind (fun (r : Names.t) (m : gmap Z VFile) => forall p n, r !! (p, n) =
    match m !! p with Some (DirV d) => vfl_inode <$> child_find n (m_children d) | _ => None end)).
  - intros p n. by rewrite !lookup_empty.
  - intros i v m r Hi IH p n. destruct (decide (p = i)) as [->|Hp].
    + rewrite lookup_insert_eq. destruct v as [|d| |]; rewrite ?dir_names_lookup, ?IH, ?Hi; try done.
      rewrite decide_True by done. by destruct (child_find _ _).
    + rewrite lookup_insert_ne by done. rewrite <- IH. destruct v as [|d| |]; try done.
      by rewrite dir_names_lookup, decide_False.
Qed.

Lemma represents_eq m m' s : represents m s -> represents m' s -> m = m'.
Proof. intros Hm Hm'. apply map_eq. intros [p n]. by rewrite Hm, Hm'. Qed.

Lemma names_step chan o m s :
  dirs_ok s -> g_inode_seq s <> INT32_MAX -> dir_or_absent s (Names.parent_of o) ->
  Names.allowed o = true -> represents m s ->
  wp (event_run (Message chan (Names.request o))) (fun x s' =>
    x = Some (fst (Names.step o m)) /\ represents (snd (Names.step o m)) s' /\
    dirs_kept s s' /\ g_inode_seq s' <= g_inode_seq s + 1) s.
Proof.
  intros Hok Hq Hda Hal Hr. unfold event_run. apply wp_bind.
  destruct o as [p n c w|p n|p n]; simpl in *; unfold addmap, removemap, resolve; apply wp_bind.
  - eapply wp_mono; [apply addmap_wp; [done..| |done]; by destruct (String.eqb_spec n "stats")|].
    cbv zeta. intros r s' (-> & Hent & Hk & Hq'). rewrite Hr. apply wp_bind, wp_assert.
    { by destruct (entry s (in_id p) n). }
    do 2 apply wp_ret. split; [by destruct (entry s (in_id p) n)|]. split; [|done].
    intros p' n'. rewrite Hent. destruct (decide (p' = in_id p /\ n' = n)) as [[-> ->]|Hne].
    + destruct (entry s (in_id p) n) eqn:He; [destruct w|]; simpl; rewrite ?lookup_insert_eq.
      * by rewrite decide_True by auto.
      * by rewrite decide_False, Hr, He by naive_solver.
      * by rewrite decide_True by auto.
    + rewrite decide_False by naive_solver. rewrite <- (Hr p' n').
      destruct (entry s (in_id p) n); [destruct w|]; simpl; rewrite ?lookup_insert_ne by naive_solver; done.
  - eapply wp_mono; [by apply removemap_wp|]. cbv beta. intros r s' (-> & Hent & Hk & Hq' & _).
    do 2 apply wp_ret. rewrite Hr. split; [done|]. split; [|split; [done|lia]].
    intros p' n'. rewrite Hent. case_decide as Hd; [destruct Hd as [-> ->]; by rewrite lookup_delete_eq|].
    rewrite lookup_delete_ne by naive_solver. apply Hr.
  - eapply wp_mono; [apply resolve_wp; [|done..]; by destruct (String.eqb_spec n "")|].
    cbv beta. intros r s' [-> Hc]. do 2 apply wp_ret. rewrite Hr.
    split; [by destruct (entry s p n)|]. split; [|split; [by apply dirs_kept_core|]].
    + intros p' n'. rewrite Hr. by rewrite (entry_core s s').
    + rewrite (sc_seq _ _ Hc). lia.
Qed.

Lemma names_exec chan os m s :
  dirs_ok s -> g_inode_seq s + Z.of_nat (length os) <= INT32_MAX ->
  Forall (fun o => dir_or_absent s (Names.parent_of o) /\ Names.allowed o = true) os ->
  represents m s ->
  wp (run ((fun o => Message chan (Names.request o)) <$> os)) (fun xs s' =>
    xs = fst (Names.exec os m) /\ represents (snd (Names.exec os m)) s') s.
Proof.
  revert m s. induction os as [|o os IH]; intros m s Hok Hq Hos Hr; simpl in *; [by apply wp_ret|].
  apply Forall_cons in Hos as [[Hda Hal] Hos]. apply wp_bind.
  eapply wp_mono; [apply (names_step chan o m); auto; lia|]. cbv beta.
  destruct (Names.step o m) as [x m1]. simpl. intros ? s1 (-> & Hr1 & [Hk1 Hk2] & Hq1).
  apply wp_bind. eapply wp_mono; [apply (IH m1); [auto|lia| |done]|].
  - eapply Forall_impl; [exact Hos|]. simpl. intros o' [? ?]. auto.
  - destruct (Names.exec os m1) as [xs m2]. simpl. intros ? s2 [-> Hr2]. by apply wp_ret.
Qed.

(** C9: The handlers that add, remove and look up directory entries implement
    the finite map: on a reachable server, for any sequence of such requests
    from any client, every request is answered (no assertion fails and no
    undefined behaviour is met), the replies are those of the abstract map
    started with the server's entries, and the entries afterwards are those of
    the abstract map.  The parents named must not be files or links, and the
    server must not run out of inode numbers. *)
Theorem namespace_refines_map server memory s0 s chan os :
  started server memory s0 -> reach s0 s -> g_inode_seq s + Z.of_nat (length os) <= 2 ^ 26 ->
  Forall (fun o => dir_or_absent s (Names.parent_of o) /\ Names.allowed o = true) os ->
  wp (run ((fun o => Message chan (Names.request o)) <$> os)) (fun xs s' =>
    (xs, names_of s') = Names.exec os (names_of s)) s.
Proof.
  intros Hst Hre Hq Hos. eapply wp_mono.
  - apply (names_exec chan os (names_of s)); [|unfold INT32_MAX; lia|done|apply names_of_represents].
    destruct (reach_I server memory s0 s Hst Hre) as [_ (_ & _ & _ & Hs)].
    intros i d Hd. apply (inv_files _ _ _ _ _ (Hs ltac:(lia))) in Hd.
    apply v_ok_dir in Hd as (_ & Ht & Hnd). split; [|done].
    unfold isDir, v_type. simpl. by destruct Ht as [-> | ->].
  - cbv beta. intros xs s' [-> Hr]. rewrite (represents_eq _ _ _ (names_of_represents s') Hr).
    by destruct (Names.exec os (names_of s)).
Qed.
End Refinement.

(** On the server of the demonstration, which knows "a" and "b" in the root: a
    name is added, found, not added again, and removed. *)
Definition demo_ops : list Names.op :=
  [Names.Add (mkInode 0 0) "c" (mkInodeType 1 9 TYPE_FILE) false; Names.Lookup 0 "c";
   Names.Add (mkInode 0 0) "c" (mkInodeType 2 8 TYPE_FILE) false; Names.Remove 0 "c";
   Names.Lookup 0 "c"].

Lemma namespace_refines_map_witness :
  wp (@run small_config plain_env ((fun o => Message 77 (Names.request o)) <$> demo_ops))
    (fun xs _ => xs =
      [Some (StatusInodeTypeReply OK (Some (mkInodeType 1 9 TYPE_FILE)));
       Some (ResolveReply OK (Some (mkInodeType 1 9 TYPE_FILE)) None);
       Some (StatusInodeTypeReply EXIST (Some (mkInodeType 1 9 TYPE_FILE)));
       Some (StatusReply OK); Some (ResolveReply NOT_FOUND None None)]) (demo_state 4).
Proof.
  eapply wp_mono.
  - apply (@namespace_refines_map small_config small_config_ok plain_env plain_env_ok 0 4096
      demo_start (demo_state 4) 77 demo_ops demo_started (demo_reach 4 ltac:(lia))); [vm_compute; done|].
    repeat constructor; intros v Hv; vm_compute in Hv; injection Hv as <-; eexists; reflexivity.
  - cbv beta. intros xs s' Hx. apply (f_equal fst) in Hx. cbn [fst] in Hx. rewrite Hx.
    vm_compute. reflexivity.
Defined.
