(* ===== verification/FsLifetime.v ===== *)
(** * How long an inode lives

    An inode whose name is removed while descriptors refer to it moves to the
    server's orphans, and goes away with a descriptor that is closed; descriptors
    are shared by counting.  Directories are removed in phases, under a lock.
    The two theorems at the end of the first part show a weakness: the orphan
    goes away with the first of several descriptors, and closing the next one
    fails an assertion. *)

From S2P Require Import Prelude FsTypes BufferCache FsFile FsNode FsServer FsServerInv FsServerOps FsReach FsServerSpec.

#[local] Arguments on_file : simpl never.
#[local] Arguments erase_delete : simpl never.
#[local] Arguments OP_COUNTER : simpl never.
#[local] Arguments addChild : simpl never.
#[local] Arguments Z.pow : simpl never.

Section Lifetime.
Context `{ConfigOk} `{EnvOk}.

(** The numbers of the two directories that are members of the server. *)
Definition removable (s : Server) (i : Z) : Prop := i <> ORPHANS /\ ~ (s_id s = 0 /\ i = ROOT_INO).

(** Deleting a file gives its blocks back. *)
Lemma wp_erase_delete_file i f (Q : unit -> Server -> Prop) s :
  removable s i -> bc_ok (m_buffer_cache s) ->
  Z.of_nat (length (m_memory_blocks f ++ m_orphan_blocks f))
    + Z.of_nat (length (m_blocks (m_buffer_cache s))) < 2 ^ 63 ->
  (forall s', s_id s' = s_id s -> m_files s' = delete i (m_files s) -> m_fds s' = m_fds s ->
     m_pipes s' = m_pipes s ->
     bc_usable (m_buffer_cache s') ≡ₚ v_blocks (FileV f) ++ bc_usable (m_buffer_cache s) -> Q tt s') ->
  wp (erase_delete i (FileV f)) Q s.
Proof.
  intros [Ho Hroot] Hok Hb HQ. unfold erase_delete. apply wp_bind, wp_gets.
  rewrite (proj2 (Z.eqb_neq i ORPHANS)) by done. simpl orb.
  destruct (Z.eqb_spec (s_id s) 0), (Z.eqb_spec i ROOT_INO); simpl andb; cbv iota; try naive_solver;
    (apply wp_bind, wp_on_file;
     destruct (File_delete_spec (mkFState f (m_buffer_cache s) (s_mem s) (s_tick s)))
       as (c' & Hrun & _ & _ & Hus & _); [done..|];
     apply wp_Done; do 2 eexists; split; [exact Hrun|]; apply wp_modify; apply HQ; simpl; try done;
     [apply delete_insert_eq|rewrite Hus; unfold all_blocks; simpl; by rewrite (assoc_L (++))]).
Qed.

Lemma has_open_fd_true s i fd d :
  m_fds s !! fd = Some d -> fd_id d = i -> fd_count_int d <> 0 ->
  existsb (fun kd : Z * FileDescriptor => (fd_id (snd kd) =? i) && negb (fd_count_int (snd kd) =? 0))
    (map_to_list (m_fds s)) = true.
Proof.
  intros Hd Hi Hc. apply existsb_exists. exists (fd, d).
  split; [by apply list_elem_of_In, elem_of_map_to_list|]. simpl.
  rewrite (proj2 (Z.eqb_eq _ _) Hi), (proj2 (Z.eqb_neq _ _)); done.
Qed.

Lemma has_open_fd_false s i :
  (forall fd d, m_fds s !! fd = Some d -> fd_id d = i -> fd_count_int d = 0) ->
  existsb (fun kd : Z * FileDescriptor => (fd_id (snd kd) =? i) && negb (fd_count_int (snd kd) =? 0))
    (map_to_list (m_fds s)) = false.
Proof.
  intros Hall. apply not_true_is_false. intros ([fd d] & Hin & Hb)%existsb_exists. simpl in Hb.
  apply list_elem_of_In, elem_of_map_to_list in Hin.
  apply andb_prop in Hb as [Hi Hc%negb_true_iff%Z.eqb_neq]. destruct Hc.
  by eapply Hall, Z.eqb_eq.
Qed.

(** A file is on the orphans' list. *)
Definition orphaned (s : Server) (i : Z) : Prop :=
  exists d, m_files s !! ORPHANS = Some (DirV d) /\ is_Some (Dir_find_id i d).

Lemma Dir_find_id_child n l d :
  child_find n (m_children d) = Some l -> is_Some (Dir_find_id (it_id (vfl_inode l)) d).
Proof.
  unfold Dir_find_id. induction (m_children d) as [|[k l'] c IH]; simpl; [done|].
  destruct (String.eqb_spec k n); [intros [= ->]|]; simpl; [by rewrite Z.eqb_refl|].
  intros Hc. case_match; [done|]. by apply IH.
Qed.

(** The table of files after a change to the orphans. *)
Record orphans_changed (s s' : Server) (od' : Dir) : Prop := {
  oc_id : s_id s' = s_id s;
  oc_files : m_files s' = <[ORPHANS := DirV od']> (m_files s);
  oc_fds : m_fds s' = m_fds s;
  oc_pipes : m_pipes s' = m_pipes s;
  oc_bc : m_buffer_cache s' = m_buffer_cache s;
  oc_mem : s_mem s' = s_mem s
}.

Lemma add_orphan_wp name child od s :
  m_files s !! ORPHANS = Some (DirV od) -> NoDup (m_children od).*1 ->
  wp (add_orphan name child) (fun _ s' => exists od', orphans_changed s s' od' /\
    is_Some (Dir_find_id (it_id child) od')) s.
Proof.
  intros Hod Hnd. unfold add_orphan. apply wp_bind, wp_s_use.
  intros s1 [Hid1 Hf1 Hp1 Hd1 Hb1 Hq1 Hm1] _ _. unfold find_file. apply wp_bind, wp_gets.
  rewrite Hf1, Hod. apply wp_bind, (wp_deref _ _ _ _ eq_refl), wp_bind, wp_ret.
  unfold put_file. apply wp_modify. eexists. split; [by split; simpl; rewrite ?Hf1|].
  change child with (vfl_inode (mkVFileLoc (env_new (s_tick s)) child)). eapply Dir_find_id_child.
  by rewrite child_find_addChild, decide_True.
Qed.

Lemma unlink_open_wp i f od fd d s :
  m_files s !! i = Some (FileV f) -> m_id (f_base f) = i -> m_type (f_base f) = TYPE_FILE ->
  m_files s !! ORPHANS = Some (DirV od) -> NoDup (m_children od).*1 ->
  m_fds s !! fd = Some d -> fd_id d = i -> fd_count_int d <> 0 ->
  wp (unlink i) (fun r s' => r = OK /\ exists od', orphans_changed s s' od' /\
    is_Some (Dir_find_id i od')) s.
Proof.
  intros Hf Hid Hty Hod Hnd Hd Hdi Hc. unfold unlink. apply wp_OP_COUNTER.
  intros s1 [[Hid1 Hf1 Hp1 Hd1 Hb1 Hq1 Hm1] _ _]. unfold find_file. apply wp_bind, wp_gets.
  rewrite Hf1, Hf. apply wp_bind, wp_assert; [unfold isFile, v_type; simpl; by rewrite Hty|].
  apply wp_bind. unfold orphan_or_delete, has_open_fd. apply wp_bind, wp_gets.
  unfold v_id at 1. simpl v_base. rewrite Hid, Hd1, (has_open_fd_true s i fd d) by done. cbv iota.
  apply wp_bind, wp_rdtscll. intros tsc s2 [Hid2 Hf2 Hp2 Hd2 Hb2 Hq2 Hm2] _ _. apply wp_bind, wp_gets.
  eapply wp_mono; [apply (add_orphan_wp _ _ od); [by rewrite Hf2, Hf1|done]|].
  cbv beta. intros _ s3 (od' & [Hid3 Hf3 Hd3 Hp3 Hb3 Hm3] & Ho). apply wp_ret.
  intros s4 [[Hid4 Hf4 Hp4 Hd4 Hb4 Hq4 Hm4] _ _]. split; [done|]. exists od'.
  split; [split; congruence|]. unfold v_id in Ho. simpl in Ho. by rewrite Hid in Ho.
Qed.

(** Closing a descriptor whose count reaches 0 deletes an orphaned file. *)
Lemma close_orphan_wp i f od fd d offset size s :
  m_fds s !! fd = Some d -> fd_id d = i -> fd_count d = 1 ->
  m_files s !! i = Some (FileV f) -> m_id (f_base f) = i ->
  m_files s !! ORPHANS = Some (DirV od) -> is_Some (Dir_find_id i od) -> removable s i ->
  bc_ok (m_buffer_cache s) ->
  Z.of_nat (length (m_memory_blocks f ++ m_orphan_blocks f))
    + Z.of_nat (length (m_blocks (m_buffer_cache s))) < 2 ^ 63 ->
  wp (close fd offset size) (fun r s' => r = OK /\ m_files s' !! i = None /\
    m_fds s' = delete fd (m_fds s) /\ m_pipes s' = m_pipes s /\
    bc_usable (m_buffer_cache s') ≡ₚ v_blocks (FileV f) ++ bc_usable (m_buffer_cache s)) s.
Proof.
  intros Hd Hdi Hc Hf Hid Hod [name Hname] Hrem Hok Hb. unfold close. apply wp_OP_COUNTER.
  intros s1 [[Hid1 Hf1 Hp1 Hd1 Hb1 Hq1 Hm1] _ _]. unfold find_fd. apply wp_bind, wp_gets.
  rewrite Hd1, Hd. cbv zeta. unfold put_fd. apply wp_bind, wp_modify.
  assert (Hc0 : fd_count_int (fd_remove d) = 0) by (unfold fd_count_int, fd_remove; simpl; by rewrite Hc).
  rewrite Hc0. apply wp_bind, wp_assert; [done|]. rewrite Z.eqb_refl. apply wp_bind.
  unfold find_file. apply wp_gets. change (fd_id (fd_remove d)) with (fd_id d). rewrite Hdi. simpl m_files.
  rewrite Hf1, Hf. apply wp_bind. unfold close_file, find_file. apply wp_bind, wp_gets. simpl m_files.
  rewrite Hf1, Hod. apply wp_bind, (wp_deref _ _ _ _ eq_refl), wp_bind, wp_ret.
  unfold v_id at 1. simpl v_base. rewrite Hid, Hname. unfold put_file. apply wp_bind, wp_modify.
  apply wp_erase_delete_file; simpl; rewrite ?Hb1; [|done..|].
  { unfold removable in *. simpl. by rewrite Hid1. }
  intros s2 Hid2 Hf2 Hd2 Hp2 Hus. apply wp_bind, wp_modify, wp_ret.
  intros s3 [[Hid3 Hf3 Hp3 Hd3 Hb3 Hq3 Hm3] _ _]. simpl in *.
  split; [done|]. rewrite Hf3, Hd3, Hp3, Hb3, Hf2, Hd2, Hp2, Hp1, Hus, lookup_delete_eq.
  split; [done|]. split; [|done]. by rewrite delete_insert_eq, Hd1.
Qed.

(** What [destroy] needs of a file. *)
Definition destroyable (s : Server) (i : Z) : Prop :=
  i <> ROOT_INO /\ exists f od, m_files s !! i = Some (FileV f) /\ m_id (f_base f) = i /\ m_type (f_base f) = TYPE_FILE /\
    m_files s !! ORPHANS = Some (DirV od) /\ dirs_ok s /\ bc_ok (m_buffer_cache s) /\
    Z.of_nat (length (m_memory_blocks f ++ m_orphan_blocks f))
      + Z.of_nat (length (m_blocks (m_buffer_cache s))) < 2 ^ 63.

Lemma destroyable_kept s s' i : dirs_kept s s' -> destroyable s i -> destroyable s' i.
Proof.
  intros [Hok Hd Hf Hp (Hid & _ & _ & Hb & _)] (Hr & f & od & Hi & Hfi & Hft & Ho & Hs & Hbc & Hn). split; [done|].
  destruct (Hp ORPHANS) as [v Hv]; [by eexists|].
  destruct (Hd ORPHANS) with v as [od' ->]; [intros v'; rewrite Ho; intros [= <-]; by exists od|done|].
  exists f, od'. rewrite Hb. split_and!; try done; [by apply Hf|by apply Hok].
Qed.

(** The file is deleted or, where it is open, becomes an orphan. *)
Lemma destroy_wp i s :
  destroyable s i ->
  wp (destroy i) (fun r s' => r = OK /\ (m_files s' !! i = None \/ orphaned s' i) /\
    forall p n, p <> ORPHANS -> entry s' p n = entry s p n) s.
Proof.
  intros (Hroot & f & od & Hf & Hid & Hty & Ho & Hok & Hbc & Hb). unfold destroy. apply wp_OP_COUNTER.
  intros s1 [[Hid1 Hf1 Hp1 Hd1 Hb1 Hq1 Hm1] _ _]. unfold find_file. apply wp_bind, wp_gets. rewrite Hf1, Hf.
  assert (Hdir : isDir (FileV f) = false) by (unfold isDir, v_type; simpl; by rewrite Hty). rewrite Hdir.
  assert (Hi : i <> ORPHANS) by (intros ->; congruence).
  apply wp_bind. unfold orphan_or_delete, has_open_fd. apply wp_bind, wp_gets. destruct (existsb _ _).
  - apply wp_bind, wp_rdtscll. intros tsc s2 [Hid2 Hf2 Hp2 Hd2 Hb2 Hq2 Hm2] _ _. apply wp_bind, wp_gets.
    eapply wp_mono; [apply (add_orphan_wp _ _ od); [by rewrite Hf2, Hf1|by apply (Hok ORPHANS)]|].
    cbv beta. intros _ s3 (od' & [Hid3 Hf3 _ _ _ _] & Hor). apply wp_ret. intros s4 [[Hid4 Hf4 _ _ _ _ _] _ _].
    split; [done|]. rewrite Hf4, Hf3. split.
    + right. exists od'. rewrite Hf4, Hf3, lookup_insert_eq. split; [done|]. unfold v_id in Hor. simpl in Hor. by rewrite Hid in Hor.
    + intros p n Hp. unfold entry. by rewrite Hf4, Hf3, lookup_insert_ne, Hf2, Hf1.
  - apply wp_erase_delete_file; rewrite ?Hb1; [split; [done|naive_solver]|done|done|].
    intros s2 Hid2 Hf2 _ _ _. apply wp_ret. intros s3 [[Hid3 Hf3 _ _ _ _ _] _ _]. split; [done|]. rewrite Hf3, Hf2. split.
    + left. by rewrite lookup_delete_eq.
    + intros p n Hp. unfold entry. rewrite Hf3, Hf2, Hf1. destruct (decide (p = i)) as [->|].
      * by rewrite lookup_delete_eq, Hf.
      * by rewrite lookup_delete_ne.
Qed.

Section Reachable.
Variables (server memory : Z) (s0 s : Server).
Hypothesis Hst : started server memory s0.
Hypothesis Hr : reach s0 s.
Hypothesis Hq : g_inode_seq s <= 2 ^ 26.

Lemma reach_file i f :
  m_files s !! i = Some (FileV f) -> 
  m_id (f_base f) = i /\ m_type (f_base f) = TYPE_FILE /\ i <> ORPHANS /\ bc_ok (m_buffer_cache s) /\
  Z.of_nat (length (m_memory_blocks f ++ m_orphan_blocks f))
    + Z.of_nat (length (m_blocks (m_buffer_cache s))) < 2 ^ 63.
Proof.
  intros Hf. destruct (reach_I server memory s0 s Hst Hr) as [Hpar (_ & _ & _ & Hs)].
  specialize (Hs Hq). destruct (proj1 (v_ok_file i f) (inv_files _ _ _ _ _ Hs _ _ Hf)) as [? ?].
  do 2 (split; [done|]). split; [|split; [apply Hs|by eapply file_blocks_bound]].
  intros ->. destruct (inv_orphans _ _ _ _ _ Hs) as [od Hod]. congruence.
Qed.

Lemma reach_orphans : exists od, m_files s !! ORPHANS = Some (DirV od) /\ NoDup (m_children od).*1.
Proof.
  destruct (reach_I server memory s0 s Hst Hr) as [_ (_ & _ & _ & Hs)]. specialize (Hs Hq).
  destruct (inv_orphans _ _ _ _ _ Hs) as [od Hod]. exists od. split; [done|].
  by destruct (proj1 (v_ok_dir _ _) (inv_files _ _ _ _ _ Hs _ _ Hod)) as (_ & _ & ?).
Qed.

Lemma reach_id : s_id s = server.
Proof. by destruct (reach_I server memory s0 s Hst Hr) as [_ (? & _)]. Qed.
End Reachable.

(** The state while a descriptor of an orphan is closed by one process after the
    other: [n] uses are left, and of the file only the size may be different. *)
Record lives (s : Server) (i : Z) (f : File) (fd n : Z) (s1 : Server) : Prop := {
  lv_fds : exists d, m_fds s1 = <[fd := d]> (m_fds s) /\ fd_id d = i /\ fd_count d = n;
  lv_file : exists z, m_files s1 !! i = Some (FileV (file_with_size z f));
  lv_orphan : orphaned s1 i;
  lv_id : s_id s1 = s_id s;
  lv_cache : m_buffer_cache s1 = m_buffer_cache s;
  lv_mem : s_mem s1 = s_mem s
}.

Lemma lives_fd s i f fd n d d' s1 :
  lives s i f fd n s1 -> m_fds s1 !! fd = Some d -> fd_id d' = fd_id d ->
  lives s i f fd (fd_count d') (set_fds (<[fd := d']> (m_fds s1)) s1).
Proof.
  intros [(e & Hfds & He & Hc) Hf Ho ? ? ?] Hd Hi. rewrite Hfds, lookup_insert_eq in Hd. injection Hd as <-. split; try done.
  exists d'. simpl. rewrite Hfds, insert_insert_eq. split_and!; congruence.
Qed.

Lemma lives_size s i f fd n z s1 :
  lives s i f fd n s1 -> i <> ORPHANS -> lives s i f fd n (set_files (<[i := FileV (file_with_size z f)]> (m_files s1)) s1).
Proof.
  intros [Hfds Hf (od & Hod & Ho) ? ? ?] Hi. split; try done.
  - exists z. simpl. by rewrite lookup_insert_eq.
  - exists od. simpl. by rewrite lookup_insert_ne.
Qed.

Lemma lives_core s i f fd n s1 s2 : same_core s1 s2 -> lives s i f fd n s1 -> lives s i f fd n s2.
Proof.
  intros [Hid2 Hf2 Hp2 Hd2 Hb2 Hq2 Hm2] [Hfds Hf Ho ? ? ?]. split; try congruence; unfold orphaned; by rewrite ?Hd2, ?Hf2.
Qed.

(** A close that is not the last one. *)
Lemma close_shared_wp s i f fd n offset size s1 :
  lives s i f fd n s1 -> 1 < n < 2 ^ 31 -> i <> ORPHANS ->
  wp (close fd offset size) (fun r s2 => r = OK /\ lives s i f fd (n - 1) s2) s1.
Proof.
  intros Hl1 Hn Hi. unfold close. apply wp_OP_COUNTER. intros s2 [Hc2 _ _]. apply (lives_core _ _ _ _ _ _ _ Hc2) in Hl1.
  destruct (lv_fds _ _ _ _ _ _ Hl1) as (d & Hfds & Hdi & Hc). assert (Hd : m_fds s2 !! fd = Some d) by (by rewrite Hfds, lookup_insert_eq).
  unfold find_fd. apply wp_bind, wp_gets. rewrite Hd. cbv zeta. unfold put_fd. apply wp_bind, wp_modify.
  assert (Hc1 : fd_count (fd_remove d) = n - 1) by (unfold fd_remove; simpl; rewrite Hc; apply u64_small; lia).
  assert (Hci : fd_count_int (fd_remove d) = n - 1) by (unfold fd_count_int; rewrite Hc1; apply i32_small; lia).
  rewrite Hci. apply wp_bind, wp_assert; [lia|]. rewrite (proj2 (Z.eqb_neq _ _)) by lia.
  pose proof (lives_fd _ _ _ _ _ d (fd_remove d) _ Hl1 Hd eq_refl) as Hl3. rewrite Hc1 in Hl3. set (s3 := set_fds _ s2) in *.
  apply wp_bind. apply (wp_mono _ (fun _ => lives s i f fd (n - 1))).
  { case_match; [by apply wp_ret|]. apply wp_modify.
    assert (Hd3 : m_fds s3 !! fd = Some (fd_remove d)) by (simpl; by rewrite lookup_insert_eq).
    pose proof (lives_fd _ _ _ _ _ _ (fd_set_offset (u64 offset) (fd_remove d)) _ Hl3 Hd3 eq_refl) as Hl. simpl in Hl. by rewrite <- Hc1. }
  cbv beta. intros _ s4 Hl4. apply wp_bind. apply (wp_mono _ (fun _ => lives s i f fd (n - 1))).
  { case_match; [by apply wp_ret|]. unfold set_file_size, find_file, put_file. destruct (lv_file _ _ _ _ _ _ Hl4) as [z Hz].
    apply wp_bind, wp_gets. change (fd_id (fd_remove d)) with (fd_id d). rewrite Hdi, Hz.
    apply wp_bind, (wp_deref _ _ _ _ eq_refl), wp_bind, wp_ret, wp_modify. by apply (lives_size s i f fd _ size). }
  cbv beta. intros _ s5 Hl5. apply wp_ret. intros s6 [Hc6 _ _]. split; [done|]. by eapply lives_core.
Qed.

(** The descriptor is closed once for every element, with that offset and size. *)
Fixpoint close_each (fd : Z) (l : list (Z * Z)) : M Server (list Z) :=
  match l with
  | [] => mret []
  | (offset, size) :: l' => r ← close fd offset size; rs ← close_each fd l'; mret (r :: rs)
  end.

Lemma close_each_wp s i f fd l n s1 :
  lives s i f fd n s1 -> n = Z.of_nat (length l) + 1 -> n < 2 ^ 31 -> i <> ORPHANS ->
  wp (close_each fd l) (fun rs s2 => Forall (fun r => r = OK) rs /\ lives s i f fd 1 s2) s1.
Proof.
  revert n s1. induction l as [|[offset size] l IH]; intros n s1 Hl Hn Hb Hi; simpl in *.
  { apply wp_ret. split; [done|]. by replace 1 with n by lia. }
  apply wp_bind. eapply wp_mono; [apply (close_shared_wp s i f fd n); [done|lia|done]|]. cbv beta. intros r s2 [-> Hl2].
  apply wp_bind. eapply wp_mono; [apply (IH (n - 1)); [done|lia..|done]|]. cbv beta. intros rs s3 [Hrs Hl3]. apply wp_ret.
  by split; [constructor|].
Qed.

(** C14: An open file outlives its name until it is not open any more.  Let one
    descriptor refer to the file, shared by any number of uses.  Unlinking the file
    succeeds and leaves the file, its contents and the descriptor as they are; closing
    the descriptor for all uses but one, whatever offsets and sizes these closes carry,
    changes at most the size of the file; closing the last use deletes the file and
    gives all its blocks back to the cache, and no descriptor refers to it then. *)
Theorem unlink_open_then_close server memory s0 s i f fd d closes offset size :
  started server memory s0 -> reach s0 s -> g_inode_seq s <= 2 ^ 26 ->
  m_files s !! i = Some (FileV f) -> i <> ROOT_INO ->
  m_fds s !! fd = Some d -> fd_id d = i -> fd_count d = Z.of_nat (length closes) + 1 -> fd_count d < 2 ^ 31 ->
  (forall fd' d', m_fds s !! fd' = Some d' -> fd_id d' = i -> fd' = fd) ->
  wp (unlink i) (fun r s1 => r = OK /\
    m_files s1 !! i = Some (FileV f) /\ m_fds s1 = m_fds s /\
    file_data (s_mem s1) f = file_data (s_mem s) f /\
    wp (close_each fd closes) (fun rs s2 => Forall (fun r => r = OK) rs /\
      (exists z, m_files s2 !! i = Some (FileV (file_with_size z f))) /\ s_mem s2 = s_mem s /\
      wp (close fd offset size) (fun r s3 => r = OK /\ m_files s3 !! i = None /\
        (forall fd' d', m_fds s3 !! fd' = Some d' -> fd_id d' <> i) /\
        bc_usable (m_buffer_cache s3) ≡ₚ v_blocks (FileV f) ++ bc_usable (m_buffer_cache s)) s2) s1) s.
Proof.
  intros Hst Hr Hq Hf Hroot Hd Hdi Hc Hc31 Honly.
  destruct (reach_file server memory s0 s Hst Hr Hq i f Hf) as (Hid & Hty & Ho & Hok & Hb).
  destruct (reach_orphans server memory s0 s Hst Hr Hq) as (od & Hod & Hnd).
  eapply wp_mono; [apply (unlink_open_wp i f od fd d); try done; unfold fd_count_int; rewrite i32_small; lia|].
  cbv beta. intros r s1 (-> & od' & [Hid1 Hf1 Hd1 Hp1 Hb1 Hm1] & Hor). split; [done|].
  assert (Hf1' : m_files s1 !! i = Some (FileV f)) by (by rewrite Hf1, lookup_insert_ne).
  rewrite Hm1. do 3 (split; [done|]).
  eapply wp_mono; [apply (close_each_wp s i f fd closes (fd_count d)); [|done..]|].
  { split; try congruence.
    - exists d. split_and!; [|done..]. rewrite Hd1. symmetry. by apply insert_id.
    - exists (m_size f). rewrite Hf1'. by destruct f.
    - exists od'. by rewrite Hf1, lookup_insert_eq. }
  cbv beta. intros rs s2 [Hrs [(d2 & Hfds2 & Hdi2 & Hc2) [z Hz] (od2 & Hod2 & Hor2) Hid2 Hb2 Hm2]]. split; [done|].
  split; [by exists z|]. split; [done|].
  eapply wp_mono; [apply (close_orphan_wp i (file_with_size z f) od2 fd d2); rewrite ?Hb2; try done|].
  - by rewrite Hfds2, lookup_insert_eq.
  - split; [done|]. naive_solver.
  - cbv beta. intros r s3 (-> & Hf3 & Hd3 & _ & Hus). rewrite Hb2 in Hus. split_and!; [done..| |done].
    rewrite Hd3, Hfds2. intros fd' d' [Hne [[? _]|[_ Hd']]%lookup_insert_Some]%lookup_delete_Some Hi'; [done|].
    apply Hne. symmetry. by eapply Honly.
Qed.

(** Computations that fail an assertion. *)
Lemma abort_bind {A B} (m : M Server A) (k : A -> M Server B) s :
  wp m (fun a s' => k a s' = Abort) s -> (m ≫= k) s = Abort.
Proof. unfold wp, mbind, M_bind. by destruct (m s). Qed.

Lemma abort_bind_l {A B} (m : M Server A) (k : A -> M Server B) s :
  m s = Abort -> (m ≫= k) s = Abort.
Proof. unfold mbind, M_bind. by intros ->. Qed.

Lemma abort_OP_COUNTER {A} op (body : M Server A) s :
  (forall s1, same_obs s s1 -> body s1 = Abort) -> OP_COUNTER op body s = Abort.
Proof.
  intros Hb. unfold OP_COUNTER. destruct ENABLE_DBG_SHOW_OPS; [|by apply Hb].
  apply abort_bind, wp_rdtscll. intros st s1 Hc1 Ha1 Hn1. apply abort_bind. unfold opStart.
  apply wp_modify, abort_bind_l, Hb. split; [|done..]. destruct Hc1. by split.
Qed.

(** The last descriptor of an inode that is neither a file nor a pipe. *)
Lemma close_dangling_aborts fd d offset size s :
  m_fds s !! fd = Some d -> fd_count d = 1 ->
  m_files s !! fd_id d = None -> m_pipes s !! fd_id d = None ->
  close fd offset size s = Abort.
Proof.
  intros Hd Hc Hf Hp. unfold close. apply abort_OP_COUNTER.
  intros s1 [[Hid1 Hf1 Hp1 Hd1 Hb1 Hq1 Hm1] _ _]. unfold find_fd. apply abort_bind, wp_gets.
  rewrite Hd1, Hd. cbv zeta. unfold put_fd. apply abort_bind, wp_modify.
  assert (Hc0 : fd_count_int (fd_remove d) = 0) by (unfold fd_count_int, fd_remove; simpl; by rewrite Hc).
  rewrite Hc0. apply abort_bind, wp_assert; [done|]. rewrite Z.eqb_refl. apply abort_bind.
  unfold find_file. apply wp_gets. change (fd_id (fd_remove d)) with (fd_id d). simpl m_files.
  rewrite Hf1, Hf. apply abort_bind_l. unfold close_pipe, find_pipe. apply abort_bind, wp_gets.
  change (m_pipes (set_fds _ s1)) with (m_pipes s1). by rewrite Hp1, Hp.
Qed.

(** An unlinked file that was opened twice does not live until its last
    descriptor is closed: closing one deletes it, although the other descriptor
    still refers to it, and closing the other fails an assertion of the server. *)
Theorem unlinked_file_second_close_aborts server memory s0 s i f fd d fd' d' offset size :
  started server memory s0 -> reach s0 s -> g_inode_seq s <= 2 ^ 26 ->
  m_files s !! i = Some (FileV f) -> i <> ROOT_INO -> m_pipes s !! i = None -> fd <> fd' ->
  m_fds s !! fd = Some d -> fd_id d = i -> fd_count d = 1 ->
  m_fds s !! fd' = Some d' -> fd_id d' = i -> fd_count d' = 1 ->
  wp (r1 ← unlink i; r2 ← close fd offset size; mret (r1, r2))
    (fun r s1 => r = (OK, OK) /\ m_fds s1 !! fd' = Some d' /\ m_files s1 !! i = None /\
       forall offset' size', close fd' offset' size' s1 = Abort) s.
Proof.
  intros Hst Hr Hq Hf Hroot Hnp Hne Hd Hdi Hc Hd' Hdi' Hc'.
  destruct (reach_file server memory s0 s Hst Hr Hq i f Hf) as (Hid & Hty & Ho & Hok & Hb).
  destruct (reach_orphans server memory s0 s Hst Hr Hq) as (od & Hod & Hnd). apply wp_bind.
  eapply wp_mono; [apply (unlink_open_wp i f od fd d); try done; unfold fd_count_int; by rewrite Hc|].
  cbv beta. intros r s1 (-> & od' & [Hid1 Hf1 Hd1 Hp1 Hb1 Hm1] & Hor). apply wp_bind.
  eapply wp_mono; [apply (close_orphan_wp i f od' fd d); rewrite ?Hd1, ?Hf1, ?Hb1; try done|].
  - by rewrite lookup_insert_ne.
  - by rewrite lookup_insert_eq.
  - split; [done|]. naive_solver.
  - cbv beta. intros r s2 (-> & Hf2 & Hd2 & Hp2 & _). apply wp_ret. split; [done|].
    assert (Hd2' : m_fds s2 !! fd' = Some d') by (by rewrite Hd2, Hd1, lookup_delete_ne).
    split; [done|]. split; [done|]. intros o sz. apply (close_dangling_aborts fd' d');
      [done|done|by rewrite Hdi'|by rewrite Hdi', Hp2, Hp1].
Qed.

(** A descriptor that is duplicated and closed again is as before, count
    included, and so is every file: only the last close has an effect. *)
Theorem dup_close_restores fd d v s :
  m_fds s !! fd = Some d -> m_files s !! fd_id d = Some v -> 0 < fd_count d < 2 ^ 31 - 1 ->
  wp (r1 ← dup fd; r2 ← close fd (-1) UINT64_MAX; mret (fst r1, r2))
    (fun r s' => r = (OK, OK) /\ m_fds s' = m_fds s /\ m_files s' = m_files s /\
       m_pipes s' = m_pipes s /\ m_buffer_cache s' = m_buffer_cache s /\ s_mem s' = s_mem s) s.
Proof.
  intros Hd Hv Hc. apply wp_bind. unfold dup. apply wp_OP_COUNTER.
  intros s1 [[Hid1 Hf1 Hp1 Hd1 Hb1 Hq1 Hm1] _ _]. unfold find_fd, find_file, find_pipe.
  apply wp_bind, wp_gets. rewrite Hd1, Hd. do 2 apply wp_bind, wp_gets. rewrite Hf1, Hv.
  apply wp_bind, wp_gets. unfold put_fd. apply wp_bind, wp_modify, wp_ret.
  intros s2 [[Hid2 Hf2 Hp2 Hd2 Hb2 Hq2 Hm2] _ _]. simpl in *. apply wp_bind. unfold close.
  apply wp_OP_COUNTER. intros s3 [[Hid3 Hf3 Hp3 Hd3 Hb3 Hq3 Hm3] _ _]. unfold find_fd.
  apply wp_bind, wp_gets. rewrite Hd3, Hd2, lookup_insert_eq. cbv zeta. unfold put_fd.
  apply wp_bind, wp_modify.
  assert (Hback : fd_remove (fd_add d) = d).
  { unfold fd_remove, fd_add. simpl. rewrite (u64_small (fd_count d + 1)) by lia.
    replace (fd_count d + 1 - 1) with (fd_count d) by lia. rewrite u64_small by lia. by destruct d. }
  rewrite Hback. assert (Hci : fd_count_int d = fd_count d) by (apply i32_small; lia). rewrite Hci.
  apply wp_bind, wp_assert; [lia|]. rewrite (proj2 (Z.eqb_neq _ _)) by lia.
  apply wp_bind, wp_ret, wp_bind, wp_ret, wp_ret.
  intros s4 [[Hid4 Hf4 Hp4 Hd4 Hb4 Hq4 Hm4] _ _]. apply wp_ret. simpl in *. split; [done|].
  repeat split; try congruence.
  rewrite Hd4, Hd3, Hd2, Hd1, insert_insert_eq. by apply insert_id.
Qed.
End Lifetime.

(** ** Removing a directory *)

Section Rmdir.
Context `{ConfigOk} `{EnvOk}.

(** States that differ in the files only. *)
Record files_changed (s s' : Server) (m : gmap Z VFile) : Prop := {
  fc_id : s_id s' = s_id s;
  fc_files : m_files s' = m;
  fc_fds : m_fds s' = m_fds s;
  fc_pipes : m_pipes s' = m_pipes s;
  fc_bc : m_buffer_cache s' = m_buffer_cache s;
  fc_mem : s_mem s' = s_mem s
}.

Lemma files_changed_core s s1 s2 m :
  same_core s s1 -> same_obs (set_files m s1) s2 -> files_changed s s2 m.
Proof. intros [] [[] _ _]. simpl in *. split; congruence. Qed.

(** The part of [rmdir] up to the check of the entries. *)
Ltac rmdir_enter Hd Hdir :=
  unfold rmdir; apply wp_OP_COUNTER; let s1 := fresh "s1" in let Hc1 := fresh "Hc1" in
  intros s1 [Hc1 _ _]; unfold lazy_dir, find_file; apply wp_bind, wp_bind, wp_gets;
  rewrite (sc_files _ _ Hc1), Hd; apply wp_ret, wp_bind, wp_gets;
  rewrite (sc_files _ _ Hc1), Hd; apply wp_bind, (wp_deref _ _ _ _ eq_refl);
  rewrite Hdir; simpl negb; cbv iota; apply wp_bind, wp_ret.

Lemma rmdir_nonempty_wp i d phase s :
  m_files s !! i = Some (DirV d) -> isDir (DirV d) = true -> dir_empty d = false ->
  wp (rmdir i phase) (fun r s' => r = NOT_EMPTY /\ same_core s s') s.
Proof.
  intros Hd Hdir He. rmdir_enter Hd Hdir. rewrite He. apply wp_ret. intros s2 [Hc2 _ _].
  split; [done|]. by etrans.
Qed.

Lemma rmdir_try_wp i d s :
  m_files s !! i = Some (DirV d) -> isDir (DirV d) = true -> dir_empty d = true ->
  wp (rmdir i RMDIR_TRY) (fun r s' =>
    if m_locked d then r = - EAGAIN /\ files_changed s s' (m_files s)
    else r = OK /\ files_changed s s' (<[i := DirV (dir_with_lock true d)]> (m_files s))) s.
Proof.
  intros Hd Hdir He. rmdir_enter Hd Hdir. rewrite He. simpl negb. cbv iota.
  rewrite Z.eqb_refl. destruct (m_locked d).
  - apply wp_ret. intros s2 [[] _ _]. destruct Hc1. split; [done|]. split; congruence.
  - unfold put_file. apply wp_bind, wp_modify, wp_ret. rewrite (sc_files _ _ Hc1).
    intros s2 Hs2. split; [done|]. by eapply files_changed_core.
Qed.

Lemma rmdir_fail_wp i d s :
  m_files s !! i = Some (DirV d) -> isDir (DirV d) = true -> dir_empty d = true ->
  m_locked d = true ->
  wp (rmdir i RMDIR_FAIL) (fun r s' =>
    r = OK /\ files_changed s s' (<[i := DirV (dir_with_lock false d)]> (m_files s))) s.
Proof.
  intros Hd Hdir He Hl. rmdir_enter Hd Hdir. rewrite He. simpl negb. cbv iota.
  change (RMDIR_FAIL =? RMDIR_TRY) with false. rewrite Z.eqb_refl, Hl. cbv iota.
  apply wp_bind, wp_assert; [done|]. unfold put_file.
  apply wp_bind, wp_modify, wp_ret. rewrite (sc_files _ _ Hc1).
  intros s2 Hs2. split; [done|]. by eapply files_changed_core.
Qed.

Lemma rmdir_success_wp i d s :
  m_files s !! i = Some (DirV d) -> isDir (DirV d) = true -> dir_empty d = true ->
  m_locked d = true -> m_id (d_base d) = i -> removable s i ->
  (forall fd e, m_fds s !! fd = Some e -> fd_id e = i -> fd_count_int e = 0) ->
  wp (rmdir i RMDIR_SUCCESS) (fun r s' => r = OK /\ files_changed s s' (delete i (m_files s))) s.
Proof.
  intros Hd Hdir He Hl Hid [Ho Hroot] Hfd. rmdir_enter Hd Hdir. rewrite He. simpl negb. cbv iota.
  change (RMDIR_SUCCESS =? RMDIR_TRY) with false. change (RMDIR_SUCCESS =? RMDIR_FAIL) with false.
  rewrite Z.eqb_refl, Hl. cbv iota. apply wp_bind, wp_bind, wp_assert; [done|]. unfold put_file.
  apply wp_modify, wp_bind, wp_gets. simpl m_files. rewrite lookup_insert_eq.
  apply wp_bind, (wp_deref _ _ _ _ eq_refl), wp_bind. unfold orphan_or_delete, has_open_fd.
  apply wp_bind, wp_gets. unfold v_id. simpl v_base. simpl m_fds.
  rewrite Hid, (sc_fds _ _ Hc1), has_open_fd_false by done. cbv iota. unfold erase_delete.
  apply wp_bind, wp_gets. simpl s_id. rewrite (sc_id _ _ Hc1), (proj2 (Z.eqb_neq i ORPHANS)) by done.
  simpl orb. replace ((s_id s =? 0) && (i =? ROOT_INO)) with false by
    (destruct (Z.eqb_spec (s_id s) 0), (Z.eqb_spec i ROOT_INO); naive_solver).
  apply wp_bind, wp_ret, wp_modify, wp_ret. rewrite (sc_files _ _ Hc1). simpl m_files.
  rewrite delete_insert_eq. intros s2 [[] _ _]. simpl in *. destruct Hc1. split; [done|].
  split; congruence.
Qed.

(** The phases of the removal of a directory: trying it locks an empty
    directory, so that a second try is told to come back later; giving up
    restores exactly what was there, after which a new try succeeds and
    completing it removes the directory and nothing else. *)
Theorem rmdir_phases i d s :
  m_files s !! i = Some (DirV d) -> isDir (DirV d) = true -> dir_empty d = true ->
  m_locked d = false -> m_id (d_base d) = i -> removable s i ->
  (forall fd e, m_fds s !! fd = Some e -> fd_id e = i -> fd_count_int e = 0) ->
  wp (r1 ← rmdir i RMDIR_TRY; r2 ← rmdir i RMDIR_TRY; r3 ← rmdir i RMDIR_FAIL; mret (r1, r2, r3))
    (fun r s1 => r = (OK, - EAGAIN, OK) /\ files_changed s s1 (m_files s) /\
       wp (r4 ← rmdir i RMDIR_TRY; r5 ← rmdir i RMDIR_SUCCESS; mret (r4, r5))
         (fun r s2 => r = (OK, OK) /\ files_changed s s2 (delete i (m_files s))) s1) s.
Proof.
  intros Hd Hdir He Hl Hid Hrem Hfd. set (dl := dir_with_lock true d).
  apply wp_bind. eapply wp_mono; [by apply (rmdir_try_wp i d)|]. cbv beta. rewrite Hl.
  intros ? s1 [-> [Hi1 Hf1 Hd1 Hp1 Hb1 Hm1]].
  assert (Hdl1 : m_files s1 !! i = Some (DirV dl)) by (by rewrite Hf1, lookup_insert_eq).
  apply wp_bind. eapply wp_mono; [by apply (rmdir_try_wp i dl)|]. simpl m_locked. cbv iota beta.
  intros ? s2 [-> [Hi2 Hf2 Hd2 Hp2 Hb2 Hm2]].
  apply wp_bind. eapply wp_mono; [by apply (rmdir_fail_wp i dl); [rewrite Hf2|..]|]. cbv beta.
  assert (Hback : dir_with_lock false dl = d) by (destruct d; by simpl in *; subst). rewrite Hback.
  intros ? s3 [-> [Hi3 Hf3 Hd3 Hp3 Hb3 Hm3]]. apply wp_ret. split; [done|].
  assert (Hs3 : m_files s3 = m_files s) by (rewrite Hf3, Hf2, Hf1, insert_insert_eq; by apply insert_id).
  split; [split; congruence|]. apply wp_bind.
  eapply wp_mono; [by apply (rmdir_try_wp i d); [rewrite Hs3|..]|]. cbv beta. rewrite Hl.
  intros ? s4 [-> [Hi4 Hf4 Hd4 Hp4 Hb4 Hm4]]. apply wp_bind.
  eapply wp_mono; [apply (rmdir_success_wp i dl); [by rewrite Hf4, lookup_insert_eq|done..| |]|].
  - unfold removable in *. congruence.
  - intros fd e He'. apply (Hfd fd). congruence.
  - cbv beta. intros ? s5 [-> [Hi5 Hf5 Hd5 Hp5 Hb5 Hm5]]. apply wp_ret. split; [done|].
    split; try congruence. by rewrite Hf5, Hf4, delete_insert_eq, Hs3.
Qed.

(** No phase of the removal changes any file, descriptor, pipe or byte when
    the directory has an entry other than [".."]. *)
Theorem rmdir_keeps_nonempty i d phase name l s :
  m_files s !! i = Some (DirV d) -> isDir (DirV d) = true ->
  (name, l) ∈ m_children d -> name <> ".." ->
  wp (rmdir i phase) (fun r s' => r = NOT_EMPTY /\ same_core s s') s.
Proof.
  intros Hd Hdir Hin Hn. apply (rmdir_nonempty_wp i d); try done.
  apply not_true_is_false. unfold dir_empty. rewrite forallb_forall. intros Hall.
  apply list_elem_of_In, Hall, String.eqb_eq in Hin. done.
Qed.
End Rmdir.

(** ** Demonstration *)

(** The lock of a removal in progress does not keep entries out, and is left
    behind when one arrives: after the first phase another client's entry is
    accepted, giving up then reports a non-empty directory without unlocking it,
    and once the entry is gone no removal can ever be started again. *)
Theorem rmdir_lock_left_behind :
  match (r1 ← @rmdir small_config plain_env 4 RMDIR_TRY;
         r2 ← @addmap small_config plain_env 88 (mkInode 0 4) "x" (mkInodeType 0 3 TYPE_FILE) false;
         r3 ← @rmdir small_config plain_env 4 RMDIR_FAIL;
         r4 ← @removemap small_config plain_env 88 4 "x";
         r5 ← @rmdir small_config plain_env 4 RMDIR_TRY;
         mret (r1, fst r2, r3, r4, r5)) (demo_state 6) with
  | Done r _ => r = (OK, OK, NOT_EMPTY, OK, - EAGAIN)
  | _ => False
  end.
Proof. vm_compute. reflexivity. Qed.

Lemma only_fd_of s i fd :
  forallb (fun kd => negb (fd_id (snd kd) =? i) || (fst kd =? fd)) (map_to_list (m_fds s)) = true ->
  forall fd' d', m_fds s !! fd' = Some d' -> fd_id d' = i -> fd' = fd.
Proof.
  rewrite forallb_forall. intros Hall fd' d' Hd Hi.
  apply elem_of_map_to_list, list_elem_of_In, Hall in Hd. simpl in Hd. rewrite Hi, Z.eqb_refl in Hd. by apply Z.eqb_eq.
Qed.

(** The state in which the descriptor of "a" is shared by three uses. *)
Definition dup_event (chan : Z) : FsMarshall.Event := FsMarshall.Message chan (FsMarshall.DupRequest 1010).
Definition shared_state : Server := demo_after (demo_after (demo_state 4) (dup_event 7)) (dup_event 8).

Lemma shared_reach : @reach small_config plain_env demo_start shared_state.
Proof.
  assert (Hs : forall s c x s', @reach small_config plain_env demo_start s ->
    @FsMarshall.event_run small_config plain_env (dup_event c) s = Done x s' -> @reach small_config plain_env demo_start s').
  { intros s c x s' Hr He. apply (reach_step _ s (dup_event c) x); [exact Hr|]. split; [apply Forall_nil_2|exact He]. }
  eapply (Hs _ 8); [eapply (Hs _ 7); [apply (demo_reach 4); lia|vm_compute; reflexivity]|vm_compute; reflexivity].
Qed.

(** Two uses are closed, the second with a new size, and then the last one. *)
Lemma unlink_open_then_close_witness :
  wp (@unlink small_config plain_env 2) (fun r s1 => r = OK /\
    wp (@close_each small_config plain_env 1010 [(-1, UINT64_MAX); (3, 5)]) (fun rs s2 =>
      wp (@close small_config plain_env 1010 (-1) UINT64_MAX) (fun r s3 => r = OK /\ m_files s3 !! 2 = None) s2) s1) shared_state.
Proof.
  eapply wp_mono.
  - apply (@unlink_open_then_close small_config small_config_ok plain_env plain_env_ok 0 4096 demo_start
      shared_state 2 (demo_file 4 2) 1010 (default (demo_fd 4 1010) (m_fds shared_state !! 1010))
      [(-1, UINT64_MAX); (3, 5)] (-1) UINT64_MAX demo_started).
    + exact shared_reach.
    + vm_compute. discriminate.
    + vm_compute. reflexivity.
    + discriminate.
    + vm_compute. reflexivity.
    + vm_compute. reflexivity.
    + vm_compute. reflexivity.
    + vm_compute. reflexivity.
    + apply only_fd_of. vm_compute. reflexivity.
  - cbv beta. intros r s1 (-> & _ & _ & _ & Hw). split; [done|]. eapply wp_mono; [exact Hw|].
    cbv beta. intros rs s2 (_ & _ & _ & Hw2). eapply wp_mono; [exact Hw2|]. cbv beta. intros r s3 (-> & ? & _). done.
Defined.

(** It is opened twice in the sixth. *)
Lemma unlinked_file_second_close_aborts_witness :
  wp (r1 ← @unlink small_config plain_env 2; r2 ← @close small_config plain_env 1010 (-1) UINT64_MAX;
      mret (r1, r2))
    (fun r s1 => r = (OK, OK) /\ @close small_config plain_env 1028 (-1) UINT64_MAX s1 = Abort)
    (demo_state 6).
Proof.
  eapply wp_mono.
  - apply (@unlinked_file_second_close_aborts small_config small_config_ok plain_env plain_env_ok 0 4096
      demo_start (demo_state 6) 2 (demo_file 6 2) 1010 (demo_fd 6 1010) 1028 (demo_fd 6 1028) (-1)
      UINT64_MAX demo_started (demo_reach 6 ltac:(lia))); vm_compute; done.
  - cbv beta. intros r s1 (-> & _ & _ & Ha). split; [done|]. apply Ha.
Defined.

Lemma dup_close_restores_witness :
  wp (r1 ← @dup small_config plain_env 1010; r2 ← @close small_config plain_env 1010 (-1) UINT64_MAX;
      mret (fst r1, r2))
    (fun r s' => r = (OK, OK) /\ m_fds s' = m_fds (demo_state 6)) (demo_state 6).
Proof.
  eapply wp_mono.
  - apply (@dup_close_restores small_config plain_env 1010 (demo_fd 6 1010)
      (FileV (demo_file 6 2)) (demo_state 6)); vm_compute; done.
  - cbv beta. intros r s' (-> & Hfds & _). by split.
Defined.

Definition demo_dir (k : nat) (i : Z) : Dir :=
  match m_files (demo_state k) !! i with Some (DirV d) => d | _ => mkDir tiny_base false false [] end.

Lemma no_fd_of s i :
  forallb (fun kd => negb (fd_id (snd kd) =? i)) (map_to_list (m_fds s)) = true ->
  forall fd e, m_fds s !! fd = Some e -> fd_id e <> i.
Proof.
  rewrite forallb_forall. intros Hall fd e He.
  apply elem_of_map_to_list, list_elem_of_In, Hall, negb_true_iff, Z.eqb_neq in He. done.
Qed.

Lemma rmdir_phases_witness :
  wp (r1 ← @rmdir small_config plain_env 4 RMDIR_TRY; r2 ← @rmdir small_config plain_env 4 RMDIR_TRY;
      r3 ← @rmdir small_config plain_env 4 RMDIR_FAIL; mret (r1, r2, r3))
    (fun r s1 => r = (OK, - EAGAIN, OK) /\ m_files s1 = m_files (demo_state 6)) (demo_state 6).
Proof.
  eapply wp_mono.
  - apply (@rmdir_phases small_config plain_env 4 (demo_dir 6 4) (demo_state 6)).
    1-5: vm_compute; reflexivity.
    + split; vm_compute; [done|]. by intros [].
    + intros fd e He Hi. by destruct (no_fd_of (demo_state 6) 4 ltac:(vm_compute; reflexivity) fd e He).
  - cbv beta. intros r s1 (-> & Hc & _). split; [done|apply Hc].
Defined.

Lemma rmdir_keeps_nonempty_witness :
  wp (@rmdir small_config plain_env 0 RMDIR_FORCE)
    (fun r s' => r = NOT_EMPTY /\ m_files s' = m_files (demo_state 6)) (demo_state 6).
Proof.
  eapply wp_mono.
  - apply (@rmdir_keeps_nonempty small_config plain_env 0 (demo_dir 6 0) RMDIR_FORCE "d"
      (mkVFileLoc 6272 (mkInodeType 0 4 TYPE_DIR)) (demo_state 6));
      [vm_compute; reflexivity..| |done].
    apply list_elem_of_In. vm_compute. by left.
  - cbv beta. intros r s' [-> Hc]. split; [done|apply Hc].
Defined.
