(* ===== verification/FsListing.v ===== *)
(** * Directory listings

    A directory is read in pieces: [direntry] returns the records from a
    position on that fit into the buffer.  The reference is the listing, the
    whole sequence of records, and [page], the longest prefix of a list of
    records that fits; [direntry] returns the page of the listing at the
    position, and says whether something is left. *)

From S2P Require Import Prelude FsTypes BufferCache FsFile FsNode FsServer FsServerInv FsServerOps FsReach FsServerSpec.

#[local] Arguments OP_COUNTER : simpl never.
#[local] Arguments dirent_reclen : simpl never.
#[local] Arguments Z.pow : simpl never.

(** ** The reference *)

Section Reference.
Context `{Config}.

Definition reclen (r : FauxDirent) : Z := dirent_reclen (d_name r).
Definition total (rs : list FauxDirent) : Z := foldr (fun r n => reclen r + n) 0 rs.

(** The record of the directory itself, and of the entry at position [pos]. *)
Definition dot_record (inode : Z) (d : Dir) : FauxDirent :=
  mkFauxDirent (dirent_ino inode) 1 (u16 (dirent_reclen ".")) (u8 (FileType_val (v_type (DirV d)))) ".".
Definition child_record (pos : Z) (nl : string * VFileLoc) : FauxDirent :=
  mkFauxDirent (dirent_ino (it_id (vfl_inode nl.2))) (pos + 1) (u16 (dirent_reclen nl.1))
    (default 0 (dirent_type nl.2)) nl.1.

Fixpoint child_records (pos : Z) (c : ChildMap) : list FauxDirent :=
  match c with [] => [] | nl :: c' => child_record pos nl :: child_records (pos + 1) c' end.

(** A virtual directory, the part of a distributed one, does not list itself. *)
Definition listing (inode : Z) (d : Dir) : list FauxDirent :=
  if m_vdir d then child_records 0 (m_children d)
  else dot_record inode d :: child_records 1 (m_children d).

Fixpoint page (size : Z) (rs : list FauxDirent) : list FauxDirent :=
  match rs with
  | [] => []
  | r :: rs' => if reclen r <=? size then r :: page (size - reclen r) rs' else []
  end.

(** Entries that can be listed: names whose record length fits its member, and
    types that have a code. *)
Definition listable (nl : string * VFileLoc) : Prop :=
  Z.of_nat (String.length nl.1) < 2 ^ 15 /\ is_Some (dirent_type nl.2).

Definition listableb (nl : string * VFileLoc) : bool :=
  (Z.of_nat (String.length nl.1) <? 2 ^ 15) && match dirent_type nl.2 with Some _ => true | None => false end.

Lemma Forall_listable c : forallb listableb c = true -> Forall listable c.
Proof.
  rewrite forallb_forall, Forall_forall. intros Hc nl Hin.
  apply list_elem_of_In, Hc, andb_prop in Hin as [Hn Ht]. split; [by apply Z.ltb_lt|].
  by destruct (dirent_type nl.2).
Qed.

Lemma dirent_reclen_div name :
  Z.of_nat (String.length name) < 2 ^ 15 ->
  dirent_reclen name = (Z.of_nat (String.length name) + 27) / 8 * 8.
Proof.
  intros Hn. unfold dirent_reclen. rewrite <- Z.ldiff_land. change 7 with (Z.ones 3) at 2.
  rewrite Z.ldiff_ones_r, Z.shiftl_mul_pow2, Z.shiftr_div_pow2 by lia. change (2 ^ 3) with 8.
  replace (19 + Z.of_nat (String.length name) + 1 + 7) with (Z.of_nat (String.length name) + 27) by lia.
  apply u32_small. pose proof (Z.div_pos (Z.of_nat (String.length name) + 27) 8).
  pose proof (Z.mul_div_le (Z.of_nat (String.length name) + 27) 8). lia.
Qed.

Lemma dirent_reclen_bounds name :
  Z.of_nat (String.length name) < 2 ^ 15 -> 24 <= dirent_reclen name < 2 ^ 15 + 27.
Proof.
  intros Hn. rewrite dirent_reclen_div by done.
  pose proof (Z.mul_div_le (Z.of_nat (String.length name) + 27) 8).
  pose proof (Z.div_le_mono 27 (Z.of_nat (String.length name) + 27) 8).
  change (27 / 8) with 3 in *. lia.
Qed.

Lemma page_prefix size rs : page size rs `prefix_of` rs.
Proof.
  revert size. induction rs as [|r rs IH]; intros size; simpl; [done|].
  case_match; [by apply prefix_cons|]. apply prefix_nil.
Qed.

(** The page fits, and the next record would not. *)
Lemma page_fits size rs : 0 <= size -> total (page size rs) <= size.
Proof.
  revert size. induction rs as [|r rs IH]; intros size Hs; simpl; [done|].
  case_match eqn:Hr; simpl; [|done]. apply Z.leb_le in Hr. specialize (IH (size - reclen r)). lia.
Qed.

Lemma page_maximal size rs left r :
  rs = page size rs ++ left -> head left = Some r -> size < total (page size rs) + reclen r.
Proof.
  revert size. induction rs as [|r' rs IH]; intros size; simpl; [by intros <-|].
  destruct (Z.leb_spec (reclen r') size) as [Hle|Hgt]; simpl.
  - intros [= Heq] Hr. specialize (IH _ Heq Hr). lia.
  - intros <-. simpl. intros [= <-]. lia.
Qed.

Lemma total_app l k : total (l ++ k) = total l + total k.
Proof. unfold total. induction l as [|r l IH]; simpl; lia. Qed.
End Reference.

(** ** The operation *)

Section Operation.
Context `{ConfigOk} `{EnvOk}.

(** The loop from the child at position [i] on, for a request that starts at
    [offset]. *)
Lemma direntry_loop_wp appId size c i offset written out s :
  Forall listable c -> i <= offset -> 0 <= written <= size -> size < 2 ^ 31 ->
  wp (direntry_loop appId size i offset written out c) (fun r s' =>
    let rest := drop (Z.to_nat (offset - i)) (child_records i c) in
    let rs := page (size - written) rest in
    r = (out ++ rs, written + total rs, (length rs <? length rest)%nat) /\ same_core s s') s.
Proof.
  revert i offset written out s.
  induction c as [|[name l] c IH]; intros i offset written out s Hl Hi Hw Hs; cbn [direntry_loop child_records].
  { apply wp_ret. cbv zeta. rewrite drop_nil. simpl. by rewrite app_nil_r, Z.add_0_r. }
  apply Forall_cons in Hl as [[Hn [ty Hty]] Hl]. simpl in Hn, Hty.
  destruct (Z.leb_spec offset i) as [Hle|Hgt].
  2: { eapply wp_mono; [apply (IH (i + 1) offset written out s); auto; lia|]. cbv zeta beta.
       by replace (Z.to_nat (offset - i)) with (S (Z.to_nat (offset - (i + 1)))) by lia. }
  assert (offset = i) as -> by lia. rewrite Z.sub_diag. change (Z.to_nat 0) with 0%nat. rewrite drop_0.
  cbv zeta. cbn [page]. change (reclen (child_record i (name, l))) with (dirent_reclen name).
  pose proof (dirent_reclen_bounds name Hn). rewrite u32_small by lia.
  destruct (Z.leb_spec (dirent_reclen name) (size - written)) as [Hf|Hf].
  - rewrite (proj2 (Z.ltb_ge _ _)) by lia. rewrite Hty. apply wp_bind, wp_ret, wp_bind.
    apply (wp_mono _ (fun _ s' => same_core s s')).
    { case_match; [unfold appAddCache; by apply wp_modify|by apply wp_ret]. }
    intros [] s1 Hc1. eapply wp_mono; [apply (IH (i + 1) (i + 1)); auto; lia|]. cbv zeta beta.
    rewrite Z.sub_diag. change (Z.to_nat 0) with 0%nat. rewrite drop_0.
    replace (size - (written + dirent_reclen name)) with (size - written - dirent_reclen name) by lia.
    set (rs := page _ _). intros r s2 [-> Hc2]. split; [|by etrans].
    replace (mkFauxDirent _ _ _ _ _) with (child_record i (name, l))
      by (unfold child_record; simpl; by rewrite Hty).
    rewrite <- (assoc_L (++)). simpl.
    change (reclen (child_record i (name, l))) with (dirent_reclen name).
    by rewrite Z.add_assoc.
  - rewrite (proj2 (Z.ltb_lt _ _)) by lia. apply wp_ret. simpl. by rewrite app_nil_r, Z.add_0_r.
Qed.

(** What one call returns, for the records [rest] that are left. *)
Definition page_reply (size : Z) (rest : list FauxDirent) : Z * list FauxDirent * Z * bool :=
  let rs := page size rest in
  (match rs with [] => -1 | _ => Z.of_nat (length rs) end, rs, total rs, (length rs <? length rest)%nat).

Lemma total_pos rs :
  Forall (fun r => 0 < reclen r) rs -> (total rs =? 0) = match rs with [] => true | _ => false end.
Proof.
  intros Hp. destruct Hp as [|r rs Hr Hp]; [done|]. simpl. apply Z.eqb_neq.
  assert (0 <= total rs); [|lia]. unfold total. induction Hp; simpl in *; lia.
Qed.

Lemma child_records_pos c pos :
  Forall listable c -> Forall (fun r => 0 < reclen r) (child_records pos c).
Proof.
  intros Hl. revert pos. induction Hl as [|[n l] c [Hn _] Hl IH]; intros pos; simpl; constructor; auto.
  unfold reclen. simpl. pose proof (dirent_reclen_bounds n Hn). lia.
Qed.

Lemma listing_pos inode d :
  Forall listable (m_children d) -> Forall (fun r => 0 < reclen r) (listing inode d).
Proof.
  intros Hl. unfold listing. case_match; [|constructor; [by vm_compute|]]; by apply child_records_pos.
Qed.

Lemma page_ret size rest :
  Forall (fun r => 0 < reclen r) rest ->
  (if total (page size rest) =? 0 then -1 else Z.of_nat (length (page size rest))) =
    match page size rest with [] => -1 | _ => Z.of_nat (length (page size rest)) end.
Proof.
  intros Hp. rewrite total_pos; [by destruct (page size rest)|].
  destruct (page_prefix size rest) as [k Hk]. rewrite Hk in Hp. by apply Forall_app in Hp as [? _].
Qed.

Lemma direntry_wp appId inode offset size d s :
  m_files s !! inode = Some (DirV d) -> isDir (DirV d) = true -> Forall listable (m_children d) ->
  0 <= offset -> 24 <= size < 2 ^ 31 ->
  wp (direntry appId inode offset size) (fun r s' =>
    r = page_reply size (drop (Z.to_nat offset) (listing inode d)) /\ same_core s s') s.
Proof.
  intros Hd Hdir Hl Ho Hs. unfold direntry. apply wp_OP_COUNTER. intros s1 [Hc1 _ _].
  unfold find_file. apply wp_bind, wp_gets. rewrite (sc_files _ _ Hc1), Hd.
  apply wp_bind, wp_assert; [done|]. apply wp_bind, wp_ret.
  pose proof (listing_pos inode d Hl) as Hpos.
  assert (Hpos' : Forall (fun r => 0 < reclen r) (drop (Z.to_nat offset) (listing inode d)))
    by (by apply Forall_drop).
  unfold page_reply. rewrite <- page_ret by done. unfold listing in *.
  destruct (m_vdir d); [|destruct (Z.eqb_spec offset 0) as [->|Hne]]; apply wp_bind.
  - apply wp_ret, wp_bind. eapply wp_mono; [apply direntry_loop_wp; auto; lia|]. cbv zeta beta.
    rewrite !Z.sub_0_r. simpl app. rewrite Z.add_0_l. intros ? s2 [-> Hc2]. apply wp_ret.
    intros s3 [Hc3 _ _]. split; [done|]. by do 2 (etrans; [eassumption|]).
  - change (dirent_reclen ".") with 24. apply wp_bind, wp_assert; [lia|]. apply wp_ret, wp_bind.
    eapply wp_mono; [apply direntry_loop_wp; auto; lia|]. cbv zeta beta. simpl drop. cbn [page].
    change (reclen (dot_record inode d)) with 24. rewrite (proj2 (Z.leb_le 24 size)) by lia.
    set (rs := page (size - 24) _). intros ? s2 [-> Hc2]. apply wp_ret. intros s3 [Hc3 _ _].
    split; [|by do 2 (etrans; [eassumption|])]. simpl total.
    change (reclen (dot_record inode d)) with 24. change (dirent_reclen ".") with 24.
    replace (length (dot_record inode d :: rs)) with (S (length rs)) by done. done.
  - apply wp_ret, wp_bind. eapply wp_mono; [apply direntry_loop_wp; auto; lia|]. cbv zeta beta.
    replace (Z.to_nat offset) with (S (Z.to_nat (offset - 1))) by lia. simpl drop.
    rewrite Z.sub_0_r. simpl app. rewrite Z.add_0_l. intros ? s2 [-> Hc2]. apply wp_ret.
    intros s3 [Hc3 _ _]. split; [done|]. by do 2 (etrans; [eassumption|]).
Qed.

(** C20: [direntry] returns exactly the page of the listing at the requested
    position: the longest run of records from there on that fits the buffer, its
    number and its size, and whether records are left; it changes nothing but the
    caching applications.  The records are those of the directory itself (unless
    it is virtual) and of its entries, in the table's order, each with its
    position, its inode and the code of its type. *)
Theorem direntry_page appId inode offset size d s :
  m_files s !! inode = Some (DirV d) -> isDir (DirV d) = true -> Forall listable (m_children d) ->
  0 <= offset -> 24 <= size < 2 ^ 31 ->
  wp (direntry appId inode offset size) (fun r s' =>
    let rest := drop (Z.to_nat offset) (listing inode d) in
    exists rs left, rest = rs ++ left /\
      r = (match rs with [] => -1 | _ => Z.of_nat (length rs) end, rs, total rs,
           match left with [] => false | _ => true end) /\
      total rs <= size /\ (forall r, head left = Some r -> size < total rs + reclen r) /\
      same_core s s') s.
Proof.
  intros Hd Hdir Hl Ho Hs. eapply wp_mono; [by apply direntry_wp|]. cbv zeta beta.
  set (rest := drop _ _). intros r s' [-> Hc]. destruct (page_prefix size rest) as [left Hleft].
  exists (page size rest), left. split; [done|]. split.
  { unfold page_reply. f_equal. rewrite Hleft at 2. rewrite length_app.
    destruct left; simpl; [apply Nat.ltb_ge|apply Nat.ltb_lt]; lia. }
  split; [apply page_fits; lia|]. split; [|done]. intros r Hr.
  by apply (page_maximal size rest left r).
Qed.
End Operation.

(** The root of the demonstration, whose four records take 96 bytes, read with a
    buffer of 60: two of them. *)
Lemma direntry_page_witness :
  wp (@direntry small_config plain_env 77 0 1 60) (fun r _ =>
    exists rs more, r = (match rs with [] => -1 | _ => Z.of_nat (length rs) end, rs, total rs, more) /\
      total rs <= 60) (demo_state 6).
Proof.
  eapply wp_mono.
  - apply (@direntry_page small_config plain_env 77 0 1 60
      (match m_files (demo_state 6) !! 0 with Some (DirV d) => d | _ => mkDir tiny_base true false [] end)
      (demo_state 6)); [vm_compute; reflexivity..| |lia|lia].
    apply Forall_listable. vm_compute. reflexivity.
  - cbv zeta beta. intros r s' (rs & left & _ & -> & Hle & _). by eexists rs, _.
Defined.
