(* ===== verification/FsDirCache.v ===== *)
(** * The client's cache of directory entries

    [DirCache] of [sys/fs/lib/dir_cache.hpp] and [sys/fs/lib/dir_cache.cpp]: an
    ordered map from a directory's inode number and a name to an inode.  The
    lookups that go to a server are with the rest of the client, in
    [FsClient.v]. *)

From S2P Require Import Prelude FsTypes.

(** ** The map *)

(** [PathPair]: the first [len] characters of [str] are the name. *)
Record PathPair : Type := mkPathPair { pp_id : Z; pp_str : string }.

#[export] Instance PathPair_eq_dec : EqDecision PathPair.
Proof. solve_decision. Defined.

(** [operator<]: by number, then by length, then by [strncmp]. *)
Definition PathPair_lt (a b : PathPair) : bool :=
  if negb (pp_id a =? pp_id b) then pp_id a <? pp_id b
  else
    let la := String.length (pp_str a) in
    let lb := String.length (pp_str b) in
    if negb (la =? lb)%nat then (la <? lb)%nat
    else match String.compare (pp_str a) (pp_str b) with Lt => true | _ => false end.

(** [std::map<PathPair, InodeType>] in its order. *)
Definition DirCache : Type := list (PathPair * InodeType).

(** [m_cache.find] *)
Fixpoint dc_find (k : PathPair) (c : DirCache) : option InodeType :=
  match c with
  | [] => None
  | (k', v) :: c' => if bool_decide (k' = k) then Some v else dc_find k c'
  end.

(** [m_cache.insert] at a key that is not there. *)
Fixpoint dc_insert (k : PathPair) (v : InodeType) (c : DirCache) : DirCache :=
  match c with
  | [] => [(k, v)]
  | (k', v') :: c' => if PathPair_lt k k' then (k, v) :: (k', v') :: c' else (k', v') :: dc_insert k v c'
  end.

(** ** The methods *)

(** [add]: [insert] does nothing when the key is there. *)
Definition dc_add (parent : InodeType) (path : string) (child : InodeType) (c : DirCache) : DirCache :=
  let needle := mkPathPair (it_id parent) path in
  match dc_find needle c with
  | Some _ => c
  | None => dc_insert needle child c
  end.

Fixpoint dc_erase (k : PathPair) (c : DirCache) : DirCache :=
  match c with
  | [] => []
  | (k', v) :: c' => if bool_decide (k' = k) then c' else (k', v) :: dc_erase k c'
  end.

Definition dc_remove (parent : InodeType) (path : string) (c : DirCache) : DirCache :=
  dc_erase (mkPathPair (it_id parent) path) c.

(** [remove_dest]: the first entry that leads to the inode. *)
Fixpoint dc_remove_dest (child : Inode) (c : DirCache) : DirCache :=
  match c with
  | [] => []
  | (k, v) :: c' =>
      if (it_id v =? in_id child) && (it_server v =? in_server child) then c'
      else (k, v) :: dc_remove_dest child c'
  end.

Definition dc_clear : DirCache := [].

(** ** Laws *)

Lemma dc_find_None k c : dc_find k c = None <-> k ∉ c.*1.
Proof.
  induction c as [|[k' v] c IH]; cbn [dc_find]; [set_solver|].
  rewrite fmap_cons, not_elem_of_cons, <- IH. case_bool_decide; naive_solver.
Qed.

Lemma dc_find_insert k v c k' :
  dc_find k c = None ->
  dc_find k' (dc_insert k v c) = if decide (k' = k) then Some v else dc_find k' c.
Proof.
  induction c as [|[k0 v0] c IH]; cbn [dc_find dc_insert].
  - intros _. cbn [dc_find]. case_bool_decide; case_decide; naive_solver.
  - case_bool_decide as Hk; [done|]. intros Hn.
    destruct (PathPair_lt k k0); cbn [dc_find]; [|rewrite IH by done];
      repeat (case_bool_decide || case_decide); naive_solver.
Qed.

Lemma dc_insert_keys k v c : (dc_insert k v c).*1 ≡ₚ k :: c.*1.
Proof.
  induction c as [|[k0 v0] c IH]; [done|]. cbn [dc_insert].
  destruct (PathPair_lt k k0); [done|]. rewrite !fmap_cons, IH. apply perm_swap.
Qed.

Lemma dc_find_erase k c k' :
  NoDup c.*1 -> dc_find k' (dc_erase k c) = if decide (k' = k) then None else dc_find k' c.
Proof.
  induction c as [|[k0 v0] c IH]; cbn [dc_find dc_erase]; [by case_decide|].
  rewrite fmap_cons, NoDup_cons. intros [Hk Hnd]. case_bool_decide as Hk0; subst.
  - case_decide; subst; [by apply dc_find_None|]. by rewrite bool_decide_eq_false_2.
  - cbn [dc_find]. rewrite IH by done. repeat (case_bool_decide || case_decide); naive_solver.
Qed.

Lemma dc_erase_keys k c : (dc_erase k c).*1 `sublist_of` c.*1.
Proof.
  induction c as [|[k0 v0] c IH]; [done|]. cbn [dc_erase]. case_bool_decide; cbn.
  - by apply sublist_cons.
  - by apply sublist_skip.
Qed.

Lemma dc_remove_dest_keys i c : (dc_remove_dest i c).*1 `sublist_of` c.*1.
Proof.
  induction c as [|[k0 v0] c IH]; [done|]. cbn [dc_remove_dest]. case_match; cbn.
  - by apply sublist_cons.
  - by apply sublist_skip.
Qed.

Lemma dc_remove_dest_find i c k v :
  NoDup c.*1 -> dc_find k (dc_remove_dest i c) = Some v -> dc_find k c = Some v.
Proof.
  induction c as [|[k0 v0] c IH]; cbn [dc_find dc_remove_dest]; [done|].
  rewrite fmap_cons, NoDup_cons. intros [Hk Hnd]. case_match; cbn [dc_find].
  - intros Hf. case_bool_decide; subst; [|done]. apply dc_find_None in Hk. simpl in Hk. by rewrite Hk in Hf.
  - case_bool_decide; [done|]. by apply IH.
Qed.

(** The map has no key twice. *)
Definition dc_ok (c : DirCache) : Prop := NoDup c.*1.

Lemma dc_add_ok parent path child c : dc_ok c -> dc_ok (dc_add parent path child c).
Proof.
  unfold dc_ok, dc_add. intros Hok. case_match eqn:Hf; [done|]. rewrite dc_insert_keys.
  constructor; [by apply dc_find_None|done].
Qed.

Lemma dc_remove_ok parent path c : dc_ok c -> dc_ok (dc_remove parent path c).
Proof. intros Hok. eapply sublist_NoDup; [exact Hok|apply dc_erase_keys]. Qed.

Lemma dc_remove_dest_ok i c : dc_ok c -> dc_ok (dc_remove_dest i c).
Proof. intros Hok. eapply sublist_NoDup; [exact Hok|apply dc_remove_dest_keys]. Qed.

(** What [add] does to a lookup: a binding that is there stays. *)
Lemma dc_find_add parent path child c k :
  dc_find k (dc_add parent path child c) =
    match dc_find k c with
    | Some v => Some v
    | None => if decide (k = mkPathPair (it_id parent) path) then Some child else None
    end.
Proof.
  unfold dc_add. destruct (dc_find (mkPathPair _ _) c) eqn:Hf.
  - destruct (dc_find k c) eqn:Hk; [done|]. case_decide; congruence.
  - rewrite dc_find_insert by done. repeat case_decide; subst; [by rewrite Hf|]. by destruct (dc_find k c).
Qed.
