(* ===== verification/FsClient.v ===== *)
(** * The client library

    [sys/fs/lib/lib.cpp]: the calls an application makes are turned into
    requests to the servers.  A request is answered before the call goes on, so a
    client is a sequential program over the servers' states; other clients are
    other programs over the same states.  [chan] is the address the servers know
    the client by.

    Notifications that entries were removed wait in the servers' states until
    they are delivered: those of the server that is being asked arrive before its
    answer; those of another server may, as [early] tells, or else at the next
    [dispatchCheckNotifications].  Creation affinity and the direct access to the
    buffer cache are switched off, as in [Config.in]. *)

From S2P Require Import Prelude FsTypes BufferCache FsFile FsNode FsServer FsMarshall FsDirCache.

(** ** C strings *)

Definition sdrop (n : nat) (s : string) : string := String.substring n (String.length s - n) s.
Definition stake (n : nat) (s : string) : string := String.substring 0 n s.

Definition sep : Ascii.ascii := Ascii.ascii_of_nat 47.  (* / *)
Definition dot : Ascii.ascii := Ascii.ascii_of_nat 46.  (* . *)

(** [strchr(s, '/')] and [strrchr(s, '/')], as indices. *)
Fixpoint strchr (s : string) : option nat :=
  match s with
  | EmptyString => None
  | String c s' => if Ascii.eqb c sep then Some 0%nat else S <$> strchr s'
  end.
Fixpoint strrchr (s : string) : option nat :=
  match s with
  | EmptyString => None
  | String c s' =>
      match strrchr s' with
      | Some k => Some (S k)
      | None => if Ascii.eqb c sep then Some 0%nat else None
      end
  end.

Definition starts_with (c : Ascii.ascii) (s : string) : bool :=
  match s with String c' _ => Ascii.eqb c' c | EmptyString => false end.
Definition ends_with_sep (s : string) : bool :=
  match String.get (String.length s - 1) s with Some c => Ascii.eqb c sep | None => false end.

(** ** State *)

Record World : Type := mkWorld {
  w_servers : list Server;
  w_caches : gmap Z DirCache;
  w_tick : nat
}.

Definition set_servers (x : list Server) (w : World) : World := mkWorld x (w_caches w) (w_tick w).
Definition set_caches (x : gmap Z DirCache) (w : World) : World := mkWorld (w_servers w) x (w_tick w).
Definition set_wtick (x : nat) (w : World) : World := mkWorld (w_servers w) (w_caches w) x.

Section Client.
Context `{Config} `{Env}.
Variable early : nat -> nat -> bool.
Variable chan : Z.

Definition w_use : M World nat := zoom w_tick set_wtick tick.
Definition get_cache : M World DirCache := gets (fun w => default dc_clear (w_caches w !! chan)).
Definition mod_cache (f : DirCache -> DirCache) : M World unit :=
  modify (fun w => set_caches (<[chan := f (default dc_clear (w_caches w !! chan))]> (w_caches w)) w).

(** [fosNotifications], for each notification in [notes]. *)
Definition fosNotifications (notes : list Inode) : M World unit :=
  mod_cache (fun c => foldl (fun c i => dc_remove_dest i c) c notes).

(** The notifications of this client at the servers [which] selects. *)
Definition notes_for (s : Server) : list Inode := (filter (fun n => fst n = chan) (s_notes s)).*2.
Definition drop_notes (s : Server) : Server := set_notes (filter (fun n => fst n <> chan) (s_notes s)) s.
Definition deliver (which : nat -> bool) : M World unit :=
  ss ← gets w_servers;
  modify (set_servers (imap (fun j s => if which j then drop_notes s else s) ss));;
  fosNotifications (concat (imap (fun j s => if which j then notes_for s else []) ss)).

Definition dispatchCheckNotifications : M World unit := deliver (fun _ => true).

(** A request to a server and its answer. *)
Definition rpc (server : Z) (r : Request) : M World Reply :=
  t ← w_use;
  if server <? 0 then undef
  else
    o ← gets (fun w => w_servers w !! Z.to_nat server);
    match o with
    | None => abort
    | Some s =>
        match handle chan r s with
        | Done x s' =>
            modify (fun w => set_servers (<[Z.to_nat server := s']> (w_servers w)) w);;
            deliver (fun j => (j =? Z.to_nat server)%nat || early t j);;
            mret x
        | Abort => abort
        | Undef => undef
        | Timeout => timeout
        end
    end.

(** Replies of another kind fail the assertions on their size. *)
Definition status_rpc (server : Z) (r : Request) : M World Z :=
  x ← rpc server r; match x with StatusReply rv => mret rv | _ => abort end.
Definition inode_rpc (server : Z) (r : Request) : M World (Z * option InodeType) :=
  x ← rpc server r; match x with StatusInodeTypeReply rv i => mret (rv, i) | _ => abort end.

(** ** Requests *)

(** The root exists; [*exist] is not set for it. *)
Definition fosCreate (server : Z) (parent : InodeType) (path : string) (flags mode : Z)
  : M World (Z * option InodeType) :=
  if (it_id parent =? ROOT_INO) && (path =? "/")%string then mret (OK, None)
  else inode_rpc server (CreateRequest parent flags mode path).

Definition fosDestroy (server id : Z) : M World Z := status_rpc server (DestroyRequest id).

Definition fosAddMap (server : Z) (parent : InodeType) (path : string) (child : InodeType)
    (overwrite : bool) : M World (Z * option InodeType) :=
  r ← inode_rpc server (AddMapRequest (InodeOnly parent) child overwrite path);
  (if ENABLE_DIRECTORY_CACHE && ((fst r =? OK) || overwrite)
   then mod_cache (dc_add parent path child) else mret tt);;
  mret r.

Definition fosUpdateMap (server : Z) (parent : InodeType) (path : string) (child : InodeType)
    (overwrite : bool) (old_parent : InodeType) (old_path : string) : M World (Z * option InodeType) :=
  r ← inode_rpc server (UpdateMapRequest (InodeOnly parent) child overwrite old_parent path old_path);
  (if ENABLE_DIRECTORY_CACHE && ((fst r =? OK) || overwrite)
   then mod_cache (dc_add parent path child) else mret tt);;
  mret r.

Definition fosRemoveMap (server : Z) (parent : InodeType) (path : string) : M World Z :=
  status_rpc server (RemoveMapRequest (it_id parent) path).

(** What an [OPEN] answers. *)
Definition OpenInfo : Type := (Z * option Z * option FileType * option Z * option Z * option InodeType)%type.
Definition open_rpc (server : Z) (r : Request) : M World OpenInfo :=
  x ← rpc server r;
  match x with OpenReply rv fd type size state found => mret (rv, fd, type, size, state, found) | _ => abort end.
Definition _fosOpen (inode : InodeType) (flags : Z) : M World OpenInfo :=
  open_rpc (it_server inode) (OpenRequest flags (it_id inode)).
Definition _fosCreateOpen (server : Z) (parent : InodeType) (path : string) (flags mode : Z)
  : M World OpenInfo :=
  open_rpc server (CreateOpenRequest flags (InodeOnly parent) mode path).

(** ** Lookups *)

Definition with_server (server : Z) (i : InodeType) : InodeType := mkInodeType server (it_id i) (it_type i).
Definition with_type (t : FileType) (i : InodeType) : InodeType := mkInodeType (it_server i) (it_id i) t.
Definition root_dir : InodeType := mkInodeType 0 0 TYPE_DIR.

(** A failed assertion where the inode is no directory. *)
Definition path_owner (inode : InodeType) (path : string) : M World Z :=
  match fosPathOwner inode path with Some o => mret o | None => abort end.
Definition path_ownern (inode : InodeType) (path : string) : M World Z :=
  match fosPathOwnern inode path with Some o => mret o | None => abort end.

(** [_fosResolve]: the first [pathlen] characters of [path]. *)
Definition _fosResolve (parent : InodeType) (path : string) (pathlen : nat)
  : M World (Z * option InodeType) :=
  if (it_id parent =? 0) && ((pathlen =? 0)%nat || (path =? "")%string) then mret (OK, Some root_dir)
  else if (pathlen =? 1)%nat && starts_with dot path then mret (OK, Some (with_type TYPE_DIR parent))
  else
    x ← rpc (it_server parent) (ResolveRequest (it_id parent) (stake pathlen path));
    match x with
    | ResolveReply rv child _ => mret (rv, if rv =? OK then child else None)
    | _ => abort
    end.

(** [DirCache::resolve]: status, [*child] if it is set, and whether the cache
    had it. *)
Definition dc_resolve (parent : InodeType) (path : string) (pathlen : nat)
  : M World (Z * option InodeType * bool) :=
  if (pathlen =? 1)%nat && starts_with dot path then mret (OK, Some parent, false)
  else if (path =? "")%string then mret (OK, Some parent, false)
  else
    c ← get_cache;
    match (if ENABLE_DIRECTORY_CACHE then dc_find (mkPathPair (it_id parent) (stake pathlen path)) c
           else None) with
    | Some child => mret (OK, Some child, true)
    | None =>
        server ← path_ownern parent (stake pathlen path);
        let parent := with_server server parent in
        r ← _fosResolve parent path pathlen;
        match r with
        | (rv, Some child) =>
            (if ENABLE_DIRECTORY_CACHE && (rv =? OK)
             then mod_cache (dc_add parent (stake pathlen path) child) else mret tt);;
            mret (rv, Some child, false)
        | (rv, None) =>
            if ENABLE_DIRECTORY_CACHE && (rv =? OK) then undef else mret (rv, None, false)
        end
    end.

(** The loop of [_fosResolvePieces] over the separators that lie before
    [start_pathlen]; [consumed] is [*path - start_path].  Every pass shortens
    the path, so its length is enough fuel. *)
Fixpoint pieces_loop (fuel start_pathlen consumed : nat) (result : InodeType) (path : string)
    (pathlen : nat) (cached : bool) : M World (Z * InodeType * string * nat * bool) :=
  match fuel with
  | O => timeout
  | S fuel' =>
      match strchr path with
      | None => mret (OK, result, path, pathlen, cached)
      | Some k =>
          if (start_pathlen <=? consumed + k)%nat then mret (OK, result, path, pathlen, cached)
          else
            r ← dc_resolve result path k;
            let '(rv, child, hit) := r in
            let result' := default result child in
            if rv =? OK
            then pieces_loop fuel' start_pathlen (consumed + (k + 1)) result' (sdrop (k + 1) path)
                   (pathlen - (k + 1)) (cached || hit)
            else mret (rv, result', sdrop (k + 1) path, (pathlen - (k + 1))%nat, cached || hit)
      end
  end.

Definition _fosResolvePieces (parent : InodeType) (path : string) (pathlen : nat)
  : M World (Z * InodeType * bool) :=
  r ← pieces_loop (S (String.length path)) pathlen 0 parent path pathlen false;
  let '(rv, result, path, pathlen, cached) := r in
  if negb (rv =? OK) then mret (rv, result, cached)
  else
    r ← dc_resolve result path pathlen;
    let '(rv, child, hit) := r in
    mret (rv, default result child, cached || hit).

(** An absolute path starts at inode 0; the server member is left alone. *)
Definition start_of (parent : InodeType) (path : string) : InodeType :=
  if starts_with sep path then mkInodeType (it_server parent) 0 TYPE_DIR else parent.

(** The trailing separator is overwritten with the character [0] during the
    search for the last one. *)
Definition hide_last_sep (path : string) : string :=
  if (1 <? String.length path)%nat && ends_with_sep path
  then stake (String.length path - 1) path +:+ "0" else path.

(** [fosLookupParent]: status, parent, the last component of the path, and
    whether the cache was used. *)
Definition fosLookupParent (parent : InodeType) (path : string)
  : M World (Z * InodeType * string * bool) :=
  dispatchCheckNotifications;;
  if (path =? "")%string then mret (OK, parent, path, false)
  else
    let parent := start_of parent path in
    let hidden := hide_last_sep path in
    r ← (match strrchr hidden with
         | Some k =>
             r ← _fosResolvePieces parent hidden k;
             let '(rv, result, cached) := r in
             mret (rv, result, sdrop (k + 1) path, cached)
         | None => mret (OK, parent, path, false)
         end);
    let '(rv, result, path', cached) := r in
    match it_type result with
    | TYPE_DIR_SHARED | TYPE_DIR => mret (rv, result, path', cached)
    | _ => mret (- INVALID, result, path', cached)
    end.

Definition fosLookup (parent : InodeType) (path : string) : M World (Z * InodeType * bool) :=
  dispatchCheckNotifications;;
  _fosResolvePieces (start_of parent path) path (String.length path).

(** [_fosClearCache]: the entries along a path are forgotten.  An inode that
    could not be looked up leaves [child] uninitialised; a path without a
    component makes the code write outside of it. *)
Fixpoint clear_loop (fuel start_pathlen consumed : nat) (parent : InodeType) (path : string)
    (pathlen : nat) : M World unit :=
  match fuel with
  | O => timeout
  | S fuel' =>
      let last := mod_cache (dc_remove parent (stake pathlen path)) in
      match strchr path with
      | None => last
      | Some k =>
          if (start_pathlen <=? consumed + k)%nat then last
          else
            r ← dc_resolve parent path k;
            let '(rv, child, _) := r in
            mod_cache (dc_remove parent (stake k path));;
            parent' ← deref child;
            let path' := sdrop (k + 1) path in
            let pathlen' := (pathlen - (k + 1))%nat in
            if rv =? OK
            then clear_loop fuel' start_pathlen (consumed + (k + 1)) parent' path' pathlen'
            else mod_cache (dc_remove parent' (stake pathlen' path'))
      end
  end.

Definition _fosClearCache (parent : InodeType) (path : string) : M World unit :=
  if ENABLE_DIRECTORY_CACHE
  then
    let parent := start_of parent path in
    let path := if starts_with sep path then sdrop 1 path else path in
    if (path =? "")%string then undef
    else
      let path := if ends_with_sep path then stake (String.length path - 1) path else path in
      clear_loop (S (String.length path)) (String.length path) 0 parent path (String.length path)
  else mret tt.

(** ** Opening and creating *)

(** The object an open call makes: a file with its size, cache state and
    offset, or a directory. *)
Inductive Opened : Type :=
| OpenedFile (inode : InodeType) (fd size state offset : Z)
| OpenedDir (inode : InodeType) (fd : Z).

(** The part after [retry:], which is entered a second time at most. *)
Fixpoint open_retry (tries : nat) (save_parent : InodeType) (save_path : string)
    (retval : Z) (parent : InodeType) (path : string) (inode : InodeType) (flags mode : Z) (cached : bool)
  : M World (Z * option Opened) :=
  match tries with
  | O => timeout
  | S tries' =>
      assert_ (negb ((it_id parent =? ROOT_INO) && (path =? "/")%string));;
      if negb (retval =? OK) then mret (retval, None)
      else
        r ← (if has_flag flags O_CREAT
             then
               r ← _fosCreateOpen (it_server inode) parent path flags mode;
               let '(rv, _, _, _, _, found) := r in
               if rv =? EXIST
               then
                 if has_flag flags O_EXCL then mret (inl rv)
                 else
                   found' ← deref found;
                   let flags' := Z.land flags (Z.lnot O_CREAT) in
                   (if negb (it_server found' =? it_server inode)
                    then r' ← _fosOpen found' flags'; mret (inr (r', found', flags'))
                    else let '(_, fd, type, size, state, _) := r in
                         mret (inr ((OK, fd, type, size, state, found), found', flags')))
               else mret (inr (r, default inode found, flags))
             else
               r ← _fosOpen inode flags;
               mret (inr (r, inode, flags)));
        match r with
        | inl rv => mret (rv, None)
        | inr (rv, fd, type, size, state, _, inode, flags) =>
            let inode := match type with Some t => with_type t inode | None => inode end in
            if ENABLE_DIRECTORY_CACHE && cached && negb (has_flag flags O_CREAT) && (rv =? NOT_FOUND)
            then
              _fosClearCache save_parent save_path;;
              l ← fosLookup save_parent save_path;
              let '(rv, inode, _) := l in
              open_retry tries' save_parent save_path rv parent path inode flags mode false
            else if negb (rv =? OK) then mret (rv, None)
            else
              fd ← match it_type inode with TYPE_FILE | TYPE_DIR | TYPE_DIR_SHARED => deref fd | _ => abort end;
              object ← match it_type inode with
                       | TYPE_FILE =>
                           size ← deref size;
                           state ← deref state;
                           mret (OpenedFile inode fd size state (if has_flag flags O_APPEND then size else 0))
                       | _ => mret (OpenedDir inode fd)
                       end;
              (if ENABLE_DIRECTORY_CACHE && has_flag flags O_CREAT
               then mod_cache (dc_add parent path inode) else mret tt);;
              mret (rv, Some object)
        end
  end.

Definition fosFileOpen (parent : InodeType) (path : string) (flags mode : Z) : M World (Z * option Opened) :=
  let save_parent := parent in
  let save_path := path in
  if has_flag flags O_CREAT
  then
    if has_flag flags O_DIRECTORY then mret (INVALID, None)
    else
      l ← fosLookupParent parent path;
      let '(rv, parent, path, cached) := l in
      if negb (rv =? OK) then mret (rv, None)
      else
        dir_entry_server ← path_owner parent path;
        let server := if bool_decide (it_type parent = TYPE_DIR_SHARED) then dir_entry_server
                      else fosPathHashDirect path in
        if server =? dir_entry_server
        then open_retry 2 save_parent save_path OK parent path (mkInodeType server 0 TYPE_FILE) flags mode cached
        else
          r ← fosCreate server parent path flags mode;
          let '(rv, found) := r in
          if (rv =? EXIST) && has_flag flags O_EXCL then mret (rv, None)
          else
            assert_ (negb (rv =? ISSYM));;
            if negb (rv =? EXIST) && negb (rv =? OK) then mret (rv, None)
            else
              found' ← deref found;
              r ← (if rv =? EXIST then mret (OK, found')
                   else
                     let inode := mkInodeType server (it_id found') TYPE_FILE in
                     r ← fosAddMap dir_entry_server parent path inode false;
                     let '(rv, found) := r in
                     found'' ← deref found;
                     if rv =? EXIST
                     then rv ← fosDestroy server (it_id inode); assert_ (rv =? OK);; mret (rv, found'')
                     else mret (rv, found''));
              let '(rv, inode) := r in
              open_retry 2 save_parent save_path rv parent path inode (Z.land flags (Z.lnot O_CREAT)) mode cached
  else
    l ← fosLookupParent parent path;
    let '(rv, parent, path, _) := l in
    if negb (rv =? OK) then mret (rv, None)
    else
      l ← fosLookup parent path;
      let '(rv, inode, cached) := l in
      open_retry 2 save_parent save_path rv parent path inode flags mode cached.

(** ** Removing *)

(** [hare_wake(server)] wakes server 0, whichever is asked; it is a hint to the
    scheduler. *)
Definition fosUnlink (parent : InodeType) (path : string) : M World Z :=
  l ← fosLookupParent parent path;
  let '(rv, parent, path, _) := l in
  if negb (rv =? OK) then mret rv
  else
    dir_entry_server ← path_owner parent path;
    l ← fosLookup parent path;
    let '(rv, child, _) := l in
    if negb (rv =? OK) then mret rv
    else
      rv ← (if it_server child =? dir_entry_server then mret rv
            else fosRemoveMap dir_entry_server parent path);
      assert_ (rv =? OK);;
      rv ← status_rpc (it_server child)
             (if it_server child =? dir_entry_server
              then UnlinkRequest (it_id child) (it_id parent) path
              else UnlinkRequest (it_id child) UINT64_MAX "");
      (if ENABLE_DIRECTORY_CACHE && (rv =? OK) then mod_cache (dc_remove parent path) else mret tt);;
      mret rv.

Definition fosRmdirAndMap (server id : Z) (parent : InodeType) (path : string) : M World Z :=
  status_rpc server (RmdirAndMapRequest id parent path).

Definition fosDoRmdir (server inode phase : Z) : M World Z :=
  status_rpc server (RmdirRequest inode phase).

(** [do ... while (retval == -EAGAIN)]: the request is repeated until the
    directory is not locked. *)
Fixpoint rmdir_try (fuel : nat) (server inode : Z) : M World Z :=
  match fuel with
  | O => timeout
  | S fuel' =>
      rv ← fosDoRmdir server inode RMDIR_TRY;
      if rv =? - EAGAIN then rmdir_try fuel' server inode else mret rv
  end.

(** Phase 1 with all requests on their way at once: every other server is
    asked, and the last failure is the result. *)
Fixpoint try_gather (child : InodeType) (retval : Z) (servers : list Z) : M World (Z * list Z) :=
  match servers with
  | [] => mret (retval, [])
  | i :: rest =>
      if i =? it_server child
      then r ← try_gather child retval rest; mret (fst r, OK :: snd r)
      else
        rv ← fosDoRmdir i (it_id child) RMDIR_TRY;
        r ← try_gather child (if negb (rv =? OK) then rv else retval) rest;
        mret (fst r, rv :: snd r)
  end.

(** Phase 2: the servers that did not refuse are told the outcome. *)
Fixpoint commit_gather (child action : Z) (servers rm_retvals : list Z) : M World unit :=
  match servers, rm_retvals with
  | i :: servers', rv :: rvs' =>
      (if rv =? NOT_EMPTY then mret tt
       else retval2 ← fosDoRmdir i child action; assert_ (retval2 =? OK));;
      commit_gather child action servers' rvs'
  | _, _ => mret tt
  end.

(** The sequential variant: the first failure stops phase 1; the second
    component is the number of the server it stopped at. *)
Fixpoint try_each (fuel : nat) (child : InodeType) (retval : Z) (i : Z) (n : nat) : M World (Z * Z) :=
  match n with
  | O => mret (retval, i)
  | S n' =>
      if i =? it_server child then try_each fuel child retval (i + 1) n'
      else
        rv ← rmdir_try fuel i (it_id child);
        if negb (rv =? OK) then mret (rv, i) else try_each fuel child rv (i + 1) n'
  end.

Fixpoint commit_each (child action : Z) (servers : list Z) : M World unit :=
  match servers with
  | [] => mret tt
  | i :: rest =>
      retval2 ← fosDoRmdir i child action;
      assert_ (retval2 =? OK);;
      commit_each child action rest
  end.

(** [fosRmdir] after the lookups; a locked directory is tried [fuel] times. *)
Definition do_rmdir (fuel : nat) (parent : InodeType) (path : string) (child : InodeType)
    (dir_entry_server : Z) : M World Z :=
  let servers := seqZ 0 CONFIG_FS_SERVER_COUNT in
  let finish (rv : Z) : M World Z :=
    (if ENABLE_DIRECTORY_CACHE && (rv =? OK)
     then mod_cache (dc_remove parent path);; mod_cache (dc_remove child "..") else mret tt);;
    mret rv in
  if negb (bool_decide (it_type child = TYPE_DIR_SHARED))
  then
    if dir_entry_server =? it_server child
    then
      rv ← fosRmdirAndMap (it_server child) (it_id child) parent path;
      if negb (rv =? OK) then mret rv else finish rv
    else
      rv ← fosDoRmdir (it_server child) (it_id child) RMDIR_FORCE;
      if negb (rv =? OK) then mret rv
      else
        rv ← fosRemoveMap dir_entry_server parent path;
        assert_ (rv =? OK);;
        finish rv
  else
    rv ← rmdir_try fuel (it_server child) (it_id child);
    if negb (rv =? OK) then mret rv
    else
      rv ← (if ENABLE_RM_SCATTER_GATHER
            then
              r ← try_gather child rv servers;
              let '(rv, rm_retvals) := r in
              commit_gather (it_id child) (if rv =? OK then RMDIR_SUCCESS else RMDIR_FAIL) servers rm_retvals;;
              mret (rv, if rv =? OK then RMDIR_SUCCESS else RMDIR_FAIL)
            else
              r ← try_each fuel child rv 0 (Z.to_nat CONFIG_FS_SERVER_COUNT);
              let '(rv, contacted) := r in
              let action := if rv =? OK then RMDIR_SUCCESS else RMDIR_FAIL in
              commit_each (it_id child) action (seqZ 0 contacted);;
              (if (action =? RMDIR_FAIL) && (contacted <? it_server child)
               then
                 rv ← fosDoRmdir (it_server child) (it_id child) action;
                 assert_ (rv =? OK);;
                 mret (rv, action)
               else mret (rv, action)));
      let '(rv, action) := rv in
      if negb (action =? RMDIR_SUCCESS) then mret rv
      else
        rv ← fosRemoveMap dir_entry_server parent path;
        finish rv.

(** A trailing separator is cut off; the caller's buffer gets it back only when
    the call gets to its end. *)
Definition cut_last_sep (path : string) : string :=
  if ends_with_sep path then stake (String.length path - 1) path else path.

Definition fosRmdir (fuel : nat) (parent : InodeType) (path : string) : M World Z :=
  l ← fosLookupParent parent (cut_last_sep path);
  let '(rv, parent, path, _) := l in
  if negb (rv =? OK) then mret rv
  else
    dir_entry_server ← path_owner parent path;
    l ← fosLookup parent path;
    let '(rv, child, _) := l in
    if negb (rv =? OK) then mret rv else do_rmdir fuel parent path child dir_entry_server.

(** ** Making directories and moving entries *)

Definition fosMkdir (parent : InodeType) (path : string) (mode : Z) : M World Z :=
  if (it_id parent =? 0) && (path =? "/")%string then mret OK
  else if (path =? ".")%string then mret OK
  else
    l ← fosLookupParent parent (cut_last_sep path);
    let '(rv, parent, path, _) := l in
    if negb (rv =? OK) then mret rv
    else
      dir_entry_server ← path_owner parent path;
      let inode_server := if bool_decide (it_type parent = TYPE_DIR_SHARED) then dir_entry_server
                          else fosPathHashDirect path in
      r ← fosCreate inode_server parent path O_DIRECTORY mode;
      let '(rv, found) := r in
      if negb (rv =? OK) then mret rv
      else
        child ← deref found;
        rv ← (if bool_decide (it_type child = TYPE_DIR_SHARED)
              then
                dot_dot_server ← path_owner child "..";
                if dot_dot_server =? inode_server then mret rv
                else
                  r ← fosAddMap dot_dot_server child ".." parent false;
                  assert_ (fst r =? OK);;
                  mret (fst r)
              else mret rv);
        if bool_decide (it_type parent = TYPE_DIR)
        then
          if negb (it_server parent =? inode_server)
          then
            assert_ (bool_decide (it_type child = TYPE_DIR_SHARED) || bool_decide (it_type child = TYPE_DIR));;
            r ← fosAddMap (it_server parent) parent path child false;
            if negb (fst r =? OK)
            then fosDestroy inode_server (it_id child);; mret (fst r)
            else mret (fst r)
          else mod_cache (dc_add parent path child);; mret rv
        else mret rv.

(** The walk up to the root that [fosRename] makes to see whether a directory
    is moved below itself: [true] if it is. *)
Fixpoint below (fuel : nat) (p child : InodeType) : M World bool :=
  match fuel with
  | O => timeout
  | S fuel' =>
      if it_id p =? 0 then mret false
      else
        server ← path_owner p "..";
        r ← _fosResolve (with_server server p) ".." 2;
        let '(rv, up) := r in
        assert_ (rv =? OK);;
        up ← deref up;
        if it_id up =? it_id child then mret true else below fuel' up child
  end.

Definition is_dir_type (t : FileType) : bool :=
  match t with TYPE_DIR | TYPE_DIR_SHARED => true | _ => false end.

(** [fosRename] from the point where both parents and the inode are known.
    [retval = fosLookup(...) != OK] assigns the comparison. *)
Definition do_rename (fuel : nat) (old_parent : InodeType) (oldpath : string) (new_parent : InodeType)
    (newpath : string) (child : InodeType) : M World Z :=
  bad ← (if is_dir_type (it_type child)
         then if it_id new_parent =? it_id child then mret true else below fuel new_parent child
         else mret false);
  if (bad : bool) then mret INVALID
  else
    dot_dot_server ← (if is_dir_type (it_type child) then path_owner child ".." else mret 0);
    new_server ← path_owner new_parent newpath;
    old_server ← path_owner old_parent oldpath;
    r ← (if new_server =? old_server
         then fosUpdateMap new_server new_parent newpath child true old_parent oldpath
         else fosAddMap new_server new_parent newpath child true);
    let '(rv, found) := r in
    let destroy := rv =? EXIST in
    assert_ (destroy || (rv =? OK));;
    rv ← (if negb (new_server =? old_server)
          then rv ← fosRemoveMap old_server old_parent oldpath; assert_ (rv =? OK);; mret rv
          else mret rv);
    (if ENABLE_DIRECTORY_CACHE then mod_cache (dc_remove old_parent oldpath) else mret tt);;
    rv ← (if destroy
          then
            i ← deref found;
            rv ← fosDestroy (it_server i) (it_id i);
            assert_ (rv =? OK);;
            mret rv
          else mret rv);
    if bool_decide (it_type child = TYPE_DIR)
    then
      r ← fosAddMap dot_dot_server child ".." new_parent true;
      assert_ ((fst r =? OK) || (fst r =? EXIST));;
      mret OK
    else mret rv.

Definition has_sep (path : string) : bool := match strchr path with Some _ => true | None => false end.

Definition fosRename (fuel : nat) (parent : InodeType) (oldpath newpath : string) : M World Z :=
  l ← (if has_sep oldpath
       then l ← fosLookupParent parent oldpath; let '(rv, p, n, _) := l in mret (rv, p, n)
       else mret (OK, parent, oldpath));
  let '(rv, old_parent, oldpath) := l in
  if negb (rv =? OK) then mret rv
  else
    l ← (if has_sep newpath
         then l ← fosLookupParent parent newpath; let '(rv, p, n, _) := l in mret (rv, p, n)
         else mret (OK, parent, newpath));
    let '(rv, new_parent, newpath) := l in
    if negb (rv =? OK) then mret rv
    else
      l ← fosLookup old_parent oldpath;
      let '(rv, child, _) := l in
      if negb (rv =? OK) then mret 1
      else do_rename fuel old_parent oldpath new_parent newpath child.

(** ** Attributes *)

(** The inode of a path, and a request to its server. *)
Definition on_path (parent : InodeType) (path : string) (req : InodeType -> Request) : M World Z :=
  l ← fosLookup parent path;
  let '(rv, child, _) := l in
  if negb (rv =? OK) then mret rv else status_rpc (it_server child) (req child).

Definition fosChmod (parent : InodeType) (path : string) (mode : Z) : M World Z :=
  on_path parent path (fun child => ChmodRequest (it_id child) mode).

Definition fosChown (parent : InodeType) (path : string) (uid gid : Z) : M World Z :=
  on_path parent path (fun child => ChownRequest (it_id child) uid gid).

(** [fosDoReadlink]: the number of bytes and the text, without its terminator
    when the buffer is full. *)
Definition fosDoReadlink (inode : InodeType) (bufsiz : Z) : M World (Z * string) :=
  let bufsiz := if CONFIG_MAX_FNAME_LEN <? bufsiz then CONFIG_MAX_FNAME_LEN else bufsiz in
  x ← rpc (it_server inode) (ReadlinkRequest (it_id inode));
  match x with
  | PathReply rv size path =>
      assert_ (rv =? OK);;
      size ← deref size;
      path ← deref path;
      mret (if bufsiz <? size then bufsiz else size, stake (Z.to_nat bufsiz) path)
  | _ => abort
  end.

Definition fosReadlink (parent : InodeType) (path : string) (bufsiz : Z) : M World (Z * option string) :=
  l ← fosLookup parent path;
  let '(rv, child, _) := l in
  if negb (rv =? OK) then mret (rv, None)
  else r ← fosDoReadlink child bufsiz; mret (fst r, Some (snd r)).

(** [fosTruncate]: on a link, the link of the parent is read.  [fuel] bounds
    the length of a chain of links. *)
Fixpoint fosTruncate (fuel : nat) (parent : InodeType) (path : string) (length : Z) : M World Z :=
  match fuel with
  | O => timeout
  | S fuel' =>
      l ← fosLookupParent parent path;
      let '(rv, parent, path, _) := l in
      if negb (rv =? OK) then mret rv
      else
        l ← fosLookup parent path;
        let '(rv, child, _) := l in
        if negb (rv =? OK) then mret rv
        else
          rv ← status_rpc (it_server child) (TruncRequest (it_id child) (u64 length));
          if rv =? ISSYM
          then
            d ← fosDoReadlink parent CONFIG_MAX_FNAME_LEN;
            fosTruncate fuel' parent (snd d) length
          else mret rv
  end.

(** [S_ISLNK], [S_ISBLK] on a mode, and the mode the application sees. *)
Definition S_IFMT : Z := 61440.
Definition fmt_is (fmt mode : Z) : bool := Z.land mode S_IFMT =? fmt.
Definition app_mode (mode : Z) : Z :=
  if fmt_is S_IFBLK mode then Z.lor (Z.land mode (Z.lnot S_IFMT)) S_IFDIR else mode.
Definition stat_with_mode (mode : Z) (b : FauxStat64) : FauxStat64 :=
  mkFauxStat64 (st_dev b) (st_ino b) (st_nlink b) mode (st_uid b) (st_gid b) (st_rdev b) (st_size b)
    (st_blksize b) (st_blocks b) (st_atime b) (st_mtime b) (st_ctime b).

(** [fosFStatAt64_]: [cached] is not initialised; when the lookups leave it
    alone it holds what the memory held.  A link is followed once. *)
Fixpoint stat_retry (tries : nat) (parent_save : InodeType) (path_save : string) (parent : InodeType)
    (path : string) (child : InodeType) (cached : bool)
  : M World (Z * option FauxStat64 * bool * InodeType * InodeType) :=
  match tries with
  | O => timeout
  | S tries' =>
      x ← rpc (it_server child) (FstatRequest (it_id child));
      match x with
      | StatReply rv buf =>
          if ENABLE_DIRECTORY_CACHE && cached && negb (rv =? OK)
          then
            _fosClearCache parent path;;
            l ← fosLookup parent_save path_save;
            let '(rv, child, _) := l in
            if negb (rv =? OK) then mret (rv, None, false, child, parent_save)
            else stat_retry tries' parent_save path_save parent_save path_save child false
          else
            let islink := match buf with Some b => fmt_is S_IFLNK (st_mode b) | None => false end in
            mret (rv, (fun b => stat_with_mode (app_mode (st_mode b)) b) <$> buf, islink && (rv =? OK), child, parent)
      | _ => abort
      end
  end.

Definition stat_once (parent : InodeType) (path : string)
  : M World (Z * option FauxStat64 * bool * InodeType * InodeType) :=
  t ← w_use;
  l ← fosLookupParent parent path;
  let '(rv, parent', path', hit1) := l in
  if negb (rv =? OK) then mret (rv, None, false, parent', parent')
  else
    l ← fosLookup parent' path';
    let '(rv, child, hit2) := l in
    if negb (rv =? OK) then mret (rv, None, false, child, parent')
    else
      let cached := hit1 || hit2 || negb (env_junk t =? 0) in
      stat_retry 2 parent path parent' path' child cached.

Definition fosFStatAt64_ (parent : InodeType) (path : string) (follow : bool) : M World (Z * option FauxStat64) :=
  r ← stat_once parent path;
  let '(rv, buf, link, child, parent) := r in
  if (link : bool) && follow
  then
    d ← fosDoReadlink child CONFIG_MAX_FNAME_LEN;
    r ← stat_once parent (snd d);
    let '(rv, buf, _, _, _) := r in
    mret (rv, buf)
  else mret (rv, buf).

Definition fosAccess (parent : InodeType) (path : string) : M World Z :=
  r ← fosFStatAt64_ parent path true; mret (fst r).

Definition UTIME_NOW : Z := 2 ^ 30 - 1.

(** The times of a request; [None] is a null pointer, and [tv_nsec] of the
    request is left as the memory was when [utime] is given seconds. *)
Definition utime_times (times : option (Z * Z)) : M World (timespec * timespec) :=
  t ← w_use;
  match times with
  | None => mret (env_clock t, env_clock t)
  | Some (actime, modtime) =>
      mret ({| tv_sec := actime; tv_nsec := env_junk t |}, {| tv_sec := modtime; tv_nsec := env_junk t |})
  end.

Fixpoint fosUTime (fuel : nat) (parent : InodeType) (path : string) (times : option (Z * Z)) : M World Z :=
  match fuel with
  | O => timeout
  | S fuel' =>
      l ← fosLookup parent path;
      let '(rv, child, _) := l in
      if negb (rv =? OK) then mret rv
      else
        ts ← utime_times times;
        rv ← status_rpc (it_server child) (UTimeNSRequest (it_id child) (fst ts) (snd ts) 0);
        if rv =? ISSYM
        then d ← fosDoReadlink child CONFIG_MAX_FNAME_LEN; fosUTime fuel' parent (snd d) times
        else mret rv
  end.

Definition utimens_times (times : option (timespec * timespec)) : M World (timespec * timespec) :=
  t ← w_use;
  let now := env_clock t in
  match times with
  | None => mret (now, now)
  | Some (a, m) =>
      mret (if tv_nsec a =? UTIME_NOW then now else a, if tv_nsec m =? UTIME_NOW then now else m)
  end.

Fixpoint fosUTimeNS (fuel : nat) (parent : InodeType) (path : string) (times : option (timespec * timespec))
    (flags : Z) : M World Z :=
  match fuel with
  | O => timeout
  | S fuel' =>
      l ← fosLookupParent parent path;
      let '(rv, parent, path, _) := l in
      if negb (rv =? OK) then mret rv
      else
        l ← fosLookup parent path;
        let '(rv, child, _) := l in
        if negb (rv =? OK) then mret rv
        else
          ts ← utimens_times times;
          rv ← status_rpc (it_server child) (UTimeNSRequest (it_id child) (fst ts) (snd ts) flags);
          if rv =? ISSYM
          then d ← fosDoReadlink child CONFIG_MAX_FNAME_LEN; fosUTimeNS fuel' parent (snd d) times flags
          else mret rv
  end.

Definition fosFileSymlink (parent : InodeType) (path dest : string) : M World Z :=
  if (path =? "")%string then mret NOT_FOUND
  else
    l ← fosLookupParent parent path;
    let '(rv, parent, path, _) := l in
    if negb (rv =? OK) then mret rv
    else
      server ← path_owner parent path;
      status_rpc server (SymlinkRequest (it_id parent) path dest).

(** ** Descriptors *)

Definition fosFileDup (server fd : Z) : M World Z :=
  x ← rpc server (DupRequest fd); match x with DupReply rv _ => mret rv | _ => abort end.

(** The bytes a [READ] returns may be fewer than [count] says, for a pipe. *)
Definition fosFdRead (server fd count : Z) : M World (Z * Z * list Z) :=
  x ← rpc server (ReadRequest fd count);
  match x with ReadReply rv count data => assert_ (0 <=? i64 count);; mret (rv, count, data) | _ => abort end.

Definition fosFdWrite (server fd : Z) (data : list Z) (count : Z) : M World (Z * Z) :=
  x ← rpc server (WriteRequest fd count data);
  match x with WriteReply rv count => mret (rv, count) | _ => abort end.

Definition fosFdClose (server fd offset filesize : Z) : M World Z :=
  rv ← status_rpc server (CloseRequest fd offset filesize);
  assert_ (rv =? OK);;
  mret OK.

Definition fosFdLseek (server fd offset whence : Z) : M World Z :=
  x ← rpc server (LseekRequest fd (u64 offset) whence);
  match x with LseekReply rv offset => assert_ (rv =? OK);; mret (i64 offset) | _ => abort end.

Definition fosFdFlush (server fd filesize offset : Z) : M World Z :=
  rv ← status_rpc server (FlushRequest fd filesize offset);
  assert_ (rv =? OK);;
  mret rv.

Definition fosGetBlocklist (inode : Inode) (offset count : Z) : M World (Z * list Z) :=
  x ← rpc (in_server inode) (BlockListRequest (in_id inode) offset count);
  match x with BlockListReply rv _ _ l => assert_ (rv =? OK);; mret (rv, l) | _ => abort end.

(** A client-side file without the buffer cache: reads and writes go to the
    server in chunks. *)
Fixpoint file_read_loop (fuel : nat) (server fd count read_count : Z) (out : list Z) : M World (Z * list Z) :=
  match fuel with
  | O => timeout
  | S fuel' =>
      if read_count <? count
      then
        r ← fosFdRead server fd (Z.min (count - read_count) CONFIG_FS_CHUNK_SIZE);
        let '(rv, size, data) := r in
        if negb (rv =? OK) then mret (if read_count =? 0 then u64 rv else read_count, out)
        else if size =? 0 then mret (read_count, out)
        else file_read_loop fuel' server fd count (read_count + size) (out ++ data)
      else mret (read_count, out)
  end.

Fixpoint file_write_loop (fuel : nat) (server fd : Z) (buf : list Z) (count written : Z) : M World (Z * bool) :=
  match fuel with
  | O => timeout
  | S fuel' =>
      if written <? count
      then
        let size := Z.min (count - written) CONFIG_FS_CHUNK_SIZE in
        r ← fosFdWrite server fd (take (Z.to_nat size) (drop (Z.to_nat written) buf)) size;
        let '(rv, size) := r in
        if negb (rv =? OK) then mret (if written =? 0 then u64 rv else written, false)
        else if size =? 0 then mret (written, true)
        else file_write_loop fuel' server fd buf count (written + size)
      else mret (written, true)
  end.

(** [File::read] and [File::write]; [m_offset] advances with a write that
    reaches its end, and is not used. *)
Definition FileObj_read (server fd count : Z) : M World (Z * list Z) :=
  file_read_loop (S (Z.to_nat count)) server fd count 0 [].
Definition FileObj_write (server fd : Z) (buf : list Z) (count : Z) : M World Z :=
  r ← file_write_loop (S (Z.to_nat count)) server fd buf count 0; mret (fst r).
(** [File::close], and [ftruncate] on an open file. *)
Definition FileObj_close (server fd : Z) : M World Z := fosFdClose server fd (-1) UINT64_MAX.
Definition FileObj_truncate (fuel : nat) (inode : InodeType) (len : Z) : M World Z :=
  fosTruncate fuel inode "" len.

(** ** Listing *)

(** [fosDirentReq] and [fosDirentWaitReply]: the size is capped; a reply
    without records counts as the end. *)
Definition dirent_rpc (server id offset size : Z) : M World (Z * list FauxDirent * Z * bool) :=
  let size := if CONFIG_FS_CHUNK_SIZE <? size then CONFIG_FS_CHUNK_SIZE else size in
  x ← rpc server (DirEntRequest id offset size);
  match x with
  | DirEntReply rv more size buf =>
      if (rv =? -1) || (rv =? -2) then mret (rv, [], 0, false) else mret (rv, buf, size, more)
  | _ => abort
  end.

(** What the client does with each record: a directory is entered into the
    cache (its server is read off the inode number), and a shared directory is
    shown as a directory. *)
Definition dent_child (r : FauxDirent) : InodeType :=
  mkInodeType (i32 (Z.shiftr (d_ino r) INODE_SHIFT)) (d_ino r)
    (if d_type r =? DT_DIR then TYPE_DIR else TYPE_DIR_SHARED).
Definition dent_cache (parent : InodeType) (r : FauxDirent) (c : DirCache) : DirCache :=
  if ((d_type r =? DT_DIR) || (d_type r =? DT_BLK)) && negb (starts_with dot (d_name r))
  then dc_add parent (d_name r) (dent_child r) c else c.
Definition dent_shown (r : FauxDirent) : FauxDirent :=
  if d_type r =? DT_BLK then mkFauxDirent (d_ino r) (d_off r) (d_reclen r) DT_DIR (d_name r) else r.

(** [Dir] of [sys/fs/lib/dir.hpp] *)
Record AppDir : Type := mkAppDir {
  ad_inode : InodeType;
  ad_fd : Z;
  ad_offset : Z;
  ad_server : Z;
  ad_dents : list FauxDirent
}.

Definition AppDir_new (inode : InodeType) (fd : Z) : AppDir :=
  mkAppDir inode fd 0 (if bool_decide (it_type inode = TYPE_DIR_SHARED) then 0 else it_server inode) [].
Definition ad_shared (d : AppDir) : bool := bool_decide (it_type (ad_inode d) = TYPE_DIR_SHARED).

(** One pass of [cache_dents] over the servers: each that has more is asked for
    the records from its offset on. *)
Fixpoint dents_round (dir : InodeType) (rows : list (Z * bool * Z))
  : M World (list (Z * bool * Z) * list FauxDirent) :=
  match rows with
  | [] => mret ([], [])
  | (i, false, off) :: rest =>
      r ← dents_round dir rest; mret ((i, false, off) :: fst r, snd r)
  | (i, true, off) :: rest =>
      x ← dirent_rpc i (it_id dir) off 49152;
      let '(_, rs, _, more) := x in
      mod_cache (fun c => foldl (fun c r => dent_cache dir r c) c rs);;
      r ← dents_round dir rest;
      mret ((i, more, off + Z.of_nat (length rs)) :: fst r, (dent_shown <$> rs) ++ snd r)
  end.

Fixpoint dents_loop (fuel : nat) (dir : InodeType) (rows : list (Z * bool * Z)) (dents : list FauxDirent)
  : M World (list FauxDirent) :=
  match fuel with
  | O => timeout
  | S fuel' =>
      r ← dents_round dir rows;
      let '(rows, new) := r in
      if existsb (fun row => row.1.2) rows then dents_loop fuel' dir rows (dents ++ new)
      else mret (dents ++ new)
  end.

(** [cache_dents]: the snapshot is taken once. *)
Definition cache_dents (fuel : nat) (d : AppDir) : M World AppDir :=
  match ad_dents d with
  | _ :: _ => mret d
  | [] =>
      let rows := (fun i => (i, if ad_shared d then true else i =? ad_server d, 0))
                    <$> seqZ 0 CONFIG_FS_SERVER_COUNT in
      dents ← dents_loop fuel (ad_inode d) rows [];
      mret (mkAppDir (ad_inode d) (ad_fd d) (ad_offset d) (ad_server d) dents)
  end.

(** The records from the snapshot that fit. *)
Fixpoint snapshot_page (count : Z) (rs : list FauxDirent) : list FauxDirent :=
  match rs with
  | [] => []
  | r :: rs' => if count <? d_reclen r then [] else r :: snapshot_page (count - d_reclen r) rs'
  end.

Definition ad_move (offset server : Z) (d : AppDir) : AppDir :=
  mkAppDir (ad_inode d) (ad_fd d) offset server (ad_dents d).

(** The part of [getdents64] after [dent_again:], which asks one server after
    the other.  [m_current_server == CONFIG_FS_SERVER_COUNT;] compares.  The
    entries are added to the cache twice, by [fosDirentCallback] and here; the
    second time their names are there, and [add] keeps what it has. *)
Fixpoint dent_again (tries : nat) (d : AppDir) (count : Z) : M World (Z * list FauxDirent * AppDir) :=
  match tries with
  | O => timeout
  | S tries' =>
      x ← dirent_rpc (ad_server d) (it_id (ad_inode d)) (ad_offset d) count;
      let '(ret, rs, size, more) := x in
      mod_cache (fun c => foldl (fun c r => dent_cache (ad_inode d) r c) c rs);;
      (if ad_shared d then mret tt else assert_ (negb (ret =? -2)));;
      if negb (ad_shared d) && (ret =? -1) then mret (0, [], d)
      else if (ret =? -1) || (ret =? -2)
      then
        let server := ad_server d + 1 in
        if server =? CONFIG_FS_SERVER_COUNT then mret (0, [], ad_move (ad_offset d) server d)
        else dent_again tries' (ad_move 0 server d) count
      else if ret <? 0 then mret (-1, dent_shown <$> rs, d)
      else
        let d' := if negb more && (ad_server d <? CONFIG_FS_SERVER_COUNT)
                  then if ad_shared d then ad_move 0 (ad_server d + 1) d
                       else ad_move (ad_offset d) CONFIG_FS_SERVER_COUNT d
                  else ad_move (ad_offset d + ret) (ad_server d) d in
        mret (size, dent_shown <$> rs, d')
  end.

(** [getdents64]: the number of bytes, the records and the directory object. *)
Definition getdents64 (fuel : nat) (d : AppDir) (count : Z) : M World (Z * list FauxDirent * AppDir) :=
  if ENABLE_DENT_SNAPSHOT && (1 <? CONFIG_FS_SERVER_COUNT)
  then
    d ← cache_dents fuel d;
    if ad_offset d =? Z.of_nat (length (ad_dents d)) then mret (0, [], d)
    else
      let rs := snapshot_page count (drop (Z.to_nat (ad_offset d)) (ad_dents d)) in
      mret (foldr (fun r n => d_reclen r + n) 0 rs, rs,
            ad_move (ad_offset d + Z.of_nat (length rs)) (ad_server d) d)
  else if ad_server d =? CONFIG_FS_SERVER_COUNT then mret (0, [], d)
  else dent_again (S (Z.to_nat CONFIG_FS_SERVER_COUNT)) d count.

(** ** Paths of directories *)

(** [_resolve_callback]: the last record with the inode number gives the name. *)
Definition find_dent (id : Z) (rs : list FauxDirent) (found : option string) : option string :=
  foldl (fun f r => if d_ino r =? id then Some (d_name r) else f) found rs.

(** A row: server, [more[i]], whether a request is on its way, [offsets[i]].  A
    server that has more but was not asked again is waited for in vain. *)
Fixpoint resolve_round (parent : Z) (child : Z) (rows : list (Z * bool * bool * Z)) (found : option string)
  : M World (list (Z * bool * bool * Z) * option string) :=
  match rows with
  | [] => mret ([], found)
  | (i, false, pending, off) :: rest =>
      r ← resolve_round parent child rest found;
      mret ((i, false, pending, off) :: fst r, snd r)
  | (_, true, false, _) :: _ => timeout
  | (i, true, true, off) :: rest =>
      x ← dirent_rpc i parent off 49152;
      let '(_, rs, _, more) := x in
      let found := find_dent child rs found in
      let again := more && match found with None => true | Some _ => false end in
      r ← resolve_round parent child rest found;
      mret ((i, more, again, off + Z.of_nat (length rs)) :: fst r, snd r)
  end.

Fixpoint resolve_loop (fuel : nat) (parent child : Z) (rows : list (Z * bool * bool * Z)) (found : option string)
  : M World (option string) :=
  match fuel with
  | O => timeout
  | S fuel' =>
      r ← resolve_round parent child rows found;
      let '(rows, found) := r in
      if existsb (fun row => row.1.2) rows then resolve_loop fuel' parent child rows found else mret found
  end.

Definition _fosResolvePath (fuel : nat) (parent child : InodeType) : M World (Z * option string) :=
  found ← resolve_loop fuel (it_id parent) (it_id child)
            ((fun i => (i, true, true, 0)) <$> seqZ 0 CONFIG_FS_SERVER_COUNT) None;
  mret (match found with Some _ => OK | None => NOT_FOUND end, found).

Definition ERANGE : Z := 34.

(** The names from a directory up to the root, the root's empty one last. *)
Fixpoint dir_stack (depth fuel : nat) (parent child : InodeType) (stack : list string)
  : M World (Z * list string) :=
  match depth with
  | O => timeout
  | S depth' =>
      r ← _fosResolvePath fuel parent child;
      match r with
      | (rv, Some name) =>
          let stack := stack ++ [name] in
          if it_id parent =? 0 then mret (OK, stack)
          else
            server ← path_owner parent "..";
            r ← _fosResolve (with_server server parent) ".." 2;
            match r with
            | (rv, up) =>
                if negb (rv =? OK) then mret (rv, stack)
                else up ← deref up; dir_stack depth' fuel up (with_server server parent) stack
            end
      | (rv, None) => mret (rv, stack)
      end
  end.

(** The path of a stack of names: each but the innermost is followed by a
    separator, and so is the root alone. *)
Fixpoint stack_path (stack : list string) : string :=
  match stack with
  | [] => ""
  | [name] => name
  | name :: stack' => stack_path stack' +:+ "/" +:+ name
  end.

Definition fosResolveFull (depth fuel : nat) (inode : InodeType) (bufsiz : Z) : M World (Z * option string) :=
  r ← (if it_id inode =? 0 then mret (OK, [])
       else
         server ← path_owner inode "..";
         r ← _fosResolve (with_server server inode) ".." 2;
         match r with
         | (rv, up) =>
             if negb (rv =? OK) then mret (rv, [])
             else up ← deref up; dir_stack depth fuel up (with_server server inode) []
         end);
  let '(rv, stack) := r in
  if negb (rv =? OK) then mret (rv, None)
  else
    let length := foldr (fun n l => Z.of_nat (String.length n) + 1 + l) 1 stack in
    if bufsiz <? length then mret (- ERANGE, None)
    else mret (OK, Some (match stack with [] => "/" | _ => stack_path (stack ++ [""]) end)).
End Client.
