(* ===== verification/FsClientSpec.v ===== *)
(** * Steps of the client

    How a request acts on the servers: the server that is asked takes one step,
    the others do not move, and the delivery of notifications changes nothing the
    file system consists of. *)

From S2P Require Import Prelude FsTypes BufferCache FsFile FsNode FsServer FsServerInv FsServerOps FsMarshall FsReach FsServerSpec FsDirCache FsClient.

Section Steps.
Context `{Config} `{Env}.
Variable early : nat -> nat -> bool.
Variable chan : Z.

(** The servers agree on everything but statistics, caches and clocks. *)
Definition core_eq : list Server -> list Server -> Prop := Forall2 same_core.

#[export] Instance core_eq_equiv : Equivalence core_eq.
Proof. unfold core_eq. split; apply _. Qed.

Lemma core_eq_insert k s s' ss ss' : same_core s s' -> core_eq ss ss' -> core_eq (<[k := s]> ss) (<[k := s']> ss').
Proof. intros. by apply Forall2_insert. Qed.

Lemma core_eq_lookup k s ss ss' :
  core_eq ss ss' -> ss !! k = Some s -> exists s', ss' !! k = Some s' /\ same_core s s'.
Proof. intros Heq Hs. destruct (Forall2_lookup_l _ _ _ _ _ Heq Hs) as (s' & ? & ?). eauto. Qed.

Lemma core_eq_length ss ss' : core_eq ss ss' -> length ss' = length ss.
Proof. intros Heq. symmetry. by eapply Forall2_length. Qed.

Lemma wp_mod_cache f (Q : unit -> World -> Prop) w :
  (forall w', w_servers w' = w_servers w -> Q tt w') -> wp (mod_cache chan f) Q w.
Proof. intros HQ. unfold mod_cache. apply wp_modify. by apply HQ. Qed.

Lemma wp_deliver which (Q : unit -> World -> Prop) w :
  (forall w', core_eq (w_servers w) (w_servers w') -> Q tt w') -> wp (deliver chan which) Q w.
Proof.
  intros HQ. unfold deliver, fosNotifications. apply wp_bind, wp_gets, wp_bind, wp_modify, wp_mod_cache.
  intros w' Hw'. apply HQ. rewrite Hw'. simpl. apply Forall2_same_length_lookup. split.
  - by rewrite length_imap.
  - intros j s s' Hs. rewrite list_lookup_imap, Hs. simpl. intros [= <-].
    destruct (which j); [|reflexivity]. by split.
Qed.

Lemma wp_rpc k r s (R : Reply -> Server -> Prop) (Q : Reply -> World -> Prop) w :
  0 <= k -> w_servers w !! Z.to_nat k = Some s -> wp (handle chan r) R s ->
  (forall x s' w', R x s' -> core_eq (<[Z.to_nat k := s']> (w_servers w)) (w_servers w') -> Q x w') ->
  wp (rpc early chan k r) Q w.
Proof.
  intros Hk Hs HR HQ. unfold rpc. apply wp_bind. unfold w_use. apply wp_zoom. unfold wp at 1, tick.
  rewrite (proj2 (Z.ltb_ge k 0)) by done. apply wp_bind, wp_gets. simpl w_servers. rewrite Hs.
  apply wp_Done in HR as (x & s' & Hrun & HR). rewrite Hrun. apply wp_bind, wp_modify, wp_bind, wp_deliver.
  intros w' Hw'. apply wp_ret. by eapply HQ.
Qed.

(** A request whose answer is a status. *)
Lemma wp_status_rpc k r s (R : Z -> Server -> Prop) (Q : Z -> World -> Prop) w :
  0 <= k -> w_servers w !! Z.to_nat k = Some s ->
  wp (handle chan r) (fun x s' => exists rv, x = StatusReply rv /\ R rv s') s ->
  (forall rv s' w', R rv s' -> core_eq (<[Z.to_nat k := s']> (w_servers w)) (w_servers w') -> Q rv w') ->
  wp (status_rpc early chan k r) Q w.
Proof.
  intros Hk Hs HR HQ. unfold status_rpc. apply wp_bind. eapply wp_rpc; [done..|].
  cbv beta. intros x s' w' (rv & -> & HR') Hw'. apply wp_ret. by eapply HQ.
Qed.
End Steps.

(** ** Demonstration

    Three servers, and a client on channel 7 that gets its notifications late. *)
Definition demo_server (i : Z) : Server :=
  default (mkServer 0 ∅ ∅ ∅ (mkBufferCache 0 0 [] 0) ∅ [] [] 0 ∅ 0 [])
    (@FilesystemServer_new small_config plain_env i 4096 (replicate 24 0) (replicate 24 0)).
Definition late (_ _ : nat) : bool := false.
Definition demo_world : World := mkWorld (demo_server <$> [0; 1; 2]) ∅ 0.

(** The world after a sequence of calls that succeeds. *)
Definition world_after {A} (c : M World A) (w : World) : World :=
  match c w with Done _ w' => w' | _ => w end.
Definition result_of {A} (c : M World A) (w : World) : option A :=
  match c w with Done a _ => Some a | _ => None end.

(** With a shared directory [/d], and a file in it. *)
Definition demo_mkdir : World :=
  world_after (@fosMkdir small_config plain_env late 7 root_dir "/d" 1005) demo_world.
Definition demo_full : World :=
  world_after (@fosFileOpen small_config plain_env late 7 root_dir "/d/x" (Z.lor O_CREAT O_RDWR) 420) demo_mkdir.
