(* ===== verification/FsClientRmdir.v ===== *)
(** * Removing a distributed directory

    A shared directory has a part on every server.  The client tries to lock
    all parts and then tells the servers the outcome; the theorem is that the
    directory is removed everywhere or, if some part has an entry, is left as it
    was everywhere. *)

From S2P Require Import Prelude FsTypes BufferCache FsFile FsNode FsServer FsServerInv FsServerOps FsMarshall FsReach FsServerSpec FsLifetime FsDirCache FsClient FsClientSpec.

#[local] Arguments OP_COUNTER : simpl never.
#[local] Arguments lazy_dir : simpl never.
#[local] Arguments Z.pow : simpl never.

(** ** One part *)

Section Part.
Context `{Config} `{Env}.
Variable i : Z.

(** The part of directory [i] on a server can be removed: it is absent or an
    unlocked directory that nobody has open. *)
Record part_ok (s : Server) : Prop := {
  po_seq : g_inode_seq s <> INT32_MAX;
  po_dir v : m_files s !! i = Some v -> exists d, v = DirV d /\ isDir (DirV d) = true /\
    m_id (d_base d) = i /\ m_locked d = false;
  po_rem : removable s i;
  po_fds fd e : m_fds s !! fd = Some e -> fd_id e = i -> fd_count_int e = 0
}.

Definition part_empty (s : Server) : bool :=
  match m_files s !! i with Some (DirV d) => dir_empty d | _ => true end.

(** The files of [t] are [m], and the rest is as in [s]. *)
Local Abbreviation changed := files_changed.

(** Between the phases. *)
Definition locked (s t : Server) : Prop :=
  exists d, changed s t (<[i := DirV d]> (m_files s)) /\ isDir (DirV d) = true /\
    m_id (d_base d) = i /\ m_locked d = true /\ dir_empty d = true /\
    match m_files s !! i with
    | Some v => v = DirV (dir_with_lock false d)
    | None => m_children d = []
    end.

(** As before, but for an empty directory that may have been made. *)
Definition restored (s t : Server) : Prop :=
  changed s t (m_files s) \/
  (m_files s !! i = None /\ exists d, changed s t (<[i := DirV d]> (m_files s)) /\
     m_children d = [] /\ m_locked d = false).

Definition removed (s t : Server) : Prop := changed s t (delete i (m_files s)).

Lemma changed_core s s' t t' m :
  same_core s s' -> same_core t t' -> changed s t m -> changed s' t' m.
Proof. intros [] [] []. split; congruence. Qed.

#[export] Instance locked_proper : Proper (same_core ==> same_core ==> iff) locked.
Proof.
  assert (Himp : forall s s' t t', same_core s s' -> same_core t t' -> locked s t -> locked s' t').
  { intros s s' t t' Hs Ht (d & Hc & Hd). exists d. rewrite (sc_files _ _ Hs). split; [|done].
    by eapply changed_core. }
  intros s s' Hs t t' Ht. split; apply Himp; done.
Qed.

#[export] Instance restored_proper : Proper (same_core ==> same_core ==> iff) restored.
Proof.
  assert (Himp : forall s s' t t', same_core s s' -> same_core t t' -> restored s t -> restored s' t').
  { intros s s' t t' Hs Ht. unfold restored. rewrite (sc_files _ _ Hs).
    intros [Hc|(Hn & d & Hc & Hd)]; [left; by eapply changed_core|right].
    split; [done|]. exists d. split; [by eapply changed_core|done]. }
  intros s s' Hs t t' Ht. split; apply Himp; done.
Qed.

#[export] Instance removed_proper : Proper (same_core ==> same_core ==> iff) removed.
Proof.
  assert (Himp : forall s s' t t', same_core s s' -> same_core t t' -> removed s t -> removed s' t').
  { intros s s' t t' Hs Ht. unfold removed. rewrite (sc_files _ _ Hs). by apply changed_core. }
  intros s s' Hs t t' Ht. split; apply Himp; done.
Qed.

Lemma part_ok_core s s' : same_core s s' -> part_ok s -> part_ok s'.
Proof.
  intros [] [Hq Hd [Hr1 Hr2] Hf]. split; rewrite ?sc_seq, ?sc_files, ?sc_fds; try done.
  split; [done|]. by rewrite sc_id.
Qed.

Lemma part_empty_core s s' : same_core s s' -> part_empty s' = part_empty s.
Proof. intros []. unfold part_empty. by rewrite sc_files. Qed.

(** The first phase makes the part when it is not there. *)
Lemma rmdir_try_absent s :
  m_files s !! i = None -> g_inode_seq s <> INT32_MAX ->
  wp (FsServer.rmdir i RMDIR_TRY) (fun r t => r = OK /\ locked s t) s.
Proof.
  intros Hn Hq. unfold FsServer.rmdir. apply wp_OP_COUNTER. intros s1 [Hc1 _ _]. apply wp_bind.
  unfold lazy_dir, find_file. apply wp_bind, wp_gets. rewrite (sc_files _ _ Hc1), Hn.
  apply wp_bind. unfold new_dir, new_base. do 2 apply wp_bind. apply wp_gets.
  rewrite (sc_seq _ _ Hc1), (proj2 (Z.eqb_neq _ _)) by done. apply wp_bind, wp_modify.
  unfold clock_gettime. do 2 apply wp_bind. apply wp_s_use. intros s2 Hc2 _ _.
  apply wp_ret, wp_bind, wp_gets, wp_ret, wp_ret. unfold put_file. apply wp_modify.
  apply wp_bind, wp_gets. simpl m_files. rewrite lookup_insert_eq. apply wp_bind, (wp_deref _ _ _ _ eq_refl).
  set (base := set_id i _). set (d0 := dir_with_base base _).
  assert (Hdir : isDir (DirV d0) = true).
  { unfold isDir, v_type. simpl. by destruct (Dir_type_dir true 511) as [-> | ->]. }
  rewrite Hdir. simpl negb. cbv iota. apply wp_bind, wp_ret. change (dir_empty d0) with true. simpl negb.
  cbv iota. rewrite Z.eqb_refl. change (m_locked d0) with false. cbv iota.
  apply wp_bind, wp_modify, wp_ret. intros s3 [Hc3 _ _]. split; [done|].
  exists (dir_with_lock true d0). rewrite Hn. split; [|done].
  destruct Hc1, Hc2, Hc3. simpl in *. split; try congruence. rewrite sc_files1, insert_insert_eq. congruence.
Qed.

Lemma rmdir_try_part s :
  part_ok s -> part_empty s = true ->
  wp (FsServer.rmdir i RMDIR_TRY) (fun r t => r = OK /\ locked s t) s.
Proof.
  intros [Hq Hd _ _] He. unfold part_empty in He. destruct (m_files s !! i) as [v|] eqn:Hv.
  - destruct (Hd v eq_refl) as (d & -> & Hdir & Hid & Hl).
    eapply wp_mono; [by apply (rmdir_try_wp i d)|]. cbv beta. rewrite Hl. intros r t [-> Hc].
    split; [done|]. exists (dir_with_lock true d). rewrite Hv. split; [done|]. do 4 (split; [done|]).
    f_equal. destruct d. by simpl in *; subst.
  - by apply rmdir_try_absent.
Qed.

Lemma rmdir_refused s phase :
  part_ok s -> part_empty s = false ->
  wp (FsServer.rmdir i phase) (fun r t => r = NOT_EMPTY /\ same_core s t) s.
Proof.
  intros [_ Hd _ _] He. unfold part_empty in He. destruct (m_files s !! i) as [v|] eqn:Hv; [|done].
  destruct (Hd v eq_refl) as (d & -> & Hdir & _). by apply (rmdir_nonempty_wp i d).
Qed.

Lemma rmdir_fail_part s t :
  locked s t -> wp (FsServer.rmdir i RMDIR_FAIL) (fun r t' => r = OK /\ restored s t') t.
Proof.
  intros (d & Hc & Hdir & Hid & Hl & He & Hold). destruct Hc.
  assert (Ht : m_files t !! i = Some (DirV d)) by (by rewrite fc_files, lookup_insert_eq).
  eapply wp_mono; [by apply (rmdir_fail_wp i d)|]. cbv beta. intros r t' [-> Hc']. split; [done|].
  destruct Hc'. rewrite fc_files, insert_insert_eq in fc_files0.
  destruct (m_files s !! i) as [v|] eqn:Hv.
  - left. subst v. rewrite insert_id in fc_files0 by done. split; congruence.
  - right. split; [done|]. exists (dir_with_lock false d). split; [|done]. split; congruence.
Qed.

Lemma rmdir_success_part s t :
  part_ok s -> locked s t ->
  wp (FsServer.rmdir i RMDIR_SUCCESS) (fun r t' => r = OK /\ removed s t') t.
Proof.
  intros [_ _ [Hr1 Hr2] Hf] (d & Hc & Hdir & Hid & Hl & He & _). destruct Hc.
  assert (Ht : m_files t !! i = Some (DirV d)) by (by rewrite fc_files, lookup_insert_eq).
  eapply wp_mono; [apply (rmdir_success_wp i d); try done|].
  - split; [done|]. by rewrite fc_id.
  - intros fd e. rewrite fc_fds. apply Hf.
  - cbv beta. intros r t' [-> Hc']. split; [done|]. destruct Hc'.
    rewrite fc_files, delete_insert_eq in fc_files0. split; congruence.
Qed.
End Part.

(** ** All parts *)

Section Protocol.
Context `{Config} `{Env}.
Variable early : nat -> nat -> bool.
Variable chan : Z.

Lemma fosDoRmdir_wp k id phase s (R : Z -> Server -> Prop) (Q : Z -> World -> Prop) w :
  0 <= k -> w_servers w !! Z.to_nat k = Some s -> wp (FsServer.rmdir id phase) R s ->
  (forall rv s' w', R rv s' -> core_eq (<[Z.to_nat k := s']> (w_servers w)) (w_servers w') -> Q rv w') ->
  wp (fosDoRmdir early chan k id phase) Q w.
Proof.
  intros Hk Hs HR HQ. unfold fosDoRmdir. eapply wp_status_rpc; [done..| |exact HQ].
  simpl. unfold rmdir. apply wp_bind. eapply wp_mono; [exact HR|].
  cbv beta. intros rv s' HR'. apply wp_ret. eauto.
Qed.

(** What happened to each server. *)
Definition each (P : nat -> Server -> Server -> Prop) (ss ss' : list Server) : Prop :=
  length ss' = length ss /\
  forall j s t, ss !! j = Some s -> ss' !! j = Some t -> P j s t.

Lemma each_mono (P Q : nat -> Server -> Server -> Prop) ss ss' :
  each P ss ss' -> (forall j s t, ss !! j = Some s -> P j s t -> Q j s t) -> each Q ss ss'.
Proof. intros [Hl HP] HQ. split; [done|]. eauto. Qed.

Lemma core_eq_step k s' ss ss1 j s t :
  core_eq (<[k := s']> ss) ss1 -> ss !! j = Some s -> ss1 !! j = Some t ->
  (j = k /\ same_core s' t) \/ (j <> k /\ same_core s t).
Proof.
  intros Hc Hs Ht. destruct (decide (j = k)) as [->|Hne]; [left|right]; (split; [done|]).
  - apply (Forall2_lookup_lr _ _ _ k _ _ Hc); [|done].
    apply list_lookup_insert_eq. by eapply lookup_lt_Some.
  - apply (Forall2_lookup_lr _ _ _ j _ _ Hc); [|done]. by rewrite list_lookup_insert_ne.
Qed.

Lemma core_eq_step_length k s' ss ss1 : core_eq (<[k := s']> ss) ss1 -> length ss1 = length ss.
Proof. intros Hc. apply core_eq_length in Hc. by rewrite length_insert in Hc. Qed.

Variable child : InodeType.
Let id := it_id child.
Let home := it_server child.

(** [em j] tells whether the part on server [j] is empty. *)
Variable em : Z -> bool.
Definition parts_ok (ss : list Server) : Prop :=
  forall j s, ss !! j = Some s -> part_ok id s /\ part_empty id s = em (Z.of_nat j).

Definition answer (j : Z) : Z := if (j =? home) || em j then OK else NOT_EMPTY.

Lemma answer_home : answer home = OK.
Proof. unfold answer. by rewrite Z.eqb_refl. Qed.

Lemma answer_away j : j <> home -> answer j = if em j then OK else NOT_EMPTY.
Proof. intros Hj. unfold answer. by rewrite (proj2 (Z.eqb_neq j home)). Qed.

(** After the first phase on the servers [js]: the empty parts are locked. *)
Definition tried (js : list Z) (j : nat) (s t : Server) : Prop :=
  if decide (Z.of_nat j ∈ js /\ Z.of_nat j <> home)
  then (if em (Z.of_nat j) then locked id s t else same_core s t)
  else same_core s t.

Lemma tried_home js j s t : tried js j s t -> tried (home :: js) j s t.
Proof.
  unfold tried. rewrite (decide_ext (Z.of_nat j ∈ js /\ Z.of_nat j <> home)
    (Z.of_nat j ∈ home :: js /\ Z.of_nat j <> home)); [done|]. rewrite elem_of_cons. naive_solver.
Qed.

Lemma tried_core js j s s' t t' :
  same_core s s' -> same_core t t' -> tried js j s' t -> tried js j s t'.
Proof.
  intros Hs Ht. unfold tried.
  destruct (decide _); [destruct (em _)|]; rewrite <- ?Hs, <- ?Ht; try done;
    intros Hst; (etrans; [exact Hs|]; etrans; [exact Hst|done]).
Qed.

(** The parts of [js] other than the home are as they were before the removal. *)
Definition untouched (js : list Z) (ss : list Server) : Prop :=
  forall j s, ss !! j = Some s -> Z.of_nat j ∈ js -> Z.of_nat j <> home ->
    part_ok id s /\ part_empty id s = em (Z.of_nat j).

Lemma untouched_step j0 js k s' ss ss1 :
  core_eq (<[k := s']> ss) ss1 -> untouched (j0 :: js) ss -> Z.of_nat k ∉ js -> untouched js ss1.
Proof.
  intros Hc Hu Hk j t Ht Hj Hh. destruct (lookup_lt_is_Some_2 ss j) as [s Hs].
  { rewrite <- (core_eq_step_length _ _ _ _ Hc). by eapply lookup_lt_Some. }
  destruct (core_eq_step _ _ _ _ _ _ _ Hc Hs Ht) as [[-> _]|[_ Hst]]; [done|].
  destruct (Hu j s Hs) as [? ?]; [by right|done|]. split; [by eapply part_ok_core|].
  by rewrite (part_empty_core id s t).
Qed.

Lemma tried_step k js s0 s' ss ss1 ss2 :
  ss !! k = Some s0 -> Z.of_nat k ∉ js -> Z.of_nat k <> home ->
  (if em (Z.of_nat k) then locked id s0 s' else same_core s0 s') ->
  core_eq (<[k := s']> ss) ss1 -> each (tried js) ss1 ss2 -> each (tried (Z.of_nat k :: js)) ss ss2.
Proof.
  intros Hs0 Hk Hh Hstep Hc [Hl He]. pose proof (core_eq_step_length _ _ _ _ Hc) as Hl1.
  split; [by rewrite Hl|]. intros j s t Hs Ht.
  destruct (lookup_lt_is_Some_2 ss1 j) as [t1 Ht1]; [rewrite Hl1; by eapply lookup_lt_Some|].
  specialize (He j t1 t Ht1 Ht). destruct (core_eq_step _ _ _ _ _ _ _ Hc Hs Ht1) as [[-> Hst]|[Hj Hst]].
  - unfold tried in *. rewrite decide_False in He by naive_solver.
    rewrite decide_True by (split; [by left|done]). replace s with s0 by congruence.
    destruct (em _); rewrite <- He, <- Hst; done.
  - eapply tried_core in He; [|exact Hst|reflexivity]. unfold tried in *.
    assert (Z.of_nat j <> Z.of_nat k) by lia. repeat case_decide; try done; exfalso; set_solver.
Qed.

Lemma try_gather_wp js rv w :
  NoDup js -> Forall (fun j => 0 <= j < Z.of_nat (length (w_servers w))) js ->
  untouched js (w_servers w) ->
  wp (try_gather early chan child rv js) (fun r w' =>
    r = (if forallb (fun j => answer j =? OK) js then rv else NOT_EMPTY, answer <$> js) /\
    each (tried js) (w_servers w) (w_servers w')) w.
Proof.
  revert rv w. induction js as [|j0 js IH]; intros rv w Hnd Hr Hu; cbn [try_gather].
  { apply wp_ret. split; [done|]. split; [done|]. intros j s t Hs Ht. unfold tried.
    rewrite decide_False by (intros [Hj _]; set_solver). naive_solver. }
  apply NoDup_cons in Hnd as [Hj0 Hnd]. apply Forall_cons in Hr as [Hr0 Hr]. fold home.
  cbn [forallb fmap list_fmap]. destruct (Z.eqb_spec j0 home) as [->|Hne].
  - apply wp_bind. eapply wp_mono; [apply IH; [done..|]|].
    { intros j s Hs Hj Hh. apply Hu; [done|by right|done]. }
    cbv beta. intros r w' [-> He]. apply wp_ret. split; [by rewrite answer_home|].
    eapply each_mono; [exact He|]. intros j s t _. apply tried_home.
  - destruct (lookup_lt_is_Some_2 (w_servers w) (Z.to_nat j0)) as [s0 Hs0]; [lia|].
    assert (Hz : Z.of_nat (Z.to_nat j0) = j0) by lia.
    pose proof (Hu _ _ Hs0) as Hu0. rewrite Hz in Hu0.
    destruct Hu0 as [Hok Hem]; [by left|done|]. pose proof (answer_away j0 Hne) as Hans.
    apply wp_bind. eapply (fosDoRmdir_wp j0 (it_id child) RMDIR_TRY s0
      (fun r t => r = answer j0 /\ if em j0 then locked id s0 t else same_core s0 t)); [lia|done| |].
    { rewrite Hans. destruct (em j0); [by apply rmdir_try_part|by apply rmdir_refused]. }
    cbv beta. intros ? s' w1 [-> Hstep] Hc. apply wp_bind.
    eapply wp_mono; [apply IH; [done| |]|].
    { by rewrite (core_eq_step_length _ _ _ _ Hc). }
    { eapply untouched_step; [exact Hc|exact Hu|by rewrite Hz]. }
    cbv beta. intros r w2 [-> He]. apply wp_ret. split.
    { cbn [fst snd]. f_equal. rewrite Hans. destruct (em j0); simpl; [done|].
      by destruct (forallb _ js). }
    rewrite <- Hz. eapply tried_step; rewrite ?Hz; done.
Qed.
(** The second phase, told to the parts that are locked; [Fin] is what the
    action makes of such a part, [ss0] the servers before the removal. *)
Section Commit.
Variable action : Z.
Variable Fin : Server -> Server -> Prop.
Context `{!Proper (same_core ==> same_core ==> iff) Fin}.
Variable ss0 : list Server.
Hypothesis Hparts : parts_ok ss0.
Hypothesis Haction : forall s t, part_ok id s -> locked id s t ->
  wp (FsServer.rmdir id action) (fun r t' => r = OK /\ Fin s t') t.

Definition to_commit (js : list Z) (ss : list Server) : Prop :=
  length ss = length ss0 /\
  forall j s t, ss0 !! j = Some s -> ss !! j = Some t -> Z.of_nat j ∈ js ->
    answer (Z.of_nat j) = OK -> locked id s t.

Definition committed (js : list Z) (j : nat) (t t' : Server) : Prop :=
  if decide (Z.of_nat j ∈ js /\ answer (Z.of_nat j) = OK)
  then forall s, ss0 !! j = Some s -> Fin s t'
  else same_core t t'.

Lemma to_commit_step k js s' ss ss1 :
  to_commit (Z.of_nat k :: js) ss -> Z.of_nat k ∉ js -> core_eq (<[k := s']> ss) ss1 -> to_commit js ss1.
Proof.
  intros [Hl Ht] Hk Hc. pose proof (core_eq_step_length _ _ _ _ Hc) as Hl1. split; [congruence|].
  intros j s t Hs Hj Hin Ha. destruct (lookup_lt_is_Some_2 ss j) as [t0 Ht0].
  { rewrite <- Hl1. by eapply lookup_lt_Some. }
  destruct (core_eq_step _ _ _ _ _ _ _ Hc Ht0 Hj) as [[-> _]|[_ Hst]]; [done|].
  rewrite <- Hst. eapply Ht; [done|done|by right|done].
Qed.

Lemma committed_step k js s' s0 ss ss1 ss2 :
  ss0 !! k = Some s0 -> Z.of_nat k ∉ js -> answer (Z.of_nat k) = OK -> Fin s0 s' ->
  core_eq (<[k := s']> ss) ss1 -> each (committed js) ss1 ss2 ->
  each (committed (Z.of_nat k :: js)) ss ss2.
Proof.
  intros Hs0 Hk Ha HF Hc [Hl He]. pose proof (core_eq_step_length _ _ _ _ Hc) as Hl1.
  split; [by rewrite Hl|]. intros j t t' Ht Ht'.
  destruct (lookup_lt_is_Some_2 ss1 j) as [t1 Ht1]; [rewrite Hl1; by eapply lookup_lt_Some|].
  specialize (He j t1 t' Ht1 Ht'). destruct (core_eq_step _ _ _ _ _ _ _ Hc Ht Ht1) as [[-> Hst]|[Hj Hst]].
  - unfold committed in *. rewrite decide_False in He by naive_solver.
    rewrite decide_True by (split; [by left|done]). intros s Hs. replace s with s0 by congruence.
    by rewrite <- He, <- Hst.
  - unfold committed in *. rewrite (decide_ext (Z.of_nat j ∈ js /\ answer (Z.of_nat j) = OK)
      (Z.of_nat j ∈ Z.of_nat k :: js /\ answer (Z.of_nat j) = OK)) in He.
    + case_decide; [done|]. by rewrite Hst.
    + rewrite elem_of_cons. naive_solver lia.
Qed.

Lemma committed_refused k js ss ss' :
  answer k <> OK -> each (committed js) ss ss' -> each (committed (k :: js)) ss ss'.
Proof.
  intros Hk He. eapply each_mono; [exact He|]. intros j t t' _. unfold committed.
  repeat case_decide; try done; exfalso; set_solver.
Qed.

Lemma commit_gather_wp js w :
  NoDup js -> Forall (fun j => 0 <= j < Z.of_nat (length (w_servers w))) js ->
  to_commit js (w_servers w) ->
  wp (commit_gather early chan id action js (answer <$> js)) (fun _ w' =>
    each (committed js) (w_servers w) (w_servers w')) w.
Proof.
  revert w. induction js as [|j0 js IH]; intros w Hnd Hr Ht; cbn [commit_gather fmap list_fmap].
  { apply wp_ret. split; [done|]. intros j s t Hs Hs'. unfold committed.
    rewrite decide_False by (intros [Hj _]; set_solver). naive_solver. }
  apply NoDup_cons in Hnd as [Hj0 Hnd]. apply Forall_cons in Hr as [Hr0 Hr].
  assert (Hz : Z.of_nat (Z.to_nat j0) = j0) by lia.
  assert (Ha : answer j0 = OK \/ answer j0 = NOT_EMPTY) by (unfold answer; destruct (_ || _); auto).
  apply wp_bind. destruct Ha as [Ha|Ha]; rewrite Ha; cbn [Z.eqb OK NOT_EMPTY].
  - destruct (lookup_lt_is_Some_2 (w_servers w) (Z.to_nat j0)) as [t0 Ht0]; [lia|].
    destruct Ht as [Hl Ht]. destruct (lookup_lt_is_Some_2 ss0 (Z.to_nat j0)) as [s0 Hs0]; [lia|].
    apply wp_bind. eapply (fosDoRmdir_wp j0 id action t0 (fun r t' => r = OK /\ Fin s0 t')); [lia|done| |].
    { apply Haction; [by eapply Hparts|]. eapply Ht; rewrite ?Hz; [done|done|by left|done]. }
    cbv beta. intros ? s' w1 [-> HF] Hc. apply wp_assert; [done|].
    eapply wp_mono; [apply IH; [done| |]|].
    + by rewrite (core_eq_step_length _ _ _ _ Hc).
    + eapply to_commit_step; [split; [exact Hl|rewrite Hz; exact Ht]|by rewrite Hz|exact Hc].
    + cbv beta. intros _ w2 He. rewrite <- Hz. eapply committed_step; rewrite ?Hz; done.
  - apply wp_ret. eapply wp_mono; [apply IH; [done|done|]|].
    + destruct Ht as [Hl Ht]. split; [done|]. intros j s t Hs Hs' Hin. apply Ht; [done..|by right].
    + cbv beta. intros _ w2 He. apply committed_refused; [by rewrite Ha|done].
Qed.
End Commit.
(** The home of the directory is locked first. *)
Lemma rmdir_try_home_wp fuel w :
  0 <= home < Z.of_nat (length (w_servers w)) -> parts_ok (w_servers w) ->
  wp (rmdir_try early chan (S fuel) home id) (fun r w' =>
    r = (if em home then OK else NOT_EMPTY) /\
    each (fun j s t => if (Z.of_nat j =? home) && em home then locked id s t else same_core s t)
      (w_servers w) (w_servers w')) w.
Proof.
  intros Hh Hp. destruct (lookup_lt_is_Some_2 (w_servers w) (Z.to_nat home)) as [s0 Hs0]; [lia|].
  assert (Hz : Z.of_nat (Z.to_nat home) = home) by lia.
  destruct (Hp _ _ Hs0) as [Hok Hem]. rewrite Hz in Hem. cbn [rmdir_try]. apply wp_bind.
  eapply (fosDoRmdir_wp home id RMDIR_TRY s0 (fun r t => r = (if em home then OK else NOT_EMPTY) /\
    if em home then locked id s0 t else same_core s0 t)); [lia|done| |].
  { destruct (em home); [by apply rmdir_try_part|by apply rmdir_refused]. }
  cbv beta. intros ? s' w1 [-> Hstep] Hc.
  replace ((if em home then OK else NOT_EMPTY) =? - EAGAIN) with false by (by destruct (em home)).
  apply wp_ret. split; [done|]. split; [by apply core_eq_step_length in Hc|]. intros j s t Hs Ht.
  destruct (core_eq_step _ _ _ _ _ _ _ Hc Hs Ht) as [[-> Hst]|[Hj Hst]].
  - rewrite Hz, Z.eqb_refl. replace s with s0 by congruence. simpl.
    destruct (em home); rewrite <- Hst; done.
  - by rewrite (proj2 (Z.eqb_neq (Z.of_nat j) home)) by lia.
Qed.

Definition tried_all (j : nat) (s t : Server) : Prop :=
  if answer (Z.of_nat j) =? OK then locked id s t else same_core s t.

Lemma each_compose (P Q R : nat -> Server -> Server -> Prop) ss ss1 ss2 :
  each P ss ss1 -> each Q ss1 ss2 ->
  (forall j s t u, ss !! j = Some s -> P j s t -> Q j t u -> R j s u) -> each R ss ss2.
Proof.
  intros [Hl1 HP] [Hl2 HQ] HR. split; [congruence|]. intros j s u Hs Hu.
  destruct (lookup_lt_is_Some_2 ss1 j) as [t Ht]; [rewrite Hl1; by eapply lookup_lt_Some|]. eauto.
Qed.

(** Both phases on the other servers. *)
Lemma tried_all_intro js ss ss1 ss2 :
  em home = true -> (forall j, (j < length ss)%nat -> Z.of_nat j ∈ js) ->
  each (fun j s t => if (Z.of_nat j =? home) && em home then locked id s t else same_core s t) ss ss1 ->
  each (tried js) ss1 ss2 -> each tried_all ss ss2.
Proof.
  intros Hem Hjs H1 H2. eapply each_compose; [exact H1|exact H2|]. cbv beta. intros j s t u Hs.
  rewrite Hem, andb_true_r. assert (Hj : Z.of_nat j ∈ js) by (by eapply Hjs, lookup_lt_Some).
  unfold tried, tried_all. destruct (Z.eqb_spec (Z.of_nat j) home) as [->|Hne].
  - rewrite decide_False by naive_solver. rewrite answer_home. simpl. by intros ? <-.
  - rewrite decide_True by done. rewrite answer_away by done. intros Hst.
    destruct (em (Z.of_nat j)); simpl; intros Htu; by rewrite Hst.
Qed.

Lemma untouched_home js ss ss1 :
  parts_ok ss ->
  each (fun j s t => if (Z.of_nat j =? home) && em home then locked id s t else same_core s t) ss ss1 ->
  untouched js ss1.
Proof.
  intros Hp [Hl He] j t Ht _ Hh. destruct (lookup_lt_is_Some_2 ss j) as [s Hs].
  { rewrite <- Hl. by eapply lookup_lt_Some. }
  specialize (He j s t Hs Ht). cbv beta in He. rewrite (proj2 (Z.eqb_neq _ _)) in He by done. simpl in He.
  destruct (Hp j s Hs) as [Hok Hem]. split; [by eapply part_ok_core|]. by rewrite (part_empty_core id s t).
Qed.

Lemma restored_core s t : same_core s t -> restored id s t.
Proof. intros []. left. by split. Qed.

Lemma committed_all Fin ss0 js ss ss' :
  each tried_all ss0 ss -> (forall j, (j < length ss0)%nat -> Z.of_nat j ∈ js) ->
  each (committed Fin ss0 js) ss ss' ->
  each (fun j s t => if answer (Z.of_nat j) =? OK then Fin s t else same_core s t) ss0 ss'.
Proof.
  intros H1 Hjs H2. eapply each_compose; [exact H1|exact H2|]. cbv beta.
  intros j s t u Hs. assert (Hj : Z.of_nat j ∈ js) by (by eapply Hjs, lookup_lt_Some).
  unfold tried_all, committed. destruct (Z.eqb_spec (answer (Z.of_nat j)) OK) as [Ha|Ha].
  - rewrite decide_True by done. eauto.
  - rewrite decide_False by naive_solver. intros ? ?. by etrans.
Qed.
Lemma answers_ok ss js :
  parts_ok ss -> (forall j, j ∈ js <-> 0 <= j < Z.of_nat (length ss)) -> em home = true ->
  forallb (fun j => answer j =? OK) js = forallb (part_empty id) ss.
Proof.
  intros Hp Hjs Hem. apply eq_iff_eq_true. rewrite !forallb_forall. split.
  - intros Ha s Hs. apply list_elem_of_In, list_elem_of_lookup in Hs as [j Hj].
    destruct (Hp j s Hj) as [_ ->].
    specialize (Ha (Z.of_nat j)). rewrite <- list_elem_of_In in Ha. apply lookup_lt_Some in Hj as Hlt.
    specialize (Ha ltac:(apply Hjs; lia)). unfold answer in Ha.
    destruct (Z.eqb_spec (Z.of_nat j) home) as [->|]; [done|]. simpl in Ha. by destruct (em (Z.of_nat j)).
  - intros He j Hj. apply list_elem_of_In, Hjs in Hj.
    destruct (lookup_lt_is_Some_2 ss (Z.to_nat j)) as [s Hs]; [lia|].
    destruct (Hp _ s Hs) as [_ Hpe]. rewrite Z2Nat.id in Hpe by lia. unfold answer.
    rewrite <- Hpe, He; [by rewrite orb_true_r|]. by eapply list_elem_of_In, list_elem_of_lookup_2.
Qed.

(** The outcome of the two phases on all servers. *)
Definition outcome_of (ss : list Server) (j : nat) (s t : Server) : Prop :=
  if forallb (part_empty id) ss then removed id s t else restored id s t.

(** Both phases, for either action. *)
Lemma gather_wp (w w1 : World) js :
  parts_ok (w_servers w) -> em home = true -> NoDup js ->
  (forall j, j ∈ js <-> 0 <= j < Z.of_nat (length (w_servers w))) ->
  each (fun j s t => if (Z.of_nat j =? home) && em home then locked id s t else same_core s t)
    (w_servers w) (w_servers w1) ->
  wp (r ← try_gather early chan child OK js;
      let '(rv, rm_retvals) := r in
      commit_gather early chan id (if rv =? OK then RMDIR_SUCCESS else RMDIR_FAIL) js rm_retvals;;
      mret (rv, if rv =? OK then RMDIR_SUCCESS else RMDIR_FAIL))
    (fun r w' => r = (if forallb (part_empty id) (w_servers w) then (OK, RMDIR_SUCCESS) else (NOT_EMPTY, RMDIR_FAIL)) /\
      each (outcome_of (w_servers w)) (w_servers w) (w_servers w')) w1.
Proof.
  intros Hp Hem Hnd Hjs H1. pose proof (proj1 H1) as Hl1.
  assert (Hr : forall n, n = length (w_servers w) -> Forall (fun j => 0 <= j < Z.of_nat n) js).
  { intros n ->. apply Forall_forall. intros j. by apply Hjs. }
  assert (Hin : forall j, (j < length (w_servers w))%nat -> Z.of_nat j ∈ js) by (intros; apply Hjs; lia).
  apply wp_bind. eapply wp_mono; [apply try_gather_wp; [done|by apply Hr|by eapply untouched_home]|].
  cbv beta. intros ? w2 [-> H2]. rewrite (answers_ok _ _ Hp Hjs Hem).
  pose proof (tried_all_intro _ _ _ _ Hem Hin H1 H2) as H3. clear H1 H2 w1 Hl1.
  assert (Hc : to_commit (w_servers w) js (w_servers w2)).
  { destruct H3 as [Hl H3]. split; [done|]. intros j s t Hs Ht _ Ha. specialize (H3 j s t Hs Ht).
    unfold tried_all in H3. by rewrite Ha in H3. }
  cbv iota. unfold outcome_of. destruct (forallb (part_empty id) (w_servers w)) eqn:Hall; cbn [Z.eqb OK NOT_EMPTY].
  - apply wp_bind. eapply wp_mono.
    { apply (commit_gather_wp RMDIR_SUCCESS (removed id) (w_servers w) Hp); [by apply rmdir_success_part|done| |done].
      by apply Hr, (proj1 H3). }
    cbv beta. intros _ w3 H4. apply wp_ret. split; [done|].
    eapply each_mono; [by apply (committed_all (removed id) _ js (w_servers w2))|]. cbv beta. intros j s t Hs.
    rewrite <- (answers_ok _ _ Hp Hjs Hem), forallb_forall in Hall. rewrite Hall; [done|].
    apply list_elem_of_In, Hin. by eapply lookup_lt_Some.
  - apply wp_bind. eapply wp_mono.
    { apply (commit_gather_wp RMDIR_FAIL (restored id) (w_servers w) Hp); [|done| |done].
      - intros s t _ Hlk. by apply rmdir_fail_part.
      - by apply Hr, (proj1 H3). }
    cbv beta. intros _ w3 H4. apply wp_ret. split; [done|].
    eapply each_mono; [by apply (committed_all (restored id) _ js (w_servers w2))|]. cbv beta. intros j s t Hs.
    destruct (_ =? _); [done|]. apply restored_core.
Qed.
End Protocol.

(** ** The removal *)

Section Removal.
Context `{ConfigOk} `{EnvOk}.
Variable early : nat -> nat -> bool.
Variable chan : Z.

(** What the client finds: every server has a part that can be removed, and the
    server of the directory entry holds it in a directory. *)
Record removal_ok (w : World) (parent child : InodeType) (des : Z) : Prop := {
  ro_count : Z.of_nat (length (w_servers w)) = CONFIG_FS_SERVER_COUNT;
  ro_home : 0 <= it_server child < CONFIG_FS_SERVER_COUNT;
  ro_des : 0 <= des < CONFIG_FS_SERVER_COUNT;
  ro_parts s : s ∈ w_servers w -> part_ok (it_id child) s;
  ro_dirs s : w_servers w !! Z.to_nat des = Some s -> dirs_ok s /\ dir_or_absent s (it_id parent);
  ro_parent : it_id parent <> it_id child
}.

(** The outcome on server [j]: nothing happened; or the part is gone, and the
    entry too where it was. *)
Definition rmdir_outcome (all_empty : bool) (parent child : InodeType) (path : string) (des : Z)
    (j : nat) (s t : Server) : Prop :=
  if all_empty
  then m_files t !! it_id child = None /\
    (forall i, i <> it_id child -> i <> it_id parent -> m_files t !! i = m_files s !! i) /\
    forall p n, p <> it_id child ->
      entry t p n = if decide (Z.of_nat j = des /\ p = it_id parent /\ n = path) then None else entry s p n
  else restored (it_id child) s t.

Definition part_empty_at (id : Z) (ss : list Server) (j : Z) : bool :=
  match ss !! Z.to_nat j with Some s => part_empty id s | None => true end.

Lemma parts_ok_at child ss :
  (forall s, s ∈ ss -> part_ok (it_id child) s) -> parts_ok child (part_empty_at (it_id child) ss) ss.
Proof.
  intros Hp j s Hs. split; [eapply Hp, list_elem_of_lookup_2, Hs|].
  unfold part_empty_at. by rewrite Nat2Z.id, Hs.
Qed.

Lemma entry_removed i s t p n : removed i s t -> p <> i -> entry t p n = entry s p n.
Proof. intros [] Hp. unfold entry. by rewrite fc_files, lookup_delete_ne. Qed.

(** Removing the entry when all parts are gone. *)
Lemma remove_entry_wp (w w1 : World) parent child path des s0 :
  removal_ok w parent child des -> w_servers w !! Z.to_nat des = Some s0 ->
  each (fun _ s t => removed (it_id child) s t) (w_servers w) (w_servers w1) ->
  wp (fosRemoveMap early chan des parent path) (fun r w2 =>
    r = match entry s0 (it_id parent) path with Some _ => OK | None => NOT_FOUND end /\
    each (rmdir_outcome true parent child path des) (w_servers w) (w_servers w2)) w1.
Proof.
  intros [Hn _ Hd _ Hdirs Hne] Hs0 [Hl Hrem].
  destruct (lookup_lt_is_Some_2 (w_servers w1) (Z.to_nat des)) as [t0 Ht0]; [lia|].
  pose proof (Hrem _ _ _ Hs0 Ht0) as Hrm. destruct (Hdirs _ Hs0) as [Hok Hda].
  eapply wp_status_rpc; [lia|exact Ht0| |].
  { simpl. unfold removemap. apply wp_bind. eapply wp_mono.
    - apply removemap_wp.
      + intros i d. rewrite (fc_files _ _ _ Hrm). intros Hi. eapply Hok. by eapply lookup_delete_Some.
      + intros v. rewrite (fc_files _ _ _ Hrm), lookup_delete_ne by done. apply Hda.
    - cbv beta. intros r t' Hr. apply wp_ret. eexists. split; [done|exact Hr]. }
  cbv beta. intros rv t' w2 (-> & Hent & _ & _ & Hfr) Hc. split.
  { by rewrite (entry_removed _ _ _ _ _ Hrm) by done. }
  split; [by rewrite (core_eq_step_length _ _ _ _ Hc)|]. intros j s u Hs Hu.
  destruct (lookup_lt_is_Some_2 (w_servers w1) j) as [t Ht]; [rewrite Hl; by eapply lookup_lt_Some|].
  pose proof (Hrem _ _ _ Hs Ht) as Hrj. unfold rmdir_outcome.
  destruct (core_eq_step _ _ _ _ _ _ _ Hc Ht Hu) as [[-> Hst]|[Hj Hst]];
    [|rewrite (sc_files _ _ Hst), (fc_files _ _ _ Hrj)].
  - rewrite (sc_files _ _ Hst). replace t with t0 in * by congruence. replace s with s0 in * by congruence.
    split; [rewrite Hfr by done; by rewrite (fc_files _ _ _ Hrj), lookup_delete_eq|]. split.
    + intros i Hi Hip. rewrite Hfr by done. by rewrite (fc_files _ _ _ Hrj), lookup_delete_ne.
    + intros p n Hp. rewrite (entry_core t' u), Hent, (entry_removed _ _ _ _ _ Hrj) by done.
      rewrite Z2Nat.id by lia. repeat case_decide; naive_solver.
  - split; [by rewrite lookup_delete_eq|]. split; [intros; by rewrite lookup_delete_ne|].
    intros p n Hp. rewrite (entry_core t u), (entry_removed _ _ _ _ _ Hrj) by done.
    rewrite decide_False; [done|]. lia.
Qed.

(** C6: The removal of a directory that is spread over all servers is all or
    nothing.  Let every server have a part of the directory that is not locked and not
    open (or none, it is made on demand).  If all parts are empty, the directory is
    gone from every server, the entry that leads to it is gone from the server
    that held it, and every other file and entry is unchanged; otherwise the call
    returns [NOT_EMPTY] and every server is as before, except that it may have
    got an empty unlocked part. *)
Theorem rmdir_all_or_nothing fuel parent path child des s0 w :
  ENABLE_RM_SCATTER_GATHER = true -> it_type child = TYPE_DIR_SHARED ->
  removal_ok w parent child des -> w_servers w !! Z.to_nat des = Some s0 ->
  let all_empty := forallb (part_empty (it_id child)) (w_servers w) in
  wp (do_rmdir early chan (S fuel) parent path child des) (fun rv w' =>
    rv = (if all_empty then match entry s0 (it_id parent) path with Some _ => OK | None => NOT_FOUND end
          else NOT_EMPTY) /\
    each (rmdir_outcome all_empty parent child path des) (w_servers w) (w_servers w')) w.
Proof.
  intros Hsg Hty Hro Hs0. cbv zeta. unfold do_rmdir. rewrite bool_decide_true by done. cbn [negb].
  pose proof (parts_ok_at child _ (ro_parts _ _ _ _ Hro)) as Hp. pose proof (ro_count _ _ _ _ Hro) as Hn.
  set (em := part_empty_at _ _) in Hp.
  apply wp_bind. eapply wp_mono; [apply (rmdir_try_home_wp early chan child em); [|done]|].
  { rewrite Hn. apply (ro_home _ _ _ _ Hro). }
  cbv beta. intros r w1 [-> Hw1]. destruct (em (it_server child)) eqn:Hem.
  2: { simpl. apply wp_ret. replace (forallb _ _) with false.
    - split; [done|]. eapply each_mono; [exact Hw1|]. cbv beta. intros j s t _.
      rewrite andb_false_r. apply restored_core.
    - symmetry. apply not_true_is_false. intros Hall. rewrite forallb_forall in Hall.
      unfold em, part_empty_at in Hem.
      destruct (w_servers w !! Z.to_nat (it_server child)) as [s|] eqn:Hs; [|done].
      rewrite Hall in Hem; [done|]. by eapply list_elem_of_In, list_elem_of_lookup_2. }
  change (OK =? OK) with true. cbn [negb]. rewrite Hsg. apply wp_bind. eapply wp_mono.
  { apply (gather_wp early chan child em w w1); [done|done|apply NoDup_seqZ| |].
    - intros j. rewrite elem_of_seqZ, Hn. lia.
    - by rewrite Hem. }
  cbv beta. intros r w2 [-> Hw2]. unfold outcome_of in Hw2.
  destruct (forallb _ (w_servers w)) eqn:Hall; simpl negb; cbv iota; [|by apply wp_ret].
  apply wp_bind. eapply wp_mono; [by eapply remove_entry_wp|]. cbv beta. intros rv w3 Hres.
  apply wp_bind. destruct (_ && _); [|by apply wp_ret, wp_ret].
  apply wp_bind, wp_mod_cache. intros w4 Hw4. apply wp_mod_cache. intros w5 Hw5. apply wp_ret.
  by rewrite Hw5, Hw4.
Qed.
End Removal.

(** ** Demonstration *)

Definition part_okb (i : Z) (s : Server) : bool :=
  negb (g_inode_seq s =? INT32_MAX) && negb (i =? ORPHANS) && negb ((s_id s =? 0) && (i =? ROOT_INO)) &&
  match m_files s !! i with
  | Some (DirV d) => isDir (DirV d) && (m_id (d_base d) =? i) && negb (m_locked d)
  | Some _ => false
  | None => true
  end &&
  forallb (fun kd => negb (fd_id (snd kd) =? i)) (map_to_list (m_fds s)).

Lemma part_okb_ok i s : part_okb i s = true -> part_ok i s.
Proof.
  unfold part_okb. rewrite !andb_true_iff, !negb_true_iff. intros ((((Hq & Ho) & Hr) & Hd) & Hf). split.
  - lia.
  - intros v Hv. rewrite Hv in Hd. destruct v as [|d| |]; try done.
    rewrite !andb_true_iff, negb_true_iff in Hd. destruct Hd as [[? ?] ?].
    exists d. split; [done|]. split; [done|]. split; [lia|done].
  - split; lia.
  - intros fd e He Hi. by destruct (no_fd_of s i Hf fd e He).
Qed.

Definition dirs_okb (s : Server) : bool :=
  forallb (fun kv => match kv.2 with
    | DirV d => isDir (DirV d) && bool_decide (NoDup (m_children d).*1)
    | _ => true end) (map_to_list (m_files s)).

Lemma dirs_okb_ok s : dirs_okb s = true -> dirs_ok s.
Proof.
  unfold dirs_okb. rewrite forallb_forall. intros Hall i d Hd.
  apply elem_of_map_to_list, list_elem_of_In, Hall in Hd. simpl in Hd.
  apply andb_true_iff in Hd as [? Hnd]. split; [done|]. by eapply bool_decide_eq_true_1.
Qed.

Definition demo_child : InodeType := mkInodeType 1 67108867 TYPE_DIR_SHARED.

Lemma demo_removal_ok w :
  bool_decide (length (w_servers w) = 3%nat) && forallb (part_okb (it_id demo_child)) (w_servers w) &&
    forallb dirs_okb (w_servers w) && forallb (fun s =>
      match m_files s !! it_id root_dir with Some (DirV _) => true | Some _ => false | None => true end)
      (w_servers w) = true ->
  @removal_ok small_config w root_dir demo_child 0.
Proof.
  rewrite !andb_true_iff, bool_decide_eq_true, !forallb_forall. intros (((Hl & Hp) & Hd) & Hr). split.
  - by rewrite Hl.
  - done.
  - done.
  - intros s Hs. by apply part_okb_ok, Hp, list_elem_of_In.
  - intros s Hs. apply list_elem_of_lookup_2, list_elem_of_In in Hs. split; [by apply dirs_okb_ok, Hd|].
    intros v Hv. specialize (Hr s Hs). rewrite Hv in Hr. destruct v; naive_solver.
  - done.
Qed.

(** The shared directory of the demonstration is removed while it is empty, and
    stays when it has an entry. *)
Lemma rmdir_all_or_nothing_witness :
  wp (@do_rmdir small_config plain_env late 7 1 root_dir "d" demo_child 0)
    (fun rv w' => rv = OK /\ length (w_servers w') = 3%nat) demo_mkdir /\
  wp (@do_rmdir small_config plain_env late 7 1 root_dir "d" demo_child 0)
    (fun rv w' => rv = NOT_EMPTY /\ length (w_servers w') = 3%nat) demo_full.
Proof.
  split; (eapply wp_mono;
    [eapply (@rmdir_all_or_nothing small_config plain_env plain_env_ok late 7 0);
      [reflexivity|reflexivity|apply demo_removal_ok; vm_compute; reflexivity|vm_compute; reflexivity]|]);
    cbv beta; intros rv w' [-> [-> _]]; vm_compute; done.
Defined.
