(* ===== verification/FsClientRename.v ===== *)
(** * Renaming across servers

    A file is renamed with one message to the server that holds both names, or
    with one message each to the two servers that do; a file that had the new
    name is destroyed. *)

From S2P Require Import Prelude FsTypes BufferCache FsFile FsNode FsServer FsServerInv FsServerOps FsMarshall FsReach FsServerSpec FsLifetime FsDirCache FsClient FsClientSpec FsClientRmdir.

Section Rename.
Context `{ConfigOk} `{EnvOk}.
Variable early : nat -> nat -> bool.
Variable chan : Z.

Variables old_parent new_parent child : InodeType.
Variables oldpath newpath : string.
Variables old_server new_server : Z.

(** What the new name leads to before. *)
Variable old : option InodeType.

(** The entries of one server, before and after: the new name is entered where it
    belongs, the old one is gone, nothing else is different. *)
Definition renamed (j : nat) (s t : Server) : Prop :=
  (forall p n, entry t p n =
     if decide (Z.of_nat j = new_server /\ p = it_id new_parent /\ n = newpath) then Some child
     else if decide (Z.of_nat j = old_server /\ p = it_id old_parent /\ n = oldpath) then None
     else entry s p n) /\
  dirs_kept s t.

Record rename_ok (w : World) : Prop := {
  rn_old : fosPathOwner old_parent oldpath = Some old_server;
  rn_new : fosPathOwner new_parent newpath = Some new_server;
  rn_old_range : 0 <= old_server < Z.of_nat (length (w_servers w));
  rn_new_range : 0 <= new_server < Z.of_nat (length (w_servers w));
  rn_old_dir s : w_servers w !! Z.to_nat old_server = Some s ->
    dirs_ok s /\ dir_or_absent s (it_id old_parent) /\ entry s (it_id old_parent) oldpath = Some child;
  rn_new_dir s : w_servers w !! Z.to_nat new_server = Some s ->
    dirs_ok s /\ dir_or_absent s (it_id new_parent) /\ entry s (it_id new_parent) newpath = old /\
    g_inode_seq s <> INT32_MAX;
  rn_name : newpath <> "stats"%string
}.

(** The answer to the message that enters the new name. *)
Definition answer : Z * InodeType := match old with Some e => (EXIST, e) | None => (OK, child) end.

Lemma answer_ok : (fst answer =? EXIST) || (fst answer =? OK) = true.
Proof. unfold answer. by destruct old. Qed.
Lemma answer_ok' : (fst answer =? OK) || (fst answer =? EXIST) = true.
Proof. unfold answer. by destruct old. Qed.

(** What a step at server [k] did to its entries. *)
Definition entered (s t : Server) : Prop :=
  (forall p n, entry t p n =
     if decide (p = it_id new_parent /\ n = newpath) then Some child else entry s p n) /\ dirs_kept s t.
Definition dropped (s t : Server) : Prop :=
  (forall p n, entry t p n =
     if decide (p = it_id old_parent /\ n = oldpath) then None else entry s p n) /\ dirs_kept s t.

Lemma enter_wp s :
  dirs_ok s -> dir_or_absent s (it_id new_parent) -> g_inode_seq s <> INT32_MAX -> newpath <> "stats"%string ->
  entry s (it_id new_parent) newpath = old ->
  wp (FsServer.addmap chan (InodeOnly new_parent) newpath child true)
    (fun r t => r = answer /\ entered s t) s.
Proof.
  intros Hok Hda Hq Hst Hno. eapply wp_mono; [by apply addmap_wp|]. cbv zeta beta. simpl. rewrite Hno.
  intros r t (-> & Hent & Hk & _). split; [done|]. split; [|done]. intros p n. rewrite Hent.
  apply decide_ext. naive_solver.
Qed.
Lemma drop_wp s :
  dirs_ok s -> dir_or_absent s (it_id old_parent) -> entry s (it_id old_parent) oldpath = Some child ->
  wp (FsServer.removemap chan (it_id old_parent) oldpath) (fun r t => r = OK /\ dropped s t) s.
Proof.
  intros Hok Hda He. eapply wp_mono; [by apply removemap_wp|]. cbv beta. rewrite He. simpl.
  by intros r t (-> & Hent & Hk & _).
Qed.

(** The message for both names on one server. *)
Lemma move_wp s :
  dirs_ok s -> dir_or_absent s (it_id new_parent) -> dir_or_absent s (it_id old_parent) ->
  g_inode_seq s <> INT32_MAX -> newpath <> "stats"%string ->
  entry s (it_id new_parent) newpath = old -> entry s (it_id old_parent) oldpath = Some child ->
  wp (handle chan (UpdateMapRequest (InodeOnly new_parent) child true old_parent newpath oldpath))
    (fun x u => x = StatusInodeTypeReply (fst answer) (Some (snd answer)) /\ exists t, entered s t /\ dropped t u) s.
Proof.
  intros Hok Hn Ho Hq Hst Hno He. simpl. unfold updatemap. apply wp_bind.
  eapply wp_mono; [by apply enter_wp|]. cbv beta. intros r t [-> Ht]. apply wp_bind, wp_assert; [apply answer_ok'|].
  destruct Ht as [Hent Hk]. apply wp_bind. eapply wp_mono; [apply drop_wp|].
  - by apply Hk.
  - by apply Hk.
  - rewrite Hent. by case_decide.
  - cbv beta. intros r u [-> Hu]. apply wp_bind, wp_assert; [done|]. apply wp_ret. split; [done|]. by exists t.
Qed.

(** A request whose answer has an inode. *)
Lemma wp_inode_rpc k r s (R : Z * option InodeType -> Server -> Prop) (Q : Z * option InodeType -> World -> Prop) w :
  0 <= k -> w_servers w !! Z.to_nat k = Some s ->
  wp (handle chan r) (fun x s' => exists rv i, x = StatusInodeTypeReply rv i /\ R (rv, i) s') s ->
  (forall x s' w', R x s' -> core_eq (<[Z.to_nat k := s']> (w_servers w)) (w_servers w') -> Q x w') ->
  wp (inode_rpc early chan k r) Q w.
Proof.
  intros Hk Hs HR HQ. unfold inode_rpc. apply wp_bind. eapply wp_rpc; [done..|].
  cbv beta. intros x s' w' (rv & i & -> & HR') Hw'. apply wp_ret. by eapply HQ.
Qed.

(** The entry in the directory cache does not concern the servers. *)
Lemma cache_wp (b : bool) f (x : Z * option InodeType) (Q : Z * option InodeType -> World -> Prop) w :
  (forall w', w_servers w' = w_servers w -> Q x w') ->
  wp ((if b then mod_cache chan f else mret tt);; mret x) Q w.
Proof.
  intros HQ. apply wp_bind. destruct b; [apply wp_mod_cache; intros w' Hw'|apply wp_ret]; apply wp_ret; by apply HQ.
Qed.

Lemma fosUpdateMap_wp s w :
  rename_ok w -> new_server = old_server -> w_servers w !! Z.to_nat new_server = Some s ->
  wp (fosUpdateMap early chan new_server new_parent newpath child true old_parent oldpath) (fun r w' =>
    r = (fst answer, Some (snd answer)) /\ exists t u, entered s t /\ dropped t u /\
    core_eq (<[Z.to_nat new_server := u]> (w_servers w)) (w_servers w')) w.
Proof.
  intros [] Heq Hs. destruct (rn_new_dir0 s Hs) as (Hok & Hn & Hno & Hq).
  rewrite Heq in Hs. destruct (rn_old_dir0 s Hs) as (_ & Ho & He). rewrite <- Heq in Hs.
  unfold fosUpdateMap. apply wp_bind. eapply (wp_inode_rpc _ _ s); [lia|done| |].
  - eapply wp_mono; [by apply move_wp|]. cbv beta. intros x u [-> Hu]. do 2 eexists. split; [done|].
    exact (conj eq_refl Hu : (fun r u => r = (fst answer, Some (snd answer)) /\ exists t, entered s t /\ dropped t u) _ _).
  - cbv beta. intros x u w' [-> (t & Ht & Hu)] Hc. apply cache_wp. intros w2 ->. split; [done|]. by exists t, u.
Qed.

Lemma fosAddMap_wp s w :
  rename_ok w -> w_servers w !! Z.to_nat new_server = Some s ->
  wp (fosAddMap early chan new_server new_parent newpath child true) (fun r w' =>
    r = (fst answer, Some (snd answer)) /\ exists t, entered s t /\
    core_eq (<[Z.to_nat new_server := t]> (w_servers w)) (w_servers w')) w.
Proof.
  intros [] Hs. destruct (rn_new_dir0 s Hs) as (Hok & Hn & Hno & Hq).
  unfold fosAddMap. apply wp_bind. eapply (wp_inode_rpc _ _ s); [lia|done| |].
  - simpl. unfold addmap. apply wp_bind. eapply wp_mono; [by apply enter_wp|]. cbv beta. intros r t [-> Ht].
    apply wp_bind, wp_assert; [apply answer_ok'|]. apply wp_ret. do 2 eexists. split; [done|].
    exact (conj eq_refl Ht : (fun r u => r = (fst answer, Some (snd answer)) /\ entered s u) _ _).
  - cbv beta. intros x u w' [-> Ht] Hc. apply cache_wp. intros w2 ->. split; [done|]. by exists u.
Qed.

Lemma fosRemoveMap_wp s w :
  0 <= old_server -> w_servers w !! Z.to_nat old_server = Some s ->
  dirs_ok s -> dir_or_absent s (it_id old_parent) -> entry s (it_id old_parent) oldpath = Some child ->
  wp (fosRemoveMap early chan old_server old_parent oldpath) (fun r w' =>
    r = OK /\ exists t, dropped s t /\ core_eq (<[Z.to_nat old_server := t]> (w_servers w)) (w_servers w')) w.
Proof.
  intros Hr Hs Hok Ho He. eapply wp_status_rpc; [done..| |].
  - simpl. unfold removemap. apply wp_bind. eapply wp_mono; [by apply drop_wp|]. cbv beta. intros r t [-> Ht].
    apply wp_ret. eexists. split; [done|].
    exact (conj eq_refl Ht : (fun r u => r = OK /\ dropped s u) _ _).
  - cbv beta. intros rv t w' [-> Ht] Hc. split; [done|]. by exists t.
Qed.
(** *** The steps together *)

Lemma renamed_core j s s' t t' : same_core s s' -> same_core t t' -> renamed j s' t -> renamed j s t'.
Proof.
  intros Hs Ht [He Hk]. split.
  - intros p n. by rewrite (entry_core t t'), He, (entry_core s s').
  - etrans; [by apply dirs_kept_core|]. etrans; [exact Hk|]. by apply dirs_kept_core.
Qed.

Lemma renamed_elsewhere j s t :
  Z.of_nat j <> new_server -> Z.of_nat j <> old_server -> same_core s t -> renamed j s t.
Proof.
  intros Hn Ho Hc. split; [|by apply dirs_kept_core]. intros p n.
  rewrite !decide_False by naive_solver. by apply entry_core.
Qed.

(** The two names are not one. *)
Definition distinct : Prop := ~ (new_server = old_server /\ it_id old_parent = it_id new_parent /\ oldpath = newpath).

Lemma free_distinct w : old = None -> rename_ok w -> distinct.
Proof.
  intros Hno [] (Heq & Hp & Hn). destruct (lookup_lt_is_Some_2 (w_servers w) (Z.to_nat new_server)) as [s Hs]; [lia|].
  destruct (rn_new_dir0 s Hs) as (_ & _ & He & _). rewrite Heq in Hs.
  destruct (rn_old_dir0 s Hs) as (_ & _ & He'). rewrite Hp, Hn in He'. congruence.
Qed.

Lemma renamed_together w ss' s t u :
  rename_ok w -> distinct -> new_server = old_server -> w_servers w !! Z.to_nat new_server = Some s ->
  entered s t -> dropped t u -> core_eq (<[Z.to_nat new_server := u]> (w_servers w)) ss' ->
  each renamed (w_servers w) ss'.
Proof.
  intros Hok Hne Heq Hs [Ht Hk] [Hu Hk'] Hc.
  pose proof (rn_new_range w Hok) as Hr. split; [by rewrite (core_eq_step_length _ _ _ _ Hc)|].
  intros j s0 u' Hj Hj'. destruct (core_eq_step _ _ _ _ _ _ _ Hc Hj Hj') as [[-> Hst]|[Hjk Hst]].
  - replace s0 with s by congruence. apply (renamed_core _ s s u u'); [reflexivity|done|].
    split; [|by etrans]. intros p n. rewrite Hu, Ht, <- Heq, Z2Nat.id by lia.
    unfold distinct in Hne. repeat case_decide; naive_solver.
  - apply renamed_elsewhere; [lia..|done].
Qed.

Lemma renamed_apart w ss1 ss' s s' t u :
  rename_ok w -> new_server <> old_server ->
  w_servers w !! Z.to_nat new_server = Some s -> entered s t ->
  core_eq (<[Z.to_nat new_server := t]> (w_servers w)) ss1 ->
  ss1 !! Z.to_nat old_server = Some s' -> dropped s' u ->
  core_eq (<[Z.to_nat old_server := u]> ss1) ss' -> each renamed (w_servers w) ss'.
Proof.
  intros Hok Hne Hs [Ht Hk] Hc1 Hs' [Hu Hk'] Hc2. destruct Hok as [_ _ Hr1 Hr2 _ _ _].
  split; [by rewrite (core_eq_step_length _ _ _ _ Hc2), (core_eq_step_length _ _ _ _ Hc1)|].
  intros j s0 u' Hj Hj'. destruct (lookup_lt_is_Some_2 ss1 j) as [t0 Hj1].
  { rewrite (core_eq_step_length _ _ _ _ Hc1). by eapply lookup_lt_Some. }
  destruct (core_eq_step _ _ _ _ _ _ _ Hc1 Hj Hj1) as [[Hjn Hst]|[Hjn Hst]];
    destruct (core_eq_step _ _ _ _ _ _ _ Hc2 Hj1 Hj') as [[Hjo Hsu]|[Hjo Hsu]]; [lia|..].
  - rewrite Hjn in *. replace s0 with s by congruence.
    apply (renamed_core _ s s t u'); [reflexivity|by etrans|]. split; [|done]. intros p n. rewrite Ht, Z2Nat.id by lia.
    repeat case_decide; naive_solver.
  - rewrite Hjo in *. replace t0 with s' in * by congruence.
    apply (renamed_core _ s0 s' u u'); [done..|]. split; [|done]. intros p n. rewrite Hu, Z2Nat.id by lia.
    repeat case_decide; naive_solver.
  - apply renamed_elsewhere; [lia..|by etrans].
Qed.

(** The old name is where it was after the first of two messages. *)
Lemma old_name_kept w ss1 t :
  rename_ok w -> new_server <> old_server ->
  core_eq (<[Z.to_nat new_server := t]> (w_servers w)) ss1 ->
  exists s', ss1 !! Z.to_nat old_server = Some s' /\ dirs_ok s' /\ dir_or_absent s' (it_id old_parent) /\
    entry s' (it_id old_parent) oldpath = Some child.
Proof.
  intros [_ _ Hr1 Hr2 Ho _ _] Hne Hc. destruct (lookup_lt_is_Some_2 (w_servers w) (Z.to_nat old_server)) as [s0 Hs0]; [lia|].
  destruct (core_eq_lookup (Z.to_nat old_server) s0 _ ss1 Hc) as (s' & Hs' & Hst); [rewrite list_lookup_insert_ne; [done|lia]|].
  exists s'. destruct (Ho s0 Hs0) as (Hok & Hda & He). pose proof (dirs_kept_core _ _ Hst) as Hk.
  split; [done|]. split; [by apply Hk|]. split; [by apply Hk|]. by rewrite (entry_core s0 s').
Qed.

(** The servers after the messages about the two names. *)
Definition moved (w : World) (ss : list Server) : Prop :=
  (new_server = old_server /\ exists s t u, w_servers w !! Z.to_nat new_server = Some s /\ entered s t /\ dropped t u /\
     core_eq (<[Z.to_nat new_server := u]> (w_servers w)) ss) \/
  (new_server <> old_server /\ exists s t ss1 s' u, w_servers w !! Z.to_nat new_server = Some s /\ entered s t /\
     core_eq (<[Z.to_nat new_server := t]> (w_servers w)) ss1 /\ ss1 !! Z.to_nat old_server = Some s' /\ dropped s' u /\
     core_eq (<[Z.to_nat old_server := u]> ss1) ss).

Lemma moved_renamed w ss : rename_ok w -> distinct -> moved w ss -> each renamed (w_servers w) ss.
Proof.
  intros Hok Hd [(Heq & s & t & u & Hs & Ht & Hu & Hc)|(Hne & s & t & ss1 & s' & u & Hs & Ht & Hc & Hs' & Hu & Hc')].
  - by eapply renamed_together.
  - by eapply renamed_apart.
Qed.

Lemma finish_wp (rv0 : Z) f (Q : Z -> World -> Prop) w :
  is_dir_type (it_type child) = false -> (old = None -> rv0 = OK) ->
  (forall w', w_servers w' = w_servers w -> (old = None -> Q OK w') /\
     (forall e, old = Some e -> wp (fosDestroy early chan (it_server e) (it_id e)) (fun rv w2 => rv = OK /\ Q OK w2) w')) ->
  wp ((if ENABLE_DIRECTORY_CACHE then mod_cache chan f else mret tt);;
      rv ← (if fst answer =? EXIST
            then i ← deref (Some (snd answer)); rv ← fosDestroy early chan (it_server i) (it_id i); assert_ (rv =? OK);; mret rv
            else mret rv0);
      if bool_decide (it_type child = TYPE_DIR)
      then r ← fosAddMap early chan 0 child ".." new_parent true;
        assert_ ((fst r =? OK) || (fst r =? EXIST));; mret OK
      else mret rv) Q w.
Proof.
  intros Hd Hrv HQ. rewrite bool_decide_false by (intros Ht; by rewrite Ht in Hd).
  assert (Hend : forall w', w_servers w' = w_servers w -> wp (rv ← (if fst answer =? EXIST
      then i ← deref (Some (snd answer)); rv ← fosDestroy early chan (it_server i) (it_id i); assert_ (rv =? OK);; mret rv
      else mret rv0); mret rv) Q w').
  { intros w' Hw'. destruct (HQ w' Hw') as [Hn Hs]. apply wp_bind. unfold answer. destruct old as [e|]; simpl.
    - apply wp_bind, (wp_deref _ _ _ _ eq_refl), wp_bind. eapply wp_mono; [by apply Hs|]. cbv beta. intros rv w2 [-> HQ2].
      apply wp_bind, wp_assert; [done|]. by apply wp_ret, wp_ret.
    - apply wp_ret, wp_ret. rewrite Hrv by done. by apply Hn. }
  apply wp_bind. destruct ENABLE_DIRECTORY_CACHE; [apply wp_mod_cache; intros w' Hw'; by apply Hend|apply wp_ret; by apply Hend].
Qed.

Lemma do_rename_wp fuel w (Q : Z -> World -> Prop) :
  is_dir_type (it_type child) = false -> rename_ok w ->
  (forall w1, moved w (w_servers w1) -> (old = None -> Q OK w1) /\
     (forall e, old = Some e -> wp (fosDestroy early chan (it_server e) (it_id e)) (fun rv w2 => rv = OK /\ Q OK w2) w1)) ->
  wp (do_rename early chan fuel old_parent oldpath new_parent newpath child) Q w.
Proof.
  intros Hd Hok HQ. unfold do_rename. rewrite Hd. apply wp_bind, wp_ret. cbv iota. apply wp_bind, wp_ret.
  unfold path_owner. rewrite (rn_new w Hok), (rn_old w Hok). apply wp_bind, wp_ret, wp_bind, wp_ret, wp_bind.
  destruct (lookup_lt_is_Some_2 (w_servers w) (Z.to_nat new_server)) as [s Hs]; [pose proof (rn_new_range w Hok); lia|].
  assert (Ha : old = None -> fst answer = OK) by (unfold answer; by intros ->).
  destruct (Z.eqb_spec new_server old_server) as [Heq|Hne].
  - eapply wp_mono; [by apply fosUpdateMap_wp|]. cbv beta. intros r w1 (-> & t & u & Ht & Hu & Hc).
    apply wp_bind, wp_assert; [apply answer_ok|]. apply wp_bind, wp_ret. apply finish_wp; [done|done|].
    intros w2 Hw2. apply HQ. left. split; [done|]. exists s, t, u. by rewrite Hw2.
  - eapply wp_mono; [by apply fosAddMap_wp|]. cbv beta. intros r w1 (-> & t & Ht & Hc).
    destruct (old_name_kept w _ t Hok Hne Hc) as (s' & Hs' & Hok' & Hda & He).
    apply wp_bind, wp_assert; [apply answer_ok|]. do 2 apply wp_bind.
    eapply wp_mono; [apply (fosRemoveMap_wp s'); [apply (rn_old_range w Hok)|done..]|].
    cbv beta. intros r w2 (-> & u & Hu & Hc2). apply wp_bind, wp_assert; [done|]. apply wp_ret.
    apply finish_wp; [done|done|]. intros w3 Hw3. apply HQ. right. split; [done|]. exists s, t, (w_servers w1), s', u. by rewrite Hw3.
Qed.
End Rename.

Section Replace.
Context `{ConfigOk} `{EnvOk}.
Variable early : nat -> nat -> bool.
Variable chan : Z.

(** A file is destroyed: the entries outside of the orphans stay. *)
Definition gone (i : Z) (s t : Server) : Prop :=
  (m_files t !! i = None \/ orphaned t i) /\ forall p n, p <> ORPHANS -> entry t p n = entry s p n.

Lemma gone_core i s s' t t' : same_core s s' -> same_core t t' -> gone i s' t -> gone i s t'.
Proof.
  intros Hs Ht [Hg He]. split; [|intros p n Hp; by rewrite (entry_core t t'), He, (entry_core s s')].
  unfold orphaned. by rewrite (sc_files _ _ Ht).
Qed.

Lemma fosDestroy_wp k i s w :
  0 <= k -> w_servers w !! Z.to_nat k = Some s -> destroyable s i ->
  wp (fosDestroy early chan k i) (fun rv w' =>
    rv = OK /\ exists t, gone i s t /\ core_eq (<[Z.to_nat k := t]> (w_servers w)) (w_servers w')) w.
Proof.
  intros Hk Hs Hd. eapply wp_status_rpc; [done..| |].
  - simpl. unfold destroy. apply wp_bind. eapply wp_mono; [by apply destroy_wp|]. cbv beta. intros r t (-> & Hg & He).
    apply wp_ret. eexists. split; [done|]. exact (conj eq_refl (conj Hg He) : (fun r u => r = OK /\ gone i s u) _ _).
  - cbv beta. intros rv t w' [-> Ht] Hc. split; [done|]. by exists t.
Qed.

(** The destruction as a step of all servers. *)
Lemma destroyed_entries k i s t ss ss' :
  0 <= k -> ss !! Z.to_nat k = Some s -> gone i s t -> core_eq (<[Z.to_nat k := t]> ss) ss' ->
  each (fun _ s t => forall p n, p <> ORPHANS -> entry t p n = entry s p n) ss ss' /\
  (forall u, ss' !! Z.to_nat k = Some u -> m_files u !! i = None \/ orphaned u i).
Proof.
  intros Hk Hs Hg Hc. split.
  - split; [by rewrite (core_eq_step_length _ _ _ _ Hc)|]. intros j s0 u Hj Hj' p n Hp.
    destruct (core_eq_step _ _ _ _ _ _ _ Hc Hj Hj') as [[-> Hst]|[_ Hst]]; [|by apply entry_core].
    replace s0 with s by congruence. by apply (gone_core i s s t u); [reflexivity|done|done|].
  - intros u Hu. destruct (core_eq_step _ _ _ _ _ _ _ Hc Hs Hu) as [[_ Hst]|[Hne _]]; [|done].
    by apply (gone_core i s s t u); [reflexivity|done|].
Qed.

(** The server that has the file of an inode, before any message. *)
Definition holds_file (w : World) (e : InodeType) : Prop :=
  0 <= it_server e /\ exists s, w_servers w !! Z.to_nat (it_server e) = Some s /\ destroyable s (it_id e).

Lemma holds_file_kept (R : nat -> Server -> Server -> Prop) w w' e :
  each R (w_servers w) (w_servers w') -> (forall j s t, R j s t -> dirs_kept s t) -> holds_file w e -> holds_file w' e.
Proof.
  intros [Hl HR] Hk (Hr & s & Hs & Hd). split; [done|].
  destruct (lookup_lt_is_Some_2 (w_servers w') (Z.to_nat (it_server e))) as [t Ht]; [rewrite Hl; by eapply lookup_lt_Some|].
  exists t. split; [done|]. eapply destroyable_kept; [|done]. eapply Hk, HR; done.
Qed.

(** Both names on one server. *)
Lemma together_kept (p q c : InodeType) (n m : string) k w ss s t u :
  w_servers w !! k = Some s -> entered q c m s t -> dropped p n t u -> core_eq (<[k := u]> (w_servers w)) ss ->
  each (fun _ => dirs_kept) (w_servers w) ss.
Proof.
  intros Hs [_ Hk] [_ Hk'] Hc. split; [by rewrite (core_eq_step_length _ _ _ _ Hc)|]. intros j s0 u' Hj Hj'.
  destruct (core_eq_step _ _ _ _ _ _ _ Hc Hj Hj') as [[-> Hst]|[_ Hst]]; [|by apply dirs_kept_core].
  replace s0 with s by congruence. etrans; [exact Hk|]. etrans; [exact Hk'|]. by apply dirs_kept_core.
Qed.

(** C7: A file is renamed to a name that is free with one message to the server
    of both names or with two messages to different servers.  In both cases the
    call succeeds, and afterwards the new name leads to the file, the old name is
    gone, and no other name on any server is different; no file is changed. *)
Theorem rename_moves old_parent new_parent child oldpath newpath old_server new_server fuel w :
  is_dir_type (it_type child) = false ->
  rename_ok old_parent new_parent child oldpath newpath old_server new_server None w ->
  wp (do_rename early chan fuel old_parent oldpath new_parent newpath child) (fun rv w' =>
    rv = OK /\ each (renamed old_parent new_parent child oldpath newpath old_server new_server)
      (w_servers w) (w_servers w')) w.
Proof.
  intros Hd Hok. eapply do_rename_wp; [done|exact Hok|]. intros w1 Hm. split; [|done]. intros _. split; [done|].
  apply (moved_renamed early _ _ _ _ _ _ _ None); [done|by apply (free_distinct _ _ child _ _ _ _ None w)|done].
Qed.

(** C8: A file is renamed to a name that another file has, on whichever servers the two
    names and the two files are.  The call succeeds; the new name leads to the file, the old
    name is gone, and no other name on any server is different; the file that had the new
    name is deleted or, where it is open, on its server's list of orphans. *)
Theorem rename_replaces old_parent new_parent child victim oldpath newpath old_server new_server fuel w :
  is_dir_type (it_type child) = false -> holds_file w victim ->
  distinct old_parent new_parent oldpath newpath old_server new_server ->
  rename_ok old_parent new_parent child oldpath newpath old_server new_server (Some victim) w ->
  wp (do_rename early chan fuel old_parent oldpath new_parent newpath child) (fun rv w' => rv = OK /\
    each (fun j s t => forall p n, p <> ORPHANS -> entry t p n =
      if decide (Z.of_nat j = new_server /\ p = it_id new_parent /\ n = newpath) then Some child
      else if decide (Z.of_nat j = old_server /\ p = it_id old_parent /\ n = oldpath) then None
      else entry s p n) (w_servers w) (w_servers w') /\
    (forall s, w_servers w' !! Z.to_nat (it_server victim) = Some s ->
      m_files s !! it_id victim = None \/ orphaned s (it_id victim))) w.
Proof.
  intros Hd Hv Hdist Hok. eapply do_rename_wp; [done|exact Hok|]. intros w1 Hm. split; [done|]. intros e [= <-].
  pose proof (moved_renamed early _ _ _ _ _ _ _ _ _ _ Hok Hdist Hm) as Hr.
  destruct (holds_file_kept _ w w1 victim Hr ltac:(by intros j s t [_ ?]) Hv) as (Hk & s & Hs & Hdes).
  eapply wp_mono; [by apply (fosDestroy_wp _ _ s)|]. cbv beta. intros rv w2 (-> & t & Hg & Hc). do 2 (split; [done|]).
  destruct (destroyed_entries _ _ _ _ _ _ Hk Hs Hg Hc) as [[Hl2 He2] Hgone]. split; [|done].
  destruct Hr as [Hl1 He1]. split; [congruence|]. intros j s0 u Hj Hu p n Hp.
  destruct (lookup_lt_is_Some_2 (w_servers w1) j) as [s1 Hs1]; [rewrite Hl1; by eapply lookup_lt_Some|].
  rewrite (He2 j s1 u Hs1 Hu p n Hp). apply (He1 j s0 s1 Hj Hs1).
Qed.

(** C33: Where the new name is the old one, a rename is to do nothing.  The call succeeds
    and takes the file's only name away, and the file itself is deleted or, where it
    is open, on its server's list of orphans, whichever servers hold the name and
    the file. *)
Theorem rename_onto_itself_loses_file parent child path server fuel w :
  is_dir_type (it_type child) = false -> it_id parent <> ORPHANS -> holds_file w child ->
  rename_ok parent parent child path path server server (Some child) w ->
  wp (do_rename early chan fuel parent path parent path child) (fun rv w' => rv = OK /\
    (forall s, w_servers w' !! Z.to_nat server = Some s -> entry s (it_id parent) path = None) /\
    (forall s, w_servers w' !! Z.to_nat (it_server child) = Some s ->
      m_files s !! it_id child = None \/ orphaned s (it_id child))) w.
Proof.
  intros Hd Hpo Hv Hok. eapply do_rename_wp; [done|exact Hok|]. intros w1 Hm. split; [done|]. intros e [= <-].
  destruct Hm as [(_ & s & t & u & Hs & Ht & Hu & Hc)|[? _]]; [|done].
  pose proof (together_kept _ _ _ _ _ _ _ _ _ _ _ Hs Ht Hu Hc) as Hk.
  destruct (holds_file_kept _ w w1 child Hk ltac:(done) Hv) as (Hr & s1 & Hs1 & Hdes).
  eapply wp_mono; [by apply (fosDestroy_wp _ _ s1)|]. cbv beta. intros rv w2 (-> & t1 & Hg & Hc2). do 2 (split; [done|]).
  destruct (destroyed_entries _ _ _ _ _ _ Hr Hs1 Hg Hc2) as [[Hl2 He2] Hgone]. split; [|done].
  intros s2 Hs2. destruct (lookup_lt_is_Some_2 (w_servers w1) (Z.to_nat server)) as [u1 Hu1]; [rewrite <- Hl2; by eapply lookup_lt_Some|].
  rewrite (He2 _ u1 s2 Hu1 Hs2) by done.
  destruct (core_eq_step _ _ _ _ _ _ _ Hc Hs Hu1) as [[_ Hst]|[? _]]; [|done].
  rewrite (entry_core u u1) by done. destruct Hu as [-> _]. by rewrite decide_True.
Qed.
End Replace.

(** ** Demonstration *)

Definition dir_or_absentb (s : Server) (i : Z) : bool :=
  match m_files s !! i with Some v => is_DirV v | None => true end.

Lemma dir_or_absentb_ok s i : dir_or_absentb s i = true -> dir_or_absent s i.
Proof. unfold dir_or_absentb. intros Hb v Hv. rewrite Hv in Hb. destruct v; naive_solver. Qed.

Definition at_server (w : World) (k : Z) (f : Server -> bool) : bool :=
  match w_servers w !! Z.to_nat k with Some s => f s | None => false end.

Definition rename_okb (old_parent new_parent child : InodeType) (oldpath newpath : string) (k k' : Z) (old : option InodeType) (w : World) : bool :=
  bool_decide (@fosPathOwner small_config old_parent oldpath = Some k) &&
  bool_decide (@fosPathOwner small_config new_parent newpath = Some k') &&
  bool_decide (0 <= k < Z.of_nat (length (w_servers w))) && bool_decide (0 <= k' < Z.of_nat (length (w_servers w))) &&
  at_server w k (fun s => dirs_okb s && dir_or_absentb s (it_id old_parent) &&
    bool_decide (entry s (it_id old_parent) oldpath = Some child)) &&
  at_server w k' (fun s => dirs_okb s && dir_or_absentb s (it_id new_parent) &&
    bool_decide (entry s (it_id new_parent) newpath = old) && negb (g_inode_seq s =? INT32_MAX)) &&
  negb (newpath =? "stats")%string.

Lemma rename_okb_ok old_parent new_parent child oldpath newpath k k' old w :
  rename_okb old_parent new_parent child oldpath newpath k k' old w = true ->
  @rename_ok small_config old_parent new_parent child oldpath newpath k k' old w.
Proof.
  unfold rename_okb, at_server. rewrite !andb_true_iff, !bool_decide_eq_true, negb_true_iff.
  intros ((((((Ho & Hn) & Hr) & Hr') & Hs) & Hs') & Hst). split; [done..| | |].
  - intros s Hk. rewrite Hk, !andb_true_iff, bool_decide_eq_true in Hs. destruct Hs as ((Hd & Ha) & He).
    split; [by apply dirs_okb_ok|]. split; [by apply dir_or_absentb_ok|done].
  - intros s Hk. rewrite Hk, !andb_true_iff, bool_decide_eq_true, negb_true_iff in Hs'.
    destruct Hs' as (((Hd & Ha) & He) & Hq). split; [by apply dirs_okb_ok|].
    split; [by apply dir_or_absentb_ok|]. split; [done|]. by apply Z.eqb_neq.
  - by apply String.eqb_neq.
Qed.

Definition destroyableb (s : Server) (i : Z) : bool :=
  match m_files s !! i, m_files s !! ORPHANS with
  | Some (FileV f), Some (DirV _) =>
      let bc := m_buffer_cache s in
      negb (i =? ROOT_INO) && (m_id (f_base f) =? i) && bool_decide (m_type (f_base f) = TYPE_FILE) && dirs_okb s &&
      (0 <=? m_blocks_free bc) && (m_blocks_free bc <=? Z.of_nat (length (m_blocks bc))) &&
      (Z.of_nat (length (m_memory_blocks f ++ m_orphan_blocks f)) + Z.of_nat (length (m_blocks bc)) <? 2 ^ 63)
  | _, _ => false
  end.

Lemma destroyableb_ok s i : destroyableb s i = true -> destroyable s i.
Proof.
  unfold destroyableb. destruct (m_files s !! i) as [[f| | |]|] eqn:Hf; try done.
  destruct (m_files s !! ORPHANS) as [[|od| |]|] eqn:Ho; try done. cbv zeta.
  rewrite !andb_true_iff, negb_true_iff, bool_decide_eq_true, Z.eqb_neq, Z.eqb_eq, !Z.leb_le, Z.ltb_lt.
  intros ((((((? & ?) & ?) & Hd) & ?) & ?) & ?). split; [done|]. exists f, od. unfold bc_ok.
  split_and!; try done; [by apply dirs_okb_ok|lia].
Qed.

Lemma holds_file_check w e : (0 <=? it_server e) && at_server w (it_server e) (fun s => destroyableb s (it_id e)) = true -> holds_file w e.
Proof.
  unfold at_server. intros [Hr Hs]%andb_prop. split; [lia|].
  destruct (w_servers w !! Z.to_nat (it_server e)) as [s|]; [|done]. exists s. split; [done|]. by apply destroyableb_ok.
Qed.

Definition demo_file : InodeType := mkInodeType 1 67108868 TYPE_FILE.

(** To a name of another server, and to a name of the same server. *)
Lemma rename_moves_witness :
  wp (@do_rename small_config plain_env late 7 0 demo_child "x" demo_child "y" demo_file)
    (fun rv w' => rv = OK /\ length (w_servers w') = 3%nat) demo_full /\
  wp (@do_rename small_config plain_env late 7 0 demo_child "x" demo_child "u" demo_file)
    (fun rv w' => rv = OK /\ length (w_servers w') = 3%nat) demo_full.
Proof.
  split.
  - eapply wp_mono.
    + apply (@rename_moves small_config plain_env plain_env_ok late 7 demo_child demo_child demo_file "x" "y" 1 2);
        [reflexivity|apply rename_okb_ok; vm_compute; reflexivity].
    + cbv beta. intros rv w' [-> [-> _]]. vm_compute. done.
  - eapply wp_mono.
    + apply (@rename_moves small_config plain_env plain_env_ok late 7 demo_child demo_child demo_file "x" "u" 1 1);
        [reflexivity|apply rename_okb_ok; vm_compute; reflexivity].
    + cbv beta. intros rv w' [-> [-> _]]. vm_compute. done.
Defined.

(** With [/d/y] as well. *)
Definition demo_two : World :=
  world_after (@fosFileOpen small_config plain_env late 7 root_dir "/d/y" (Z.lor O_CREAT O_RDWR) 420) demo_full.
Definition demo_other : InodeType :=
  default demo_file (w_servers demo_two !! 2%nat ≫= fun s => entry s (it_id demo_child) "y").

(** To the name of another file, which is open on another server. *)
Lemma rename_replaces_witness :
  wp (@do_rename small_config plain_env late 7 0 demo_child "x" demo_child "y" demo_file)
    (fun rv w' => rv = OK /\ forall s, w_servers w' !! Z.to_nat (it_server demo_other) = Some s ->
      m_files s !! it_id demo_other = None \/ orphaned s (it_id demo_other)) demo_two.
Proof.
  eapply wp_mono.
  - apply (@rename_replaces small_config plain_env plain_env_ok late 7 demo_child demo_child demo_file demo_other "x" "y" 1 2).
    + reflexivity.
    + apply holds_file_check. vm_compute. reflexivity.
    + intros [? _]. discriminate.
    + apply rename_okb_ok. vm_compute. reflexivity.
  - cbv beta. intros rv w' (-> & _ & Hg). by split.
Defined.

Lemma rename_onto_itself_loses_file_witness :
  wp (@do_rename small_config plain_env late 7 0 demo_child "x" demo_child "x" demo_file)
    (fun rv w' => rv = OK /\ forall s, w_servers w' !! 1%nat = Some s -> entry s (it_id demo_child) "x" = None) demo_full.
Proof.
  eapply wp_mono.
  - apply (@rename_onto_itself_loses_file small_config plain_env plain_env_ok late 7 demo_child demo_file "x" 1).
    + reflexivity.
    + vm_compute. discriminate.
    + apply holds_file_check. vm_compute. reflexivity.
    + apply rename_okb_ok. vm_compute. reflexivity.
  - cbv beta. intros rv w' (-> & He & _). by split.
Defined.
