(* ===== verification/FsClientFile.v ===== *)
(** * The file object of a client

    [sys/fs/lib/file.cpp] and [sys/fs/lib/buffer_cache.cpp], as they are built
    with the buffer cache: a client that has a file open reads and writes its
    blocks in the shared memory, and tells the server the size and the offset when it
    gives the file up. *)

From S2P Require Import Prelude FsTypes BufferCache FsFile FsNode FsServer FsServerInv FsServerOps FsMarshall FsReach FsServerSpec FsDirCache FsClient FsClientSpec.

Definition CACHE_EXCLUSIVE : Z := 1.

Record ClientFile : Type := mkClientFile {
  cf_inode : InodeType;
  cf_fd : Z;
  cf_size : Z;
  cf_state : Z;
  cf_offset : Z;
  cf_blocks : list Z
}.

Definition cf_with_size (n : Z) (f : ClientFile) : ClientFile :=
  mkClientFile (cf_inode f) (cf_fd f) n (cf_state f) (cf_offset f) (cf_blocks f).
Definition cf_with_state (n : Z) (f : ClientFile) : ClientFile :=
  mkClientFile (cf_inode f) (cf_fd f) (cf_size f) n (cf_offset f) (cf_blocks f).
Definition cf_with_offset (n : Z) (f : ClientFile) : ClientFile :=
  mkClientFile (cf_inode f) (cf_fd f) (cf_size f) (cf_state f) n (cf_blocks f).
Definition cf_with_blocks (l : list Z) (f : ClientFile) : ClientFile :=
  mkClientFile (cf_inode f) (cf_fd f) (cf_size f) (cf_state f) (cf_offset f) l.

Section ClientFile.
Context `{Config} `{Env}.
Variable early : nat -> nat -> bool.
Variable chan : Z.

(** ** The shared memory

    One memory is mapped by every process.  Its bytes are kept with the server
    whose partition they are in; a range that leaves a partition is not handed
    out by any server. *)
Definition partition : Z := memory_size / CONFIG_FS_SERVER_COUNT.

Definition shm_server (offset count : Z) : M World (nat * Server) :=
  if (0 <? partition) && (0 <=? offset) &&
     ((count =? 0) || ((offset + count - 1) / partition =? offset / partition))
  then
    let k := Z.to_nat (offset / partition) in
    o ← gets (fun w => w_servers w !! k);
    s ← deref o;
    mret (k, s)
  else undef.

Definition fosBufferCacheCopyOut (offset count : Z) : M World (list Z) :=
  assert_ (u64 (offset + count) <=? memory_size);;
  ks ← shm_server offset count;
  mret (mem_read (s_mem (snd ks)) (m_memory (m_buffer_cache (snd ks)) + offset) (Z.to_nat count)).

Definition fosBufferCacheCopyIn (offset : Z) (src : list Z) (count : Z) : M World unit :=
  assert_ (u64 (offset + count) <=? memory_size);;
  ks ← shm_server offset count;
  if Z.of_nat (length src) <? count then undef
  else
    let s := snd ks in
    let mem := mem_write (s_mem s) (m_memory (m_buffer_cache s) + offset) (take (Z.to_nat count) src) in
    modify (fun w => set_servers (<[fst ks := set_smem mem s]> (w_servers w)) w).

Definition fosBufferCacheClear (offset count : Z) : M World unit :=
  fosBufferCacheCopyIn offset (replicate (Z.to_nat count) 0) count.

(** ** Reading *)

(** The copy loop of [File::read]; [buf] holds the bytes copied so far. *)
Fixpoint cf_read_loop (fuel : nat) (f : ClientFile) (count : Z) (buf : list Z) : M World (list Z * ClientFile) :=
  match fuel with
  | O => timeout
  | S fuel' =>
      let read_count := Z.of_nat (length buf) in
      if negb (read_count <? count) then mret (buf, f)
      else
        let block_offset := Z.land (cf_offset f) (block_size - 1) in
        let block_nr := cf_offset f / block_size in
        let n := Z.min (block_size - block_offset) (count - read_count) in
        block ← deref (cf_blocks f !! Z.to_nat block_nr);
        bytes ← fosBufferCacheCopyOut (u64 (block + block_offset)) n;
        cf_read_loop fuel' (cf_with_offset (u64 (cf_offset f + n)) f) count (buf ++ bytes)
  end.

(** A file that is read or written is no longer merely shared. *)
Definition cf_use (f : ClientFile) : ClientFile :=
  if cf_state f =? CACHE_SHARED then cf_with_state CACHE_EXCLUSIVE f else f.

Definition cf_read (f : ClientFile) (count : Z) : M World (Z * list Z * ClientFile) :=
  let f := cf_use f in
  if negb (cf_state f =? CACHE_INVALID)
  then
    if cf_offset f <? cf_size f
    then
      let count := if cf_size f <? u64 (cf_offset f + count) then cf_size f - cf_offset f else count in
      r ← cf_read_loop (loop_fuel count) f count [];
      assert_ (Z.of_nat (length (fst r)) =? count);;
      mret (Z.of_nat (length (fst r)), fst r, snd r)
    else mret (0, [], f)
  else
    r ← FileObj_read early chan (it_server (cf_inode f)) (cf_fd f) count;
    mret (fst r, snd r, f).

(** ** Writing *)

(** [File::blocks]: known blocks are replaced, others added at the end. *)
Fixpoint put_blocks (i : Z) (l : list Z) (blocks : list Z) : list Z :=
  match l with
  | [] => blocks
  | b :: l' =>
      put_blocks (i + 1) l'
        (if i <? Z.of_nat (length blocks) then <[Z.to_nat i := b]> blocks else blocks ++ [b])
  end.

Definition block_chunk_size : Z := 4096.

Definition cf_set_blocks (offset count : Z) (l : list Z) (f : ClientFile) : M World ClientFile :=
  assert_ (count <=? block_chunk_size);;
  if Z.of_nat (length l) <? count then undef
  else mret (cf_with_blocks (put_blocks offset (take (Z.to_nat count) l) (cf_blocks f)) f).

(** [File::truncate] *)
Definition cf_truncate (fuel : nat) (f : ClientFile) (len : Z) : M World (Z * ClientFile) :=
  let f := cf_with_size (u64 len) f in
  let f := if cf_size f <? cf_offset f then cf_with_offset (cf_size f) f else f in
  r ← FileObj_truncate early chan fuel (cf_inode f) len;
  mret (r, f).

Fixpoint clear_blocks (l : list Z) : M World unit :=
  match l with [] => mret tt | b :: l' => fosBufferCacheClear b block_size;; clear_blocks l' end.

(** An [int] result; overflow is undefined. *)
Definition int_result (z : Z) : M World Z :=
  if (- 2 ^ 31 <=? z) && (z <? 2 ^ 31) then mret z else undef.

(** The loop of [File::write] that gets the new blocks, at most
    [block_chunk_size] at a time. *)
Fixpoint more_blocks (fuel : nat) (f : ClientFile) (cached_size additional_blocks : Z) : M World ClientFile :=
  match fuel with
  | O => timeout
  | S fuel' =>
      if additional_blocks =? 0 then mret f
      else
        let block_offset := Z.quot cached_size block_size +
                            (if 0 <? Z.rem cached_size block_size then 1 else 0) in
        let new_blocks := Z.min additional_blocks block_chunk_size in
        r ← fosGetBlocklist early chan (InodeOnly (cf_inode f)) (u64 block_offset) (u64 new_blocks);
        f ← cf_set_blocks (u64 block_offset) new_blocks (snd r) f;
        clear_blocks (take (Z.to_nat new_blocks) (snd r));;
        cached_size ← int_result (cached_size + new_blocks * block_size);
        more_blocks fuel' f cached_size (additional_blocks - new_blocks)
  end.

(** The part of [File::write] that makes room for the bytes up to [new_size]. *)
Definition make_room (fuel : nat) (f : ClientFile) (new_size : Z) : M World ClientFile :=
  let left_in_block := if cf_size f mod block_size =? 0 then 0 else block_size - cf_size f mod block_size in
  let cached_size := i32 (cf_size f) in
  capacity ← int_result (cached_size + left_in_block);
  if u64 capacity <? new_size
  then
    let additional_bytes := u64 (new_size - left_in_block - cached_size) in
    additional_blocks ← int_result
      (i32 (additional_bytes / block_size) + (if additional_bytes mod block_size =? 0 then 0 else 1));
    f ← (if additional_blocks =? 0 then mret f else r ← cf_truncate fuel f (i64 new_size); mret (snd r));
    more_blocks (S (Z.to_nat additional_blocks)) f cached_size additional_blocks
  else mret f.

(** The copy loop of [File::write]; [buf] is what is left to write. *)
Fixpoint cf_write_loop (fuel : nat) (f : ClientFile) (offset written count : Z) (buf : list Z) : M World Z :=
  match fuel with
  | O => timeout
  | S fuel' =>
      if negb (written <? count) then mret written
      else
        let block_offset := Z.land offset (block_size - 1) in
        let block_nr := offset / block_size in
        let n := Z.min (block_size - block_offset) (count - written) in
        assert_ (block_nr <? Z.of_nat (length (cf_blocks f)));;
        block ← deref (cf_blocks f !! Z.to_nat block_nr);
        fosBufferCacheCopyIn (u64 (block + block_offset)) buf n;;
        cf_write_loop fuel' f (u64 (offset + n)) (written + n) count (drop (Z.to_nat n) buf)
  end.

Definition cf_write (fuel : nat) (f : ClientFile) (buf : list Z) (count : Z) : M World (Z * ClientFile) :=
  let f := cf_use f in
  if negb (cf_state f =? CACHE_INVALID)
  then
    f ← make_room fuel f (u64 (cf_offset f + count));
    let f := if cf_size f <? u64 (cf_offset f + count) then cf_with_size (u64 (cf_offset f + count)) f else f in
    written ← cf_write_loop (loop_fuel count) f (cf_offset f) 0 count buf;
    mret (written, cf_with_offset (u64 (cf_offset f + written)) f)
  else
    r ← file_write_loop early chan (S (Z.to_nat count)) (it_server (cf_inode f)) (cf_fd f) buf count 0;
    mret (fst r, if (snd r : bool) then cf_with_offset (u64 (cf_offset f + fst r)) f else f).

(** ** Offsets, and giving the file up *)

Definition cf_lseek (f : ClientFile) (offset whence : Z) : M World (Z * ClientFile) :=
  if negb (cf_state f =? CACHE_INVALID)
  then
    offset ← (if whence =? SEEK_SET then mret offset
              else if whence =? SEEK_CUR then mret (i64 (offset + cf_offset f))
              else if whence =? SEEK_END then mret (i64 (cf_size f + offset))
              else if whence =? SEEK_DATA then mret (i64 (cf_offset f))
              else if whence =? SEEK_HOLE then mret (i64 (cf_size f))
              else abort);
    mret (offset, cf_with_offset (u64 offset) f)
  else
    r ← fosFdLseek early chan (it_server (cf_inode f)) (cf_fd f) offset whence;
    mret (r, f).

Definition cf_flush (f : ClientFile) : M World unit :=
  fosFdFlush early chan (it_server (cf_inode f)) (cf_fd f) (cf_size f) (i64 (cf_offset f));; mret tt.

(** [File::state]: an exclusive file is flushed when it becomes invalid. *)
Definition cf_set_state (st : Z) (f : ClientFile) : M World ClientFile :=
  (if (st =? CACHE_INVALID) && (cf_state f =? CACHE_EXCLUSIVE) then cf_flush f else mret tt);;
  mret (cf_with_state st f).

(** [File::close]: the state is invalid before the test, so offset and size are
    never sent with the close. *)
Definition cf_close (f : ClientFile) : M World (Z * ClientFile) :=
  f ← cf_set_state CACHE_INVALID f;
  let '(offset, filesize, f) :=
    if negb (cf_state f =? CACHE_INVALID)
    then (i64 (cf_offset f), cf_size f, cf_with_state CACHE_INVALID f) else (-1, UINT64_MAX, f) in
  r ← fosFdClose early chan (it_server (cf_inode f)) (cf_fd f) offset filesize;
  mret (r, f).

(** ** Opening *)

(** [File::cache_blocks] *)
Fixpoint cache_loop (fuel : nat) (f : ClientFile) (blocks_read count : Z) : M World ClientFile :=
  match fuel with
  | O => timeout
  | S fuel' =>
      if blocks_read <? count
      then
        let bc := Z.min block_chunk_size (count - blocks_read) in
        r ← fosGetBlocklist early chan (InodeOnly (cf_inode f)) (u64 blocks_read) (u64 bc);
        f ← cf_set_blocks (u64 blocks_read) bc (snd r) f;
        cache_loop fuel' f (blocks_read + bc) count
      else mret f
  end.

Definition cache_blocks (f : ClientFile) : M World ClientFile :=
  count ← int_result (i32 (cf_size f / block_size) + (if cf_size f mod block_size =? 0 then 0 else 1));
  cache_loop (S (Z.to_nat count)) f 0 count.

(** The end of [fosFileOpen] for a file. *)
Definition cf_open (inode : InodeType) (fd filesize state flags : Z) : M World ClientFile :=
  let f := mkClientFile inode fd filesize CACHE_INVALID 0 [] in
  f ← cache_blocks f;
  f ← cf_set_state state f;
  mret (if has_flag flags O_APPEND then cf_with_offset filesize f else f).
End ClientFile.
