(* ===== verification/FsClientFileSpec.v ===== *)
(** * A client's file is a sequence of bytes with a position

    What a client does to an open file through the shared memory agrees with
    the obvious abstract file, and is what the server has once the client gives
    the file up. *)

From S2P Require Import Prelude FsTypes BufferCache FsFile FsNode FsServer FsServerInv FsServerOps FsMarshall FsReach FsServerSpec FsDirCache FsClient FsClientSpec FsClientFile.

Section Spec.
Context `{ConfigOk} `{EnvOk}.
Variable early : nat -> nat -> bool.
Variable chan : Z.
Hypothesis memory_bound : memory_size < 2 ^ 63.

(** The state a method of the server's file runs in. *)
Definition fstate (s : Server) (f : File) : FState := mkFState f (m_buffer_cache s) (s_mem s) (s_tick s).

(** Block [b] lies in the partition of server [k]. *)
Definition placed (k : Z) (c : BufferCache) (b : Z) : Prop :=
  k * partition <= b - m_memory c /\ b - m_memory c + block_size <= (k + 1) * partition.

Definition shown (s : Server) (l : list Z) : list Z := (fun b => b - m_memory (m_buffer_cache s)) <$> l.

(** The client knows the first blocks of [f] on server [s], the [k]-th. *)
Record view (k : Z) (w : World) (cf : ClientFile) (s : Server) (blocks : list Z) : Prop := {
  vw_server : 0 <= k < CONFIG_FS_SERVER_COUNT;
  vw_home : w_servers w !! Z.to_nat k = Some s;
  vw_blocks : cf_blocks cf = shown s blocks;
  vw_placed : Forall (placed k (m_buffer_cache s)) blocks
}.

Lemma partition_pos k c b : placed k c b -> 0 < partition.
Proof. intros [Hlo Hhi]. pose proof block_size_pos. nia. Qed.

Lemma partition_memory : CONFIG_FS_SERVER_COUNT * partition <= memory_size.
Proof. unfold partition. apply Z.mul_div_le. apply server_count_pos. Qed.

Lemma placed_range k c b :
  0 <= k < CONFIG_FS_SERVER_COUNT -> placed k c b -> 0 <= b - m_memory c /\ b - m_memory c + block_size <= memory_size.
Proof.
  intros Hk Hb. pose proof partition_memory. pose proof (partition_pos k c b Hb). destruct Hb. nia.
Qed.

(** An access inside a block goes to the memory of the server that owns it. *)
Lemma shm_server_block k w s b off n :
  0 <= k < CONFIG_FS_SERVER_COUNT -> w_servers w !! Z.to_nat k = Some s ->
  placed k (m_buffer_cache s) b -> 0 <= off -> 0 < n -> off + n <= block_size ->
  shm_server (b - m_memory (m_buffer_cache s) + off) n w = Done (Z.to_nat k, s) w /\
  u64 (b - m_memory (m_buffer_cache s) + off) = b - m_memory (m_buffer_cache s) + off /\
  (u64 (b - m_memory (m_buffer_cache s) + off + n) <=? memory_size) = true.
Proof.
  intros Hk Hs Hb Ho Hn Hon. pose proof (partition_pos _ _ _ Hb) as Hp. pose proof Hb as [Hlo Hhi].
  destruct (placed_range _ _ _ Hk Hb) as [Hmin Hmax]. set (o := b - m_memory (m_buffer_cache s)) in *.
  assert (Hdiv : forall x, o <= x < o + block_size -> x / partition = k).
  { intros x Hx. symmetry. apply Z.div_unique with (x - k * partition); lia. }
  split; [|split; [apply u64_small; lia|rewrite u64_small by lia; apply Z.leb_le; lia]].
  unfold shm_server. rewrite !Hdiv by lia.
  rewrite (proj2 (Z.ltb_lt _ _)), (proj2 (Z.leb_le _ _)), Z.eqb_refl, orb_true_r by lia. simpl.
  unfold mbind, M_bind, gets. rewrite Hs. done.
Qed.

Lemma CopyOut_block k w s b off n :
  0 <= k < CONFIG_FS_SERVER_COUNT -> w_servers w !! Z.to_nat k = Some s ->
  placed k (m_buffer_cache s) b -> 0 <= off -> 0 < n -> off + n <= block_size ->
  fosBufferCacheCopyOut (u64 (b - m_memory (m_buffer_cache s) + off)) n w
  = Done (mem_read (s_mem s) (b + off) (Z.to_nat n)) w.
Proof.
  intros. destruct (shm_server_block k w s b off n) as (Hsh & Hu & Hle); [done..|].
  rewrite Hu. unfold fosBufferCacheCopyOut, mbind, M_bind, assert_. rewrite Hle. simpl.
  rewrite Hsh. simpl. unfold mret, M_ret. do 2 f_equal. lia.
Qed.

(** The world with the memory of server [k] replaced. *)
Definition put_mem (k : Z) (s : Server) (mem : gmap Z Z) (w : World) : World :=
  set_servers (<[Z.to_nat k := set_smem mem s]> (w_servers w)) w.

Lemma CopyIn_block k w s b off n buf :
  0 <= k < CONFIG_FS_SERVER_COUNT -> w_servers w !! Z.to_nat k = Some s ->
  placed k (m_buffer_cache s) b -> 0 <= off -> 0 < n -> off + n <= block_size -> n <= Z.of_nat (length buf) ->
  fosBufferCacheCopyIn (u64 (b - m_memory (m_buffer_cache s) + off)) buf n w
  = Done tt (put_mem k s (mem_write (s_mem s) (b + off) (take (Z.to_nat n) buf)) w).
Proof.
  intros. destruct (shm_server_block k w s b off n) as (Hsh & Hu & Hle); [done..|].
  rewrite Hu. unfold fosBufferCacheCopyIn, mbind, M_bind, assert_. rewrite Hle. simpl.
  rewrite Hsh. simpl. rewrite (proj2 (Z.ltb_ge _ _)) by lia. unfold modify, put_mem. do 4 f_equal. f_equal. lia.
Qed.

(** ** The copy loops *)

Lemma view_offset k w cf s bl n : view k w cf s bl -> view k w (cf_with_offset n cf) s bl.
Proof. by intros []. Qed.

Lemma view_block k w cf s bl i b :
  view k w cf s bl -> bl !! i = Some b ->
  cf_blocks cf !! i = Some (b - m_memory (m_buffer_cache s)) /\ placed k (m_buffer_cache s) b.
Proof.
  intros [_ _ Hbl Hpl] Hi. rewrite Hbl. unfold shown. rewrite list_lookup_fmap, Hi. split; [done|].
  by eapply Forall_lookup_1.
Qed.

(** The loop stops at the end of the count with the bytes of the file. *)
Lemma cf_read_loop_spec fuel k cf count buf w s f :
  view k w cf s (m_memory_blocks f) -> 0 <= cf_offset cf -> Z.of_nat (length buf) <= count ->
  cf_offset cf + (count - Z.of_nat (length buf)) <= Z.of_nat (length (m_memory_blocks f)) * block_size < 2 ^ 63 ->
  fuel_ok fuel (cf_offset cf) (count - Z.of_nat (length buf)) ->
  cf_read_loop fuel cf count buf w =
    Done (buf ++ (fbyte (s_mem s) f <$> seqZ (cf_offset cf) (count - Z.of_nat (length buf))),
          cf_with_offset (cf_offset cf + (count - Z.of_nat (length buf))) cf) w.
Proof.
  pose proof block_size_pos as Hbs.
  revert cf buf. induction fuel as [|fuel IH]; intros cf buf Hv Ho Hc Hcap Hfuel.
  { apply fuel_ok_pos in Hfuel. lia. }
  cbn [cf_read_loop]. destruct (Z.ltb_spec (Z.of_nat (length buf)) count) as [Hlt|Hge].
  2: { replace (count - Z.of_nat (length buf)) with 0 by lia. simpl. rewrite app_nil_r, Z.add_0_r. by destruct cf. }
  cbn [negb]. rewrite block_mask. set (rem := count - Z.of_nat (length buf)) in *.
  destruct (pass_bounds (cf_offset cf) rem) as (Hn & Hblk & _); [lia|].
  apply fuel_ok_next in Hfuel; [|lia]. cbv zeta in Hfuel. set (n := Z.min _ _) in *.
  destruct (faddr_Some f (cf_offset cf)) as (b & Hb & _); [lia|].
  destruct (view_block k w cf s _ _ b Hv Hb) as [Hcb Hpl]. destruct (block_div_mod (cf_offset cf)) as [_ Hm].
  unfold mbind, M_bind, deref. rewrite Hcb. simpl.
  rewrite (CopyOut_block k) by (apply Hv || done || lia).
  rewrite (mem_read_chunk (s_mem s) f) by (done || lia). rewrite Z2Nat.id, u64_small by lia.
  assert (Hrem : count - Z.of_nat (length (buf ++ (fbyte (s_mem s) f <$> seqZ (cf_offset cf) n))) = rem - n).
  { rewrite length_app, length_fmap, length_seqZ. lia. }
  rewrite IH; rewrite ?Hrem; [|by apply view_offset|simpl; lia..|done].
  simpl. rewrite <- (assoc_L (++)), <- fmap_app, <- seqZ_app by lia. unfold cf_with_offset. simpl.
  do 3 f_equal; [do 2 f_equal|]; lia.
Qed.

Lemma put_mem_same k w s : w_servers w !! Z.to_nat k = Some s -> put_mem k s (s_mem s) w = w.
Proof.
  intros Hs. unfold put_mem. replace (set_smem (s_mem s) s) with s by (by destruct s).
  rewrite list_insert_id by done. by destruct w.
Qed.

Lemma put_mem_home k w s mem :
  w_servers w !! Z.to_nat k = Some s -> w_servers (put_mem k s mem w) !! Z.to_nat k = Some (set_smem mem s).
Proof. intros Hs. simpl. apply list_lookup_insert_eq. by eapply lookup_lt_Some. Qed.

Lemma put_mem_twice k w s mem mem' :
  put_mem k (set_smem mem s) mem' (put_mem k s mem w) = put_mem k s mem' w.
Proof. unfold put_mem. simpl. by rewrite list_insert_insert_eq. Qed.

Lemma view_put_mem k w cf s bl mem :
  view k w cf s bl -> view k (put_mem k s mem w) cf (set_smem mem s) bl.
Proof. intros []. split; try done. by apply put_mem_home. Qed.

Lemma cf_write_loop_spec base fuel k cf offset retval count buf w s f :
  view k w cf s (m_memory_blocks f) -> blocks_wf base f ->
  0 <= offset -> retval <= count -> count - retval <= Z.of_nat (length buf) ->
  offset + (count - retval) <= Z.of_nat (length (m_memory_blocks f)) * block_size < 2 ^ 63 ->
  fuel_ok fuel offset (count - retval) ->
  exists mem', cf_write_loop fuel cf offset retval count buf w = Done count (put_mem k s mem' w) /\
    written f (s_mem s) mem' offset (take (Z.to_nat (count - retval)) buf).
Proof.
  pose proof block_size_pos as Hbs.
  revert offset retval buf w s. induction fuel as [|fuel IH]; intros offset retval buf w s Hv Hwf Ho Hr Hl Hcap Hfuel.
  { apply fuel_ok_pos in Hfuel. lia. }
  cbn [cf_write_loop]. destruct (Z.ltb_spec retval count) as [Hlt|Hge].
  2: { replace (count - retval) with 0 by lia. replace retval with count by lia. exists (s_mem s).
    rewrite put_mem_same by apply Hv. split; [done|apply written_nil]. }
  cbn [negb]. rewrite block_mask. set (rem := count - retval) in *.
  destruct (pass_bounds offset rem) as (Hn & Hblk & _); [lia|].
  apply fuel_ok_next in Hfuel; [|lia]. cbv zeta in Hfuel. set (n := Z.min _ _) in *.
  destruct (faddr_Some f offset) as (b & Hb & _); [lia|].
  destruct (view_block k w cf s _ _ b Hv Hb) as [Hcb Hpl]. destruct (block_div_mod offset) as [_ Hm].
  pose proof (lookup_lt_Some _ _ _ Hcb) as Hlen. pose proof (Z.div_pos offset block_size Ho Hbs).
  unfold mbind, M_bind, assert_, deref. rewrite (proj2 (Z.ltb_lt _ _)), Hcb by lia. simpl.
  rewrite (CopyIn_block k) by (apply Hv || done || lia). rewrite u64_small by lia.
  set (mem1 := mem_write _ _ _).
  destruct (IH (offset + n) (retval + n) (drop (Z.to_nat n) buf) (put_mem k s mem1 w) (set_smem mem1 s))
    as (mem' & Hrun & Hw); [by apply view_put_mem|done|lia..|rewrite length_drop; lia|lia| |].
  { by replace (count - (retval + n)) with (rem - n) by lia. }
  exists mem'. rewrite Hrun, put_mem_twice. split; [done|].
  replace (take (Z.to_nat rem) buf) with (take (Z.to_nat n) buf ++ take (Z.to_nat (rem - n)) (drop (Z.to_nat n) buf))
    by (rewrite take_take_drop; f_equal; lia).
  assert (Hln : length (take (Z.to_nat n) buf) = Z.to_nat n) by (rewrite length_take; lia).
  apply (written_app base _ _ mem1); [done..| |].
  - apply written_chunk; [done..|]. rewrite Hln. lia.
  - rewrite Hln, Z2Nat.id by lia. by replace (rem - n) with (count - (retval + n)) by lia.
Qed.

(** ** New blocks *)

#[local] Instance in_block_dec b a : Decision (in_block b a).
Proof. unfold in_block. apply _. Defined.

Lemma mem_get_clear m b a :
  mem_get (mem_write m b (replicate (Z.to_nat block_size) 0)) a = if decide (in_block b a) then 0 else mem_get m a.
Proof.
  pose proof block_size_pos as Hbs. case_decide as Hd; unfold in_block in Hd.
  - replace a with (b + Z.of_nat (Z.to_nat (a - b))) by lia. apply mem_get_write_in. apply lookup_replicate. lia.
  - apply mem_get_write_out. rewrite length_replicate. lia.
Qed.

(** The blocks [bl] hold zeros, the rest is as before. *)
Definition cleared (bl : list Z) (mem mem' : gmap Z Z) : Prop :=
  forall a, (forall b, b ∈ bl -> in_block b a -> mem_get mem' a = 0) /\
            ((forall b, b ∈ bl -> ~ in_block b a) -> mem_get mem' a = mem_get mem a).

Lemma clear_blocks_spec k bl w s :
  0 <= k < CONFIG_FS_SERVER_COUNT -> w_servers w !! Z.to_nat k = Some s ->
  Forall (placed k (m_buffer_cache s)) bl ->
  exists mem', clear_blocks (shown s bl) w = Done tt (put_mem k s mem' w) /\ cleared bl (s_mem s) mem'.
Proof.
  intros Hk. revert w s. induction bl as [|b bl IH]; intros w s Hs Hpl.
  { exists (s_mem s). rewrite put_mem_same by done. split; [done|]. intros a. split; [set_solver|done]. }
  apply Forall_cons in Hpl as [Hb Hpl]. pose proof block_size_pos as Hbs.
  pose proof (CopyIn_block k w s b 0 block_size (replicate (Z.to_nat block_size) 0)) as Hcp.
  destruct (placed_range _ _ _ Hk Hb). rewrite Z.add_0_r, Z.add_0_r, u64_small in Hcp by lia.
  cbn [shown fmap list_fmap clear_blocks]. unfold mbind at 1, M_bind at 1, fosBufferCacheClear.
  rewrite Hcp by (done || lia || (rewrite length_replicate; lia)). rewrite take_ge by (rewrite length_replicate; lia).
  set (mem1 := mem_write _ _ _).
  destruct (IH (put_mem k s mem1 w) (set_smem mem1 s)) as (mem' & Hrun & Hcl); [by apply put_mem_home|done|].
  exists mem'. rewrite put_mem_twice in Hrun. split; [exact Hrun|]. simpl in Hcl.
  intros a. destruct (Hcl a) as [Hz Hsame]. split.
  - intros b' Hb' Ha. destruct (decide (Exists (fun c => in_block c a) bl)) as [Hex|Hno];
      rewrite Exists_exists in *; [destruct Hex as (c & Hc & Hca); by apply (Hz c)|].
    rewrite Hsame by naive_solver. unfold mem1. rewrite mem_get_clear, decide_True; [done|].
    apply elem_of_cons in Hb' as [->|?]; [done|]. destruct Hno. by exists b'.
  - intros Hno. rewrite Hsame by set_solver. unfold mem1. rewrite mem_get_clear, decide_False; [done|].
    apply Hno. by left.
Qed.

Lemma put_blocks_app blocks l : put_blocks (Z.of_nat (length blocks)) l blocks = blocks ++ l.
Proof.
  revert blocks. induction l as [|b l IH]; intros blocks; simpl; [by rewrite app_nil_r|].
  rewrite Z.ltb_irrefl. specialize (IH (blocks ++ [b])). rewrite length_app in IH. simpl in IH.
  replace (Z.of_nat (length blocks) + 1) with (Z.of_nat (length blocks + 1)) by lia.
  by rewrite IH, <- app_assoc.
Qed.

(** ** The server's part *)

Definition with_blocks (f : File) (bl : list Z) (len : Z) : File :=
  mkFile (f_base f) (m_memory_blocks f ++ bl) (m_orphan_blocks f) len.
Definition put_grown (i : Z) (f : File) (c : BufferCache) (s : Server) : Server :=
  set_files (<[i := FileV f]> (m_files s)) (set_bc c s).

(** [c'] is [c] after handing out [bl]. *)
Definition handed_out (c : BufferCache) (bl : list Z) (c' : BufferCache) : Prop :=
  bc_ok c' /\ bc_usable c = bl ++ bc_usable c' /\ m_memory c' = m_memory c.

Lemma truncate_grows_wp i f len s :
  m_files s !! i = Some (FileV f) -> m_type (f_base f) = TYPE_FILE ->
  bc_ok (m_buffer_cache s) -> Z.of_nat (length (m_memory_blocks f)) * block_size < 2 ^ 63 ->
  0 <= m_size f < len -> len < 2 ^ 63 ->
  let diff := blocks_for len - Z.of_nat (length (m_memory_blocks f)) in
  0 <= diff <= m_blocks_free (m_buffer_cache s) ->
  wp (FsServer.truncate i len) (fun r s' => r = OK /\ exists bl c',
    Z.of_nat (length bl) = diff /\ handed_out (m_buffer_cache s) bl c' /\
    same_core (put_grown i (with_blocks f bl len) c' s) s') s.
Proof.
  intros Hf Hty Hbc Hcap Hsz Hlen diff Hdiff. unfold FsServer.truncate. apply wp_OP_COUNTER. intros s1 [Hc1 _ _].
  unfold find_file. apply wp_bind, wp_gets. rewrite (sc_files _ _ Hc1), Hf.
  unfold isSymlink, isDir, isFile, v_type. cbn [v_base]. rewrite Hty. cbv iota.
  apply wp_bind, wp_assert; [done|]. apply wp_bind, wp_ret, wp_bind.
  set (st := mkFState f (m_buffer_cache s) (s_mem s1) (s_tick s1)).
  destruct (grow_spec len st) as [(_ & bl & c' & Hg & Hl & Hok & Hus & Hm)|[Hbad _]];
    [done|lia|done| |simpl in Hbad; lia].
  assert (Ht : File_truncate len st = Done 0 (set_file (with_blocks f bl len) (set_cache c' st))).
  { unfold File_truncate, mbind, M_bind, gets. simpl. rewrite (proj2 (Z.ltb_lt _ _)) by lia. by rewrite Hg. }
  unfold wp, on_file. rewrite (sc_bc _ _ Hc1). fold st. rewrite Ht. simpl. intros s3 [Hc3 _ _]. split; [done|]. exists bl, c'.
  split; [done|]. split; [by split|]. etrans; [|exact Hc3].
  destruct Hc1 as [? sc_files ? ? ? ? ?]. split; simpl; try done. by rewrite sc_files.
Qed.

Lemma File_blocks_spec offset count st :
  0 <= offset < 2 ^ 31 -> 0 < count < 2 ^ 31 -> offset + count <= Z.of_nat (length (m_memory_blocks (fs_file st))) ->
  File_blocks (i32 offset) (i32 count) st =
    Done (OK, take (Z.to_nat count) (drop (Z.to_nat offset)
      ((fun b => u64 (b - m_memory (fs_cache st))) <$> m_memory_blocks (fs_file st)))) st.
Proof.
  intros Ho Hc Hle. rewrite !i32_small by lia. unfold File_blocks, mbind, M_bind, gets.
  rewrite (proj2 (Z.leb_le 0 offset)), (proj2 (Z.leb_le offset _)) by lia. simpl. unfold mret, M_ret.
  rewrite fmap_drop. set (l := take _ _).
  assert (Hl : Z.of_nat (length l) = count) by (unfold l; rewrite length_take, length_drop, length_fmap; lia).
  rewrite Hl, Z.ltb_irrefl, Hl, Z.ltb_irrefl. done.
Qed.

Lemma blocks_wp i f offset count s :
  m_files s !! i = Some (FileV f) -> m_type (f_base f) = TYPE_FILE ->
  0 <= offset < 2 ^ 31 -> 0 < count < 2 ^ 31 -> offset + count <= Z.of_nat (length (m_memory_blocks f)) ->
  wp (FsServer.blocks i offset count) (fun r s' =>
    r = (OK, take (Z.to_nat count) (drop (Z.to_nat offset)
          ((fun b => u64 (b - m_memory (m_buffer_cache s))) <$> m_memory_blocks f))) /\ same_core s s') s.
Proof.
  intros Hf Hty Ho Hc Hle. unfold FsServer.blocks. apply wp_OP_COUNTER. intros s1 [Hc1 _ _].
  unfold find_file. apply wp_bind, wp_gets. rewrite (sc_files _ _ Hc1), Hf.
  unfold isFile, v_type. cbn [v_base]. rewrite Hty. apply wp_bind, wp_assert; [done|]. apply wp_bind, wp_ret.
  unfold wp, on_file. rewrite File_blocks_spec by done. simpl. intros s3 [Hc3 _ _].
  rewrite (sc_bc _ _ Hc1). split; [done|]. etrans; [|exact Hc3]. etrans; [exact Hc1|].
  split; simpl; try done. by rewrite insert_id by (by rewrite (sc_files _ _ Hc1)).
Qed.

(** ** The requests *)

Lemma core_eq_put k s s' ss ss' ss'' :
  core_eq ss ss' -> core_eq (<[k := s]> ss') ss'' -> same_core s' s -> core_eq (<[k := s']> ss) ss''.
Proof. intros Hc Hc' Hs. etrans; [by apply core_eq_insert|exact Hc']. Qed.

Lemma core_eq_home k s ss ss' :
  core_eq (<[k := s]> ss) ss' -> (k < length ss)%nat -> exists s', ss' !! k = Some s' /\ same_core s s'.
Proof. intros Hc Hk. eapply core_eq_lookup; [exact Hc|]. by apply list_lookup_insert_eq. Qed.

Lemma notifications_wp (Q : unit -> World -> Prop) w :
  (forall w', core_eq (w_servers w) (w_servers w') -> Q tt w') -> wp (dispatchCheckNotifications chan) Q w.
Proof. apply wp_deliver. Qed.

(** [fosTruncate] of an open file asks the server of the file. *)
Lemma fosTruncate_wp fuel inode len s (R : Server -> Prop) (Q : Z -> World -> Prop) w :
  0 <= it_server inode -> w_servers w !! Z.to_nat (it_server inode) = Some s ->
  (forall s0, same_core s s0 -> wp (FsServer.truncate (it_id inode) (u64 len)) (fun r s' => r = OK /\ R s') s0) ->
  (forall s' w', R s' -> core_eq (<[Z.to_nat (it_server inode) := s']> (w_servers w)) (w_servers w') -> Q OK w') ->
  wp (fosTruncate early chan (S fuel) inode "" len) Q w.
Proof.
  intros Hk Hs HR HQ. cbn [fosTruncate]. unfold fosLookupParent. do 2 apply wp_bind. apply notifications_wp.
  intros w1 Hc1. apply wp_ret. unfold fosLookup. do 2 apply wp_bind. apply notifications_wp. intros w2 Hc2.
  unfold _fosResolvePieces. simpl. apply wp_bind, wp_ret. cbn. apply wp_bind, wp_ret, wp_ret. cbn. apply wp_bind.
  pose proof (transitivity Hc1 Hc2) as Hc. destruct (core_eq_lookup _ s _ _ Hc Hs) as (s2 & Hs2 & Hst).
  eapply (wp_status_rpc _ _ _ _ s2 (fun r s' => r = OK /\ R s')); [done..| |].
  - simpl. unfold truncate. apply wp_bind. eapply wp_mono; [by apply HR|]. cbv beta. intros r s' Hr. apply wp_ret.
    by exists r.
  - cbv beta. intros rv s' w3 [-> HRs] Hc3. apply wp_ret. eapply HQ; [done|].
    eapply core_eq_put; [exact Hc|exact Hc3|reflexivity].
Qed.

Lemma fosGetBlocklist_wp inode offset count s f (Q : Z * list Z -> World -> Prop) w :
  0 <= in_server inode -> w_servers w !! Z.to_nat (in_server inode) = Some s ->
  m_files s !! in_id inode = Some (FileV f) -> m_type (f_base f) = TYPE_FILE ->
  0 <= offset < 2 ^ 31 -> 0 < count < 2 ^ 31 -> offset + count <= Z.of_nat (length (m_memory_blocks f)) ->
  Forall (fun b => 0 <= b - m_memory (m_buffer_cache s) < 2 ^ 63) (m_memory_blocks f) ->
  (forall w', core_eq (w_servers w) (w_servers w') ->
     Q (OK, shown s (take (Z.to_nat count) (drop (Z.to_nat offset) (m_memory_blocks f)))) w') ->
  wp (fosGetBlocklist early chan inode offset count) Q w.
Proof.
  intros Hk Hs Hf Hty Ho Hc Hle Hrange HQ. unfold fosGetBlocklist. apply wp_bind.
  set (l := take (Z.to_nat count) (drop (Z.to_nat offset)
    ((fun b => u64 (b - m_memory (m_buffer_cache s))) <$> m_memory_blocks f))).
  eapply (wp_rpc _ _ _ _ s (fun x s' => x = BlockListReply OK count None l /\ same_core s s')); [done..| |].
  - simpl. unfold blocks. apply wp_bind. eapply wp_mono; [by eapply blocks_wp|]. cbv beta. intros r s' [-> Hr].
    by apply wp_ret.
  - cbv beta. intros x s' w' [-> Hst] Hc'. apply wp_bind, wp_assert; [done|]. apply wp_ret.
    unfold l. rewrite <- fmap_drop, <- fmap_take.
    rewrite (list_fmap_ext _ (fun b => b - m_memory (m_buffer_cache s))).
    + apply HQ. etrans; [|exact Hc']. rewrite <- (list_insert_id (w_servers w) _ _ Hs) at 1. by apply core_eq_insert.
    + intros i b Hb. apply u64_small. rewrite Forall_forall in Hrange.
      enough (Hin : b ∈ m_memory_blocks f) by (specialize (Hrange b Hin); lia).
      apply lookup_take_Some in Hb as [Hb _]. rewrite lookup_drop in Hb. by eapply list_elem_of_lookup_2.
Qed.

(** ** Making room *)

Lemma blocks_for_div c :
  blocks_for c = c / block_size + (if c mod block_size =? 0 then 0 else 1).
Proof. unfold blocks_for. rewrite block_mask. destruct (_ =? 0); simpl; lia. Qed.

Lemma blocks_for_quot c :
  0 <= c -> Z.quot c block_size + (if 0 <? Z.rem c block_size then 1 else 0) = blocks_for c.
Proof.
  intros Hc. pose proof block_size_pos. rewrite blocks_for_div, Z.quot_div_nonneg, Z.rem_mod_nonneg by lia.
  destruct (block_div_mod c) as [_ Hm]. destruct (Z.ltb_spec 0 (c mod block_size)), (Z.eqb_spec (c mod block_size) 0); lia.
Qed.

Lemma blocks_for_add c n : blocks_for (c + n * block_size) = blocks_for c + n.
Proof.
  pose proof block_size_pos. rewrite !blocks_for_div, Z.div_add, Z.mod_add by lia. lia.
Qed.

Lemma cleared_app l1 l2 m m1 m2 : cleared l1 m m1 -> cleared l2 m1 m2 -> cleared (l1 ++ l2) m m2.
Proof.
  intros H1c H2c a. destruct (H1c a) as [Hz1 Hs1], (H2c a) as [Hz2 Hs2]. split.
  - intros b Hb Ha. destruct (decide (Exists (fun c => in_block c a) l2)) as [Hex|Hno]; rewrite Exists_exists in *.
    + destruct Hex as (c & Hc & Hca). by apply (Hz2 c).
    + rewrite Hs2 by naive_solver. apply elem_of_app in Hb as [Hb|Hb]; [by apply (Hz1 b)|]. destruct Hno. by exists b.
  - intros Hno. rewrite Hs2, Hs1; [done|..]; intros b Hb; apply Hno, elem_of_app; auto.
Qed.

Lemma cleared_nil m : cleared [] m m.
Proof. intros a. split; [set_solver|done]. Qed.

Lemma shown_core s s' l : same_core s s' -> shown s' l = shown s l.
Proof. intros Hc. unfold shown. by rewrite (sc_bc _ _ Hc). Qed.

(** What the client holds of a file when it asks for the blocks from [m] on. *)
Record known (k : Z) (w : World) (cf : ClientFile) (s : Server) (f : File) (m : Z) : Prop := {
  kn_server : it_server (cf_inode cf) = k;
  kn_view : view k w cf s (take (Z.to_nat m) (m_memory_blocks f));
  kn_file : m_files s !! it_id (cf_inode cf) = Some (FileV f);
  kn_type : m_type (f_base f) = TYPE_FILE;
  kn_placed : Forall (placed k (m_buffer_cache s)) (m_memory_blocks f);
  kn_count : 0 <= m <= Z.of_nat (length (m_memory_blocks f))
}.

Lemma placed_all_range k c l :
  0 <= k < CONFIG_FS_SERVER_COUNT -> Forall (placed k c) l -> Forall (fun b => 0 <= b - m_memory c < 2 ^ 63) l.
Proof.
  intros Hk Hl. eapply Forall_impl; [exact Hl|]. cbv beta. intros b Hb.
  pose proof (placed_range k c b Hk Hb). pose proof block_size_pos. lia.
Qed.

Lemma known_next k w cf s f m n s1 w1 mem1 :
  known k w cf s f m -> 0 <= n -> m + n <= Z.of_nat (length (m_memory_blocks f)) ->
  w_servers w1 !! Z.to_nat k = Some s1 -> same_core s s1 ->
  known k (put_mem k s1 mem1 w1)
    (cf_with_blocks (cf_blocks cf ++ shown s (take (Z.to_nat n) (drop (Z.to_nat m) (m_memory_blocks f)))) cf)
    (set_smem mem1 s1) f (m + n).
Proof.
  intros [Hk [Hkr _ Hb Hp] Hf Hty Hpl Hc] Hn Hle Hs1 Hst. split; simpl; try done.
  - split; simpl; [done|by apply put_mem_home| |].
    + rewrite Hb. unfold shown. simpl. rewrite (sc_bc _ _ Hst), <- fmap_app, take_take_drop. do 2 f_equal. lia.
    + rewrite (sc_bc _ _ Hst). by apply Forall_take.
  - by rewrite (sc_files _ _ Hst).
  - by rewrite (sc_bc _ _ Hst).
  - lia.
Qed.

Lemma more_blocks_wp fuel k w cf s f cached (Q : ClientFile -> World -> Prop) :
  let len := Z.of_nat (length (m_memory_blocks f)) in
  known k w cf s f (blocks_for cached) -> 0 <= cached -> len * block_size < 2 ^ 31 ->
  (Z.to_nat (len - blocks_for cached) < fuel)%nat ->
  (forall w' mem', cleared (drop (Z.to_nat (blocks_for cached)) (m_memory_blocks f)) (s_mem s) mem' ->
     core_eq (<[Z.to_nat k := set_smem mem' s]> (w_servers w)) (w_servers w') ->
     Q (cf_with_blocks (shown s (m_memory_blocks f)) cf) w') ->
  wp (more_blocks early chan fuel cf cached (len - blocks_for cached)) Q w.
Proof.
  intros len. pose proof block_size_pos as Hbs.
  revert w cf s cached Q. induction fuel as [|fuel IH]; intros w cf s cached Q Hkn Hc Hlen Hfuel HQ; [lia|].
  pose proof Hkn as [Hk [Hkr Hs Hb Hp] Hf Hty Hpl Hcnt]. fold len in Hcnt.
  cbn [more_blocks]. destruct (Z.eqb_spec (len - blocks_for cached) 0) as [Hz|Hnz].
  { apply wp_ret. replace (shown s (m_memory_blocks f)) with (cf_blocks cf) in HQ.
    - replace cf with (cf_with_blocks (cf_blocks cf) cf) by (by destruct cf). apply (HQ w (s_mem s)).
      + rewrite drop_ge by lia. apply cleared_nil.
      + replace (set_smem (s_mem s) s) with s by (by destruct s). by rewrite list_insert_id.
    - rewrite Hb. by rewrite take_ge by lia. }
  rewrite blocks_for_quot by done. set (m := blocks_for cached) in *. set (n := Z.min (len - m) block_chunk_size).
  assert (Hn : 0 < n <= len - m) by (unfold n, block_chunk_size; lia).
  assert (Hm31 : m + n < 2 ^ 31) by nia. rewrite !u64_small by lia.
  apply wp_bind. eapply (fosGetBlocklist_wp _ _ _ s f); simpl; rewrite ?Hk; try done; [lia..| |].
  { by apply (placed_all_range k). }
  intros w1 Hc1. set (new := take _ (drop _ _)).
  assert (Hnew : Z.of_nat (length new) = n) by (unfold new; rewrite length_take, length_drop; lia).
  apply wp_bind. unfold cf_set_blocks. apply wp_bind, wp_assert; [apply Z.leb_le; unfold n; lia|].
  cbn [snd]. assert (Hlsh : length (shown s new) = length new) by (unfold shown; apply length_fmap).
  rewrite (proj2 (Z.ltb_ge _ _)) by lia. apply wp_ret. rewrite !take_ge by lia.
  destruct (core_eq_lookup _ s _ _ Hc1 Hs) as (s1 & Hs1 & Hst). apply wp_bind.
  destruct (clear_blocks_spec k new w1 s1) as (mem1 & Hcl & Hz1); [done..| |].
  { rewrite (sc_bc _ _ Hst). by apply Forall_take, Forall_drop. }
  rewrite (shown_core s s1 new Hst) in Hcl. unfold wp at 1. rewrite Hcl. apply wp_bind. unfold int_result.
  assert (Hcn : cached + n * block_size < 2 ^ 31).
  { destruct (blocks_for_spec cached Hc) as [_ Hle]. fold m in Hle. nia. }
  rewrite (proj2 (Z.leb_le _ _)), (proj2 (Z.ltb_lt _ _)) by lia. apply wp_ret.
  assert (Hlb : length (cf_blocks cf) = Z.to_nat m).
  { rewrite Hb. unfold shown. rewrite length_fmap, length_take. lia. }
  replace (put_blocks m (shown s new) (cf_blocks cf)) with (cf_blocks cf ++ shown s new)
    by (rewrite <- put_blocks_app; f_equal; lia).
  assert (Hnext : blocks_for (cached + n * block_size) = m + n) by apply blocks_for_add.
  replace (len - m - n) with (len - blocks_for (cached + n * block_size)) by lia.
  eapply IH; rewrite ?Hnext; [|lia..|].
  - apply (known_next k w cf s f m n s1 w1 mem1); [done|lia..|done|done].
  - intros w' mem' Hcl' Hc'. simpl in Hcl'.
    replace (shown (set_smem mem1 s1) (m_memory_blocks f)) with (shown s (m_memory_blocks f))
      by (unfold shown; simpl; by rewrite (sc_bc _ _ Hst)).
    unfold cf_with_blocks. simpl. apply (HQ w' mem').
    + replace (drop (Z.to_nat m) (m_memory_blocks f)) with (new ++ drop (Z.to_nat (m + n)) (m_memory_blocks f)).
      * eapply cleared_app; [|exact Hcl']. by rewrite <- (sc_mem _ _ Hst).
      * unfold new. rewrite Z2Nat.inj_add, <- drop_drop, take_drop by lia. done.
    + simpl in Hc'. rewrite list_insert_insert_eq in Hc'. eapply core_eq_put; [exact Hc1|exact Hc'|].
      destruct Hst. by split.
Qed.

(** The client's file [cf] and the server's file [f] agree, the client's size
    being the true one; there are [room] blocks for the file at most. *)
Record mirrors (base room : Z) (w : World) (cf : ClientFile) (s : Server) (f : File) : Prop := {
  mi_known : known (it_server (cf_inode cf)) w cf s f (Z.of_nat (length (m_memory_blocks f)));
  mi_count : Z.of_nat (length (m_memory_blocks f)) = blocks_for (cf_size cf);
  mi_size : 0 <= m_size f <= cf_size cf;
  mi_small : room * block_size < 2 ^ 31;
  mi_room : Z.of_nat (length (m_memory_blocks f)) + m_blocks_free (m_buffer_cache s) = room;
  mi_free : Forall (placed (it_server (cf_inode cf)) (m_buffer_cache s)) (bc_usable (m_buffer_cache s));
  mi_bc : bc_ok (m_buffer_cache s);
  mi_nodup : NoDup (all_blocks (fstate s f));
  mi_aligned : Forall (aligned base) (all_blocks (fstate s f));
  mi_fd : exists d, m_fds s !! cf_fd cf = Some d /\ fd_id d = it_id (cf_inode cf)
}.

(** Server [s] after [bl] was added to its file, the memory being [mem]. *)
Definition extended (i : Z) (f : File) (bl : list Z) (len : Z) (c : BufferCache) (mem : gmap Z Z) (s : Server) : Server :=
  set_smem mem (put_grown i (with_blocks f bl len) c s).

Definition roomed (w : World) (cf : ClientFile) (s : Server) (f : File) (new_size : Z) (cf' : ClientFile) (w' : World) : Prop :=
  exists bl sz c' mem',
    handed_out (m_buffer_cache s) bl c' /\ cleared bl (s_mem s) mem' /\
    core_eq (<[Z.to_nat (it_server (cf_inode cf)) := extended (it_id (cf_inode cf)) f bl sz c' mem' s]> (w_servers w))
      (w_servers w') /\
    Z.of_nat (length (m_memory_blocks f ++ bl)) = blocks_for (Z.max (cf_size cf) new_size) /\
    0 <= sz <= Z.max (cf_size cf) new_size /\ (bl <> [] -> cf_size cf <= new_size) /\
    cf' = cf_with_blocks (shown s (m_memory_blocks f ++ bl))
            (cf_with_size (if bl is [] then cf_size cf else new_size) cf).

Lemma size_capacity n :
  0 <= n -> n + (if n mod block_size =? 0 then 0 else block_size - n mod block_size) = blocks_for n * block_size.
Proof.
  intros Hn. rewrite blocks_for_div. destruct (block_div_mod n) as [Hd Hm].
  destruct (Z.eqb_spec (n mod block_size) 0); nia.
Qed.

Lemma blocks_for_mono a b : 0 <= a <= b -> blocks_for a <= blocks_for b.
Proof. intros Hab. apply blocks_for_le; [lia|]. destruct (blocks_for_spec b); lia. Qed.

Lemma extended_same i f s :
  m_files s !! i = Some (FileV f) -> extended i f [] (m_size f) (m_buffer_cache s) (s_mem s) s = s.
Proof.
  intros Hf. unfold extended, put_grown, with_blocks. rewrite app_nil_r.
  replace (mkFile _ _ _ _) with f by (by destruct f). rewrite insert_id by done. by destruct s.
Qed.

Lemma handed_out_refl c : bc_ok c -> handed_out c [] c.
Proof. by intros. Qed.

Lemma put_grown_core i f c s s' : same_core s s' -> same_core (put_grown i f c s) (put_grown i f c s').
Proof. intros []. split; simpl; try done. congruence. Qed.

(** The truncation that makes the file longer. *)
Lemma cf_truncate_grows base room fuel w cf s f new_size (Q : Z * ClientFile -> World -> Prop) :
  mirrors base room w cf s f -> cf_size cf < new_size -> cf_offset cf <= new_size -> blocks_for new_size <= room ->
  (forall bl c' w', handed_out (m_buffer_cache s) bl c' ->
     Z.of_nat (length (m_memory_blocks f ++ bl)) = blocks_for new_size ->
     core_eq (<[Z.to_nat (it_server (cf_inode cf)) :=
        put_grown (it_id (cf_inode cf)) (with_blocks f bl new_size) c' s]> (w_servers w)) (w_servers w') ->
     Q (OK, cf_with_size new_size cf) w') ->
  wp (cf_truncate early chan (S fuel) cf (i64 new_size)) Q w.
Proof.
  intros [[_ [Hkr Hs _ _] Hf Hty _ _] Hcnt Hsz Hsm Hroom _ Hbc _ _ _] Hlt Hoff Hnew HQ.
  pose proof block_size_pos as Hbs. destruct (blocks_for_spec new_size) as [Hb0 Hb1]; [lia|].
  pose proof (blocks_for_mono (cf_size cf) new_size) as Hmono.
  assert (Hn31 : new_size < 2 ^ 31) by nia.
  unfold cf_truncate. rewrite i64_small, u64_small by lia.
  cbn [cf_with_size cf_size cf_offset]. rewrite (proj2 (Z.ltb_ge _ _)) by lia. apply wp_bind.
  set (len := Z.of_nat (length (m_memory_blocks f))) in *.
  unfold FileObj_truncate. cbn [cf_with_size cf_inode].
  eapply (fosTruncate_wp _ _ _ s (fun s' => exists bl c',
    Z.of_nat (length bl) = blocks_for new_size - len /\ handed_out (m_buffer_cache s) bl c' /\
    same_core (put_grown (it_id (cf_inode cf)) (with_blocks f bl new_size) c' s) s')); [lia|done| |].
  - intros s0 Hc0. rewrite u64_small by lia. eapply wp_mono.
    + apply (truncate_grows_wp (it_id (cf_inode cf)) f new_size s0);
        rewrite ?(sc_files _ _ Hc0), ?(sc_bc _ _ Hc0); fold len; try done; nia.
    + cbv beta zeta. intros r s' (-> & bl & c' & Hl & Hho & Hst). split; [done|]. exists bl, c'.
      rewrite (sc_bc _ _ Hc0) in Hho. split; [done|]. split; [done|]. etrans; [by apply put_grown_core|exact Hst].
  - cbv beta. intros s' w' (bl & c' & Hl & Hho & Hst) Hc. apply wp_ret. apply (HQ bl c'); [done|rewrite length_app; lia|].
    etrans; [|exact Hc]. by apply core_eq_insert.
Qed.

(** After the truncation the client knows the blocks it knew before. *)
Lemma known_grown base room w cf s f new_size bl c' w1 :
  mirrors base room w cf s f -> handed_out (m_buffer_cache s) bl c' ->
  let k := it_server (cf_inode cf) in
  let f' := with_blocks f bl new_size in
  core_eq (<[Z.to_nat k := put_grown (it_id (cf_inode cf)) f' c' s]> (w_servers w)) (w_servers w1) ->
  exists s1, same_core (put_grown (it_id (cf_inode cf)) f' c' s) s1 /\
    known k w1 (cf_with_size new_size cf) s1 f' (blocks_for (cf_size cf)).
Proof.
  intros [[_ [Hkr Hs Hb Hp] Hf Hty Hpl Hc] Hcnt _ _ _ Hfree _ _ _ _] (_ & Hus & Hm) k f' Hcw. fold k in Hfree, Hs, Hkr, Hpl.
  destruct (core_eq_home _ _ _ _ Hcw) as (s1 & Hs1 & Hst); [by eapply lookup_lt_Some|].
  exists s1. split; [done|]. rewrite Hus, Forall_app in Hfree. destruct Hfree as [Hnew _].
  assert (Hall : Forall (placed k c') (m_memory_blocks f ++ bl)).
  { apply Forall_app. unfold placed in *. rewrite Hm. done. }
  assert (Htk : take (Z.to_nat (blocks_for (cf_size cf))) (m_memory_blocks f ++ bl) = m_memory_blocks f).
  { apply take_app_length'. lia. }
  pose proof (sc_bc _ _ Hst) as Hbc. simpl in Hbc. split; try done.
  - split; simpl; [done|done| |].
    + rewrite Htk, Hb, take_ge by lia. unfold shown. by rewrite Hbc, Hm.
    + rewrite Htk, Hbc. by apply Forall_app in Hall as [? _].
  - rewrite (sc_files _ _ Hst). simpl. by rewrite lookup_insert_eq.
  - by rewrite Hbc.
  - simpl. rewrite length_app. lia.
Qed.

(** The blocks the truncation added reach the client, and hold zeros. *)
Lemma take_new_blocks base room w cf s f new_size bl c' w1 (Q : ClientFile -> World -> Prop) :
  mirrors base room w cf s f -> handed_out (m_buffer_cache s) bl c' -> bl <> [] ->
  cf_size cf <= new_size -> blocks_for new_size <= room ->
  Z.of_nat (length (m_memory_blocks f ++ bl)) = blocks_for new_size ->
  core_eq (<[Z.to_nat (it_server (cf_inode cf)) :=
     put_grown (it_id (cf_inode cf)) (with_blocks f bl new_size) c' s]> (w_servers w)) (w_servers w1) ->
  (forall cf' w', roomed w cf s f new_size cf' w' -> Q cf' w') ->
  let n := blocks_for new_size - blocks_for (cf_size cf) in
  wp (more_blocks early chan (S (Z.to_nat n)) (cf_with_size new_size cf) (cf_size cf) n) Q w1.
Proof.
  intros Hmi Hho Hbl Hle Hroom Hlen Hc1 HQ n. pose proof block_size_pos as Hbs.
  pose proof Hmi as [_ Hcnt Hsz Hsm _ _ _ _ _ _].
  destruct (known_grown _ _ _ _ _ _ new_size bl c' w1 Hmi Hho Hc1) as (s1 & Hst & Hkn).
  unfold n. rewrite <- Hlen. apply (more_blocks_wp _ _ _ _ s1 (with_blocks f bl new_size) (cf_size cf) Q Hkn); simpl.
  - lia.
  - rewrite Hlen. nia.
  - lia.
  - intros w2 mem2 Hcl Hc2. apply HQ. pose proof (sc_bc _ _ Hst) as Hbc1. simpl in Hbc1.
    destruct Hho as (Hok & Hus & Hm).
    exists bl, new_size, c', mem2. split; [done|]. split; [|split; [|split; [|split; [|split; [done|]]]]].
    + rewrite (sc_mem _ _ Hst) in Hcl. simpl in Hcl. by rewrite drop_app_length' in Hcl by lia.
    + etrans; [|exact Hc2].
      assert (Hx : same_core (extended (it_id (cf_inode cf)) f bl new_size c' mem2 s) (set_smem mem2 s1))
        by (destruct Hst; split; done).
      pose proof (core_eq_insert (Z.to_nat (it_server (cf_inode cf))) _ _ _ _ Hx Hc1) as Hi.
      by rewrite list_insert_insert_eq in Hi.
    + rewrite Hlen. f_equal. lia.
    + lia.
    + unfold shown. rewrite Hbc1, Hm. by destruct bl.
Qed.

Lemma make_room_wp base room fuel w cf s f new_size (Q : ClientFile -> World -> Prop) :
  mirrors base room w cf s f -> cf_offset cf <= new_size -> 0 <= new_size -> blocks_for new_size <= room ->
  (forall cf' w', roomed w cf s f new_size cf' w' -> Q cf' w') ->
  wp (make_room early chan (S fuel) cf new_size) Q w.
Proof.
  intros Hmi Hoff Hn Hroom HQ. pose proof Hmi as [[_ [Hkr Hs Hb Hp] Hf Hty Hpl _] Hcnt Hsz Hsm Hrm _ Hbc _ _ _].
  pose proof block_size_pos as Hbs. destruct (blocks_for_spec (cf_size cf)) as [Hb0 Hb1]; [lia|].
  destruct (blocks_for_spec new_size Hn) as [Hn0 Hn1]. assert (Hbc0 : 0 <= m_blocks_free (m_buffer_cache s)) by apply Hbc.
  assert (Hcap : blocks_for (cf_size cf) * block_size < 2 ^ 31) by nia.
  unfold make_room. rewrite i32_small by lia. pose proof (size_capacity (cf_size cf)) as Hleft.
  set (left := if _ =? 0 then 0 else _) in *. rewrite Hleft by lia.
  apply wp_bind. unfold int_result at 1. rewrite (proj2 (Z.leb_le _ _)), (proj2 (Z.ltb_lt _ _)) by lia. apply wp_ret.
  rewrite u64_small by lia. destruct (Z.ltb_spec (blocks_for (cf_size cf) * block_size) new_size) as [Hlt|Hge].
  - replace (new_size - left - cf_size cf) with (new_size + - blocks_for (cf_size cf) * block_size) by lia.
    rewrite u64_small by nia. set (extra := new_size + _).
    assert (Hex : blocks_for extra = blocks_for new_size - blocks_for (cf_size cf))
      by (unfold extra; rewrite blocks_for_add; lia).
    pose proof (Z.div_pos extra block_size). destruct (block_div_mod extra) as [Hd Hdm].
    rewrite i32_small by nia. rewrite <- blocks_for_div, Hex. apply wp_bind. unfold int_result at 1.
    rewrite (proj2 (Z.leb_le _ _)), (proj2 (Z.ltb_lt _ _)) by nia. apply wp_ret.
    rewrite (proj2 (Z.eqb_neq _ _)) by nia. do 2 apply wp_bind.
    eapply cf_truncate_grows; [done|lia..|]. intros bl c' w1 Hho Hlen Hc1. apply wp_ret. cbn [snd].
    eapply take_new_blocks; [done..| |lia|done|done|done|done].
    intros ->. rewrite app_nil_r in Hlen. nia.
  - apply wp_ret, HQ. exists [], (m_size f), (m_buffer_cache s), (s_mem s). split; [by apply handed_out_refl|].
    split; [apply cleared_nil|]. rewrite extended_same, list_insert_id, app_nil_r by done.
    split; [reflexivity|]. split; [|split; [lia|split; [done|]]].
    + rewrite Hcnt. apply Z.le_antisymm; [apply blocks_for_mono; lia|]. apply blocks_for_le; lia.
    + rewrite take_ge in Hb by lia. rewrite <- Hb. by destruct cf.
Qed.

(** ** Reading and writing *)

(** The bytes of the file as the client sees them. *)
Definition contents (s : Server) (f : File) (cf : ClientFile) : list Z :=
  file_data (s_mem s) (file_with_size (cf_size cf) f).

Definition same_file (cf cf' : ClientFile) : Prop :=
  cf_inode cf' = cf_inode cf /\ cf_fd cf' = cf_fd cf /\ cf_size cf' = cf_size cf /\ cf_blocks cf' = cf_blocks cf.

Lemma mirrors_same base room w cf cf' s f : same_file cf cf' -> mirrors base room w cf s f -> mirrors base room w cf' s f.
Proof.
  intros (Hi & Hfd & Hsz & Hb) [[_ [Hkr Hs Hbl Hp] Hf Hty Hpl Hc] Hcnt Hsize Hsm Hrm Hfree Hbc Hnd Hal Hd].
  split; rewrite ?Hi, ?Hfd, ?Hsz; try done. split; rewrite ?Hi; try done. split; try done. by rewrite Hb.
Qed.

Lemma cf_use_same cf : same_file cf (cf_use cf).
Proof. unfold cf_use. by destruct (_ =? _). Qed.

Lemma cf_use_valid cf : cf_state cf <> CACHE_INVALID -> (cf_state (cf_use cf) =? CACHE_INVALID) = false.
Proof. intros Hv. apply Z.eqb_neq. unfold cf_use. by destruct (_ =? _). Qed.

Lemma cf_use_offset cf : cf_offset (cf_use cf) = cf_offset cf.
Proof. unfold cf_use. by destruct (_ =? _). Qed.

Lemma mirrors_view base room w cf s f :
  mirrors base room w cf s f -> view (it_server (cf_inode cf)) w cf s (m_memory_blocks f).
Proof. intros Hm. pose proof (kn_view _ _ _ _ _ _ (mi_known _ _ _ _ _ _ Hm)) as Hv. by rewrite take_ge in Hv by lia. Qed.

Lemma mirrors_cap base room w cf s f :
  mirrors base room w cf s f ->
  0 <= cf_size cf <= Z.of_nat (length (m_memory_blocks f)) * block_size /\
  Z.of_nat (length (m_memory_blocks f)) * block_size < 2 ^ 31.
Proof.
  intros [_ Hcnt Hsz Hsm Hrm _ [Hf _] _ _ _]. pose proof block_size_pos.
  destruct (blocks_for_spec (cf_size cf)) as [_ Hb]; [lia|]. rewrite Hcnt. nia.
Qed.

(** A read returns the bytes at the offset and advances it. *)
Lemma cf_read_spec base room w cf s f count :
  mirrors base room w cf s f -> cf_state cf <> CACHE_INVALID ->
  0 <= cf_offset cf -> 0 <= count -> cf_offset cf + count < 2 ^ 64 ->
  let bytes := read_result (contents s f cf) count (cf_offset cf) in
  exists cf', cf_read early chan cf count w = Done (Z.of_nat (length bytes), bytes, cf') w /\
    same_file cf cf' /\ cf_offset cf' = cf_offset cf + Z.of_nat (length bytes) /\ cf_state cf' = cf_state (cf_use cf).
Proof.
  intros Hm Hst Ho Hc Hoc bytes. destruct (mirrors_cap _ _ _ _ _ _ Hm) as [Hsz Hcap].
  pose proof (cf_use_same cf) as (Hi & Hfd & Hsize & Hbl). pose proof (cf_use_offset cf) as Hoff.
  pose proof (mirrors_view _ _ _ _ _ _ (mirrors_same _ _ _ _ (cf_use cf) _ _ (cf_use_same cf) Hm)) as Hv.
  assert (Hbytes : bytes = fbyte (s_mem s) f <$> seqZ (cf_offset cf) (Z.min count (cf_size cf - cf_offset cf))).
  { unfold bytes, contents. by rewrite read_result_seqZ. }
  unfold cf_read. rewrite cf_use_valid by done. cbn [negb]. rewrite Hoff, Hsize.
  destruct (Z.ltb_spec (cf_offset cf) (cf_size cf)) as [Hlt|Hge].
  - rewrite u64_small by lia. set (c := if _ <? _ then _ else _).
    assert (Hceq : c = Z.min count (cf_size cf - cf_offset cf)) by (unfold c; destruct (Z.ltb_spec (cf_size cf) (cf_offset cf + count)); lia).
    pose proof (cf_read_loop_spec (loop_fuel c) _ (cf_use cf) c [] w s f Hv) as Hrun.
    simpl in Hrun. rewrite Hoff, Z.sub_0_r in Hrun. unfold mbind, M_bind.
    rewrite Hrun by (lia || (apply loop_fuel_ok; lia)). simpl. rewrite <- Hceq in Hbytes. rewrite <- Hbytes.
    assert (Hl : Z.of_nat (length bytes) = c) by (rewrite Hbytes, length_fmap, length_seqZ; lia).
    unfold assert_. rewrite Hl, Z.eqb_refl. simpl. eexists. split; [reflexivity|]. done.
  - assert (Hnil : bytes = []) by (rewrite Hbytes; by rewrite seqZ_nil by lia). rewrite Hnil.
    exists (cf_use cf). simpl. rewrite Hoff. split; [done|]. split; [done|]. split; [lia|done].
Qed.

Lemma usable_length c : bc_ok c -> Z.of_nat (length (bc_usable c)) = m_blocks_free c.
Proof. intros [Hf Hl]. unfold bc_usable. rewrite length_take. lia. Qed.

Definition max_size (new_size : Z) (cf : ClientFile) : ClientFile :=
  if cf_size cf <? new_size then cf_with_size new_size cf else cf.

(** The files agree again, with the new size. *)
Lemma roomed_mirrors base room w cf s f new_size cf' w' :
  mirrors base room w cf s f -> 0 <= new_size -> blocks_for new_size <= room -> roomed w cf s f new_size cf' w' ->
  exists s1 bl sz, mirrors base room w' (max_size new_size cf') s1 (with_blocks f bl sz) /\
    cleared bl (s_mem s) (s_mem s1) /\ handed_out (m_buffer_cache s) bl (m_buffer_cache s1) /\
    cf_size (max_size new_size cf') = Z.max (cf_size cf) new_size /\
    cf_inode cf' = cf_inode cf /\ cf_fd cf' = cf_fd cf /\ cf_offset cf' = cf_offset cf /\ cf_state cf' = cf_state cf.
Proof.
  intros [[_ [Hkr Hs _ _] Hf Hty Hpl _] Hcnt Hsz Hsm Hrm Hfree Hbc Hnd Hal Hfd] Hn Hnr
    (bl & sz & c' & mem' & (Hok & Hus & Hm) & Hcl & Hc & Hlen & Hsz' & Hle & ->).
  destruct (core_eq_home _ _ _ _ Hc) as (s1 & Hs1 & Hst); [by eapply lookup_lt_Some|].
  destruct Hst as [_ Hf1 _ Hfd1 Hb1 _ Hm1]. simpl in Hf1, Hfd1, Hb1, Hm1.
  exists s1, bl, sz. set (cf1 := max_size _ _).
  assert (Hcf : cf_inode cf1 = cf_inode cf /\ cf_fd cf1 = cf_fd cf /\
    cf_blocks cf1 = shown s (m_memory_blocks f ++ bl) /\ cf_size cf1 = Z.max (cf_size cf) new_size).
  { unfold cf1, max_size. destruct bl; simpl;
      [destruct (Z.ltb_spec (cf_size cf) new_size)|rewrite Z.ltb_irrefl; specialize (Hle ltac:(done))]; simpl;
      repeat split; lia. }
  destruct Hcf as (Hi & Hcfd & Hcb & Hcs). pose proof (usable_length _ Hbc) as Hul. pose proof (usable_length _ Hok) as Hul'.
  rewrite Hus, length_app in Hul. rewrite length_app in Hlen. rewrite Hus, Forall_app in Hfree. destruct Hfree as [Hnew Hfree].
  assert (Hperm : all_blocks (fstate s1 (with_blocks f bl sz)) ≡ₚ all_blocks (fstate s f)).
  { unfold all_blocks, fstate. simpl. rewrite Hb1, Hus, <- app_assoc. apply Permutation_app_head.
    rewrite !app_assoc. apply Permutation_app_tail, Permutation_app_comm. }
  split; [|by rewrite Hb1, Hm1]. split; rewrite ?Hi, ?Hcfd, ?Hcs, ?Hperm; simpl; rewrite ?Hb1; try done.
  - split; rewrite ?Hi; simpl; try done.
    + split; simpl; [done|done| |].
      * rewrite take_ge, Hcb by (rewrite length_app; lia). unfold shown. by rewrite Hb1, Hm.
      * rewrite take_ge by (rewrite length_app; lia). rewrite Hb1. unfold placed in *. rewrite Hm. by apply Forall_app.
    + rewrite Hf1. apply lookup_insert_eq.
    + rewrite Hb1. unfold placed in *. rewrite Hm. by apply Forall_app.
    + lia.
  - rewrite length_app. lia.
  - rewrite length_app. lia.
  - unfold placed in *. by rewrite Hm.
  - by rewrite Hfd1.
Qed.

(** Clearing blocks of other files leaves the bytes of a file alone. *)
Lemma cleared_fbyte base bl mem mem' g i :
  cleared bl mem mem' -> Forall (aligned base) bl -> Forall (aligned base) (m_memory_blocks g) ->
  (forall b, b ∈ m_memory_blocks g -> b ∉ bl) -> 0 <= i -> fbyte mem' g i = fbyte mem g i.
Proof.
  intros Hcl Hbl Hg Hdis Hi. unfold fbyte, faddr.
  destruct (m_memory_blocks g !! Z.to_nat (i / block_size)) as [b|] eqn:Hb; [|done]. simpl.
  apply (proj2 (Hcl _)). intros b' Hb' Hin. apply list_elem_of_lookup_2 in Hb. destruct (block_div_mod i) as [_ Hm].
  rewrite Forall_forall in Hbl, Hg. unfold in_block in Hin.
  destruct (aligned_disjoint base b b') as [Hd|Hd]; [by apply Hg|by apply Hbl| |lia..]. intros ->. by apply (Hdis b').
Qed.

(** A byte past the old blocks is in a new one, and zero. *)
Lemma cleared_new bl mem mem' f sz i :
  cleared bl mem mem' -> Z.of_nat (length (m_memory_blocks f)) * block_size <= i ->
  i < Z.of_nat (length (m_memory_blocks f ++ bl)) * block_size -> fbyte mem' (with_blocks f bl sz) i = 0.
Proof.
  intros Hcl Hlo Hhi. pose proof block_size_pos as Hbs. destruct (block_div_mod i) as [Hd Hm].
  destruct (faddr_Some (with_blocks f bl sz) i) as (b & Hb & Ha); [simpl; lia|]. unfold fbyte. rewrite Ha. simpl.
  apply (proj1 (Hcl _) b); [|unfold in_block; lia]. simpl in Hb.
  rewrite lookup_app_r in Hb; [by eapply list_elem_of_lookup_2|].
  assert (Z.of_nat (length (m_memory_blocks f)) <= i / block_size); [|lia]. apply Z.div_le_lower_bound; lia.
Qed.

Lemma mirrors_put_mem base room w cf s f mem :
  mirrors base room w cf s f ->
  mirrors base room (put_mem (it_server (cf_inode cf)) s mem w) cf (set_smem mem s) f.
Proof.
  intros [[Hk Hv Hf Hty Hpl Hc] Hcnt Hsz Hsm Hrm Hfree Hbc Hnd Hal Hfd]. split; simpl; try done.
  split; simpl; try done. by apply view_put_mem.
Qed.

Lemma mirrors_wf base room w cf s f : mirrors base room w cf s f -> blocks_wf base f.
Proof.
  intros [_ _ _ _ _ _ _ Hnd Hal _]. unfold all_blocks, fstate in *. simpl in *. split.
  - by apply NoDup_app in Hnd as (? & _).
  - by apply Forall_app in Hal as [? _].
Qed.

(** The contents after a write of [buf] at [offset]: where the file did not
    reach, there are zeros past its last block. *)
Definition overwritten (data : list Z) (offset : Z) (buf data' : list Z) : Prop :=
  exists gap, data' = splice data gap offset buf /\ length gap = Z.to_nat (offset - Z.of_nat (length data)) /\
    forall i x, gap !! i = Some x ->
      blocks_for (Z.of_nat (length data)) * block_size <= Z.of_nat (length data) + Z.of_nat i -> x = 0.

(** The bytes after the copy loop, from those before the room was made. *)
Lemma write_contents base room w cf s f bl sz mem1 mem2 offset buf :
  mirrors base room w cf s f -> cleared bl (s_mem s) mem1 ->
  blocks_wf base (with_blocks f bl sz) -> 0 <= offset ->
  let size' := Z.max (cf_size cf) (offset + Z.of_nat (length buf)) in
  size' <= Z.of_nat (length (m_memory_blocks f ++ bl)) * block_size ->
  written (with_blocks f bl sz) mem1 mem2 offset buf ->
  overwritten (contents s f cf) offset buf (file_data mem2 (file_with_size size' (with_blocks f bl sz))).
Proof.
  intros Hm Hcl Hwf Ho size' Hcap Hw. destruct (mirrors_cap _ _ _ _ _ _ Hm) as [Hsz Hc31].
  pose proof (mirrors_wf _ _ _ _ _ _ Hm) as [_ Hal]. destruct Hwf as [Hnd Halb]. simpl in Hnd, Halb.
  set (f0 := file_with_size (cf_size cf) f). set (f1 := file_with_size size' (with_blocks f bl sz)).
  assert (Hdata : file_data mem1 f0 = contents s f cf).
  { unfold contents, file_data. fold f0. apply fmap_seqZ_ext. intros i Hi. apply (cleared_fbyte base bl); [done| |done| |lia].
    - by apply Forall_app in Halb as [_ ?].
    - apply NoDup_app in Hnd as (_ & Hd & _). done. }
  assert (Hlen : Z.of_nat (length (contents s f cf)) = cf_size cf) by (unfold contents; rewrite length_file_data; simpl; lia).
  exists (fbyte mem1 f1 <$> seqZ (cf_size cf) (offset - cf_size cf)). rewrite Hlen. split; [|split].
  - rewrite <- Hdata. apply (written_splice base f0 f1 mem1 mem2 offset buf bl); simpl; try done; [split; simpl; lia|lia].
  - rewrite length_fmap, length_seqZ. lia.
  - intros i x Hi Hle. apply list_lookup_fmap_Some in Hi as (j & -> & Hj). apply lookup_seqZ in Hj as [-> Hi].
    assert (Hcnt : Z.of_nat (length (m_memory_blocks f)) = blocks_for (cf_size cf)) by apply Hm.
    apply (cleared_new bl (s_mem s) mem1 f sz); [done|lia|]. lia.
Qed.

Lemma cf_write_wp base room fuel w cf s f buf :
  mirrors base room w cf s f -> cf_state cf <> CACHE_INVALID -> 0 <= cf_offset cf ->
  let count := Z.of_nat (length buf) in
  blocks_for (cf_offset cf + count) <= room ->
  wp (cf_write early chan (S fuel) cf buf count) (fun r w' => exists s' f',
    fst r = count /\ mirrors base room w' (snd r) s' f' /\
    overwritten (contents s f cf) (cf_offset cf) buf (contents s' f' (snd r)) /\
    cf_inode (snd r) = cf_inode cf /\ cf_fd (snd r) = cf_fd cf /\
    cf_offset (snd r) = cf_offset cf + count /\ cf_state (snd r) = cf_state (cf_use cf)) w.
Proof.
  intros Hm Hst Ho count Hroom. pose proof block_size_pos as Hbs. pose proof (mi_small _ _ _ _ _ _ Hm) as Hsm.
  destruct (blocks_for_spec (cf_offset cf + count)) as [_ Hbf]; [lia|].
  assert (Hend : cf_offset cf + count < 2 ^ 31) by nia.
  set (cu := cf_use cf). pose proof (cf_use_same cf) as Hsf. pose proof (mirrors_same _ _ _ _ cu _ _ Hsf Hm) as Hmu.
  destruct Hsf as (Hi & Hfd & Hsize & Hbl). pose proof (cf_use_offset cf) as Hoff. fold cu in Hi, Hfd, Hsize, Hbl, Hoff.
  unfold cf_write. fold cu. unfold cu at 1. rewrite cf_use_valid by done. cbn [negb]. fold cu. rewrite Hoff, u64_small by lia.
  apply wp_bind. eapply make_room_wp; [exact Hmu|lia..|]. intros cf1 w1 Hroomed.
  destruct (roomed_mirrors _ _ _ _ _ _ (cf_offset cf + count) _ _ Hmu ltac:(lia) Hroom Hroomed)
    as (s1 & bl & sz & Hm1 & Hcl & _ & Hs1 & Hi1 & Hfd1 & Ho1 & Hst1).
  rewrite Ho1, Hoff, u64_small by lia. fold (max_size (cf_offset cf + count) cf1).
  set (cf2 := max_size _ cf1) in *. destruct (mirrors_cap _ _ _ _ _ _ Hm1) as [Hsz1 Hc1].
  assert (Hcf2 : cf_inode cf2 = cf_inode cf1 /\ cf_fd cf2 = cf_fd cf1 /\ cf_offset cf2 = cf_offset cf1 /\ cf_state cf2 = cf_state cf1)
    by (unfold cf2, max_size; by destruct (_ <? _)).
  destruct Hcf2 as (Hi2 & Hfd2 & Ho2 & Hst2). apply wp_bind.
  destruct (cf_write_loop_spec base (loop_fuel count) (it_server (cf_inode cf2)) cf2 (cf_offset cf2) 0 count buf w1 s1 (with_blocks f bl sz))
    as (mem2 & Hrun & Hw).
  { by eapply mirrors_view. }
  { by eapply mirrors_wf. }
  1-4: lia.
  { rewrite Z.sub_0_r. apply loop_fuel_ok. lia. }
  unfold wp at 1. rewrite Hrun. apply wp_ret. cbn [fst snd]. rewrite Ho2, Ho1, Hoff, u64_small by lia.
  rewrite Z.sub_0_r in Hw. unfold count in Hw. rewrite Nat2Z.id, take_ge, Ho2, Ho1, Hoff in Hw by lia.
  exists (set_smem mem2 s1), (with_blocks f bl sz). split; [done|]. split.
  { eapply (mirrors_same _ _ _ cf2); [done|]. by apply mirrors_put_mem. }
  split; [|simpl; rewrite Hi2, Hfd2, Hst2, Hi1, Hfd1, Hst1, Hi, Hfd; done].
  unfold contents at 2. cbn [cf_with_offset cf_size set_smem s_mem]. rewrite Hs1, Hsize.
  apply (write_contents base room w cf s f bl sz (s_mem s1)); [done|done|by eapply mirrors_wf|done| |done].
  simpl in Hsz1. fold count. lia.
Qed.

(** ** Giving the file up *)

Lemma mirrors_core base room w w' cf s f :
  mirrors base room w cf s f -> core_eq (w_servers w) (w_servers w') ->
  exists s', mirrors base room w' cf s' f /\ same_core s s'.
Proof.
  intros [[_ [Hkr Hs Hb Hp] Hf Hty Hpl Hc] Hcnt Hsz Hsm Hrm Hfree Hbc Hnd Hal Hfd] Hcw.
  destruct (core_eq_lookup _ s _ _ Hcw Hs) as (s' & Hs' & Hst). exists s'. split; [|done].
  destruct Hst as [_ Hf' _ Hfd' Hb' _ Hm']. split; unfold fstate in *; rewrite ?Hb', ?Hfd'; try done.
  split; rewrite ?Hf', ?Hb'; try done. split; rewrite ?Hb'; try done. unfold shown. by rewrite Hb'.
Qed.

Lemma flush_wp fd size offset i f s :
  (exists d, m_fds s !! fd = Some d /\ fd_id d = i) -> m_files s !! i = Some (FileV f) ->
  wp (FsServer.flush fd size offset) (fun r s' => r = OK /\
    s_mem s' = s_mem s /\ m_files s' = <[i := FileV (file_with_size size f)]> (m_files s) /\
    exists d, m_fds s' !! fd = Some (fd_set_offset (u64 offset) d) /\ fd_id d = i) s.
Proof.
  intros (d & Hd & <-) Hf. unfold FsServer.flush. apply wp_OP_COUNTER. intros s1 [Hc1 _ _].
  unfold find_fd. apply wp_bind, wp_gets. rewrite (sc_fds _ _ Hc1), Hd. unfold put_fd. apply wp_bind, wp_modify, wp_bind.
  unfold set_file_size, find_file. apply wp_bind, wp_gets. simpl. rewrite (sc_files _ _ Hc1), Hf.
  apply wp_bind, (wp_deref _ _ _ _ eq_refl), wp_bind, wp_ret. unfold put_file. apply wp_modify, wp_ret.
  intros s3 [Hc3 _ _]. split; [done|]. rewrite (sc_mem _ _ Hc3), (sc_files _ _ Hc3), (sc_fds _ _ Hc3). simpl.
  rewrite (sc_mem _ _ Hc1), (sc_files _ _ Hc1), (sc_fds _ _ Hc1). split; [done|]. split; [done|].
  exists d. by rewrite lookup_insert_eq.
Qed.

(** What the server has of the file once the client has given it up. *)
Definition published (w : World) (cf : ClientFile) (data : list Z) (pos : option Z) : Prop :=
  exists s f, w_servers w !! Z.to_nat (it_server (cf_inode cf)) = Some s /\
    m_files s !! it_id (cf_inode cf) = Some (FileV f) /\ file_data (s_mem s) f = data /\
    forall p, pos = Some p -> exists d, m_fds s !! cf_fd cf = Some (fd_set_offset p d) /\ fd_id d = it_id (cf_inode cf).

(** A file that was read or written is exclusive; one that was only opened has
    the size the server has. *)
Definition state_ok (cf : ClientFile) (f : File) : Prop :=
  cf_state cf = CACHE_EXCLUSIVE \/ (cf_state cf = CACHE_SHARED /\ m_size f = cf_size cf).

Lemma cf_set_state_wp base room w cf s f :
  mirrors base room w cf s f -> state_ok cf f -> 0 <= cf_offset cf < 2 ^ 63 ->
  wp (cf_set_state early chan CACHE_INVALID cf) (fun cf' w' =>
    cf' = cf_with_state CACHE_INVALID cf /\
    published w' cf (contents s f cf) (if cf_state cf =? CACHE_EXCLUSIVE then Some (cf_offset cf) else None)) w.
Proof.
  intros Hm Hso Ho. pose proof Hm as [[_ [Hkr Hs _ _] Hf Hty _ _] _ _ _ _ _ _ _ _ Hfd].
  unfold cf_set_state. rewrite Z.eqb_refl. destruct Hso as [He|[Hsh Hsize]].
  - rewrite He, Z.eqb_refl. simpl andb. cbv iota. apply wp_bind. unfold cf_flush, fosFdFlush. do 2 apply wp_bind.
    rewrite i64_small by lia.
    eapply (wp_status_rpc _ _ _ _ s (fun r s' => r = OK /\ s_mem s' = s_mem s /\
      m_files s' = <[it_id (cf_inode cf) := FileV (file_with_size (cf_size cf) f)]> (m_files s) /\
      exists d, m_fds s' !! cf_fd cf = Some (fd_set_offset (cf_offset cf) d) /\ fd_id d = it_id (cf_inode cf))); [lia|done| |].
    + simpl. unfold flush. apply wp_bind. eapply wp_mono; [by eapply flush_wp|]. cbv beta. intros r s' Hr.
      rewrite u64_small in Hr by lia. apply wp_ret. by exists r.
    + cbv beta. intros rv s' w' (-> & Hmem & Hfiles & d & Hd & Hid) Hc. apply wp_bind, wp_assert; [done|]. apply wp_ret, wp_ret, wp_ret.
      split; [done|]. destruct (core_eq_home _ _ _ _ Hc) as (s2 & Hs2 & Hst); [by eapply lookup_lt_Some|].
      exists s2, (file_with_size (cf_size cf) f). split; [done|].
      rewrite (sc_files _ _ Hst), (sc_mem _ _ Hst), (sc_fds _ _ Hst), Hfiles, Hmem, lookup_insert_eq.
      split; [done|]. split; [done|]. intros p [= <-]. by exists d.
  - rewrite Hsh. simpl. apply wp_bind, wp_ret, wp_ret. split; [done|]. exists s, f. split; [done|]. split; [done|].
    split; [|done]. unfold contents. rewrite <- Hsize. by destruct f.
Qed.
End Spec.
