(* ===== verification/FsClientSession.v ===== *)
(** * What a client does to an open file

    From opening a file to giving it up, any sequence of reads, writes and
    seeks of a client agrees with an abstract file: a list of bytes and a
    position.  At the end the server has the bytes and the position. *)

From S2P Require Import Prelude FsTypes BufferCache FsFile FsNode FsServer FsServerInv FsServerOps FsMarshall FsReach FsServerSpec FsDirCache FsClient FsClientSpec FsClientRmdir FsClientFile FsClientFileSpec.

Inductive fop : Type := FRead (n : Z) | FWrite (buf : list Z) | FSeek (offset whence : Z).
Inductive fres : Type := Bytes (l : list Z) | Number (n : Z).

Section Session.
Context `{ConfigOk} `{EnvOk}.
Variable early : nat -> nat -> bool.
Variable chan : Z.
Hypothesis memory_bound : memory_size < 2 ^ 63.

Definition run_op (fuel : nat) (op : fop) (cf : ClientFile) : M World (fres * ClientFile) :=
  match op with
  | FRead n => r ← cf_read early chan cf n; let '(_, bytes, cf') := r in mret (Bytes bytes, cf')
  | FWrite buf => r ← cf_write early chan fuel cf buf (Z.of_nat (length buf)); mret (Number (fst r), snd r)
  | FSeek offset whence => r ← cf_lseek early chan cf offset whence; mret (Number (fst r), snd r)
  end.

Fixpoint run_ops (fuel : nat) (ops : list fop) (cf : ClientFile) : M World (list fres * ClientFile) :=
  match ops with
  | [] => mret ([], cf)
  | op :: ops' =>
      r ← run_op fuel op cf;
      rs ← run_ops fuel ops' (snd r);
      mret (fst r :: fst rs, snd rs)
  end.

(** ** The abstract file *)

Record afile : Type := mkAfile { a_data : list Z; a_pos : Z }.

(** Where a seek goes in a file of [size] bytes at position [pos]. *)
Definition seek_target (size pos offset whence : Z) : option Z :=
  if whence =? SEEK_SET then Some offset
  else if whence =? SEEK_CUR then Some (offset + pos)
  else if whence =? SEEK_END then Some (size + offset)
  else if whence =? SEEK_DATA then Some pos
  else if whence =? SEEK_HOLE then Some size
  else None.

Inductive astep : fop -> fres -> afile -> afile -> Prop :=
| step_read n a :
    let l := read_result (a_data a) n (a_pos a) in
    astep (FRead n) (Bytes l) a (mkAfile (a_data a) (a_pos a + Z.of_nat (length l)))
| step_write buf a data' :
    overwritten (a_data a) (a_pos a) buf data' ->
    astep (FWrite buf) (Number (Z.of_nat (length buf))) a (mkAfile data' (a_pos a + Z.of_nat (length buf)))
| step_seek offset whence a t :
    seek_target (Z.of_nat (length (a_data a))) (a_pos a) offset whence = Some t ->
    astep (FSeek offset whence) (Number t) a (mkAfile (a_data a) t).

Inductive asteps : list fop -> list fres -> afile -> afile -> Prop :=
| steps_nil a : asteps [] [] a a
| steps_cons op r ops rs a a' a'' :
    astep op r a a' -> asteps ops rs a' a'' -> asteps (op :: ops) (r :: rs) a a''.

(** The operations a client may ask for: counts and positions are in range, and
    a file grows to [room] blocks at most. *)
Definition op_ok (room size pos : Z) (op : fop) : bool :=
  match op with
  | FRead n => (0 <=? n) && (n <? 2 ^ 62)
  | FWrite buf => blocks_for (pos + Z.of_nat (length buf)) <=? room
  | FSeek offset whence =>
      match seek_target size pos offset whence with Some t => (0 <=? t) && (t <? 2 ^ 62) | None => false end
  end.

(** Size and position afterwards. *)
Definition op_next (size pos : Z) (op : fop) : Z * Z :=
  match op with
  | FRead n => (size, pos + Z.max 0 (Z.min n (size - pos)))
  | FWrite buf => (Z.max size (pos + Z.of_nat (length buf)), pos + Z.of_nat (length buf))
  | FSeek offset whence => (size, default 0 (seek_target size pos offset whence))
  end.

Fixpoint ops_ok (room size pos : Z) (ops : list fop) : bool :=
  match ops with
  | [] => true
  | op :: ops' => op_ok room size pos op && ops_ok room (fst (op_next size pos op)) (snd (op_next size pos op)) ops'
  end.

(** Whether an operation uses the file at all. *)
Definition is_access (op : fop) : bool := match op with FSeek _ _ => false | _ => true end.

(** ** One operation *)

Definition linked (a : afile) (s : Server) (f : File) (cf : ClientFile) : Prop :=
  a_data a = contents s f cf /\ a_pos a = cf_offset cf.

(** The client's file and the server's are in step with [a]; [used] says
    whether the file was read or written. *)
Definition in_step (base room : Z) (inode : InodeType) (fd : Z) (used : bool) (a : afile) (cf : ClientFile)
    (w : World) : Prop :=
  exists s f, mirrors base room w cf s f /\ linked a s f cf /\
    (if used then cf_state cf = CACHE_EXCLUSIVE else cf_state cf = CACHE_SHARED /\ m_size f = cf_size cf) /\
    cf_inode cf = inode /\ cf_fd cf = fd /\ 0 <= cf_offset cf < 2 ^ 62.

Lemma contents_length base room w cf s f :
  mirrors base room w cf s f -> Z.of_nat (length (contents s f cf)) = cf_size cf.
Proof.
  intros Hm. destruct (mirrors_cap _ _ _ _ _ _ Hm) as [Hs _]. unfold contents. rewrite length_file_data; simpl; lia.
Qed.

Lemma used_state cf (used : bool) (P : Prop) :
  (if used then cf_state cf = CACHE_EXCLUSIVE else cf_state cf = CACHE_SHARED /\ P) ->
  cf_state cf <> CACHE_INVALID /\ cf_state (cf_use cf) = CACHE_EXCLUSIVE.
Proof.
  unfold cf_use. destruct used; [intros Hs|intros [Hs _]]; rewrite Hs; by split.
Qed.

Lemma overwritten_length data offset buf data' :
  0 <= offset -> overwritten data offset buf data' ->
  Z.of_nat (length data') = Z.max (Z.of_nat (length data)) (offset + Z.of_nat (length buf)).
Proof.
  intros Ho (gap & -> & Hg & _). unfold splice. rewrite !length_app, length_take, length_drop, length_app. lia.
Qed.

Definition a_next (a : afile) (op : fop) : Z * Z := op_next (Z.of_nat (length (a_data a))) (a_pos a) op.

(** One operation of the client is one step of the abstract file. *)
Definition refines_op (base room : Z) (inode : InodeType) (fd : Z) (used : bool) (a : afile) (op : fop)
    (r : fres * ClientFile) (w : World) : Prop :=
  exists a', astep op (fst r) a a' /\ in_step base room inode fd (used || is_access op) a' (snd r) w /\
    (Z.of_nat (length (a_data a')), a_pos a') = a_next a op.

Lemma read_refines base room fuel inode fd used a n cf w :
  in_step base room inode fd used a cf w -> op_ok room (Z.of_nat (length (a_data a))) (a_pos a) (FRead n) = true ->
  wp (run_op fuel (FRead n) cf) (refines_op base room inode fd used a (FRead n)) w.
Proof.
  intros (s & f & Hm & [Hd Hp] & Hu & Hi & Hfd & Ho) Hok. simpl in Hok. apply andb_true_iff in Hok as [Hn Hn'].
  destruct (used_state _ _ _ Hu) as [Hv Hx]. pose proof (contents_length _ _ _ _ _ _ Hm) as Hlen.
  destruct (mirrors_cap _ _ _ _ _ _ Hm) as [Hsz Hcap].
  destruct (cf_read_spec early chan memory_bound base room w cf s f n) as (cf' & Hrun & Hsf & Ho' & Hst); [done|done|lia..|].
  set (l := read_result _ _ _) in *.
  assert (Hl : Z.of_nat (length l) = Z.max 0 (Z.min n (cf_size cf - cf_offset cf))).
  { unfold l, contents. rewrite read_result_seqZ, length_fmap, length_seqZ by lia. simpl. lia. }
  simpl. apply wp_bind. unfold wp at 1. rewrite Hrun. apply wp_ret.
  exists (mkAfile (a_data a) (a_pos a + Z.of_nat (length l))). simpl. split; [|split].
  - unfold l. rewrite <- Hd, <- Hp. apply step_read.
  - exists s, f. destruct Hsf as (Hi' & Hfd' & Hsz' & Hbl'). split; [by apply (mirrors_same _ _ _ cf)|].
    split; [split; simpl; [unfold contents in *; by rewrite Hsz'|lia]|]. rewrite orb_true_r. split; [congruence|].
    split; [congruence|]. split; [congruence|]. lia.
  - unfold a_next. simpl. f_equal. rewrite Hl, Hd, Hlen, Hp. lia.
Qed.

Lemma write_refines base room fuel inode fd used a buf cf w :
  in_step base room inode fd used a cf w -> op_ok room (Z.of_nat (length (a_data a))) (a_pos a) (FWrite buf) = true ->
  wp (run_op (S fuel) (FWrite buf) cf) (refines_op base room inode fd used a (FWrite buf)) w.
Proof.
  intros (s & f & Hm & [Hd Hp] & Hu & Hi & Hfd & Ho) Hok. simpl in Hok. apply Z.leb_le in Hok.
  destruct (used_state _ _ _ Hu) as [Hv Hx]. rewrite Hp in Hok. pose proof block_size_pos as Hbs.
  pose proof (mi_small _ _ _ _ _ _ Hm) as Hsm.
  destruct (blocks_for_spec (cf_offset cf + Z.of_nat (length buf))) as [_ Hbf]; [lia|].
  simpl. apply wp_bind. eapply wp_mono; [eapply (cf_write_wp early chan memory_bound base room); [done|done|lia|done]|].
  cbv beta. intros r w' (s' & f' & Hr & Hm' & Hov & Hi' & Hfd' & Ho' & Hst'). apply wp_ret.
  exists (mkAfile (contents s' f' (snd r)) (a_pos a + Z.of_nat (length buf))). simpl. split; [|split].
  - rewrite Hr. apply step_write. by rewrite Hd, Hp.
  - exists s', f'. split; [done|]. split; [split; simpl; [done|lia]|]. rewrite orb_true_r. split; [congruence|].
    split; [congruence|]. split; [congruence|]. nia.
  - unfold a_next. simpl. f_equal. rewrite (overwritten_length _ _ _ _ (proj1 Ho) Hov), <- Hd, Hp. done.
Qed.

Lemma seek_refines base room fuel inode fd used a offset whence cf w :
  in_step base room inode fd used a cf w ->
  op_ok room (Z.of_nat (length (a_data a))) (a_pos a) (FSeek offset whence) = true ->
  wp (run_op fuel (FSeek offset whence) cf) (refines_op base room inode fd used a (FSeek offset whence)) w.
Proof.
  intros (s & f & Hm & [Hd Hp] & Hu & Hi & Hfd & Ho) Hok. simpl in Hok.
  destruct (used_state _ _ _ Hu) as [Hv Hx]. pose proof (contents_length _ _ _ _ _ _ Hm) as Hlen.
  destruct (seek_target _ _ offset whence) as [t|] eqn:Ht; [|done]. apply andb_true_iff in Hok as [Ht0 Ht1].
  assert (Hrun : cf_lseek early chan cf offset whence w = Done (t, cf_with_offset t cf) w).
  { unfold cf_lseek. rewrite (proj2 (Z.eqb_neq _ _)) by done. simpl. unfold seek_target in Ht.
    rewrite Hd, Hlen, Hp in Ht. destruct (mirrors_cap _ _ _ _ _ _ Hm) as [Hsz Hcap].
    unfold mbind, M_bind. repeat (destruct (_ =? _) in Ht |- *; [injection Ht as <-; simpl; unfold mret, M_ret; rewrite ?i64_small, ?u64_small by lia; done|]).
    done. }
  simpl. apply wp_bind. unfold wp at 1. rewrite Hrun. apply wp_ret. exists (mkAfile (a_data a) t). simpl. split; [|split].
  - by apply step_seek.
  - exists s, f. split; [by apply (mirrors_same _ _ _ cf)|]. split; [done|]. rewrite orb_false_r. split; [done|].
    split; [done|]. split; [done|]. simpl. lia.
  - unfold a_next. simpl. by rewrite Ht.
Qed.

(** ** All operations *)

Lemma run_ops_refine base room fuel inode fd ops : forall used a cf w,
  in_step base room inode fd used a cf w -> ops_ok room (Z.of_nat (length (a_data a))) (a_pos a) ops = true ->
  wp (run_ops (S fuel) ops cf) (fun r w' => exists a',
    asteps ops (fst r) a a' /\ in_step base room inode fd (used || existsb is_access ops) a' (snd r) w') w.
Proof.
  induction ops as [|op ops IH]; intros used a cf w Hin Hok.
  { apply wp_ret. exists a. simpl. rewrite orb_false_r. split; [constructor|done]. }
  simpl in Hok. apply andb_true_iff in Hok as [Hop Hok].
  cbn [run_ops]. apply wp_bind. apply (wp_mono _ (refines_op base room inode fd used a op)).
  { destruct op; [by apply read_refines|by apply write_refines|by apply seek_refines]. }
  intros r w1 (a1 & Hstep & Hin1 & Hnext). apply wp_bind. unfold a_next in Hnext. rewrite <- Hnext in Hok. simpl in Hok.
  eapply wp_mono; [by apply (IH (used || is_access op) a1)|]. cbv beta. intros rs w2 (a2 & Hsteps & Hin2). apply wp_ret.
  exists a2. simpl. split; [by econstructor|]. by rewrite orb_assoc.
Qed.

(** ** Opening *)

(** The object of a file just opened. *)
Definition opened (inode : InodeType) (fd : Z) (flags : Z) (s : Server) (f : File) : ClientFile :=
  mkClientFile inode fd (m_size f) CACHE_SHARED (if has_flag flags O_APPEND then m_size f else 0)
    (shown s (m_memory_blocks f)).

Lemma cache_loop_wp fuel k w cf s f m (Q : ClientFile -> World -> Prop) :
  let len := Z.of_nat (length (m_memory_blocks f)) in
  known k w cf s f m -> len < 2 ^ 31 -> (Z.to_nat (len - m) < fuel)%nat ->
  (forall w', core_eq (w_servers w) (w_servers w') -> Q (cf_with_blocks (shown s (m_memory_blocks f)) cf) w') ->
  wp (cache_loop early chan fuel cf m len) Q w.
Proof.
  intros len. revert w cf s m Q. induction fuel as [|fuel IH]; intros w cf s m Q Hkn Hlen Hfuel HQ; [lia|].
  pose proof Hkn as [Hk [Hkr Hs Hb Hp] Hf Hty Hpl Hcnt]. fold len in Hcnt.
  cbn [cache_loop]. destruct (Z.ltb_spec m len) as [Hlt|Hge].
  2: { apply wp_ret. rewrite take_ge in Hb by lia. rewrite <- Hb in HQ.
    replace cf with (cf_with_blocks (cf_blocks cf) cf) by (by destruct cf). by apply HQ. }
  set (n := Z.min block_chunk_size (len - m)).
  assert (Hn : 0 < n <= len - m) by (unfold n, block_chunk_size; lia). rewrite !u64_small by lia.
  apply wp_bind. eapply (fosGetBlocklist_wp early chan _ _ _ s f); simpl; rewrite ?Hk; try done; [lia..| |].
  { by apply (placed_all_range memory_bound k). }
  intros w1 Hc1. set (new := take _ (drop _ _)).
  assert (Hnew : Z.of_nat (length (shown s new)) = n) by (unfold shown, new; rewrite length_fmap, length_take, length_drop; lia).
  apply wp_bind. unfold cf_set_blocks. apply wp_bind, wp_assert; [apply Z.leb_le; unfold n; lia|].
  cbn [snd]. rewrite (proj2 (Z.ltb_ge _ _)) by lia. apply wp_ret. rewrite take_ge by lia.
  destruct (core_eq_lookup _ s _ _ Hc1 Hs) as (s1 & Hs1 & Hst).
  assert (Hlb : length (cf_blocks cf) = Z.to_nat m) by (rewrite Hb; unfold shown; rewrite length_fmap, length_take; lia).
  replace (put_blocks m (shown s new) (cf_blocks cf)) with (cf_blocks cf ++ shown s new)
    by (rewrite <- put_blocks_app; f_equal; lia).
  pose proof (known_next k w cf s f m n s1 w1 (s_mem s1) Hkn ltac:(lia) ltac:(fold len; lia) Hs1 Hst) as Hkn1.
  rewrite put_mem_same in Hkn1 by done. replace (set_smem (s_mem s1) s1) with s1 in Hkn1 by (by destruct s1).
  eapply IH; [exact Hkn1|done|lia|]. intros w2 Hc2. rewrite (shown_core _ _ _ Hst). apply HQ. by etrans.
Qed.

Lemma cf_open_wp base room inode fd flags w s f :
  mirrors base room w (opened inode fd flags s f) s f ->
  wp (cf_open early chan inode fd (m_size f) CACHE_SHARED flags)
    (fun cf w' => cf = opened inode fd flags s f /\ core_eq (w_servers w) (w_servers w')) w.
Proof.
  intros Hm. destruct (mirrors_cap _ _ _ _ _ _ Hm) as [Hsz Hcap]. pose proof block_size_pos as Hbs.
  pose proof (mi_known _ _ _ _ _ _ Hm) as [_ [Hkr Hs _ _] Hf Hty Hpl _]. pose proof (mi_count _ _ _ _ _ _ Hm) as Hcnt.
  simpl in *. unfold cf_open, cache_blocks. cbn [cf_size]. destruct (block_div_mod (m_size f)) as [Hd Hdm].
  pose proof (Z.div_pos (m_size f) block_size). rewrite i32_small by nia. rewrite <- blocks_for_div, <- Hcnt.
  do 2 apply wp_bind. unfold int_result. rewrite (proj2 (Z.leb_le _ _)), (proj2 (Z.ltb_lt _ _)) by nia. apply wp_ret.
  eapply (cache_loop_wp _ (it_server inode) _ _ s f); [|nia|lia|].
  - split; simpl; try done. lia.
  - intros w1 Hc1. apply wp_bind. unfold cf_set_state. simpl. apply wp_bind, wp_ret, wp_ret, wp_ret.
    split; [|done]. unfold opened. by destruct (has_flag flags O_APPEND).
Qed.

(** Opening, any operations, and giving the file up. *)
Definition session (fuel : nat) (inode : InodeType) (fd filesize flags : Z) (ops : list fop) : M World (list fres) :=
  cf ← cf_open early chan inode fd filesize CACHE_SHARED flags;
  r ← run_ops fuel ops cf;
  cf_set_state early chan CACHE_INVALID (snd r);;
  mret (fst r).

(** C3: A client that opens a file and reads, writes and seeks it through the
    shared memory, without asking the server for the data, sees a list of bytes with a
    position: each read returns the bytes at the position, each write replaces
    or appends bytes there, and a gap past the blocks of the file is zero.
    When the client gives the file up, the server has exactly these bytes, and, if the file was read or
    written, the position.  No assertion of the code fails and every loop ends. *)
Theorem client_file_refines base room fuel inode fd flags ops w s f :
  mirrors base room w (opened inode fd flags s f) s f ->
  let a := mkAfile (file_data (s_mem s) f) (if has_flag flags O_APPEND then m_size f else 0) in
  ops_ok room (m_size f) (a_pos a) ops = true ->
  wp (session (S fuel) inode fd (m_size f) flags ops) (fun rs w' => exists a',
    asteps ops rs a a' /\
    published w' (opened inode fd flags s f) (a_data a') (if existsb is_access ops then Some (a_pos a') else None)) w.
Proof.
  intros Hm a Hok. destruct (mirrors_cap _ _ _ _ _ _ Hm) as [Hsz Hcap]. simpl in Hsz. unfold session. apply wp_bind.
  eapply wp_mono; [by apply (cf_open_wp base room)|]. cbv beta. intros cf w1 [-> Hc1].
  destruct (mirrors_core _ _ _ _ _ _ _ Hm Hc1) as (s1 & Hm1 & Hst1). apply wp_bind.
  assert (Ha : Z.of_nat (length (a_data a)) = m_size f) by (simpl; rewrite length_file_data; lia).
  eapply wp_mono; [apply (run_ops_refine base room fuel inode fd ops false a)|].
  - exists s1, f. split; [done|]. split.
    + split; [|done]. simpl. unfold contents. rewrite (sc_mem _ _ Hst1). by destruct f.
    + split; [done|]. split; [done|]. split; [done|]. simpl. destruct (has_flag _ _); lia.
  - by rewrite Ha.
  - cbv beta. intros r w2 (a2 & Hsteps & s2 & f2 & Hm2 & [Hd2 Hp2] & Hu2 & Hi2 & Hfd2 & Ho2). apply wp_bind.
    eapply wp_mono; [eapply (cf_set_state_wp early chan base room); [exact Hm2| |lia]|].
    + unfold state_ok. simpl in Hu2. destruct (existsb is_access ops); [by left|by right].
    + cbv beta. intros cf3 w3 [_ Hpub]. apply wp_ret. exists a2. split; [done|].
      unfold published in *. rewrite Hi2, Hfd2 in Hpub. simpl. rewrite Hd2, Hp2. simpl in Hu2.
      destruct (existsb is_access ops); [rewrite Hu2 in Hpub|rewrite (proj1 Hu2) in Hpub]; exact Hpub.
Qed.
End Session.

(** ** Demonstration *)

Section Demo.
Context `{ConfigOk}.

Definition placedb (k : Z) (c : BufferCache) (b : Z) : bool :=
  (k * partition <=? b - m_memory c) && (b - m_memory c + block_size <=? (k + 1) * partition).

(** The hypotheses of the theorem, as a test. *)
Definition mirrorsb (base room : Z) (w : World) (inode : InodeType) (fd flags : Z) (s : Server) (f : File) : bool :=
  let k := it_server inode in
  let len := Z.of_nat (length (m_memory_blocks f)) in
  let c := m_buffer_cache s in
  bool_decide (0 <= k < CONFIG_FS_SERVER_COUNT) &&
  forallb (placedb k c) (m_memory_blocks f ++ bc_usable c) &&
  bool_decide (m_type (f_base f) = TYPE_FILE) && (len =? blocks_for (m_size f)) &&
  (0 <=? m_size f) && (room * block_size <? 2 ^ 31) && (len + m_blocks_free c =? room) &&
  bool_decide (bc_ok c) && bool_decide (NoDup (all_blocks (fstate s f))) &&
  forallb (fun b => (b - base) mod block_size =? 0) (all_blocks (fstate s f)) &&
  match m_fds s !! fd with Some d => fd_id d =? it_id inode | None => false end.

Lemma mirrorsb_ok base room w inode fd flags s f :
  w_servers w !! Z.to_nat (it_server inode) = Some s -> m_files s !! it_id inode = Some (FileV f) ->
  mirrorsb base room w inode fd flags s f = true -> mirrors base room w (opened inode fd flags s f) s f.
Proof.
  intros Hs Hf. unfold mirrorsb. rewrite !andb_true_iff, !bool_decide_eq_true, !forallb_forall.
  intros ((((((((((Hk & Hpl) & Hty) & Hcnt) & Hsz) & Hsm) & Hrm) & Hbc) & Hnd) & Hal) & Hfd).
  assert (Hall : Forall (placed (it_server inode) (m_buffer_cache s)) (m_memory_blocks f ++ bc_usable (m_buffer_cache s))).
  { apply Forall_forall. intros b Hb. apply list_elem_of_In, Hpl in Hb. unfold placedb in Hb. split; lia. }
  apply Forall_app in Hall as [Hblocks Hfree]. split; simpl; try done; try lia.
  - split; simpl; try done; [|lia]. rewrite take_ge by lia. split; simpl; done.
  - apply Forall_forall. intros b Hb. apply list_elem_of_In, Hal in Hb. unfold aligned. lia.
  - destruct (m_fds s !! fd) as [d|]; [|done]. exists d. split; [done|]. lia.
Qed.
End Demo.

Definition demo_home : Server := default (demo_server 1) (w_servers demo_full !! 1%nat).
Definition demo_inode : InodeType := mkInodeType 1 67108868 TYPE_FILE.
Definition demo_data : File :=
  match m_files demo_home !! it_id demo_inode with Some (FileV f) => f | _ => File_new tiny_base end.
Definition demo_session : list fop := [FWrite [1; 2; 3]; FSeek 1 SEEK_SET; FRead 5; FSeek 70000 SEEK_SET; FWrite [9]].

(** A new file is written, read back in part, and written past its first
    block. *)
Lemma client_file_refines_witness :
  wp (@session small_config plain_env late 7 1 demo_inode 1017 0 0 demo_session)
    (fun rs w' => exists a', @asteps small_config demo_session rs (mkAfile [] 0) a' /\
       @published small_config w' (@opened demo_inode 1017 0 demo_home demo_data) (a_data a') (Some (a_pos a'))) demo_full.
Proof.
  apply (@client_file_refines small_config small_config_ok plain_env plain_env_ok late 7 ltac:(vm_compute; reflexivity)
    353621 5 0 demo_inode 1017 0 demo_session demo_full demo_home demo_data);
    [apply mirrorsb_ok; vm_compute; reflexivity|vm_compute; reflexivity].
Defined.
