(* ===== verification/FsClientListing.v ===== *)
(** * Reading a directory

    The rest of [sys/fs/lib/dir.cpp], [Dir::getdents], and what an application
    gets that reads a directory to its end: the records of every server's part,
    each once, in a number of calls that is bounded by the number of records. *)

From S2P Require Import Prelude FsTypes BufferCache FsFile FsNode FsServer FsServerInv FsServerOps FsMarshall FsReach FsServerSpec FsListing FsDirCache FsClient FsClientSpec.

#[local] Arguments OP_COUNTER : simpl never.
#[local] Arguments dirent_reclen : simpl never.
#[local] Arguments Z.pow : simpl never.

(** ** Operations *)

(** [struct linux_dirent], with numbers of 32 bits; the type is in the last byte
    of the record. *)
Record LinuxDirent : Type := mkLinuxDirent {
  ld_ino : Z;
  ld_off : Z;
  ld_reclen : Z;
  ld_name : string;
  ld_type : Z
}.

(** [ALIGN(offsetof(struct linux_dirent, d_name) + namelen + 2, sizeof(long))] *)
Definition linux_reclen (name : string) : Z :=
  i32 (Z.land (10 + Z.of_nat (String.length name) + 2 + 7) (Z.lnot 7)).

(** The copy loop of [getdents]: the records that fit and the bytes they take. *)
Fixpoint pack_dents (written count : Z) (rs : list FauxDirent) : list LinuxDirent * Z :=
  match rs with
  | [] => ([], written)
  | r :: rs' =>
      let reclen := linux_reclen (d_name r) in
      if count <? u64 (written + reclen) then ([], written)
      else
        let '(out, w) := pack_dents (written + reclen) count rs' in
        (mkLinuxDirent (u32 (d_ino r)) (i32 (d_off r)) (u16 reclen) (d_name r) (d_type r) :: out, w)
  end.

Section Operations.
Context `{Config} `{Env}.
Variable early : nat -> nat -> bool.
Variable chan : Z.

(** The part of [getdents] after [dent_again:]. *)
Fixpoint dent32_again (tries : nat) (d : AppDir) (count : Z) : M World (Z * list LinuxDirent * AppDir) :=
  match tries with
  | O => timeout
  | S tries' =>
      x ← dirent_rpc early chan (ad_server d) (it_id (ad_inode d)) (ad_offset d) count;
      let '(ret, rs, _, more) := x in
      mod_cache chan (fun c => foldl (fun c r => dent_cache (ad_inode d) r c) c rs);;
      (if ad_shared d then mret tt else assert_ (negb (ret =? -2)));;
      if negb (ad_shared d) && (ret =? -1) then mret (0, [], ad_move (ad_offset d) CONFIG_FS_SERVER_COUNT d)
      else if (ret =? -1) || (ret =? -2)
      then
        if ad_server d =? CONFIG_FS_SERVER_COUNT - 1 then mret (0, [], d)
        else dent32_again tries' (ad_move 0 (ad_server d + 1) d) count
      else if ret <? 0 then mret (-1, [], d)
      else
        let '(out, written) := pack_dents 0 count (dent_shown <$> rs) in
        let taken := Z.of_nat (length out) in
        let d' := if negb more && (ad_server d <? CONFIG_FS_SERVER_COUNT - 1) && (taken =? ret)
                  then if ad_shared d then ad_move 0 (ad_server d + 1) d
                       else ad_move (ad_offset d + taken) CONFIG_FS_SERVER_COUNT d
                  else ad_move (ad_offset d + taken) (ad_server d) d in
        mret (written, out, d')
  end.

(** [Dir::getdents]: with the snapshot enabled it is taken and then not used. *)
Definition getdents (fuel : nat) (d : AppDir) (count : Z) : M World (Z * list LinuxDirent * AppDir) :=
  d ← (if ENABLE_DENT_SNAPSHOT then cache_dents early chan fuel d else mret d);
  if ad_server d =? CONFIG_FS_SERVER_COUNT then mret (0, [], d)
  else dent32_again (S (Z.to_nat CONFIG_FS_SERVER_COUNT)) d count.

(** An application that calls [get] until nothing is returned. *)
Fixpoint read_dir {R} (get : AppDir -> M World (Z * list R * AppDir)) (calls : nat) (d : AppDir)
  : M World (list R) :=
  match calls with
  | O => timeout
  | S calls' =>
      x ← get d;
      let '(bytes, rs, d) := x in
      if bytes <=? 0 then mret [] else rest ← read_dir get calls' d; mret (rs ++ rest)
  end.
End Operations.

(** ** One server *)

Section Part.
Context `{ConfigOk} `{EnvOk}.
Variable early : nat -> nat -> bool.
Variable chan : Z.
Variable id : Z.

Definition part_at (ss : list Server) (k : Z) : list FauxDirent :=
  match ss !! Z.to_nat k with
  | Some s => match m_files s !! id with Some (DirV d) => listing id d | _ => [] end
  | None => []
  end.

(** The part of the directory on server [k] can be listed with buffers of
    [size] bytes: every record fits. *)
Definition part_fits (size : Z) (ss : list Server) (k : Z) : Prop :=
  0 <= k /\ Z.of_nat (length (part_at ss k)) < 2 ^ 31 /\
  exists s, ss !! Z.to_nat k = Some s /\
    forall v, m_files s !! id = Some v -> exists d, v = DirV d /\ isDir v = true /\
      Forall listable (m_children d) /\ Forall (fun r => reclen r <= size) (listing id d).

Lemma part_at_core ss ss' k : core_eq ss ss' -> part_at ss' k = part_at ss k.
Proof.
  intros Hc. unfold part_at. destruct (ss !! Z.to_nat k) as [s|] eqn:Hs.
  - destruct (core_eq_lookup _ _ _ _ Hc Hs) as (s' & -> & [_ -> _ _ _ _ _]). done.
  - apply lookup_ge_None in Hs. rewrite <- (core_eq_length _ _ Hc) in Hs. by apply lookup_ge_None in Hs as ->.
Qed.

Lemma part_fits_core size ss ss' k : core_eq ss ss' -> part_fits size ss k -> part_fits size ss' k.
Proof.
  intros Hc (Hk & Hn & s & Hs & Hv). split; [done|]. rewrite (part_at_core _ _ _ Hc). split; [done|].
  destruct (core_eq_lookup _ _ _ _ Hc Hs) as (s' & Hs' & [_ Hf _ _ _ _ _]). exists s'. by rewrite Hf.
Qed.

(** A page of a list of records that fit is not empty before the end. *)
Lemma page_nil size rs : Forall (fun r => reclen r <= size) rs -> page size rs = [] -> rs = [].
Proof.
  destruct 1 as [|r rs Hr _]; [done|]. simpl. by rewrite (proj2 (Z.leb_le _ _) Hr).
Qed.

(** What the client makes of the answer of server [k]. *)
Definition answer_at (ss : list Server) (k off size : Z) : Z * list FauxDirent * Z * bool -> Prop :=
  fun '(ret, rs, bytes, more) =>
    exists left, drop (Z.to_nat off) (part_at ss k) = rs ++ left /\ rs = page size (rs ++ left) /\
      bytes = total rs /\ more = bool_decide (left <> []) /\
      match rs with
      | [] => left = [] /\ (ret = -1 \/ ret = -2 /\ part_at ss k = [])
      | _ => ret = Z.of_nat (length rs)
      end.

Lemma page_answer ss k size off d s :
  ss !! Z.to_nat k = Some s -> m_files s !! id = Some (DirV d) ->
  Forall (fun r => reclen r <= size) (listing id d) ->
  let '(rv, buf, n, more) := page_reply size (drop (Z.to_nat off) (listing id d)) in
  answer_at ss k off size (if (rv =? -1) || (rv =? -2) then (rv, [], 0, false) else (rv, buf, n, more)).
Proof.
  intros Hs Hd Hfit. unfold page_reply, answer_at.
  assert (part_at ss k = listing id d) as -> by (unfold part_at; by rewrite Hs, Hd).
  apply (Forall_drop _ (Z.to_nat off)) in Hfit.
  set (rest := drop _ _) in *. destruct (page size rest) as [|r rs] eqn:Hp.
  - simpl. apply page_nil in Hp; [|done]. rewrite Hp. exists []. repeat split; auto.
  - destruct (page_prefix size rest) as [left Hl]. rewrite Hp in Hl.
    rewrite (proj2 (Z.eqb_neq _ _)) by (simpl; lia). rewrite (proj2 (Z.eqb_neq _ _)) by (simpl; lia). simpl orb.
    exists left. rewrite <- Hl, Hp. split_and!; try done. rewrite Hl, length_app.
    destruct left; simpl; [rewrite Nat.add_0_r; apply Nat.ltb_irrefl|]. apply Nat.ltb_lt. lia.
Qed.

Definition capped (size : Z) : Z := if CONFIG_FS_CHUNK_SIZE <? size then CONFIG_FS_CHUNK_SIZE else size.

Lemma capped_range size :
  24 <= CONFIG_FS_CHUNK_SIZE -> 24 <= size < 2 ^ 31 -> 24 <= capped size < 2 ^ 31.
Proof. unfold capped. case_match; lia. Qed.

Lemma dirent_rpc_wp k off size w :
  part_fits (capped size) (w_servers w) k -> 0 <= off < 2 ^ 31 -> 24 <= capped size < 2 ^ 31 ->
  wp (dirent_rpc early chan k id off size) (fun r w' =>
    answer_at (w_servers w) k off (capped size) r /\ core_eq (w_servers w) (w_servers w')) w.
Proof.
  intros (Hk & _ & s & Hs & Hv) Hoff Hsz. unfold dirent_rpc. fold (capped size). cbv zeta. apply wp_bind.
  apply (wp_rpc early chan k _ s (fun x s' => same_core s s' /\ exists rv more n buf, x = DirEntReply rv more n buf /\
    answer_at (w_servers w) k off (capped size)
      (if (rv =? -1) || (rv =? -2) then (rv, [], 0, false) else (rv, buf, n, more)))); [done..| |].
  - simpl. unfold FsMarshall.direntry. rewrite i32_small by lia. apply wp_bind.
    destruct (m_files s !! id) as [v|] eqn:Hid.
    + destruct (Hv v eq_refl) as (d & -> & Hdir & Hl & Hfit).
      eapply wp_mono; [apply (direntry_wp chan id off (capped size) d s); [done..|lia|lia]|].
      cbv beta. intros r s' [-> Hc]. pose proof (page_answer (w_servers w) k (capped size) off d s Hs Hid Hfit) as Ha.
      destruct (page_reply _ _) as [[[rv buf] n] more]. apply wp_ret. split; [done|]. by exists rv, more, n, buf.
    + unfold FsServer.direntry. apply wp_OP_COUNTER. intros s1 [Hc1 _ _]. unfold find_file. apply wp_bind, wp_gets.
      rewrite (sc_files _ _ Hc1), Hid. apply wp_ret. intros s2 [Hc2 _ _]. apply wp_ret.
      split; [by etrans|]. exists NOT_FOUND, false, 0, []. split; [done|].
      change NOT_FOUND with (-2). simpl. exists []. unfold part_at. rewrite Hs, Hid, drop_nil.
      split_and!; auto.
  - cbv beta. intros x s' w' (Hc & rv & more & n & buf & -> & Ha) Hw'.
    assert (core_eq (w_servers w) (w_servers w')).
    { etrans; [|exact Hw']. rewrite <- (list_insert_id (w_servers w) (Z.to_nat k) s) at 1 by done.
      by apply core_eq_insert. }
    destruct ((rv =? -1) || (rv =? -2)); by apply wp_ret.
Qed.
End Part.

(** ** The snapshot *)

Section Snapshot.
Context `{ConfigOk} `{EnvOk}.
Variable early : nat -> nat -> bool.
Variable chan : Z.
Variable dir : InodeType.
Variable ss : list Server.
Let id := it_id dir.

(** What a row of [cache_dents] has still to bring. *)
Definition row_left (row : Z * bool * Z) : list FauxDirent :=
  let '(i, more, off) := row in if (more : bool) then drop (Z.to_nat off) (part_at id ss i) else [].
Definition row_ok (row : Z * bool * Z) : Prop :=
  let '(i, more, off) := row in
  (more : bool) = true -> part_fits id (capped 49152) ss i /\ 0 <= off <= Z.of_nat (length (part_at id ss i)).
Definition rows_left (rows : list (Z * bool * Z)) : list FauxDirent := concat (row_left <$> rows).

Hypothesis Hsize : 24 <= CONFIG_FS_CHUNK_SIZE.

(** A round brings a page of every row that has more. *)
Lemma dents_round_wp rows w :
  Forall row_ok rows -> core_eq ss (w_servers w) ->
  wp (dents_round early chan dir rows) (fun r w' =>
    core_eq ss (w_servers w') /\ Forall row_ok r.1 /\
    (exists got, r.2 = dent_shown <$> got /\ rows_left rows ≡ₚ got ++ rows_left r.1) /\
    (length (rows_left r.1) + (if existsb (fun row => row.1.2) r.1 then 1 else 0) <= length (rows_left rows))%nat) w.
Proof.
  intros Hrows. revert w. induction Hrows as [|[[i more] off] rows Hrow Hrows IH]; intros w Hc; cbn [dents_round].
  { apply wp_ret. split_and!; try done. by exists []. }
  destruct more; apply wp_bind.
  - destruct (Hrow eq_refl) as [Hfit Hoff].
    assert (Hlen : Z.of_nat (length (part_at id ss i)) < 2 ^ 31) by apply Hfit.
    eapply wp_mono; [apply (dirent_rpc_wp early chan id); [by eapply part_fits_core|lia|by apply capped_range]|].
    cbv beta. intros [[[ret rs] bytes] more] w1 [(left & Hrest & Hpage & -> & -> & Hret) Hc1].
    rewrite (part_at_core _ _ _ _ Hc) in Hrest, Hret.
    apply wp_bind, wp_mod_cache. intros w2 Hw2. apply wp_bind.
    eapply wp_mono; [apply IH; rewrite Hw2; by etrans|].
    cbv beta. intros [rows' new] w3 (Hc3 & Hok & (got & Hnew & Hperm) & Hprog). simpl in *. subst new.
    assert (Hleft : row_left (i, bool_decide (left <> []), off + Z.of_nat (length rs)) = left).
    { unfold row_left. case_bool_decide as Hn; [|by destruct left].
      rewrite Z2Nat.inj_add, Nat2Z.id, <- drop_drop, Hrest by lia. by rewrite drop_app_length. }
    apply wp_ret. simpl fst. simpl snd. unfold rows_left in *. rewrite !fmap_cons, !concat_cons, Hleft.
    change (row_left (i, true, off)) with (drop (Z.to_nat off) (part_at id ss i)).
    replace (drop (Z.to_nat off) (part_at id ss i)) with (rs ++ left).
    split_and!; [done| | |].
    + constructor; [|done]. intros _. split; [done|].
      apply (f_equal length) in Hrest. rewrite length_drop, length_app in Hrest. lia.
    + exists (rs ++ got). split; [by rewrite fmap_app|]. rewrite Hperm. solve_Permutation.
    + simpl existsb. rewrite !length_app. destruct rs as [|r rs]; [destruct Hret as [-> _]; simpl; lia|].
      simpl. do 2 case_match; lia.
  - eapply wp_mono; [by apply IH|]. cbv beta. intros [rows' new] w3 (Hc3 & Hok & Hgot & Hprog).
    apply wp_ret. simpl in *. split_and!; try done. by constructor.
Qed.

Lemma dents_loop_wp fuel rows dents w :
  Forall row_ok rows -> core_eq ss (w_servers w) -> (length (rows_left rows) < fuel)%nat ->
  wp (dents_loop early chan fuel dir rows dents) (fun r w' =>
    core_eq ss (w_servers w') /\ r ≡ₚ dents ++ (dent_shown <$> rows_left rows)) w.
Proof.
  revert rows dents w. induction fuel as [|fuel IH]; intros rows dents w Hrows Hc Hf; [lia|]. cbn [dents_loop].
  apply wp_bind. eapply wp_mono; [by apply dents_round_wp|].
  cbv beta. intros [rows' new] w1 (Hc1 & Hok & (got & Hnew & Hperm) & Hprog). simpl in *. subst new.
  destruct (existsb _ rows') eqn:Hmore.
  - eapply wp_mono; [apply IH; [done..|lia]|]. cbv beta. intros r w2 [Hc2 ->]. split; [done|].
    by rewrite Hperm, fmap_app, (assoc_L (++)).
  - apply wp_ret. split; [done|]. rewrite Hperm.
    assert (rows_left rows' = []) as ->; [|by rewrite app_nil_r].
    unfold rows_left. clear -Hmore. induction rows' as [|[[i []] off] rows IH]; simpl in *; [done..|auto].
Qed.
End Snapshot.

(** ** Record lengths *)

Lemma listing_reclen id d :
  Forall listable (m_children d) ->
  Forall (fun r => Z.of_nat (String.length (d_name r)) < 2 ^ 15 /\ d_reclen r = reclen r) (listing id d).
Proof.
  intros Hl. assert (Hc : forall pos, Forall (fun r => Z.of_nat (String.length (d_name r)) < 2 ^ 15 /\ d_reclen r = reclen r)
                            (child_records pos (m_children d))).
  { induction Hl as [|[n l] c [Hn _] Hl IH]; intros pos; simpl; constructor; auto.
    simpl in *. split; [done|]. pose proof (dirent_reclen_bounds n Hn). unfold reclen. simpl. unfold u16. apply Z.mod_small. lia. }
  unfold listing. case_match; [done|]. constructor; [|done]. by vm_compute.
Qed.

(** What [read_dir] relies on for a record and a buffer of [size] bytes. *)
Definition rec_ok (size : Z) (r : FauxDirent) : Prop :=
  Z.of_nat (String.length (d_name r)) < 2 ^ 15 /\ d_reclen r = reclen r /\ 24 <= reclen r <= size.

Lemma part_rec_ok id size ss k : part_fits id size ss k -> Forall (rec_ok size) (part_at id ss k).
Proof.
  intros (_ & _ & s & Hs & Hv). unfold part_at. rewrite Hs.
  destruct (m_files s !! id) as [v|]; [|done]. destruct (Hv v eq_refl) as (d & -> & _ & Hl & Hfit).
  apply (listing_reclen id) in Hl. rewrite Forall_forall in Hl, Hfit. apply Forall_forall.
  intros r Hin. destruct (Hl r Hin) as [Hn Hr]. specialize (Hfit r Hin). pose proof (dirent_reclen_bounds _ Hn). split_and!; auto. unfold reclen in *. lia.
Qed.

Lemma part_fits_mono id size size' ss k : size <= size' -> part_fits id size ss k -> part_fits id size' ss k.
Proof.
  intros Hle (Hk & Hn & s & Hs & Hv). split; [done|]. split; [done|]. exists s. split; [done|].
  intros v Hid. destruct (Hv v Hid) as (d & ? & ? & ? & Hf). exists d. split_and!; auto.
  eapply Forall_impl; [exact Hf|]. simpl. lia.
Qed.

Lemma rec_ok_shown size r : rec_ok size (dent_shown r) <-> rec_ok size r.
Proof. unfold dent_shown. by case_match. Qed.

Lemma shown_rec_ok size l : Forall (rec_ok size) l -> Forall (rec_ok size) (dent_shown <$> l).
Proof. intros Hl. apply Forall_fmap. eapply Forall_impl; [exact Hl|]. intros r. apply rec_ok_shown. Qed.

Lemma snapshot_page_spec size l :
  Forall (rec_ok size) l -> exists l', l = snapshot_page size l ++ l' /\ (snapshot_page size l = [] -> l = []) /\
    let bytes := foldr (fun r n => d_reclen r + n) 0 (snapshot_page size l) in
    if bytes <=? 0 then l = [] else snapshot_page size l <> [].
Proof.
  assert (Hgen : forall n l, exists l', l = snapshot_page n l ++ l').
  { intros n k. revert n. induction k as [|r k IH]; intros n; simpl; [by exists []|].
    case_match; [by eexists|]. destruct (IH (n - d_reclen r)) as [l' Hl']. exists l'. simpl. by rewrite <- Hl'. }
  assert (Hpos : forall n k, Forall (rec_ok size) k -> 0 <= foldr (fun r n => d_reclen r + n) 0 (snapshot_page n k)).
  { intros n k Hk. revert n. induction Hk as [|r k (_ & Hr & ?) Hk IH]; intros n; simpl; [done|].
    case_match; simpl; [done|]. specialize (IH (n - d_reclen r)). lia. }
  intros Hl. destruct (Hgen size l) as [l' Hl']. exists l'. split; [done|].
  destruct Hl as [|r l (_ & Hr & ?) Hl]; [done|]. simpl.
  rewrite (proj2 (Z.ltb_ge _ _)) by lia. split; [done|]. simpl. specialize (Hpos (size - d_reclen r) l Hl).
  by rewrite (proj2 (Z.leb_gt _ _)) by lia.
Qed.

(** ** An application that reads to the end *)

Section ReadDir.
Context `{Config} `{Env}.
Variable ss : list Server.
Context {R : Type}.
Variable get : AppDir -> M World (Z * list R * AppDir).
Variable pending : AppDir -> list R -> Prop.

(** A call returns some of the pending records, or nothing at the end. *)
Definition gets_some (l : list R) : Z * list R * AppDir -> World -> Prop :=
  fun '(bytes, rs, d') w' => core_eq ss (w_servers w') /\
    if bytes <=? 0 then l = [] else rs <> [] /\ exists l', pending d' l' /\ l ≡ₚ rs ++ l'.

Hypothesis Hget : forall d l w, pending d l -> core_eq ss (w_servers w) -> wp (get d) (gets_some l) w.

Lemma read_dir_wp calls d l w :
  pending d l -> core_eq ss (w_servers w) -> (length l < calls)%nat ->
  wp (read_dir get calls d) (fun rs w' => rs ≡ₚ l /\ core_eq ss (w_servers w')) w.
Proof.
  revert d l w. induction calls as [|calls IH]; intros d l w Hd Hc Hn; [lia|]. cbn [read_dir].
  apply wp_bind. eapply wp_mono; [by apply Hget|]. intros [[bytes rs] d'] w' [Hc' Hr].
  destruct (bytes <=? 0); [apply wp_ret; by subst|]. destruct Hr as (Hrs & l' & Hd' & Hl).
  apply wp_bind. eapply wp_mono; [apply IH; [done..|]|].
  - apply Permutation_length in Hl. rewrite length_app in Hl. destruct rs; simpl in *; [done|lia].
  - cbv beta. intros rest w2 [Hrest Hc2]. apply wp_ret. split; [|done]. by rewrite Hl, Hrest.
Qed.
End ReadDir.

(** ** The directory as a whole *)

Section Whole.
Context `{ConfigOk} `{EnvOk}.
Variable early : nat -> nat -> bool.
Variable chan : Z.
Variable dir : InodeType.
Variable ss : list Server.
Variable count : Z.
Let id := it_id dir.
Let shared := bool_decide (it_type dir = TYPE_DIR_SHARED).

(** All records: of every server's part if the directory is shared, of its
    own server's otherwise. *)
Definition whole : list FauxDirent :=
  if shared then concat (part_at id ss <$> seqZ 0 CONFIG_FS_SERVER_COUNT) else part_at id ss (it_server dir).

(** Buffers of [count] bytes are enough for any record, and a directory that is
    not shared is on its server, where it lists at least itself. *)
Record dir_fits : Prop := {
  df_chunk : 24 <= CONFIG_FS_CHUNK_SIZE;
  df_count : 24 <= count < 2 ^ 31;
  df_parts k : 0 <= k < CONFIG_FS_SERVER_COUNT ->
    part_fits id (Z.min CONFIG_FS_CHUNK_SIZE (Z.min 49152 count)) ss k;
  df_home : shared = false -> 0 <= it_server dir < CONFIG_FS_SERVER_COUNT /\ part_at id ss (it_server dir) <> []
}.
Hypothesis Hdir : dir_fits.

Lemma fits_capped size k :
  Z.min 49152 count <= size -> 0 <= k < CONFIG_FS_SERVER_COUNT -> part_fits id (capped size) ss k.
Proof.
  intros Hsz Hk. apply (part_fits_mono _ (Z.min CONFIG_FS_CHUNK_SIZE (Z.min 49152 count))); [|by apply df_parts].
  unfold capped. case_match; lia.
Qed.

Lemma whole_rec_ok : Forall (rec_ok count) (dent_shown <$> whole).
Proof.
  assert (Hpart : forall k, 0 <= k < CONFIG_FS_SERVER_COUNT -> Forall (rec_ok count) (part_at id ss k)).
  { intros k Hk. eapply part_rec_ok, part_fits_mono; [|by apply df_parts]. lia. }
  apply shown_rec_ok. unfold whole. pose proof (df_home Hdir). destruct shared; [|by apply Hpart; naive_solver].
  apply Forall_concat, Forall_fmap, Forall_seqZ. intros k Hk. apply Hpart. lia.
Qed.

(** The rows [cache_dents] starts with have the whole directory to bring. *)
Lemma concat_one {A} (f : Z -> list A) k start n :
  start <= k < start + n -> concat ((fun i => if i =? k then f i else []) <$> seqZ start n) = f k.
Proof.
  intros Hk. rewrite <- (Z2Nat.id n) in * by lia. revert start Hk. generalize (Z.to_nat n) as m.
  induction m as [|m IH]; intros start Hk; [lia|]. rewrite seqZ_cons by lia. rewrite fmap_cons, concat_cons.
  replace (Z.pred (Z.of_nat (S m))) with (Z.of_nat m) by lia.
  destruct (Z.eqb_spec start k) as [->|Hne]; [|rewrite IH by lia; done].
  replace (concat _) with (@nil A); [by rewrite app_nil_r|]. symmetry.
  clear IH. assert (Hgen : forall s, k < s -> concat ((fun i => if i =? k then f i else []) <$> seqZ s (Z.of_nat m)) = []).
  { induction m as [|m IH]; intros s Hs; [done|]. rewrite seqZ_cons by lia. rewrite fmap_cons, concat_cons.
    rewrite (proj2 (Z.eqb_neq _ _)) by lia. replace (Z.pred (Z.of_nat (S m))) with (Z.of_nat m) by lia.
    rewrite IH by lia. done. }
  apply Hgen. lia.
Qed.

Lemma first_rows d :
  ad_inode d = dir -> (shared = false -> ad_server d = it_server dir) ->
  let rows := (fun i => (i, if ad_shared d then true else i =? ad_server d, 0)) <$> seqZ 0 CONFIG_FS_SERVER_COUNT in
  Forall (row_ok dir ss) rows /\ rows_left dir ss rows = whole.
Proof.
  intros Hi Hs. cbv zeta. unfold ad_shared. rewrite Hi. fold shared. split.
  - apply Forall_fmap, Forall_seqZ. intros k Hk. simpl. intros _. split; [apply fits_capped; lia|]. lia.
  - unfold rows_left, whole. rewrite <- list_fmap_compose. destruct shared eqn:Hsh; [done|].
    rewrite (Hs eq_refl). pose proof (proj1 (df_home Hdir Hsh)).
    rewrite <- (concat_one (part_at id ss) (it_server dir) 0 CONFIG_FS_SERVER_COUNT) by lia.
    done.
Qed.

Lemma cache_dents_wp fuel d w :
  ad_inode d = dir -> (shared = false -> ad_server d = it_server dir) -> ad_dents d = [] ->
  core_eq ss (w_servers w) -> (length whole < fuel)%nat ->
  wp (cache_dents early chan fuel d) (fun d' w' => core_eq ss (w_servers w') /\
    exists l, l ≡ₚ dent_shown <$> whole /\
      d' = mkAppDir (ad_inode d) (ad_fd d) (ad_offset d) (ad_server d) l) w.
Proof.
  intros Hi Hs Hn Hc Hf. unfold cache_dents. rewrite Hn. cbv zeta. apply wp_bind.
  destruct (first_rows d Hi Hs) as [Hrows Hleft]. rewrite Hi.
  eapply wp_mono; [apply (dents_loop_wp early chan dir ss (df_chunk Hdir)); [done..|]|].
  - by rewrite Hleft.
  - cbv beta. rewrite Hleft. intros l w' [Hc' Hl]. apply wp_ret. eauto.
Qed.

(** *** With the snapshot *)

Definition snapshot_pending (d : AppDir) (l : list FauxDirent) : Prop :=
  ad_inode d = dir /\ (shared = false -> ad_server d = it_server dir) /\
  (ad_dents d = [] /\ ad_offset d = 0 /\ l ≡ₚ dent_shown <$> whole \/
   ad_dents d <> [] /\ 0 <= ad_offset d <= Z.of_nat (length (ad_dents d)) /\
   ad_dents d ≡ₚ dent_shown <$> whole /\ l = drop (Z.to_nat (ad_offset d)) (ad_dents d)).

(** The call once the snapshot is there. *)
Lemma snapshot_next d l w :
  snapshot_pending d l -> (ad_dents d = [] -> l = []) -> core_eq ss (w_servers w) ->
  gets_some ss snapshot_pending l
    (if ad_offset d =? Z.of_nat (length (ad_dents d)) then (0, [], d)
     else
      let rs := snapshot_page count (drop (Z.to_nat (ad_offset d)) (ad_dents d)) in
      (foldr (fun r n => d_reclen r + n) 0 rs, rs, ad_move (ad_offset d + Z.of_nat (length rs)) (ad_server d) d)) w.
Proof.
  intros (Hi & Hs & Hd) Hnil Hc. destruct Hd as [(Hn & Ho & _)|(Hne & Ho & Hp & ->)].
  { rewrite Hn, Ho. simpl. split; [done|]. by apply Hnil. }
  destruct (Z.eqb_spec (ad_offset d) (Z.of_nat (length (ad_dents d)))) as [He|He].
  { simpl. split; [done|]. apply drop_ge. lia. }
  assert (Hok : Forall (rec_ok count) (drop (Z.to_nat (ad_offset d)) (ad_dents d))).
  { apply Forall_drop. rewrite Hp. apply whole_rec_ok. }
  destruct (snapshot_page_spec count _ Hok) as (l' & Hl & _ & Hbytes). cbv zeta in *.
  set (rs := snapshot_page _ _) in *. split; [done|]. case_match; [done|]. split; [done|].
  exists l'. split; [|by rewrite <- Hl]. split; [done|]. split; [done|]. right. simpl.
  pose proof (f_equal length Hl) as Hlen. rewrite length_drop, length_app in Hlen.
  split_and!; [done|lia|lia|done|].
  by rewrite Z2Nat.inj_add, Nat2Z.id, <- drop_drop, Hl, drop_app_length by lia.
Qed.

Lemma gets_some_perm l k x w :
  l ≡ₚ k -> gets_some ss snapshot_pending k x w -> gets_some ss snapshot_pending l x w.
Proof.
  intros Hl. destruct x as [[bytes rs] d1]. intros [Hc Hx]. split; [done|]. case_match.
  - subst k. by apply Permutation_nil.
  - destruct Hx as (Hrs & l' & Hp & Hk). split; [done|]. exists l'. by rewrite Hl.
Qed.

Lemma snapshot_call fuel d l w :
  ENABLE_DENT_SNAPSHOT && (1 <? CONFIG_FS_SERVER_COUNT) = true -> (length whole < fuel)%nat ->
  snapshot_pending d l -> core_eq ss (w_servers w) ->
  wp (getdents64 early chan fuel d count) (gets_some ss snapshot_pending l) w.
Proof.
  intros Hon Hf Hp Hc. unfold getdents64. rewrite Hon.
  assert (Hlast : forall d1 l1 w1, snapshot_pending d1 l1 -> (ad_dents d1 = [] -> l1 = []) -> l ≡ₚ l1 ->
    core_eq ss (w_servers w1) ->
    wp (if ad_offset d1 =? Z.of_nat (length (ad_dents d1)) then mret (0, [], d1)
        else
          let rs := snapshot_page count (drop (Z.to_nat (ad_offset d1)) (ad_dents d1)) in
          mret (foldr (fun r n => d_reclen r + n) 0 rs, rs,
                ad_move (ad_offset d1 + Z.of_nat (length rs)) (ad_server d1) d1))
      (gets_some ss snapshot_pending l) w1).
  { intros d1 l1 w1 Hp1 Hn1 Hl1 Hc1. pose proof (snapshot_next d1 l1 w1 Hp1 Hn1 Hc1) as Hnext.
    case_match; apply wp_ret; by eapply gets_some_perm. }
  apply wp_bind. pose proof Hp as (Hi & Hs & [(Hn & Ho & Hl)|(Hn & _)]).
  - eapply wp_mono; [by apply cache_dents_wp|]. cbv beta. intros d1 w1 (Hc1 & l1 & Hl1 & ->).
    apply (Hlast _ l1); simpl; [|done|by rewrite Hl, Hl1|done].
    split; [done|]. split; [done|]. simpl. rewrite Ho. destruct l1; [by left|right]. split_and!; try done; lia.
  - unfold cache_dents. destruct (ad_dents d) as [|r rs] eqn:Hd; [done|]. apply wp_ret.
    apply (Hlast _ l); try done. by rewrite Hd.
Qed.

(** *** One server after the other *)

(** What is still to come when [ad_server] is asked from [ad_offset] on. *)
Definition seq_left (d : AppDir) : list FauxDirent :=
  if ad_server d =? CONFIG_FS_SERVER_COUNT then []
  else drop (Z.to_nat (ad_offset d)) (part_at id ss (ad_server d)) ++
       (if shared
        then concat (part_at id ss <$> seqZ (ad_server d + 1) (CONFIG_FS_SERVER_COUNT - (ad_server d + 1))) else []).

Record seq_ok (d : AppDir) : Prop := {
  so_inode : ad_inode d = dir;
  so_server : 0 <= ad_server d <= CONFIG_FS_SERVER_COUNT;
  so_home : shared = false -> ad_server d = it_server dir \/ ad_server d = CONFIG_FS_SERVER_COUNT;
  so_offset : ad_server d < CONFIG_FS_SERVER_COUNT ->
    0 <= ad_offset d <= Z.of_nat (length (part_at id ss (ad_server d)))
}.

Lemma seq_left_next d :
  seq_ok d -> shared = true -> ad_server d < CONFIG_FS_SERVER_COUNT ->
  drop (Z.to_nat (ad_offset d)) (part_at id ss (ad_server d)) = [] ->
  seq_left d = seq_left (ad_move 0 (ad_server d + 1) d).
Proof.
  intros Hok Hsh Hlt Hd. pose proof (so_server _ Hok). unfold seq_left. simpl.
  rewrite (proj2 (Z.eqb_neq _ _)), Hd, Hsh by lia. simpl.
  destruct (Z.eqb_spec (ad_server d + 1) CONFIG_FS_SERVER_COUNT) as [->|He]; [by rewrite Z.sub_diag|].
  rewrite drop_0, <- concat_cons, <- fmap_cons.
  rewrite (seqZ_cons (ad_server d + 1)) by lia. change (Z.succ (ad_server d + 1)) with (ad_server d + 1 + 1).
  by replace (Z.pred (CONFIG_FS_SERVER_COUNT - (ad_server d + 1)))
    with (CONFIG_FS_SERVER_COUNT - (ad_server d + 1 + 1)) by lia.
Qed.

Lemma seq_left_page d rs left n :
  seq_ok d -> ad_server d < CONFIG_FS_SERVER_COUNT ->
  drop (Z.to_nat (ad_offset d)) (part_at id ss (ad_server d)) = rs ++ left -> n = Z.of_nat (length rs) ->
  seq_ok (ad_move (ad_offset d + n) (ad_server d) d) /\
  drop (Z.to_nat (ad_offset d + n)) (part_at id ss (ad_server d)) = left /\
  seq_left d = rs ++ seq_left (ad_move (ad_offset d + n) (ad_server d) d).
Proof.
  intros Hok Hlt Hd ->. pose proof (so_offset _ Hok Hlt).
  pose proof (f_equal length Hd) as Hlen. rewrite length_drop, length_app in Hlen.
  assert (Hleft : drop (Z.to_nat (ad_offset d + Z.of_nat (length rs))) (part_at id ss (ad_server d)) = left).
  { by rewrite Z2Nat.inj_add, Nat2Z.id, <- drop_drop, Hd, drop_app_length by lia. }
  split_and!; [|done|].
  - destruct Hok. split; simpl; auto. intros _. lia.
  - unfold seq_left. simpl. rewrite (proj2 (Z.eqb_neq _ _)) by lia. by rewrite Hleft, Hd, <- (assoc_L (++)).
Qed.

Lemma seq_move d off server :
  seq_ok d -> (server = CONFIG_FS_SERVER_COUNT \/ shared = true /\ off = 0 /\ 0 <= server < CONFIG_FS_SERVER_COUNT) ->
  seq_ok (ad_move off server d).
Proof.
  pose proof server_count_pos. intros [] [->|(Hsh & -> & Hs)]; split; simpl; auto; try lia. by rewrite Hsh.
Qed.

Lemma seq_done d off : seq_left (ad_move off CONFIG_FS_SERVER_COUNT d) = [].
Proof. unfold seq_left. simpl. by rewrite Z.eqb_refl. Qed.

(** The request both loops make, with what follows it. *)
Lemma ask_wp {A} d (K : Z -> list FauxDirent -> Z -> bool -> M World A) (Q : A -> World -> Prop) w :
  seq_ok d -> ad_server d < CONFIG_FS_SERVER_COUNT -> core_eq ss (w_servers w) ->
  (forall ret w', drop (Z.to_nat (ad_offset d)) (part_at id ss (ad_server d)) = [] -> core_eq ss (w_servers w') ->
     ret = -1 \/ ret = -2 /\ shared = true -> wp (K ret [] 0 false) Q w') ->
  (forall rs left w', rs <> [] -> drop (Z.to_nat (ad_offset d)) (part_at id ss (ad_server d)) = rs ++ left ->
     core_eq ss (w_servers w') -> total rs <= count ->
     wp (K (Z.of_nat (length rs)) rs (total rs) (bool_decide (left <> []))) Q w') ->
  wp (x ← dirent_rpc early chan (ad_server d) (it_id (ad_inode d)) (ad_offset d) count;
      let '(ret, rs, size, more) := x in
      mod_cache chan (fun c => foldl (fun c r => dent_cache (ad_inode d) r c) c rs);;
      (if ad_shared d then mret tt else assert_ (negb (ret =? -2)));;
      K ret rs size more) Q w.
Proof.
  intros Hok Hlt Hc Hend Hpage. pose proof (so_server _ Hok). pose proof (so_offset _ Hok Hlt).
  pose proof (df_count Hdir).
  assert (Hfit : part_fits id (capped count) ss (ad_server d)) by (apply fits_capped; lia).
  assert (Hlen : Z.of_nat (length (part_at id ss (ad_server d))) < 2 ^ 31) by apply Hfit.
  apply wp_bind. rewrite (so_inode _ Hok).
  eapply wp_mono; [apply (dirent_rpc_wp early chan id); [by eapply part_fits_core|lia|]|].
  { apply capped_range; [by apply df_chunk|lia]. }
  cbv beta. intros [[[ret rs] bytes] more] w1 [(left & Hrest & Hpg & -> & -> & Hret) Hc1].
  rewrite (part_at_core _ _ _ _ Hc) in Hrest, Hret.
  apply wp_bind, wp_mod_cache. intros w2 Hw2. assert (Hc2 : core_eq ss (w_servers w2)) by (rewrite Hw2; by etrans).
  unfold ad_shared. rewrite (so_inode _ Hok). fold shared. apply wp_bind.
  destruct rs as [|r rs].
  - destruct Hret as [-> Hret]. rewrite bool_decide_eq_false_2 by tauto.
    assert (Hret' : ret = -1 \/ ret = -2 /\ shared = true).
    { destruct Hret as [?|[? He]]; [by left|right]. split; [done|]. apply not_false_is_true. intros Hsh.
      destruct (df_home Hdir Hsh) as [? Hne]. destruct (so_home _ Hok Hsh) as [Hh|]; [|lia]. by rewrite Hh in He. }
    assert (Hk : wp (K ret [] 0 false) Q w2) by (by apply Hend). clear -Hk Hret'.
    destruct shared; [by apply wp_ret|]. apply wp_assert; [|done]. by destruct Hret' as [->|[_ ?]].
  - assert (total (r :: rs) <= count).
    { rewrite Hpg. etrans; [apply page_fits; unfold capped|]; unfold capped; case_match; pose proof (df_chunk Hdir); lia. }
    assert (Hk : wp (K ret (r :: rs) (total (r :: rs)) (bool_decide (left <> []))) Q w2).
    { rewrite Hret. by apply Hpage. }
    clear -Hk Hret. destruct shared; [by apply wp_ret|]. apply wp_assert; [|done].
    rewrite Hret. by rewrite (proj2 (Z.eqb_neq _ _)) by (simpl; lia).
Qed.

Definition seq_pending (d : AppDir) (l : list FauxDirent) : Prop := seq_ok d /\ l = dent_shown <$> seq_left d.

Lemma total_shown rs : rs <> [] -> Forall (rec_ok count) rs -> 0 < total rs.
Proof.
  intros Hne Hrs. destruct Hrs as [|r rs (_ & _ & Hr) Hrs]; [done|]. simpl.
  assert (0 <= total rs); [|lia]. clear -Hrs. induction Hrs as [|r rs (_ & _ & ?) Hrs IH]; simpl; lia.
Qed.

Lemma seq_left_rec_ok d : seq_ok d -> Forall (rec_ok count) (seq_left d).
Proof.
  assert (Hpart : forall k, 0 <= k < CONFIG_FS_SERVER_COUNT -> Forall (rec_ok count) (part_at id ss k)).
  { intros k Hk. eapply part_rec_ok, part_fits_mono; [|by apply df_parts]. lia. }
  intros []. unfold seq_left. destruct (Z.eqb_spec (ad_server d) CONFIG_FS_SERVER_COUNT); [done|].
  apply Forall_app; split; [apply Forall_drop, Hpart; lia|]. destruct shared; [|done].
  apply Forall_concat, Forall_fmap, Forall_seqZ. intros k Hk. apply Hpart. lia.
Qed.

(** After the last record of a server. *)
Lemma seq_advance d off :
  seq_ok d -> ad_server d < CONFIG_FS_SERVER_COUNT ->
  drop (Z.to_nat (ad_offset d)) (part_at id ss (ad_server d)) = [] ->
  let d' := if shared then ad_move 0 (ad_server d + 1) d else ad_move off CONFIG_FS_SERVER_COUNT d in
  seq_ok d' /\ seq_left d' = seq_left d.
Proof.
  intros Hok Hlt Hd. pose proof (so_server _ Hok). destruct shared eqn:Hsh; simpl.
  - split; [|by rewrite <- seq_left_next]. apply seq_move; [done|].
    destruct (decide (ad_server d + 1 = CONFIG_FS_SERVER_COUNT)); [by left|right]. rewrite Hsh. split_and!; [done..|lia|lia].
  - split; [apply seq_move; auto|]. rewrite seq_done. unfold seq_left.
    rewrite (proj2 (Z.eqb_neq _ _)), Hd, Hsh by lia. done.
Qed.

Lemma dent_again_wp tries d w :
  seq_ok d -> ad_server d < CONFIG_FS_SERVER_COUNT -> core_eq ss (w_servers w) ->
  (Z.to_nat (CONFIG_FS_SERVER_COUNT - ad_server d) <= tries)%nat ->
  wp (dent_again early chan tries d count) (gets_some ss seq_pending (dent_shown <$> seq_left d)) w.
Proof.
  revert d w. induction tries as [|tries IH]; intros d w Hok Hlt Hc Ht; [lia|]. cbn [dent_again].
  pose proof (so_server _ Hok). apply ask_wp; [done..| |]; unfold ad_shared; rewrite (so_inode _ Hok); fold shared.
  - intros ret w1 Hd Hc1 Hret. pose proof (seq_advance d (ad_offset d) Hok Hlt Hd) as Hadv. cbv zeta in Hadv.
    rewrite <- (proj2 Hadv). replace ((ret =? -1) || (ret =? -2)) with true by (destruct Hret as [->|[-> _]]; done).
    destruct shared eqn:Hsh; simpl.
    + destruct (Z.eqb_spec (ad_server d + 1) CONFIG_FS_SERVER_COUNT) as [He|He].
      * apply wp_ret. split; [done|]. simpl. unfold seq_left. simpl. by rewrite He, Z.eqb_refl.
      * apply IH; simpl; [apply Hadv|lia|done|lia].
    + destruct Hret as [->|[_ ?]]; [|done]. simpl. apply wp_ret. split; [done|]. simpl. by rewrite seq_done.
  - intros rs left w1 Hne Hd Hc1 Htot.
    destruct (seq_left_page d rs left _ Hok Hlt Hd eq_refl) as (Hok' & Hleft & Hseq).
    assert (Hpos : 0 < total rs).
    { apply total_shown; [done|]. pose proof (seq_left_rec_ok d Hok) as Hr. rewrite Hseq in Hr.
      by apply Forall_app in Hr as [? _]. }
    rewrite (proj2 (Z.eqb_neq (Z.of_nat (length rs)) (-1))), (proj2 (Z.eqb_neq (Z.of_nat (length rs)) (-2))) by lia.
    rewrite andb_false_r. simpl. rewrite (proj2 (Z.ltb_ge (Z.of_nat (length rs)) 0)) by lia. apply wp_ret.
    split; [done|]. rewrite (proj2 (Z.leb_gt _ _)) by lia. split; [by destruct rs|].
    rewrite Hseq, fmap_app, (proj2 (Z.ltb_lt _ _) Hlt), andb_true_r.
    case_bool_decide as Hl; simpl; [eexists; split; [by split|done]|].
    destruct (seq_advance _ (ad_offset d) Hok' Hlt) as [Hok2 Hseq2]; [simpl; rewrite Hleft; by destruct left|].
    eexists. split; [split; [exact Hok2|reflexivity]|]. by rewrite <- Hseq2.
Qed.

Lemma seq_call fuel d l w :
  ENABLE_DENT_SNAPSHOT && (1 <? CONFIG_FS_SERVER_COUNT) = false ->
  seq_pending d l -> core_eq ss (w_servers w) ->
  wp (getdents64 early chan fuel d count) (gets_some ss seq_pending l) w.
Proof.
  intros Hoff [Hok ->] Hc. unfold getdents64. rewrite Hoff. pose proof (so_server _ Hok).
  destruct (Z.eqb_spec (ad_server d) CONFIG_FS_SERVER_COUNT) as [He|He].
  - apply wp_ret. split; [done|]. simpl. unfold seq_left. by rewrite He, Z.eqb_refl.
  - apply dent_again_wp; [done|lia|done|lia].
Qed.

(** The directory object as [opendir] makes it. *)
Lemma seq_start fd : seq_ok (AppDir_new dir fd) /\ seq_left (AppDir_new dir fd) = whole.
Proof.
  pose proof server_count_pos. unfold AppDir_new, seq_left, whole. fold shared. pose proof (df_home Hdir) as Hh. split.
  - split; simpl; [done| | |lia]; destruct shared; try lia; auto; naive_solver lia.
  - simpl. destruct shared eqn:Hsh.
    + rewrite (proj2 (Z.eqb_neq _ _)), drop_0, (seqZ_cons 0) by lia.
      by replace (Z.pred CONFIG_FS_SERVER_COUNT) with (CONFIG_FS_SERVER_COUNT - 1) by lia.
    + rewrite (proj2 (Z.eqb_neq _ _)), drop_0, app_nil_r by (destruct (Hh eq_refl); lia). done.
Qed.

Lemma read_dir64_wp fd calls fuel w :
  core_eq ss (w_servers w) -> (length whole < fuel)%nat -> (length whole < calls)%nat ->
  wp (read_dir (fun d => getdents64 early chan fuel d count) calls (AppDir_new dir fd)) (fun rs w' =>
    rs ≡ₚ dent_shown <$> whole /\ core_eq ss (w_servers w')) w.
Proof.
  intros Hc Hf Hn. destruct (ENABLE_DENT_SNAPSHOT && (1 <? CONFIG_FS_SERVER_COUNT)) eqn:Hon.
  - apply (read_dir_wp ss _ snapshot_pending); [intros; by apply snapshot_call| |done|by rewrite length_fmap].
    split; [done|]. unfold AppDir_new. fold shared. simpl. split; [by intros ->|by left].
  - apply (read_dir_wp ss _ seq_pending); [intros; by apply seq_call| |done|by rewrite length_fmap].
    destruct (seq_start fd) as [Hok Hw]. split; [done|]. by rewrite Hw.
Qed.

(** *** The older call *)

Definition linux_of (r : FauxDirent) : LinuxDirent :=
  mkLinuxDirent (u32 (d_ino r)) (i32 (d_off r)) (u16 (linux_reclen (d_name r))) (d_name r) (d_type r).
Definition linux_total (rs : list FauxDirent) : Z := foldr (fun r n => linux_reclen (d_name r) + n) 0 rs.

(** The structure of the older call needs less space for a name. *)
Lemma linux_reclen_bounds r : rec_ok count r -> 0 < linux_reclen (d_name r) <= reclen r.
Proof.
  intros (Hn & _ & _). unfold reclen. rewrite dirent_reclen_div by done. unfold linux_reclen.
  rewrite <- Z.ldiff_land. change 7 with (Z.ones 3) at 2 4.
  rewrite Z.ldiff_ones_r, Z.shiftl_mul_pow2, Z.shiftr_div_pow2 by lia. change (2 ^ 3) with 8.
  pose proof (Z.div_le_mono (10 + Z.of_nat (String.length (d_name r)) + 2 + 7) (Z.of_nat (String.length (d_name r)) + 27) 8).
  pose proof (Z.div_le_mono 19 (10 + Z.of_nat (String.length (d_name r)) + 2 + 7) 8). change (19 / 8) with 2 in *.
  pose proof (dirent_reclen_bounds _ Hn) as Hb. rewrite dirent_reclen_div in Hb by done.
  rewrite i32_small by lia. lia.
Qed.

Lemma linux_total_bounds rs : Forall (rec_ok count) rs -> 0 <= linux_total rs <= total rs.
Proof.
  intros Hrs. unfold linux_total, total.
  induction Hrs as [|r rs Hr Hrs IH]; cbn [foldr]; [lia|]. pose proof (linux_reclen_bounds r Hr). lia.
Qed.

Lemma linux_total_pos rs : rs <> [] -> Forall (rec_ok count) rs -> 0 < linux_total rs.
Proof.
  intros Hne Hrs. destruct Hrs as [|r rs Hr Hrs]; [done|]. pose proof (linux_reclen_bounds r Hr).
  pose proof (linux_total_bounds rs Hrs). unfold linux_total in *. cbn [foldr]. lia.
Qed.

Lemma pack_dents_all rs written :
  Forall (rec_ok count) rs -> 0 <= written -> written + total rs <= count ->
  pack_dents written count rs = (linux_of <$> rs, written + linux_total rs).
Proof.
  pose proof (df_count Hdir). intros Hrs. revert written.
  induction Hrs as [|r rs Hr Hrs IH]; intros written Hw Hle; simpl in *; [by rewrite Z.add_0_r|].
  pose proof (linux_reclen_bounds r Hr). pose proof (linux_total_bounds rs Hrs).
  rewrite u64_small, (proj2 (Z.ltb_ge _ _)) by lia. rewrite IH by lia. f_equal. lia.
Qed.

Definition seq32_pending (d : AppDir) (l : list LinuxDirent) : Prop :=
  seq_ok d /\ l = linux_of <$> (dent_shown <$> seq_left d) /\
  (ENABLE_DENT_SNAPSHOT = true -> shared = false -> ad_dents d = [] -> ad_server d = it_server dir).

Lemma total_fmap_shown rs : total (dent_shown <$> rs) = total rs.
Proof.
  unfold total. induction rs as [|r rs IH]; [done|]. rewrite fmap_cons. cbn [foldr]. rewrite IH. f_equal.
  unfold dent_shown. by case_match.
Qed.

Lemma dent32_again_wp tries d w :
  seq_ok d -> ad_server d < CONFIG_FS_SERVER_COUNT -> core_eq ss (w_servers w) ->
  (ENABLE_DENT_SNAPSHOT = true -> shared = false -> ad_dents d <> []) ->
  (Z.to_nat (CONFIG_FS_SERVER_COUNT - ad_server d) <= tries)%nat ->
  wp (dent32_again early chan tries d count)
    (gets_some ss seq32_pending (linux_of <$> (dent_shown <$> seq_left d))) w.
Proof.
  revert d w. induction tries as [|tries IH]; intros d w Hok Hlt Hc Hsnap Ht; [lia|]. cbn [dent32_again].
  pose proof (so_server _ Hok).
  apply (ask_wp d (fun ret rs _ more => _)); [done..| |]; unfold ad_shared; rewrite (so_inode _ Hok); fold shared.
  - intros ret w1 Hd Hc1 Hret. pose proof (seq_advance d (ad_offset d) Hok Hlt Hd) as Hadv. cbv zeta in Hadv.
    rewrite <- (proj2 Hadv). replace ((ret =? -1) || (ret =? -2)) with true by (destruct Hret as [->|[-> _]]; done).
    destruct shared eqn:Hsh; simpl.
    + destruct (Z.eqb_spec (ad_server d) (CONFIG_FS_SERVER_COUNT - 1)) as [He|He].
      * apply wp_ret. split; [done|]. simpl. unfold seq_left. simpl. by rewrite He, Z.sub_add, Z.eqb_refl.
      * apply IH; simpl; [apply Hadv|lia|done|done|lia].
    + destruct Hret as [->|[_ ?]]; [|done]. simpl. apply wp_ret. split; [done|]. simpl. by rewrite seq_done.
  - intros rs left w1 Hne Hd Hc1 Htot.
    destruct (seq_left_page d rs left _ Hok Hlt Hd eq_refl) as (Hok' & Hleft & Hseq).
    assert (Hrs : Forall (rec_ok count) rs).
    { pose proof (seq_left_rec_ok d Hok) as Hr. rewrite Hseq in Hr. by apply Forall_app in Hr as [? _]. }
    rewrite (proj2 (Z.eqb_neq (Z.of_nat (length rs)) (-1))), (proj2 (Z.eqb_neq (Z.of_nat (length rs)) (-2))) by lia.
    rewrite andb_false_r. simpl. rewrite (proj2 (Z.ltb_ge (Z.of_nat (length rs)) 0)) by lia.
    rewrite pack_dents_all by (rewrite ?total_fmap_shown; try apply shown_rec_ok; done || lia).
    rewrite !length_fmap, Z.eqb_refl, andb_true_r, Z.add_0_l. apply wp_ret.
    split; [done|]. rewrite (proj2 (Z.leb_gt _ _)). 2: { apply linux_total_pos; [by destruct rs|by apply shown_rec_ok]. }
    split; [by destruct rs|].
    rewrite Hseq, !fmap_app. case_match eqn:Hnext.
    + apply andb_prop in Hnext as [Hl _]. apply negb_true_iff, bool_decide_eq_false in Hl.
      destruct (seq_advance _ (ad_offset d + Z.of_nat (length rs)) Hok' Hlt) as [Hok2 Hseq2].
      { simpl. rewrite Hleft. destruct left; [done|]. by destruct Hl. }
      eexists. split; [split; [exact Hok2|split; [reflexivity|]]|].
      * intros Hon Hsh Hn. destruct (Hsnap Hon Hsh). by rewrite Hsh in Hn.
      * by rewrite <- Hseq2.
    + eexists. split; [split; [done|split; [reflexivity|]]|done]. simpl. intros Hon Hsh Hn. by destruct (Hsnap Hon Hsh).
Qed.

(** The snapshot changes neither the position nor what is left. *)
Lemma getdents_snapshot fuel d w :
  seq_ok d -> (ENABLE_DENT_SNAPSHOT = true -> shared = false -> ad_dents d = [] -> ad_server d = it_server dir) ->
  core_eq ss (w_servers w) -> (length whole < fuel)%nat ->
  wp (if ENABLE_DENT_SNAPSHOT then cache_dents early chan fuel d else mret d) (fun d' w' =>
    core_eq ss (w_servers w') /\ seq_ok d' /\ seq_left d' = seq_left d /\ ad_server d' = ad_server d /\
    (ENABLE_DENT_SNAPSHOT = true -> shared = false -> ad_dents d' <> [])) w.
Proof.
  intros Hok Hsnap Hc Hf. destruct ENABLE_DENT_SNAPSHOT; [|by apply wp_ret].
  destruct (ad_dents d) as [|r rs] eqn:Hd.
  - eapply wp_mono; [apply cache_dents_wp; try done; [apply Hok|auto]|].
    cbv beta. intros d' w' (Hc' & l & Hl & ->). split_and!; try done; [by destruct Hok|].
    intros _ Hsh Hn. simpl in Hn. subst l. apply Permutation_nil, fmap_nil_inv in Hl. unfold whole in Hl.
    rewrite Hsh in Hl. by destruct (df_home Hdir Hsh).
  - unfold cache_dents. rewrite Hd. apply wp_ret. split_and!; try done. by rewrite Hd.
Qed.

Lemma call32 fuel d l w :
  (length whole < fuel)%nat -> seq32_pending d l -> core_eq ss (w_servers w) ->
  wp (getdents early chan fuel d count) (gets_some ss seq32_pending l) w.
Proof.
  intros Hf (Hok & -> & Hsnap) Hc. unfold getdents. apply wp_bind. eapply wp_mono; [by apply getdents_snapshot|].
  cbv beta. intros d1 w1 (Hc1 & Hok1 & Hleft & _ & Hsnap1). rewrite <- Hleft.
  pose proof (so_server _ Hok1). destruct (Z.eqb_spec (ad_server d1) CONFIG_FS_SERVER_COUNT) as [He|He].
  - apply wp_ret. split; [done|]. simpl. unfold seq_left. by rewrite He, Z.eqb_refl.
  - apply dent32_again_wp; auto; lia.
Qed.

Lemma read_dir32_wp fd calls fuel w :
  core_eq ss (w_servers w) -> (length whole < fuel)%nat -> (length whole < calls)%nat ->
  wp (read_dir (fun d => getdents early chan fuel d count) calls (AppDir_new dir fd)) (fun rs w' =>
    rs ≡ₚ linux_of <$> (dent_shown <$> whole) /\ core_eq ss (w_servers w')) w.
Proof.
  intros Hc Hf Hn. apply (read_dir_wp ss _ seq32_pending); [intros; by apply call32| |done|by rewrite !length_fmap].
  destruct (seq_start fd) as [Hok Hw]. split; [done|]. rewrite Hw. split; [done|].
  intros _ Hsh _. simpl. fold shared. by rewrite Hsh.
Qed.
End Whole.

Section Reading.
Context `{ConfigOk} `{EnvOk}.
Variable early : nat -> nat -> bool.
Variable chan : Z.

(** C11: An application that opens a directory and calls getdents64, or the older
    getdents, until nothing is returned, gets the records of the parts on all
    servers, each exactly once, whether or not the client takes a snapshot, and
    after at most one call per record and a last one; nothing of the file system
    changes.  Every record has to fit into the buffers, and a directory that is
    not shared has to be on its server. *)
Theorem directory_read_whole dir fd count calls fuel w :
  dir_fits dir (w_servers w) count ->
  (length (whole dir (w_servers w)) < calls)%nat -> (length (whole dir (w_servers w)) < fuel)%nat ->
  wp (read_dir (fun d => getdents64 early chan fuel d count) calls (AppDir_new dir fd)) (fun rs w' =>
    rs ≡ₚ dent_shown <$> whole dir (w_servers w) /\ core_eq (w_servers w) (w_servers w')) w /\
  wp (read_dir (fun d => getdents early chan fuel d count) calls (AppDir_new dir fd)) (fun rs w' =>
    rs ≡ₚ linux_of <$> (dent_shown <$> whole dir (w_servers w)) /\ core_eq (w_servers w) (w_servers w')) w.
Proof. intros Hdir Hn Hf. split; [by apply read_dir64_wp|by apply read_dir32_wp]. Qed.
End Reading.

(** ** Demonstration *)

Section Demo.
Context `{ConfigOk}.

Definition part_fitsb (id size : Z) (ss : list Server) (k : Z) : bool :=
  (0 <=? k) && (Z.of_nat (length (part_at id ss k)) <? 2 ^ 31) &&
  match ss !! Z.to_nat k with
  | Some s =>
      match m_files s !! id with
      | Some (DirV d) => isDir (DirV d) && forallb listableb (m_children d) &&
                         forallb (fun r => reclen r <=? size) (listing id d)
      | Some _ => false
      | None => true
      end
  | None => false
  end.

Lemma part_fitsb_ok id size ss k : part_fitsb id size ss k = true -> part_fits id size ss k.
Proof.
  unfold part_fitsb. rewrite !andb_true_iff. intros [[Hk Hn] Hs]. split; [lia|]. split; [lia|].
  destruct (ss !! Z.to_nat k) as [s|]; [|done]. exists s. split; [done|]. intros v Hv. rewrite Hv in Hs.
  destruct v; try done. rewrite !andb_true_iff in Hs. destruct Hs as [[Hd Hl] Hf]. eexists. split_and!; try done.
  - by apply Forall_listable.
  - rewrite forallb_forall in Hf. apply Forall_forall. intros r Hr. apply list_elem_of_In, Hf in Hr. lia.
Qed.

Definition dir_fitsb (dir : InodeType) (ss : list Server) (count : Z) : bool :=
  (24 <=? CONFIG_FS_CHUNK_SIZE) && (24 <=? count) && (count <? 2 ^ 31) &&
  forallb (part_fitsb (it_id dir) (Z.min CONFIG_FS_CHUNK_SIZE (Z.min 49152 count)) ss) (seqZ 0 CONFIG_FS_SERVER_COUNT) &&
  (bool_decide (it_type dir = TYPE_DIR_SHARED) ||
   (0 <=? it_server dir) && (it_server dir <? CONFIG_FS_SERVER_COUNT) &&
   negb (Nat.eqb (length (part_at (it_id dir) ss (it_server dir))) 0)).

Lemma dir_fitsb_ok dir ss count : dir_fitsb dir ss count = true -> dir_fits dir ss count.
Proof.
  unfold dir_fitsb. rewrite !andb_true_iff, forallb_forall. intros [[[[Hch H24] Hmax] Hparts] Hhome].
  split; [lia..| |].
  - intros k Hk. apply part_fitsb_ok, Hparts, list_elem_of_In, elem_of_seqZ. lia.
  - intros Hsh. rewrite Hsh, orb_false_l, !andb_true_iff in Hhome. destruct Hhome as [[? ?] Hn]. split; [lia|].
    by destruct (part_at _ _ _).
Qed.
End Demo.

Definition demo_more : World :=
  world_after (@fosFileOpen small_config plain_env late 7 root_dir "/d/file" (Z.lor O_CREAT O_RDWR) 420)
    (world_after (@fosMkdir small_config plain_env late 7 root_dir "/d/sub" 1005) demo_full).
Definition demo_dir : InodeType := mkInodeType 1 67108867 TYPE_DIR_SHARED.

(** The directory lists itself, its parent and three entries. *)
Lemma directory_read_whole_witness :
  length (@whole small_config demo_dir (w_servers demo_more)) = 5%nat /\
  wp (read_dir (fun d => @getdents64 small_config plain_env late 7 9 d 64) 9 (AppDir_new demo_dir 3)) (fun rs w' =>
    rs ≡ₚ dent_shown <$> @whole small_config demo_dir (w_servers demo_more) /\
    core_eq (w_servers demo_more) (w_servers w')) demo_more.
Proof.
  split; [vm_compute; reflexivity|].
  refine (proj1 (@directory_read_whole small_config small_config_ok plain_env late 7 demo_dir 3 64 9 9 demo_more _ _ _));
    [apply dir_fitsb_ok; vm_compute; reflexivity|vm_compute; lia|vm_compute; lia].
Defined.
