(* ===== verification/FsClientPipe.v ===== *)
(** * Pipes of a client

    [sys/fs/lib/pipe.cpp] and [fosPipeOpen].  A read waits for the server by
    asking it again, so that other processes run between its requests: reads
    and writes are given as steps, one request each, and the theorem is about
    every interleaving of the steps of any number of processes.  The server
    keeps no data of a pipe, only the number of bytes in it; what is shown is that
    no byte is lost or read twice. *)

From S2P Require Import Prelude FsTypes BufferCache FsFile FsNode FsServer FsServerInv FsServerOps FsMarshall FsReach FsServerSpec FsDirCache FsClient FsClientSpec.

#[local] Arguments OP_COUNTER : simpl never.
#[local] Arguments Z.pow : simpl never.

Definition EINTR : Z := 4.
Definition EBADF : Z := 9.

(** ** Operations *)

(** [app::Pipe] *)
Record AppPipe : Type := mkAppPipe {
  ap_inode : InodeType;
  ap_fd : Z;
  m_should_close : bool;
  m_have_closed : bool
}.

Definition AppPipe_new (inode : InodeType) (fd : Z) : AppPipe := mkAppPipe inode fd false false.

(** The object with the globals of its process. *)
Record PipeProc : Type := mkPipeProc {
  pp_pipe : AppPipe;
  g_is_reading : bool;
  g_interrupted : bool
}.

Definition set_reading (b : bool) (st : PipeProc) : PipeProc := mkPipeProc (pp_pipe st) b (g_interrupted st).
Definition set_interrupted (b : bool) (st : PipeProc) : PipeProc := mkPipeProc (pp_pipe st) (g_is_reading st) b.
Definition set_pipe_obj (p : AppPipe) (st : PipeProc) : PipeProc := mkPipeProc p (g_is_reading st) (g_interrupted st).

(** [Pipe::close] only remembers that the pipe is to be closed. *)
Definition pipe_close (st : PipeProc) : Z * PipeProc :=
  let p := pp_pipe st in
  (0, set_pipe_obj (mkAppPipe (ap_inode p) (ap_fd p) true (m_have_closed p)) st).

(** Where [Pipe::read] is: at the head of the loop, at [again:], or back. *)
Inductive ReadPc : Type :=
| RHead (read_count : Z)
| RAgain (read_count read_size : Z)
| RDone (ret : Z).

(** Where [Pipe::write] is. *)
Inductive WritePc : Type :=
| WHead (written : Z)
| WDone (ret : Z).

Section Operations.
Context `{Config} `{Env}.
Variable early : nat -> nat -> bool.
Variable chan : Z.

(** Both ends are on server 0. *)
Definition fosPipeOpen : M World (Z * option (AppPipe * AppPipe)) :=
  x ← rpc early chan 0 PipeRequest;
  match x with
  | PipeReply retval read_fd write_fd inode =>
      let inode := mkInodeType (in_server inode) (in_id inode) TYPE_PIPE in
      mret (retval, if negb (retval =? OK) then None
                    else Some (AppPipe_new inode read_fd, AppPipe_new inode write_fd))
  | _ => abort
  end.

Definition pipe_read_start (st : PipeProc) : PipeProc * ReadPc := (set_reading true st, RHead 0).

Definition request_size (count done : Z) : Z := Z.min (count - done) CONFIG_FS_CHUNK_SIZE.

(** The part of [Pipe::read] up to the next request, and one request. *)
Definition pipe_read_step (count : Z) (st : PipeProc) (pc : ReadPc) : M World (PipeProc * ReadPc) :=
  let p := pp_pipe st in
  match pc with
  | RDone ret => mret (st, RDone ret)
  | RHead read_count =>
      if read_count <? count
      then
        if m_should_close p
        then
          p ← (if m_have_closed p then mret p
               else fosFdClose early chan (it_server (ap_inode p)) (ap_fd p) (-1) UINT64_MAX;;
                    mret (mkAppPipe (ap_inode p) (ap_fd p) (m_should_close p) true));
          mret (set_pipe_obj p st, RDone (u64 (- EBADF)))
        else mret (st, RAgain read_count (request_size count read_count))
      else mret (set_reading false st, RDone (if read_count =? 0 then u64 (- EBADF) else read_count))
  | RAgain read_count read_size =>
      r ← fosFdRead early chan (it_server (ap_inode p)) (ap_fd p) read_size;
      let '(ret, read_size, _) := r in
      if negb (ret =? OK)
      then
        if ret =? - EAGAIN
        then
          if g_interrupted st
          then assert_ (read_count =? 0);; mret (set_interrupted false (set_reading false st), RDone (u64 (- EINTR)))
          else mret (st, RAgain read_count (request_size count read_count))
        else mret (set_reading false st, RDone (if read_count =? 0 then u64 ret else read_count))
      else if read_size =? 0
      then mret (set_reading false st, RDone (if read_count =? 0 then u64 (- EBADF) else read_count))
      else mret (st, RHead (read_count + read_size))
  end.

(** One pass of the loop of [Pipe::write]. *)
Definition pipe_write_step (buf : list Z) (count : Z) (st : PipeProc) (pc : WritePc) : M World WritePc :=
  let p := pp_pipe st in
  match pc with
  | WDone ret => mret (WDone ret)
  | WHead written =>
      if written <? count
      then
        r ← fosFdWrite early chan (it_server (ap_inode p)) (ap_fd p)
              (take (Z.to_nat (request_size count written)) (drop (Z.to_nat written) buf)) (request_size count written);
        let '(ret, write_size) := r in
        if negb (ret =? OK) then mret (WDone (if written =? 0 then u64 ret else written))
        else if write_size =? 0 then mret (WDone written)
        else mret (WHead (written + write_size))
      else mret (WDone written)
  end.

(** The whole calls, when nothing happens in between. *)
Fixpoint pipe_read_run (fuel : nat) (count : Z) (st : PipeProc) (pc : ReadPc) : M World (Z * PipeProc) :=
  match fuel with
  | O => timeout
  | S fuel' =>
      match pc with
      | RDone ret => mret (ret, st)
      | _ => r ← pipe_read_step count st pc; pipe_read_run fuel' count (fst r) (snd r)
      end
  end.
Definition pipe_read (fuel : nat) (count : Z) (st : PipeProc) : M World (Z * PipeProc) :=
  let '(st, pc) := pipe_read_start st in pipe_read_run fuel count st pc.

Fixpoint pipe_write_run (fuel : nat) (buf : list Z) (count : Z) (st : PipeProc) (pc : WritePc) : M World Z :=
  match fuel with
  | O => timeout
  | S fuel' =>
      match pc with
      | WDone ret => mret ret
      | _ => pc ← pipe_write_step buf count st pc; pipe_write_run fuel' buf count st pc
      end
  end.
Definition pipe_write (buf : list Z) (count : Z) (st : PipeProc) : M World Z :=
  pipe_write_run (S (S (Z.to_nat count))) buf count st (WHead 0).
End Operations.

(** ** The server's side *)

Section Server.
Context `{Config} `{Env}.
Variable chan id : Z.

(** Server [s] has the pipe [p], and the descriptors in [fds] are its ends. *)
Record has_pipe (fds : list Z) (s : Server) (p : Pipe) : Prop := {
  hp_file : m_files s !! id = None;
  hp_pipe : m_pipes s !! id = Some (PipeV p);
  hp_fds fd : fd ∈ fds -> exists d, m_fds s !! fd = Some d /\ fd_id d = id;
  hp_size : 0 <= p_size p < 2 ^ 63
}.

Lemma has_pipe_core fds s s' p : same_core s s' -> has_pipe fds s p -> has_pipe fds s' p.
Proof. intros [] []. split; [congruence..| |done]. by rewrite sc_fds. Qed.

(** After a request on descriptor [fd] that leaves [n] bytes. *)
Lemma has_pipe_put fds s s' p fd d n :
  has_pipe fds s p -> m_fds s !! fd = Some d -> fd_id d = id -> 0 <= n < 2 ^ 63 ->
  m_files s' = m_files s -> m_pipes s' = <[id := PipeV (pipe_with_size n p)]> (m_pipes s) ->
  (exists o, m_fds s' = <[fd := fd_set_offset o d]> (m_fds s)) ->
  has_pipe fds s' (pipe_with_size n p).
Proof.
  intros [Hf Hp Hfd _] Hd Hid Hn Hf' Hp' [o Hd']. split; simpl; [congruence|by rewrite Hp', lookup_insert_eq| |done].
  intros fd' Hin. rewrite Hd'. destruct (decide (fd' = fd)) as [->|Hne].
  - rewrite lookup_insert_eq. by eexists.
  - rewrite lookup_insert_ne by done. by apply Hfd.
Qed.

(** What a read of [n] bytes is answered. *)
Definition read_answer (n : Z) (p : Pipe) : Z * Z :=
  if p_size p =? 0 then (if m_write_fd p =? 0 then OK else - EAGAIN, 0) else (OK, Z.min n (p_size p)).

Lemma read_pipe_wp fds s p fd n :
  has_pipe fds s p -> fd ∈ fds -> 0 < n < 2 ^ 63 ->
  wp (handle chan (ReadRequest fd n)) (fun x s' =>
    let '(rv, c) := read_answer n p in
    x = ReadReply rv c [] /\ has_pipe fds s' (pipe_with_size (p_size p - c) p)) s.
Proof.
  intros Hhas Hin Hn. destruct (hp_fds _ _ _ Hhas fd Hin) as (d & Hd & Hid). pose proof (hp_size _ _ _ Hhas) as Hsz.
  simpl. unfold FsMarshall.read, FsServer.read, find_fd. apply wp_bind, wp_bind, wp_gets. rewrite Hd. cbv zeta.
  apply wp_bind. unfold read_inode. apply wp_OP_COUNTER. intros s1 [[_ Hf1 Hp1 Hd1 _ _ _] _ _].
  unfold find_file, find_pipe. apply wp_bind, wp_gets. rewrite Hf1, Hid, (hp_file _ _ _ Hhas).
  apply wp_bind, wp_bind, wp_gets. rewrite Hp1, (hp_pipe _ _ _ Hhas). apply wp_bind, wp_ret.
  assert (Hr : exists rv c, read_answer n p = (rv, c) /\
    Pipe_read n p = (if p_size p =? 0 then rv else c, pipe_with_size (p_size p - c) p) /\
    0 <= c <= p_size p /\ (if p_size p =? 0 then c = 0 /\ (rv = OK \/ rv = - EAGAIN) else rv = OK /\ 0 < c)).
  { unfold read_answer, Pipe_read. destruct (Z.eqb_spec (p_size p) 0) as [Hz|Hz]; simpl.
    - do 2 eexists. split; [done|]. rewrite Hz. replace (pipe_with_size (0 - 0) p) with p.
      + destruct (m_write_fd p =? 0); simpl; auto with lia.
      + rewrite Z.sub_diag, <- Hz. by destruct p.
    - do 2 eexists. split; [done|]. replace (if p_size p <? n then p_size p else n) with (Z.min n (p_size p))
        by (case_match; lia).
      rewrite i64_small, u64_small by lia. split_and!; auto; lia. }
  destruct Hr as (rv & c & -> & -> & Hc & Hcase). cbv zeta. apply wp_bind. unfold put_pipe. apply wp_modify, wp_ret.
  set (res := if 0 <? _ then _ else _).
  assert (res = mret (rv, c, [])) as ->.
  { unfold res. destruct (p_size p =? 0).
    - destruct Hcase as [-> [-> | ->]]; reflexivity.
    - destruct Hcase as [-> Hpos]. by rewrite (proj2 (Z.ltb_lt 0 c)) by lia. }
  apply wp_ret. intros s3 [[_ Hf3 Hp3 Hd3 _ _ _] _ _]. simpl in *. apply wp_bind. unfold put_fd. apply wp_modify, wp_ret.
  apply wp_ret. split; [done|]. apply (has_pipe_put fds s _ p fd d); simpl; try congruence; [lia|].
  exists (u64 (fd_offset d + c)). by rewrite Hd3, Hd1.
Qed.

Lemma write_pipe_wp fds s p fd n data :
  has_pipe fds s p -> fd ∈ fds -> 0 < n -> p_size p + n < 2 ^ 63 ->
  wp (handle chan (WriteRequest fd n data)) (fun x s' =>
    x = WriteReply OK n /\ has_pipe fds s' (pipe_with_size (p_size p + n) p)) s.
Proof.
  intros Hhas Hin Hn Hmax. destruct (hp_fds _ _ _ Hhas fd Hin) as (d & Hd & Hid). pose proof (hp_size _ _ _ Hhas).
  simpl. unfold FsMarshall.write, FsServer.write, find_fd. apply wp_bind, wp_bind, wp_gets. rewrite Hd. cbv zeta.
  apply wp_bind. unfold write_inode. apply wp_OP_COUNTER. intros s1 [[_ Hf1 Hp1 Hd1 _ _ _] _ _].
  unfold find_file, find_pipe. apply wp_bind, wp_gets. rewrite Hf1, Hid, (hp_file _ _ _ Hhas).
  apply wp_bind, wp_bind, wp_gets. rewrite Hp1, (hp_pipe _ _ _ Hhas). apply wp_bind, wp_ret.
  unfold Pipe_write. rewrite i64_small, u64_small by lia. apply wp_bind. unfold put_pipe. apply wp_modify, wp_ret.
  rewrite (proj2 (Z.ltb_lt 0 n)) by lia. apply wp_ret. intros s3 [[_ Hf3 Hp3 Hd3 _ _ _] _ _]. simpl in *.
  apply wp_bind. unfold put_fd. apply wp_modify, wp_ret, wp_ret. split; [done|].
  apply (has_pipe_put fds s _ p fd d); simpl; try congruence; [lia|].
  exists (u64 (fd_offset d + n)). by rewrite Hd3, Hd1.
Qed.
End Server.

(** ** Processes that share a pipe *)

Inductive job : Type :=
| Reading (count : Z) (pc : ReadPc)
| Writing (buf : list Z) (count : Z) (pc : WritePc).

Record thread : Type := mkThread { th_chan : Z; th_proc : PipeProc; th_job : job }.

Definition interrupt (th : thread) : thread := mkThread (th_chan th) (set_interrupted true (th_proc th)) (th_job th).

(** What a call has taken out of the pipe or put into it so far; a result of an
    error is a large unsigned number. *)
Definition amount (ret : Z) : Z := if ret <? 2 ^ 63 then ret else 0.
Definition taken (th : thread) : Z :=
  match th_job th with
  | Reading _ (RHead n) | Reading _ (RAgain n _) => n
  | Reading _ (RDone ret) => amount ret
  | Writing _ _ _ => 0
  end.
Definition given (th : thread) : Z :=
  match th_job th with
  | Writing _ _ (WHead n) => n
  | Writing _ _ (WDone ret) => amount ret
  | Reading _ _ => 0
  end.
Definition to_give (th : thread) : Z := match th_job th with Writing _ count _ => count | Reading _ _ => 0 end.

Section System.
Context `{Config} `{Env}.
Variable early : nat -> nat -> bool.
Variable k id : Z.

Definition proc_step (th : thread) : M World thread :=
  match th_job th with
  | Reading count pc =>
      r ← pipe_read_step early (th_chan th) count (th_proc th) pc;
      mret (mkThread (th_chan th) (fst r) (Reading count (snd r)))
  | Writing buf count pc =>
      pc ← pipe_write_step early (th_chan th) buf count (th_proc th) pc;
      mret (mkThread (th_chan th) (th_proc th) (Writing buf count pc))
  end.

(** A process makes a step, or is interrupted by a signal. *)
Inductive sys_step : World * list thread -> World * list thread -> Prop :=
| sys_run w ths i th th' w' :
    ths !! i = Some th -> proc_step th w = Done th' w' -> sys_step (w, ths) (w', <[i := th']> ths)
| sys_signal w ths i th :
    ths !! i = Some th -> sys_step (w, ths) (w, <[i := interrupt th]> ths).

(** A call on the pipe [id] of server [k] that is somewhere in its loop, and whose
    object has not been closed. *)
Definition job_ok (j : job) : Prop :=
  match j with
  | Reading count (RHead n) => 0 <= n <= count
  | Reading count (RAgain n size) => 0 <= n /\ 0 < size <= count - n
  | Reading count (RDone ret) => 0 <= ret
  | Writing _ count (WHead n) => 0 <= n <= count
  | Writing _ count (WDone ret) => 0 <= amount ret <= count
  end /\
  match j with Reading count _ | Writing _ count _ => 0 <= count < 2 ^ 63 end.

Record thread_ok (fds : list Z) (th : thread) : Prop := {
  to_server : it_server (ap_inode (pp_pipe (th_proc th))) = k;
  to_fd : ap_fd (pp_pipe (th_proc th)) ∈ fds;
  to_open : m_should_close (pp_pipe (th_proc th)) = false;
  to_job : job_ok (th_job th)
}.

(** The state of the system: [total] bytes were or will be in the pipe. *)
Record sys_ok (fds : list Z) (start : Z) (w : World) (ths : list thread) (s : Server) (p : Pipe) : Prop := {
  sk_server : w_servers w !! Z.to_nat k = Some s;
  sk_pipe : has_pipe id fds s p;
  sk_threads : Forall (thread_ok fds) ths;
  sk_start : 0 <= start;
  sk_bound : start + zsum to_give ths < 2 ^ 63;
  sk_sum : p_size p + zsum taken ths = start + zsum given ths
}.

Hypothesis Hk : 0 <= k.
Hypothesis Hchunk : 0 < CONFIG_FS_CHUNK_SIZE.

Lemma has_pipe_step fds w w' s s' p :
  w_servers w !! Z.to_nat k = Some s -> core_eq (<[Z.to_nat k := s']> (w_servers w)) (w_servers w') ->
  has_pipe id fds s' p -> exists s1, w_servers w' !! Z.to_nat k = Some s1 /\ has_pipe id fds s1 p.
Proof.
  intros Hs Hc Hp. destruct (core_eq_lookup (Z.to_nat k) s' _ _ Hc) as (s1 & Hs1 & Hc1).
  - apply list_lookup_insert_eq. by eapply lookup_lt_Some.
  - exists s1. split; [done|]. by eapply has_pipe_core.
Qed.

(** The client's requests. *)
Lemma fosFdRead_wp chan fds w s p fd n :
  w_servers w !! Z.to_nat k = Some s -> has_pipe id fds s p -> fd ∈ fds -> 0 < n < 2 ^ 63 ->
  wp (fosFdRead early chan k fd n) (fun r w' =>
    let '(rv, c) := read_answer n p in
    r = (rv, c, []) /\
    exists s', w_servers w' !! Z.to_nat k = Some s' /\ has_pipe id fds s' (pipe_with_size (p_size p - c) p)) w.
Proof.
  intros Hs Hp Hin Hn. unfold fosFdRead. apply wp_bind.
  eapply (wp_rpc early chan k _ s); [done..|by apply (read_pipe_wp chan id fds s p)|].
  cbv beta. pose proof (hp_size _ _ _ _ Hp). destruct (read_answer n p) as [rv c] eqn:Hr.
  assert (0 <= c < 2 ^ 63).
  { unfold read_answer in Hr. destruct (p_size p =? 0); simplify_eq; lia. }
  intros x s' w' [-> Hp'] Hw'. apply wp_bind, wp_assert; [rewrite i64_small by lia; lia|]. apply wp_ret.
  split; [done|]. by eapply has_pipe_step.
Qed.

Lemma fosFdWrite_wp chan fds w s p fd data n :
  w_servers w !! Z.to_nat k = Some s -> has_pipe id fds s p -> fd ∈ fds -> 0 < n -> p_size p + n < 2 ^ 63 ->
  wp (fosFdWrite early chan k fd data n) (fun r w' => r = (OK, n) /\
    exists s', w_servers w' !! Z.to_nat k = Some s' /\ has_pipe id fds s' (pipe_with_size (p_size p + n) p)) w.
Proof.
  intros Hs Hp Hin Hn Hmax. unfold fosFdWrite. apply wp_bind.
  eapply (wp_rpc early chan k _ s); [done..|by apply (write_pipe_wp chan id fds s p)|].
  cbv beta. intros x s' w' [-> Hp'] Hw'. apply wp_ret. split; [done|]. by eapply has_pipe_step.
Qed.

(** A read that has a part of its bytes and is interrupted while the pipe is
    empty fails an assertion. *)
Definition torn (th : thread) (p : Pipe) : bool :=
  match th_job th with
  | Reading _ (RAgain n _) => (0 <? n) && g_interrupted (th_proc th) && (p_size p =? 0) && negb (m_write_fd p =? 0)
  | _ => false
  end.

(** What a step does to the pipe and to the account of its process. *)
Definition stepped (fds : list Z) (th : thread) (p : Pipe) (th' : thread) (w' : World) : Prop :=
  thread_ok fds th' /\ to_give th' = to_give th /\
  exists s' p', w_servers w' !! Z.to_nat k = Some s' /\ has_pipe id fds s' p' /\
    p_size p' + taken th' + given th = p_size p + taken th + given th'.

Lemma amount_small n : n < 2 ^ 63 -> amount n = n.
Proof. intros Hn. unfold amount. by rewrite (proj2 (Z.ltb_lt _ _)). Qed.

(** A step that sends nothing. *)
Lemma stepped_quiet fds th p th' w s :
  w_servers w !! Z.to_nat k = Some s -> has_pipe id fds s p -> thread_ok fds th' -> to_give th' = to_give th ->
  taken th' = taken th -> given th' = given th -> stepped fds th p th' w.
Proof. intros Hs Hp Hth Hg Ht Hgi. split; [done|]. split; [done|]. exists s, p. split_and!; [done..|lia]. Qed.

Lemma read_done_amount n : 0 <= n < 2 ^ 63 ->
  let ret := if n =? 0 then u64 (- EBADF) else n in 0 <= ret /\ amount ret = n.
Proof.
  intros Hn. cbv zeta. destruct (Z.eqb_spec n 0) as [->|Hne]; [by vm_compute|]. rewrite amount_small by lia. lia.
Qed.

Lemma read_step_wp fds w s p chan st count pc :
  let th := mkThread chan st (Reading count pc) in
  w_servers w !! Z.to_nat k = Some s -> has_pipe id fds s p -> thread_ok fds th -> torn th p = false ->
  wp (proc_step th) (stepped fds th p) w.
Proof.
  cbv zeta. intros Hs Hp [Hsrv Hfd Hopen [Hj Hc]] Htorn. unfold proc_step. simpl in *. apply wp_bind.
  destruct pc as [n|n size|ret]; simpl pipe_read_step.
  - destruct (Z.ltb_spec n count) as [Hlt|Hge]; simpl.
    + rewrite Hopen. do 2 apply wp_ret. apply (stepped_quiet _ _ _ _ _ s); try done. split; try done. simpl.
      unfold job_ok, request_size. lia.
    + do 2 apply wp_ret. destruct (read_done_amount n) as [Hret Ha]; [lia|].
      apply (stepped_quiet _ _ _ _ _ s); try done.
  - rewrite Hsrv. apply wp_bind. eapply wp_mono; [apply (fosFdRead_wp chan fds w s p); [done..|lia]|]. cbv beta.
    pose proof (hp_size _ _ _ _ Hp) as Hsz. destruct (read_answer size p) as [rv c] eqn:Hr.
    intros r w1 [-> (s1 & Hs1 & Hp1)]. unfold read_answer in Hr. unfold torn in Htorn. simpl in Htorn.
    destruct (read_done_amount n) as [Hret Ha]; [lia|].
    destruct (Z.eqb_spec (p_size p) 0) as [Hz|Hz]; [destruct (m_write_fd p =? 0)|]; simplify_eq.
    + do 2 apply wp_ret. split; [by split|]. split; [done|]. do 2 eexists. split_and!; [done..|]. unfold taken, given. cbn [th_job pipe_with_size p_size fst snd]. rewrite Ha. lia.
    + simpl. destruct (g_interrupted st) eqn:Hint.
      * rewrite !andb_true_r in Htorn. assert (n = 0) as -> by lia. apply wp_bind, wp_assert; [done|].
        do 2 apply wp_ret. split; [by split|]. split; [done|]. do 2 eexists. split_and!; [done..|].
        unfold taken, given. cbn [th_job pipe_with_size p_size fst snd]. change (amount (u64 (- EINTR))) with 0. lia.
      * do 2 apply wp_ret. split; [split; try done; unfold job_ok, request_size; simpl; lia|]. split; [done|].
        do 2 eexists. split_and!; [done..|]. unfold taken, given. cbn [th_job pipe_with_size p_size fst snd]. lia.
    + simpl. rewrite (proj2 (Z.eqb_neq _ _)) by lia. do 2 apply wp_ret.
      split; [split; try done; unfold job_ok; simpl; lia|]. split; [done|]. do 2 eexists. split_and!; [done..|]. unfold taken, given. cbn [th_job pipe_with_size p_size fst snd]. lia.
  - do 2 apply wp_ret. by apply (stepped_quiet _ _ _ _ _ s).
Qed.

Lemma write_step_wp fds w s p chan st buf count pc :
  let th := mkThread chan st (Writing buf count pc) in
  w_servers w !! Z.to_nat k = Some s -> has_pipe id fds s p -> thread_ok fds th ->
  p_size p + (to_give th - given th) < 2 ^ 63 -> wp (proc_step th) (stepped fds th p) w.
Proof.
  cbv zeta. intros Hs Hp [Hsrv Hfd Hopen [Hj Hc]] Hmax. unfold proc_step. simpl in *. apply wp_bind.
  destruct pc as [n|ret]; simpl pipe_write_step.
  - destruct (Z.ltb_spec n count) as [Hlt|Hge].
    + rewrite Hsrv. assert (Hch : 0 < request_size count n <= count - n) by (unfold request_size; lia). unfold to_give, given in Hmax. simpl in Hmax.
      apply wp_bind. eapply wp_mono; [apply (fosFdWrite_wp chan fds w s p); [done..|lia|lia]|].
      cbv beta. intros r w1 [-> (s1 & Hs1 & Hp1)]. simpl. rewrite (proj2 (Z.eqb_neq _ _)) by lia. do 2 apply wp_ret.
      split; [split; try done; unfold job_ok; simpl; lia|]. split; [done|]. do 2 eexists. split_and!; [done..|].
      unfold taken, given. simpl. lia.
    + do 2 apply wp_ret. apply (stepped_quiet _ _ _ _ _ s); try done; [|unfold given; simpl; apply amount_small; lia].
      split; try done. unfold job_ok. simpl. rewrite amount_small by lia. lia.
  - do 2 apply wp_ret. by apply (stepped_quiet _ _ _ _ _ s).
Qed.

Lemma to_give_given fds th : thread_ok fds th -> 0 <= taken th /\ given th <= to_give th.
Proof.
  intros [_ _ _ Hj]. unfold taken, given, to_give, job_ok in *.
  destruct (th_job th) as [c [n|n sz|r]|b c [n|r]]; unfold amount in *; try case_match; lia.
Qed.

(** The pipe has room for what a writer has left. *)
Lemma room_left fds start w ths s p i th :
  sys_ok fds start w ths s p -> ths !! i = Some th -> p_size p + (to_give th - given th) < 2 ^ 63.
Proof.
  intros Hok Hi. pose proof (sk_threads _ _ _ _ _ _ Hok) as Hths.
  assert (Hle : Forall (fun th => given th <= to_give th) ths).
  { eapply Forall_impl; [exact Hths|]. intros t Ht. by apply (to_give_given fds). }
  assert (Hnn : 0 <= zsum taken ths).
  { apply zsum_nonneg. eapply Forall_impl; [exact Hths|]. intros t Ht. by apply (to_give_given fds). }
  pose proof (zsum_rest given to_give ths i th Hi Hle). pose proof (sk_sum _ _ _ _ _ _ Hok).
  pose proof (sk_bound _ _ _ _ _ _ Hok). lia.
Qed.

Lemma proc_step_wp fds start w ths s p i th :
  sys_ok fds start w ths s p -> ths !! i = Some th -> torn th p = false ->
  wp (proc_step th) (stepped fds th p) w.
Proof.
  intros Hok Hi Htorn. pose proof (room_left _ _ _ _ _ _ _ _ Hok Hi).
  pose proof (Forall_lookup_1 _ _ _ _ (sk_threads _ _ _ _ _ _ Hok) Hi) as Hth.
  destruct th as [ch st [count pc|buf count pc]].
  - eapply read_step_wp; [apply Hok|apply Hok|done..].
  - eapply write_step_wp; [apply Hok|apply Hok|done..].
Qed.

Lemma torn_aborts fds start w ths s p i th :
  sys_ok fds start w ths s p -> ths !! i = Some th -> torn th p = true -> proc_step th w = Abort.
Proof.
  intros Hok Hi Htorn. pose proof (Forall_lookup_1 _ _ _ _ (sk_threads _ _ _ _ _ _ Hok) Hi) as [Hsrv Hfd _ [Hj Hc]].
  destruct th as [ch st [count [|n size|]|buf count pc]]; try done. unfold torn in Htorn. simpl in *.
  rewrite !andb_true_iff in Htorn. destruct Htorn as [[[Hn Hint] Hz] Hw].
  pose proof (fosFdRead_wp ch fds w s p (ap_fd (pp_pipe st)) size) as Hr.
  apply wp_Done in Hr as (r & w1 & Hrun & Hr); [|apply Hok|apply Hok|done|lia].
  unfold read_answer in Hr. rewrite Hz, (proj1 (negb_true_iff _) Hw) in Hr. destruct Hr as [-> _].
  unfold proc_step. simpl. rewrite Hsrv. unfold mbind, M_bind. rewrite Hrun. simpl. rewrite Hint.
  by rewrite (proj2 (Z.eqb_neq n 0)) by lia.
Qed.

Lemma sys_step_ok fds start w ths s p w' ths' :
  sys_ok fds start w ths s p -> sys_step (w, ths) (w', ths') -> exists s' p', sys_ok fds start w' ths' s' p'.
Proof.
  intros Hok Hstep. inversion Hstep as [w0 ths0 i th th' w1 Hi Hrun|w0 ths0 i th Hi]; subst.
  - destruct (torn th p) eqn:Htorn.
    { by rewrite (torn_aborts _ _ _ _ _ _ _ _ Hok Hi Htorn) in Hrun. }
    pose proof (proc_step_wp _ _ _ _ _ _ _ _ Hok Hi Htorn) as Hwp. unfold wp in Hwp. rewrite Hrun in Hwp.
    destruct Hwp as (Hth & Hg & s' & p' & Hs' & Hp' & Hsum). exists s', p'. destruct Hok. split; try done.
    + by apply Forall_insert.
    + rewrite (zsum_insert _ _ i th) by done. lia.
    + rewrite !(zsum_insert _ _ i th) by done. lia.
  - exists s, p. destruct Hok. split; try done.
    + apply Forall_insert; [done|]. pose proof (Forall_lookup_1 _ _ _ _ sk_threads0 Hi) as []. by split.
    + rewrite (zsum_insert _ _ i th) by done. unfold interrupt, to_give in *. simpl. lia.
    + rewrite !(zsum_insert _ _ i th) by done. unfold interrupt, taken, given in *. simpl. lia.
Qed.

End System.

(** ** Demonstration

    A process writes five bytes while two others read three and two. *)
Definition demo_pipe : World := world_after (@fosPipeOpen small_config plain_env late 7) demo_world.
Definition demo_ends : AppPipe * AppPipe :=
  match result_of (@fosPipeOpen small_config plain_env late 7) demo_world with
  | Some (_, Some e) => e
  | _ => (AppPipe_new (mkInodeType 0 0 TYPE_PIPE) 0, AppPipe_new (mkInodeType 0 0 TYPE_PIPE) 0)
  end.
Definition demo_threads : list thread :=
  let proc e := mkPipeProc e false false in
  [mkThread 7 (proc demo_ends.2) (Writing [1; 2; 3; 4; 5] 5 (WHead 0));
   mkThread 8 (proc demo_ends.1) (Reading 3 (RHead 0));
   mkThread 9 (proc demo_ends.1) (Reading 2 (RHead 0))].
Definition demo_pipe_server : Server := default (demo_server 0) (w_servers demo_pipe !! 0%nat).
Definition demo_pipe_id : Z := it_id (ap_inode demo_ends.1).
Definition demo_pipe_obj : Pipe :=
  match m_pipes demo_pipe_server !! demo_pipe_id with Some (PipeV p) => p | _ => Pipe_new tiny_base 0 end.
Definition demo_fds : list Z := [ap_fd demo_ends.1; ap_fd demo_ends.2].

(** The threads run in the order of a schedule. *)
Fixpoint run_schedule (sched : list nat) (w : World) (ths : list thread) : World * list thread :=
  match sched with
  | [] => (w, ths)
  | i :: sched' =>
      match ths !! i with
      | Some th =>
          match @proc_step small_config plain_env late th w with
          | Done th' w' => run_schedule sched' w' (<[i := th']> ths)
          | _ => (w, ths)
          end
      | None => (w, ths)
      end
  end.

Lemma run_schedule_steps sched w ths :
  rtc (@sys_step small_config plain_env late) (w, ths) (run_schedule sched w ths).
Proof.
  revert w ths. induction sched as [|i sched IH]; intros w ths; simpl; [reflexivity|].
  destruct (ths !! i) as [th|] eqn:Hi; [|reflexivity].
  destruct (proc_step late th w) as [th' w'| | |] eqn:Hr; try reflexivity.
  eapply rtc_l; [by eapply sys_run|apply IH].
Qed.

Lemma demo_sys_ok : sys_ok 0 demo_pipe_id demo_fds 0 demo_pipe demo_threads demo_pipe_server demo_pipe_obj.
Proof.
  split; [by vm_compute| | |done|by vm_compute|by vm_compute].
  - split; [by vm_compute|by vm_compute| |by vm_compute].
    intros fd Hfd. unfold demo_fds in Hfd. rewrite !elem_of_cons, elem_of_nil in Hfd.
    destruct Hfd as [->|[->|[]]];
      match goal with |- exists d, ?x = _ /\ _ => destruct x as [d|] eqn:Hd end;
      try (exists d; split; [done|]; revert Hd; vm_compute; intros [= <-]; reflexivity); revert Hd; vm_compute; done.
  - repeat constructor; try (by vm_compute); unfold demo_fds; simpl; set_solver.
Qed.

