(* ===== verification/Containers.v ===== *)
(** * Containers

    The fixed-size containers of [common/include]: the circular queue
    ([circular_queue.hpp]), the map that is a queue of pairs ([map.hpp]) and the
    object pool ([pool.hpp]).  The queue is shown to be a bounded list, the map a
    finite map as long as it is not full, and the pool to hand out no element
    twice. *)

From S2P Require Import Prelude.

(** ** CircularQueue *)

Section Queue.
Context {A : Type}.

(** [_data] is an array of [CAPACITY] elements; an iterator is a pointer into
    it, given as an index. *)
Record CircularQueue : Type := mkCQ {
  q_at : Z;
  q_size : Z;
  q_data : list A
}.

Implicit Types q : CircularQueue.

Definition q_capacity q : Z := Z.of_nat (length (q_data q)).

(** A new queue; the array holds what the memory held. *)
Definition CircularQueue_new (junk : list A) : CircularQueue := mkCQ 0 0 junk.

Definition q_index q (offset : Z) : Z := u64 (q_at q + offset) mod q_capacity q.

Definition q_push (t : A) q : bool * CircularQueue :=
  if q_size q =? q_capacity q then (false, q)
  else
    let tail := q_index q (q_size q) in
    (true, mkCQ (q_at q) (u64 (q_size q + 1)) (<[Z.to_nat tail := t]> (q_data q))).

Definition q_pop q : CircularQueue :=
  mkCQ (u64 (q_at q + 1) mod q_capacity q) (u64 (q_size q - 1)) (q_data q).

Definition q_front q : option A := q_data q !! Z.to_nat (q_at q).

Definition q_elt q (offset : Z) : option A := q_data q !! Z.to_nat (q_index q offset).

Definition q_begin q : Z := q_at q.
Definition q_end q : Z := q_index q (q_size q).

(** [rm]: the last element takes the place of the removed one. *)
Definition q_rm (offset : Z) q : CircularQueue :=
  let tail := u64 (u64 (q_at q + q_size q) - 1) mod q_capacity q in
  match q_data q !! Z.to_nat tail with
  | Some last => mkCQ (q_at q) (u64 (q_size q - 1)) (<[Z.to_nat (q_index q offset) := last]> (q_data q))
  | None => q
  end.

Definition q_rm_it (it : Z) q : CircularQueue := q_rm (u64 (it - q_at q)) q.

(** *** As a list *)

Record q_ok q : Prop := {
  qo_at : 0 <= q_at q < q_capacity q;
  qo_size : 0 <= q_size q <= q_capacity q;
  qo_cap : q_capacity q < 2 ^ 63
}.

Definition q_contents q : list A := take (Z.to_nat (q_size q)) (rotate (Z.to_nat (q_at q)) (q_data q)).

Lemma q_index_spec q off : q_ok q -> 0 <= off < 2 ^ 63 -> q_index q off = (q_at q + off) mod q_capacity q.
Proof. intros [] Hoff. unfold q_index. rewrite u64_small by lia. done. Qed.

Lemma q_index_range q off : q_ok q -> 0 <= q_index q off < q_capacity q.
Proof. intros []. unfold q_index. apply Z.mod_pos_bound. lia. Qed.

Lemma q_index_inj q i j :
  q_ok q -> 0 <= i < q_capacity q -> 0 <= j < q_capacity q -> q_index q i = q_index q j -> i = j.
Proof.
  intros Hok Hi Hj. pose proof Hok as []. rewrite !q_index_spec by (done || lia). intros Heq.
  pose proof (Z.div_mod (q_at q + i) (q_capacity q)). pose proof (Z.div_mod (q_at q + j) (q_capacity q)).
  assert ((q_at q + i) / q_capacity q = (q_at q + j) / q_capacity q \/
    (q_at q + i) / q_capacity q <> (q_at q + j) / q_capacity q) as [He|Hne] by lia; [lia|].
  exfalso. nia.
Qed.

Lemma q_contents_lookup q (i : nat) :
  q_ok q -> Z.of_nat i < q_size q -> q_contents q !! i = q_elt q (Z.of_nat i).
Proof.
  intros Hok Hi. pose proof Hok as [Hat Hsz Hcap]. unfold q_contents, q_elt.
  rewrite lookup_take_lt by lia. unfold q_capacity in *.
  rewrite lookup_rotate_r by lia. f_equal. unfold rotate_nat_add.
  rewrite q_index_spec by (done || lia). unfold q_capacity. rewrite Z2Nat.id by lia. done.
Qed.

Lemma q_contents_length q : q_ok q -> length (q_contents q) = Z.to_nat (q_size q).
Proof.
  intros [Hat Hsz Hcap]. unfold q_contents, q_capacity in *. rewrite length_take, length_rotate. lia.
Qed.

(** Two queues with the same number of elements at the same places. *)
Lemma q_contents_eq q l :
  q_ok q -> q_size q = Z.of_nat (length l) ->
  (forall i x, l !! i = Some x -> q_elt q (Z.of_nat i) = Some x) -> q_contents q = l.
Proof.
  intros Hok Hsz Hl. apply list_eq_same_length with (length l); [done|rewrite q_contents_length by done; lia|].
  intros i x y Hi Hx Hy. apply Hl in Hy. rewrite q_contents_lookup in Hx by (done || lia). congruence.
Qed.

Lemma q_elt_update q k x i :
  q_ok q -> 0 <= k < q_capacity q -> 0 <= i < q_capacity q ->
  q_elt (mkCQ (q_at q) (q_size q) (<[Z.to_nat (q_index q k) := x]> (q_data q))) i =
    if decide (i = k) then Some x else q_elt q i.
Proof.
  intros Hok Hk Hi. unfold q_elt.
  assert (Hx : q_index (mkCQ (q_at q) (q_size q) (<[Z.to_nat (q_index q k) := x]> (q_data q))) i = q_index q i).
  { unfold q_index, q_capacity. simpl. by rewrite length_insert. }
  rewrite Hx. simpl. pose proof (q_index_range q k Hok) as Hrk. pose proof (q_index_range q i Hok) as Hri.
  unfold q_capacity in Hrk. case_decide as Hd.
  - subst. apply list_lookup_insert_eq. lia.
  - apply list_lookup_insert_ne. intros He. apply Hd. apply (q_index_inj q); [done..|]. lia.
Qed.

Lemma q_capacity_insert q a n k x : q_capacity (mkCQ a n (<[k := x]> (q_data q))) = q_capacity q.
Proof. unfold q_capacity. simpl. by rewrite length_insert. Qed.

Lemma q_ok_size q n : q_ok q -> 0 <= n <= q_capacity q -> q_ok (mkCQ (q_at q) n (q_data q)).
Proof. intros [] Hn. by split. Qed.

Lemma q_ok_insert q k x : q_ok q -> q_ok (mkCQ (q_at q) (q_size q) (<[k := x]> (q_data q))).
Proof. intros []. split; unfold q_capacity in *; simpl; by rewrite ?length_insert. Qed.

Lemma q_contents_elt q i x :
  q_ok q -> q_contents q !! i = Some x -> Z.of_nat i < q_size q /\ q_elt q (Z.of_nat i) = Some x.
Proof.
  intros Hok Hx. pose proof (lookup_lt_Some _ _ _ Hx) as Hlt. rewrite q_contents_length in Hlt by done.
  pose proof Hok as []. split; [lia|]. rewrite <- q_contents_lookup; [done|done|lia].
Qed.

Lemma q_push_spec t q :
  q_ok q ->
  let '(pushed, q') := q_push t q in
  q_ok q' /\ q_capacity q' = q_capacity q /\
  if decide (Z.of_nat (length (q_contents q)) < q_capacity q)
  then pushed = true /\ q_contents q' = q_contents q ++ [t]
  else pushed = false /\ q' = q.
Proof.
  intros Hok. pose proof Hok as [Hat Hsz Hcap]. unfold q_push. rewrite q_contents_length, Z2Nat.id by (done || lia).
  destruct (Z.eqb_spec (q_size q) (q_capacity q)) as [He|Hne].
  { rewrite decide_False by lia. done. }
  rewrite decide_True by lia. rewrite u64_small by lia.
  set (q' := mkCQ _ _ _).
  assert (Hq' : q_ok q').
  { apply (q_ok_size (mkCQ (q_at q) (q_size q) (<[Z.to_nat (q_index q (q_size q)) := t]> (q_data q)))).
    - by apply q_ok_insert.
    - rewrite q_capacity_insert. lia. }
  split; [done|]. split; [apply q_capacity_insert|]. split; [done|].
  apply q_contents_eq; [done|simpl; rewrite length_app, q_contents_length by done; simpl; lia|].
  intros i x Hx. change (q_elt q' (Z.of_nat i)) with
    (q_elt (mkCQ (q_at q) (q_size q) (<[Z.to_nat (q_index q (q_size q)) := t]> (q_data q))) (Z.of_nat i)).
  apply lookup_app_Some in Hx as [Hx|[Hge Hx]].
  - apply q_contents_elt in Hx as [Hlt Hx]; [|done]. rewrite q_elt_update by (done || lia).
    rewrite decide_False by lia. done.
  - rewrite q_contents_length in Hge, Hx by done. apply list_lookup_singleton_Some in Hx as [Hi <-].
    rewrite q_elt_update by (done || lia). rewrite decide_True by lia. done.
Qed.

Lemma q_pop_index q off :
  q_ok q -> 0 <= off < q_capacity q -> q_index (q_pop q) off = q_index q (off + 1).
Proof.
  intros Hok Hoff. pose proof Hok as [Hat Hsz Hcap]. rewrite (q_index_spec q (off + 1)) by (done || lia).
  unfold q_index, q_pop, q_capacity in *. simpl. rewrite (u64_small (q_at q + 1)) by lia.
  pose proof (Z.mod_pos_bound (q_at q + 1) (Z.of_nat (length (q_data q))) ltac:(lia)).
  rewrite u64_small by lia. rewrite Zplus_mod_idemp_l. f_equal. lia.
Qed.

(** [front] and [pop] take the first element. *)
Lemma q_pop_spec x l q :
  q_ok q -> q_contents q = x :: l ->
  q_front q = Some x /\ q_ok (q_pop q) /\ q_capacity (q_pop q) = q_capacity q /\ q_contents (q_pop q) = l.
Proof.
  intros Hok Hl. pose proof Hok as [Hat Hsz Hcap].
  assert (Hlen : q_size q = Z.of_nat (S (length l))).
  { pose proof (q_contents_length q Hok) as He. rewrite Hl in He. simpl in He. lia. }
  assert (Hpop : q_ok (q_pop q)).
  { split; unfold q_pop, q_capacity in *; simpl; rewrite ?(u64_small (q_size q - 1)) by lia; try lia.
    apply Z.mod_pos_bound. lia. }
  split; [|split; [done|split; [done|]]].
  - destruct (q_contents_elt q 0 x Hok) as [_ Hx]; [by rewrite Hl|]. unfold q_elt in Hx.
    rewrite q_index_spec in Hx by (done || lia). rewrite Z.add_0_r, Z.mod_small in Hx by lia. done.
  - apply q_contents_eq; [done|unfold q_pop; simpl; rewrite u64_small by lia; lia|].
    intros i y Hy. pose proof (lookup_lt_Some _ _ _ Hy) as Hlt.
    destruct (q_contents_elt q (S i) y Hok) as [_ Hx]; [by rewrite Hl|].
    unfold q_elt in *. rewrite q_pop_index by (done || lia). simpl q_data.
    replace (Z.of_nat i + 1) with (Z.of_nat (S i)) by lia. done.
Qed.

(** Removing the element at an offset moves the last one there. *)
Lemma q_rm_spec off x q :
  q_ok q -> q_contents q !! Z.to_nat off = Some x -> 0 <= off ->
  q_ok (q_rm off q) /\ q_capacity (q_rm off q) = q_capacity q /\
  exists l last, q_contents q = l ++ [last] /\
    q_contents (q_rm off q) = (if decide (Z.to_nat off = length l) then l else <[Z.to_nat off := last]> l).
Proof.
  intros Hok Hx Hoff. pose proof Hok as [Hat Hsz Hcap].
  pose proof (q_contents_length q Hok) as Hlen. destruct (q_contents_elt _ _ _ Hok Hx) as [Hlt _].
  destruct (exists_last (l := q_contents q)) as (l & last & Hl); [by destruct (q_contents q)|].
  rewrite Hl, length_app in Hlen. simpl in Hlen.
  assert (Htail : q_data q !! Z.to_nat (u64 (u64 (q_at q + q_size q) - 1) mod q_capacity q) = Some last).
  { destruct (q_contents_elt q (length l) last Hok) as [_ He].
    { rewrite Hl, lookup_app_r, Nat.sub_diag by lia. done. }
    unfold q_elt in He. rewrite q_index_spec in He by (done || lia).
    rewrite (u64_small (q_at q + q_size q)), u64_small by lia.
    replace (q_at q + q_size q - 1) with (q_at q + Z.of_nat (length l)) by lia. done. }
  unfold q_rm. rewrite Htail, (u64_small (q_size q - 1)) by lia.
  set (q' := mkCQ _ _ _).
  assert (Hq' : q_ok q').
  { apply (q_ok_size (mkCQ (q_at q) (q_size q) (<[Z.to_nat (q_index q off) := last]> (q_data q)))).
    - by apply q_ok_insert.
    - rewrite q_capacity_insert. lia. }
  split; [done|]. split; [apply q_capacity_insert|].
  exists l, last. split; [done|]. apply q_contents_eq; [done| |].
  - simpl. case_decide; rewrite ?length_insert; lia.
  - intros i y Hy. change (q_elt q' (Z.of_nat i)) with
      (q_elt (mkCQ (q_at q) (q_size q) (<[Z.to_nat (q_index q off) := last]> (q_data q))) (Z.of_nat i)).
    assert (Hi : (i < length l)%nat).
    { apply lookup_lt_Some in Hy. case_decide; rewrite ?length_insert in Hy; lia. }
    rewrite q_elt_update by (done || lia). destruct (decide (Z.of_nat i = off)) as [Hio|Hio].
    + rewrite decide_False in Hy by lia. rewrite <- Hy. symmetry. rewrite <- Hio, Nat2Z.id.
      by apply list_lookup_insert_eq.
    + assert (Hy' : l !! i = Some y).
      { destruct (decide _); [done|]. by rewrite list_lookup_insert_ne in Hy by lia. }
      destruct (q_contents_elt q i y Hok) as [_ He]; [by rewrite Hl, lookup_app_l|done].
Qed.
End Queue.
Arguments CircularQueue : clear implicits.

(** ** The queue as a bounded list *)

Section Refinement.
Context {A : Type}.

Inductive q_op : Type := QPush (t : A) | QPop.

(** A program that uses the queue, with what it sees: whether an element was
    accepted, and which element was taken out. *)
Inductive q_event : Type := Pushed (b : bool) | Popped (o : option A).

Fixpoint q_run (ops : list q_op) (q : CircularQueue A) : list q_event :=
  match ops with
  | [] => []
  | QPush t :: ops' => let '(b, q') := q_push t q in Pushed b :: q_run ops' q'
  | QPop :: ops' =>
      if q_size q =? 0 then Popped None :: q_run ops' q
      else Popped (q_front q) :: q_run ops' (q_pop q)
  end.

(** The same program on a list of at most [cap] elements. *)
Fixpoint list_run (cap : nat) (ops : list q_op) (l : list A) : list q_event :=
  match ops with
  | [] => []
  | QPush t :: ops' =>
      if decide (length l < cap)%nat then Pushed true :: list_run cap ops' (l ++ [t])
      else Pushed false :: list_run cap ops' l
  | QPop :: ops' =>
      match l with
      | [] => Popped None :: list_run cap ops' l
      | x :: l' => Popped (Some x) :: list_run cap ops' l'
      end
  end.

(** C30: The circular queue is a first-in-first-out list bounded by its
    capacity: no program that checks [size()] before [front()] and [pop()] can
    tell them apart, whatever the array held initially. *)
Theorem queue_refines_list (q : CircularQueue A) (ops : list q_op) :
  q_ok q -> q_run ops q = list_run (length (q_data q)) ops (q_contents q).
Proof.
  revert q. induction ops as [|[t|] ops IH]; intros q Hok; [done|..]; simpl.
  - pose proof (q_push_spec t q Hok) as Hp. destruct (q_push t q) as [b q'].
    destruct Hp as (Hok' & Hcap & Hp). unfold q_capacity in *.
    assert (length (q_data q') = length (q_data q)) as Hl by lia.
    case_decide; case_decide; try lia; destruct Hp as [-> Hc]; rewrite IH, Hl by done.
    + by rewrite Hc.
    + by subst.
  - pose proof (q_contents_length q Hok) as Hl. pose proof Hok as [].
    destruct (q_contents q) as [|x l] eqn:Hc; simpl in Hl.
    + rewrite (proj2 (Z.eqb_eq _ _)) by lia. by rewrite IH, Hc.
    + rewrite (proj2 (Z.eqb_neq _ _)) by lia. destruct (q_pop_spec x l q Hok Hc) as (-> & Hok' & _ & Hc').
      by rewrite IH, Hc'.
Qed.
End Refinement.

Lemma q_rm_it_spec {A} (q : CircularQueue A) off :
  q_ok q -> 0 <= off < q_capacity q -> q_rm_it (q_index q off) q = q_rm off q.
Proof.
  intros Hok Hoff. unfold q_rm_it, q_rm. pose proof Hok as [Hat Hsz Hcap].
  pose proof (q_index_range q off Hok) as Hr. replace (q_index q (u64 _)) with (q_index q off); [done|].
  unfold q_index at 2. unfold u64. rewrite Z.add_mod_idemp_r by done.
  replace (q_at q + (q_index q off - q_at q)) with (q_index q off) by lia.
  rewrite (Z.mod_small _ (2 ^ 64)) by lia. by rewrite Z.mod_small.
Qed.

(** Overwriting an element with the one that is dropped at the end. *)
Lemma swap_out_Permutation {A} (l : list A) j x y :
  l !! j = Some x -> l ++ [y] ≡ₚ x :: <[j := y]> l.
Proof.
  intros Hj. rewrite (insert_take_drop l j y) by (by eapply lookup_lt_Some).
  rewrite <- (take_drop_middle l j x) at 1 by done.
  rewrite <- (assoc_L (++)). simpl. rewrite <- Permutation_middle. f_equiv. f_equiv.
  by rewrite Permutation_app_comm.
Qed.

(** ** Map *)

Section Map.
Context {K : Type} `{Countable K} {V : Type}.

Definition Map : Type := CircularQueue (K * V).

(** [insert] does not look at the result of [push]. *)
Definition map_insert (key : K) (value : V) (q : Map) : Map := snd (q_push (key, value) q).

(** [find]: an iterator; [end()] if the loop finds nothing. *)
Fixpoint find_loop (key : K) (q : Map) (i : Z) (n : nat) : Z :=
  match n with
  | O => q_end q
  | S n' =>
      match q_elt q i with
      | Some (k, _) => if decide (k = key) then q_index q i else find_loop key q (i + 1) n'
      | None => q_end q
      end
  end.
Definition map_find (key : K) (q : Map) : Z := find_loop key q 0 (Z.to_nat (q_size q)).

Definition map_value (it : Z) (q : Map) : option V := snd <$> q_data q !! Z.to_nat it.

(** The queue holds the entries of the map [m], each once. *)
Record map_repr (q : Map) (m : gmap K V) : Prop := {
  mr_ok : q_ok q;
  mr_keys : NoDup (q_contents q).*1;
  mr_map : list_to_map (q_contents q) = m
}.

Lemma find_loop_spec key (q : Map) i n :
  q_ok q -> (i + n = length (q_contents q))%nat ->
  (forall j kv, (j < i)%nat -> q_contents q !! j = Some kv -> kv.1 <> key) ->
  (exists j v, q_contents q !! j = Some (key, v) /\ find_loop key q (Z.of_nat i) n = q_index q (Z.of_nat j)) \/
  (find_loop key q (Z.of_nat i) n = q_end q /\ key ∉ (q_contents q).*1).
Proof.
  intros Hok. revert i. induction n as [|n IH]; intros i Hlen Hno; simpl.
  - right. split; [done|]. intros (kv & -> & Hkv)%list_elem_of_fmap.
    apply list_elem_of_lookup in Hkv as [j Hj]. apply (Hno j kv); [|done|done].
    apply lookup_lt_Some in Hj. lia.
  - destruct (lookup_lt_is_Some_2 (q_contents q) i) as [[k v] Hi]; [lia|].
    destruct (q_contents_elt q i _ Hok Hi) as [_ ->]. case_decide as Hk.
    + left. subst. eauto.
    + replace (Z.of_nat i + 1) with (Z.of_nat (S i)) by lia. apply IH; [lia|].
      intros j kv Hj Hjv. destruct (decide (j = i)) as [->|]; [|apply (Hno j); [lia|done]].
      by simplify_eq/=.
Qed.

Lemma map_find_spec key (q : Map) :
  q_ok q ->
  (exists j v, q_contents q !! j = Some (key, v) /\ map_find key q = q_index q (Z.of_nat j)) \/
  (map_find key q = q_end q /\ key ∉ (q_contents q).*1).
Proof.
  intros Hok. unfold map_find. apply (find_loop_spec key q 0); [done| |].
  - by rewrite q_contents_length.
  - intros j kv Hj. lia.
Qed.

(** An element of a queue that is not full is not at [end()]. *)
Lemma q_index_not_end {B} (q : CircularQueue B) j :
  q_ok q -> q_size q < q_capacity q -> 0 <= j < q_size q -> q_index q j <> q_end q.
Proof. intros Hok Hlt Hj He. pose proof Hok as []. apply (q_index_inj q) in He; [lia|done|lia..]. Qed.

Lemma map_rm_repr (q : Map) (m : gmap K V) j key v :
  map_repr q m -> q_contents q !! j = Some (key, v) ->
  map_repr (q_rm_it (q_index q (Z.of_nat j)) q) (delete key m).
Proof.
  intros [Hok Hnd Hm] Hj. destruct (q_contents_elt q j _ Hok Hj) as [Hjs _]. pose proof Hok as [].
  rewrite q_rm_it_spec by (done || lia).
  destruct (q_rm_spec (Z.of_nat j) (key, v) q Hok) as (Hok' & _ & l & last & Hl & Hc);
    [by rewrite Nat2Z.id|lia|]. rewrite Nat2Z.id in Hc.
  assert (Hp : q_contents q ≡ₚ (key, v) :: q_contents (q_rm (Z.of_nat j) q)).
  { rewrite Hc, Hl. rewrite Hl in Hj. case_decide as Hd.
    - rewrite lookup_app_r, Hd, Nat.sub_diag in Hj by lia. simplify_eq/=. by rewrite Permutation_app_comm.
    - pose proof (lookup_lt_Some _ _ _ Hj) as Hlen. rewrite length_app in Hlen. simpl in Hlen.
      rewrite lookup_app_l in Hj by lia. by apply swap_out_Permutation. }
  assert (Hnd' := Hnd). rewrite Hp in Hnd'. simpl in Hnd'. apply NoDup_cons in Hnd' as [Hk Hnd'].
  split; [done|done|]. rewrite <- Hm, (list_to_map_proper _ _ Hnd Hp). simpl.
  rewrite delete_insert_id; [done|]. by apply not_elem_of_list_to_map_1.
Qed.

Lemma map_insert_repr (q : Map) (m : gmap K V) key value :
  map_repr q m -> q_size q < q_capacity q -> m !! key = None ->
  map_repr (map_insert key value q) (<[key := value]> m) /\
  q_capacity (map_insert key value q) = q_capacity q /\ q_size (map_insert key value q) = q_size q + 1.
Proof.
  intros [Hok Hnd Hm] Hlt Hno. rewrite <- Hm in Hno. apply not_elem_of_list_to_map in Hno. pose proof Hok as [].
  unfold map_insert. pose proof (q_push_spec (key, value) q Hok) as Hpush.
  destruct (q_push (key, value) q) as [b q'] eqn:Hq. destruct Hpush as (Hok' & Hcap & Hpush).
  rewrite q_contents_length in Hpush by done. rewrite decide_True in Hpush by lia.
  destruct Hpush as [_ Hc]. simpl. split; [split; [done| |]|split; [done|]].
  - rewrite Hc, fmap_app. apply NoDup_app. split; [done|]. split; [set_solver|apply NoDup_singleton].
  - rewrite Hc, list_to_map_snoc by done. by rewrite Hm.
  - pose proof (q_contents_length q' Hok') as Hl. rewrite Hc, length_app, q_contents_length in Hl by done.
    pose proof Hok' as []. simpl in Hl. lia.
Qed.

(** What [find] tells about a map that is not full. *)
Lemma map_find_repr (q : Map) (m : gmap K V) key :
  map_repr q m -> q_size q < q_capacity q ->
  (exists j v, m !! key = Some v /\ q_contents q !! j = Some (key, v) /\
     map_find key q = q_index q (Z.of_nat j) /\ map_find key q <> q_end q) \/
  (m !! key = None /\ map_find key q = q_end q).
Proof.
  intros [Hok Hnd Hm] Hlt. pose proof Hok as [].
  destruct (map_find_spec key q Hok) as [(j & v & Hj & Hf)|[Hf Hno]]; [left|right].
  - exists j, v. destruct (q_contents_elt q j _ Hok Hj) as [Hjs _].
    split; [|split; [done|split; [done|rewrite Hf; apply q_index_not_end; [done|done|lia]]]].
    rewrite <- Hm. apply elem_of_list_to_map; [done|]. by eapply list_elem_of_lookup_2.
  - split; [|done]. rewrite <- Hm. by apply not_elem_of_list_to_map_1.
Qed.

(** C31: A map with room for one more entry is a finite map: [find] yields an
    iterator to the entry of the key, and [end()] if there is none; [insert] of a
    new key adds an entry; removing what [find] found deletes the entry. *)
Theorem map_refines (q : Map) (m : gmap K V) key value :
  map_repr q m -> q_size q < q_capacity q ->
  match m !! key with
  | Some v => map_find key q <> q_end q /\ map_value (map_find key q) q = Some v /\
      map_repr (q_rm_it (map_find key q) q) (delete key m)
  | None => map_find key q = q_end q /\ map_repr (map_insert key value q) (<[key := value]> m)
  end.
Proof.
  intros Hr Hlt. destruct (map_find_repr q m key Hr Hlt) as [(j & v & Hv & Hj & Hf & Hne)|[Hv Hf]]; rewrite Hv.
  - destruct (q_contents_elt q j _ (mr_ok _ _ Hr) Hj) as [_ He]. split; [done|]. rewrite Hf.
    split; [unfold map_value; unfold q_elt in He; by rewrite He|by eapply map_rm_repr].
  - split; [done|]. by apply map_insert_repr.
Qed.

(** In a full map the entry in front is not found: the iterator that [find]
    yields for its key equals [end()]. *)
Theorem map_full_hides_front (q : Map) key value l :
  q_ok q -> q_size q = q_capacity q -> q_contents q = (key, value) :: l -> map_find key q = q_end q.
Proof.
  intros Hok Hfull Hc. pose proof Hok as []. unfold map_find.
  assert (0 < q_size q) by (pose proof (q_contents_length q Hok) as Hl; rewrite Hc in Hl; simpl in Hl; lia).
  destruct (Z.to_nat (q_size q)) as [|n] eqn:Hn; [lia|]. cbn [find_loop].
  destruct (q_contents_elt q 0 (key, value) Hok) as [_ He]; [by rewrite Hc|].
  change (Z.of_nat 0) with 0 in He. rewrite He, decide_True by done. unfold q_end.
  rewrite !q_index_spec by (done || lia). rewrite Hfull, Z.add_0_r.
  replace (q_at q + q_capacity q) with (q_at q + 1 * q_capacity q) by lia. by rewrite Z.mod_add by lia.
Qed.
End Map.
Arguments Map : clear implicits.

(** ** Pool *)

(** [heap] is given by its number of elements; a pointer into it is an index. *)
Record Pool : Type := mkPool {
  free_list : list Z;
  nfree : Z
}.
Definition Pool_new (num_elements : nat) : Pool := mkPool (seqZ 0 (Z.of_nat num_elements)) (Z.of_nat num_elements).

Definition pool_allocate (p : Pool) : option Z * Pool :=
  if nfree p =? 0 then (None, p)
  else (free_list p !! Z.to_nat (nfree p - 1), mkPool (free_list p) (nfree p - 1)).

(** [free] writes behind the list when nothing is allocated. *)
Definition pool_free (index : Z) (p : Pool) : option Pool :=
  if nfree p <? Z.of_nat (length (free_list p))
  then Some (mkPool (<[Z.to_nat (nfree p) := index]> (free_list p)) (nfree p + 1))
  else None.

Definition pool_available (p : Pool) : Z := nfree p.

(** The pool knows as free the elements that are not in [used]. *)
Record pool_repr (p : Pool) (used : gset Z) : Prop := {
  pr_range : 0 <= nfree p <= Z.of_nat (length (free_list p));
  pr_nodup : NoDup (take (Z.to_nat (nfree p)) (free_list p));
  pr_free i : i ∈ take (Z.to_nat (nfree p)) (free_list p) <->
    0 <= i < Z.of_nat (length (free_list p)) /\ i ∉ used;
  pr_used i : i ∈ used -> 0 <= i < Z.of_nat (length (free_list p))
}.

Lemma pool_new_repr n : pool_repr (Pool_new n) ∅.
Proof.
  assert (Hl : length (seqZ 0 (Z.of_nat n)) = n) by (rewrite length_seqZ; lia).
  unfold Pool_new. split; simpl; rewrite ?Hl, ?Nat2Z.id, ?(take_ge _ n) by (by rewrite Hl).
  - lia.
  - apply NoDup_seqZ.
  - intros i. rewrite elem_of_seqZ. set_solver by lia.
  - set_solver.
Qed.

Lemma pool_allocate_repr (p : Pool) (used : gset Z) :
  pool_repr p used ->
  match pool_allocate p with
  | (Some i, p') => (i ∉ used) /\ pool_repr p' ({[i]} ∪ used)
  | (None, p') => p' = p /\ forall i, 0 <= i < Z.of_nat (length (free_list p)) -> i ∈ used
  end.
Proof.
  intros [Hr Hnd Hf Hu]. unfold pool_allocate. destruct (Z.eqb_spec (nfree p) 0) as [H0|H0].
  - split; [done|]. intros i Hi. destruct (decide (i ∈ used)); [done|].
    specialize (proj2 (Hf i) (conj Hi n)). rewrite H0. simpl. set_solver.
  - destruct (lookup_lt_is_Some_2 (free_list p) (Z.to_nat (nfree p - 1))) as [i Hi]; [lia|]. rewrite Hi.
    assert (Htake : take (Z.to_nat (nfree p)) (free_list p) = take (Z.to_nat (nfree p - 1)) (free_list p) ++ [i]).
    { replace (Z.to_nat (nfree p)) with (S (Z.to_nat (nfree p - 1))) by lia. by apply take_S_r. }
    rewrite Htake in Hnd, Hf. apply NoDup_app in Hnd as (Hnd & Hdis & _).
    split; [apply (Hf i); set_solver|]. split; simpl; [lia|done| |].
    + intros k. specialize (Hf k). specialize (Hdis k). destruct (decide (k = i)); set_solver.
    + intros k. destruct (decide (k = i)) as [->|]; [intros _; apply (Hf i); set_solver|set_solver].
Qed.

Lemma pool_free_repr (p : Pool) (used : gset Z) i :
  pool_repr p used -> i ∈ used -> exists p', pool_free i p = Some p' /\ pool_repr p' (used ∖ {[i]}).
Proof.
  intros [Hr Hnd Hf Hu] Hi. unfold pool_free.
  assert (Hlt : nfree p < Z.of_nat (length (free_list p))).
  { destruct (decide (nfree p = Z.of_nat (length (free_list p)))) as [He|]; [|lia]. exfalso.
    rewrite He, Nat2Z.id, take_ge in Hnd, Hf by done.
    assert (Hsub : i :: free_list p ⊆+ seqZ 0 (Z.of_nat (length (free_list p)))).
    { apply NoDup_submseteq; [apply NoDup_cons; split; [|done]|].
      - intros Hin. apply Hf in Hin. naive_solver.
      - intros k [->|Hk]%elem_of_cons; rewrite elem_of_seqZ; [specialize (Hu i Hi); lia|].
        apply Hf in Hk. lia. }
    apply submseteq_length in Hsub. rewrite length_seqZ in Hsub. simpl in Hsub. lia. }
  rewrite (proj2 (Z.ltb_lt _ _)) by done. eexists. split; [done|].
  assert (Htake : take (Z.to_nat (nfree p + 1)) (<[Z.to_nat (nfree p) := i]> (free_list p)) =
    take (Z.to_nat (nfree p)) (free_list p) ++ [i]).
  { replace (Z.to_nat (nfree p + 1)) with (S (Z.to_nat (nfree p))) by lia.
    rewrite (take_S_r _ _ i) by (apply list_lookup_insert_eq; lia). by rewrite take_insert_ge by lia. }
  split; simpl; rewrite ?length_insert, ?Htake.
  - lia.
  - apply NoDup_app. split; [done|]. split; [|apply NoDup_singleton].
    intros k Hk. apply Hf in Hk. set_solver.
  - intros k. rewrite elem_of_app, Hf, list_elem_of_singleton. specialize (Hu i Hi).
    destruct (decide (k = i)) as [->|]; set_solver.
  - intros k Hk. apply Hu. set_solver.
Qed.

(** C32: A pool never gives out an element that is in use: as long as elements
    are returned only when they are in use, [allocate] yields an element that is
    not, or fails because all are, and [free] of an element in use succeeds and
    makes it available again. *)
Theorem pool_no_double_allocation (p : Pool) (used : gset Z) :
  pool_repr p used ->
  (match pool_allocate p with
   | (Some i, p') => (i ∉ used) /\ pool_repr p' ({[i]} ∪ used)
   | (None, p') => p' = p /\ forall i, 0 <= i < Z.of_nat (length (free_list p)) -> i ∈ used
   end) /\
  (forall i, i ∈ used -> exists p', pool_free i p = Some p' /\ pool_repr p' (used ∖ {[i]})).
Proof.
  intros Hr. split; [by apply pool_allocate_repr|]. intros i Hi. by apply pool_free_repr.
Qed.

(** ** Demonstration *)

(** A queue of three places whose elements wrap around the end of the array. *)
Definition demo_queue : CircularQueue Z := mkCQ 2 2 [8; 0; 7].
Lemma demo_queue_ok : q_ok demo_queue.
Proof. by split. Qed.

Lemma queue_refines_list_witness :
  q_run [QPush 9; QPush 1; QPop; QPush 2; QPop; QPop; QPop; QPop] demo_queue =
    [Pushed true; Pushed false; Popped (Some 7); Pushed true; Popped (Some 8); Popped (Some 9);
     Popped (Some 2); Popped None].
Proof. rewrite (queue_refines_list demo_queue); [reflexivity|exact demo_queue_ok]. Defined.

(** A map with two of three entries used. *)
Definition demo_map : Map Z Z := mkCQ 2 2 [(5, 50); (0, 0); (4, 40)].
Lemma demo_map_repr : map_repr demo_map {[4 := 40; 5 := 50]}.
Proof. split; [by split|by apply (bool_decide_unpack _); vm_compute|by vm_compute]. Qed.

Lemma map_refines_witness :
  map_value (map_find 5 demo_map) demo_map = Some 50 /\ map_find 6 demo_map = q_end demo_map.
Proof.
  split.
  - exact (proj1 (proj2 (map_refines demo_map {[4 := 40; 5 := 50]} 5 0 demo_map_repr eq_refl))).
  - exact (proj1 (map_refines demo_map {[4 := 40; 5 := 50]} 6 0 demo_map_repr eq_refl)).
Defined.

Lemma map_full_hides_front_witness :
  map_find 4 (mkCQ 2 3 [(5, 50); (6, 60); (4, 40)] : Map Z Z) = q_end (mkCQ 2 3 [(5, 50); (6, 60); (4, 40)]).
Proof. apply (map_full_hides_front _ 4 40 [(5, 50); (6, 60)]); [by split|reflexivity|reflexivity]. Defined.

Lemma pool_no_double_allocation_witness :
  fst (pool_allocate (Pool_new 3)) = Some 2 /\ 2 ∉ (∅ : gset Z).
Proof.
  split; [reflexivity|].
  exact (proj1 (proj1 (pool_no_double_allocation (Pool_new 3) ∅ (pool_new_repr 3)))).
Defined.
