(* ===== verification/SpaceAlloc.v ===== *)
(** * Allocation of small numbers

    The bit arrays of [libs/utilities/include/bitarray.h] and the allocator of
    numbers built on them ([space_alloc.h], [space_alloc.c]), which numbers the
    file descriptors of a process. *)

From S2P Require Import Prelude.

(** ** Bit arrays

    The memory of a bit array is a list of 32-bit words.  The functions that set,
    clear and test bits take it as an array of [unsigned long], of which they use
    the lower half: bit [b] is bit [b mod 32] of word [2 * (b / 32)].
    [fosBitArrayFindClear] takes it as an array of [unsigned int], so that bit [b]
    is bit [b mod 32] of word [b / 32].  An access outside of the memory is
    undefined. *)

Definition BITARRAY_BITS_PER_INT : Z := 32.
Definition UINT_MAX : Z := 2 ^ 32 - 1.

Abbreviation words := (list Z).

(** The lower half of element [i] of the array of [unsigned long]. *)
Definition long_low (bitarray : words) (i : Z) : option Z :=
  if (2 * i + 1 <? Z.of_nat (length bitarray)) then bitarray !! Z.to_nat (2 * i) else None.

Definition fosBitArrayIsSet (bitarray : words) (bit : Z) : option bool :=
  (fun w => Z.testbit w (bit mod BITARRAY_BITS_PER_INT)) <$> long_low bitarray (bit / BITARRAY_BITS_PER_INT).
Definition fosBitArrayIsClear (bitarray : words) (bit : Z) : option bool :=
  negb <$> fosBitArrayIsSet bitarray bit.

Definition CREATE_MASK (bit : Z) : Z := Z.shiftl 1 (bit mod BITARRAY_BITS_PER_INT).

Definition fosBitArraySet (bitarray : words) (bit : Z) : option words :=
  (fun w => <[Z.to_nat (2 * (bit / BITARRAY_BITS_PER_INT)) := Z.lor w (CREATE_MASK bit)]> bitarray) <$>
    long_low bitarray (bit / BITARRAY_BITS_PER_INT).
Definition fosBitArrayClear (bitarray : words) (bit : Z) : option words :=
  (fun w => <[Z.to_nat (2 * (bit / BITARRAY_BITS_PER_INT)) := Z.land w (Z.lnot (CREATE_MASK bit))]> bitarray) <$>
    long_low bitarray (bit / BITARRAY_BITS_PER_INT).

(** The loop over the masks of a 64-bit value. *)
Fixpoint first_set_loop (n : nat) (index value : Z) : Z :=
  match n with
  | O => BITARRAY_BITS_PER_INT
  | S n' => if Z.testbit value index then index else first_set_loop n' (index + 1) value
  end.
Definition fosBitArrayFindFirstSet (value : Z) : Z := first_set_loop 64 0 value.

Fixpoint find_clear_loop (n : nat) (array_i nbits : Z) (bitarray : words) : option Z :=
  match n with
  | O => Some nbits
  | S n' =>
      w ← bitarray !! Z.to_nat array_i;
      if negb (w =? UINT_MAX)
      then Some (array_i * BITARRAY_BITS_PER_INT + fosBitArrayFindFirstSet (u32 (Z.lnot w)))
      else find_clear_loop n' (array_i + 1) nbits bitarray
  end.
Definition fosBitArrayFindClear (bitarray : words) (nbits : Z) : option Z :=
  find_clear_loop (Z.to_nat (nbits / BITARRAY_BITS_PER_INT)) 0 nbits bitarray.

(** ** The allocator *)

Record SpaceAllocState : Type := mkSpaceAlloc {
  counter : Z;
  bit_array : words;
  array_size : Z;
  expansion_size : Z
}.

Definition LINEAR_COUNTER_DISABLED : Z := UINT_MAX.

Definition set_counter (x : Z) (s : SpaceAllocState) : SpaceAllocState :=
  mkSpaceAlloc x (bit_array s) (array_size s) (expansion_size s).
Definition set_bits (x : words) (s : SpaceAllocState) : SpaceAllocState :=
  mkSpaceAlloc (counter s) x (array_size s) (expansion_size s).

(** [mem] tells whether [malloc] or [realloc] succeeds. *)
Definition spaceAllocInit (mem : bool) (initial_size expansion_size : Z) (always_lowest : bool)
  : M SpaceAllocState Z :=
  assert_ (negb (initial_size =? 0) && (initial_size mod 64 =? 0));;
  assert_ (expansion_size mod 64 =? 0);;
  if negb mem then modify (set_bits []);; mret (-1)
  else
  modify (fun _ => mkSpaceAlloc (if always_lowest then LINEAR_COUNTER_DISABLED else 0)
    (replicate (Z.to_nat (initial_size / 32)) 0) initial_size (expansion_size / 8));;
  mret 0.

(** [spaceAllocExpandTable]: the new part is to be cleared, but
    [new_bit_array + current_bytes] counts in units of eight bytes; the range lies
    in the array only if it starts there. *)
Definition spaceAllocExpandTable (mem : bool) : M SpaceAllocState Z :=
  s ← gets id;
  let current_bytes := array_size s / 8 in
  let new_size := current_bytes + expansion_size s in
  if negb mem then mret (-1)
  else if 8 * current_bytes + expansion_size s <=? new_size
  then
    modify (fun s => mkSpaceAlloc (if counter s =? LINEAR_COUNTER_DISABLED then counter s else u32 (counter s + 1))
      (take (Z.to_nat (current_bytes / 4)) (bit_array s) ++ replicate (Z.to_nat (expansion_size s / 4)) 0)
      (u32 (new_size * 8)) (expansion_size s));;
    mret (i32 (array_size s))
  else undef.

Definition spaceAllocAllocate (mem : bool) : M SpaceAllocState Z :=
  s ← gets id;
  if counter s <? array_size s
  then modify (set_counter (u32 (counter s + 1)));; mret (i32 (counter s))
  else
    assert_ (negb (array_size s =? 0) && (array_size s mod BITARRAY_BITS_PER_INT =? 0));;
    result ← deref (fosBitArrayFindClear (bit_array s) (array_size s));
    if result <? array_size s
    then
      bits ← deref (fosBitArraySet (bit_array s) result);
      modify (set_bits bits);;
      mret result
    else if negb (expansion_size s =? 0) then spaceAllocExpandTable mem
    else mret (-1).

(** The memory is given back: no access is defined any more. *)
Definition spaceAllocDestroy : M SpaceAllocState unit := modify (set_bits []).

Definition spaceAllocRelease (value : Z) : M SpaceAllocState unit :=
  s ← gets id;
  bits ← deref (fosBitArrayClear (bit_array s) value);
  modify (fun s => set_counter (if value =? u32 (counter s - 1) then value else counter s) (set_bits bits s)).

Definition spaceAllocGetSize (s : SpaceAllocState) : Z := array_size s.

Definition spaceAllocIsAllocated (s : SpaceAllocState) (value : Z) : option bool :=
  if value <? array_size s then fosBitArrayIsSet (bit_array s) value else Some false.

(** Several allocations in a row. *)
Fixpoint allocate_many (n : nat) : M SpaceAllocState (list Z) :=
  match n with
  | O => mret []
  | S n' => v ← spaceAllocAllocate true; vs ← allocate_many n'; mret (v :: vs)
  end.

(** ** Bits *)

Lemma first_set_loop_spec n index value :
  (exists j, index <= j < index + Z.of_nat n /\ Z.testbit value j = true) ->
  let r := first_set_loop n index value in
  index <= r < index + Z.of_nat n /\ Z.testbit value r = true /\
  forall j, index <= j < r -> Z.testbit value j = false.
Proof.
  revert index. induction n as [|n IH]; intros index (j & Hj & Hb); [lia|]. cbn [first_set_loop].
  destruct (Z.testbit value index) eqn:Hi; [split; [lia|split; [done|lia]]|].
  assert (j <> index) by congruence. destruct (IH (index + 1)) as (Hr & Hrb & Hrl); [exists j; split; [lia|done]|].
  cbv zeta in *. split; [lia|]. split; [done|]. intros k Hk. destruct (decide (k = index)) as [->|]; [done|].
  apply Hrl. lia.
Qed.

Lemma testbit_u32_lnot w j : 0 <= j < 32 -> Z.testbit (u32 (Z.lnot w)) j = negb (Z.testbit w j).
Proof.
  intros Hj. unfold u32. rewrite Z.mod_pow2_bits_low by lia. by rewrite Z.lnot_spec by lia.
Qed.

Lemma full_word w : 0 <= w < 2 ^ 32 -> (forall j, 0 <= j < 32 -> Z.testbit w j = true) -> w = UINT_MAX.
Proof.
  intros Hw Hall. unfold UINT_MAX. replace (2 ^ 32 - 1) with (Z.ones 32) by done.
  apply Z.bits_inj'. intros n Hn. destruct (decide (n < 32)).
  - rewrite Z.ones_spec_low by lia. apply Hall. lia.
  - rewrite Z.ones_spec_high by lia. apply (testbit_above w 32); lia.
Qed.

Lemma not_full_word w : 0 <= w < 2 ^ 32 -> w <> UINT_MAX -> exists j, 0 <= j < 32 /\ Z.testbit w j = false.
Proof.
  intros Hw Hne. destruct (decide (Exists (fun j => Z.testbit w j = false) (seqZ 0 32))) as [He|He].
  - apply Exists_exists in He as (j & Hj & Hb). apply elem_of_seqZ in Hj. exists j. split; [lia|done].
  - destruct Hne. apply full_word; [done|]. intros j Hj. apply not_false_iff_true. intros Hb. apply He.
    apply Exists_exists. exists j. rewrite elem_of_seqZ. split; [lia|done].
Qed.

(** The first clear bit of a word that is not full. *)
Lemma find_in_word w :
  0 <= w < 2 ^ 32 -> w <> UINT_MAX ->
  let r := fosBitArrayFindFirstSet (u32 (Z.lnot w)) in
  0 <= r < 32 /\ Z.testbit w r = false /\ forall j, 0 <= j < r -> Z.testbit w j = true.
Proof.
  intros Hw Hne. destruct (not_full_word w Hw Hne) as (k & Hk & Hkb). cbv zeta. unfold fosBitArrayFindFirstSet.
  destruct (first_set_loop_spec 64 0 (u32 (Z.lnot w))) as (Hr & Hrb & Hrl).
  { exists k. split; [lia|]. by rewrite testbit_u32_lnot, Hkb by done. }
  cbv zeta in *. set (r := first_set_loop 64 0 _) in *.
  assert (Hr32 : 0 <= r < 32).
  { destruct (decide (r < 32)); [lia|]. specialize (Hrl k). rewrite testbit_u32_lnot, Hkb in Hrl by done. lia. }
  split; [done|]. rewrite testbit_u32_lnot in Hrb by done. split; [by destruct (Z.testbit w r)|].
  intros j Hj. specialize (Hrl j Hj). rewrite testbit_u32_lnot in Hrl by lia. by destruct (Z.testbit w j).
Qed.

Lemma testbit_set w b j :
  0 <= j -> 0 <= b -> Z.testbit (Z.lor w (CREATE_MASK b)) j = (j =? b mod 32) || Z.testbit w j.
Proof.
  intros Hj Hb. unfold CREATE_MASK, BITARRAY_BITS_PER_INT. pose proof (Z.mod_pos_bound b 32 ltac:(lia)).
  rewrite Z.lor_spec, Z.shiftl_1_l, Z.pow2_bits_eqb by lia. rewrite orb_comm. f_equal. lia.
Qed.

Lemma testbit_clear w b j :
  0 <= j -> 0 <= b ->
  Z.testbit (Z.land w (Z.lnot (CREATE_MASK b))) j = negb (j =? b mod 32) && Z.testbit w j.
Proof.
  intros Hj Hb. unfold CREATE_MASK, BITARRAY_BITS_PER_INT. pose proof (Z.mod_pos_bound b 32 ltac:(lia)).
  rewrite Z.land_spec, Z.lnot_spec, Z.shiftl_1_l, Z.pow2_bits_eqb by lia. rewrite andb_comm. do 2 f_equal. lia.
Qed.

Lemma word_range x : (forall n, 32 <= n -> Z.testbit x n = false) -> 0 <= x < 2 ^ 32.
Proof.
  intros Hx. replace x with (x mod 2 ^ 32); [apply Z.mod_pos_bound; lia|].
  apply Z.bits_inj'. intros n Hn. destruct (decide (n < 32)).
  - by rewrite Z.mod_pow2_bits_low by lia.
  - by rewrite Z.mod_pow2_bits_high, Hx by lia.
Qed.

Lemma set_word_range w b : 0 <= b -> 0 <= w < 2 ^ 32 -> 0 <= Z.lor w (CREATE_MASK b) < 2 ^ 32.
Proof.
  intros Hb Hw. apply word_range. intros n Hn. pose proof (Z.mod_pos_bound b 32 ltac:(lia)).
  rewrite testbit_set, (testbit_above w 32) by lia. rewrite orb_false_r. lia.
Qed.

Lemma clear_word_range w b : 0 <= b -> 0 <= w < 2 ^ 32 -> 0 <= Z.land w (Z.lnot (CREATE_MASK b)) < 2 ^ 32.
Proof.
  intros Hb Hw. apply word_range. intros n Hn.
  rewrite testbit_clear, (testbit_above w 32) by lia. by rewrite andb_false_r.
Qed.

(** ** The allocator that gives out the lowest number *)

(** A table made by [spaceAllocInit] with [always_lowest]: the words that the
    functions on single bits never touch are zero. *)
Record lowest_ok (s : SpaceAllocState) : Prop := {
  lo_counter : counter s = LINEAR_COUNTER_DISABLED;
  lo_size : 64 <= array_size s < 2 ^ 31 /\ array_size s mod 64 = 0;
  lo_length : Z.of_nat (length (bit_array s)) = array_size s / 32;
  lo_words w : w ∈ bit_array s -> 0 <= w < 2 ^ 32;
  lo_odd : bit_array s !! 1%nat = Some 0
}.

(** Number [v] is given out. *)
Definition held (s : SpaceAllocState) (v : Z) : Prop := fosBitArrayIsSet (bit_array s) v = Some true.

#[export] Instance held_dec s v : Decision (held s v).
Proof. unfold held. apply _. Defined.

Lemma lowest_init s0 size exp :
  64 <= size < 2 ^ 31 -> size mod 64 = 0 -> exp mod 64 = 0 ->
  wp (spaceAllocInit true size exp true) (fun r s => r = 0 /\ lowest_ok s /\ array_size s = size /\
    forall v, ~ held s v) s0.
Proof.
  intros Hs Hm He. unfold spaceAllocInit. apply wp_bind, wp_assert; [lia|]. apply wp_bind, wp_assert; [lia|].
  cbn [negb]. apply wp_bind, wp_modify, wp_ret. split; [done|]. pose proof (Z.div_mod size 64). split; [|split; [done|]].
  - split; simpl; [done|lia| | |].
    + rewrite length_replicate. pose proof (Z.div_pos size 32). lia.
    + intros w [-> _]%elem_of_replicate. lia.
    + apply lookup_replicate_2. assert (2 <= size / 32) by (apply Z.div_le_lower_bound; lia). lia.
  - intros v. unfold held, fosBitArrayIsSet, long_low. simpl. case_match; [|done].
    destruct (replicate _ 0 !! _) as [w|] eqn:Hw; [|done]. apply lookup_replicate_1 in Hw as [-> _].
    simpl. by rewrite Z.testbit_0_l.
Qed.

Lemma long_low_insert bits k x i :
  0 <= k -> 0 <= i -> 2 * k + 1 < Z.of_nat (length bits) ->
  long_low (<[Z.to_nat (2 * k) := x]> bits) i = if decide (i = k) then Some x else long_low bits i.
Proof.
  intros Hk Hi Hl. unfold long_low. rewrite length_insert. case_decide as Hd.
  - subst. rewrite (proj2 (Z.ltb_lt _ _)) by lia. apply list_lookup_insert_eq. lia.
  - case_match; [|done]. apply list_lookup_insert_ne. lia.
Qed.

Lemma same_bit v b : 0 <= v -> 0 <= b -> v / 32 = b / 32 -> (v mod 32 =? b mod 32) = (v =? b).
Proof.
  intros Hv Hb He. pose proof (Z.div_mod v 32). pose proof (Z.div_mod b 32).
  destruct (Z.eqb_spec v b) as [->|Hne]; [by rewrite Z.eqb_refl|]. apply Z.eqb_neq. lia.
Qed.

(** Changing one bit by [f], a function of the word. *)
Section Update.
Variable bits : words.
Variable b : Z.
Hypothesis Hb : 0 <= b.
Hypothesis Hlen : 2 * (b / 32) + 1 < Z.of_nat (length bits).
Hypothesis Hwords : forall w, w ∈ bits -> 0 <= w < 2 ^ 32.
Variable f : Z -> Z.
Variable g : bool -> bool -> bool.
Hypothesis Hf : forall w j, 0 <= j -> Z.testbit (f w) j = g (j =? b mod 32) (Z.testbit w j).
Hypothesis Hg : forall x, g false x = x.
Hypothesis Hrange : forall w, 0 <= w < 2 ^ 32 -> 0 <= f w < 2 ^ 32.

Lemma update_bit :
  exists w, long_low bits (b / 32) = Some w /\
  let bits' := <[Z.to_nat (2 * (b / 32)) := f w]> bits in
  length bits' = length bits /\
  (forall v, 0 <= v -> fosBitArrayIsSet bits' v = g (v =? b) <$> fosBitArrayIsSet bits v) /\
  (forall i, Nat.odd i = true -> bits' !! i = bits !! i) /\
  (forall w, w ∈ bits' -> 0 <= w < 2 ^ 32).
Proof using All.
  assert (Hd : 0 <= b / 32) by (apply Z.div_pos; lia).
  destruct (lookup_lt_is_Some_2 bits (Z.to_nat (2 * (b / 32)))) as [w Hw]; [lia|].
  exists w. unfold long_low at 1. rewrite (proj2 (Z.ltb_lt _ _)) by lia. split; [done|]. cbv zeta.
  split; [apply length_insert|]. split; [|split].
  - intros v Hv. unfold fosBitArrayIsSet, BITARRAY_BITS_PER_INT.
    assert (0 <= v / 32) by (apply Z.div_pos; lia). rewrite long_low_insert by done.
    pose proof (Z.mod_pos_bound v 32 ltac:(lia)). case_decide as He.
    + unfold long_low. rewrite He, (proj2 (Z.ltb_lt _ _)), Hw by lia. simpl.
      rewrite Hf by lia. by rewrite same_bit.
    + replace (v =? b) with false by (symmetry; apply Z.eqb_neq; congruence).
      destruct (long_low bits (v / 32)); [|done]. simpl. by rewrite Hg.
  - intros i Hi. apply list_lookup_insert_ne. intros <-. rewrite Z2Nat.inj_mul in Hi by lia.
    change (Z.to_nat 2) with 2%nat in Hi. rewrite Nat.odd_mul in Hi. done.
  - intros x Hx. apply list_elem_of_lookup in Hx as [i Hi]. apply list_lookup_insert_Some in Hi.
    destruct Hi as [(_ & <- & _)|[_ Hi]]; [apply Hrange, Hwords|apply Hwords]; by eapply list_elem_of_lookup_2.
Qed.
End Update.

Lemma set_bit bits b :
  0 <= b -> 2 * (b / 32) + 1 < Z.of_nat (length bits) -> (forall w, w ∈ bits -> 0 <= w < 2 ^ 32) ->
  exists bits', fosBitArraySet bits b = Some bits' /\ length bits' = length bits /\
  (forall v, 0 <= v -> fosBitArrayIsSet bits' v = orb (v =? b) <$> fosBitArrayIsSet bits v) /\
  (forall i, Nat.odd i = true -> bits' !! i = bits !! i) /\
  (forall w, w ∈ bits' -> 0 <= w < 2 ^ 32).
Proof.
  intros Hb Hl Hw. destruct (update_bit bits b Hb Hl Hw (fun w => Z.lor w (CREATE_MASK b)) orb) as (w & Hlow & Hr).
  - intros w j Hj. by apply testbit_set.
  - done.
  - intros w. by apply set_word_range.
  - eexists. unfold fosBitArraySet, BITARRAY_BITS_PER_INT. by rewrite Hlow.
Qed.

Lemma clear_bit bits b :
  0 <= b -> 2 * (b / 32) + 1 < Z.of_nat (length bits) -> (forall w, w ∈ bits -> 0 <= w < 2 ^ 32) ->
  exists bits', fosBitArrayClear bits b = Some bits' /\ length bits' = length bits /\
  (forall v, 0 <= v -> fosBitArrayIsSet bits' v = andb (negb (v =? b)) <$> fosBitArrayIsSet bits v) /\
  (forall i, Nat.odd i = true -> bits' !! i = bits !! i) /\
  (forall w, w ∈ bits' -> 0 <= w < 2 ^ 32).
Proof.
  intros Hb Hl Hw. destruct (update_bit bits b Hb Hl Hw (fun w => Z.land w (Z.lnot (CREATE_MASK b)))
    (fun x y => negb x && y)) as (w & Hlow & Hr).
  - intros w j Hj. by apply testbit_clear.
  - done.
  - intros w. by apply clear_word_range.
  - eexists. unfold fosBitArrayClear, BITARRAY_BITS_PER_INT. by rewrite Hlow.
Qed.

(** The first word tells which of the first 32 numbers are given out. *)
Lemma held_low s w v :
  lowest_ok s -> bit_array s !! 0%nat = Some w -> 0 <= v < 32 -> held s v <-> Z.testbit w v = true.
Proof.
  intros Hok Hw Hv. unfold held, fosBitArrayIsSet, BITARRAY_BITS_PER_INT, long_low.
  rewrite Z.div_small, Z.mod_small by lia. pose proof (lookup_lt_Some _ _ _ (lo_odd s Hok)).
  rewrite (proj2 (Z.ltb_lt _ _)) by lia. change (Z.to_nat (2 * 0)) with 0%nat. rewrite Hw. split; [by intros [=]|simpl; by intros ->].
Qed.

Lemma lowest_ok_bits s bits :
  lowest_ok s -> length bits = length (bit_array s) -> (forall w, w ∈ bits -> 0 <= w < 2 ^ 32) ->
  (forall i, Nat.odd i = true -> bits !! i = bit_array s !! i) -> lowest_ok (set_bits bits s).
Proof. intros [] Hl Hw Ho. split; simpl; rewrite ?Hl, ?Ho by done; done. Qed.

(** ** What is given out *)

Lemma find_clear_first s w :
  lowest_ok s -> bit_array s !! 0%nat = Some w ->
  fosBitArrayFindClear (bit_array s) (array_size s) =
    Some (if w =? UINT_MAX then 32 else fosBitArrayFindFirstSet (u32 (Z.lnot w))).
Proof.
  intros Hok Hw. unfold fosBitArrayFindClear, BITARRAY_BITS_PER_INT.
  assert (2 <= array_size s / 32) by (destruct (lo_size s Hok); apply Z.div_le_lower_bound; lia).
  destruct (Z.to_nat (array_size s / 32)) as [|[|n]] eqn:Hn; [lia|lia|]. cbn [find_clear_loop].
  change (Z.to_nat 0) with 0%nat. change (Z.to_nat (0 + 1)) with 1%nat. rewrite Hw, (lo_odd s Hok).
  cbn [mbind option_bind]. by destruct (Z.eqb_spec w UINT_MAX).
Qed.

(** The step that takes number [r] off the table. *)
Lemma allocate_step mem s w r :
  lowest_ok s -> bit_array s !! 0%nat = Some w ->
  r = (if w =? UINT_MAX then 32 else fosBitArrayFindFirstSet (u32 (Z.lnot w))) ->
  0 <= r -> 2 * (r / 32) + 1 < array_size s / 32 ->
  wp (spaceAllocAllocate mem) (fun v s' => v = r /\ lowest_ok s' /\ array_size s' = array_size s /\
    forall j, 0 <= j -> 2 * (j / 32) + 1 < array_size s / 32 -> (held s' j <-> j = r \/ held s j)) s.
Proof.
  intros Hok Hw Hr Hr0 Hrl. pose proof Hok as [Hc Hs Hl Hwords _]. unfold spaceAllocAllocate.
  apply wp_bind, wp_gets. cbv beta. unfold id. rewrite Hc. unfold LINEAR_COUNTER_DISABLED, UINT_MAX.
  rewrite (proj2 (Z.ltb_ge _ _)) by lia. pose proof (Z.div_mod (array_size s) 64).
  apply wp_bind, wp_assert.
  { unfold BITARRAY_BITS_PER_INT. rewrite andb_true_iff. split; [lia|]. apply Z.eqb_eq.
    replace (array_size s) with (array_size s / 64 * 2 * 32) by lia. apply Z.mod_mul. lia. }
  apply wp_bind. rewrite (find_clear_first s w), <- Hr by done. apply (wp_deref _ r); [done|].
  assert (r < array_size s).
  { pose proof (Z.div_mod r 32). pose proof (Z.mod_pos_bound r 32). pose proof (Z.div_mod (array_size s) 32).
    pose proof (Z.mod_pos_bound (array_size s) 32). assert (0 <= r / 32) by (apply Z.div_pos; lia). lia. }
  rewrite (proj2 (Z.ltb_lt _ _)) by done.
  destruct (set_bit (bit_array s) r) as (bits & Hset & Hlen & Hbits & Hodd & Hw'); [done|lia|done|].
  apply wp_bind, (wp_deref _ bits); [done|]. apply wp_bind, wp_modify, wp_ret. split; [done|].
  split; [by apply lowest_ok_bits|]. split; [done|]. intros j Hj Hjl. unfold held. simpl. rewrite Hbits by done.
  assert (0 <= j / 32) by (apply Z.div_pos; lia).
  destruct (lookup_lt_is_Some_2 (bit_array s) (Z.to_nat (2 * (j / 32)))) as [x Hx]; [lia|].
  unfold fosBitArrayIsSet, long_low, BITARRAY_BITS_PER_INT.
  rewrite (proj2 (Z.ltb_lt _ _)), Hx by lia. simpl. destruct (Z.eqb_spec j r); simpl.
  - split; [by left|done].
  - split; [by right|by intros [?|?]].
Qed.

(** As long as one of the first 32 numbers is free, the allocator gives out
    the lowest free one, marks it, and changes the mark of no other number. *)
Lemma allocate_lowest mem s :
  lowest_ok s -> (exists v, 0 <= v < 32 /\ ~ held s v) ->
  wp (spaceAllocAllocate mem) (fun v s' => 0 <= v < 32 /\ ~ held s v /\ (forall j, 0 <= j < v -> held s j) /\
    lowest_ok s' /\ array_size s' = array_size s /\
    forall j, 0 <= j < array_size s / 2 -> (held s' j <-> j = v \/ held s j)) s.
Proof.
  intros Hok (v0 & Hv0 & Hfree). pose proof (lookup_lt_Some _ _ _ (lo_odd s Hok)) as Hl1.
  destruct (lookup_lt_is_Some_2 (bit_array s) 0) as [w Hw]; [lia|].
  assert (Hwr : 0 <= w < 2 ^ 32) by (apply (lo_words s Hok); by eapply list_elem_of_lookup_2).
  assert (Hne : w <> UINT_MAX).
  { intros ->. apply Hfree, (held_low s UINT_MAX); [done|done|done|].
    change UINT_MAX with (Z.ones 32). by apply Z.ones_spec_low. }
  pose proof (find_in_word w Hwr Hne) as (Hr & Hrb & Hrl). cbv zeta in *. set (r := fosBitArrayFindFirstSet _) in *.
  pose proof (lo_size s Hok) as [Hs1 Hs2]. assert (2 <= array_size s / 32) by (apply Z.div_le_lower_bound; lia).
  eapply wp_mono; [apply (allocate_step _ s w r); [done|done| |lia|]|].
  - by rewrite (proj2 (Z.eqb_neq _ _)).
  - rewrite Z.div_small by lia. lia.
  - cbv beta. intros v s' (-> & Hok' & Hsz & Hh). split; [done|].
    split; [rewrite (held_low s w) by done; congruence|].
    split; [intros j Hj; apply (held_low s w); [done|done|lia|by apply Hrl]|]. split; [done|]. split; [done|].
    intros j Hj. apply Hh; [lia|]. pose proof (Z.div_mod (array_size s) 64).
    replace (array_size s / 2) with (array_size s / 64 * 32) in Hj.
    2: { replace (array_size s) with (array_size s / 64 * 32 * 2) at 2 by lia. by rewrite Z.div_mul. }
    replace (array_size s / 32) with (array_size s / 64 * 2).
    2: { replace (array_size s) with (array_size s / 64 * 2 * 32) at 2 by lia. by rewrite Z.div_mul. }
    assert (j / 32 < array_size s / 64) by (apply Z.div_lt_upper_bound; lia). lia.
Qed.

(** Once the first 32 numbers are given out, every allocation gives out the
    number 32, however many of them there are. *)
Theorem allocate_stuck_at_32 n s :
  lowest_ok s -> 128 <= array_size s -> (forall v, 0 <= v < 32 -> held s v) ->
  wp (allocate_many n) (fun vs _ => vs = replicate n 32) s.
Proof.
  revert s. induction n as [|n IH]; intros s Hok Hs Hall; [by apply wp_ret|]. cbn [allocate_many].
  pose proof (lookup_lt_Some _ _ _ (lo_odd s Hok)) as Hl1.
  destruct (lookup_lt_is_Some_2 (bit_array s) 0) as [w Hw]; [lia|].
  assert (Hfull : w = UINT_MAX).
  { apply full_word; [apply (lo_words s Hok); by eapply list_elem_of_lookup_2|].
    intros j Hj. by apply (held_low s w), Hall. }
  assert (4 <= array_size s / 32) by (apply Z.div_le_lower_bound; lia).
  apply wp_bind. eapply wp_mono; [apply (allocate_step _ s w 32); [done|done|by rewrite Hfull|lia|]|].
  - change (32 / 32) with 1. lia.
  - cbv beta. intros v s' (-> & Hok' & Hsz & Hh). apply wp_bind. eapply wp_mono.
    { apply IH; [done|by rewrite Hsz|]. intros j Hj. apply Hh; [lia| |by right; apply Hall].
      rewrite Z.div_small by lia. lia. }
    cbv beta. intros vs s'' ->. by apply wp_ret.
Qed.

(** Releasing a number frees it and no other. *)
Lemma release_frees s v :
  lowest_ok s -> 0 <= v < array_size s / 2 ->
  wp (spaceAllocRelease v) (fun _ s' => lowest_ok s' /\ array_size s' = array_size s /\
    forall j, 0 <= j < array_size s / 2 -> (held s' j <-> j <> v /\ held s j)) s.
Proof.
  intros Hok Hv. pose proof Hok as [Hc Hs Hl Hwords _]. unfold spaceAllocRelease. apply wp_bind, wp_gets.
  unfold id. cbv beta. pose proof (Z.div_mod (array_size s) 64).
  assert (He2 : array_size s / 2 = array_size s / 64 * 32).
  { replace (array_size s) with (array_size s / 64 * 32 * 2) at 1 by lia. by rewrite Z.div_mul. }
  assert (He32 : array_size s / 32 = array_size s / 64 * 2).
  { replace (array_size s) with (array_size s / 64 * 2 * 32) at 1 by lia. by rewrite Z.div_mul. }
  assert (Hrow : forall j, 0 <= j < array_size s / 2 -> 2 * (j / 32) + 1 < array_size s / 32).
  { intros j Hj. assert (j / 32 < array_size s / 64) by (apply Z.div_lt_upper_bound; lia). lia. }
  destruct (clear_bit (bit_array s) v) as (bits & Hset & Hlen & Hbits & Hodd & Hw');
    [lia|rewrite Hl; by apply Hrow|done|].
  apply wp_bind, (wp_deref _ bits); [done|]. apply wp_modify. split.
  - pose proof (lowest_ok_bits s bits Hok Hlen Hw' Hodd) as []. split; simpl in *; try done.
    rewrite Hc. unfold LINEAR_COUNTER_DISABLED, UINT_MAX. rewrite (proj2 (Z.eqb_neq _ _)); [done|].
    unfold u32. rewrite Z.mod_small by lia. lia.
  - split; [done|]. intros j Hj. unfold held. simpl. rewrite Hbits by lia. assert (0 <= j / 32) by (apply Z.div_pos; lia).
    specialize (Hrow j Hj).
    destruct (lookup_lt_is_Some_2 (bit_array s) (Z.to_nat (2 * (j / 32)))) as [x Hx]; [lia|].
    unfold fosBitArrayIsSet, long_low, BITARRAY_BITS_PER_INT.
    rewrite (proj2 (Z.ltb_lt _ _)), Hx by lia. simpl. destruct (Z.eqb_spec j v); simpl.
    + split; [done|by intros [? _]].
    + split; [by split|by intros [_ ?]].
Qed.

(** With the counter enabled, the numbers it gives out are not marked; when
    it has reached the end, numbers that are in use are given out again. *)
Theorem counter_forgets :
  match (spaceAllocInit true 64 64 false;; allocate_many 65) (mkSpaceAlloc 0 [] 0 0) with
  | Done vs s => vs = seqZ 0 64 ++ [0]
  | _ => False
  end.
Proof. vm_compute. reflexivity. Qed.

(** ** Demonstration *)

(** A table of 1024 numbers, as [libs/fd/fd.c] makes it, after [n] allocations. *)
Definition demo_table (n : nat) : SpaceAllocState :=
  match (spaceAllocInit true 1024 1024 true;; allocate_many n) (mkSpaceAlloc 0 [] 0 0) with
  | Done _ s => s
  | _ => mkSpaceAlloc 0 [] 0 0
  end.

Definition lowest_okb (s : SpaceAllocState) : bool :=
  (counter s =? LINEAR_COUNTER_DISABLED) && (64 <=? array_size s) && (array_size s <? 2 ^ 31) &&
  (array_size s mod 64 =? 0) && (Z.of_nat (length (bit_array s)) =? array_size s / 32) &&
  forallb (fun w => (0 <=? w) && (w <? 2 ^ 32)) (bit_array s) && bool_decide (bit_array s !! 1%nat = Some 0).

Lemma lowest_okb_ok s : lowest_okb s = true -> lowest_ok s.
Proof.
  unfold lowest_okb. rewrite !andb_true_iff, forallb_forall, bool_decide_eq_true.
  intros ((((((Hc & Hs1) & Hs2) & Hm) & Hl) & Hw) & Ho). split; [lia|lia|lia| |done].
  intros w Hin. apply list_elem_of_In, Hw in Hin. lia.
Qed.

Lemma allocate_stuck_at_32_witness :
  wp (allocate_many 3) (fun vs _ => vs = [32; 32; 32]) (demo_table 32).
Proof.
  apply (allocate_stuck_at_32 3 (demo_table 32)).
  - apply lowest_okb_ok. vm_compute. reflexivity.
  - vm_compute. done.
  - intros v Hv. assert (Hall : Forall (held (demo_table 32)) (seqZ 0 32)).
    { apply (bool_decide_unpack _). vm_compute. done. }
    rewrite Forall_forall in Hall. apply Hall, elem_of_seqZ. lia.
Defined.
