(* ===== verification/FdTable.v ===== *)
(** * File descriptors of a process

    [libs/fd/fd.c]: the table of open files, with entries that several
    descriptors share, and the map that keeps the descriptors of the file system
    apart from those of the operating system. *)

From S2P Require Import Prelude SpaceAlloc.

Definition EXPANSION_SIZE : Z := 1024.
Definition EBADF : Z := 9.
Definition ENOMEM : Z := 12.

(** ** Entries and table

    [file_ops] and [private_data] are pointers the table only passes on. *)
Record FosFDEntry : Type := mkFDEntry {
  e_fd : Z;
  num_fd : Z;
  status_flags : Z;
  file_ops : Z;
  private_data : Z
}.

(** An element of the array of pointers: [Indet] is memory that [realloc] has
    added and nobody has written. *)
Inductive slot : Type := Null | Ptr (a : Z) | Indet.

#[export] Instance slot_eq_dec : EqDecision slot.
Proof. solve_decision. Defined.

(** The entries live in a heap, as several slots of the table may point to one.
    [t_calls] counts the points at which memory may have been asked for. *)
Record FosFDTable : Type := mkFDTable {
  once_only_fds : Z;
  fd_entries : list slot;
  alloc_state : SpaceAllocState;
  heap : gmap Z FosFDEntry;
  next_addr : Z;
  t_calls : nat
}.

Definition set_once_only (x : Z) (t : FosFDTable) :=
  mkFDTable x (fd_entries t) (alloc_state t) (heap t) (next_addr t) (t_calls t).
Definition set_entries (x : list slot) (t : FosFDTable) :=
  mkFDTable (once_only_fds t) x (alloc_state t) (heap t) (next_addr t) (t_calls t).
Definition set_alloc_state (x : SpaceAllocState) (t : FosFDTable) :=
  mkFDTable (once_only_fds t) (fd_entries t) x (heap t) (next_addr t) (t_calls t).
Definition set_heap (x : gmap Z FosFDEntry) (t : FosFDTable) :=
  mkFDTable (once_only_fds t) (fd_entries t) (alloc_state t) x (next_addr t) (t_calls t).
Definition set_next_addr (x : Z) (t : FosFDTable) :=
  mkFDTable (once_only_fds t) (fd_entries t) (alloc_state t) (heap t) x (t_calls t).
Definition set_calls (x : nat) (t : FosFDTable) :=
  mkFDTable (once_only_fds t) (fd_entries t) (alloc_state t) (heap t) (next_addr t) x.

Section Table.
(** Whether memory is granted at the [n]-th such point; the [close] function
    of a set of operations, where there is one. *)
Variable mem : nat -> bool.
Variable close : Z -> option (Z -> M FosFDTable Z).

Definition granted : M FosFDTable bool :=
  n ← gets t_calls; modify (set_calls (S n));; mret (mem n).

Definition on_alloc {A} (m : M SpaceAllocState A) : M FosFDTable A := zoom alloc_state set_alloc_state m.

(** A slot of the array; outside of it the access is undefined. *)
Definition get_slot (fd : Z) : M FosFDTable (option Z) :=
  es ← gets fd_entries;
  if fd <? 0 then undef
  else match es !! Z.to_nat fd with
       | Some Null => mret None
       | Some (Ptr a) => mret (Some a)
       | Some Indet | None => undef
       end.
Definition set_slot (fd : Z) (o : slot) : M FosFDTable unit :=
  es ← gets fd_entries;
  if (0 <=? fd) && (fd <? Z.of_nat (length es)) then modify (set_entries (<[Z.to_nat fd := o]> es)) else undef.

Definition get_entry (a : Z) : M FosFDTable FosFDEntry := h ← gets heap; deref (h !! a).
Definition put_entry (a : Z) (e : FosFDEntry) : M FosFDTable unit :=
  modify (fun t => set_heap (<[a := e]> (heap t)) t).

(** [malloc] of an entry: its address. *)
Definition new_entry : M FosFDTable (option Z) :=
  ok ← granted;
  if (ok : bool)
  then
    a ← gets next_addr;
    modify (set_next_addr (a + 1));;
    put_entry a (mkFDEntry 0 0 0 0 0);;
    mret (Some a)
  else mret None.

Definition with_num_fd (n : Z) (e : FosFDEntry) : FosFDEntry :=
  mkFDEntry (e_fd e) n (status_flags e) (file_ops e) (private_data e).

(** ** Operations *)

(** [realloc] keeps what fits; the part from [old_size] on, the end of the
    allocator's range, is cleared. *)
Definition fdExpandTable : M FosFDTable Z :=
  old_size ← gets (fun t => spaceAllocGetSize (alloc_state t));
  ok ← granted;
  if (ok : bool)
  then
    modify (fun t => set_entries
      (resize (Z.to_nat old_size) Indet (fd_entries t) ++ replicate (Z.to_nat EXPANSION_SIZE) Null) t);;
    mret 0
  else mret (- ENOMEM).

Definition fdFindUnusedFD : M FosFDTable Z :=
  pre_alloc_size ← gets (fun t => spaceAllocGetSize (alloc_state t));
  ok ← granted;
  result ← on_alloc (spaceAllocAllocate ok);
  if pre_alloc_size <=? result
  then
    expand_result ← fdExpandTable;
    if expand_result <? 0 then on_alloc (spaceAllocRelease result);; mret expand_result
    else mret result
  else mret result.

Definition fdInitialize : M FosFDTable Z :=
  modify (fun t => mkFDTable 0 [] (mkSpaceAlloc 0 [] 0 0) (heap t) (next_addr t) (t_calls t));;
  ok ← granted;
  result ← on_alloc (spaceAllocInit ok EXPANSION_SIZE EXPANSION_SIZE true);
  if negb (result =? 0) then mret result
  else
    ok ← granted;
    if (ok : bool) then modify (set_entries (replicate (Z.to_nat EXPANSION_SIZE) Null));; mret 0
    else on_alloc spaceAllocDestroy;; mret (- ENOMEM).

Definition fdCreate (ops data flags : Z) : M FosFDTable (Z * option Z) :=
  assert_ (negb (ops =? 0));;
  o ← new_entry;
  match o with
  | None => mret (- ENOMEM, None)
  | Some a =>
      fd ← fdFindUnusedFD;
      if fd <? 0
      then modify (fun t => set_heap (delete a (heap t)) t);; mret (fd, None)
      else
        set_slot fd (Ptr a);;
        put_entry a (mkFDEntry fd 1 flags ops data);;
        mret (fd, Some a)
  end.

Definition fdFlatten (fd entry data : Z) : M FosFDTable unit :=
  e ← get_entry entry;
  assert_ (1 <? num_fd e);;
  put_entry entry (with_num_fd (num_fd e - 1) e);;
  o ← new_entry;
  match o with
  | None => abort
  | Some a =>
      set_slot fd (Ptr a);;
      put_entry a (mkFDEntry fd 1 (status_flags e) (file_ops e) data)
  end.

Definition fdFree (entry : Z) : M FosFDTable unit :=
  e ← get_entry entry;
  if num_fd e <=? 1
  then modify (fun t => set_heap (delete entry (heap t)) t)
  else put_entry entry (with_num_fd (num_fd e - 1) e).

Definition fdDestroy (fd : Z) : M FosFDTable Z :=
  s ← gets alloc_state;
  if (fd <? 0) || (spaceAllocGetSize s <=? fd) then mret (- EBADF)
  else
    b ← deref (spaceAllocIsAllocated s fd);
    if negb b then mret (- EBADF)
    else
      o ← get_slot fd;
      match o with
      | None => abort
      | Some entry =>
          set_slot fd Null;;
          once ← gets once_only_fds;
          (if (BITARRAY_BITS_PER_INT <=? fd) || negb (Z.testbit once fd)
           then on_alloc (spaceAllocRelease fd) else mret tt);;
          fdFree entry;;
          mret 0
      end.

Definition fdGet (fd : Z) : M FosFDTable (option Z) :=
  s ← gets alloc_state;
  if (fd <? 0) || (spaceAllocGetSize s <=? fd) then mret None
  else
    o ← get_slot fd;
    match o with
    | None => mret None
    | Some a => e ← get_entry a; assert_ (negb (file_ops e =? 0));; mret (Some a)
    end.

Fixpoint close_loop (n : nat) (fd_i : Z) : M FosFDTable unit :=
  match n with
  | O => mret tt
  | S n' =>
      o ← get_slot fd_i;
      match o with
      | Some a =>
          e ← get_entry a;
          match close (file_ops e) with Some f => f a;; mret tt | None => mret tt end
      | None => mret tt
      end;;
      close_loop n' (fd_i + 1)
  end.
Definition fdCloseAll : M FosFDTable unit :=
  max_fd ← gets (fun t => spaceAllocGetSize (alloc_state t));
  close_loop (Z.to_nat max_fd) 0.

Definition fdOnceOnly (fd : Z) : M FosFDTable unit :=
  assert_ ((0 <=? fd) && (fd <? BITARRAY_BITS_PER_INT));;
  modify (fun t => set_once_only (Z.lor (once_only_fds t) (CREATE_MASK fd)) t).

Definition fdDuplicate (file newfd : Z) : M FosFDTable Z :=
  s ← gets alloc_state;
  newfd ← (if newfd <? 0 then fdFindUnusedFD
           else if spaceAllocGetSize s <=? newfd then fdExpandTable;; mret newfd
           else mret newfd);
  o ← get_slot newfd;
  match o with Some entry => fdFree entry | None => mret tt end;;
  e ← get_entry file;
  put_entry file (with_num_fd (num_fd e + 1) e);;
  set_slot newfd (Ptr file);;
  mret newfd.
End Table.

(** ** The map of descriptors

    [fd_map] has [CONFIG_FD_COUNT] elements, a number of the configuration.  An
    access outside of it is undefined. *)

Definition INT32_MAX : Z := 2 ^ 31 - 1.

Abbreviation fd_map := (list Z).

Definition map_at (fd : Z) : M fd_map Z :=
  m ← gets id; if fd <? 0 then undef else deref ((m : fd_map) !! Z.to_nat fd).
Definition map_set (fd v : Z) : M fd_map unit :=
  m ← gets id;
  if (0 <=? fd) && (fd <? Z.of_nat (length (m : fd_map))) then modify (fun m : fd_map => <[Z.to_nat fd := v]> m)
  else undef.

Definition fdIsMapped (fd : Z) : M fd_map bool := v ← map_at fd; mret (negb (v =? INT32_MAX)).

(** The search for a free element, which both additions do. *)
Fixpoint first_unmapped (n : nat) (i : Z) : M fd_map Z :=
  match n with
  | O => abort
  | S n' => v ← map_at i; if v =? INT32_MAX then mret i else first_unmapped n' (i + 1)
  end.
Definition fdAddInternal (fd : Z) : M fd_map Z :=
  n ← gets length; i ← first_unmapped n 0; map_set i (i32 (fd + 1));; mret i.
Definition fdAddExternal (fd : Z) : M fd_map Z :=
  n ← gets length; i ← first_unmapped n 0; map_set i (i32 (-1 * fd - 1));; mret i.
Definition fdSetInternal (fd internalfd : Z) : M fd_map unit := map_set fd (i32 (internalfd + 1)).
Definition fdSetExternal (fd externalfd : Z) : M fd_map unit := map_set fd (i32 (-1 * externalfd - 1)).
Definition fdRemove (fd : Z) : M fd_map unit := map_set fd INT32_MAX.
Definition fdIsInternal (fd : Z) : M fd_map bool :=
  v ← map_at fd; mret ((0 <? v) && negb (v =? INT32_MAX)).
Definition fdIsExternal (fd : Z) : M fd_map bool :=
  v ← map_at fd; mret ((v <? 0) && negb (v =? INT32_MAX)).
Definition fdInt (fd : Z) : M fd_map Z :=
  v ← map_at fd; assert_ (0 <? v);; assert_ (negb (v =? INT32_MAX));; mret (v - 1).
Definition fdExt (fd : Z) : M fd_map Z :=
  v ← map_at fd; if v =? INT32_MAX then mret fd else mret ((v + 1) * -1).

(** ** Reference counts *)

(** The number of slots that point to entry [a]. *)
Definition refs (a : Z) (es : list slot) : Z := Z.of_nat (length (filter (fun s => s = Ptr a) es)).

(** What a slot adds to the count of [a]. *)
Definition weight (a : Z) (s : slot) : Z := if decide (s = Ptr a) then 1 else 0.

Lemma refs_cons a s es : refs a (s :: es) = weight a s + refs a es.
Proof. unfold refs, weight. rewrite filter_cons. case_decide; simpl; lia. Qed.

Lemma refs_insert a es i old new :
  es !! i = Some old -> refs a (<[i := new]> es) = refs a es - weight a old + weight a new.
Proof.
  revert i. induction es as [|s es IH]; intros [|i] Hi; simplify_eq/=; rewrite !refs_cons.
  - lia.
  - rewrite IH by done. lia.
Qed.

Lemma refs_nonneg a es : 0 <= refs a es.
Proof. unfold refs. lia. Qed.

Lemma refs_pos a es i : es !! i = Some (Ptr a) -> 0 < refs a es.
Proof.
  intros Hi. pose proof (refs_insert a es i _ Null Hi) as Hr. pose proof (refs_nonneg a (<[i := Null]> es)).
  unfold weight in Hr. rewrite decide_True, decide_False in Hr by done. lia.
Qed.

Lemma refs_replicate a n : refs a (replicate n Null) = 0.
Proof. induction n as [|n IH]; [done|]. cbn [replicate]. by rewrite refs_cons, IH. Qed.

(** Every entry counts the slots that point to it and lives as long as there is
    one; no slot points to memory that has been given back. *)
Definition counted (es : list slot) (h : gmap Z FosFDEntry) : Prop :=
  forall a, match h !! a with
            | Some e => num_fd e = refs a es /\ 0 < refs a es /\ file_ops e <> 0
            | None => refs a es = 0
            end.

Record table_ok (t : FosFDTable) : Prop := {
  to_alloc : lowest_ok (alloc_state t);
  to_size : array_size (alloc_state t) = EXPANSION_SIZE;
  to_length : length (fd_entries t) = Z.to_nat EXPANSION_SIZE;
  to_init i : fd_entries t !! i <> Some Indet;
  to_counted : counted (fd_entries t) (heap t);
  to_next a : next_addr t <= a -> heap t !! a = None;
  to_open fd a : 0 <= fd -> fd_entries t !! Z.to_nat fd = Some (Ptr a) -> fd < 32 /\ held (alloc_state t) fd;
  to_held fd : 0 <= fd < 512 -> held (alloc_state t) fd ->
    fd < 32 /\ ((exists a, fd_entries t !! Z.to_nat fd = Some (Ptr a)) \/ Z.testbit (once_only_fds t) fd = true)
}.

Lemma counted_alive es h i a : counted es h -> es !! i = Some (Ptr a) -> exists e, h !! a = Some e.
Proof.
  intros Hc Hi. specialize (Hc a). pose proof (refs_pos a es i Hi). destruct (h !! a) as [e|]; [by exists e|lia].
Qed.

(** A slot that is free or whose entry has been released gets a pointer to a
    fresh entry. *)
Lemma counted_fresh es h i a e :
  counted es h -> es !! i = Some Null -> h !! a = None -> num_fd e = 1 -> file_ops e <> 0 ->
  counted (<[i := Ptr a]> es) (<[a := e]> h).
Proof.
  intros Hc Hi Ha Hn Ho b. rewrite (refs_insert b es i Null) by done. specialize (Hc b). unfold weight.
  rewrite (decide_False (P := Null = Ptr b)) by done. destruct (decide (b = a)) as [->|Hne].
  - rewrite lookup_insert_eq, decide_True by done. rewrite Ha in Hc. lia.
  - rewrite lookup_insert_ne, decide_False by congruence. rewrite Z.sub_0_r, Z.add_0_r. done.
Qed.

Lemma counted_share es h i a e :
  counted es h -> es !! i = Some Null -> h !! a = Some e ->
  counted (<[i := Ptr a]> es) (<[a := with_num_fd (num_fd e + 1) e]> h).
Proof.
  intros Hc Hi Ha b. rewrite (refs_insert b es i Null) by done. specialize (Hc b). unfold weight.
  rewrite (decide_False (P := Null = Ptr b)) by done. destruct (decide (b = a)) as [->|Hne].
  - rewrite lookup_insert_eq, decide_True by done. rewrite Ha in Hc. simpl. split; [lia|]. split; [lia|apply Hc].
  - rewrite lookup_insert_ne, decide_False by congruence. rewrite Z.sub_0_r, Z.add_0_r. done.
Qed.

(** What [fdFree] makes of the heap. *)
Definition released (a : Z) (e : FosFDEntry) (h : gmap Z FosFDEntry) : gmap Z FosFDEntry :=
  if num_fd e <=? 1 then delete a h else <[a := with_num_fd (num_fd e - 1) e]> h.

Lemma counted_release es h i a e :
  counted es h -> es !! i = Some (Ptr a) -> h !! a = Some e -> counted (<[i := Null]> es) (released a e h).
Proof.
  intros Hc Hi Ha b. rewrite (refs_insert b es i (Ptr a)) by done. pose proof (Hc a) as Hca. rewrite Ha in Hca.
  specialize (Hc b). unfold weight, released. rewrite (decide_False (P := Null = Ptr b)) by done.
  destruct (decide (b = a)) as [->|Hne].
  - rewrite decide_True by done. destruct (Z.leb_spec (num_fd e) 1).
    + rewrite lookup_delete_eq. lia.
    + rewrite lookup_insert_eq. simpl. split; [lia|]. split; [lia|apply Hca].
  - rewrite (decide_False (P := Ptr a = Ptr b)) by congruence. rewrite Z.sub_0_r, Z.add_0_r.
    destruct (num_fd e <=? 1); [by rewrite lookup_delete_ne|by rewrite lookup_insert_ne].
Qed.

(** ** What the operations do *)

Section Specs.
Variable mem : nat -> bool.

Lemma granted_wp (Q : bool -> FosFDTable -> Prop) t :
  Q (mem (t_calls t)) (set_calls (S (t_calls t)) t) -> wp (granted mem) Q t.
Proof. intros HQ. unfold granted. by apply wp_bind, wp_gets, wp_bind, wp_modify, wp_ret. Qed.

Lemma get_slot_wp fd s (Q : option Z -> FosFDTable -> Prop) t :
  0 <= fd -> fd_entries t !! Z.to_nat fd = Some s -> s <> Indet ->
  Q (match s with Ptr a => Some a | _ => None end) t -> wp (get_slot fd) Q t.
Proof.
  intros Hfd Hs Hn HQ. unfold get_slot. apply wp_bind, wp_gets. rewrite (proj2 (Z.ltb_ge _ _)), Hs by done.
  by destruct s; [apply wp_ret|apply wp_ret|].
Qed.

Lemma set_slot_wp fd s (Q : unit -> FosFDTable -> Prop) t :
  0 <= fd < Z.of_nat (length (fd_entries t)) ->
  Q tt (set_entries (<[Z.to_nat fd := s]> (fd_entries t)) t) -> wp (set_slot fd s) Q t.
Proof.
  intros Hfd HQ. unfold set_slot. apply wp_bind, wp_gets. rewrite (proj2 (andb_true_iff _ _)) by lia.
  by apply wp_modify.
Qed.

Lemma get_entry_wp a e (Q : FosFDEntry -> FosFDTable -> Prop) t :
  heap t !! a = Some e -> Q e t -> wp (get_entry a) Q t.
Proof. intros Ha HQ. unfold get_entry. apply wp_bind, wp_gets. by apply (wp_deref _ e). Qed.

Lemma fdFree_wp a e (Q : unit -> FosFDTable -> Prop) t :
  heap t !! a = Some e -> Q tt (set_heap (released a e (heap t)) t) -> wp (fdFree a) Q t.
Proof.
  intros Ha HQ. unfold fdFree. apply wp_bind, (get_entry_wp a e); [done|]. unfold released in HQ.
  destruct (num_fd e <=? 1); unfold put_entry; by apply wp_modify.
Qed.

(** One of the first 32 descriptors is free. *)
Definition room (t : FosFDTable) : Prop := exists v, 0 <= v < 32 /\ ~ held (alloc_state t) v.

(** [fd] is the lowest free number. *)
Definition lowest_free (s : SpaceAllocState) (fd : Z) : Prop :=
  0 <= fd < 32 /\ ~ held s fd /\ forall j, 0 <= j < fd -> held s j.

(** The allocator afterwards: [fd] is given out too. *)
Definition given (fd : Z) (s s' : SpaceAllocState) : Prop :=
  lowest_ok s' /\ array_size s' = array_size s /\
  forall j, 0 <= j < 512 -> (held s' j <-> j = fd \/ held s j).

Lemma fdFindUnusedFD_wp t (Q : Z -> FosFDTable -> Prop) :
  lowest_ok (alloc_state t) -> array_size (alloc_state t) = EXPANSION_SIZE -> room t ->
  (forall fd s', lowest_free (alloc_state t) fd -> given fd (alloc_state t) s' ->
    Q fd (set_alloc_state s' (set_calls (S (t_calls t)) t))) ->
  wp (fdFindUnusedFD mem) Q t.
Proof.
  intros Hok Hsz Hroom HQ. unfold fdFindUnusedFD. apply wp_bind, wp_gets. apply wp_bind, granted_wp.
  apply wp_bind, wp_zoom. simpl. eapply wp_mono; [by apply allocate_lowest|].
  cbv beta. intros fd s' (Hfd & Hfree & Hlow & Hok' & Hsz' & Hh). unfold spaceAllocGetSize. rewrite Hsz.
  unfold EXPANSION_SIZE in *. rewrite (proj2 (Z.leb_gt _ _)) by lia. apply wp_ret, HQ; [done|].
  split; [done|]. split; [done|]. intros j Hj. apply Hh. rewrite Hsz. done.
Qed.

Lemma slot_free t fd :
  table_ok t -> 0 <= fd < 512 -> ~ held (alloc_state t) fd -> fd_entries t !! Z.to_nat fd = Some Null.
Proof.
  intros Hok Hfd Hfree. destruct (lookup_lt_is_Some_2 (fd_entries t) (Z.to_nat fd)) as [s Hs].
  { rewrite (to_length t Hok). unfold EXPANSION_SIZE. lia. }
  destruct s as [|a|]; [done| |by destruct (to_init t Hok (Z.to_nat fd))].
  destruct Hfree. apply (to_open t Hok fd a); [lia|done].
Qed.

(** A number that has just been given out gets a pointer: the invariant of the
    table from that of the counts. *)
Lemma table_ok_given t fd a s' h' next calls :
  table_ok t -> lowest_free (alloc_state t) fd -> given fd (alloc_state t) s' ->
  counted (<[Z.to_nat fd := Ptr a]> (fd_entries t)) h' -> (forall b, next <= b -> h' !! b = None) ->
  table_ok (mkFDTable (once_only_fds t) (<[Z.to_nat fd := Ptr a]> (fd_entries t)) s' h' next calls).
Proof.
  intros Hok (Hfd & Hfree & _) (Hok' & Hsz & Hh) Hc Hn. pose proof Hok as [_ Hs Hl Hi _ _ Ho Hd].
  split; simpl; [done|congruence|by rewrite length_insert| |done|done| |].
  - intros i [(_ & ? & _)|[_ Hx]]%list_lookup_insert_Some; [done|by apply (Hi i)].
  - intros fd' b Hfd' Hb. destruct (decide (fd' = fd)) as [->|Hne]; [split; [lia|apply Hh; [lia|by left]]|].
    rewrite list_lookup_insert_ne in Hb by lia. destruct (Ho fd' b Hfd' Hb) as [? ?].
    split; [done|]. apply Hh; [lia|by right].
  - intros fd' Hfd' [->|Hx]%Hh; [| |done].
    + split; [lia|]. left. exists a. rewrite list_lookup_insert_eq; [done|]. rewrite Hl. unfold EXPANSION_SIZE. lia.
    + destruct (Hd fd' Hfd' Hx) as [? Hp]. split; [done|]. destruct (decide (fd' = fd)) as [->|]; [done|].
      by rewrite list_lookup_insert_ne by lia.
Qed.

Lemma table_ok_calls t n a :
  table_ok t -> next_addr t <= a -> table_ok (mkFDTable (once_only_fds t) (fd_entries t) (alloc_state t) (heap t) a n).
Proof. intros [] Ha. split; simpl; try done. intros b Hb. auto with lia. Qed.

Lemma fdCreate_wp ops data flags t :
  table_ok t -> ops <> 0 -> room t ->
  wp (fdCreate mem ops data flags) (fun r t' => table_ok t' /\
    ((r = (- ENOMEM, None) /\ fd_entries t' = fd_entries t /\ heap t' = heap t /\ mem (t_calls t) = false) \/
     exists fd a, r = (fd, Some a) /\ lowest_free (alloc_state t) fd /\ heap t !! a = None /\
       fd_entries t' = <[Z.to_nat fd := Ptr a]> (fd_entries t) /\
       heap t' = <[a := mkFDEntry fd 1 flags ops data]> (heap t) /\ once_only_fds t' = once_only_fds t)) t.
Proof.
  intros Hok Hops Hroom. unfold fdCreate. apply wp_bind, wp_assert; [lia|]. apply wp_bind. unfold new_entry.
  apply wp_bind, granted_wp. destruct (mem _) eqn:Hmem.
  2: { apply wp_ret. cbv beta iota. apply wp_ret. split; [by apply table_ok_calls|by left]. }
  apply wp_bind, wp_gets, wp_bind, wp_modify. unfold put_entry. apply wp_bind, wp_modify, wp_ret. cbv beta iota.
  apply wp_bind, fdFindUnusedFD_wp; [by apply (to_alloc t)|by apply (to_size t)|done|].
  intros fd s' Hlow Hgiv. pose proof Hlow as ((Hfd & Hfd') & Hfree & _). simpl in *.
  rewrite (proj2 (Z.ltb_ge _ _)) by done. pose proof (to_length t Hok). unfold EXPANSION_SIZE in *.
  apply wp_bind, set_slot_wp; [simpl; lia|]. apply wp_bind, wp_modify, wp_ret. simpl.
  assert (Hfresh : heap t !! next_addr t = None) by by apply (to_next t).
  unfold set_heap, set_entries, set_alloc_state, set_calls, set_next_addr. simpl.
  rewrite insert_insert_eq. split.
  - apply table_ok_given; [done|done|done| |].
    + apply counted_fresh; [by apply (to_counted t)|apply slot_free; [done|lia|done]|done|done|done].
    + intros b Hb. rewrite lookup_insert_ne by lia. apply (to_next t Hok). lia.
  - right. by exists fd, (next_addr t).
Qed.

Lemma fdDuplicate_wp a e t :
  table_ok t -> heap t !! a = Some e -> room t ->
  wp (fdDuplicate mem a (-1)) (fun fd t' => table_ok t' /\ lowest_free (alloc_state t) fd /\
    fd_entries t' = <[Z.to_nat fd := Ptr a]> (fd_entries t) /\
    heap t' = <[a := with_num_fd (num_fd e + 1) e]> (heap t)) t.
Proof.
  intros Hok Ha Hroom. unfold fdDuplicate. apply wp_bind, wp_gets. cbn [Z.ltb Z.compare Z.opp].
  apply wp_bind, fdFindUnusedFD_wp; [by apply (to_alloc t)|by apply (to_size t)|done|].
  intros fd s' Hlow Hgiv. pose proof Hlow as ((Hfd & Hfd') & Hfree & _).
  assert (Hs : fd_entries t !! Z.to_nat fd = Some Null) by (apply slot_free; [done|lia|done]).
  apply wp_bind, (get_slot_wp fd Null); [done|done|done|]. apply wp_bind, wp_ret.
  apply wp_bind, (get_entry_wp a e); [done|]. apply wp_bind, wp_modify. pose proof (to_length t Hok).
  unfold EXPANSION_SIZE in *. apply wp_bind, set_slot_wp; [simpl; lia|]. apply wp_ret.
  split; [|done]. apply (table_ok_given t fd a s'); [done|done|done|by apply counted_share; [apply (to_counted t)| |]|].
  simpl. intros b Hb. rewrite lookup_insert_ne; [by apply (to_next t)|]. intros <-.
  by rewrite (to_next t Hok a Hb) in Ha.
Qed.

Lemma table_ok_slots t fd s h' next calls :
  table_ok t -> 0 <= fd -> (exists a, fd_entries t !! Z.to_nat fd = Some (Ptr a)) -> (exists a, s = Ptr a) ->
  counted (<[Z.to_nat fd := s]> (fd_entries t)) h' -> (forall b, next <= b -> h' !! b = None) ->
  table_ok (mkFDTable (once_only_fds t) (<[Z.to_nat fd := s]> (fd_entries t)) (alloc_state t) h' next calls).
Proof.
  intros Hok Hfd [a0 Ha0] [a ->] Hc Hn. pose proof Hok as [Hal Hs Hl Hi _ _ Ho Hd].
  pose proof (lookup_lt_Some _ _ _ Ha0).
  split; simpl; [done|done|by rewrite length_insert| |done|done| |].
  - intros i [(_ & ? & _)|[_ Hx]]%list_lookup_insert_Some; [done|by apply (Hi i)].
  - intros fd' b Hfd' Hb. destruct (decide (fd' = fd)) as [->|Hne]; [by apply (Ho fd a0)|].
    rewrite list_lookup_insert_ne in Hb by lia. by apply (Ho fd' b).
  - intros fd' Hfd' Hx. destruct (Hd fd' Hfd' Hx) as [? Hp]. split; [done|].
    destruct (decide (fd' = fd)) as [->|]; [left; exists a; by apply list_lookup_insert_eq|].
    by rewrite list_lookup_insert_ne by lia.
Qed.

Lemma fdFlatten_wp fd a e data t :
  table_ok t -> 0 <= fd -> fd_entries t !! Z.to_nat fd = Some (Ptr a) -> heap t !! a = Some e ->
  1 < num_fd e -> mem (t_calls t) = true ->
  wp (fdFlatten mem fd a data) (fun _ t' => table_ok t' /\ exists a', heap t !! a' = None /\
    fd_entries t' = <[Z.to_nat fd := Ptr a']> (fd_entries t) /\
    heap t' = <[a' := mkFDEntry fd 1 (status_flags e) (file_ops e) data]>
      (<[a := with_num_fd (num_fd e - 1) e]> (heap t))) t.
Proof.
  intros Hok Hfd Hs Ha Hn Hmem. unfold fdFlatten. apply wp_bind, (get_entry_wp a e); [done|].
  apply wp_bind, wp_assert; [lia|]. apply wp_bind, wp_modify. unfold new_entry.
  apply wp_bind, wp_bind, granted_wp. simpl. rewrite Hmem.
  apply wp_bind, wp_gets, wp_bind, wp_modify. unfold put_entry. apply wp_bind, wp_modify, wp_ret. cbv beta iota.
  pose proof (lookup_lt_Some _ _ _ Hs). apply wp_bind, set_slot_wp; [simpl; lia|]. apply wp_modify.
  unfold set_heap, set_entries, set_alloc_state, set_calls, set_next_addr. simpl. rewrite insert_insert_eq.
  assert (Hfresh : heap t !! next_addr t = None) by by apply (to_next t).
  assert (Hne : next_addr t <> a) by congruence. pose proof (to_counted t Hok) as Hc.
  split; [|by exists (next_addr t)]. apply table_ok_slots; [done|done|by eexists|by eexists| |].
  - pose proof (counted_release _ _ _ _ _ Hc Hs Ha) as Hrel. unfold released in Hrel.
    rewrite (proj2 (Z.leb_gt _ _)) in Hrel by done. rewrite <- (list_insert_insert_eq _ _ (Ptr _) Null).
    apply counted_fresh; [done|by apply list_lookup_insert_eq|by rewrite lookup_insert_ne|done|].
    specialize (Hc a). rewrite Ha in Hc. apply Hc.
  - intros b Hb. rewrite !lookup_insert_ne; [apply (to_next t Hok); lia| |lia].
    intros <-. rewrite (to_next t Hok a) in Ha by lia. done.
Qed.

(** The allocator after descriptor [fd] is closed. *)
Definition given_back (t : FosFDTable) (fd : Z) (s' : SpaceAllocState) : Prop :=
  lowest_ok s' /\ array_size s' = array_size (alloc_state t) /\
  forall j, 0 <= j < 512 -> (held s' j <->
    held (alloc_state t) j /\ (j = fd -> Z.testbit (once_only_fds t) fd = true)).

Lemma table_ok_closed t fd a e s' :
  table_ok t -> 0 <= fd -> fd_entries t !! Z.to_nat fd = Some (Ptr a) -> heap t !! a = Some e ->
  given_back t fd s' ->
  table_ok (mkFDTable (once_only_fds t) (<[Z.to_nat fd := Null]> (fd_entries t)) s' (released a e (heap t))
    (next_addr t) (t_calls t)).
Proof.
  intros Hok Hfd Hs Ha (Hok' & Hsz & Hh). pose proof Hok as [Hal Hs0 Hl Hi Hc Hn Ho Hd].
  split; simpl; [done|congruence|by rewrite length_insert| |by apply counted_release| | |].
  - intros i [(_ & ? & _)|[_ Hx]]%list_lookup_insert_Some; [done|by apply (Hi i)].
  - intros b Hb. unfold released. destruct (decide (b = a)) as [->|]; [by rewrite Hn in Ha|].
    destruct (num_fd e <=? 1); [rewrite lookup_delete_ne by done|rewrite lookup_insert_ne by done]; by apply Hn.
  - intros fd' b Hfd' [(_ & ? & _)|[Hne Hx]]%list_lookup_insert_Some; [done|]. destruct (Ho fd' b Hfd' Hx).
    split; [done|]. apply Hh; [lia|]. split; [done|]. intros ->. done.
  - intros fd' Hfd' [Hx Honce]%Hh; [|done]. destruct (Hd fd' Hfd' Hx) as [? Hp]. split; [done|].
    destruct (decide (fd' = fd)) as [->|]; [right; by apply Honce|]. by rewrite list_lookup_insert_ne by lia.
Qed.

Lemma fdDestroy_open_wp fd a e t :
  table_ok t -> 0 <= fd -> fd_entries t !! Z.to_nat fd = Some (Ptr a) -> heap t !! a = Some e ->
  wp (fdDestroy fd) (fun r t' => r = 0 /\ table_ok t' /\ given_back t fd (alloc_state t') /\
    fd_entries t' = <[Z.to_nat fd := Null]> (fd_entries t) /\ heap t' = released a e (heap t)) t.
Proof.
  intros Hok Hfd Hs Ha. destruct (to_open t Hok fd a Hfd Hs) as [Hfd32 Hheld]. unfold fdDestroy, spaceAllocGetSize.
  apply wp_bind, wp_gets. pose proof (to_size t Hok) as Hsz. rewrite Hsz. unfold EXPANSION_SIZE in *.
  rewrite (proj2 (orb_false_iff _ _)) by lia. apply wp_bind, (wp_deref _ true).
  { unfold spaceAllocIsAllocated. rewrite Hsz, (proj2 (Z.ltb_lt _ _)) by lia. done. }
  cbn [negb]. apply wp_bind, (get_slot_wp fd (Ptr a)); [done|done|done|].
  pose proof (lookup_lt_Some _ _ _ Hs). apply wp_bind, set_slot_wp; [lia|]. apply wp_bind, wp_gets. simpl.
  unfold BITARRAY_BITS_PER_INT. rewrite (proj2 (Z.leb_gt _ _)) by lia. cbn [orb].
  apply wp_bind. apply (wp_mono _ (fun _ t' => exists s', given_back t fd s' /\
    t' = set_alloc_state s' (set_entries (<[Z.to_nat fd := Null]> (fd_entries t)) t))).
  2: { intros [] t' (s' & Hs' & ->). apply wp_bind, (fdFree_wp a e); [done|]. apply wp_ret.
    split; [done|]. split; [by apply (table_ok_closed t fd a e s')|done]. }
  destruct (Z.testbit (once_only_fds t) fd) eqn:Honce; cbn [negb].
  - apply wp_ret. exists (alloc_state t). split; [|by destruct t]. split; [by apply (to_alloc t)|]. split; [done|].
    intros j _. split; [by split|by intros [? _]].
  - apply wp_zoom. simpl. eapply wp_mono.
    { apply release_frees; [by apply (to_alloc t)|]. rewrite Hsz. change (1024 / 2) with 512. lia. }
    cbv beta. intros _ s' (Hok' & Hsz' & Hh). exists s'. split; [|done]. split; [done|]. split; [done|].
    intros j Hj. rewrite Hh by by rewrite Hsz. rewrite Honce.
    split; intros [H1 H2].
    + split; [done|]. by intros ->.
    + split; [|done]. intros ->. by discriminate (H2 eq_refl).
Qed.

Lemma fdDestroy_bad fd t :
  table_ok t -> fd < 0 \/ EXPANSION_SIZE <= fd \/ (0 <= fd < 512 /\ ~ held (alloc_state t) fd) ->
  wp (fdDestroy fd) (fun r t' => r = - EBADF /\ t' = t) t.
Proof.
  intros Hok Hbad. unfold fdDestroy, spaceAllocGetSize. apply wp_bind, wp_gets. pose proof (to_size t Hok) as Hsz.
  rewrite Hsz. destruct ((fd <? 0) || (EXPANSION_SIZE <=? fd)) eqn:Hr; [by apply wp_ret|].
  unfold EXPANSION_SIZE in *. destruct Hbad as [?|[?|[Hfd Hfree]]]; [lia|lia|].
  apply wp_bind, (wp_deref _ false); [|by apply wp_ret].
  unfold spaceAllocIsAllocated. rewrite Hsz, (proj2 (Z.ltb_lt _ _)) by lia.
  unfold held, fosBitArrayIsSet, long_low in *. pose proof (lo_length _ (to_alloc t Hok)) as Hl. rewrite Hsz in Hl.
  change (1024 / 32) with 32 in Hl. unfold BITARRAY_BITS_PER_INT in *.
  assert (0 <= fd / 32 < 16) by (split; [apply Z.div_pos|apply Z.div_lt_upper_bound]; lia).
  rewrite (proj2 (Z.ltb_lt _ _)) in * by lia.
  destruct (lookup_lt_is_Some_2 (bit_array (alloc_state t)) (Z.to_nat (2 * (fd / 32)))) as [w Hw]; [lia|].
  rewrite Hw in *. simpl in *. by destruct (Z.testbit w (fd mod 32)).
Qed.

Lemma fdGet_wp fd (Q : option Z -> FosFDTable -> Prop) t :
  table_ok t ->
  (forall a e, 0 <= fd -> fd_entries t !! Z.to_nat fd = Some (Ptr a) -> heap t !! a = Some e -> Q (Some a) t) ->
  ((forall a, 0 <= fd -> fd_entries t !! Z.to_nat fd <> Some (Ptr a)) -> Q None t) -> wp (fdGet fd) Q t.
Proof.
  intros Hok HS HN. unfold fdGet, spaceAllocGetSize. apply wp_bind, wp_gets. pose proof (to_size t Hok) as Hsz.
  pose proof (to_length t Hok) as Hl. rewrite Hsz. unfold EXPANSION_SIZE in *. destruct (_ || _) eqn:Hr.
  { apply wp_ret, HN. intros a Hfd Hx. apply lookup_lt_Some in Hx. lia. }
  destruct (lookup_lt_is_Some_2 (fd_entries t) (Z.to_nat fd)) as [s Hs]; [lia|].
  assert (s <> Indet) by (intros ->; by destruct (to_init t Hok (Z.to_nat fd))).
  apply wp_bind, (get_slot_wp fd s); [lia|done|done|]. destruct s as [|a|]; [|clear HN|done].
  - apply wp_ret, HN. congruence.
  - pose proof (to_counted t Hok) as Hc. destruct (counted_alive _ _ _ _ Hc Hs) as [e He].
    apply wp_bind, (get_entry_wp a e); [done|]. specialize (Hc a). rewrite He in Hc.
    apply wp_bind, wp_assert; [|apply wp_ret, (HS a e); [lia|done|done]]. apply negb_true_iff, Z.eqb_neq, Hc.
Qed.

(** ** Reachable tables *)

(** The calls that the rest of the system makes: creation of a descriptor,
    [dup] ([libs/basicp/dup.c]), the separation of a shared descriptor
    ([sys/fs/lib/misc.cpp]), [close], and the mark of the standard streams. *)
Inductive fd_op : Type :=
  | OpCreate (ops data flags : Z)
  | OpDuplicate (fd : Z)
  | OpFlatten (fd data : Z)
  | OpDestroy (fd : Z)
  | OpOnceOnly (fd : Z).

Definition with_file {A} (fd : Z) (f : Z -> M FosFDTable A) : M FosFDTable A :=
  o ← fdGet fd; match o with Some file => f file | None => abort end.

Definition run_op (op : fd_op) : M FosFDTable Z :=
  match op with
  | OpCreate ops data flags => r ← fdCreate mem ops data flags; mret r.1
  | OpDuplicate fd => with_file fd (fun file => fdDuplicate mem file (-1))
  | OpFlatten fd data => with_file fd (fun file => fdFlatten mem fd file data);; mret 0
  | OpDestroy fd => fdDestroy fd
  | OpOnceOnly fd => fdOnceOnly fd;; mret 0
  end.

Definition is_open (t : FosFDTable) (fd a : Z) : Prop := 0 <= fd /\ fd_entries t !! Z.to_nat fd = Some (Ptr a).

(** When a call is allowed: at most 32 descriptors are in use, the descriptor is
    open or was not given out, an entry is separated only if it is shared. *)
Definition op_pre (op : fd_op) (t : FosFDTable) : Prop :=
  match op with
  | OpCreate ops _ _ => ops <> 0 /\ room t
  | OpDuplicate fd => (exists a, is_open t fd a) /\ room t
  | OpFlatten fd _ => (exists a e, is_open t fd a /\ heap t !! a = Some e /\ 1 < num_fd e) /\ mem (t_calls t) = true
  | OpDestroy fd => (exists a, is_open t fd a) \/
      fd < 0 \/ EXPANSION_SIZE <= fd \/ (0 <= fd < 512 /\ ~ held (alloc_state t) fd)
  | OpOnceOnly fd => 0 <= fd < 32
  end.

(** What a call returns and does to the descriptors. *)
Definition op_post (op : fd_op) (t : FosFDTable) (r : Z) (t' : FosFDTable) : Prop :=
  match op with
  | OpCreate _ _ _ =>
      (r = - ENOMEM /\ fd_entries t' = fd_entries t) \/
      (lowest_free (alloc_state t) r /\ exists a, heap t !! a = None /\
        fd_entries t' = <[Z.to_nat r := Ptr a]> (fd_entries t))
  | OpDuplicate fd =>
      lowest_free (alloc_state t) r /\ exists a, is_open t fd a /\
        fd_entries t' = <[Z.to_nat r := Ptr a]> (fd_entries t)
  | OpFlatten fd _ =>
      exists a', heap t !! a' = None /\ fd_entries t' = <[Z.to_nat fd := Ptr a']> (fd_entries t)
  | OpDestroy fd =>
      (r = 0 /\ fd_entries t' = <[Z.to_nat fd := Null]> (fd_entries t)) \/
      (r = - EBADF /\ t' = t /\ forall a, ~ is_open t fd a)
  | OpOnceOnly _ => fd_entries t' = fd_entries t
  end.

Inductive fd_reach : FosFDTable -> Prop :=
  | reach_init t0 t : heap t0 = ∅ -> fdInitialize mem t0 = Done 0 t -> fd_reach t
  | reach_step op t r t' : fd_reach t -> op_pre op t -> run_op op t = Done r t' -> fd_reach t'.

Lemma table_ok_init t s calls :
  heap t = ∅ -> lowest_ok s -> array_size s = EXPANSION_SIZE -> (forall v, ~ held s v) ->
  table_ok (mkFDTable 0 (replicate (Z.to_nat EXPANSION_SIZE) Null) s (heap t) (next_addr t) calls).
Proof.
  intros Hh Hok Hsz Hfree. split; cbn -[replicate]; rewrite ?Hh; [done|done|apply length_replicate| | | | |].
  - intros i Hi. by apply lookup_replicate_1 in Hi as [? _].
  - intros a. rewrite lookup_empty. apply refs_replicate.
  - intros a _. apply lookup_empty.
  - intros fd a _ Hx. by apply lookup_replicate_1 in Hx as [? _].
  - intros fd _ Hx. by destruct (Hfree fd).
Qed.

Lemma fdInitialize_wp t0 :
  heap t0 = ∅ -> wp (fdInitialize mem) (fun r t => r = 0 -> table_ok t) t0.
Proof.
  intros Hh. unfold fdInitialize. apply wp_bind, wp_modify, wp_bind, granted_wp. cbn [t_calls].
  apply wp_bind, wp_zoom. cbn [alloc_state set_calls]. destruct (mem (t_calls t0)).
  2: { apply wp_bind, wp_assert; [done|]. apply wp_bind, wp_assert; [done|]. cbn [negb].
       apply wp_bind, wp_modify, wp_ret, wp_ret. done. }
  eapply wp_mono; [apply lowest_init; [unfold EXPANSION_SIZE; lia|done|done]|].
  cbv beta. intros r s (-> & Hok & Hsz & Hfree). cbn [negb Z.eqb]. apply wp_bind, granted_wp. destruct (mem (t_calls _)).
  - apply wp_bind, wp_modify, wp_ret. intros _. by apply (table_ok_init t0).
  - apply wp_bind, wp_zoom, wp_modify, wp_ret. intros ?. done.
Qed.

(** With memory the table is empty afterwards. *)
Lemma fdInitialize_empty t0 :
  (forall n, mem n = true) -> heap t0 = ∅ ->
  wp (fdInitialize mem) (fun _ t => table_ok t /\ heap t = ∅ /\ once_only_fds t = 0 /\
    fd_entries t = replicate (Z.to_nat EXPANSION_SIZE) Null) t0.
Proof.
  intros Hmem Hh. unfold fdInitialize. apply wp_bind, wp_modify, wp_bind, granted_wp. cbn [t_calls].
  apply wp_bind, wp_zoom. cbn [alloc_state set_calls]. rewrite Hmem.
  eapply wp_mono; [apply lowest_init; [unfold EXPANSION_SIZE; lia|done|done]|].
  cbv beta. intros r s (-> & Hok & Hsz & Hfree). cbn [negb Z.eqb]. apply wp_bind, granted_wp. rewrite Hmem.
  apply wp_bind, wp_modify, wp_ret. split; [by apply (table_ok_init t0)|]. done.
Qed.

Lemma run_op_wp op t :
  table_ok t -> op_pre op t -> wp (run_op op) (fun r t' => table_ok t' /\ op_post op t r t') t.
Proof.
  intros Hok Hpre. destruct op as [ops data flags|fd|fd data|fd|fd]; cbn [run_op op_pre op_post] in *.
  - destruct Hpre as [Hops Hroom]. apply wp_bind. eapply wp_mono; [by apply fdCreate_wp|]. cbv beta.
    intros r t' [Hok' [(-> & He & _)|(fd & a & -> & Hlow & Ha & He & _)]]; apply wp_ret; split; try done.
    + by left.
    + right. split; [done|]. by exists a.
  - destruct Hpre as [[a [Hfd Ha]] Hroom]. unfold with_file. apply wp_bind, fdGet_wp; [done| |intros H; by destruct (H a)].
    intros b e _ Hb He. eapply wp_mono; [by apply (fdDuplicate_wp b e)|]. cbv beta.
    intros r t' (Hok' & Hlow & Hes & _). split; [done|]. split; [done|]. by exists b.
  - destruct Hpre as [(a & e & [Hfd Ha] & He & Hn) Hmem]. unfold with_file.
    apply wp_bind, wp_bind, fdGet_wp; [done| |intros H; by destruct (H a)]. intros b e' _ Hb He'.
    simplify_eq. eapply wp_mono; [by apply (fdFlatten_wp fd a e)|]. cbv beta.
    intros _ t' (Hok' & a' & Ha' & Hes & _). apply wp_ret. split; [done|]. by exists a'.
  - destruct Hpre as [[a [Hfd Ha]]|Hbad].
    + destruct (counted_alive _ _ _ _ (to_counted t Hok) Ha) as [e He].
      eapply wp_mono; [by apply (fdDestroy_open_wp fd a e)|]. cbv beta. intros r t' (-> & Hok' & _ & Hes & _).
      split; [done|]. by left.
    + eapply wp_mono; [by apply fdDestroy_bad|]. cbv beta. intros r t' [-> ->]. split; [done|]. right.
      split; [done|]. split; [done|]. intros a [Hfd Ha]. destruct (to_open t Hok fd a Hfd Ha).
      unfold EXPANSION_SIZE in *. destruct Hbad as [?|[?|[_ Hfree]]]; [lia|lia|done].
  - unfold fdOnceOnly, BITARRAY_BITS_PER_INT. apply wp_bind, wp_bind, wp_assert; [lia|]. apply wp_modify, wp_ret.
    split; [|done]. destruct Hok. split; simpl; try done. intros fd' Hfd' Hh.
    destruct (to_held0 fd' Hfd' Hh) as [? [Hp|Ho]]; (split; [done|]); [by left|right].
    by rewrite Z.lor_spec, Ho.
Qed.

(** C27: In every table that the calls of the system lead to, each entry counts
    the descriptors that share it and is given back with the last of them, an
    open descriptor is marked as given out, and the next allowed call - one on an
    open descriptor, or a creation while one of the first 32 numbers is free - returns
    without failing an assertion or touching memory that was given back: new
    descriptors are the lowest free numbers, closing empties the slot, and
    closing a number that is not open is [-EBADF]. *)
Theorem fd_table_reachable t :
  fd_reach t ->
  table_ok t /\ forall op, op_pre op t -> wp (run_op op) (fun r t' => fd_reach t' /\ op_post op t r t') t.
Proof.
  intros Hr. assert (Hok : table_ok t).
  { induction Hr as [t0 t Hh Hi|op t r t' _ IH Hpre Hrun].
    - pose proof (fdInitialize_wp t0 Hh) as Hw. unfold wp in Hw. rewrite Hi in Hw. by apply Hw.
    - pose proof (run_op_wp op t IH Hpre) as Hw. unfold wp in Hw. rewrite Hrun in Hw. apply Hw. }
  split; [done|]. intros op Hpre. pose proof (run_op_wp op t Hok Hpre) as Hw. unfold wp in *.
  destruct (run_op op t) as [r t'| | |] eqn:Hrun; [|done|done|done]. split; [|apply Hw].
  by apply (reach_step op t r t').
Qed.
End Specs.

(** ** The map *)

Lemma map_at_wp (Q : Z -> fd_map -> Prop) m i v : 0 <= i -> m !! Z.to_nat i = Some v -> Q v m -> wp (map_at i) Q m.
Proof.
  intros Hi Hm HQ. unfold map_at. apply wp_bind, wp_gets. rewrite (proj2 (Z.ltb_ge _ _)) by done.
  by apply (wp_deref _ v).
Qed.

Lemma map_set_wp (Q : unit -> fd_map -> Prop) m i v :
  0 <= i < Z.of_nat (length m) -> Q tt (<[Z.to_nat i := v]> m) -> wp (map_set i v) Q m.
Proof.
  intros Hi HQ. unfold map_set. apply wp_bind, wp_gets. unfold id. rewrite (proj2 (andb_true_iff _ _)) by lia.
  by apply wp_modify.
Qed.

(** The lowest free element. *)
Definition lowest_unmapped (m : fd_map) (i : Z) : Prop :=
  0 <= i < Z.of_nat (length m) /\ m !! Z.to_nat i = Some INT32_MAX /\
  forall j, 0 <= j < i -> m !! Z.to_nat j <> Some INT32_MAX.

Lemma first_unmapped_wp (Q : Z -> fd_map -> Prop) m n i :
  0 <= i -> Z.of_nat (length m) = i + Z.of_nat n -> (forall j, 0 <= j < i -> m !! Z.to_nat j <> Some INT32_MAX) ->
  INT32_MAX ∈ m -> (forall k, lowest_unmapped m k -> Q k m) -> wp (first_unmapped n i) Q m.
Proof.
  revert i. induction n as [|n IH]; intros i Hi Hl Hlow Hin HQ.
  { apply list_elem_of_lookup in Hin as [k Hk]. pose proof (lookup_lt_Some _ _ _ Hk).
    destruct (Hlow (Z.of_nat k)); [lia|]. by rewrite Nat2Z.id. }
  destruct (lookup_lt_is_Some_2 m (Z.to_nat i)) as [v Hv]; [lia|]. cbn [first_unmapped].
  apply wp_bind, (map_at_wp _ _ _ v); [done|done|]. destruct (Z.eqb_spec v INT32_MAX) as [->|Hne].
  - apply wp_ret, HQ. split; [lia|done].
  - apply IH; [lia|lia| |done|done]. intros j Hj. destruct (decide (j = i)) as [->|]; [congruence|]. apply Hlow. lia.
Qed.

(** A descriptor that is added, asked about, read back and removed: its number,
    whether it is internal, external, what it stands for, whether it is mapped
    in the end. *)
Definition internal_trip (fd : Z) : M fd_map (Z * bool * bool * Z * bool) :=
  i ← fdAddInternal fd; b ← fdIsInternal i; b' ← fdIsExternal i; v ← fdInt i;
  fdRemove i;; u ← fdIsMapped i; mret (i, b, b', v, u).
Definition external_trip (fd : Z) : M fd_map (Z * bool * bool * Z * bool) :=
  i ← fdAddExternal fd; b ← fdIsInternal i; b' ← fdIsExternal i; v ← fdExt i;
  fdRemove i;; u ← fdIsMapped i; mret (i, b, b', v, u).

Section Trip.
Variable m : fd_map.
Variable k : Z.
Hypothesis Hk : lowest_unmapped m k.

Lemma trip_at (Q : Z -> fd_map -> Prop) v :
  Q v (<[Z.to_nat k := v]> m) -> wp (map_at k) Q (<[Z.to_nat k := v]> m).
Proof using Hk. intros HQ. destruct Hk as [? _]. apply (map_at_wp _ _ _ v); [lia| |done]. apply list_lookup_insert_eq. lia. Qed.

Lemma trip_back {A} v (f : bool -> M fd_map A) (Q : A -> fd_map -> Prop) :
  wp (f false) Q m -> wp (fdRemove k;; u ← fdIsMapped k; f u) Q (<[Z.to_nat k := v]> m).
Proof using Hk.
  intros HQ. destruct Hk as (Hr & Hm & _). unfold fdRemove, fdIsMapped.
  apply wp_bind, map_set_wp; [rewrite length_insert; lia|]. rewrite list_insert_insert_eq, list_insert_id by done.
  apply wp_bind, wp_bind, (map_at_wp _ _ _ INT32_MAX); [lia|done|]. by apply wp_ret.
Qed.
End Trip.

(** A descriptor of the file system put in the map comes back as it was, and
    so does one of the operating system: the two kinds are told apart, the lowest
    free element is taken, and removing it restores the map. *)
Theorem fd_map_roundtrip m fd :
  INT32_MAX ∈ m -> 0 <= fd < INT32_MAX - 1 ->
  wp (internal_trip fd) (fun r m' => m' = m /\ exists i, lowest_unmapped m i /\ r = (i, true, false, fd, false)) m /\
  wp (external_trip fd) (fun r m' => m' = m /\ exists i, lowest_unmapped m i /\ r = (i, false, true, fd, false)) m.
Proof.
  intros Hin Hfd. unfold INT32_MAX in Hfd. split.
  - unfold internal_trip, fdAddInternal. apply wp_bind, wp_bind, wp_gets, wp_bind, first_unmapped_wp; [done|lia|lia|done|].
    intros k Hk. apply wp_bind, map_set_wp; [apply Hk|]. rewrite i32_small by lia. apply wp_ret.
    unfold fdIsInternal, fdIsExternal, fdInt, INT32_MAX.
    do 2 apply wp_bind, wp_bind, (trip_at m k Hk), wp_ret.
    apply wp_bind, wp_bind, (trip_at m k Hk). apply wp_bind, wp_assert; [lia|]. apply wp_bind, wp_assert; [lia|].
    apply wp_ret, (trip_back m k Hk), wp_ret. split; [done|]. exists k. split; [done|]. repeat f_equal; lia.
  - unfold external_trip, fdAddExternal. apply wp_bind, wp_bind, wp_gets, wp_bind, first_unmapped_wp; [done|lia|lia|done|].
    intros k Hk. apply wp_bind, map_set_wp; [apply Hk|]. rewrite i32_small by lia. apply wp_ret.
    unfold fdIsInternal, fdIsExternal, fdExt, INT32_MAX.
    do 2 apply wp_bind, wp_bind, (trip_at m k Hk), wp_ret.
    apply wp_bind, wp_bind, (trip_at m k Hk). rewrite (proj2 (Z.eqb_neq _ _)) by lia.
    apply wp_ret, (trip_back m k Hk), wp_ret. split; [done|]. exists k. split; [done|]. repeat f_equal; lia.
Qed.

Lemma fd_map_roundtrip_witness :
  wp (internal_trip 7) (fun r m' => m' = [0 + 1; -2 - 1; INT32_MAX; INT32_MAX] /\
    exists i, lowest_unmapped [0 + 1; -2 - 1; INT32_MAX; INT32_MAX] i /\ r = (i, true, false, 7, false))
    [0 + 1; -2 - 1; INT32_MAX; INT32_MAX].
Proof.
  refine (proj1 (fd_map_roundtrip [0 + 1; -2 - 1; INT32_MAX; INT32_MAX] 7 _ _)).
  - apply (bool_decide_unpack _). vm_compute. done.
  - vm_compute. done.
Defined.

(** ** Demonstration *)

Definition always (_ : nat) : bool := true.

Definition blank_table : FosFDTable := mkFDTable 0 [] (mkSpaceAlloc 0 [] 0 0) ∅ 1 0.

Definition table_after {A} (m : M FosFDTable A) (t : FosFDTable) : FosFDTable :=
  match m t with Done _ t' => t' | _ => t end.

Definition started : FosFDTable := table_after (fdInitialize always) blank_table.

(** The standard streams of a process, as [libs/basicp/start.c] sets them up. *)
Definition standard_streams : list fd_op :=
  [OpCreate 1 0 2; OpCreate 1 0 2; OpCreate 1 0 2; OpOnceOnly 0; OpOnceOnly 1; OpOnceOnly 2].

Fixpoint run_ops (ops : list fd_op) : M FosFDTable (list Z) :=
  match ops with
  | [] => mret []
  | op :: ops' => r ← run_op always op; rs ← run_ops ops'; mret (r :: rs)
  end.

(** The limit of 32: of 35 descriptors created in a row the last three have
    the number 32, although all stay open; the entries of the first two of them
    are lost, as no slot points to them.  Closing the number once makes it free,
    closing it again is refused. *)
Theorem descriptors_beyond_32 :
  match run_ops (replicate 35 (OpCreate 1 0 0) ++ [OpDestroy 32; OpDestroy 32]) started with
  | Done rs t => rs = seqZ 0 32 ++ [32; 32; 32; 0; -9] /\ size (heap t) = 34%nat
  | _ => False
  end.
Proof. vm_compute. done. Qed.

(** A standard stream can be closed once; closing it again fails an
    assertion, where the interface promises [-EBADF]. *)
Theorem once_only_second_close_aborts :
  run_ops (standard_streams ++ [OpDestroy 1; OpDestroy 1]) started = Abort /\
  match run_ops (standard_streams ++ [OpCreate 1 0 0; OpDestroy 3; OpDestroy 3]) started with
  | Done rs _ => rs = [0; 1; 2; 0; 0; 0; 3; 0; -9]
  | _ => False
  end.
Proof. vm_compute. done. Qed.

Lemma fd_table_reachable_witness :
  fd_reach always started /\
  wp (run_op always (OpCreate 1 0 0))
    (fun r t' => fd_reach always t' /\ op_post (OpCreate 1 0 0) started r t') started.
Proof.
  assert (Hr : fd_reach always started).
  { apply (reach_init always blank_table); [done|]. vm_compute. reflexivity. }
  split; [done|]. apply (fd_table_reachable always started Hr). split; [done|].
  exists 0. split; [lia|]. apply (bool_decide_unpack _). vm_compute. done.
Defined.
