(* ===== verification/Posix.v ===== *)
(** * Processes and their system calls

    [libs/basicp], [sys/fs/lib/file_wrapper.cpp] and [sys/fs/lib/misc.cpp]: a
    process has a table of open files, a map from the numbers the application
    uses to that table or to the kernel, and the objects the entries point to.
    Calls on files of the kernel are passed on; what the kernel answers is a
    parameter. *)

From S2P Require Import Prelude FsTypes BufferCache FsFile FsNode FsServer FsServerInv FsMarshall FsDirCache FsClient FsClientSpec FsClientFile FsClientListing FsClientPipe SpaceAlloc FdTable.

Definition EFAULT : Z := 14.
Definition O_RDONLY : Z := 0.
Definition O_CLOEXEC : Z := 524288.
Definition FD_CLOEXEC : Z := 1.
Definition AT_FDCWD : Z := -100.

(** ** State *)

(** What [private_data] points to. *)
Inductive VObj : Type := ODir (d : AppDir) | OPipe (p : AppPipe) | OFile (f : ClientFile).

Definition fosFileIno (o : VObj) : InodeType :=
  match o with ODir d => ad_inode d | OPipe p => ap_inode p | OFile f => cf_inode f end.
Definition fosFileFd (o : VObj) : Z :=
  match o with ODir d => ad_fd d | OPipe p => ap_fd p | OFile f => cf_fd f end.
Definition fosIsDir (o : VObj) : bool :=
  match it_type (fosFileIno o) with TYPE_DIR | TYPE_DIR_SHARED => true | _ => false end.
Definition fosIsPipe (o : VObj) : bool := bool_decide (it_type (fosFileIno o) = TYPE_PIPE).
Definition fosIsFile (o : VObj) : bool := bool_decide (it_type (fosFileIno o) = TYPE_FILE).

Record Process : Type := mkProcess {
  pr_table : FosFDTable;
  pr_map : fd_map;
  pr_objs : gmap Z VObj;
  pr_next : Z;
  pr_chan : Z;
  closed_fds : bool;
  pr_reading : bool;
  pr_interrupted : bool;
  g_cwd_inode : InodeType;
  g_cwd_in : bool;
  pr_calls : nat
}.

Definition set_ptable (x : FosFDTable) (p : Process) : Process :=
  mkProcess x (pr_map p) (pr_objs p) (pr_next p) (pr_chan p) (closed_fds p) (pr_reading p) (pr_interrupted p) (g_cwd_inode p) (g_cwd_in p) (pr_calls p).
Definition set_pmap (x : fd_map) (p : Process) : Process :=
  mkProcess (pr_table p) x (pr_objs p) (pr_next p) (pr_chan p) (closed_fds p) (pr_reading p) (pr_interrupted p) (g_cwd_inode p) (g_cwd_in p) (pr_calls p).
Definition set_objs (x : gmap Z VObj) (p : Process) : Process :=
  mkProcess (pr_table p) (pr_map p) x (pr_next p) (pr_chan p) (closed_fds p) (pr_reading p) (pr_interrupted p) (g_cwd_inode p) (g_cwd_in p) (pr_calls p).
Definition set_pnext (x : Z) (p : Process) : Process :=
  mkProcess (pr_table p) (pr_map p) (pr_objs p) x (pr_chan p) (closed_fds p) (pr_reading p) (pr_interrupted p) (g_cwd_inode p) (g_cwd_in p) (pr_calls p).
Definition set_closed (x : bool) (p : Process) : Process :=
  mkProcess (pr_table p) (pr_map p) (pr_objs p) (pr_next p) (pr_chan p) x (pr_reading p) (pr_interrupted p) (g_cwd_inode p) (g_cwd_in p) (pr_calls p).
Definition set_signals (reading interrupted : bool) (p : Process) : Process :=
  mkProcess (pr_table p) (pr_map p) (pr_objs p) (pr_next p) (pr_chan p) (closed_fds p) reading interrupted (g_cwd_inode p) (g_cwd_in p) (pr_calls p).
Definition set_cwd (inode : InodeType) (b : bool) (p : Process) : Process :=
  mkProcess (pr_table p) (pr_map p) (pr_objs p) (pr_next p) (pr_chan p) (closed_fds p) (pr_reading p) (pr_interrupted p) inode b (pr_calls p).
Definition set_pcalls (x : nat) (p : Process) : Process :=
  mkProcess (pr_table p) (pr_map p) (pr_objs p) (pr_next p) (pr_chan p) (closed_fds p) (pr_reading p) (pr_interrupted p) (g_cwd_inode p) (g_cwd_in p) x.
Definition set_pchan (x : Z) (p : Process) : Process :=
  mkProcess (pr_table p) (pr_map p) (pr_objs p) (pr_next p) x (closed_fds p) (pr_reading p) (pr_interrupted p) (g_cwd_inode p) (g_cwd_in p) (pr_calls p).

(** A process and the servers. *)
Abbreviation PW := (Process * World)%type.

Definition on_table {A} (m : M FosFDTable A) : M PW A :=
  zoom (fun pw : PW => pr_table pw.1) (fun t pw => (set_ptable t pw.1, pw.2)) m.
Definition on_map {A} (m : M fd_map A) : M PW A :=
  zoom (fun pw : PW => pr_map pw.1) (fun t pw => (set_pmap t pw.1, pw.2)) m.
Definition on_world {A} (m : Z -> M World A) : M PW A :=
  ch ← gets (fun pw : PW => pr_chan pw.1);
  zoom (fun pw : PW => pw.2) (fun w pw => (pw.1, w)) (m ch).
Definition on_proc (f : Process -> Process) : M PW unit := modify (fun pw : PW => (f pw.1, pw.2)).

(** [new], a dereference of [private_data], and an update of the object. *)
Definition new_obj (o : VObj) : M PW Z :=
  a ← gets (fun pw : PW => pr_next pw.1);
  on_proc (fun p => set_pnext (a + 1) (set_objs (<[a := o]> (pr_objs p)) p));;
  mret a.
Definition get_obj (a : Z) : M PW VObj := o ← gets (fun pw : PW => pr_objs pw.1 !! a); deref o.
Definition put_obj (a : Z) (o : VObj) : M PW unit := on_proc (fun p => set_objs (<[a := o]> (pr_objs p)) p).
Definition delete_obj (a : Z) : M PW unit := on_proc (fun p => set_objs (delete a (pr_objs p)) p).

(** Calls of the kernel. *)
Inductive syscall : Type :=
| SysClose (fd : Z)
| SysDup (fd : Z)
| SysDup2 (oldfd newfd : Z)
| SysOpenat (dir_fd : Z) (path : string) (flags mode : Z)
| SysRead (fd count : Z)
| SysWrite (fd : Z) (buf : list Z) (count : Z)
| SysLseek (fd offset whence : Z)
| SysFtruncate (fd length : Z)
| SysTruncate (path : string) (length : Z)
| SysFsync (fd : Z)
| SysPipe (flags : Z)
| SysFcntl (fd cmd arg : Z)
| SysChdir (path : string)
| SysFchdir (fd : Z).

Section Process.
Context `{Config} `{Env}.
Variable early : nat -> nat -> bool.
(** Whether memory is granted, what the kernel returns to the [n]-th call, and
    the bytes it delivers. *)
Variable mem : nat -> bool.
Variable kernel : nat -> syscall -> Z.
Variable kernel_data : nat -> list Z.
(** Fuel for the loops that wait for other processes or walk along links. *)
Variable fuel : nat.

Definition real (c : syscall) : M PW Z :=
  n ← gets (fun pw : PW => pr_calls pw.1);
  on_proc (set_pcalls (S n));;
  mret (kernel n c).

(** [&fosFileOps] *)
Definition fosFileOps : Z := 1.

(** ** Operations on an open file: [file_wrapper.cpp]

    The constructor is the class of the object, which the code finds out from
    the type of its inode. *)

Definition entry_obj (a : Z) : M PW (Z * VObj) :=
  e ← on_table (get_entry a); o ← get_obj (private_data e); mret (private_data e, o).

(** A directory is taken for a file. *)
Definition fosFileRead (a count : Z) : M PW (Z * list Z) :=
  x ← entry_obj a;
  let '(x, o) := x in
  match o with
  | OPipe p =>
      rd ← gets (fun pw : PW => pr_reading pw.1);
      it ← gets (fun pw : PW => pr_interrupted pw.1);
      r ← on_world (fun ch => pipe_read early ch fuel count (mkPipeProc p rd it));
      put_obj x (OPipe (pp_pipe (snd r)));;
      on_proc (set_signals (g_is_reading (snd r)) (g_interrupted (snd r)));;
      mret (i64 (fst r), [])
  | OFile f =>
      r ← on_world (fun ch => cf_read early ch f count);
      let '(n, bytes, f) := r in
      put_obj x (OFile f);; mret (i64 n, bytes)
  | ODir _ => undef
  end.

Definition fosFileWrite (a : Z) (buf : list Z) (count : Z) : M PW Z :=
  x ← entry_obj a;
  let '(x, o) := x in
  match o with
  | OPipe p =>
      n ← on_world (fun ch => pipe_write early ch buf count (mkPipeProc p false false)); mret (i64 n)
  | OFile f =>
      r ← on_world (fun ch => cf_write early ch fuel f buf count);
      put_obj x (OFile (snd r));; mret (i64 (fst r))
  | ODir _ => undef
  end.

Definition fosFileLseek (a offset whence : Z) : M PW Z :=
  x ← entry_obj a;
  let '(x, o) := x in
  match o with
  | OFile f =>
      r ← on_world (fun ch => cf_lseek early ch f offset whence);
      put_obj x (OFile (snd r));; mret (fst r)
  | _ => abort
  end.

Definition fosFileTruncate (a offset : Z) : M PW Z :=
  x ← entry_obj a;
  let '(x, o) := x in
  match o with
  | OFile f =>
      r ← on_world (fun ch => cf_truncate early ch fuel f offset);
      put_obj x (OFile (snd r));; mret (fst r)
  | _ => abort
  end.

(** The object is closed and deleted; what its [close] returns is dropped. *)
Definition fosFileClose (a : Z) : M PW Z :=
  x ← entry_obj a;
  let '(x, o) := x in
  match o with
  | ODir d => on_world (fun ch => fosFdClose early ch (it_server (ad_inode d)) (ad_fd d) (-1) UINT64_MAX);; mret tt
  | OPipe p => mret tt
  | OFile f => on_world (fun ch => cf_close early ch f);; mret tt
  end;;
  delete_obj x;;
  mret 0.

(** The object for a descriptor that is passed on. *)
Definition obj_for (inode : InodeType) (fd : Z) : VObj :=
  match it_type inode with
  | TYPE_DIR | TYPE_DIR_SHARED => ODir (AppDir_new inode fd)
  | TYPE_PIPE => OPipe (AppPipe_new inode fd)
  | _ => OFile (mkClientFile inode fd 0 CACHE_INVALID 0 [])
  end.

(** ** Descriptors: [misc.cpp] *)

Definition g_excludes : list string :=
  ["/bin"; "/dev"; "/etc"; "/home"; "/lib"; "/lib64"; "/opt"; "/proc"; "/root"; "/run"; "/sbin"; "/srv"; "/sys";
   "/usr"; "//usr"].

(** Paths that are left to the kernel. *)
Definition path_excluded (cwd_in : bool) (path : string) : bool :=
  if negb cwd_in then true
  else if negb (starts_with sep path) then false
  else existsb (fun p => String.prefix p path) g_excludes.
Definition fosPathExcluded (path : string) : M PW bool :=
  b ← gets (fun pw : PW => g_cwd_in pw.1); mret (path_excluded b path).

(** [fdGet(fdInt(fd))], which is to succeed. *)
Definition get_file (fd : Z) : M PW Z :=
  n ← on_map (fdInt fd);
  o ← on_table (fdGet n);
  match o with Some a => mret a | None => abort end.

Definition is_internal (fd : Z) : M PW bool := on_map (fdIsInternal fd).

(** An entry that several numbers share gets an object of its own for [fd]. *)
Definition fsFlattenFdInternal (fd : Z) : M PW unit :=
  n ← on_map (fdInt fd);
  a ← get_file fd;
  e ← on_table (get_entry a);
  if 1 <? num_fd e
  then
    o ← get_obj (private_data e);
    ret ← on_world (fun ch => fosFileDup early ch (it_server (fosFileIno o)) (fosFileFd o));
    assert_ (ret =? OK);;
    x ← new_obj (if fosIsDir o then ODir (AppDir_new (fosFileIno o) (fosFileFd o))
                 else if fosIsPipe o then OPipe (AppPipe_new (fosFileIno o) (fosFileFd o))
                 else OFile (mkClientFile (fosFileIno o) (fosFileFd o) 0 CACHE_INVALID 0 []));
    on_table (fdFlatten mem n a x)
  else mret tt.

(** A loop over all numbers, [FD_COUNT] of them. *)
Fixpoint for_fds (n : nat) (i : Z) (body : Z -> M PW unit) : M PW unit :=
  match n with
  | O => mret tt
  | S n' => body i;; for_fds n' (i + 1) body
  end.
Definition each_internal (body : Z -> M PW unit) (i : Z) : M PW unit :=
  b ← is_internal i; if (b : bool) then body i else mret tt.
Definition all_internal (body : Z -> M PW unit) : M PW unit :=
  for_fds (Z.to_nat CONFIG_FD_COUNT) 0 (each_internal body).

Definition fsFlattenFds : M PW unit := all_internal fsFlattenFdInternal.

(** Before a process is cloned its files are given up, and each descriptor is
    duplicated at its server for the child. *)
Definition clone_fd (i : Z) : M PW unit :=
  a ← get_file i;
  x ← entry_obj a;
  let '(x, o) := x in
  match o with
  | OFile f =>
      if fosIsFile o then f ← on_world (fun ch => cf_set_state early ch CACHE_INVALID f); put_obj x (OFile f)
      else mret tt
  | _ => mret tt
  end;;
  ret ← on_world (fun ch => fosFileDup early ch (it_server (fosFileIno o)) (fosFileFd o));
  assert_ (ret =? OK).
Definition fsCloneFds : M PW unit := all_internal clone_fd.

(** ** Close: [close.c]

    [g_faux_initted] is true once the process has started. *)

Definition __close_int (fd : Z) : M PW Z :=
  internal_fd ← on_map (fdInt fd);
  a ← get_file fd;
  e ← on_table (get_entry a);
  (if num_fd e =? 1 then fosFileClose a;; mret tt else mret tt);;
  on_table (fdDestroy internal_fd);;
  on_map (fdRemove fd);;
  mret 0.

Definition __close (fd : Z) : M PW Z :=
  if fd <? 0 then mret (- FdTable.EBADF)
  else
    mapped ← (if 2 <? fd then on_map (fdIsMapped fd) else mret true);
    if negb mapped then mret (- FdTable.EBADF)
    else
      b ← is_internal fd;
      if negb b
      then ext ← on_map (fdExt fd); ret ← real (SysClose ext); on_map (fdRemove fd);; mret ret
      else __close_int fd.

Definition fsCloseFds : M PW unit :=
  b ← gets (fun pw : PW => closed_fds pw.1);
  if (b : bool) then mret tt
  else all_internal (fun i => __close i;; mret tt);; on_proc (set_closed true).

(** ** Duplication: [dup.c] *)

Definition __dup (oldfd : Z) : M PW Z :=
  b ← is_internal oldfd;
  if negb b
  then
    ext ← on_map (fdExt oldfd);
    newfd ← real (SysDup ext);
    if 0 <? newfd then on_map (fdAddExternal newfd) else mret newfd
  else
    a ← get_file oldfd;
    n ← on_table (fdDuplicate mem a (-1));
    newfd ← on_map (fdAddInternal n);
    x ← entry_obj a;
    (if fosIsPipe (snd x) then fsFlattenFdInternal newfd else mret tt);;
    mret newfd.

Definition __dup2 (oldfd newfd : Z) : M PW Z :=
  b ← is_internal oldfd;
  if negb b
  then
    b ← is_internal newfd;
    (if (b : bool) then __close newfd;; mret tt else mret tt);;
    ext ← on_map (fdExt oldfd);
    if ext =? newfd
    then
      on_map (fdSetExternal newfd newfd);;
      if oldfd =? newfd then mret newfd
      else on_map (fdSetExternal oldfd oldfd);; real (SysDup2 newfd oldfd)
    else
      retfd ← real (SysDup2 ext newfd);
      (if 0 <=? retfd then on_map (fdSetExternal retfd retfd) else mret tt);;
      mret retfd
  else if oldfd =? newfd then mret newfd
  else
    a ← get_file oldfd;
    b ← is_internal newfd;
    (if (b : bool)
     then
       na ← get_file newfd;
       e ← on_table (get_entry na);
       (if num_fd e =? 1 then fosFileClose na;; mret tt else mret tt);;
       n ← on_map (fdInt newfd);
       on_table (fdDestroy n);;
       on_map (fdRemove newfd)
     else mret tt);;
    b ← on_map (fdIsExternal newfd);
    (if (b : bool) then on_map (fdRemove newfd) else mret tt);;
    n ← on_table (fdDuplicate mem a (-1));
    on_map (fdSetInternal newfd n);;
    mret newfd.

(** ** Reading, writing, seeking *)

Definition __read (fd count : Z) : M PW (Z * list Z) :=
  b ← is_internal fd;
  if negb b
  then
    ext ← on_map (fdExt fd);
    n ← gets (fun pw : PW => pr_calls pw.1);
    r ← real (SysRead ext count);
    mret (r, kernel_data n)
  else
    n ← on_map (fdInt fd);
    o ← on_table (fdGet n);
    match o with
    | None => mret (- FdTable.EBADF, [])
    | Some a =>
        e ← on_table (get_entry a);
        if has_flag (status_flags e) O_WRONLY then mret (- FdTable.EBADF, []) else fosFileRead a count
    end.

(** [O_RDONLY] is zero, so no entry is refused. *)
Definition __write (fd : Z) (buf : list Z) (count : Z) : M PW Z :=
  b ← is_internal fd;
  if negb b then ext ← on_map (fdExt fd); real (SysWrite ext buf count)
  else
    a ← get_file fd;
    e ← on_table (get_entry a);
    if has_flag (status_flags e) O_RDONLY then mret (- FdTable.EBADF) else fosFileWrite a buf count.

Definition __lseek64 (fd offset whence : Z) : M PW Z :=
  b ← is_internal fd;
  if negb b then ext ← on_map (fdExt fd); real (SysLseek ext offset whence)
  else a ← get_file fd; fosFileLseek a offset whence.

Definition __truncate (path : string) (length : Z) : M PW Z :=
  b ← fosPathExcluded path;
  if (b : bool) then real (SysTruncate path length)
  else cwd ← gets (fun pw : PW => g_cwd_inode pw.1); on_world (fun ch => fosTruncate early ch fuel cwd path length).

Definition __ftruncate (fd length : Z) : M PW Z :=
  b ← is_internal fd;
  if negb b then ext ← on_map (fdExt fd); real (SysFtruncate ext length)
  else
    n ← on_map (fdInt fd);
    o ← on_table (fdGet n);
    a ← deref o;
    fosFileTruncate a length.

Definition __fsync (fd : Z) : M PW Z :=
  b ← is_internal fd;
  if negb b then ext ← on_map (fdExt fd); real (SysFsync ext) else mret 0.

(** ** Opening: [open.c], [pipe.c] *)

(** The directory a call starts from; [None] when the kernel has it. *)
Definition dir_inode (dir_fd : Z) : M PW (option InodeType) :=
  if dir_fd =? AT_FDCWD then i ← gets (fun pw : PW => g_cwd_inode pw.1); mret (Some i)
  else
    b ← is_internal dir_fd;
    if negb b then mret None
    else
      n ← on_map (fdInt dir_fd);
      o ← on_table (fdGet n);
      a ← deref o;
      x ← entry_obj a;
      mret (Some (fosFileIno (snd x))).

Definition add_external (fd : Z) : M PW Z := if 0 <=? fd then on_map (fdAddExternal fd) else mret fd.

(** [fosFileOpen] enters the name into the cache of directory entries before
    the blocks of the file are asked for here. *)
Definition open_obj (inode : InodeType) (path : string) (flags mode : Z) : M PW (Z * option Z) :=
  r ← on_world (fun ch => fosFileOpen early ch inode path flags mode);
  match r with
  | (retval, Some (OpenedFile inode fd size state _)) =>
      f ← on_world (fun ch => cf_open early ch inode fd size state flags);
      x ← new_obj (OFile f); mret (retval, Some x)
  | (retval, Some (OpenedDir inode fd)) => x ← new_obj (ODir (AppDir_new inode fd)); mret (retval, Some x)
  | (retval, None) => mret (retval, None)
  end.

Definition __openat (dir_fd : Z) (path : string) (flags mode : Z) : M PW Z :=
  b ← fosPathExcluded path;
  if (b : bool) then fd ← real (SysOpenat dir_fd path flags mode); add_external fd
  else
    at_dir ← dir_inode dir_fd;
    match at_dir with
    | None => ext ← on_map (fdExt dir_fd); fd ← real (SysOpenat ext path flags mode); add_external fd
    | Some internal_dir_fd =>
        r ← open_obj internal_dir_fd path flags mode;
        let '(retval, private_data) := r in
        if retval <? 0 then mret retval
        else
          match private_data with
          | None => abort
          | Some x =>
              r ← on_table (fdCreate mem fosFileOps x flags);
              let '(internal_fd, file) := r in
              if internal_fd <? 0 then mret (- FdTable.ENOMEM)
              else match file with None => abort | Some _ => on_map (fdAddInternal internal_fd) end
          end
    end.

Definition __open (path : string) (flags mode : Z) : M PW Z := __openat AT_FDCWD path flags mode.
Definition __creat (path : string) (mode : Z) : M PW Z :=
  __openat AT_FDCWD path (Z.lor O_CREAT (Z.lor O_TRUNC O_WRONLY)) mode.

(** Pipes between processes are the file system's when [O_EXCL] is given. *)
Definition __pipe2 (flags : Z) : M PW (Z * option (Z * Z)) :=
  if has_flag flags O_EXCL
  then
    r ← on_world (fun ch => fosPipeOpen early ch);
    let '(retval, ends) := r in
    if retval <? 0 then mret (retval, None)
    else
      e ← match ends with Some e => mret e | None => abort end;
      xr ← new_obj (OPipe (fst e));
      xw ← new_obj (OPipe (snd e));
      r ← on_table (fdCreate mem fosFileOps xr 0);
      if fst r <? 0 then mret (- FdTable.ENOMEM, None)
      else
        r' ← on_table (fdCreate mem fosFileOps xw 0);
        if fst r' <? 0 then mret (- FdTable.ENOMEM, None)
        else
          fd0 ← on_map (fdAddInternal (fst r));
          fd1 ← on_map (fdAddInternal (fst r'));
          mret (retval, Some (fd0, fd1))
  else
    n ← gets (fun pw : PW => pr_calls pw.1);
    retval ← real (SysPipe flags);
    if retval =? 0
    then
      match kernel_data n with
      | fd0 :: fd1 :: _ =>
          fd0 ← on_map (fdAddExternal fd0);
          fd1 ← on_map (fdAddExternal fd1);
          mret (retval, Some (fd0, fd1))
      | _ => undef
      end
    else mret (retval, None).

(** ** [fcntl.c], [chdir.c] *)

Definition F_DUPFD : Z := 0.
Definition F_GETFD : Z := 1.
Definition F_SETFD : Z := 2.
Definition F_GETFL : Z := 3.
Definition F_SETFL : Z := 4.
Definition F_DUPFD_CLOEXEC : Z := 1030.
(** [O_APPEND | O_ASYNC | O_NONBLOCK | O_CLOEXEC] *)
Definition SETFL_ALLOWED : Z := 1024 + 8192 + 2048 + 524288.

Definition set_status (a flags : Z) : M PW unit :=
  e ← on_table (get_entry a);
  on_table (put_entry a (mkFDEntry (e_fd e) (num_fd e) flags (file_ops e) (private_data e))).

Definition __fcntl (fd cmd arg : Z) : M PW Z :=
  b ← is_internal fd;
  if negb b
  then
    m ← on_map (fdIsMapped fd);
    if negb m then real (SysFcntl fd cmd arg) else ext ← on_map (fdExt fd); real (SysFcntl ext cmd arg)
  else
    a ← get_file fd;
    e ← on_table (get_entry a);
    if cmd =? F_DUPFD_CLOEXEC then abort
    else if cmd =? F_DUPFD then __dup fd
    else if cmd =? F_GETFD then mret (if has_flag (status_flags e) O_CLOEXEC then FD_CLOEXEC else 0)
    else if cmd =? F_SETFD
    then if has_flag arg FD_CLOEXEC then set_status a (Z.lor (status_flags e) O_CLOEXEC);; mret 0 else abort
    else if cmd =? F_GETFL then mret (status_flags e)
    else if cmd =? F_SETFL
    then
      set_status a (Z.lor (Z.land (status_flags e) (Z.lnot SETFL_ALLOWED)) (i32 (Z.land arg SETFL_ALLOWED)));; mret 0
    else mret 0.

Definition __chdir (path : string) : M PW Z :=
  b ← fosPathExcluded path;
  c ← gets (fun pw : PW => g_cwd_in pw.1);
  cwd ← gets (fun pw : PW => g_cwd_inode pw.1);
  if b || negb c then on_proc (set_cwd cwd false);; real (SysChdir path)
  else
    r ← on_world (fun ch => fosLookup early ch cwd path);
    let '(rv, inode, _) := r in
    if negb (rv =? OK) then on_proc (set_cwd cwd false);; mret (- ENOENT)
    else on_proc (set_cwd inode true);; mret 0.

Definition __fchdir (fd : Z) : M PW Z :=
  b ← is_internal fd;
  cwd ← gets (fun pw : PW => g_cwd_inode pw.1);
  if negb b then on_proc (set_cwd cwd false);; ext ← on_map (fdExt fd); real (SysFchdir ext)
  else
    n ← on_map (fdInt fd);
    o ← on_table (fdGet n);
    a ← deref o;
    x ← entry_obj a;
    assert_ (fosIsDir (snd x));;
    on_proc (set_cwd (fosFileIno (snd x)) true);;
    mret 0.

(** ** [clone.c], [exit.c] *)

(** The parent's state and the child: a copy with a channel of its own and an
    empty cache of directory entries. *)
Definition __clone (child_chan : Z) : M PW Process :=
  fsFlattenFds;;
  fsCloneFds;;
  p ← gets (fun pw : PW => pw.1);
  modify (fun pw : PW => (pw.1, set_caches (<[child_chan := dc_clear]> (w_caches pw.2)) pw.2));;
  mret (set_pchan child_chan p).

Definition __exit_group : M PW unit := fsCloseFds.

(** ** [start.c] *)

(** The tables of descriptors when a process starts: three slots are reserved for
    the standard streams, and no number stands for anything. *)
Definition init_descriptors : M PW unit :=
  on_table (fdInitialize mem);;
  on_table (fdCreate mem fosFileOps 0 O_RDWR);;
  on_table (fdCreate mem fosFileOps 0 O_RDWR);;
  on_table (fdCreate mem fosFileOps 0 O_RDWR);;
  on_table (fdOnceOnly 0);;
  on_table (fdOnceOnly 1);;
  on_table (fdOnceOnly 2);;
  for_fds (Z.to_nat CONFIG_FD_COUNT) 0 (fun j => on_map (fdRemove j)).

(** What the first process, which inherits nothing, starts with. *)
Definition init_first : M PW unit :=
  on_proc (set_cwd (mkInodeType 0 0 TYPE_DIR) true);;
  on_map (fdSetExternal 0 0);;
  on_map (fdSetExternal 1 1);;
  on_map (fdSetExternal 2 2).
End Process.
