(* ===== verification/FdCounts.v ===== *)
(** * The descriptors a server keeps

    Every descriptor of a server has a count of the objects that use it.  Only
    five requests change the counts; the rest of the server and of the client
    leaves them as they are, which is shown with a predicate that composes. *)

From S2P Require Import Prelude FsTypes BufferCache FsFile FsNode FsServer FsServerInv FsServerOps FsMarshall FsReach FsServerSpec FsDirCache FsClient FsClientSpec FsClientFile.

Ltac wif := match goal with |- wlp (if ?b then _ else _) _ _ => destruct b end.

(** ** The server *)

Section Server.
Context `{Config} `{Env}.

Lemma keeps_OP_COUNTER {A} op (body : M Server A) : keeps m_fds body -> keeps m_fds (OP_COUNTER op body).
Proof.
  intros Hb. unfold OP_COUNTER, opStart, opEnd, rdtscll, s_use. destruct ENABLE_DBG_SHOW_OPS; [|done].
  repeat (done || keeps_step).
Qed.

Ltac unfold_ops :=
  unfold find_file, find_pipe, find_fd, put_file, put_pipe, as_dir, as_file, as_pipe, rdtscll, clock_gettime, s_use,
    erase_delete, clear_stats, update_base, new_base, new_dir, new_file, new_fd, appAddCache, appClose, appRemoveCache in *.
Ltac op_keeps := repeat first [apply keeps_OP_COUNTER | progress unfold_ops | keeps_step; cbv zeta].

Lemma on_file_keeps {A} i f (m : M FState A) : keeps m_fds (on_file i f m).
Proof. intros s. unfold wlp, on_file. by destruct (m _). Qed.
#[local] Hint Resolve on_file_keeps : keeps.

Lemma lazy_dir_keeps i : keeps m_fds (lazy_dir i).
Proof. unfold lazy_dir. op_keeps. Qed.
#[local] Hint Resolve lazy_dir_keeps : keeps.

Lemma create_keeps parent path flags mode : keeps m_fds (FsServer.create parent path flags mode).
Proof. unfold FsServer.create. op_keeps. Qed.
#[local] Hint Resolve create_keeps : keeps.

Lemma appAddCache_path_keeps appId parent path : keeps m_fds (appAddCache_path appId parent path).
Proof. unfold appAddCache_path. op_keeps. Qed.
#[local] Hint Resolve appAddCache_path_keeps : keeps.

Lemma orphan_or_delete_keeps name_of inode c : keeps m_fds (orphan_or_delete name_of inode c).
Proof. unfold orphan_or_delete, has_open_fd, add_orphan. op_keeps. Qed.
#[local] Hint Resolve orphan_or_delete_keeps : keeps.

Lemma destroy_keeps inode : keeps m_fds (FsServer.destroy inode).
Proof. unfold FsServer.destroy. op_keeps. Qed.

Lemma set_entry_keeps appId parent path child d found : keeps m_fds (set_entry appId parent path child d found).
Proof. unfold set_entry. op_keeps. Qed.
#[local] Hint Resolve set_entry_keeps : keeps.

Lemma update_stat_file_keeps inode : keeps m_fds (update_stat_file inode).
Proof. unfold update_stat_file. op_keeps. Qed.
#[local] Hint Resolve update_stat_file_keeps : keeps.

Lemma addmap_keeps appId parent path child overwrite : keeps m_fds (FsServer.addmap appId parent path child overwrite).
Proof. unfold FsServer.addmap. op_keeps. Qed.
#[local] Hint Resolve addmap_keeps : keeps.

Lemma removemap_keeps appId parent path : keeps m_fds (FsServer.removemap appId parent path).
Proof. unfold FsServer.removemap. op_keeps. Qed.
#[local] Hint Resolve removemap_keeps : keeps.

Lemma direntry_loop_keeps appId size i offset written out c :
  keeps m_fds (direntry_loop appId size i offset written out c).
Proof.
  revert i offset written out. induction c as [|[n l] c IH]; intros i offset written out; cbn [direntry_loop]; op_keeps.
  all: apply IH.
Qed.
#[local] Hint Resolve direntry_loop_keeps : keeps.

Lemma read_inode_keeps inode offset count : keeps m_fds (read_inode inode offset count).
Proof. unfold read_inode. op_keeps. Qed.
Lemma write_inode_keeps inode offset buf count : keeps m_fds (write_inode inode offset buf count).
Proof. unfold write_inode. op_keeps. Qed.
Lemma close_pipe_keeps inode fd : keeps m_fds (close_pipe inode fd).
Proof. unfold close_pipe. op_keeps. Qed.
Lemma close_file_keeps inode size v : keeps m_fds (close_file inode size v).
Proof. unfold close_file. op_keeps. Qed.
Lemma set_file_size_keeps inode size : keeps m_fds (set_file_size inode size).
Proof. unfold set_file_size. op_keeps. Qed.
#[local] Hint Resolve destroy_keeps read_inode_keeps write_inode_keeps close_pipe_keeps close_file_keeps set_file_size_keeps : keeps.

Lemma addmap_ok_keeps chan parent path child : keeps m_fds (addmap_ok chan parent path child).
Proof. unfold addmap_ok. op_keeps. Qed.
#[local] Hint Resolve addmap_ok_keeps : keeps.

(** Requests that do not touch the descriptors at all. *)
Definition plain (r : Request) : bool :=
  match r with
  | PipeRequest | OpenRequest _ _ | CreateOpenRequest _ _ _ _ | ReadRequest _ _ | WriteRequest _ _ _
  | LseekRequest _ _ _ | CloseRequest _ _ _ | DupRequest _ | FlushRequest _ _ _ => false
  | _ => true
  end.

Lemma handle_keeps chan r : plain r = true -> keeps m_fds (handle chan r).
Proof.
  destruct r; try done; intros _; simpl;
    unfold FsMarshall.create, FsMarshall.destroy, FsMarshall.addmap, FsMarshall.updatemap, FsMarshall.removemap,
      FsMarshall.fstat, FsMarshall.direntry, FsMarshall.unlink, FsMarshall.readlink, FsMarshall.rmdir,
      FsMarshall.rmdir_and_map, FsMarshall.truncate, FsMarshall.chmod, FsMarshall.chown, FsMarshall.resolve,
      FsMarshall.utimens, FsMarshall.symlink, FsMarshall.blocks,
      FsServer.fstatat, FsServer.direntry, FsServer.unlink, FsServer.rmdir, FsServer.readlink, FsServer.truncate,
      FsServer.chmod, FsServer.chown, FsServer.utimens, FsServer.resolve, FsServer.symlink, FsServer.blocks;
    op_keeps.
Qed.

(** ** Counts *)

Definition counts (s : Server) : gmap Z Z := fd_count <$> m_fds s.

Lemma keeps_counts {A} (m : M Server A) : keeps m_fds m -> keeps counts m.
Proof. intros Hm s. eapply wlp_mono; [apply Hm|]. unfold counts. by intros _ s' ->. Qed.

(** A descriptor is put back with another offset. *)
Lemma counts_put_fd s s1 fd d d' :
  m_fds s !! fd = Some d -> m_fds s1 = m_fds s -> fd_count d' = fd_count d ->
  wlp (put_fd fd d') (fun _ s' => counts s' = counts s) s1.
Proof.
  intros Hd Hs Hc. unfold put_fd, counts. apply wlp_modify. simpl. rewrite Hs, fmap_insert, Hc.
  apply insert_id. by rewrite lookup_fmap, Hd.
Qed.

Lemma wlp_find_fd fd (Q : option FileDescriptor -> Server -> Prop) s : Q (m_fds s !! fd) s -> wlp (find_fd fd) Q s.
Proof. intros HQ. by apply wlp_gets. Qed.

Lemma read_counts fd count : keeps counts (FsServer.read fd count).
Proof.
  intros s. unfold FsServer.read. apply wlp_bind, wlp_find_fd. destruct (m_fds s !! fd) as [d|] eqn:Hd; [|apply wlp_abort].
  apply wlp_bind. eapply wlp_mono; [apply read_inode_keeps|]. intros [[ret c] buf] s1 Hs1.
  apply wlp_bind. eapply wlp_mono; [by eapply counts_put_fd|]. intros [] s2 Hs2. by apply wlp_ret.
Qed.
Lemma write_counts fd buf count : keeps counts (FsServer.write fd buf count).
Proof.
  intros s. unfold FsServer.write. apply wlp_bind, wlp_find_fd. destruct (m_fds s !! fd) as [d|] eqn:Hd; [|apply wlp_abort].
  apply wlp_bind. eapply wlp_mono; [apply write_inode_keeps|]. intros [ret c] s1 Hs1.
  apply wlp_bind. eapply wlp_mono; [by eapply counts_put_fd|]. intros [] s2 Hs2. by apply wlp_ret.
Qed.

(** The statistics do not touch the counts. *)
Lemma wlp_OP_COUNTER_fds {A} op (body : M Server A) (Q : A -> Server -> Prop) s :
  (forall s1, m_fds s1 = m_fds s -> wlp body (fun a s2 => forall s3, m_fds s3 = m_fds s2 -> Q a s3) s1) ->
  wlp (OP_COUNTER op body) Q s.
Proof.
  intros Hb. unfold OP_COUNTER. destruct ENABLE_DBG_SHOW_OPS.
  2: { eapply wlp_mono; [by apply Hb|]. auto. }
  apply wlp_bind. apply (wlp_mono _ (fun _ s1 => m_fds s1 = m_fds s)); [unfold rdtscll, s_use; by wlp_steps|].
  intros st s1 Hs1. apply wlp_bind. unfold opStart. apply wlp_modify, wlp_bind. eapply wlp_mono; [by apply Hb|].
  cbv beta. intros a s2 HQ. apply wlp_bind.
  apply (wlp_mono _ (fun _ s3 => m_fds s3 = m_fds s2)).
  { enough (keeps m_fds (opEnd op st)) as Hk by apply Hk. unfold opEnd, rdtscll, s_use. keeps_steps. }
  intros _ s3 Hs3. apply wlp_ret. by apply HQ.
Qed.

Lemma lseek_counts fd offset whence : keeps counts (FsServer.lseek fd offset whence).
Proof.
  intros s. unfold FsServer.lseek. apply wlp_OP_COUNTER_fds. intros s1 Hs1. apply wlp_bind, wlp_find_fd.
  destruct (m_fds s1 !! fd) as [d|] eqn:Hd; [|apply wlp_abort]. rewrite Hs1 in Hd.
  apply wlp_bind. unfold find_file. apply wlp_gets. case_match; [|apply wlp_abort].
  apply wlp_bind, wlp_assert. intros _. apply wlp_bind. unfold as_file. case_match; try apply wlp_undef.
  apply wlp_ret. cbv zeta. apply wlp_bind.
  apply (wlp_mono _ (fun _ s2 => m_fds s2 = m_fds s)); [repeat case_match; (apply wlp_ret || apply wlp_abort); done|].
  intros o s2 Hs2. apply wlp_bind. eapply wlp_mono; [by eapply (counts_put_fd s s2)|]. intros [] s3 Hs3.
  apply wlp_ret. intros s4 Hs4. rewrite <- Hs3. unfold counts. by rewrite Hs4.
Qed.

Lemma flush_counts fd size offset : keeps counts (FsServer.flush fd size offset).
Proof.
  intros s. unfold FsServer.flush. apply wlp_OP_COUNTER_fds. intros s1 Hs1. apply wlp_bind, wlp_find_fd.
  destruct (m_fds s1 !! fd) as [d|] eqn:Hd; [|apply wlp_ret; unfold counts; congruence]. rewrite Hs1 in Hd.
  apply wlp_bind. eapply wlp_mono; [by eapply (counts_put_fd s s1)|]. intros [] s2 Hs2.
  apply wlp_bind. eapply wlp_mono; [apply set_file_size_keeps|]. intros [] s3 Hs3. apply wlp_ret.
  intros s4 Hs4. rewrite <- Hs2. unfold counts. by rewrite Hs4, Hs3.
Qed.

Lemma dup_counts fd s :
  wlp (FsServer.dup fd) (fun r s' =>
    if fst r =? OK then exists n, counts s !! fd = Some n /\ counts s' = <[fd := u64 (n + 1)]> (counts s)
    else counts s' = counts s) s.
Proof.
  unfold FsServer.dup. apply wlp_OP_COUNTER_fds. intros s1 Hs1. apply wlp_bind, wlp_find_fd.
  destruct (m_fds s1 !! fd) as [d|] eqn:Hd; [|apply wlp_ret; simpl; unfold counts; congruence].
  unfold find_file, find_pipe. do 2 apply wlp_bind, wlp_gets.
  destruct (match m_files s1 !! fd_id d with Some v => Some v | None => m_pipes s1 !! fd_id d end);
    [|apply wlp_ret; simpl; unfold counts; congruence].
  apply wlp_bind, wlp_gets, wlp_bind. unfold put_fd. apply wlp_modify, wlp_ret. intros s4 Hs4. simpl.
  rewrite Hs1 in Hd. exists (fd_count d). unfold counts. rewrite Hs4. simpl. rewrite Hs1, fmap_insert.
  by rewrite lookup_fmap, Hd.
Qed.

(** The count after an object is closed; at zero the descriptor goes away. *)
Definition count_closed (fd n : Z) (c : gmap Z Z) : gmap Z Z :=
  if i32 (u64 (n - 1)) =? 0 then delete fd c else <[fd := u64 (n - 1)]> c.

Lemma close_counts fd offset size s :
  wlp (FsServer.close fd offset size) (fun _ s' =>
    exists n, counts s !! fd = Some n /\ counts s' = count_closed fd n (counts s)) s.
Proof.
  unfold FsServer.close. apply wlp_OP_COUNTER_fds. intros s1 Hs1. apply wlp_bind, wlp_find_fd.
  destruct (m_fds s1 !! fd) as [d|] eqn:Hd; [|apply wlp_abort]. rewrite Hs1 in Hd. cbv zeta. apply wlp_bind.
  unfold put_fd. apply wlp_modify. apply wlp_bind, wlp_assert. intros _. unfold count_closed.
  set (s2 := set_fds _ s1). assert (Hs2 : m_fds s2 = <[fd := fd_remove d]> (m_fds s)) by (simpl; by rewrite Hs1).
  assert (Hn : counts s !! fd = Some (fd_count d)) by (unfold counts; by rewrite lookup_fmap, Hd).
  destruct (fd_count_int (fd_remove d) =? 0) eqn:Hz; unfold fd_count_int in Hz; simpl in Hz.
  - apply wlp_bind. unfold find_file. apply wlp_gets, wlp_bind.
    apply (wlp_mono _ (fun _ s3 => m_fds s3 = m_fds s2)).
    { case_match; [apply close_file_keeps|apply close_pipe_keeps]. }
    intros _ s3 Hs3. apply wlp_bind, wlp_modify, wlp_ret. intros s4 Hs4. exists (fd_count d). split; [done|].
    rewrite Hz. unfold counts. rewrite Hs4. simpl. rewrite Hs3, Hs2, fmap_delete, fmap_insert. apply delete_insert_eq.
  - apply wlp_bind. apply (wlp_mono _ (fun _ s3 => counts s3 = counts s2)).
    { case_match; [by apply wlp_ret|]. apply (counts_put_fd s2 s2 fd (fd_remove d)); [|done..].
      rewrite Hs2. apply lookup_insert_eq. }
    intros _ s3 Hs3. apply wlp_bind. apply (wlp_mono _ (fun _ s4 => m_fds s4 = m_fds s3)).
    { case_match; [by apply wlp_ret|apply set_file_size_keeps]. }
    intros _ s4 Hs4. apply wlp_ret. intros s5 Hs5. exists (fd_count d). split; [done|]. rewrite Hz.
    unfold counts in *. rewrite Hs5, Hs4, Hs3, Hs2, fmap_insert. done.
Qed.

Lemma open_counts inode flags s :
  wlp (FsServer.open inode flags) (fun r s' =>
    match or_fd r with Some fd => counts s' = <[fd := 1]> (counts s) | None => counts s' = counts s end) s.
Proof.
  unfold FsServer.open. apply wlp_OP_COUNTER_fds. intros s1 Hs1. unfold find_file. apply wlp_bind, wlp_gets.
  assert (Hsame : forall s3, m_fds s3 = m_fds s1 -> counts s3 = counts s) by (intros s3 ?; unfold counts; congruence).
  case_match; [|by apply wlp_ret]. do 3 (case_match; [by apply wlp_ret|]).
  apply wlp_bind. unfold new_fd. apply wlp_bind. apply (wlp_mono _ (fun _ s2 => m_fds s2 = m_fds s)).
  { unfold s_use. by wlp_steps. }
  intros n s2 Hs2. apply wlp_ret, wlp_bind. unfold put_fd at 1. apply wlp_modify, wlp_bind.
  set (fdn := fd_fd _). set (s3 := set_fds _ s2).
  assert (Hc3 : counts s3 = <[fdn := 1]> (counts s)) by (unfold counts; simpl; by rewrite Hs2, fmap_insert).
  apply (wlp_mono _ (fun _ s4 => counts s4 = counts s3)).
  - case_match; [|by apply wlp_ret]. apply wlp_bind. apply (wlp_mono _ (fun _ s4 => m_fds s4 = m_fds s3)).
    { enough (Hk : forall b, keeps m_fds (if (b : bool) then
          now ← clock_gettime; file ← as_file v; on_file inode (file_with_base
            (fun b => set_mtime now (set_atime now (set_ctime now b))) file) (File_truncate 0);; mret tt else mret tt))
        by apply Hk. op_keeps. }
    intros _ s4 Hs4. case_match; [|apply wlp_ret; unfold counts; by rewrite Hs4].
    apply wlp_bind, wlp_gets, wlp_bind, wlp_deref. intros v' _.
    apply (counts_put_fd s3 s4 _ (FileDescriptor_new inode (env_rand n))); [apply lookup_insert_eq|done|done].
  - intros _ s4 Hs4. apply wlp_bind, wlp_gets, wlp_bind, wlp_deref. intros v' _. apply wlp_ret.
    intros s5 Hs5. simpl. rewrite <- Hc3, <- Hs4. unfold counts. by rewrite Hs5.
Qed.

(** What a request does to the counts. *)
Definition counts_after (r : Request) (x : Reply) (c c' : gmap Z Z) : Prop :=
  match r with
  | DupRequest fd =>
      match x with
      | DupReply rv _ =>
          if rv =? OK then exists n, c !! fd = Some n /\ c' = <[fd := u64 (n + 1)]> c else c' = c
      | _ => False
      end
  | CloseRequest fd _ _ => exists n, c !! fd = Some n /\ c' = count_closed fd n c
  | OpenRequest _ _ | CreateOpenRequest _ _ _ _ =>
      match x with
      | OpenReply _ (Some fd) _ _ _ _ => c' = <[fd := 1]> c
      | _ => c' = c
      end
  | PipeRequest => True
  | _ => c' = c
  end.

Lemma create_open_counts chan flags parent mode path s :
  wlp (create_open chan flags parent mode path) (fun x s' =>
    match x with OpenReply _ (Some fd) _ _ _ _ => counts s' = <[fd := 1]> (counts s) | _ => counts s' = counts s end) s.
Proof.
  unfold create_open. apply wlp_bind. eapply wlp_mono; [apply create_keeps|]. intros [rv oexist] s1 Hs1.
  assert (Hc1 : counts s1 = counts s) by (unfold counts; by rewrite Hs1).
  case_match; [|by apply wlp_ret]. apply wlp_bind, wlp_deref. intros exist _. apply wlp_bind.
  apply (wlp_mono _ (fun _ s2 => m_fds s2 = m_fds s1)).
  { case_match; [apply addmap_ok_keeps|].
    enough (Hk : keeps m_fds (appAddCache_path chan parent path;; mret exist)) by apply Hk. op_keeps. }
  intros exist' s2 Hs2. apply wlp_bind, wlp_gets. assert (Hc2 : counts s2 = counts s) by (unfold counts; congruence).
  case_match; [|by apply wlp_ret]. apply wlp_bind. eapply wlp_mono; [apply open_counts|].
  intros r s3 Hr. apply wlp_ret. unfold open_reply. rewrite <- Hc2. exact Hr.
Qed.

Lemma handle_counts chan r s : wlp (handle chan r) (fun x s' => counts_after r x (counts s) (counts s')) s.
Proof.
  destruct (plain r) eqn:Hp.
  { eapply wlp_mono; [apply keeps_counts, handle_keeps, Hp|]. intros x s' Hs. by destruct r. }
  destruct r; try done; simpl.
  - apply wlp_true. done.
  - case_match; [apply wlp_undef|]. unfold FsMarshall.open. apply wlp_bind. eapply wlp_mono; [apply open_counts|].
    intros r s1 Hr. by apply wlp_ret.
  - case_match; [apply create_open_counts|apply wlp_undef].
  - unfold FsMarshall.read. apply wlp_bind. eapply wlp_mono; [apply read_counts|]. intros [[? ?] ?] s1 Hr. by apply wlp_ret.
  - unfold FsMarshall.write. apply wlp_bind. eapply wlp_mono; [apply write_counts|]. intros [? ?] s1 Hr. by apply wlp_ret.
  - unfold FsMarshall.lseek. apply wlp_bind. eapply wlp_mono; [apply lseek_counts|]. intros [? ?] s1 Hr. by apply wlp_ret.
  - unfold FsMarshall.close. apply wlp_bind. eapply wlp_mono; [apply close_counts|]. intros rv s1 Hr. by apply wlp_ret.
  - unfold FsMarshall.dup. apply wlp_bind. eapply wlp_mono; [apply dup_counts|]. intros rv s1 Hr. by apply wlp_ret.
  - unfold FsMarshall.flush. apply wlp_bind. eapply wlp_mono; [apply flush_counts|]. intros rv s1 Hr. by apply wlp_ret.
Qed.
End Server.

(** ** The number of the server *)

Section Identity.
Context `{Config} `{Env}.

Lemma id_OP_COUNTER {A} op (body : M Server A) : keeps s_id body -> keeps s_id (OP_COUNTER op body).
Proof.
  intros Hb. unfold OP_COUNTER, opStart, opEnd, rdtscll, s_use. destruct ENABLE_DBG_SHOW_OPS; [|done].
  repeat (done || keeps_step).
Qed.
Lemma id_on_file {A} i f (m : M FState A) : keeps s_id (on_file i f m).
Proof. intros s. unfold wlp, on_file. by destruct (m _). Qed.
#[local] Hint Resolve id_on_file : keeps.

Ltac id_keeps :=
  repeat first [apply id_OP_COUNTER
    | progress unfold find_file, find_pipe, find_fd, put_file, put_pipe, put_fd, as_dir, as_file, as_pipe, rdtscll,
        clock_gettime, s_use, erase_delete, clear_stats, update_base, new_base, new_dir, new_file, new_fd, appAddCache,
        appClose, appRemoveCache, lazy_dir, appAddCache_path, orphan_or_delete, has_open_fd, add_orphan, set_entry,
        update_stat_file, read_inode, write_inode, close_pipe, close_file, set_file_size, addmap_ok in *
    | keeps_step; cbv zeta].

Lemma id_direntry_loop appId size i offset written out c : keeps s_id (direntry_loop appId size i offset written out c).
Proof.
  revert i offset written out. induction c as [|[n l] c IH]; intros i offset written out; cbn [direntry_loop]; id_keeps.
  all: apply IH.
Qed.
#[local] Hint Resolve id_direntry_loop : keeps.

Lemma id_create parent path flags mode : keeps s_id (FsServer.create parent path flags mode).
Proof. unfold FsServer.create. id_keeps. Qed.
Lemma id_open inode flags : keeps s_id (FsServer.open inode flags).
Proof. unfold FsServer.open. id_keeps. Qed.
Lemma id_addmap appId parent path child overwrite : keeps s_id (FsServer.addmap appId parent path child overwrite).
Proof. unfold FsServer.addmap. id_keeps. Qed.
Lemma id_removemap appId parent path : keeps s_id (FsServer.removemap appId parent path).
Proof. unfold FsServer.removemap. id_keeps. Qed.
#[local] Hint Resolve id_create id_open id_addmap id_removemap : keeps.

Lemma handle_id chan r : keeps s_id (handle chan r).
Proof.
  destruct r; simpl;
    unfold FsMarshall.create, FsMarshall.destroy, FsMarshall.addmap, FsMarshall.updatemap, FsMarshall.removemap,
      FsMarshall.pipe, FsMarshall.open, create_open, FsMarshall.read, FsMarshall.write, FsMarshall.lseek,
      FsMarshall.close, FsMarshall.dup, FsMarshall.flush,
      FsMarshall.fstat, FsMarshall.direntry, FsMarshall.unlink, FsMarshall.readlink, FsMarshall.rmdir,
      FsMarshall.rmdir_and_map, FsMarshall.truncate, FsMarshall.chmod, FsMarshall.chown, FsMarshall.resolve,
      FsMarshall.utimens, FsMarshall.symlink, FsMarshall.blocks,
      FsServer.destroy, FsServer.pipe, FsServer.read, FsServer.write, FsServer.lseek, FsServer.close, FsServer.dup,
      FsServer.flush, FsServer.fstatat, FsServer.direntry, FsServer.unlink, FsServer.rmdir, FsServer.readlink,
      FsServer.truncate, FsServer.chmod, FsServer.chown, FsServer.utimens, FsServer.resolve, FsServer.symlink,
      FsServer.blocks;
    id_keeps.
Qed.

Lemma open_ok inode flags s : wlp (FsServer.open inode flags) (fun r _ => or_fd r <> None -> or_ret r = OK) s.
Proof.
  unfold FsServer.open. apply wlp_OP_COUNTER_fds. intros s1 _. apply wlp_bind, wlp_true. intros o s2.
  destruct o; [|by apply wlp_ret]. do 3 (case_match; [by apply wlp_ret|]).
  do 5 (apply wlp_bind, wlp_true; intros ? ?). by apply wlp_ret.
Qed.

(** A descriptor that [create_open] returns is on the server that the inode
    names. *)
Lemma create_open_server chan flags parent mode path s :
  wlp (create_open chan flags parent mode path) (fun x s' =>
    match x with
    | OpenReply rv (Some fd) _ _ _ found => rv = OK /\ exists e, found = Some e /\ it_server e = i32 (s_id s)
    | _ => True
    end) s.
Proof.
  unfold create_open. apply wlp_bind. eapply wlp_mono; [apply id_create|]. intros [rv oexist] s1 Hs1.
  case_match; [|by apply wlp_ret]. apply wlp_bind, wlp_deref. intros exist _. apply wlp_bind.
  apply (wlp_mono _ (fun _ s2 => s_id s2 = s_id s1)).
  { enough (Hk : forall b : bool, keeps s_id (if b then addmap_ok chan parent path exist
      else appAddCache_path chan parent path;; mret exist)) by apply Hk. id_keeps. }
  intros exist' s2 Hs2. apply wlp_bind, wlp_gets. case_match eqn:Hsrv; [|by apply wlp_ret].
  apply wlp_bind. eapply wlp_mono; [apply open_ok|].
  intros r s3 Hr. apply wlp_ret. unfold open_reply. case_match eqn:Hfd; [|done]. split; [apply Hr; by rewrite Hfd|].
  exists exist'. split; [done|]. rewrite <- Hs1, <- Hs2. by apply Z.eqb_eq.
Qed.
End Identity.

(** ** The servers of a world *)

Definition wview (w : World) : list (Z * gmap Z Z) := (fun s => (s_id s, counts s)) <$> w_servers w.

Section Client.
Context `{Config} `{Env}.
Variable early : nat -> nat -> bool.
Variable chan : Z.

Lemma wview_core w' ss : core_eq ss (w_servers w') -> wview w' = (fun s => (s_id s, counts s)) <$> ss.
Proof.
  intros Hc. unfold wview. induction Hc as [|s s' l l' [Hid _ _ Hfds _ _ _] Hl IH]; [done|].
  rewrite !fmap_cons. f_equal; [|exact IH]. unfold counts. by rewrite Hid, Hfds.
Qed.

(** What the answer to an [OPEN] says. *)
Definition reply_ok (r : Request) (x : Reply) (sid : Z) : Prop :=
  match r, x with
  | OpenRequest _ _, OpenReply rv (Some _) _ _ _ _ => rv = OK
  | CreateOpenRequest _ _ _ _, OpenReply rv (Some _) _ _ _ found =>
      rv = OK /\ exists e, found = Some e /\ it_server e = i32 sid
  | _, _ => True
  end.

Lemma handle_reply_ok r s : wlp (handle chan r) (fun x _ => reply_ok r x (s_id s)) s.
Proof.
  destruct r; try (apply wlp_true; intros; done); simpl.
  - case_match; [apply wlp_undef|]. unfold FsMarshall.open. apply wlp_bind. eapply wlp_mono; [apply open_ok|].
    intros r s1 Hr. apply wlp_ret. unfold open_reply. simpl. destruct (or_fd r) eqn:Hfd; [|done]. apply Hr. by rewrite Hfd.
  - case_match; [|apply wlp_undef]. eapply wlp_mono; [apply create_open_server|].
    intros x s1 Hx. by destruct x.
Qed.

Lemma rpc_view k r w :
  wlp (rpc early chan k r) (fun x w' => 0 <= k /\ exists sid c c', wview w !! Z.to_nat k = Some (sid, c) /\
    wview w' = <[Z.to_nat k := (sid, c')]> (wview w) /\ counts_after r x c c' /\ reply_ok r x sid) w.
Proof.
  unfold rpc. apply wlp_bind. unfold w_use. apply wlp_zoom. unfold wlp at 1, tick.
  destruct (Z.ltb_spec k 0); [apply wlp_undef|]. apply wlp_bind, wlp_gets. simpl w_servers.
  destruct (w_servers w !! Z.to_nat k) as [s|] eqn:Hs; [|apply wlp_abort].
  pose proof (handle_counts chan r s) as Hcnt. pose proof (handle_id chan r s) as Hid. pose proof (handle_reply_ok r s) as Hrep.
  unfold wlp in Hcnt, Hid, Hrep. destruct (handle chan r s) as [x s'| | |]; try apply wlp_abort; try apply wlp_undef;
    try apply wlp_timeout.
  apply wlp_bind, wlp_modify, wlp_bind.
  apply (wlp_mono _ (fun _ w' => core_eq (<[Z.to_nat k := s']> (w_servers w)) (w_servers w'))).
  { apply wp_wlp, wp_deliver. intros w' Hw'. exact Hw'. }
  intros [] w' Hw'. apply wlp_ret. split; [done|]. exists (s_id s), (counts s), (counts s').
  split; [unfold wview; by rewrite list_lookup_fmap, Hs|]. split; [|done].
  rewrite (wview_core w' _ Hw'). unfold wview. by rewrite list_fmap_insert, Hid.
Qed.

Definition quiet (r : Request) : bool :=
  match r with
  | PipeRequest | OpenRequest _ _ | CreateOpenRequest _ _ _ _ | CloseRequest _ _ _ | DupRequest _ => false
  | _ => true
  end.

Lemma rpc_keeps k r : quiet r = true -> keeps wview (rpc early chan k r).
Proof.
  intros Hq w. eapply wlp_mono; [apply rpc_view|]. intros x w' (_ & sid & c & c' & Hc & Hw' & Hafter & _).
  rewrite Hw'. apply list_insert_id. rewrite Hc. destruct r; try done; simpl in Hafter; by rewrite Hafter.
Qed.

Lemma mod_cache_keeps f : keeps wview (mod_cache chan f).
Proof. unfold mod_cache. keeps_steps. Qed.
Lemma deliver_keeps which : keeps wview (deliver chan which).
Proof. intros w. apply wp_wlp, wp_deliver. intros w' Hw'. by rewrite (wview_core w' _ Hw'). Qed.
#[local] Hint Resolve mod_cache_keeps deliver_keeps : keeps.
#[local] Hint Extern 1 (keeps wview (rpc _ _ _ _)) => apply rpc_keeps; reflexivity : keeps.

Ltac client_keeps :=
  repeat first [progress unfold status_rpc, inode_rpc, path_owner, path_ownern, get_cache, dispatchCheckNotifications
               | keeps_step; cbv zeta].

Lemma dc_resolve_keeps parent path n : keeps wview (dc_resolve early chan parent path n).
Proof. unfold dc_resolve, _fosResolve. client_keeps. Qed.
#[local] Hint Resolve dc_resolve_keeps : keeps.

Lemma pieces_loop_keeps fuel n m result path len cached :
  keeps wview (pieces_loop early chan fuel n m result path len cached).
Proof.
  revert m result path len cached. induction fuel as [|fuel IH]; intros m result path len cached; cbn [pieces_loop]; client_keeps.
Qed.
#[local] Hint Resolve pieces_loop_keeps : keeps.

Lemma clear_loop_keeps fuel n m parent path len : keeps wview (clear_loop early chan fuel n m parent path len).
Proof.
  revert m parent path len. induction fuel as [|fuel IH]; intros m parent path len; cbn [clear_loop]; client_keeps.
Qed.
#[local] Hint Resolve clear_loop_keeps : keeps.

Lemma fosLookup_keeps parent path : keeps wview (fosLookup early chan parent path).
Proof. unfold fosLookup, _fosResolvePieces. client_keeps. Qed.
Lemma fosLookupParent_keeps parent path : keeps wview (fosLookupParent early chan parent path).
Proof. unfold fosLookupParent, _fosResolvePieces. client_keeps. Qed.
Lemma fosClearCache_keeps parent path : keeps wview (_fosClearCache early chan parent path).
Proof. unfold _fosClearCache. client_keeps. Qed.
Lemma fosCreate_keeps server parent path flags mode : keeps wview (fosCreate early chan server parent path flags mode).
Proof. unfold fosCreate. client_keeps. Qed.
Lemma fosAddMap_keeps server parent path child b : keeps wview (fosAddMap early chan server parent path child b).
Proof. unfold fosAddMap. client_keeps. Qed.
Lemma fosDestroy_keeps server id : keeps wview (fosDestroy early chan server id).
Proof. unfold fosDestroy. client_keeps. Qed.
#[local] Hint Resolve fosLookup_keeps fosLookupParent_keeps fosClearCache_keeps fosCreate_keeps fosAddMap_keeps fosDestroy_keeps : keeps.

(** *** Opening *)

(** The servers know their numbers. *)
Definition ids_ok (v : list (Z * gmap Z Z)) : Prop := forall k sid c, v !! k = Some (sid, c) -> i32 sid = Z.of_nat k.

(** Descriptor [fd] is new on server [k]. *)
Definition new_at (k fd : Z) (v v' : list (Z * gmap Z Z)) : Prop :=
  0 <= k /\ exists sid c, v !! Z.to_nat k = Some (sid, c) /\ v' = <[Z.to_nat k := (sid, <[fd := 1]> c)]> v.

Lemma open_rpc_view k r w :
  match r with OpenRequest _ _ | CreateOpenRequest _ _ _ _ => True | _ => False end -> ids_ok (wview w) ->
  wlp (open_rpc early chan k r) (fun '(rv, fd, _, _, _, found) w' =>
    match fd with
    | Some fd => rv = OK /\ new_at k fd (wview w) (wview w') /\
        match r with CreateOpenRequest _ _ _ _ => exists e, found = Some e /\ it_server e = k | _ => True end
    | None => wview w' = wview w
    end) w.
Proof.
  intros Hr Hids. unfold open_rpc. apply wlp_bind. eapply wlp_mono; [apply rpc_view|].
  intros x w' (Hk & sid & c & c' & Hc & Hw' & Hafter & Hrep). destruct x; try apply wlp_abort. apply wlp_ret.
  assert (Hsame : c' = c -> wview w' = wview w) by (intros ->; rewrite Hw'; by apply list_insert_id).
  destruct r; try done; destruct fd as [fd|]; simpl in *; auto; subst c'.
  - split; [done|]. split; [|done]. split; [done|]. by exists sid, c.
  - destruct Hrep as [-> (e & -> & He)]. split; [done|]. split; [split; [done|by exists sid, c]|].
    exists e. split; [done|]. rewrite He, (Hids _ _ _ Hc). lia.
Qed.

Definition opened_key (o : Opened) : Z * Z :=
  match o with OpenedFile inode fd _ _ _ | OpenedDir inode fd => (it_server inode, fd) end.

Definition opens (v v' : list (Z * gmap Z Z)) (r : Z * option Opened) : Prop :=
  match snd r with Some o => new_at (fst (opened_key o)) (snd (opened_key o)) v v' | None => v' = v end.

(** The request of [open_retry]: an error, or what an open answered. *)
Definition asked (v v' : list (Z * gmap Z Z)) (x : Z + OpenInfo * InodeType * Z) : Prop :=
  match x with
  | inl _ => v' = v
  | inr (rv, fd, _, _, _, _, inode, _) =>
      match fd with Some fd => rv = OK /\ new_at (it_server inode) fd v v' | None => v' = v end
  end.

Lemma open_retry_asks parent path inode flags mode w :
  ids_ok (wview w) ->
  wlp (if has_flag flags O_CREAT
       then
         r ← _fosCreateOpen early chan (it_server inode) parent path flags mode;
         let '(rv, _, _, _, _, found) := r in
         if rv =? EXIST
         then
           if has_flag flags O_EXCL then mret (inl rv)
           else
             found' ← deref found;
             let flags' := Z.land flags (Z.lnot O_CREAT) in
             (if negb (it_server found' =? it_server inode)
              then r' ← _fosOpen early chan found' flags'; mret (inr (r', found', flags'))
              else let '(_, fd, type, size, state, _) := r in
                   mret (inr ((OK, fd, type, size, state, found), found', flags')))
         else mret (inr (r, default inode found, flags))
       else
         r ← _fosOpen early chan inode flags;
         mret (inr (r, inode, flags))) (fun x w' => asked (wview w) (wview w') x) w.
Proof.
  intros Hids. destruct (has_flag flags O_CREAT); apply wlp_bind.
  - unfold _fosCreateOpen. eapply wlp_mono; [by apply open_rpc_view|]. cbv beta.
    intros [[[[[rv fd] type] size] state] found] w1 Hr. destruct (Z.eqb_spec rv EXIST) as [->|Hne].
    + assert (fd = None /\ wview w1 = wview w) as [-> Hw1] by (destruct fd; [by destruct Hr|done]).
      destruct (has_flag flags O_EXCL); [by apply wlp_ret|]. apply wlp_bind, wlp_deref. intros found' ->. cbv zeta.
      case_match; [|by apply wlp_ret]. apply wlp_bind. unfold _fosOpen.
      eapply wlp_mono; [apply open_rpc_view; [done|by rewrite Hw1]|]. cbv beta.
      intros [[[[[rv' fd'] type'] size'] state'] found''] w2 Hr'. apply wlp_ret. simpl. rewrite Hw1 in Hr'.
      destruct fd'; naive_solver.
    + apply wlp_ret. simpl. destruct fd; [|done]. destruct Hr as (-> & Hnew & e & -> & He). simpl. by rewrite He.
  - unfold _fosOpen. eapply wlp_mono; [by apply open_rpc_view|]. cbv beta.
    intros [[[[[rv fd] type] size] state] found] w1 Hr. apply wlp_ret. simpl. destruct fd; naive_solver.
Qed.

Lemma open_retry_view tries save_parent save_path rv parent path inode flags mode cached w :
  ids_ok (wview w) ->
  wlp (open_retry early chan tries save_parent save_path rv parent path inode flags mode cached)
    (fun r w' => opens (wview w) (wview w') r) w.
Proof.
  revert rv parent path inode flags mode cached w.
  induction tries as [|tries IH]; intros rv parent path inode flags mode cached w Hids; [apply wlp_timeout|]. cbn [open_retry].
  apply wlp_bind, wlp_assert. intros _. case_match; [by apply wlp_ret|]. apply wlp_bind.
  eapply wlp_mono; [by apply open_retry_asks|]. cbv beta. intros [e|[[[[[[[rv' fd] type] size] state] found] inode'] flags']] w1 Hx.
  { by apply wlp_ret. }
  simpl in Hx. cbv zeta. set (inode'' := match type with Some t => _ | None => _ end).
  assert (Hsrv : it_server inode'' = it_server inode') by (unfold inode''; by destruct type).
  clearbody inode''.
  destruct (_ && _ && _ && (rv' =? NOT_FOUND)) eqn:Hretry.
  - assert (Hw1 : wview w1 = wview w).
    { destruct fd; [|done]. destruct Hx as [-> _]. by rewrite andb_false_r in Hretry. }
    apply wlp_bind. eapply wlp_mono; [apply fosClearCache_keeps|]. intros [] w2 Hw2.
    apply wlp_bind. eapply wlp_mono; [apply fosLookup_keeps|]. intros [[rv2 inode2] ?] w3 Hw3.
    eapply wlp_mono; [apply IH; by rewrite Hw3, Hw2, Hw1|]. intros r w4. by rewrite Hw3, Hw2, Hw1.
  - destruct (Z.eqb_spec rv' OK) as [->|Hne]; simpl negb; cbv iota.
    2: { apply wlp_ret. destruct fd; [by destruct Hx|done]. }
    apply wlp_bind. apply (wlp_mono _ (fun fd' w2 => fd = Some fd' /\ w2 = w1)).
    { destruct (it_type inode''); try apply wlp_abort; by apply wlp_deref. }
    intros fd' w2 [-> ->]. destruct Hx as [_ Hnew]. apply wlp_bind.
    apply (wlp_mono _ (fun o w2 => w2 = w1 /\ opened_key o = (it_server inode', fd'))).
    { destruct (it_type inode''); try (apply wlp_ret; simpl; by rewrite Hsrv).
      apply wlp_bind, wlp_deref. intros sz _. apply wlp_bind, wlp_deref. intros st _. apply wlp_ret. simpl. by rewrite Hsrv. }
    intros o w2 [-> Ho]. apply wlp_bind. apply (wlp_mono _ (fun _ w2 => wview w2 = wview w1)).
    { case_match; [apply mod_cache_keeps|by apply wlp_ret]. }
    intros [] w2 Hw2. apply wlp_ret. unfold opens. simpl. rewrite Ho, Hw2. done.
Qed.

Lemma wlp_keeps_bind {A B} (m : M World A) (f : A -> M World B) (Q : B -> World -> Prop) v w :
  keeps wview m -> wview w = v -> (forall a w', wview w' = v -> wlp (f a) Q w') -> wlp (m ≫= f) Q w.
Proof.
  intros Hm Hw Hf. apply wlp_bind. eapply wlp_mono; [apply Hm|]. intros a w' Hw'. apply Hf. congruence.
Qed.

Lemma fosFileOpen_view parent path flags mode w :
  ids_ok (wview w) ->
  wlp (fosFileOpen early chan parent path flags mode) (fun r w' => opens (wview w) (wview w') r) w.
Proof.
  intros Hids. unfold fosFileOpen. cbv zeta. set (v := wview w).
  assert (Hsame : forall w1 rv, wview w1 = v ->
    wlp (mret (rv, None) : M World (Z * option Opened)) (fun r w' => opens v (wview w') r) w1)
    by (intros; by apply wlp_ret).
  assert (Hretry : forall rv sp sq parent path inode flags cached w1, wview w1 = v ->
    wlp (open_retry early chan 2 sp sq rv parent path inode flags mode cached)
      (fun r w' => opens v (wview w') r) w1).
  { intros rv sp sq p q inode f b w1 Hw1. rewrite <- Hw1. apply open_retry_view. by rewrite Hw1. }
  destruct (has_flag flags O_CREAT).
  2: { apply (wlp_keeps_bind _ _ _ v); [apply fosLookupParent_keeps|done|]. intros [[[rv p] q] b] w1 Hw1.
       wif; [by apply Hsame|]. apply (wlp_keeps_bind _ _ _ v); [apply fosLookup_keeps|done|].
       intros [[rv2 inode] cached] w2 Hw2. by apply Hretry. }
  wif; [by apply Hsame|].
  apply (wlp_keeps_bind _ _ _ v); [apply fosLookupParent_keeps|done|]. intros [[[rv p] q] b] w1 Hw1.
  wif; [by apply Hsame|]. apply (wlp_keeps_bind _ _ _ v); [client_keeps|done|]. intros owner w2 Hw2.
  wif; [by apply Hretry|]. apply (wlp_keeps_bind _ _ _ v); [apply fosCreate_keeps|done|].
  intros [rv2 found] w3 Hw3. wif; [by apply Hsame|]. apply wlp_bind, wlp_assert. intros _.
  wif; [by apply Hsame|]. apply wlp_bind, wlp_deref. intros found' _.
  apply (wlp_keeps_bind _ _ _ v); [client_keeps|done|]. intros [rv4 inode] w4 Hw4. by apply Hretry.
Qed.
End Client.

(** *** The calls on an open file *)

Section Files.
Context `{Config} `{Env}.
Variable early : nat -> nat -> bool.
Variable chan : Z.
#[local] Hint Resolve mod_cache_keeps deliver_keeps dc_resolve_keeps pieces_loop_keeps fosLookup_keeps fosLookupParent_keeps : keeps.
#[local] Hint Extern 1 (keeps wview (rpc _ _ _ _)) => apply rpc_keeps; reflexivity : keeps.

Ltac client_keeps :=
  repeat first [progress unfold status_rpc, inode_rpc, path_owner, path_ownern, get_cache, dispatchCheckNotifications,
                  fosFdRead, fosFdWrite, fosFdLseek, fosFdFlush, fosGetBlocklist, int_result
               | keeps_step; cbv zeta].

Lemma shm_server_keeps offset count : keeps wview (shm_server offset count).
Proof. unfold shm_server. client_keeps. Qed.
#[local] Hint Resolve shm_server_keeps : keeps.

Lemma fosBufferCacheCopyOut_keeps offset count : keeps wview (fosBufferCacheCopyOut offset count).
Proof. unfold fosBufferCacheCopyOut. client_keeps. Qed.

Lemma fosBufferCacheCopyIn_keeps offset src count : keeps wview (fosBufferCacheCopyIn offset src count).
Proof.
  intros w. unfold fosBufferCacheCopyIn. apply wlp_bind, wlp_assert. intros _. apply wlp_bind.
  apply (wlp_mono _ (fun ks w' => w' = w /\ w_servers w !! fst ks = Some (snd ks))).
  { unfold shm_server. wif; [|apply wlp_undef]. apply wlp_bind, wlp_gets, wlp_bind, wlp_deref. intros s Hs. by apply wlp_ret. }
  intros [k s] w' [-> Hs]. wif; [apply wlp_undef|]. simpl in *. apply wlp_modify. unfold wview. simpl.
  rewrite list_fmap_insert. apply list_insert_id. by rewrite list_lookup_fmap, Hs.
Qed.
#[local] Hint Resolve fosBufferCacheCopyOut_keeps fosBufferCacheCopyIn_keeps : keeps.

Lemma cf_read_loop_keeps fuel f count buf : keeps wview (cf_read_loop fuel f count buf).
Proof. revert f buf. induction fuel as [|fuel IH]; intros f buf; cbn [cf_read_loop]; client_keeps. Qed.
Lemma file_read_loop_keeps fuel server fd count n out :
  keeps wview (file_read_loop early chan fuel server fd count n out).
Proof. revert n out. induction fuel as [|fuel IH]; intros n out; cbn [file_read_loop]; client_keeps. Qed.
Lemma file_write_loop_keeps fuel server fd buf count n :
  keeps wview (file_write_loop early chan fuel server fd buf count n).
Proof. revert n. induction fuel as [|fuel IH]; intros n; cbn [file_write_loop]; client_keeps. Qed.
#[local] Hint Resolve cf_read_loop_keeps file_read_loop_keeps file_write_loop_keeps : keeps.

Lemma cf_read_keeps f count : keeps wview (cf_read early chan f count).
Proof. unfold cf_read, FileObj_read. client_keeps. Qed.

Lemma cf_set_blocks_keeps offset count l f : keeps wview (cf_set_blocks offset count l f).
Proof. unfold cf_set_blocks. client_keeps. Qed.
Lemma clear_blocks_keeps l : keeps wview (clear_blocks l).
Proof. induction l as [|b l IH]; cbn [clear_blocks]; unfold fosBufferCacheClear; client_keeps. Qed.
#[local] Hint Resolve cf_set_blocks_keeps clear_blocks_keeps : keeps.
Lemma more_blocks_keeps fuel f n m : keeps wview (more_blocks early chan fuel f n m).
Proof. revert f n m. induction fuel as [|fuel IH]; intros f n m; cbn [more_blocks]; client_keeps. Qed.
Lemma cache_loop_keeps fuel f n count : keeps wview (cache_loop early chan fuel f n count).
Proof. revert f n. induction fuel as [|fuel IH]; intros f n; cbn [cache_loop]; client_keeps. Qed.
Lemma cf_write_loop_keeps fuel f offset n count buf : keeps wview (cf_write_loop fuel f offset n count buf).
Proof. revert offset n buf. induction fuel as [|fuel IH]; intros offset n buf; cbn [cf_write_loop]; client_keeps. Qed.
#[local] Hint Resolve more_blocks_keeps cache_loop_keeps cf_write_loop_keeps : keeps.

Lemma cf_lseek_keeps f offset whence : keeps wview (cf_lseek early chan f offset whence).
Proof. unfold cf_lseek. client_keeps. Qed.
Lemma cf_set_state_keeps st f : keeps wview (cf_set_state early chan st f).
Proof. unfold cf_set_state, cf_flush. client_keeps. Qed.
#[local] Hint Resolve cf_set_state_keeps : keeps.
Lemma cf_open_keeps inode fd size state flags : keeps wview (cf_open early chan inode fd size state flags).
Proof. unfold cf_open, cache_blocks. client_keeps. Qed.

Lemma fosTruncate_keeps fuel parent path length : keeps wview (fosTruncate early chan fuel parent path length).
Proof.
  revert parent path. induction fuel as [|fuel IH]; intros parent path; cbn [fosTruncate]; unfold fosDoReadlink; client_keeps.
Qed.
#[local] Hint Resolve fosTruncate_keeps : keeps.
Lemma cf_truncate_keeps fuel f len : keeps wview (cf_truncate early chan fuel f len).
Proof. unfold cf_truncate, FileObj_truncate. client_keeps. Qed.
#[local] Hint Resolve cf_truncate_keeps : keeps.
Lemma cf_write_keeps fuel f buf count : keeps wview (cf_write early chan fuel f buf count).
Proof. unfold cf_write, make_room. client_keeps. Qed.

(** *** Duplication and close *)

Lemma fosFileDup_view server fd w :
  wlp (fosFileDup early chan server fd) (fun rv w' =>
    if rv =? OK
    then 0 <= server /\ exists sid c n, wview w !! Z.to_nat server = Some (sid, c) /\ c !! fd = Some n /\
      wview w' = <[Z.to_nat server := (sid, <[fd := u64 (n + 1)]> c)]> (wview w)
    else wview w' = wview w) w.
Proof.
  unfold fosFileDup. apply wlp_bind. eapply wlp_mono; [apply rpc_view|].
  intros x w' (Hk & sid & c & c' & Hc & Hw' & Hafter & _). destruct x; try apply wlp_abort. apply wlp_ret. simpl in Hafter.
  destruct (retval =? OK).
  - destruct Hafter as (n & Hn & ->). split; [done|]. by exists sid, c, n.
  - subst c'. rewrite Hw'. by apply list_insert_id.
Qed.

Definition closed_at (server fd : Z) (v v' : list (Z * gmap Z Z)) : Prop :=
  0 <= server /\ exists sid c n, v !! Z.to_nat server = Some (sid, c) /\ c !! fd = Some n /\
    v' = <[Z.to_nat server := (sid, count_closed fd n c)]> v.

Lemma fosFdClose_view server fd offset size w :
  wlp (fosFdClose early chan server fd offset size) (fun _ w' => closed_at server fd (wview w) (wview w')) w.
Proof.
  unfold fosFdClose, status_rpc. apply wlp_bind, wlp_bind. eapply wlp_mono; [apply rpc_view|].
  intros x w' (Hk & sid & c & c' & Hc & Hw' & (n & Hn & ->) & _). destruct x; try apply wlp_abort. apply wlp_ret.
  apply wlp_bind, wlp_assert. intros _. apply wlp_ret. split; [done|]. by exists sid, c, n.
Qed.

Lemma cf_close_view f w :
  wlp (cf_close early chan f) (fun _ w' => closed_at (it_server (cf_inode f)) (cf_fd f) (wview w) (wview w')) w.
Proof.
  unfold cf_close. apply wlp_bind. apply (wlp_mono _ (fun f' w1 => wview w1 = wview w /\ cf_inode f' = cf_inode f /\ cf_fd f' = cf_fd f)).
  { unfold cf_set_state. apply wlp_bind. apply (wlp_mono _ (fun _ w1 => wview w1 = wview w)).
    - enough (Hk : forall b : bool, keeps wview (if b then cf_flush early chan f else mret tt)) by apply Hk.
      unfold cf_flush. client_keeps.
    - intros [] w1 Hw1. by apply wlp_ret. }
  intros f' w1 (Hw1 & Hi & Hfd). destruct (if negb _ then _ else _) as [[offset size] f2] eqn:Hx.
  assert (cf_inode f2 = cf_inode f /\ cf_fd f2 = cf_fd f) as [-> ->].
  { case_match; simplify_eq; by rewrite <- Hi, <- Hfd. }
  apply wlp_bind. eapply wlp_mono; [apply fosFdClose_view|]. intros rv w2 Hcl. apply wlp_ret. by rewrite <- Hw1.
Qed.
End Files.

(** ** The files of a process *)

Definition same_file (f g : ClientFile) : Prop := cf_inode g = cf_inode f /\ cf_fd g = cf_fd f.

Section SameFile.
Context `{Config} `{Env}.
Variable early : nat -> nat -> bool.
Variable chan : Z.

Lemma same_use f : same_file f (cf_use f).
Proof. unfold cf_use. by case_match. Qed.

Lemma same_trans f g h : same_file f g -> same_file g h -> same_file f h.
Proof. intros [] []. split; congruence. Qed.

Lemma read_loop_same fuel f count buf : gives (fun r => same_file f (snd r)) (cf_read_loop fuel f count buf).
Proof.
  revert f buf. induction fuel as [|fuel IH]; intros f buf; cbn [cf_read_loop]; repeat gives_step; [by apply gives_ret|].
  intros w. eapply wlp_mono; [apply IH|]. by intros r w'.
Qed.

Lemma cf_read_same f count : gives (fun r => same_file f (snd r)) (cf_read early chan f count).
Proof.
  unfold cf_read. cbv zeta. pose proof (same_use f) as Hu. destruct (negb _); [|gives_step; gives_step; by apply gives_ret].
  destruct (_ <? _); [|by apply gives_ret]. eapply gives_bind; [apply read_loop_same|]. cbv beta. intros r Hr.
  gives_step. intros _. apply gives_ret. by apply (same_trans _ _ _ Hu).
Qed.

Lemma set_blocks_same offset count l f : gives (same_file f) (cf_set_blocks offset count l f).
Proof. unfold cf_set_blocks. repeat gives_step. by apply gives_ret. Qed.

Lemma cf_truncate_same fuel f len : gives (fun r => same_file f (snd r)) (cf_truncate early chan fuel f len).
Proof. unfold cf_truncate. gives_step. gives_step. intros r. apply gives_ret. simpl. by case_match. Qed.

Lemma more_blocks_same fuel f n m : gives (same_file f) (more_blocks early chan fuel f n m).
Proof.
  revert f n m. induction fuel as [|fuel IH]; intros f n m; cbn [more_blocks]; [apply gives_timeout|].
  destruct (_ =? 0); [by apply gives_ret|]. cbv zeta. gives_step. intros r.
  eapply gives_bind; [apply set_blocks_same|]. intros g Hg. gives_step. intros _. gives_step. intros c.
  intros w. eapply wlp_mono; [apply IH|]. intros h w' Hh. by apply (same_trans _ _ _ Hg).
Qed.

Lemma make_room_same fuel f n : gives (same_file f) (make_room early chan fuel f n).
Proof.
  unfold make_room. cbv zeta. gives_step. intros c. destruct (_ <? _); [|by apply gives_ret]. gives_step. intros b.
  apply (gives_bind (same_file f)).
  - destruct (_ =? 0); [by apply gives_ret|]. eapply gives_bind; [apply cf_truncate_same|]. intros r Hr. by apply gives_ret.
  - intros g Hg w. eapply wlp_mono; [apply more_blocks_same|]. intros h w' Hh. by apply (same_trans _ _ _ Hg).
Qed.

Lemma cf_write_same fuel f buf count : gives (fun r => same_file f (snd r)) (cf_write early chan fuel f buf count).
Proof.
  unfold cf_write. cbv zeta. pose proof (same_use f) as Hu. destruct (negb _).
  - eapply gives_bind; [apply make_room_same|]. intros g Hg. gives_step. intros n. apply gives_ret.
    apply (same_trans _ _ _ Hu). destruct Hg. by case_match.
  - gives_step. intros r. apply gives_ret. simpl. by destruct r as [n []].
Qed.

Lemma cf_lseek_same f offset whence : gives (fun r => same_file f (snd r)) (cf_lseek early chan f offset whence).
Proof. unfold cf_lseek. destruct (negb _); gives_step; intros r; by apply gives_ret. Qed.

Lemma cf_set_state_same st f : gives (same_file f) (cf_set_state early chan st f).
Proof. unfold cf_set_state. gives_step. intros _. by apply gives_ret. Qed.

Lemma cache_loop_same fuel f n count : gives (same_file f) (cache_loop early chan fuel f n count).
Proof.
  revert f n. induction fuel as [|fuel IH]; intros f n; cbn [cache_loop]; [apply gives_timeout|].
  destruct (_ <? _); [|by apply gives_ret]. cbv zeta. gives_step. intros r.
  eapply gives_bind; [apply set_blocks_same|]. intros g Hg w. eapply wlp_mono; [apply IH|]. intros h w' Hh. by apply (same_trans _ _ _ Hg).
Qed.

Lemma cf_open_same inode fd size state flags :
  gives (fun f => cf_inode f = inode /\ cf_fd f = fd) (cf_open early chan inode fd size state flags).
Proof.
  unfold cf_open, cache_blocks. cbv zeta. eapply gives_bind; [gives_step; intros n; apply cache_loop_same|].
  intros f Hf. eapply gives_bind; [apply cf_set_state_same|]. intros g Hg. apply gives_ret.
  pose proof (same_trans _ _ _ Hf Hg) as [Hi Hfd]. by case_match.
Qed.

(** *** What is opened *)

Definition opened_inode (o : Opened) : InodeType := match o with OpenedFile inode _ _ _ _ | OpenedDir inode _ => inode end.
Definition opened_plain (r : Z * option Opened) : Prop :=
  match snd r with Some o => it_type (opened_inode o) <> TYPE_PIPE /\ 0 <= fst r | None => True end.

Lemma open_retry_plain tries save_parent save_path rv parent path inode flags mode cached :
  gives opened_plain (open_retry early chan tries save_parent save_path rv parent path inode flags mode cached).
Proof.
  revert rv parent path inode flags mode cached.
  induction tries as [|tries IH]; intros rv parent path inode flags mode cached; cbn [open_retry]; [apply gives_timeout|].
  gives_step. intros _. destruct (negb (rv =? OK)); [by apply gives_ret|]. gives_step.
  intros [e|[[[[[[[rv' fd] type] size] state] found] inode'] flags']]; [by apply gives_ret|]. cbv zeta.
  set (inode'' := match type with Some t => _ | None => _ end). destruct (_ && _ && _ && (rv' =? NOT_FOUND)).
  { gives_step. intros _. gives_step. intros [[? ?] ?]. apply IH. }
  destruct (Z.eqb_spec rv' OK) as [->|]; [|by apply gives_ret]. cbn [negb].
  apply (gives_bind (fun _ => it_type inode'' <> TYPE_PIPE)).
  { destruct (it_type inode'') eqn:Ht; try apply gives_abort; intros w; by apply wlp_deref. }
  intros fd' Ht. apply (gives_bind (fun o => it_type (opened_inode o) <> TYPE_PIPE)).
  - destruct (it_type inode'') eqn:Ht'; repeat gives_step; apply gives_ret; simpl; by rewrite Ht'.
  - intros o Ho. gives_step. intros _. by apply gives_ret.
Qed.

Lemma fosFileOpen_plain parent path flags mode : gives opened_plain (fosFileOpen early chan parent path flags mode).
Proof.
  unfold fosFileOpen. repeat (gives_step || apply open_retry_plain || (apply gives_ret; done)).
Qed.
End SameFile.
