(* ===== verification/FsReplies.v ===== *)
(** * What the server answers

    The client casts the answer to a message to the reply structure of that
    message; the server puts the answer into a message it has allocated before it
    knows the answer.  This file says which structure, which status and which
    members every request is answered with, and that the bytes at the end of the
    structure are not more than were allocated. *)

From S2P Require Import Prelude FsTypes BufferCache FsFile FsNode FsServer FsServerInv FsServerSpec FsMarshall FsReach.

(** [has o]: the member is assigned. *)
Definition has {A} (o : option A) : Prop := o <> None.

(** The status is one of a list. *)
Definition one_of (rv : Z) (l : list Z) : Prop := In rv l.

(** ** The protocol *)

(** The members of an answer to an open: none in case of an error, and for a symbolic
    link only the type. *)
Definition opened (rv : Z) (fd : option Z) (type : option FileType) (size : option Z) : Prop :=
  (one_of rv [NOT_FOUND; NOT_DIR; ISDIR] /\ fd = None /\ type = None /\ size = None) \/
  (rv = OK /\ fd = None /\ type = Some TYPE_SYMLINK /\ size = None) \/
  (rv = OK /\ has fd /\ has size /\ exists t, type = Some t /\ t <> TYPE_SYMLINK).

Definition answers (r : Request) (x : Reply) : Prop :=
  match r, x with
  | CreateRequest _ _ _ _, StatusInodeTypeReply rv i => one_of rv [OK; EXIST; ISSYM; INVALID] /\ (has i <-> rv <> INVALID)
  | (AddMapRequest _ child _ _ | UpdateMapRequest _ child _ _ _ _), StatusInodeTypeReply rv i =>
      (rv = OK /\ i = Some child) \/ (rv = EXIST /\ has i)
  | PipeRequest, PipeReply rv _ _ _ => rv = OK
  | OpenRequest _ _, OpenReply rv fd type size state found => found = None /\ has state /\ opened rv fd type size
  | CreateOpenRequest _ _ _ _, OpenReply rv fd type size state found =>
      (has found /\ has state /\ opened rv fd type size) \/
      (one_of rv [EXIST; ISSYM; INVALID] /\ (has found <-> rv <> INVALID) /\
       fd = None /\ type = None /\ size = None /\ state = None)
  | ReadRequest _ _, ReadReply rv n data => (rv = OK \/ n = 0) /\ (data = [] \/ Z.of_nat (length data) = n)
  | WriteRequest _ count _, WriteReply rv n => 0 <= n <= count /\ (rv = OK \/ n = 0 \/ (rv = NOT_FOUND /\ n = count))
  | LseekRequest _ _ _, LseekReply rv _ => rv = OK
  | DupRequest _, DupReply rv info => one_of rv [OK; INVALID; NOT_FOUND] /\ (has info <-> rv = OK)
  | FstatRequest _, StatReply rv buf => one_of rv [OK; NOT_FOUND] /\ (has buf <-> rv = OK)
  | DirEntRequest _ _ _, DirEntReply rv more size buf =>
      (rv = NOT_FOUND /\ more = false /\ size = 0 /\ buf = []) \/
      rv = (if size =? 0 then -1 else Z.of_nat (length buf))
  | ReadlinkRequest _, PathReply rv size path =>
      (rv = NOT_FOUND /\ size = None /\ path = None) \/
      (rv = OK /\ exists p, path = Some p /\ size = Some (Z.of_nat (String.length p)))
  | ResolveRequest _ _, ResolveReply rv child size =>
      one_of rv [OK; NOT_FOUND; INVALID] /\ (has child <-> rv = OK) /\ size = None
  | BlockListRequest _ _ count, BlockListReply rv count' more l =>
      count' = count /\ more = None /\ one_of rv [OK; NO_MEMORY] /\ (rv = OK <-> Z.of_nat (length l) = count)
  | (CloseRequest _ _ _), StatusReply rv => rv = OK
  | (DestroyRequest _ | ChmodRequest _ _ | ChownRequest _ _ _), StatusReply rv => one_of rv [OK; NOT_FOUND]
  | (RemoveMapRequest _ _ | UnlinkRequest _ _ _), StatusReply rv => one_of rv [OK; NOT_FOUND; NOT_DIR]
  | RmdirRequest _ _, StatusReply rv => one_of rv [OK; NOT_DIR; NOT_EMPTY; - EAGAIN]
  | RmdirAndMapRequest _ _ _, StatusReply rv => one_of rv [OK; NOT_DIR; NOT_EMPTY; NOT_FOUND]
  | TruncRequest _ _, StatusReply rv => one_of rv [OK; NOT_FOUND; ISSYM; ISDIR]
  | UTimeNSRequest _ _ _ _, StatusReply rv => one_of rv [OK; NOT_FOUND; ISSYM]
  | SymlinkRequest _ _ _, StatusReply rv => one_of rv [OK; NOT_DIR; EXIST]
  | FlushRequest _ _ _, StatusReply rv => one_of rv [OK; INVALID]
  | _, _ => False
  end.

(** The bytes that a handler allocates for the array at the end of its reply. *)
Definition reply_room `{Config} (r : Request) : Z :=
  match r with
  | ReadRequest _ count => count
  | DirEntRequest _ _ size => size
  | ReadlinkRequest _ => CONFIG_MAX_FNAME_LEN
  | BlockListRequest _ _ count => 8 * count
  | _ => 0
  end.

(** The records of a listing take that many bytes. *)
Definition dirents_bytes (l : list FauxDirent) : Z := zsum (fun d => dirent_reclen (d_name d)) l.

(** The bytes that are put there, and the number of bytes the reply says it has. *)
Definition reply_extent (x : Reply) : Z :=
  match x with
  | ReadReply _ n data => Z.max n (Z.of_nat (length data))
  | DirEntReply _ _ size buf => Z.max size (dirents_bytes buf)
  | PathReply _ _ (Some p) => Z.of_nat (String.length p) + 1
  | BlockListReply _ _ _ l => 8 * Z.of_nat (length l)
  | _ => 0
  end.

(** The numbers of a request are what the members of its structure can hold, and so
    are the names in a listing. *)
Definition request_in_range `{Config} (r : Request) : Prop :=
  match r with
  | ReadRequest _ count | WriteRequest _ count _ => 0 <= count < 2 ^ 64
  | DirEntRequest _ _ size => 0 <= size < 2 ^ 31
  | BlockListRequest _ _ count => 0 <= count < 2 ^ 31
  | ReadlinkRequest _ => 0 <= CONFIG_MAX_FNAME_LEN
  | _ => True
  end.
Definition short (d : FauxDirent) : Prop := Z.of_nat (String.length (d_name d)) < 2 ^ 30.
Definition names_in_range (x : Reply) : Prop := match x with DirEntReply _ _ _ buf => Forall short buf | _ => True end.
(** So are the members of the server the answer to a read depends on. *)
Definition members_in_range (s : Server) : Prop :=
  (forall fd d, m_fds s !! fd = Some d -> 0 <= fd_offset d) /\
  (forall i p, m_pipes s !! i = Some (PipeV p) -> 0 <= p_size p).

(** ** Each operation *)

(** Decides which of the values a result is. *)
Ltac listed :=
  apply gives_ret; unfold one_of, has; simpl;
  repeat split; try done; try tauto; try (intros; discriminate); try (by intros []).

Section Replies.
Context `{Config} `{Env}.
Variable chan : Z.

Lemma gives_op_counter {A} op (P : A -> Prop) (m : M Server A) : gives P m -> gives P (OP_COUNTER op m).
Proof.
  intros Hm. unfold OP_COUNTER. destruct ENABLE_DBG_SHOW_OPS; [|done].
  do 2 (gives_step; intros ?). eapply gives_bind; [exact Hm|]. intros x Hx. gives_step. intros ?. by apply gives_ret.
Qed.

Lemma gives_on_file {A} (P : A -> Prop) i f (m : M FState A) : gives P m -> gives P (on_file i f m).
Proof.
  intros Hm s. unfold wlp, on_file. specialize (Hm (mkFState f (m_buffer_cache s) (s_mem s) (s_tick s))). unfold wlp in Hm.
  by destruct (m _).
Qed.

(** The flag is looked for in [!flags], which is 0 or 1. *)
Lemma no_isdir flags : has_flag (if flags =? 0 then 1 else 0) O_DIRECTORY = false.
Proof. by destruct (flags =? 0). Qed.

Lemma create_gives parent path flags mode :
  gives (fun r => one_of r.1 [OK; EXIST; ISSYM; INVALID] /\ (has r.2 <-> r.1 <> INVALID)) (FsServer.create parent path flags mode).
Proof.
  apply gives_op_counter. repeat (rewrite ?no_isdir, ?andb_false_r; gives_step); listed.
Qed.

Lemma open_gives id flags : gives (fun r => opened (or_ret r) (or_fd r) (or_type r) (or_size r)) (FsServer.open id flags).
Proof.
  apply gives_op_counter. gives_step. intros o. destruct o as [v|]; [|apply gives_ret; left; by repeat split; simpl; auto].
  destruct (isFile v && _) eqn:H1; [apply gives_ret; left; repeat split; simpl; auto|].
  destruct (negb (isFile v) && isDir v && _) eqn:H2; [apply gives_ret; left; repeat split; simpl; auto|].
  destruct (negb (isFile v) && negb (isDir v) && isSymlink v) eqn:Hs.
  { apply gives_ret. right. left. repeat split; simpl. f_equal. apply andb_prop in Hs as [_ Hs]. unfold isSymlink in Hs.
    by destruct (v_type v). }
  do 5 (gives_step; intros ?). apply gives_ret. right. right. repeat split; try done. simpl. eexists. split; [done|].
  intros Ht. unfold isFile, isDir, isSymlink in Hs. by rewrite Ht in Hs.
Qed.

(** The operations with a status only. *)
Lemma destroy_gives id : gives (fun rv => one_of rv [OK; NOT_FOUND]) (FsServer.destroy id).
Proof. apply gives_op_counter. repeat gives_step; listed. Qed.

Lemma removemap_gives id path : gives (fun rv => one_of rv [OK; NOT_FOUND; NOT_DIR]) (FsServer.removemap chan id path).
Proof. apply gives_op_counter. repeat gives_step; listed. Qed.

Lemma unlink_gives id : gives (fun rv => one_of rv [OK; NOT_FOUND]) (FsServer.unlink id).
Proof. apply gives_op_counter. repeat gives_step; listed. Qed.

Lemma rmdir_gives id phase : gives (fun rv => one_of rv [OK; NOT_DIR; NOT_EMPTY; - EAGAIN]) (FsServer.rmdir id phase).
Proof. apply gives_op_counter. repeat gives_step; listed. Qed.

Lemma rmdir_force_gives id : gives (fun rv => one_of rv [OK; NOT_DIR; NOT_EMPTY]) (FsServer.rmdir id RMDIR_FORCE).
Proof. apply gives_op_counter. do 3 gives_step. intros c. simpl. repeat gives_step; listed. Qed.

Lemma truncate_gives id len : gives (fun rv => one_of rv [OK; NOT_FOUND; ISSYM; ISDIR]) (FsServer.truncate id len).
Proof. apply gives_op_counter. repeat gives_step; listed. Qed.

Lemma chmod_gives id mode : gives (fun rv => one_of rv [OK; NOT_FOUND]) (FsServer.chmod id mode).
Proof. apply gives_op_counter. repeat gives_step; listed. Qed.

Lemma chown_gives id uid gid : gives (fun rv => one_of rv [OK; NOT_FOUND]) (FsServer.chown id uid gid).
Proof. apply gives_op_counter. repeat gives_step; listed. Qed.

Lemma utimens_gives id a m flags : gives (fun rv => one_of rv [OK; NOT_FOUND; ISSYM]) (FsServer.utimens id a m flags).
Proof. apply gives_op_counter. repeat gives_step; listed. Qed.

Lemma symlink_gives id src dest : gives (fun rv => one_of rv [OK; NOT_DIR; EXIST]) (FsServer.symlink id src dest).
Proof. apply gives_op_counter. repeat gives_step; listed. Qed.

Lemma flush_gives fd size offset : gives (fun rv => one_of rv [OK; INVALID]) (FsServer.flush fd size offset).
Proof. apply gives_op_counter. repeat gives_step; listed. Qed.

Lemma close_gives fd offset size : gives (fun rv => rv = OK) (FsServer.close fd offset size).
Proof. apply gives_op_counter. repeat gives_step; by apply gives_ret. Qed.

Lemma lseek_gives fd offset whence : gives (fun r => r.1 = OK) (FsServer.lseek fd offset whence).
Proof. apply gives_op_counter. repeat gives_step; by apply gives_ret. Qed.

(** The operations with more members. *)
Lemma pipe_gives : gives (fun r => r.1.1.1 = OK) FsServer.pipe.
Proof. apply gives_op_counter. repeat gives_step; by apply gives_ret. Qed.

Lemma dup_gives fd : gives (fun r => one_of r.1 [OK; INVALID; NOT_FOUND] /\ (has r.2 <-> r.1 = OK)) (FsServer.dup fd).
Proof. apply gives_op_counter. repeat gives_step; listed. Qed.

Lemma fstatat_gives id : gives (fun r => one_of r.1 [OK; NOT_FOUND] /\ (has r.2 <-> r.1 = OK)) (FsServer.fstatat id).
Proof. apply gives_op_counter. repeat gives_step; listed. Qed.

Lemma resolve_gives id path :
  gives (fun r => one_of r.1 [OK; NOT_FOUND; INVALID] /\ (has r.2 <-> r.1 = OK)) (FsServer.resolve chan id path).
Proof. apply gives_op_counter. repeat gives_step; listed. Qed.

Lemma addmap_gives parent path child ow :
  gives (fun r => r = (OK, child) \/ r.1 = EXIST) (FsServer.addmap chan parent path child ow).
Proof. apply gives_op_counter. repeat gives_step; apply gives_ret; simpl; auto. Qed.

Lemma readlink_gives id :
  gives (fun r => (r.1.1 = NOT_FOUND /\ r.2 = None /\ r.1.2 = None) \/
      (r.1.1 = OK /\ exists p, r.1.2 = Some p /\ r.2 = Some (Z.of_nat (String.length p)) /\
         Z.of_nat (String.length p) < CONFIG_MAX_FNAME_LEN)) (FsServer.readlink id).
Proof.
  apply gives_op_counter. gives_step. intros [v|]; [|apply gives_ret; auto]. apply gives_assert. intros _.
  destruct v as [| | |l]; try apply gives_undef. apply gives_assert. intros Hl%Z.ltb_lt. apply gives_ret. simpl in *. eauto 8.
Qed.

(** *** The bytes of a read *)

Lemma u64_le x : 0 <= x -> u64 x <= x.
Proof. intros Hx. unfold u64. apply Z.mod_le; lia. Qed.

Lemma i64_le x : 0 <= x -> i64 x <= x.
Proof. intros Hx. unfold i64. pose proof (Z.mod_le (x + 2 ^ 63) (2 ^ 64) ltac:(lia) ltac:(lia)). lia. Qed.

Lemma read_bytes_length count offset :
  0 <= count -> 0 <= offset -> gives (fun buf => Z.of_nat (length buf) <= count) (read_bytes count offset).
Proof.
  intros Hc Ho. unfold read_bytes. gives_step. intros size. destruct (offset <? size) eqn:Hlt; [|by apply gives_ret].
  gives_step. intros buf. apply gives_assert. intros Hl%Z.eqb_eq. apply gives_ret. rewrite Hl.
  destruct (size <? _) eqn:Hs; [|lia]. pose proof (u64_le (offset + count) ltac:(lia)). lia.
Qed.

Lemma File_read_gives count offset :
  0 <= count -> 0 <= offset ->
  gives (fun r => r.1 = Z.of_nat (length r.2) /\ r.1 <= count) (File_read count offset).
Proof.
  intros Hc Ho. unfold File_read. eapply gives_bind; [by apply read_bytes_length|]. intros buf Hb.
  do 2 (gives_step; intros ?). by apply gives_ret.
Qed.

Lemma Pipe_read_le count p : 0 <= count -> 0 <= p_size p -> (Pipe_read count p).1 <= count.
Proof.
  intros Hc Hp. unfold Pipe_read. repeat case_match; simpl; try lia.
  - pose proof (i64_le (p_size p) Hp). lia.
  - by apply i64_le.
  - unfold EAGAIN. lia.
Qed.

Definition read_shape (count : Z) (r : Z * Z * list Z) : Prop :=
  (r.1.1 = OK \/ r.1.2 = 0) /\ (r.2 = [] \/ Z.of_nat (length r.2) = r.1.2) /\ 0 <= r.1.2 <= count.

Lemma read_inode_shape id offset count s :
  0 <= count -> 0 <= offset -> (forall p, m_pipes s !! id = Some (PipeV p) -> 0 <= p_size p) ->
  wlp (read_inode id offset count) (fun r _ => read_shape count r) s.
Proof.
  intros Hc Ho Hp. apply wlp_OP_COUNTER. intros s1 Hs1. unfold find_file. apply wlp_bind, wlp_gets, wlp_bind.
  apply (wlp_mono _ (fun r _ => match r with inl e => True
    | inr (n, buf) => (n = Z.of_nat (length buf) \/ buf = []) /\ n <= count end)).
  - destruct (m_files s1 !! id) as [v|].
    + wlp_step. wlp_step. wlp_step. apply wlp_true. intros f s2. wlp_step.
      eapply wlp_mono; [apply gives_on_file, File_read_gives; done|]. intros [n buf] s3 [Hn Hle]. apply wlp_ret. auto.
    + unfold find_pipe. apply wlp_bind, wlp_gets. destruct (m_pipes s1 !! id) as [v|] eqn:Hv; [|by apply wlp_ret].
      destruct v as [| |p|]; simpl; try by wlp_step.
      apply wlp_bind, wlp_ret. pose proof (Pipe_read_le count p Hc). destruct (Pipe_read count p) as [n p'].
      apply wlp_bind, wlp_modify, wlp_ret. split; [by right|]. simpl in *. apply H1, (Hp p). by rewrite <- (sc_pipes _ _ Hs1).
  - intros [e|[n buf]] s2 Hr; [apply wlp_ret; intros s3 _; unfold read_shape; simpl; split_and!; auto; lia|]. destruct Hr as [Hl Hn].
    case_match; apply wlp_ret; intros s3 _; unfold read_shape; simpl.
    + split_and!; [auto| |lia..]. destruct Hl as [-> | ->]; auto.
    + split_and!; [auto| |lia..]. destruct Hl as [-> | ->]; [|auto]. destruct buf; [auto|done].
Qed.

Lemma read_gives fd count s :
  0 <= count -> members_in_range s -> wlp (FsServer.read fd count) (fun r _ => read_shape count r) s.
Proof.
  intros Hc [Hf Hp]. unfold FsServer.read. apply wlp_bind, wlp_gets. destruct (m_fds s !! fd) as [d|] eqn:Hd; [|apply wlp_abort].
  cbv zeta. apply wlp_bind. eapply wlp_mono; [apply read_inode_shape; eauto|]. intros [[rv n] buf] s1 Hr.
  by apply wlp_bind, wlp_modify, wlp_ret.
Qed.

(** *** The bytes of a write *)

Lemma File_write_gives buf count offset : 0 <= count -> gives (fun n => n <= count) (File_write buf count offset).
Proof.
  intros Hc. unfold File_write. case_match; [apply gives_ret; lia|].
  apply (gives_bind (fun n => n <= 0)).
  - unfold write_grow. gives_step. intros size. case_match; [|by apply gives_ret].
    apply (gives_bind (fun n => n <= 0)); [|intros n Hn; gives_step; intros _; by apply gives_ret].
    unfold grow. repeat gives_step; apply gives_ret; vm_compute; done.
  - intros n Hn. case_match; [apply gives_ret; lia|]. gives_step. intros m. apply gives_assert. intros ->%Z.eqb_eq.
    do 2 (gives_step; intros ?). by apply gives_ret.
Qed.

Lemma write_inode_gives id offset buf count :
  0 <= count ->
  gives (fun r => 0 <= r.2 <= count /\ (r.1 = OK \/ r.2 = 0 \/ (r.1 = NOT_FOUND /\ r.2 = count))) (write_inode id offset buf count).
Proof.
  intros Hc. apply gives_op_counter. gives_step. intros o.
  apply (gives_bind (fun r => match r with Some n => n <= count | None => True end)).
  - destruct o as [v|]; gives_step; intros a.
    + eapply gives_bind; [by apply gives_on_file, File_write_gives|]. intros n Hn. by apply gives_ret.
    + destruct a as [v|]; [|by apply gives_ret]. gives_step. intros p. simpl. gives_step. intros _. by apply gives_ret, i64_le.
  - intros [n|] Hn; [|apply gives_ret; simpl; split_and!; auto; lia].
    case_match; apply gives_ret; simpl; split_and!; auto; lia.
Qed.

Lemma write_gives fd buf count :
  0 <= count ->
  gives (fun r => 0 <= r.2 <= count /\ (r.1 = OK \/ r.2 = 0 \/ (r.1 = NOT_FOUND /\ r.2 = count))) (FsServer.write fd buf count).
Proof.
  intros Hc. unfold FsServer.write. gives_step. intros [d|]; [|apply gives_abort]. cbv zeta.
  eapply gives_bind; [by apply write_inode_gives|]. intros [rv n] Hr. gives_step. intros _. by apply gives_ret.
Qed.

(** *** The blocks of a file *)

Lemma File_blocks_gives offset count :
  0 <= count ->
  gives (fun r => one_of r.1 [OK; NO_MEMORY] /\ (r.1 = OK <-> Z.of_nat (length r.2) = count) /\ Z.of_nat (length r.2) <= count)
    (File_blocks offset count).
Proof.
  intros Hc. unfold File_blocks. do 2 (gives_step; intros ?). cbv zeta. gives_step. intros v.
  apply (gives_bind (fun l => Z.of_nat (length l) <= count)).
  - pose proof (length_take (u64 ∘ (fun b => b - m_memory a0) <$> v) (Z.to_nat count)) as Hl.
    case_match; [gives_step; intros w|]; apply gives_ret; rewrite ?length_app, !length_take; lia.
  - intros l Hl. case_match; apply gives_ret; unfold one_of; simpl; split_and!; auto; try lia.
    split; [done|lia].
Qed.

Lemma blocks_gives id offset count :
  0 <= count < 2 ^ 31 ->
  gives (fun r => one_of r.1 [OK; NO_MEMORY] /\ (r.1 = OK <-> Z.of_nat (length r.2) = count) /\ Z.of_nat (length r.2) <= count)
    (FsServer.blocks id offset count).
Proof.
  intros Hc. apply gives_op_counter. gives_step. intros [v|]; [|apply gives_abort]. apply gives_assert. intros _.
  gives_step. intros f. apply gives_on_file. rewrite (i32_small count) by lia. apply File_blocks_gives. lia.
Qed.

(** *** The records of a listing *)

Lemma dirent_reclen_bound name : Z.of_nat (String.length name) < 2 ^ 30 -> 0 <= dirent_reclen name <= 2 ^ 30 + 27.
Proof.
  intros Hn. unfold dirent_reclen, u32.
  assert (Hl : 0 <= Z.land (19 + Z.of_nat (String.length name) + 1 + 7) (Z.lnot 7) <= 19 + Z.of_nat (String.length name) + 1 + 7).
  { rewrite <- Z.ldiff_land. change 7 with (Z.ones 3) at 2 4. rewrite Z.ldiff_ones_r, Z.shiftl_mul_pow2, Z.shiftr_div_pow2 by lia.
    pose proof (Z.div_mod (19 + Z.of_nat (String.length name) + 1 + 7) (2 ^ 3) ltac:(lia)).
    pose proof (Z.mod_pos_bound (19 + Z.of_nat (String.length name) + 1 + 7) (2 ^ 3) ltac:(lia)). lia. }
  rewrite Z.mod_small; lia.
Qed.

Lemma dirents_bytes_app l k : dirents_bytes (l ++ k) = dirents_bytes l + dirents_bytes k.
Proof. unfold dirents_bytes, zsum. induction l as [|d l IH]; simpl; lia. Qed.

(** The records in the buffer and the bytes said to be written. *)
Definition filled (size : Z) (out : list FauxDirent) (written : Z) : Prop :=
  0 <= written <= size /\ (Forall short out -> dirents_bytes out = written).

Lemma direntry_loop_filled appId size c : forall i offset written out,
  0 <= size < 2 ^ 31 -> filled size out written ->
  gives (fun r => filled size r.1.1 r.1.2) (direntry_loop appId size i offset written out c).
Proof.
  induction c as [|[name l] c IH]; intros i offset written out Hs Hf; cbn [direntry_loop]; [by apply gives_ret|].
  case_match; [|by apply IH]. cbv zeta. case_match eqn:Hw; [by apply gives_ret|]. gives_step. intros type. gives_step. intros _.
  apply IH; [done|]. destruct Hf as [Hr Hf]. assert (Hu : 0 <= u32 (written + dirent_reclen name)) by (apply Z.mod_pos_bound; lia).
  split; [lia|]. intros [Ho Hd]%Forall_app. apply Forall_inv in Hd. pose proof (dirent_reclen_bound name Hd).
  rewrite dirents_bytes_app, (Hf Ho). unfold dirents_bytes, zsum. simpl. unfold u32. rewrite Z.mod_small; lia.
Qed.

Lemma direntry_gives appId id offset size :
  0 <= size < 2 ^ 31 ->
  gives (fun r => ((r.1.1.1 = NOT_FOUND /\ r.2 = false /\ r.1.2 = 0 /\ r.1.1.2 = []) \/
                   r.1.1.1 = (if r.1.2 =? 0 then -1 else Z.of_nat (length r.1.1.2))) /\ filled size r.1.1.2 r.1.2)
    (FsServer.direntry appId id offset size).
Proof.
  intros Hs. apply gives_op_counter. gives_step. intros [v|]; [|apply gives_ret; split; [by left|by split; simpl; [lia|]]].
  apply gives_assert. intros _. gives_step. intros p.
  apply (gives_bind (fun st => filled size st.2 st.1.2)).
  - repeat case_match; [| |]; try (apply gives_ret; split; simpl; [lia|done]).
    apply gives_assert. intros Hl%Z.leb_le. apply gives_ret. split; simpl; [|done]. split; [|done]. vm_compute. done.
  - intros [[[i o] w] out] Hf. eapply gives_bind; [by apply direntry_loop_filled|]. intros [[out' w'] more] Hf'.
    apply gives_ret. by split; [right|].
Qed.

(** ** Each request *)

Definition conforms (r : Request) (x : Reply) : Prop :=
  answers r x /\ (names_in_range x -> reply_extent x <= reply_room r).

(** A handler that does nothing but call an operation and put its result into the reply. *)
Ltac reply_with lem := eapply gives_bind; [apply lem|]; intros ? ?; apply gives_ret; by split.

Lemma addmap_conforms parent child ow path :
  gives (conforms (AddMapRequest parent child ow path)) (addmap chan parent child ow path).
Proof.
  unfold addmap. eapply gives_bind; [apply addmap_gives|]. intros [rv i] Hr. apply gives_assert. intros _. apply gives_ret.
  split; [|done]. destruct Hr as [[= -> ->] | ->]; [by left|by right].
Qed.

Lemma updatemap_conforms parent child ow old path old_path :
  gives (conforms (UpdateMapRequest parent child ow old path old_path)) (updatemap chan parent child ow old path old_path).
Proof.
  unfold updatemap. eapply gives_bind; [apply addmap_gives|]. intros [rv i] Hr. apply gives_assert. intros _.
  gives_step. intros rr. apply gives_assert. intros _. apply gives_ret.
  split; [|done]. destruct Hr as [[= -> ->] | ->]; [by left|by right].
Qed.

Lemma create_conforms parent flags mode path :
  gives (conforms (CreateRequest parent flags mode path)) (create chan parent flags mode path).
Proof.
  unfold create. eapply gives_bind; [apply create_gives|]. intros [rv o] Ho. gives_step. intros _. by apply gives_ret.
Qed.

Lemma create_open_conforms flags parent mode path :
  gives (conforms (CreateOpenRequest flags parent mode path)) (create_open chan flags parent mode path).
Proof.
  unfold create_open. eapply gives_bind; [apply create_gives|]. intros [rv o] [Hrv Ho]. simpl in *. case_match eqn:Hc.
  - do 3 (gives_step; intros ?). case_match.
    + eapply gives_bind; [apply open_gives|]. intros r Hr. apply gives_ret. split; [|done]. by left.
    + apply gives_ret. split; [|done]. right. by split_and!; [left| |..].
  - apply gives_ret. split; [|done]. right. split_and!; try done.
    destruct Hrv as [<- | Hrv]; [by rewrite orb_true_r in Hc|done].
Qed.

Lemma unlink_conforms id parent_id path :
  gives (conforms (UnlinkRequest id parent_id path)) (unlink chan id parent_id path).
Proof.
  unfold unlink. apply (gives_bind (fun rv => one_of rv [OK; NOT_FOUND; NOT_DIR])).
  { case_match; [listed|apply removemap_gives]. }
  intros rv Hrv. apply (gives_bind (fun rv => one_of rv [OK; NOT_FOUND; NOT_DIR])); [|intros ? ?; by apply gives_ret].
  case_match; [|by apply gives_ret]. eapply gives_mono; [apply unlink_gives|]. unfold one_of. simpl. tauto.
Qed.

Lemma rmdir_and_map_conforms id parent path :
  gives (conforms (RmdirAndMapRequest id parent path)) (rmdir_and_map chan id parent path).
Proof.
  unfold rmdir_and_map. eapply gives_bind; [apply rmdir_force_gives|]. intros rv Hrv.
  apply (gives_bind (fun rv => one_of rv [OK; NOT_DIR; NOT_EMPTY; NOT_FOUND])); [|intros ? ?; by apply gives_ret].
  case_match; [eapply gives_mono; [apply removemap_gives|]|apply gives_ret]; unfold one_of in *; simpl in *; tauto.
Qed.

Lemma direntry_conforms id offset size :
  0 <= size < 2 ^ 31 -> gives (conforms (DirEntRequest id offset size)) (direntry chan id offset size).
Proof.
  intros Hs. unfold direntry. eapply gives_bind; [by apply direntry_gives|]. intros [[[rv buf] n] more] [Hr [Hn Hf]].
  apply gives_ret. split; [exact Hr|]. intros Hx. specialize (Hf Hx). simpl in *. lia.
Qed.

Lemma readlink_conforms id : 0 <= CONFIG_MAX_FNAME_LEN -> gives (conforms (ReadlinkRequest id)) (readlink id).
Proof.
  intros Hm. unfold readlink. eapply gives_bind; [apply readlink_gives|]. intros [[rv path] n] Hr. apply gives_ret. simpl in Hr.
  destruct Hr as [(-> & -> & ->) | (-> & p & -> & -> & Hp)].
  - by split; [left|].
  - split; [right; eauto|]. intros _. simpl. lia.
Qed.

Lemma blocks_conforms id offset count :
  0 <= count < 2 ^ 31 -> gives (conforms (BlockListRequest id offset count)) (blocks id offset count).
Proof.
  intros Hc. unfold blocks. eapply gives_bind; [by apply blocks_gives|]. intros [rv l] (Hrv & Hl & Hle). apply gives_ret.
  split; [done|]. intros _. simpl in *. lia.
Qed.

Lemma write_conforms fd count data :
  0 <= count -> gives (conforms (WriteRequest fd count data)) (write fd count data).
Proof. intros Hc. unfold write. eapply gives_bind; [by apply write_gives|]. intros [rv n] Hr. by apply gives_ret. Qed.

Lemma read_conforms fd count s :
  0 <= count -> members_in_range s -> wlp (read fd count) (fun x _ => conforms (ReadRequest fd count) x) s.
Proof.
  intros Hc Hs. unfold read. apply wlp_bind. eapply wlp_mono; [by apply read_gives|].
  intros [[rv n] data] s1 (H1 & H2 & H3). apply wlp_ret. split; [done|]. intros _. simpl in *.
  destruct H2 as [-> | H2]; simpl; lia.
Qed.

Lemma handle_conforms r s :
  request_in_range r -> members_in_range s -> wlp (handle chan r) (fun x _ => conforms r x) s.
Proof.
  intros Hr Hs.
  assert (Hg : match r with ReadRequest _ _ => True | _ => gives (conforms r) (handle chan r) end);
    [|destruct r; try apply Hg; apply read_conforms; simpl in Hr; [lia|done]].
  clear Hs. destruct r; cbn [handle request_in_range] in *; try done.
  - apply create_conforms.
  - reply_with destroy_gives.
  - apply addmap_conforms.
  - apply updatemap_conforms.
  - reply_with removemap_gives.
  - eapply gives_bind; [apply pipe_gives|]. intros [[[rv a] b] i] Hrv. by apply gives_ret.
  - case_match; [apply gives_undef|]. eapply gives_bind; [apply open_gives|]. intros x Hx. by apply gives_ret.
  - case_match; [apply create_open_conforms|apply gives_undef].
  - apply write_conforms. lia.
  - reply_with lseek_gives.
  - reply_with close_gives.
  - reply_with dup_gives.
  - reply_with fstatat_gives.
  - by apply direntry_conforms.
  - apply unlink_conforms.
  - by apply readlink_conforms.
  - reply_with rmdir_gives.
  - apply rmdir_and_map_conforms.
  - reply_with truncate_gives.
  - reply_with chmod_gives.
  - reply_with chown_gives.
  - eapply gives_bind; [apply resolve_gives|]. intros x [Hx Hc]. apply gives_ret. by split.
  - reply_with utimens_gives.
  - reply_with symlink_gives.
  - by apply blocks_conforms.
  - reply_with flush_gives.
Qed.
End Replies.


(** The members of a state, evaluated. *)
Definition members_in_rangeb (s : Server) : bool :=
  forallb (fun kd => 0 <=? fd_offset (snd kd)) (map_to_list (m_fds s)) &&
  forallb (fun kv => match snd kv with PipeV p => 0 <=? p_size p | _ => true end) (map_to_list (m_pipes s)).

Lemma members_in_range_check s : members_in_rangeb s = true -> members_in_range s.
Proof.
  intros [Hf Hp]%andb_prop. rewrite forallb_forall in Hf, Hp. split.
  - intros fd d Hd. apply Z.leb_le. apply (Hf (fd, d)), list_elem_of_In, elem_of_map_to_list, Hd.
  - intros i p Hi. apply Z.leb_le. apply (Hp (i, PipeV p)), list_elem_of_In, elem_of_map_to_list, Hi.
Qed.

