(* ===== verification/PosixFork.v ===== *)
(** * Descriptors across processes

    A process that is cloned passes its open files on, and every process closes
    its files when it exits.  Descriptors of the servers are shared between
    processes; a server forgets one when its count is down to zero.  Here is the
    invariant of one process and what each of its calls does to the number of
    objects that stand for a descriptor, in step with the count of the server. *)

From S2P Require Import Prelude FsTypes BufferCache FsFile FsNode FsServer FsServerInv FsServerOps FsMarshall FsReach FsServerSpec FsDirCache FsClient FsClientSpec FsClientFile FsClientListing FsClientPipe SpaceAlloc FdTable Posix FdCounts.

(** ** Views *)

(** The descriptor an object stands for, where it is not a pipe. *)
Definition okey (o : VObj) : option (Z * Z) :=
  match o with
  | OPipe _ => None
  | _ => if fosIsPipe o then None else Some (it_server (fosFileIno o), fosFileFd o)
  end.

(** Objects and the descriptors they stand for. *)
Abbreviation obj_keys := (gmap Z (option (Z * Z))).
Definition pkeys (p : Process) : obj_keys := okey <$> pr_objs p.

(** How many of the objects use descriptor [kf]. *)
Definition uses (kf : Z * Z) (ks : obj_keys) : Z := Z.of_nat (size (filter (fun xk => snd xk = Some kf) ks)).

Definition one (kf kf' : Z * Z) : Z := if decide (kf = kf') then 1 else 0.

Lemma uses_empty kf : uses kf ∅ = 0.
Proof. unfold uses. by rewrite map_filter_empty, map_size_empty. Qed.
Lemma uses_insert kf ks x kf' : ks !! x = None -> uses kf (<[x := Some kf']> ks) = uses kf ks + one kf' kf.
Proof.
  intros Hx. unfold uses, one. destruct (decide (kf' = kf)) as [->|Hne].
  - rewrite map_filter_insert_True by done. rewrite map_size_insert_None; [lia|]. by apply map_lookup_filter_None; left.
  - rewrite map_filter_insert_False by (simpl; congruence). rewrite delete_id by done. lia.
Qed.
Lemma uses_delete kf ks x kf' : ks !! x = Some (Some kf') -> uses kf (delete x ks) = uses kf ks - one kf' kf.
Proof.
  intros Hx. rewrite <- (insert_delete_id ks x (Some kf')) at 2 by done.
  rewrite uses_insert by apply lookup_delete_eq. lia.
Qed.
Definition used (kf : Z * Z) (l : list (Z * option (Z * Z))) : Z := Z.of_nat (length (filter (fun xk => snd xk = Some kf) l)).
Lemma uses_list kf ks : uses kf ks = used kf (map_to_list ks).
Proof.
  unfold uses, used. f_equal. rewrite <- length_map_to_list, map_filter_alt.
  rewrite map_to_list_to_map; [done|]. apply (sublist_NoDup _ (map_to_list ks).*1); [apply NoDup_fst_map_to_list|].
  apply fmap_sublist, sublist_filter.
Qed.
Lemma used_perm kf l l' : l ≡ₚ l' -> used kf l = used kf l'.
Proof. intros Hl. unfold used. by rewrite Hl. Qed.
Lemma used_snoc kf l x k : used kf (l ++ [(x, Some k)]) = used kf l + one k kf.
Proof.
  unfold used, one. rewrite filter_app, length_app, filter_cons. simpl.
  destruct (decide (Some k = Some kf)), (decide (k = kf)); simpl; try lia; congruence.
Qed.
Lemma used_submseteq kf l l' : l ⊆+ l' -> used kf l <= used kf l'.
Proof. intros [l2 Hl]%submseteq_Permutation. rewrite (used_perm _ _ _ Hl). unfold used. rewrite filter_app, length_app. lia. Qed.

Lemma uses_nonneg kf ks : 0 <= uses kf ks.
Proof. unfold uses. lia. Qed.
Lemma uses_le kf ks : uses kf ks <= Z.of_nat (size ks).
Proof. unfold uses. apply Nat2Z.inj_le, map_subseteq_size, map_filter_subseteq. Qed.
Lemma uses_pos ks x kf : ks !! x = Some (Some kf) -> 1 <= uses kf ks.
Proof.
  intros Hx. pose proof (uses_delete kf ks x kf Hx) as Hd. pose proof (uses_nonneg kf (delete x ks)).
  unfold one in Hd. rewrite decide_True in Hd by done. lia.
Qed.

(** The count a server keeps for [kf]. *)
Definition cnt (v : list (Z * gmap Z Z)) (kf : Z * Z) : Z :=
  if kf.1 <? 0 then 0
  else match v !! Z.to_nat kf.1 with Some (_, c) => default 0 (c !! kf.2) | None => 0 end.

(** Servers know their numbers, and a descriptor that is not used is forgotten. *)
Record servers_ok (v : list (Z * gmap Z Z)) : Prop := {
  so_ids : ids_ok v;
  so_pos k sid c fd n : v !! k = Some (sid, c) -> c !! fd = Some n -> 0 < n
}.

Lemma cnt_insert v k sid c c' kf :
  0 <= k -> v !! Z.to_nat k = Some (sid, c) ->
  cnt (<[Z.to_nat k := (sid, c')]> v) kf = if decide (kf.1 = k) then default 0 (c' !! kf.2) else cnt v kf.
Proof.
  intros Hk Hv. pose proof (lookup_lt_Some _ _ _ Hv). unfold cnt. case_decide as Hd.
  - rewrite Hd. rewrite (proj2 (Z.ltb_ge _ _)), list_lookup_insert_eq by done. done.
  - destruct (Z.ltb_spec kf.1 0); [done|]. by rewrite list_lookup_insert_ne by lia.
Qed.

(** One server's counts become [c']. *)
Lemma servers_ok_insert v k sid c c' :
  servers_ok v -> v !! k = Some (sid, c) -> (forall fd n, c' !! fd = Some n -> 0 < n) ->
  servers_ok (<[k := (sid, c')]> v).
Proof.
  intros [Hi Hp] Hv Hc. split.
  - intros k' sid' c'' [(-> & ? & _)|[_ Hx]]%list_lookup_insert_Some; simplify_eq; [by eapply Hi|by eapply Hi].
  - intros k' sid' c'' fd n [(-> & ? & _)|[_ Hx]]%list_lookup_insert_Some Hn; simplify_eq; [by eapply Hc|by eapply Hp].
Qed.

Lemma cnt_at v k sid c fd : 0 <= k -> v !! Z.to_nat k = Some (sid, c) -> cnt v (k, fd) = default 0 (c !! fd).
Proof. intros Hk Hv. unfold cnt. simpl. by rewrite (proj2 (Z.ltb_ge _ _)), Hv by done. Qed.

Lemma new_at_cnt v v' k fd :
  servers_ok v -> new_at k fd v v' -> cnt v (k, fd) = 0 ->
  servers_ok v' /\ forall kf, cnt v' kf = cnt v kf + one (k, fd) kf.
Proof.
  intros Hok (Hk & sid & c & Hv & ->) H0. split.
  - apply (servers_ok_insert _ _ _ c); [done|done|]. intros fd' n [[<- <-]|[_ Hn]]%lookup_insert_Some; [lia|by eapply so_pos].
  - intros [k' fd']. rewrite (cnt_insert v k sid c) by done. simpl. unfold one. destruct (decide (k' = k)) as [->|].
    2: { rewrite decide_False by congruence. lia. }
    rewrite (cnt_at v k sid c) in * by done. destruct (decide (fd' = fd)) as [->|].
    + rewrite lookup_insert_eq, decide_True by done. simpl. lia.
    + rewrite lookup_insert_ne, decide_False by congruence. lia.
Qed.

Lemma dup_cnt v k fd sid c n :
  servers_ok v -> 0 <= k -> v !! Z.to_nat k = Some (sid, c) -> c !! fd = Some n -> cnt v (k, fd) < 2 ^ 31 ->
  servers_ok (<[Z.to_nat k := (sid, <[fd := u64 (n + 1)]> c)]> v) /\
  forall kf, cnt (<[Z.to_nat k := (sid, <[fd := u64 (n + 1)]> c)]> v) kf = cnt v kf + one (k, fd) kf.
Proof.
  intros Hok Hk Hv Hc Hb. pose proof (so_pos _ Hok _ _ _ _ _ Hv Hc) as Hn. rewrite (cnt_at v k sid c), Hc in Hb by done.
  simpl in Hb. rewrite u64_small by lia. split.
  - apply (servers_ok_insert _ _ _ c); [done|done|].
    intros fd' n' [[<- <-]|[_ Hn']]%lookup_insert_Some; [lia|by eapply so_pos].
  - intros [k' fd']. rewrite (cnt_insert v k sid c) by done. simpl. unfold one. destruct (decide (k' = k)) as [->|].
    2: { rewrite decide_False by congruence. lia. }
    rewrite (cnt_at v k sid c) by done. destruct (decide (fd' = fd)) as [->|].
    + rewrite lookup_insert_eq, decide_True, Hc by done. done.
    + rewrite lookup_insert_ne, decide_False by congruence. lia.
Qed.

Lemma closed_at_cnt v v' k fd :
  servers_ok v -> closed_at k fd v v' -> cnt v (k, fd) < 2 ^ 31 ->
  servers_ok v' /\ forall kf, cnt v' kf = cnt v kf - one (k, fd) kf.
Proof.
  intros Hok (Hk & sid & c & n & Hv & Hc & ->) Hb. pose proof (so_pos _ Hok _ _ _ _ _ Hv Hc) as Hn.
  rewrite (cnt_at v k sid c), Hc in Hb by done. simpl in Hb. unfold count_closed.
  rewrite u64_small, i32_small by lia. split.
  - apply (servers_ok_insert _ _ _ c); [done|done|]. intros fd' n'. destruct (Z.eqb_spec (n - 1) 0).
    + intros [_ Hn']%lookup_delete_Some. by eapply so_pos.
    + intros [[<- <-]|[_ Hn']]%lookup_insert_Some; [lia|by eapply so_pos].
  - intros [k' fd']. rewrite (cnt_insert v k sid c) by done. simpl. unfold one. destruct (decide (k' = k)) as [->|].
    2: { rewrite decide_False by congruence. lia. }
    rewrite (cnt_at v k sid c) by done. destruct (decide (fd' = fd)) as [->|].
    + rewrite decide_True, Hc by done. destruct (Z.eqb_spec (n - 1) 0); [rewrite lookup_delete_eq|rewrite lookup_insert_eq]; simpl; lia.
    + rewrite decide_False by congruence. destruct (n - 1 =? 0); [rewrite lookup_delete_ne by done|rewrite lookup_insert_ne by done]; lia.
Qed.

(** ** The invariant of a process *)

(** An element of the map that stands for a descriptor of the file system. *)
Definition internal (v : Z) : Prop := 0 < v /\ v <> INT32_MAX.

(** The first three slots, which a process reserves when it starts. *)
Definition reserved (s : nat) : Prop := (s < 3)%nat.

(** Numbers of the application and the other slots of the table are matched one
    to one. *)
Record map_ok (m : fd_map) (es : list slot) : Prop := {
  mo_slot i v : m !! i = Some v -> internal v -> 3 < v /\ exists a, es !! Z.to_nat (v - 1) = Some (Ptr a);
  mo_inj i j v : m !! i = Some v -> m !! j = Some v -> internal v -> i = j;
  mo_mapped s a : es !! s = Some (Ptr a) -> Z.of_nat s < 32 /\ (reserved s \/ exists i, m !! i = Some (Z.of_nat s + 1));
  mo_reserved s : reserved s -> exists a, es !! s = Some (Ptr a)
}.

(** So are objects and the entries that have one. *)
Record objs_ok {V} (h : gmap Z FosFDEntry) (ks : gmap Z V) (next : Z) : Prop := {
  oo_obj a e : h !! a = Some e -> private_data e <> 0 -> exists k, ks !! private_data e = Some k;
  oo_inj a b e e' : h !! a = Some e -> h !! b = Some e' -> private_data e <> 0 -> private_data e = private_data e' -> a = b;
  oo_entry x k : ks !! x = Some k -> x <> 0 /\ exists a e, h !! a = Some e /\ private_data e = x;
  oo_next x : next <= x -> ks !! x = None;
  oo_positive : 0 < next
}.

(** The entries of reserved slots have no object. *)
Definition bare (es : list slot) (h : gmap Z FosFDEntry) : Prop :=
  forall s a e, es !! s = Some (Ptr a) -> h !! a = Some e -> (private_data e = 0 <-> reserved s).

Lemma bare_update es h a e e' : bare es h -> h !! a = Some e -> private_data e' = private_data e -> bare es (<[a := e']> h).
Proof.
  intros Hb Ha Hp s b e1 Hs [[<- <-]|[_ He]]%lookup_insert_Some; [rewrite Hp|]; by eapply Hb.
Qed.

(** A slot gets an entry that has an object. *)
Lemma bare_point es h s a e :
  bare es h -> ~ reserved s -> h !! a = Some e -> private_data e <> 0 -> bare (<[s := Ptr a]> es) h.
Proof.
  intros Hb Hs Ha Hp s' b e1 [(<- & Heq & _)|[_ Hs']]%list_lookup_insert_Some He; [|by eapply Hb].
  simplify_eq. by split.
Qed.

Lemma bare_new es h s a e :
  bare es h -> counted es h -> ~ reserved s -> h !! a = None -> private_data e <> 0 -> bare (<[s := Ptr a]> es) (<[a := e]> h).
Proof.
  intros Hb Hc Hs Ha Hp. apply (bare_point _ _ s a e); [|done|apply lookup_insert_eq|done].
  intros s' b e1 Hs' [[<- <-]|[_ He]]%lookup_insert_Some; [|by eapply Hb].
  destruct (counted_alive _ _ _ _ Hc Hs'). congruence.
Qed.

Lemma bare_drop es h s a e : bare es h -> h !! a = Some e -> bare (<[s := Null]> es) (released a e h).
Proof.
  intros Hb Ha s' b e1 [(_ & ? & _)|[_ Hs']]%list_lookup_insert_Some; [done|]. unfold released.
  destruct (_ <=? _).
  - intros [_ He]%lookup_delete_Some. by eapply Hb.
  - intros He. exact (bare_update es h a e (with_num_fd (num_fd e - 1) e) Hb Ha eq_refl s' b e1 Hs' He).
Qed.

Lemma map_ok_add m es i v s a :
  map_ok m es -> m !! i = Some v -> ~ internal v -> es !! s = Some Null -> Z.of_nat s < 32 ->
  map_ok (<[i := Z.of_nat s + 1]> m) (<[s := Ptr a]> es).
Proof.
  intros [Hs Hj Hm Hr] Hi Hv He Hlt. pose proof (lookup_lt_Some _ _ _ Hi). pose proof (lookup_lt_Some _ _ _ He).
  assert (Hnew : forall j u, m !! j = Some u -> internal u -> Z.to_nat (u - 1) <> s).
  { intros j u Hu Hint <-. destruct (Hs j u Hu Hint) as [_ [b Hb]]. congruence. }
  assert (Hns : ~ reserved s) by (intros [b Hb]%Hr; congruence). unfold reserved in Hns.
  split.
  - intros j u [(<- & <- & _)|[_ Hu]]%list_lookup_insert_Some Hint.
    + split; [lia|]. exists a. rewrite Z.add_simpl_r, Nat2Z.id. by apply list_lookup_insert_eq.
    + pose proof (Hnew j u Hu Hint). rewrite list_lookup_insert_ne by congruence. by eapply Hs.
  - intros j j' u [(<- & <- & _)|[_ Hu]]%list_lookup_insert_Some [(<- & Hu' & _)|[_ Hu']]%list_lookup_insert_Some Hint;
      [done| | |by eapply Hj].
    + destruct (Hnew j' _ Hu' Hint). lia.
    + subst u. destruct (Hnew j _ Hu Hint). lia.
  - intros s' b [(<- & ? & _)|[Hne Hb]]%list_lookup_insert_Some.
    + split; [done|]. right. exists i. by apply list_lookup_insert_eq.
    + destruct (Hm s' b Hb) as [Hlt' [Hrs|[j Hj']]]; (split; [done|]); [by left|right]. exists j.
      rewrite list_lookup_insert_ne; [done|]. intros ->. destruct Hv. simplify_eq. unfold internal, INT32_MAX. lia.
  - intros s' Hs'. destruct (Hr s' Hs') as [b Hb]. exists b. rewrite list_lookup_insert_ne; [done|]. by intros ->.
Qed.

(** Another entry for a slot that is in use. *)
Lemma map_ok_repoint m es s a b :
  map_ok m es -> es !! s = Some (Ptr a) -> map_ok m (<[s := Ptr b]> es).
Proof.
  intros [Hs Hj Hm Hr] He. pose proof (lookup_lt_Some _ _ _ He). split; [|done| |].
  - intros i v Hi Hv. destruct (Hs i v Hi Hv) as [Hlow Hv']. split; [done|]. destruct (decide (s = Z.to_nat (v - 1))) as [->|].
    + exists b. by apply list_lookup_insert_eq.
    + by rewrite list_lookup_insert_ne.
  - intros s' b' [(<- & _)|[_ Hb]]%list_lookup_insert_Some; by eapply Hm.
  - intros s' Hs'. destruct (decide (s = s')) as [<-|]; [exists b; by apply list_lookup_insert_eq|].
    rewrite list_lookup_insert_ne by done. by apply Hr.
Qed.

(** A number is given up with its slot. *)
Lemma map_ok_remove m es i v a u :
  map_ok m es -> m !! i = Some v -> internal v -> es !! Z.to_nat (v - 1) = Some (Ptr a) -> ~ internal u ->
  map_ok (<[i := u]> m) (<[Z.to_nat (v - 1) := Null]> es).
Proof.
  intros [Hs Hj Hm Hr] Hi Hv He Hu. pose proof (lookup_lt_Some _ _ _ Hi). destruct (Hs i v Hi Hv) as [Hlow _]. split.
  - intros j w [(<- & <- & _)|[Hne Hw]]%list_lookup_insert_Some Hint; [done|].
    rewrite list_lookup_insert_ne; [by eapply Hs|]. intros Heq. destruct Hint, Hv.
    assert (w = v) as -> by lia. destruct Hne. by apply (Hj i j v).
  - intros j j' w [(<- & <- & _)|[_ Hw]]%list_lookup_insert_Some [(<- & Hw' & _)|[_ Hw']]%list_lookup_insert_Some Hint;
      [done|done|by subst w|by eapply Hj].
  - intros s' b [(_ & ? & _)|[Hne Hb]]%list_lookup_insert_Some; [done|].
    destruct (Hm s' b Hb) as [Hlt [Hrs|[j Hj']]]; (split; [done|]); [by left|right]. exists j.
    rewrite list_lookup_insert_ne; [done|]. intros ->. simplify_eq. lia.
  - intros s' Hs'. rewrite list_lookup_insert_ne; [by apply Hr|]. unfold reserved in Hs'. lia.
Qed.

(** Numbers of the kernel do not matter. *)
Lemma map_ok_other m es i v u :
  map_ok m es -> m !! i = Some v -> ~ internal v -> ~ internal u -> map_ok (<[i := u]> m) es.
Proof.
  intros [Hs Hj Hm Hr] Hi Hv Hu. split; [| | |done].
  - intros j w [(<- & <- & _)|[Hne Hw]]%list_lookup_insert_Some Hint; [done|by eapply Hs].
  - intros j j' w [(<- & <- & _)|[_ Hw]]%list_lookup_insert_Some [(<- & Hw' & _)|[_ Hw']]%list_lookup_insert_Some Hint;
      [done|done|by subst w|by eapply Hj].
  - intros s' b Hb. destruct (Hm s' b Hb) as [Hlt [Hrs|[j Hj']]]; (split; [done|]); [by left|right]. exists j.
    rewrite list_lookup_insert_ne; [done|]. intros ->. simplify_eq. destruct Hv. unfold internal, INT32_MAX. lia.
Qed.

Lemma objs_ok_new {V} h (ks : gmap Z V) next next' a e x k :
  objs_ok h ks next -> h !! a = None -> private_data e = x -> next <= x < next' ->
  objs_ok (<[a := e]> h) (<[x := k]> ks) next'.
Proof.
  intros [Ho Hi He Hn H0] Ha Hx Hle. assert (Hfresh : ks !! x = None) by (apply Hn; lia).
  assert (Hne : forall b e', h !! b = Some e' -> private_data e' <> x).
  { intros b e' Hb Heq. destruct (Ho b e' Hb) as [? Hk]; [lia|congruence]. }
  split; [| | | |lia].
  - intros b e' [[<- <-]|[_ Hb]]%lookup_insert_Some Hp; [exists k; by rewrite Hx, lookup_insert_eq|].
    rewrite lookup_insert_ne by (pose proof (Hne b e' Hb); congruence). by eapply Ho.
  - intros b b' e1 e2 [[<- <-]|[_ Hb]]%lookup_insert_Some [[<- <-]|[_ Hb']]%lookup_insert_Some H1 Hp; [done| | |by eapply Hi].
    + destruct (Hne _ _ Hb'). congruence.
    + destruct (Hne _ _ Hb). congruence.
  - intros y k' [[<- <-]|[_ Hy]]%lookup_insert_Some; [split; [lia|]; exists a, e; by rewrite lookup_insert_eq|].
    destruct (He y k' Hy) as (Hy0 & b & e' & Hb & <-). split; [done|]. exists b, e'. rewrite lookup_insert_ne by congruence. done.
  - intros y Hy. rewrite lookup_insert_ne by lia. apply Hn. lia.
Qed.

Lemma objs_ok_update {V} h (ks : gmap Z V) next a e e' :
  objs_ok h ks next -> h !! a = Some e -> private_data e' = private_data e -> objs_ok (<[a := e']> h) ks next.
Proof.
  intros [Ho Hi He Hn H0] Ha Hp. split; [| | |done|done].
  - intros b e1 [[<- <-]|[_ Hb]]%lookup_insert_Some; [rewrite Hp|]; by eapply Ho.
  - intros b b' e1 e2 [[<- <-]|[_ Hb]]%lookup_insert_Some [[<- <-]|[_ Hb']]%lookup_insert_Some H1 Hq; [done| | |by eapply Hi].
    + eapply Hi; [done|done|congruence|congruence].
    + eapply Hi; [done|done|congruence|congruence].
  - intros y k Hy. destruct (He y k Hy) as (Hy0 & b & e1 & Hb & Hq). split; [done|]. destruct (decide (b = a)) as [->|].
    + exists a, e'. rewrite lookup_insert_eq. split; [done|congruence].
    + exists b, e1. by rewrite lookup_insert_ne.
Qed.

Lemma objs_ok_delete {V} h (ks : gmap Z V) next a e :
  objs_ok h ks next -> h !! a = Some e -> objs_ok (delete a h) (delete (private_data e) ks) next.
Proof.
  intros [Ho Hi He Hn H0] Ha. split; [| | | |done].
  - intros b e1 [Hne Hb]%lookup_delete_Some Hp. rewrite lookup_delete_ne; [by eapply Ho|]. intros Heq. destruct Hne.
    eapply (Hi a b e e1); [done|done|congruence|done].
  - intros b b' e1 e2 [_ Hb]%lookup_delete_Some [_ Hb']%lookup_delete_Some. by eapply Hi.
  - intros y k [Hne Hy]%lookup_delete_Some. destruct (He y k Hy) as (Hy0 & b & e1 & Hb & <-). split; [done|]. exists b, e1.
    rewrite lookup_delete_ne by congruence. done.
  - intros y Hy. apply lookup_delete_None. right. by apply Hn.
Qed.

(** Objects that stand for a descriptor of a server: no pipes. *)
Definition plain (ks : obj_keys) : Prop := forall x, ks !! x <> Some None.

Lemma plain_insert ks x kf : plain ks -> plain (<[x := Some kf]> ks).
Proof. intros Hp y [[_ ?]|[_ Hy]]%lookup_insert_Some; [done|by apply (Hp y)]. Qed.
Lemma plain_delete ks x : plain ks -> plain (delete x ks).
Proof. intros Hp y [_ Hy]%lookup_delete_Some. by apply (Hp y). Qed.

Lemma length_omap_le {A B} (f : A -> option B) l : (length (omap f l) <= length l)%nat.
Proof. induction l as [|x l IH]; [done|]. csimpl. case_match; simpl; lia. Qed.

Lemma wlp_unbind {S A B} (m : M S A) (f : A -> M S B) Q s :
  wlp (m ≫= f) Q s -> wlp m (fun a s' => wlp (f a) Q s') s.
Proof. unfold wlp, mbind, M_bind. by destruct (m s). Qed.

(** ** Calls of one process *)

Section Processes.
Context `{Config} `{Env}.
Variable early : nat -> nat -> bool.
Variable mem : nat -> bool.
Variable kernel : nat -> syscall -> Z.
Variable kernel_data : nat -> list Z.
Variable fuel : nat.

(** The tables of a process, and those of one that has no pipes. *)
Record proc_wf (p : Process) : Prop := {
  po_table : table_ok (pr_table p);
  po_length : length (pr_map p) = Z.to_nat CONFIG_FD_COUNT;
  po_map : map_ok (pr_map p) (fd_entries (pr_table p));
  po_objs : objs_ok (heap (pr_table p)) (pkeys p) (pr_next p);
  po_bare : bare (fd_entries (pr_table p)) (heap (pr_table p))
}.
Record proc_ok (p : Process) : Prop := {
  po_wf :> proc_wf p;
  po_plain : plain (pkeys p)
}.

Lemma entry_slot t a e : table_ok t -> heap t !! a = Some e -> exists s, fd_entries t !! s = Some (Ptr a).
Proof.
  intros Ht Ha. pose proof (to_counted _ Ht a) as Hc. rewrite Ha in Hc. destruct Hc as (_ & Hpos & _).
  unfold refs in Hpos. destruct (filter _ _) as [|s l] eqn:Hf; [simpl in Hpos; lia|].
  assert (Hin : s ∈ filter (fun s => s = Ptr a) (fd_entries t)) by (rewrite Hf; left).
  apply list_elem_of_filter in Hin as [-> Hin]. by apply list_elem_of_lookup in Hin.
Qed.

(** A process has at most 32 files open. *)
Lemma proc_bound p : proc_ok p -> Z.of_nat (size (pkeys p)) <= 32.
Proof.
  intros [[Ht _ _ Ho _] _]. set (es := fd_entries (pr_table p)) in *. set (h := heap (pr_table p)) in *.
  set (data s := match s with Ptr a => private_data <$> h !! a | _ => None end).
  enough (Hsub : (map_to_list (pkeys p)).*1 ⊆+ omap data (take 32 es)).
  { apply submseteq_length in Hsub. rewrite length_fmap, length_map_to_list in Hsub.
    pose proof (length_omap_le data (take 32 es)). rewrite length_take in *. lia. }
  apply NoDup_submseteq; [apply NoDup_fst_map_to_list|]. intros x Hx.
  apply list_elem_of_fmap in Hx as ([y k] & -> & Hk%elem_of_map_to_list). simpl.
  destruct (oo_entry _ _ _ Ho y k Hk) as (_ & a & e & Ha & He). apply list_elem_of_omap. exists (Ptr a).
  split; [|simpl; by rewrite Ha, <- He].
  destruct (entry_slot _ _ _ Ht Ha) as [i Hi].
  destruct (to_open _ Ht (Z.of_nat i) a) as [Hlt _]; [lia|by rewrite Nat2Z.id|].
  apply list_elem_of_lookup. exists i. rewrite lookup_take_lt by lia. done.
Qed.

Definition inv (R : Z * Z -> Z) (pw : PW) : Prop :=
  proc_ok pw.1 /\ servers_ok (wview pw.2) /\ forall kf, cnt (wview pw.2) kf = R kf + uses kf (pkeys pw.1).

(** The uses of other processes are no danger to the width of the counts. *)
Definition moderate (R : Z * Z -> Z) : Prop := forall kf, 0 <= R kf < 2 ^ 31 - 64.

Lemma cnt_small R pw kf : inv R pw -> moderate R -> 0 <= cnt (wview pw.2) kf < 2 ^ 31.
Proof.
  intros (Hp & _ & Hb) HR. rewrite Hb. specialize (HR kf). pose proof (proc_bound _ Hp).
  pose proof (uses_le kf (pkeys pw.1)). pose proof (uses_nonneg kf (pkeys pw.1)). lia.
Qed.

(** What the invariant depends on. *)
Definition pview (pw : PW) := (pr_table pw.1, pr_map pw.1, pkeys pw.1, pr_next pw.1, closed_fds pw.1, wview pw.2).

(** The invariant holds after a call, which is not the exit. *)
Definition good (R : Z * Z -> Z) (pw pw' : PW) : Prop := inv R pw' /\ closed_fds pw'.1 = closed_fds pw.1.

Lemma inv_view R pw pw' : pview pw' = pview pw -> inv R pw -> inv R pw'.
Proof.
  destruct pw as [p w], pw' as [p' w']. unfold pview. simpl. intros Hv ([[Ht Hl Hm Ho Hbr] Hpl] & Hs & Hb).
  injection Hv as Et Em Ek En _ Ew. unfold inv. simpl in *. rewrite Ew, Ek. split; [|done].
  split; [split|]; rewrite ?Et, ?Em, ?Ek, ?En; done.
Qed.

(** *** The parts of a process *)

Lemma set_ptable_id (pw : PW) : (set_ptable (pr_table pw.1) pw.1, pw.2) = pw.
Proof. by destruct pw as [[] ?]. Qed.
Lemma set_pmap_id (pw : PW) : (set_pmap (pr_map pw.1) pw.1, pw.2) = pw.
Proof. by destruct pw as [[] ?]. Qed.

(** Reading of the map. *)
Lemma on_map_read {A} fd (k : Z -> M fd_map A) (Q : A -> PW -> Prop) pw :
  (forall v, 0 <= fd -> pr_map pw.1 !! Z.to_nat fd = Some v -> wlp (on_map (k v)) Q pw) ->
  wlp (on_map (v ← map_at fd; k v)) Q pw.
Proof.
  intros HQ. apply wlp_zoom, wlp_bind. unfold map_at. apply wlp_bind, wlp_gets.
  destruct (Z.ltb_spec fd 0); [apply wlp_undef|]. apply wlp_deref. intros v Hv. specialize (HQ v ltac:(done) Hv).
  unfold wlp, on_map, zoom in *. by destruct (k v (pr_map pw.1)).
Qed.
Lemma on_map_ret {A} (a : A) (Q : A -> PW -> Prop) pw : Q a pw -> wlp (on_map (mret a)) Q pw.
Proof. intros HQ. apply wlp_zoom, wlp_ret. by rewrite set_pmap_id. Qed.

Definition is_int (v : Z) : bool := (0 <? v) && negb (v =? INT32_MAX).
Lemma is_int_spec v : is_int v = true <-> internal v.
Proof. unfold is_int, internal. lia. Qed.

Lemma fdInt_wlp fd (Q : Z -> PW -> Prop) pw :
  (forall v, 0 <= fd -> pr_map pw.1 !! Z.to_nat fd = Some v -> internal v -> Q (v - 1) pw) -> wlp (on_map (fdInt fd)) Q pw.
Proof.
  intros HQ. apply on_map_read. intros v Hfd Hv. apply wlp_zoom, wlp_bind, wlp_assert. intros H1.
  apply wlp_bind, wlp_assert. intros H2. apply wlp_ret. rewrite set_pmap_id. apply (HQ v); [done|done|]. split; lia.
Qed.

Lemma is_internal_wlp fd (Q : bool -> PW -> Prop) pw :
  (forall v, 0 <= fd -> pr_map pw.1 !! Z.to_nat fd = Some v -> Q (is_int v) pw) -> wlp (is_internal fd) Q pw.
Proof. intros HQ. apply on_map_read. intros v Hfd Hv. apply on_map_ret. by apply HQ. Qed.

Lemma fdExt_wlp fd (Q : Z -> PW -> Prop) pw :
  (forall v, 0 <= fd -> pr_map pw.1 !! Z.to_nat fd = Some v -> Q (if v =? INT32_MAX then fd else (v + 1) * -1) pw) ->
  wlp (on_map (fdExt fd)) Q pw.
Proof. intros HQ. apply on_map_read. intros v Hfd Hv. destruct (_ =? _) eqn:Hx; apply on_map_ret; by specialize (HQ v Hfd Hv); rewrite Hx in HQ. Qed.

Lemma map_set_wlp fd v (Q : unit -> PW -> Prop) pw :
  (0 <= fd < Z.of_nat (length (pr_map pw.1)) -> Q tt (set_pmap (<[Z.to_nat fd := v]> (pr_map pw.1)) pw.1, pw.2)) ->
  wlp (on_map (map_set fd v)) Q pw.
Proof.
  intros HQ. apply wlp_zoom. unfold map_set. apply wlp_bind, wlp_gets. unfold id. case_match; [|apply wlp_undef].
  apply wlp_modify, HQ. lia.
Qed.

(** [fd] is an open number, [s] its slot, [a] the entry. *)
Record file_at (p : Process) (fd v a : Z) (e : FosFDEntry) : Prop := {
  fa_fd : 0 <= fd;
  fa_map : pr_map p !! Z.to_nat fd = Some v;
  fa_int : internal v;
  fa_slot : fd_entries (pr_table p) !! Z.to_nat (v - 1) = Some (Ptr a);
  fa_entry : heap (pr_table p) !! a = Some e
}.

Lemma file_at_ex p fd v : proc_wf p -> 0 <= fd -> pr_map p !! Z.to_nat fd = Some v -> internal v -> exists a e, file_at p fd v a e.
Proof.
  intros Hp Hfd Hv Hi. destruct (mo_slot _ _ (po_map _ Hp) _ _ Hv Hi) as [_ [a Ha]].
  destruct (counted_alive _ _ _ _ (to_counted _ (po_table _ Hp)) Ha) as [e He]. by exists a, e.
Qed.

(** The slot of a file is not reserved, and its entry has an object. *)
Lemma file_plain p fd v a e : proc_wf p -> file_at p fd v a e -> ~ reserved (Z.to_nat (v - 1)).
Proof. intros Hp [_ Hv Hi _ _]. destruct (mo_slot _ _ (po_map _ Hp) _ _ Hv Hi). unfold reserved. lia. Qed.
Lemma file_data p fd v a e : proc_wf p -> file_at p fd v a e -> private_data e <> 0.
Proof.
  intros Hp Hf Hz. apply (file_plain _ _ _ _ _ Hp Hf). by apply (po_bare _ Hp _ a e (fa_slot _ _ _ _ _ Hf) (fa_entry _ _ _ _ _ Hf)).
Qed.

Lemma get_file_wlp fd (Q : Z -> PW -> Prop) pw :
  proc_ok pw.1 -> (forall v a e, file_at pw.1 fd v a e -> Q a pw) -> wlp (get_file fd) Q pw.
Proof.
  intros Hp HQ. unfold get_file. apply wlp_bind, fdInt_wlp. intros v Hfd Hv Hi.
  destruct (file_at_ex _ _ _ Hp Hfd Hv Hi) as (a & e & Hf). apply wlp_bind, wlp_zoom, wp_wlp, fdGet_wp; [apply Hp| |].
  - intros b e' _ Hb _. rewrite set_ptable_id. apply wlp_ret. apply (HQ v a e) in Hf as Hq.
    destruct Hf. by simplify_eq.
  - intros Hno. destruct (Hno a); [destruct Hi; lia|]. apply Hf.
Qed.

Lemma get_entry_wlp a (Q : FosFDEntry -> PW -> Prop) pw :
  (forall e, heap (pr_table pw.1) !! a = Some e -> Q e pw) -> wlp (on_table (get_entry a)) Q pw.
Proof.
  intros HQ. apply wlp_zoom. unfold get_entry. apply wlp_bind, wlp_gets, wlp_deref. intros e He.
  rewrite set_ptable_id. by apply HQ.
Qed.

Lemma get_obj_wlp x (Q : VObj -> PW -> Prop) pw :
  (forall o, pr_objs pw.1 !! x = Some o -> Q o pw) -> wlp (get_obj x) Q pw.
Proof. intros HQ. unfold get_obj. by apply wlp_bind, wlp_gets, wlp_deref. Qed.

(** The object of an entry is not a pipe. *)
Lemma obj_plain p a e o :
  proc_ok p -> heap (pr_table p) !! a = Some e -> pr_objs p !! private_data e = Some o ->
  okey o = Some (it_server (fosFileIno o), fosFileFd o) /\ pkeys p !! private_data e = Some (okey o) /\ fosIsPipe o = false.
Proof.
  intros Hp _ Ho. assert (Hk : pkeys p !! private_data e = Some (okey o)) by (unfold pkeys; by rewrite lookup_fmap, Ho).
  assert (Hn : okey o <> None) by (intros Hn; rewrite Hn in Hk; by apply (po_plain _ Hp) in Hk).
  split; [|split; [done|]]; unfold okey in *; destruct o; try done; by destruct (fosIsPipe _).
Qed.

Lemma entry_obj_wlp a e (Q : Z * VObj -> PW -> Prop) pw :
  heap (pr_table pw.1) !! a = Some e ->
  (forall o, pr_objs pw.1 !! private_data e = Some o -> Q (private_data e, o) pw) -> wlp (entry_obj a) Q pw.
Proof.
  intros Ha HQ. unfold entry_obj. apply wlp_bind, get_entry_wlp. intros e' He'. simplify_eq.
  apply wlp_bind, get_obj_wlp. intros o Ho. apply wlp_ret. by apply HQ.
Qed.

(** What a call to the servers does. *)
Lemma on_world_wlp {A} (m : Z -> M World A) (Q : A -> PW -> Prop) pw :
  wlp (m (pr_chan pw.1)) (fun a w' => Q a (pw.1, w')) pw.2 -> wlp (on_world m) Q pw.
Proof. intros HQ. unfold on_world. by apply wlp_bind, wlp_gets, wlp_zoom. Qed.

(** *** Reading, writing, seeking *)

(** A call on the file object [x] is passed to the servers, which keep their
    counts, and the object is updated. *)
Lemma file_call_wlp {A} x f (m : Z -> M World A) (g : A -> ClientFile) (Q : A -> PW -> Prop) pw :
  pr_objs pw.1 !! x = Some (OFile f) -> (forall ch, keeps wview (m ch)) -> (forall ch, gives (fun r => same_file f (g r)) (m ch)) ->
  (forall r w', wview w' = wview pw.2 -> pview (set_objs (<[x := OFile (g r)]> (pr_objs pw.1)) pw.1, w') = pview pw ->
    Q r (pw.1, w')) ->
  wlp (on_world m) Q pw.
Proof.
  intros Hx Hk Hg HQ. apply on_world_wlp. eapply wlp_mono; [apply wlp_and; [apply Hk|apply Hg]|]. cbv beta.
  intros r w' [Hw [Hi Hf]]. apply HQ; [done|]. unfold pview. simpl. rewrite Hw. do 4 f_equal. unfold pkeys. simpl.
  rewrite fmap_insert. apply insert_id. rewrite lookup_fmap, Hx. simpl. unfold okey, fosIsPipe. simpl. by rewrite Hi, Hf.
Qed.

Ltac on_obj Hp Hf :=
  let o := fresh "o" in let Ho := fresh "Ho" in let Hpl := fresh "Hpl" in
  apply wlp_bind; eapply entry_obj_wlp; [apply Hf|]; intros o Ho;
  pose proof (obj_plain _ _ _ _ Hp (fa_entry _ _ _ _ _ Hf) Ho) as Hpl; cbv beta iota; destruct o;
  [|by destruct Hpl|].

Lemma read_view fd v a e count pw :
  proc_ok pw.1 -> file_at pw.1 fd v a e -> wlp (fosFileRead early fuel a count) (fun _ pw' => pview pw' = pview pw) pw.
Proof.
  intros Hp Hf. unfold fosFileRead. on_obj Hp Hf; [apply wlp_undef|]. apply wlp_bind.
  eapply (file_call_wlp _ f _ snd); [done|intros; apply cf_read_keeps|intros; apply cf_read_same|].
  intros [[n bytes] f'] w' Hw Hv. by apply wlp_bind, wlp_modify, wlp_ret.
Qed.
Lemma write_view fd v a e buf count pw :
  proc_ok pw.1 -> file_at pw.1 fd v a e -> wlp (fosFileWrite early fuel a buf count) (fun _ pw' => pview pw' = pview pw) pw.
Proof.
  intros Hp Hf. unfold fosFileWrite. on_obj Hp Hf; [apply wlp_undef|]. apply wlp_bind.
  eapply (file_call_wlp _ f _ snd); [done|intros; apply cf_write_keeps|intros; apply cf_write_same|].
  intros r w' Hw Hv. by apply wlp_bind, wlp_modify, wlp_ret.
Qed.
Lemma lseek_view fd v a e offset whence pw :
  proc_ok pw.1 -> file_at pw.1 fd v a e -> wlp (fosFileLseek early a offset whence) (fun _ pw' => pview pw' = pview pw) pw.
Proof.
  intros Hp Hf. unfold fosFileLseek. on_obj Hp Hf; [apply wlp_abort|]. apply wlp_bind.
  eapply (file_call_wlp _ f _ snd); [done|intros; apply cf_lseek_keeps|intros; apply cf_lseek_same|].
  intros r w' Hw Hv. by apply wlp_bind, wlp_modify, wlp_ret.
Qed.
Lemma truncate_view fd v a e len pw :
  proc_ok pw.1 -> file_at pw.1 fd v a e -> wlp (fosFileTruncate early fuel a len) (fun _ pw' => pview pw' = pview pw) pw.
Proof.
  intros Hp Hf. unfold fosFileTruncate. on_obj Hp Hf; [apply wlp_abort|]. apply wlp_bind.
  eapply (file_call_wlp _ f _ snd); [done|intros; apply cf_truncate_keeps|intros; apply cf_truncate_same|].
  intros r w' Hw Hv. by apply wlp_bind, wlp_modify, wlp_ret.
Qed.

(** *** Close *)

Lemma pkeys_delete x p : pkeys (set_objs (delete x (pr_objs p)) p) = delete x (pkeys p).
Proof. apply fmap_delete. Qed.

(** The object goes, and with it the use at the server. *)
Lemma fileClose_wlp R fd v a e pw :
  inv R pw -> moderate R -> file_at pw.1 fd v a e ->
  wlp (fosFileClose early a) (fun _ pw' => exists kf, pkeys pw.1 !! private_data e = Some (Some kf) /\
    pr_table pw'.1 = pr_table pw.1 /\ pr_map pw'.1 = pr_map pw.1 /\ pr_next pw'.1 = pr_next pw.1 /\
    pkeys pw'.1 = delete (private_data e) (pkeys pw.1) /\ closed_fds pw'.1 = closed_fds pw.1 /\
    servers_ok (wview pw'.2) /\ forall kf', cnt (wview pw'.2) kf' = R kf' + uses kf' (pkeys pw'.1)) pw.
Proof.
  intros Hinv HR Hf. pose proof Hinv as (Hp & Hs & Hb). unfold fosFileClose.
  apply wlp_bind. eapply entry_obj_wlp; [apply Hf|]. intros o Ho.
  destruct (obj_plain _ _ _ _ Hp (fa_entry _ _ _ _ _ Hf) Ho) as (Hk & Hks & _). cbv beta iota. rewrite Hk in Hks.
  apply wlp_bind. apply (wlp_mono _ (fun _ pw' => pw'.1 = pw.1 /\
    closed_at (it_server (fosFileIno o)) (fosFileFd o) (wview pw.2) (wview pw'.2))).
  { destruct o as [d| |f]; [|done|]; apply wlp_bind, on_world_wlp.
    - eapply wlp_mono; [apply fosFdClose_view|]. intros rv w' Hc. by apply wlp_ret.
    - eapply wlp_mono; [apply cf_close_view|]. intros rv w' Hc. by apply wlp_ret. }
  intros [] [p' w'] [Hp' Hc]. simpl in Hp', Hc. subst p'. apply wlp_bind, wlp_modify, wlp_ret. simpl.
  destruct (closed_at_cnt _ _ _ _ Hs Hc) as [Hs' Hcnt]; [by apply (cnt_small R)|].
  eexists. split; [exact Hks|]. rewrite pkeys_delete. split_and!; try done.
  intros kf'. rewrite Hcnt, Hb, (uses_delete _ _ _ _ Hks). lia.
Qed.

(** What is left of a process after the descriptor [fd] is destroyed. *)
Lemma proc_ok_destroyed p p' fd v a e u :
  proc_ok p -> file_at p fd v a e -> ~ internal u ->
  table_ok (pr_table p') -> fd_entries (pr_table p') = <[Z.to_nat (v - 1) := Null]> (fd_entries (pr_table p)) ->
  heap (pr_table p') = released a e (heap (pr_table p)) -> pr_map p' = <[Z.to_nat fd := u]> (pr_map p) ->
  pkeys p' = (if num_fd e =? 1 then delete (private_data e) (pkeys p) else pkeys p) -> pr_next p' = pr_next p ->
  proc_ok p'.
Proof.
  intros [[Ht Hl Hm Ho Hbr] Hpl] Hf Hu Ht' Hes Hh Hmap Hk Hn. pose proof (fa_entry _ _ _ _ _ Hf) as Ha.
  split; [|rewrite Hk; destruct (num_fd e =? 1); [by apply plain_delete|done]]. split; [done| | | |].
  - by rewrite Hmap, length_insert.
  - rewrite Hmap, Hes. by apply (map_ok_remove _ _ _ v a); try apply Hf.
  - rewrite Hh, Hk, Hn. pose proof (to_counted _ Ht a) as Hc. rewrite Ha in Hc. unfold released.
    destruct (Z.eqb_spec (num_fd e) 1) as [->|Hne]; [by apply objs_ok_delete|].
    rewrite (proj2 (Z.leb_gt _ _)) by lia. by apply (objs_ok_update _ _ _ a e).
  - rewrite Hes, Hh. by apply bare_drop.
Qed.

(** [fd] is closed: the last user of an entry closes its object. *)
Definition drop_fd (fd internal_fd a : Z) (e : FosFDEntry) : M PW unit :=
  (if num_fd e =? 1 then fosFileClose early a;; mret tt else mret tt);;
  on_table (fdDestroy internal_fd);;
  on_map (fdRemove fd).

Lemma drop_fd_wlp R fd v a e pw :
  inv R pw -> moderate R -> file_at pw.1 fd v a e ->
  wlp (drop_fd fd (v - 1) a e) (fun _ pw' => inv R pw' /\ pr_map pw'.1 = <[Z.to_nat fd := INT32_MAX]> (pr_map pw.1) /\
    closed_fds pw'.1 = closed_fds pw.1 /\ (room (pr_table pw.1) -> room (pr_table pw'.1)) /\
    fd_entries (pr_table pw'.1) = <[Z.to_nat (v - 1) := Null]> (fd_entries (pr_table pw.1))) pw.
Proof.
  intros Hinv HR Hf. pose proof Hinv as (Hp & Hs & Hb). unfold drop_fd. apply wlp_bind.
  apply (wlp_mono _ (fun _ pw1 => pr_table pw1.1 = pr_table pw.1 /\ pr_map pw1.1 = pr_map pw.1 /\
    pr_next pw1.1 = pr_next pw.1 /\ closed_fds pw1.1 = closed_fds pw.1 /\
    pkeys pw1.1 = (if num_fd e =? 1 then delete (private_data e) (pkeys pw.1) else pkeys pw.1) /\
    servers_ok (wview pw1.2) /\ forall kf', cnt (wview pw1.2) kf' = R kf' + uses kf' (pkeys pw1.1))).
  { destruct (num_fd e =? 1); [|apply wlp_ret; by split_and!]. apply wlp_bind.
    eapply wlp_mono; [by apply (fileClose_wlp R fd v a e)|]. cbv beta. intros _ pw1 (kf & ? & ? & ? & ? & ? & ? & ? & ?).
    apply wlp_ret. by split_and!. }
  intros [] pw1 (Et & Em & En & Ec & Ek & Hs1 & Hb1). apply wlp_bind, wlp_zoom. rewrite Et.
  destruct (fa_int _ _ _ _ _ Hf) as [Hv0 _]. eapply wp_wlp, wp_mono.
  { apply (fdDestroy_open_wp _ a e); [apply Hp|lia|apply Hf|apply Hf]. }
  cbv beta. intros r t' (_ & Ht' & (_ & _ & Hheld) & Hes & Hh). apply map_set_wlp. simpl. rewrite Em. intros _.
  split; [|split_and!; try done; intros (u & Hu & Hfree); exists u; split; [done|]; rewrite Hheld by lia; tauto].
  split; [|by split]. simpl.
  apply (proc_ok_destroyed pw.1 _ fd v a e INT32_MAX); try done. unfold internal. lia.
Qed.

Lemma close_int_wlp R fd pw :
  inv R pw -> moderate R ->
  wlp (__close_int early fd) (fun _ pw' => inv R pw' /\ pr_map pw'.1 = <[Z.to_nat fd := INT32_MAX]> (pr_map pw.1) /\
    closed_fds pw'.1 = closed_fds pw.1) pw.
Proof.
  intros Hinv HR. pose proof Hinv as (Hp & _). unfold __close_int.
  apply wlp_bind, fdInt_wlp. intros v Hfd Hv Hi. apply wlp_bind, get_file_wlp; [done|]. intros v' a e Hf.
  apply wlp_bind, get_entry_wlp. intros e' He'.
  assert (v' = v /\ e' = e) as [-> ->] by (destruct Hf; by simplify_eq).
  pose proof (drop_fd_wlp R fd v a e pw Hinv HR Hf) as Hd. unfold drop_fd in Hd.
  apply wlp_bind. eapply wlp_mono; [exact (wlp_unbind _ _ _ _ Hd)|]. cbv beta. intros [] pw1 Hd1.
  apply wlp_bind. eapply wlp_mono; [exact (wlp_unbind _ _ _ _ Hd1)|]. cbv beta. intros r pw2 Hd2.
  apply wlp_bind. eapply wlp_mono; [exact Hd2|]. intros [] pw3 (H3 & H4 & H5 & _). by apply wlp_ret.
Qed.

(** *** Numbers of the kernel *)

Hypothesis kernel_int : forall n c, kernel n c < 2 ^ 31.
Hypothesis fd_count_int : CONFIG_FD_COUNT <= 2 ^ 31.

Lemma real_wlp c (Q : Z -> PW -> Prop) pw :
  (forall n p', pview (p', pw.2) = pview pw -> Q (kernel n c) (p', pw.2)) ->
  wlp (real kernel c) Q pw.
Proof. intros HQ. unfold real. apply wlp_bind, wlp_gets, wlp_bind, wlp_modify, wlp_ret. by eapply HQ. Qed.

(** An element of the map that stands for no file of the servers gets another
    such value. *)
Lemma inv_map_other R pw fd v u :
  inv R pw -> pr_map pw.1 !! fd = Some v -> ~ internal v -> ~ internal u -> inv R (set_pmap (<[fd := u]> (pr_map pw.1)) pw.1, pw.2).
Proof.
  intros ([[Ht Hl Hm Ho Hbr] Hpl] & Hs & Hb) Hv Hnv Hnu. split; [|by split]. split; [|done]. split; simpl; [done|by rewrite length_insert| |done|done].
  by apply (map_ok_other _ _ _ v).
Qed.

Lemma external_value e : 0 <= e < 2 ^ 31 -> ~ internal (i32 (-1 * e - 1)).
Proof. intros He. rewrite i32_small by lia. unfold internal. lia. Qed.

Lemma first_unmapped_wlp n i (Q : Z -> fd_map -> Prop) (m : fd_map) :
  0 <= i -> (forall k, 0 <= k -> m !! Z.to_nat k = Some INT32_MAX -> Q k m) -> wlp (first_unmapped n i) Q m.
Proof.
  revert i. induction n as [|n IH]; intros i Hi HQ; [apply wlp_abort|]. cbn [first_unmapped]. apply wlp_bind.
  unfold map_at. apply wlp_bind, wlp_gets. rewrite (proj2 (Z.ltb_ge _ _)) by done. apply wlp_deref. intros v Hv.
  destruct (Z.eqb_spec v INT32_MAX) as [->|]; [by apply wlp_ret, HQ|]. apply IH; [lia|done].
Qed.

Lemma add_wlp u (Q : Z -> PW -> Prop) pw :
  (forall k, 0 <= k -> pr_map pw.1 !! Z.to_nat k = Some INT32_MAX ->
    Q k (set_pmap (<[Z.to_nat k := u]> (pr_map pw.1)) pw.1, pw.2)) ->
  wlp (on_map (n ← gets length; i ← first_unmapped n 0; map_set i u;; mret i)) Q pw.
Proof.
  intros HQ. apply wlp_zoom, wlp_bind, wlp_gets, wlp_bind, first_unmapped_wlp; [done|]. intros k Hk Hm.
  apply wlp_bind. unfold map_set. apply wlp_bind, wlp_gets. case_match; [|apply wlp_undef]. unfold id. by apply wlp_modify, wlp_ret, HQ.
Qed.

Lemma add_external_wlp R e pw :
  inv R pw -> 0 <= e < 2 ^ 31 -> wlp (on_map (fdAddExternal e)) (fun _ pw' => good R pw pw') pw.
Proof.
  intros Hinv He. apply add_wlp. intros k Hk Hm. split; [|done]. apply (inv_map_other _ _ _ INT32_MAX); try done.
  - unfold internal. lia.
  - by apply external_value.
Qed.

Lemma good_view R pw pw' : inv R pw -> pview pw' = pview pw -> good R pw pw'.
Proof. intros Hinv Hv. split; [by eapply inv_view|]. unfold pview in Hv. by injection Hv. Qed.
Lemma good_trans R pw pw1 pw2 : good R pw pw1 -> good R pw1 pw2 -> good R pw pw2.
Proof. intros [? ?] [? ?]. split; [done|congruence]. Qed.
Lemma good_self R pw : inv R pw -> good R pw pw.
Proof. by split. Qed.

(** A call after which only the view matters. *)
Lemma view_good {A} R (m : M PW A) pw :
  inv R pw -> wlp m (fun _ pw' => pview pw' = pview pw) pw -> wlp m (fun _ pw' => good R pw pw') pw.
Proof. intros Hinv Hm. eapply wlp_mono; [exact Hm|]. intros a pw' Hv. by apply good_view. Qed.

Lemma not_int v : is_int v = false -> ~ internal v.
Proof. intros Hv Hi. apply is_int_spec in Hi. congruence. Qed.

Lemma real_view c : keeps pview (real kernel c).
Proof. intros pw. apply real_wlp. by intros n [] Hv. Qed.

Lemma close_wlp R fd pw :
  inv R pw -> moderate R ->
  wlp (__close early kernel fd) (fun _ pw' => good R pw pw' /\
    (forall v, 0 <= fd -> pr_map pw.1 !! Z.to_nat fd = Some v -> internal v ->
      pr_map pw'.1 = <[Z.to_nat fd := INT32_MAX]> (pr_map pw.1))) pw.
Proof.
  intros Hinv HR. unfold __close. destruct (Z.ltb_spec fd 0); [apply wlp_ret; split; [by apply good_self|lia]|].
  apply wlp_bind. apply (wlp_mono _ (fun b pw' => pw' = pw /\
    (b = false -> exists v, pr_map pw.1 !! Z.to_nat fd = Some v /\ ~ internal v))).
  { destruct (2 <? fd); [|by apply wlp_ret]. apply on_map_read. intros v _ Hv. apply on_map_ret. split; [done|].
    intros Hb. exists v. split; [done|]. unfold internal. lia. }
  intros b pw' [-> Hb]. destruct b; cbn [negb].
  2: { apply wlp_ret. split; [by apply good_self|]. intros v _ Hv Hi. destruct (Hb eq_refl) as (v' & Hv' & Hn). by simplify_eq. }
  apply wlp_bind, is_internal_wlp. intros v _ Hv. destruct (is_int v) eqn:Hi; cbn [negb].
  - eapply wlp_mono; [by apply (close_int_wlp R)|]. cbv beta. intros _ pw' (Hinv' & Hm & Hc). by split.
  - apply not_int in Hi. apply wlp_bind, fdExt_wlp. intros v' _ Hv'. apply wlp_bind, real_wlp. intros n p' Hview.
    apply wlp_bind, map_set_wlp. intros _. apply wlp_ret. pose proof Hview as Hmap. injection Hmap as _ Hmap _ _ Hc.
    split; [|intros v'' _ Hv'' Hi''; by simplify_eq]. split; [|done]. simpl. apply (inv_map_other R (p', pw.2) _ v).
    + by apply (inv_view _ pw).
    + simpl. by rewrite Hmap.
    + done.
    + unfold internal. lia.
Qed.

(** *** Loops over the numbers *)

Lemma for_fds_wlp (I : Z -> PW -> Prop) (body : Z -> M PW unit) n i pw :
  I i pw -> (forall j pw, i <= j < i + Z.of_nat n -> I j pw -> wlp (body j) (fun _ => I (j + 1)) pw) ->
  wlp (for_fds n i body) (fun _ => I (i + Z.of_nat n)) pw.
Proof.
  revert i pw. induction n as [|n IH]; intros i pw Hi Hb; cbn [for_fds].
  - apply wlp_ret. by rewrite Z.add_0_r.
  - apply wlp_bind. eapply wlp_mono; [apply Hb; [lia|done]|]. cbv beta. intros [] pw' Hi'.
    replace (i + Z.of_nat (S n)) with (i + 1 + Z.of_nat n) by lia. apply IH; [done|]. intros j pw'' Hj. apply Hb. lia.
Qed.

(** Every number is visited. *)
Lemma all_internal_wlp (I : Z -> PW -> Prop) (body : Z -> M PW unit) pw :
  I 0 pw ->
  (forall j pw v, 0 <= j < CONFIG_FD_COUNT -> I j pw -> pr_map pw.1 !! Z.to_nat j = Some v -> ~ internal v -> I (j + 1) pw) ->
  (forall j pw v, 0 <= j < CONFIG_FD_COUNT -> I j pw -> pr_map pw.1 !! Z.to_nat j = Some v -> internal v ->
    wlp (body j) (fun _ => I (j + 1)) pw) ->
  wlp (all_internal body) (fun _ => I (Z.of_nat (Z.to_nat CONFIG_FD_COUNT))) pw.
Proof.
  intros H0' Hskip Hbody. apply (for_fds_wlp I); [done|]. intros j pw' Hj Hi. unfold each_internal.
  apply wlp_bind, is_internal_wlp. intros v _ Hv. destruct (is_int v) eqn:Hint.
  - apply is_int_spec in Hint. apply (Hbody j pw' v); [lia|done..].
  - apply wlp_ret. apply (Hskip j pw' v); [lia|done|done|by apply not_int].
Qed.

(** Each object is that of some number. *)
Lemma object_number p x k :
  proc_wf p -> pkeys p !! x = Some k -> exists fd v a e, file_at p fd v a e /\ private_data e = x.
Proof.
  intros Hp Hx. destruct (oo_entry _ _ _ (po_objs _ Hp) x k Hx) as (Hx0 & a & e & Ha & He).
  destruct (entry_slot _ _ _ (po_table _ Hp) Ha) as [s Hs].
  destruct (mo_mapped _ _ (po_map _ Hp) s a Hs) as [Hlt [Hrs|[i Hi]]]; [by apply (po_bare _ Hp s a e) in Hrs; congruence|].
  exists (Z.of_nat i), (Z.of_nat s + 1), a, e. split; [|done]. rewrite <- (Nat2Z.id i) in Hi.
  split; [lia|done|unfold internal, INT32_MAX; lia| |done]. by rewrite Z.add_simpl_r, Nat2Z.id.
Qed.

Lemma no_files p : proc_wf p -> (forall i v, pr_map p !! i = Some v -> ~ internal v) -> pkeys p = ∅.
Proof.
  intros Hp Hno. apply map_empty. intros x. destruct (pkeys p !! x) as [k|] eqn:Hx; [|done].
  destruct (object_number p x k Hp Hx) as (fd & v & a & e & Hf & _). destruct (Hno _ _ (fa_map _ _ _ _ _ Hf)). apply Hf.
Qed.

(** At the exit all files are closed. *)
Lemma exit_wlp R pw :
  inv R pw -> moderate R -> closed_fds pw.1 = false ->
  wlp (__exit_group early kernel) (fun _ pw' => inv R pw' /\ pkeys pw'.1 = ∅ /\ closed_fds pw'.1 = true) pw.
Proof.
  intros Hinv HR Hcl. unfold __exit_group, fsCloseFds. apply wlp_bind, wlp_gets. rewrite Hcl. apply wlp_bind.
  eapply wlp_mono.
  { apply (all_internal_wlp (fun i pw' => inv R pw' /\
      forall j v, 0 <= j < i -> pr_map pw'.1 !! Z.to_nat j = Some v -> ~ internal v)).
    - split; [done|lia].
    - intros j pw' v Hj [Hinv' Hno] Hv Hn. split; [done|]. intros j' v' Hj' Hv'.
      destruct (decide (j' = j)) as [->|]; [by simplify_eq|]. apply (Hno j'); [lia|done].
    - intros j pw' v Hj [Hinv' Hno] Hv Hi. apply wlp_bind. eapply wlp_mono; [by apply (close_wlp R)|]. cbv beta.
      intros _ pw1 [[Hinv1 _] Hm]. apply wlp_ret. split; [done|]. rewrite (Hm v) by (done || lia).
      intros j' v' Hj' [(_ & <- & _)|[Hne Hv']]%list_lookup_insert_Some; [unfold internal; lia|].
      apply (Hno j'); [|done]. assert (j' <> j) by congruence. lia. }
  cbv beta. intros [] pw1 [Hinv1 Hno]. apply wlp_modify. simpl. split.
  { destruct Hinv1 as ([[] ?] & ? & ?). by split; [split; [split|]|]. }
  split; [|done]. change (pkeys pw1.1 = ∅). apply no_files; [apply Hinv1|]. intros i v Hi.
  pose proof (lookup_lt_Some _ _ _ Hi) as Hlt. rewrite (po_length _ (proj1 Hinv1)) in Hlt.
  apply (Hno (Z.of_nat i)); [lia|by rewrite Nat2Z.id].
Qed.

(** *** Flattening *)

(** No other number shares the entry of [fd]. *)
Definition alone (p : Process) (fd : Z) : Prop := forall v a e, file_at p fd v a e -> num_fd e = 1.

(** One more use of the descriptor of [o]. *)
Lemma dup_wlp R o pw :
  inv R pw -> moderate R ->
  wlp (on_world (fun ch => fosFileDup early ch (it_server (fosFileIno o)) (fosFileFd o))) (fun rv pw' =>
    rv = OK -> exists w', pw' = (pw.1, w') /\ servers_ok (wview w') /\
      forall kf, cnt (wview w') kf = R kf + uses kf (pkeys pw.1) + one (it_server (fosFileIno o), fosFileFd o) kf) pw.
Proof.
  intros Hinv HR. pose proof Hinv as (Hp & Hs & Hb). apply on_world_wlp. eapply wlp_mono; [apply fosFileDup_view|]. cbv beta.
  intros rv w' Hd ->. simpl in Hd. destruct Hd as (Hk & sid & c & n & Hv & Hn & Hw'). exists w'. split; [done|].
  destruct (dup_cnt _ _ _ _ _ _ Hs Hk Hv Hn) as [Hs' Hc']; [by apply (cnt_small R)|]. rewrite Hw'. split; [done|].
  intros kf. by rewrite Hc', Hb.
Qed.

Lemma fdFlatten_wlp fd a e data t :
  table_ok t -> 0 <= fd -> fd_entries t !! Z.to_nat fd = Some (Ptr a) -> heap t !! a = Some e -> 1 < num_fd e ->
  wlp (fdFlatten mem fd a data) (fun _ t' => table_ok t' /\ exists a', heap t !! a' = None /\
    fd_entries t' = <[Z.to_nat fd := Ptr a']> (fd_entries t) /\
    heap t' = <[a' := mkFDEntry fd 1 (status_flags e) (file_ops e) data]>
      (<[a := with_num_fd (num_fd e - 1) e]> (heap t))) t.
Proof.
  intros Ht Hfd Hs Ha Hn. destruct (mem (t_calls t)) eqn:Hm; [by apply wp_wlp, fdFlatten_wp|].
  unfold fdFlatten. apply wlp_bind, wp_wlp, (get_entry_wp a e); [done|]. apply wlp_bind, wlp_assert. intros _.
  apply wlp_bind, wlp_modify, wlp_bind. unfold new_entry. apply wlp_bind, wp_wlp, granted_wp. simpl. rewrite Hm.
  apply wlp_ret. apply wlp_abort.
Qed.

(** A process in which slot [s] has got an entry and an object of its own. *)
Lemma proc_ok_flattened p p' s a a' e e' x kf :
  proc_ok p -> fd_entries (pr_table p) !! s = Some (Ptr a) -> heap (pr_table p) !! a = Some e ->
  heap (pr_table p) !! a' = None -> private_data e' = x -> x = pr_next p ->
  table_ok (pr_table p') -> fd_entries (pr_table p') = <[s := Ptr a']> (fd_entries (pr_table p)) ->
  heap (pr_table p') = <[a' := e']> (<[a := with_num_fd (num_fd e - 1) e]> (heap (pr_table p))) ->
  pr_map p' = pr_map p -> pkeys p' = <[x := Some kf]> (pkeys p) -> pr_next p' = x + 1 -> ~ reserved s -> proc_ok p'.
Proof.
  intros [[Ht Hl Hm Ho Hbr] Hpl] Hs Ha Ha' Hx -> Ht' Hes Hh Hmap Hk Hn Hns.
  split; [|rewrite Hk; by apply plain_insert]. split; [done|by rewrite Hmap| | |].
  - rewrite Hmap, Hes. by apply (map_ok_repoint _ _ _ a).
  - rewrite Hh, Hk, Hn. apply (objs_ok_new _ _ (pr_next p)); [by apply (objs_ok_update _ _ _ a e)| |done|lia].
    rewrite lookup_insert_ne by congruence. done.
  - rewrite Hes, Hh. pose proof (oo_positive _ _ _ Ho). assert (Hne : a' <> a) by congruence.
    intros s' b e1 [(<- & Heq & _)|[_ Hs']]%list_lookup_insert_Some.
    + simplify_eq. rewrite lookup_insert_eq. intros Heq. simplify_eq. split; [lia|done].
    + destruct (counted_alive _ _ _ _ (to_counted _ Ht) Hs') as [e2 He2]. rewrite lookup_insert_ne by congruence.
      intros He1. exact (bare_update _ _ a e (with_num_fd (num_fd e - 1) e) Hbr Ha eq_refl _ _ _ Hs' He1).
Qed.

Lemma alone_flattened p p' s a a' e e' :
  fd_entries (pr_table p) !! s = Some (Ptr a) -> heap (pr_table p) !! a = Some e -> 1 < num_fd e -> num_fd e' = 1 ->
  fd_entries (pr_table p') = <[s := Ptr a']> (fd_entries (pr_table p)) ->
  heap (pr_table p') = <[a' := e']> (<[a := with_num_fd (num_fd e - 1) e]> (heap (pr_table p))) ->
  pr_map p' = pr_map p -> forall j, (alone p j \/ exists v, pr_map p !! Z.to_nat j = Some v /\ Z.to_nat (v - 1) = s) -> alone p' j.
Proof.
  intros Hs Ha Hn He' Hes Hh Hmap j Hj v b e1 [Hfd Hv Hi Hb He1]. rewrite Hmap in Hv. rewrite Hes in Hb. rewrite Hh in He1.
  pose proof (lookup_lt_Some _ _ _ Hs). destruct (decide (Z.to_nat (v - 1) = s)) as [<-|Hne].
  - rewrite list_lookup_insert_eq in Hb by done. simplify_eq. by rewrite lookup_insert_eq in He1; simplify_eq.
  - rewrite list_lookup_insert_ne in Hb by done. destruct Hj as [Hal|(v' & Hv' & ?)]; [|by simplify_eq].
    apply lookup_insert_Some in He1 as [[<- <-]|[_ He1]]; [done|].
    apply lookup_insert_Some in He1 as [[<- <-]|[_ He1]].
    + assert (Hf : file_at p j v a e) by by split. specialize (Hal _ _ _ Hf). lia.
    + by apply (Hal v b).
Qed.

Lemma flatten_wlp R fd pw :
  inv R pw -> moderate R ->
  wlp (fsFlattenFdInternal early mem fd) (fun _ pw' => good R pw pw' /\ pr_map pw'.1 = pr_map pw.1 /\
    forall j, j = fd \/ alone pw.1 j -> alone pw'.1 j) pw.
Proof.
  intros Hinv HR. pose proof Hinv as (Hp & Hs & Hb). unfold fsFlattenFdInternal.
  apply wlp_bind, fdInt_wlp. intros v Hfd Hv Hi. apply wlp_bind, get_file_wlp; [done|]. intros v' a e Hf.
  assert (v' = v) as -> by (destruct Hf; by simplify_eq). apply wlp_bind, get_entry_wlp. intros e' He'.
  assert (e' = e) as -> by (destruct Hf; by simplify_eq). pose proof Hf as [_ _ [Hv0 _] Hslot Ha].
  destruct (Z.ltb_spec 1 (num_fd e)) as [Hn|Hn].
  2: { apply wlp_ret. split; [by apply good_self|]. split; [done|]. intros j [->|Hj]; [|done]. intros v1 a1 e1 Hf1.
       assert (e1 = e) as -> by (destruct Hf, Hf1; by simplify_eq).
       pose proof (to_counted _ (po_table _ Hp) a) as Hc. rewrite Ha in Hc. lia. }
  apply wlp_bind, get_obj_wlp. intros o Ho. destruct (obj_plain _ _ _ _ Hp Ha Ho) as (Hk & Hks & Hpipe). rewrite Hpipe.
  apply wlp_bind. eapply wlp_mono; [by apply (dup_wlp R)|]. cbv beta. intros rv pw1 Hd. apply wlp_bind, wlp_assert.
  intros Hok%Z.eqb_eq. destruct (Hd Hok) as (w1 & -> & Hs1 & Hc1). apply wlp_bind. unfold new_obj.
  apply wlp_bind, wlp_gets, wlp_bind, wlp_modify, wlp_ret. simpl. set (o' := if fosIsDir o then _ else _).
  assert (Hk' : okey o' = Some (it_server (fosFileIno o), fosFileFd o)).
  { unfold o', okey. unfold fosIsPipe in *. destruct (fosIsDir o); simpl; by rewrite Hpipe. }
  apply wlp_zoom. simpl. eapply wlp_mono; [by apply (fdFlatten_wlp _ a e); [apply Hp|lia|..]|]. cbv beta.
  intros [] t' (Ht' & a' & Ha' & Hes & Hh). split; [|split; [done|]].
  - split; [|done]. split; simpl.
    + apply (proc_ok_flattened pw.1 _ (Z.to_nat (v - 1)) a a' e (mkFDEntry (v - 1) 1 (status_flags e) (file_ops e) (pr_next pw.1))
        (pr_next pw.1) (it_server (fosFileIno o), fosFileFd o)); try done.
      * simpl. rewrite <- Hk'. apply fmap_insert.
      * by apply (file_plain pw.1 fd v a e); [apply Hp|].
    + split; [done|]. intros kf. rewrite Hc1. transitivity (R kf + uses kf (<[pr_next pw.1 := okey o']> (pkeys pw.1))).
      * rewrite Hk', uses_insert; [lia|]. by apply (oo_next _ _ _ (po_objs _ Hp)).
      * do 2 f_equal. symmetry. apply fmap_insert.
  - intros j Hj. apply (alone_flattened pw.1 _ (Z.to_nat (v - 1)) a a' e (mkFDEntry (v - 1) 1 (status_flags e) (file_ops e) (pr_next pw.1)));
      try done.
    destruct Hj as [->|Hj]; [|by left]. right. by exists v.
Qed.

Lemma flatten_all_wlp R pw :
  inv R pw -> moderate R ->
  wlp (fsFlattenFds early mem) (fun _ pw' => good R pw pw' /\ pr_map pw'.1 = pr_map pw.1 /\ forall fd, alone pw'.1 fd) pw.
Proof.
  intros Hinv HR. eapply wlp_mono.
  { apply (all_internal_wlp (fun i pw' => good R pw pw' /\ pr_map pw'.1 = pr_map pw.1 /\ forall j, 0 <= j < i -> alone pw'.1 j)).
    - split; [by apply good_self|]. split; [done|lia].
    - intros j pw' v Hj (Hg & Hmap & Hal) Hv Hn. split; [done|]. split; [done|]. intros j' Hj'. destruct (decide (j' = j)) as [->|]; [|apply Hal; lia].
      intros v' a e Hf. destruct Hn. destruct Hf. by simplify_eq.
    - intros j pw' v Hj (Hg & Hmap & Hal) Hv Hi. eapply wlp_mono; [apply (flatten_wlp R); [apply Hg|done]|]. cbv beta.
      intros _ pw1 (Hg1 & Hmap1 & Hal1). split; [by eapply good_trans|]. split; [congruence|]. intros j' Hj'. apply Hal1.
      destruct (decide (j' = j)); [by left|right]. apply Hal. lia. }
  cbv beta. intros [] pw1 (Hg & Hmap & Hal). split; [done|]. split; [done|]. intros fd v a e Hf. refine (Hal fd _ v a e Hf).
  pose proof (lookup_lt_Some _ _ _ (fa_map _ _ _ _ _ Hf)) as Hlt. rewrite (po_length _ (proj1 (proj1 Hg))) in Hlt.
  destruct Hf. lia.
Qed.

(** *** Cloning *)

(** The object that number [j] stands for, with its descriptor. *)
Definition obj_at (p : Process) (j : nat) : option (Z * option (Z * Z)) :=
  v ← pr_map p !! j;
  if is_int v
  then s ← fd_entries (pr_table p) !! Z.to_nat (v - 1);
       match s with
       | Ptr a => e ← heap (pr_table p) !! a; k ← pkeys p !! private_data e; Some (private_data e, k)
       | _ => None
       end
  else None.

Lemma obj_at_file p fd v a e k :
  file_at p fd v a e -> pkeys p !! private_data e = Some k -> obj_at p (Z.to_nat fd) = Some (private_data e, k).
Proof.
  intros [Hfd Hv Hi Hs Ha] Hk. unfold obj_at. rewrite Hv. simpl. rewrite (proj2 (is_int_spec v)), Hs by done.
  simpl. rewrite Ha. simpl. by rewrite Hk.
Qed.

Lemma obj_at_inv p j x k :
  obj_at p j = Some (x, k) -> exists v a e, file_at p (Z.of_nat j) v a e /\ private_data e = x /\ pkeys p !! x = Some k.
Proof.
  unfold obj_at. destruct (pr_map p !! j) as [v|] eqn:Hv; [|done]. simpl. destruct (is_int v) eqn:Hi; [|done].
  apply is_int_spec in Hi. destruct (fd_entries (pr_table p) !! _) as [[|a|]|] eqn:Hs; [done| |done|done]. simpl.
  destruct (heap (pr_table p) !! a) as [e|] eqn:Ha; [|done]. simpl.
  destruct (pkeys p !! private_data e) as [k'|] eqn:Hk; [|done]. simpl. intros Heq. simplify_eq.
  exists v, a, e. split; [|done]. split; try done; [lia|by rewrite Nat2Z.id].
Qed.

Lemma refs_one a es i j : refs a es = 1 -> es !! i = Some (Ptr a) -> es !! j = Some (Ptr a) -> i = j.
Proof.
  intros Hr Hi Hj. destruct (decide (i = j)) as [|Hne]; [done|]. pose proof (refs_insert a es i _ Null Hi) as Hx.
  unfold weight in Hx. rewrite decide_True, decide_False in Hx by done.
  pose proof (refs_pos a (<[i := Null]> es) j) as Hy. rewrite list_lookup_insert_ne in Hy by done. specialize (Hy Hj). lia.
Qed.

(** When no entry is shared, no two numbers have one object. *)
Lemma obj_at_inj p i j xk :
  proc_wf p -> (forall fd, alone p fd) -> obj_at p i = Some xk -> obj_at p j = Some xk -> i = j.
Proof.
  intros Hp Hal Hi Hj. destruct xk as [x k]. apply obj_at_inv in Hi as (v & a & e & Hf & Hx & _).
  apply obj_at_inv in Hj as (v' & a' & e' & Hf' & Hx' & _). pose proof (Hal _ _ _ _ Hf) as Hn.
  assert (a' = a) as -> by (apply (oo_inj _ _ _ (po_objs _ Hp) a' a e' e); [apply Hf'|apply Hf|by apply (file_data _ _ _ _ _ Hp Hf')|congruence]).
  pose proof (to_counted _ (po_table _ Hp) a) as Hc. rewrite (fa_entry _ _ _ _ _ Hf) in Hc. destruct Hc as [Hc _].
  pose proof (refs_one a (fd_entries (pr_table p)) _ _ ltac:(congruence) (fa_slot _ _ _ _ _ Hf) (fa_slot _ _ _ _ _ Hf')) as Hs.
  destruct Hf as [_ Hm Hint _ _], Hf' as [_ Hm' Hint' _ _]. assert (v' = v) as -> by (destruct Hint, Hint'; lia).
  rewrite Nat2Z.id in *. by apply (mo_inj _ _ (po_map _ Hp) i j v).
Qed.

Definition visited (p : Process) (n : nat) : list (Z * option (Z * Z)) := omap (obj_at p) (seq 0 n).

Lemma NoDup_omap {A B} (f : A -> option B) l :
  NoDup l -> (forall x y b, f x = Some b -> f y = Some b -> x = y) -> NoDup (omap f l).
Proof.
  intros Hl Hf. induction Hl as [|x l Hx Hl IH]; [constructor|]. csimpl. destruct (f x) as [b|] eqn:Hb; [|done].
  constructor; [|done]. intros (y & Hy & Hyb)%list_elem_of_omap. by rewrite (Hf x y b Hb Hyb) in Hx.
Qed.

Lemma visited_sub p n : proc_wf p -> (forall fd, alone p fd) -> visited p n ⊆+ map_to_list (pkeys p).
Proof.
  intros Hp Hal. apply NoDup_submseteq.
  - apply NoDup_omap; [apply NoDup_seq|]. intros i j b. by apply obj_at_inj.
  - intros [x k] (j & _ & Hj)%list_elem_of_omap. apply obj_at_inv in Hj as (v & a & e & _ & _ & Hk). by apply elem_of_map_to_list.
Qed.

Lemma visited_all p : proc_wf p -> (forall fd, alone p fd) -> visited p (Z.to_nat CONFIG_FD_COUNT) ≡ₚ map_to_list (pkeys p).
Proof.
  intros Hp Hal. apply NoDup_Permutation; [|apply NoDup_map_to_list|].
  - apply NoDup_omap; [apply NoDup_seq|]. intros i j b. by apply obj_at_inj.
  - intros [x k]. split.
    + intros Hin. by apply (elem_of_submseteq _ _ _ Hin), visited_sub.
    + intros Hk%elem_of_map_to_list. destruct (object_number p x k Hp Hk) as (fd & v & a & e & Hf & <-).
      apply list_elem_of_omap. exists (Z.to_nat fd). split; [|by eapply obj_at_file].
      apply elem_of_seq. pose proof (lookup_lt_Some _ _ _ (fa_map _ _ _ _ _ Hf)) as Hlt. rewrite (po_length _ Hp) in Hlt. lia.
Qed.

(** All of the view but the servers. *)
Definition parts (p : Process) := (pr_table p, pr_map p, pkeys p, pr_next p, closed_fds p).

Lemma parts_file p p' fd v a e : parts p' = parts p -> file_at p' fd v a e -> file_at p fd v a e.
Proof. intros Hp [Hfd Hv Hi Hs Ha]. injection Hp as Ht Hm _ _ _. split; congruence. Qed.

Lemma parts_ok p p' : parts p' = parts p -> proc_ok p -> proc_ok p'.
Proof. intros Hp [[Ht Hl Hm Ho Hbr] Hpl]. injection Hp as Et Em Ek En _. split; [split|]; rewrite ?Et, ?Em, ?Ek, ?En; done. Qed.

Lemma inv_ext R R' pw : (forall kf, R kf = R' kf) -> inv R pw -> inv R' pw.
Proof. intros HR (? & ? & Hb). split; [done|]. split; [done|]. intros kf. by rewrite <- HR. Qed.

Lemma clone_fd_wlp R fd pw :
  inv R pw -> moderate R ->
  wlp (clone_fd early fd) (fun _ pw' => parts pw'.1 = parts pw.1 /\ exists v a e kf, file_at pw.1 fd v a e /\
    pkeys pw.1 !! private_data e = Some (Some kf) /\ inv (fun k => R k + one kf k) pw') pw.
Proof.
  intros Hinv HR. pose proof Hinv as (Hp & _). unfold clone_fd.
  apply wlp_bind, get_file_wlp; [done|]. intros v a e Hf. apply wlp_bind. eapply entry_obj_wlp; [apply Hf|]. intros o Ho.
  destruct (obj_plain _ _ _ _ Hp (fa_entry _ _ _ _ _ Hf) Ho) as (Hk & Hks & _). rewrite Hk in Hks. cbv beta iota.
  apply wlp_bind. apply (wlp_mono _ (fun _ pw1 => pview pw1 = pview pw)).
  { destruct o as [| |f]; [by apply wlp_ret|by apply wlp_ret|]. destruct (fosIsFile _); [|by apply wlp_ret].
    apply wlp_bind. eapply (file_call_wlp _ f _ id); [done|intros; apply cf_set_state_keeps|intros; apply cf_set_state_same|].
    intros f' w' Hw Hv. by apply wlp_modify. }
  intros [] pw1 Hv1. assert (Hinv1 : inv R pw1) by by apply (inv_view _ pw).
  apply wlp_bind. eapply wlp_mono; [by apply (dup_wlp R)|]. cbv beta. intros rv pw2 Hd. apply wlp_assert.
  intros Hok%Z.eqb_eq. destruct (Hd Hok) as (w2 & -> & Hs2 & Hc2).
  injection Hv1 as Et Em Ek En Ec _. split; [unfold parts; simpl; congruence|].
  exists v, a, e, (it_server (fosFileIno o), fosFileFd o). split; [done|]. split; [done|].
  split; [apply Hinv1|]. split; [done|]. intros kf. rewrite Hc2. simpl. lia.
Qed.

Lemma visited_S p n : visited p (S n) = visited p n ++ match obj_at p n with Some xk => [xk] | None => [] end.
Proof. unfold visited. rewrite seq_S, omap_app. simpl. by destruct (obj_at p n). Qed.

Lemma clone_fds_wlp R pw :
  inv R pw -> (forall kf, 0 <= R kf < 2 ^ 31 - 128) -> (forall fd, alone pw.1 fd) ->
  wlp (fsCloneFds early) (fun _ pw' => parts pw'.1 = parts pw.1 /\ inv (fun kf => R kf + uses kf (pkeys pw.1)) pw') pw.
Proof.
  intros Hinv HR Hal. pose proof Hinv as (Hp & _). eapply wlp_mono.
  { apply (all_internal_wlp (fun i pw' => parts pw'.1 = parts pw.1 /\
      inv (fun kf => R kf + used kf (visited pw.1 (Z.to_nat i))) pw')).
    - split; [done|]. eapply inv_ext; [|done]. intros kf. unfold used, visited. simpl. lia.
    - intros j pw' v Hj [Hparts Hinv'] Hv Hn. split; [done|]. replace (Z.to_nat (j + 1)) with (S (Z.to_nat j)) by lia.
      rewrite visited_S. injection Hparts as _ Em _ _ _. unfold obj_at. rewrite <- Em, Hv. simpl.
      destruct (is_int v) eqn:Hi; [by apply is_int_spec in Hi|]. by rewrite app_nil_r.
    - intros j pw' v Hj [Hparts Hinv'] Hv Hi. eapply wlp_mono; [apply (clone_fd_wlp _ _ _ Hinv')|].
      + intros kf. specialize (HR kf). pose proof (used_submseteq kf _ _ (visited_sub pw.1 (Z.to_nat j) Hp Hal)) as Hle.
        rewrite <- uses_list in Hle. pose proof (uses_le kf (pkeys pw.1)). pose proof (proc_bound _ Hp). unfold used in *. lia.
      + cbv beta. intros [] pw1 (Hparts1 & v' & a & e & kf & Hf & Hk & Hinv1). split; [congruence|].
        replace (Z.to_nat (j + 1)) with (S (Z.to_nat j)) by lia. rewrite visited_S.
        assert (Hk' : pkeys pw.1 !! private_data e = Some (Some kf)) by (injection Hparts as _ _ <- _ _; done).
        rewrite (obj_at_file pw.1 j v' a e (Some kf)); [|by eapply parts_file|done].
        eapply inv_ext; [|exact Hinv1]. intros kf'. rewrite used_snoc. lia. }
  cbv beta. intros [] pw' [Hparts Hinv']. split; [done|]. eapply inv_ext; [|exact Hinv']. intros kf.
  rewrite Nat2Z.id, uses_list. f_equal. apply used_perm, visited_all; [apply Hp|done].
Qed.

(** Parent and child after the clone: what the child holds has been counted. *)
Lemma clone_wlp R child_chan pw :
  inv R pw -> (forall kf, 0 <= R kf < 2 ^ 31 - 128) ->
  wlp (__clone early mem child_chan) (fun child pw' => proc_ok child /\ closed_fds child = closed_fds pw.1 /\
    good (fun kf => R kf + uses kf (pkeys child)) pw pw') pw.
Proof.
  intros Hinv HR. unfold __clone. apply wlp_bind.
  eapply wlp_mono; [apply (flatten_all_wlp R); [done|intros kf; specialize (HR kf); lia]|]. cbv beta.
  intros [] pw1 ([Hinv1 Hc1] & _ & Hal). apply wlp_bind. eapply wlp_mono; [by apply (clone_fds_wlp R)|]. cbv beta.
  intros [] pw2 [Hparts Hinv2]. apply wlp_bind, wlp_gets, wlp_bind, wlp_modify, wlp_ret.
  injection Hparts as Et Em Ek En Ec. pose proof Hinv2 as (Hp2 & Hs2 & Hb2). split; [|split].
  - by apply (parts_ok pw2.1).
  - simpl. congruence.
  - split; [|simpl; congruence]. apply (inv_ext (fun kf => R kf + uses kf (pkeys pw1.1))).
    + intros kf. change (pkeys (set_pchan _ _)) with (pkeys pw2.1). by rewrite Ek.
    + split; [done|]. by split.
Qed.

(** *** Duplication *)

Lemma proc_ok_shared p p' n a e k u :
  proc_ok p -> heap (pr_table p) !! a = Some e -> lowest_free (alloc_state (pr_table p)) n ->
  pr_map p !! k = Some u -> ~ internal u ->
  table_ok (pr_table p') -> fd_entries (pr_table p') = <[Z.to_nat n := Ptr a]> (fd_entries (pr_table p)) ->
  heap (pr_table p') = <[a := with_num_fd (num_fd e + 1) e]> (heap (pr_table p)) ->
  pr_map p' = <[k := i32 (n + 1)]> (pr_map p) -> pkeys p' = pkeys p -> pr_next p' = pr_next p ->
  private_data e <> 0 -> proc_ok p'.
Proof.
  intros [[Ht Hl Hm Ho Hbr] Hpl] Ha (Hn & Hfree & _) Hk Hu Ht' Hes Hh Hmap Hkeys Hnext He. split; [|by rewrite Hkeys].
  assert (Hnull : fd_entries (pr_table p) !! Z.to_nat n = Some Null) by (apply slot_free; [done|lia|done]).
  split; [done| | | |].
  - by rewrite Hmap, length_insert.
  - rewrite Hmap, Hes, i32_small by lia. rewrite <- (Z2Nat.id n) at 1 by lia.
    apply (map_ok_add _ _ _ u); [done|done|done|done|lia].
  - rewrite Hh, Hkeys, Hnext. by apply (objs_ok_update _ _ _ a e).
  - rewrite Hes, Hh. apply (bare_update _ _ a e); [|done|done]. apply (bare_point _ _ _ _ e); [done| |done|done].
    intros [b Hb]%(mo_reserved _ _ Hm). congruence.
Qed.

Lemma fosIsPipe_false p a e o :
  proc_ok p -> heap (pr_table p) !! a = Some e -> pr_objs p !! private_data e = Some o -> fosIsPipe o = false.
Proof. intros Hp Ha Ho. apply (obj_plain _ _ _ _ Hp Ha Ho). Qed.

Lemma internal_MAX : ~ internal INT32_MAX.
Proof. unfold internal. lia. Qed.

Lemma dup_call_wlp R fd pw :
  inv R pw -> room (pr_table pw.1) -> wlp (__dup early mem kernel fd) (fun _ pw' => good R pw pw') pw.
Proof.
  intros Hinv Hroom. pose proof Hinv as (Hp & Hs & Hb). unfold __dup. apply wlp_bind, is_internal_wlp. intros v _ Hv.
  destruct (is_int v); cbn [negb].
  - apply wlp_bind, get_file_wlp; [done|]. intros v' a e Hf. pose proof (fa_entry _ _ _ _ _ Hf) as Ha.
    apply wlp_bind, wlp_zoom. eapply wp_wlp, wp_mono; [by apply (fdDuplicate_wp _ a e); [apply Hp|..]|]. cbv beta.
    intros n t' (Ht' & Hlow & Hes & Hh). apply wlp_bind, add_wlp. simpl. intros k Hk Hm.
    assert (Hp' : proc_ok (set_pmap (<[Z.to_nat k := i32 (n + 1)]> (pr_map pw.1)) (set_ptable t' pw.1))).
    { apply (proc_ok_shared pw.1 _ n a e (Z.to_nat k) INT32_MAX); try done; [apply internal_MAX|].
      by apply (file_data _ _ _ _ _ Hp Hf). }
    assert (Ha' : heap t' !! a = Some (with_num_fd (num_fd e + 1) e)) by (rewrite Hh; apply lookup_insert_eq).
    apply wlp_bind. eapply entry_obj_wlp; [exact Ha'|]. intros o Ho. simpl.
    rewrite (fosIsPipe_false _ a _ o Hp' Ha' Ho). apply wlp_bind, wlp_ret, wlp_ret. split; [|done]. by split.
  - apply wlp_bind, fdExt_wlp. intros v' _ _. apply wlp_bind, real_wlp. intros n p' Hview.
    destruct (Z.ltb_spec 0 (kernel n (SysDup (if v' =? INT32_MAX then fd else (v' + 1) * -1)))).
    + eapply wlp_mono; [apply (add_external_wlp R)|].
      * by apply (inv_view _ pw).
      * split; [lia|]. apply kernel_int.
      * cbv beta. intros _ pw'. apply good_trans. by apply good_view.
    + apply wlp_ret. by apply good_view.
Qed.

(** A successful [dup2] of the kernel returns the number asked for. *)
Hypothesis kernel_dup2 : forall n o new, 0 <= kernel n (SysDup2 o new) -> kernel n (SysDup2 o new) = new.

Lemma set_external_wlp R fd v pw :
  inv R pw -> pr_map pw.1 !! Z.to_nat fd = Some v -> ~ internal v ->
  wlp (on_map (fdSetExternal fd fd)) (fun _ pw' => good R pw pw' /\ forall j u, pr_map pw.1 !! j = Some u -> ~ internal u ->
    exists u', pr_map pw'.1 !! j = Some u' /\ ~ internal u') pw.
Proof.
  intros Hinv Hv Hn. apply map_set_wlp. intros Hfd.
  assert (Hx : ~ internal (i32 (-1 * fd - 1))).
  { apply external_value. pose proof (po_length _ (proj1 Hinv)). lia. }
  split; [split; [by apply (inv_map_other _ _ _ v)|done]|]. intros j u Hj Hu. simpl.
  destruct (decide (j = Z.to_nat fd)) as [->|]; [|by rewrite list_lookup_insert_ne; [exists u|]].
  rewrite list_lookup_insert_eq by lia. by eexists.
Qed.

Lemma dup2_external_wlp R oldfd newfd v pw :
  inv R pw -> moderate R -> pr_map pw.1 !! Z.to_nat oldfd = Some v -> ~ internal v ->
  wlp (b ← is_internal newfd;
       (if (b : bool) then __close early kernel newfd;; mret tt else mret tt);;
       ext ← on_map (fdExt oldfd);
       if ext =? newfd
       then
         on_map (fdSetExternal newfd newfd);;
         if oldfd =? newfd then mret newfd
         else on_map (fdSetExternal oldfd oldfd);; real kernel (SysDup2 newfd oldfd)
       else
         retfd ← real kernel (SysDup2 ext newfd);
         (if 0 <=? retfd then on_map (fdSetExternal retfd retfd) else mret tt);;
         mret retfd) (fun _ pw' => good R pw pw') pw.
Proof.
  intros Hinv HR Hv Hn. apply wlp_bind, is_internal_wlp. intros nv Hnfd Hnv. apply wlp_bind.
  apply (wlp_mono _ (fun _ pw1 => good R pw pw1 /\ pr_map pw1.1 !! Z.to_nat oldfd = Some v /\
    exists u, pr_map pw1.1 !! Z.to_nat newfd = Some u /\ ~ internal u)).
  { destruct (is_int nv) eqn:Hi.
    - apply is_int_spec in Hi. apply wlp_bind. eapply wlp_mono; [by apply (close_wlp R)|]. cbv beta.
      intros _ pw1 [Hg Hm]. apply wlp_ret. split; [done|]. rewrite (Hm nv) by done. split.
      + rewrite list_lookup_insert_ne; [done|]. intros Heq. rewrite Heq in Hnv. by simplify_eq.
      + exists INT32_MAX. split; [|apply internal_MAX]. apply list_lookup_insert_eq. by eapply lookup_lt_Some.
    - apply wlp_ret. split; [by apply good_self|]. split; [done|]. exists nv. split; [done|by apply not_int]. }
  intros [] pw1 (Hg1 & Hv1 & u & Hu & Hnu). pose proof (proj1 Hg1) as Hinv1.
  apply wlp_bind, fdExt_wlp. intros v' Hofd Hv'. destruct (_ =? newfd).
  - apply wlp_bind. eapply wlp_mono; [by apply (set_external_wlp R newfd u)|]. cbv beta. intros [] pw2 [Hg2 Hother].
    destruct (oldfd =? newfd); [apply wlp_ret; by eapply good_trans|].
    destruct (Hother _ _ Hv1 Hn) as (u2 & Hu2 & Hnu2). apply wlp_bind.
    eapply wlp_mono; [by apply (set_external_wlp R oldfd u2); [apply Hg2|..]|]. cbv beta. intros [] pw3 [Hg3 _].
    eapply wlp_mono; [apply (view_good R); [apply Hg3|apply real_view]|]. cbv beta. intros _ pw4 Hg4.
    eapply good_trans; [done|]. eapply good_trans; [done|]. by eapply good_trans.
  - apply wlp_bind, real_wlp. intros n p' Hview. assert (Hg2 : good R pw (p', pw1.2)).
    { eapply good_trans; [done|]. by apply good_view. }
    apply wlp_bind. apply (wlp_mono _ (fun _ pw3 => good R pw pw3)); [|intros [] pw3 Hg3; by apply wlp_ret].
    destruct (Z.leb_spec 0 (kernel n (SysDup2 (if v' =? INT32_MAX then oldfd else (v' + 1) * -1) newfd))) as [Hr|];
      [|by apply wlp_ret].
    rewrite (kernel_dup2 _ _ _ Hr). eapply wlp_mono; [apply (set_external_wlp R newfd u); [apply Hg2| |done]|].
    + simpl. injection Hview as _ -> _ _ _. done.
    + cbv beta. intros [] pw3 [Hg3 _]. by eapply good_trans.
Qed.

Lemma fileClose_keeps_map a : keeps (fun pw : PW => pr_map pw.1) (fosFileClose early a).
Proof.
  unfold fosFileClose, entry_obj, get_obj, delete_obj, on_proc, on_table, on_world. repeat (keeps_step; cbv zeta).
Qed.

(** The number that [dup2] replaces is closed first. *)
Lemma dup2_drop_wlp R oldfd newfd v a e nv pw :
  inv R pw -> moderate R -> file_at pw.1 oldfd v a e -> oldfd <> newfd -> 0 <= newfd -> pr_map pw.1 !! Z.to_nat newfd = Some nv ->
  wlp (if is_int nv
       then
         na ← get_file newfd;
         e ← on_table (get_entry na);
         (if num_fd e =? 1 then fosFileClose early na;; mret tt else mret tt);;
         n ← on_map (fdInt newfd);
         on_table (fdDestroy n);;
         on_map (fdRemove newfd)
       else mret tt) (fun _ pw' => good R pw pw' /\ (room (pr_table pw.1) -> room (pr_table pw'.1)) /\
    (exists e', heap (pr_table pw'.1) !! a = Some e' /\ private_data e' <> 0) /\ exists u, pr_map pw'.1 !! Z.to_nat newfd = Some u /\ ~ internal u) pw.
Proof.
  intros Hinv HR Hf Hne Hnfd Hnv. pose proof Hinv as (Hp & _). destruct (is_int nv) eqn:Hi.
  2: { apply wlp_ret. split; [by apply good_self|]. split; [done|]. split; [exists e; split; [apply Hf|by apply (file_data _ _ _ _ _ Hp Hf)]|]. exists nv.
       split; [done|by apply not_int]. }
  apply is_int_spec in Hi. apply wlp_bind, get_file_wlp; [done|]. intros v' na ne Hnf.
  assert (v' = nv) as -> by (destruct Hnf; by simplify_eq). apply wlp_bind, get_entry_wlp. intros e' He'.
  assert (e' = ne) as -> by (destruct Hnf; by simplify_eq).
  pose proof (drop_fd_wlp R newfd nv na ne pw Hinv HR Hnf) as Hd. unfold drop_fd in Hd.
  apply wlp_bind. eapply wlp_mono.
  { apply wlp_and; [exact (wlp_unbind _ _ _ _ Hd)|].
    enough (Hk : forall b : bool, keeps (fun pw : PW => pr_map pw.1) (if b then fosFileClose early na;; mret tt else mret tt)) by apply Hk.
    intros b. destruct b; [apply keeps_bind; [apply fileClose_keeps_map|intros; apply keeps_ret]|apply keeps_ret]. }
  cbv beta. intros [] pw1 [Hd1 Hm1]. apply wlp_bind, fdInt_wlp. intros v1 _ Hv1 _.
  assert (v1 = nv) as -> by congruence. eapply wlp_mono; [exact Hd1|]. cbv beta. intros [] pw2 (Hinv2 & Hm2 & Hc2 & Hroom & Hes2).
  split; [by split|]. split; [done|]. split.
  - assert (Hslot : fd_entries (pr_table pw2.1) !! Z.to_nat (v - 1) = Some (Ptr a)).
    2: { destruct (counted_alive _ _ _ _ (to_counted _ (po_table _ (proj1 Hinv2))) Hslot) as [e2 He2]. exists e2. split; [done|].
         intros Hz. apply (file_plain _ _ _ _ _ Hp Hf). by apply (po_bare _ (proj1 Hinv2) _ _ _ Hslot He2). }
    rewrite Hes2, list_lookup_insert_ne; [apply Hf|]. intros Heq. destruct Hi, (fa_int _ _ _ _ _ Hf).
    assert (nv = v) as -> by lia. apply Hne. destruct Hf.
    enough (Z.to_nat oldfd = Z.to_nat newfd) by lia. by apply (mo_inj _ _ (po_map _ Hp) _ _ v).
  - exists INT32_MAX. split; [|apply internal_MAX]. rewrite Hm2. apply list_lookup_insert_eq. by eapply lookup_lt_Some.
Qed.

Lemma dup2_call_wlp R oldfd newfd pw :
  inv R pw -> moderate R -> room (pr_table pw.1) ->
  wlp (__dup2 early mem kernel oldfd newfd) (fun _ pw' => good R pw pw') pw.
Proof.
  intros Hinv HR Hroom. pose proof Hinv as (Hp & _). unfold __dup2. apply wlp_bind, is_internal_wlp. intros v Hofd Hv.
  destruct (is_int v) eqn:Hi; cbn [negb]; [|apply (dup2_external_wlp R _ _ v); [done|done|done|by apply not_int]].
  destruct (Z.eqb_spec oldfd newfd) as [|Hne]; [by apply wlp_ret, good_self|].
  apply wlp_bind, get_file_wlp; [done|]. intros v' a e Hf. apply wlp_bind, is_internal_wlp. intros nv Hnfd Hnv.
  apply wlp_bind. eapply wlp_mono; [by apply (dup2_drop_wlp R oldfd newfd v' a e nv)|]. cbv beta.
  intros [] pw1 (Hg1 & Hroom1 & (e1 & He1 & Hd1) & u & Hu & Hnu). apply wlp_bind, on_map_read. intros u' _ Hu'. apply on_map_ret.
  apply wlp_bind. apply (wlp_mono _ (fun _ pw2 => good R pw pw2 /\ pr_table pw2.1 = pr_table pw1.1 /\
    exists u, pr_map pw2.1 !! Z.to_nat newfd = Some u /\ ~ internal u)).
  { destruct (_ && _); [|apply wlp_ret; split; [done|]; split; [done|by exists u]]. apply map_set_wlp. intros Hlt. simpl. split.
    - eapply good_trans; [done|]. split; [|done]. apply (inv_map_other _ _ _ u); [apply Hg1|done|done|apply internal_MAX].
    - split; [done|]. exists INT32_MAX. split; [|apply internal_MAX]. apply list_lookup_insert_eq. lia. }
  intros [] pw2 ([Hinv2 Hc2] & Ht2 & u2 & Hu2 & Hnu2). pose proof Hinv2 as (Hp2 & Hs2 & Hb2).
  apply wlp_bind, wlp_zoom. eapply wp_wlp, wp_mono.
  { apply (fdDuplicate_wp _ a e1); [apply Hp2|by rewrite Ht2|rewrite Ht2; by apply Hroom1]. }
  cbv beta. intros n t' (Ht' & Hlow & Hes & Hh). apply wlp_bind, map_set_wlp. intros _. apply wlp_ret.
  split; [|done]. split; [|by split]. simpl.
  apply (proc_ok_shared pw2.1 _ n a e1 (Z.to_nat newfd) u2); try done. by rewrite Ht2.
Qed.

(** *** Opening *)

(** The object that has been opened, and the new descriptor at its server. *)
Definition opened_obj (pw : PW) (x : Z) (pw' : PW) : Prop :=
  exists kf, x = pr_next pw.1 /\ pr_table pw'.1 = pr_table pw.1 /\ pr_map pw'.1 = pr_map pw.1 /\
    closed_fds pw'.1 = closed_fds pw.1 /\ pkeys pw'.1 = <[x := Some kf]> (pkeys pw.1) /\ pr_next pw'.1 = x + 1 /\
    new_at (fst kf) (snd kf) (wview pw.2) (wview pw'.2).

Lemma new_obj_wlp o kf pw pw1 :
  okey o = Some kf -> pw1.1 = pw.1 -> new_at (fst kf) (snd kf) (wview pw.2) (wview pw1.2) ->
  wlp (new_obj o) (fun x pw' => opened_obj pw x pw') pw1.
Proof.
  intros Ho Hp Hn. unfold new_obj. apply wlp_bind, wlp_gets, wlp_bind, wlp_modify, wlp_ret. exists kf. rewrite Hp.
  split_and!; try done. simpl. rewrite <- Ho. apply fmap_insert.
Qed.

Lemma open_obj_wlp inode path flags mode pw :
  ids_ok (wview pw.2) ->
  wlp (open_obj early inode path flags mode) (fun r pw' =>
    match snd r with Some x => 0 <= fst r /\ opened_obj pw x pw' | None => pview pw' = pview pw end) pw.
Proof.
  intros Hids. unfold open_obj. apply wlp_bind, on_world_wlp.
  eapply wlp_mono; [apply wlp_and; [by apply fosFileOpen_view|apply fosFileOpen_plain]|]. cbv beta.
  intros [rv [o|]] w1 [Hop Hpl]; unfold opens, opened_plain in *; simpl in Hop, Hpl.
  2: { apply wlp_ret. unfold pview. simpl. by rewrite Hop. }
  destruct Hpl as [Hty Hrv]. destruct o as [inode' fd size state offset|inode' fd]; simpl in *.
  - apply wlp_bind, on_world_wlp. simpl.
    eapply wlp_mono; [apply wlp_and; [apply cf_open_keeps|apply cf_open_same]|]. cbv beta. intros f w2 [Hw2 [Hi Hfd]].
    apply wlp_bind. eapply wlp_mono; [apply (new_obj_wlp _ (it_server inode', fd) pw)|].
    + unfold okey, fosIsPipe. simpl. by rewrite Hi, Hfd, bool_decide_false.
    + done.
    + simpl. by rewrite Hw2.
    + cbv beta. intros x pw' Hx. by apply wlp_ret.
  - apply wlp_bind. eapply wlp_mono; [apply (new_obj_wlp _ (it_server inode', fd) pw)|].
    + unfold okey, fosIsPipe. simpl. by rewrite bool_decide_false.
    + done.
    + done.
    + cbv beta. intros x pw' Hx. by apply wlp_ret.
Qed.

Lemma add_external_or_not R fd pw :
  inv R pw -> fd < 2 ^ 31 -> wlp (add_external fd) (fun _ pw' => good R pw pw') pw.
Proof.
  intros Hinv Hfd. unfold add_external. destruct (Z.leb_spec 0 fd); [by apply add_external_wlp|by apply wlp_ret, good_self].
Qed.

(** An open that is passed on to the kernel. *)
Lemma kernel_open_wlp R c pw :
  inv R pw -> wlp (fd ← real kernel c; add_external fd) (fun _ pw' => good R pw pw') pw.
Proof.
  intros Hinv. apply wlp_bind, real_wlp. intros n p' Hview. eapply wlp_mono; [apply (add_external_or_not R)|].
  - by apply (inv_view _ pw).
  - apply kernel_int.
  - cbv beta. intros _ pw'. apply good_trans. by apply good_view.
Qed.

(** A new object with an entry and a number. *)
Lemma proc_wf_opened p p' n a x o e k u :
  proc_wf p -> lowest_free (alloc_state (pr_table p)) n -> heap (pr_table p) !! a = None -> private_data e = x ->
  x = pr_next p -> pr_map p !! k = Some u -> ~ internal u ->
  table_ok (pr_table p') -> fd_entries (pr_table p') = <[Z.to_nat n := Ptr a]> (fd_entries (pr_table p)) ->
  heap (pr_table p') = <[a := e]> (heap (pr_table p)) -> pr_map p' = <[k := i32 (n + 1)]> (pr_map p) ->
  pkeys p' = <[x := o]> (pkeys p) -> pr_next p' = x + 1 -> proc_wf p'.
Proof.
  intros [Ht Hl Hm Ho Hbr] (Hn & Hfree & _) Ha He -> Hk Hu Ht' Hes Hh Hmap Hkeys Hnext.
  assert (Hnull : fd_entries (pr_table p) !! Z.to_nat n = Some Null) by (apply slot_free; [done|lia|done]).
  split; [done| | | |].
  - by rewrite Hmap, length_insert.
  - rewrite Hmap, Hes, i32_small by lia. rewrite <- (Z2Nat.id n) at 1 by lia.
    apply (map_ok_add _ _ _ u); [done|done|done|done|lia].
  - rewrite Hh, Hkeys, Hnext. apply (objs_ok_new _ _ (pr_next p)); [done|done|done|lia].
  - rewrite Hes, Hh. pose proof (oo_positive _ _ _ Ho).
    apply bare_new; [done|apply (to_counted _ Ht)| |done|lia]. intros [b Hb]%(mo_reserved _ _ Hm). congruence.
Qed.

(** The number a server drew for a descriptor is not in use. *)
Definition fresh_open (pw pw' : PW) : Prop :=
  forall kf, uses kf (pkeys pw'.1) = uses kf (pkeys pw.1) + 1 -> cnt (wview pw.2) kf = 0.

Lemma enter_wlp R pw pw1 x flags :
  inv R pw -> room (pr_table pw.1) -> opened_obj pw x pw1 ->
  wlp (r ← on_table (fdCreate mem fosFileOps x flags);
       let '(internal_fd, file) := r in
       if internal_fd <? 0 then mret (- FdTable.ENOMEM)
       else match file with None => abort | Some _ => on_map (fdAddInternal internal_fd) end)
    (fun r pw' => fresh_open pw pw' -> r <> - FdTable.ENOMEM -> good R pw pw') pw1.
Proof.
  intros (Hp & Hs & Hb) Hroom (kf & Hx & Ht & Hm & Hc & Hk & Hn & Hnew). apply wlp_bind, wlp_zoom. rewrite Ht.
  eapply wp_wlp, wp_mono; [by apply fdCreate_wp; [apply Hp|..]|]. cbv beta.
  intros r t' [Ht' [(-> & _)|(fd & a & -> & Hlow & Ha & Hes & Hh & _)]]; [by apply wlp_ret|].
  destruct (Z.ltb_spec fd 0); [by apply wlp_ret|]. apply add_wlp. simpl. rewrite Hm. intros k Hk0 Hmk Hfresh _.
  assert (Hnone : pkeys pw.1 !! x = None) by (apply (oo_next _ _ _ (po_objs _ Hp)); lia).
  assert (Hkeys : forall kf', uses kf' (pkeys pw1.1) = uses kf' (pkeys pw.1) + one kf kf') by (intros; by rewrite Hk, uses_insert).
  assert (H0' : cnt (wview pw.2) kf = 0).
  { apply Hfresh. simpl. change (pkeys (set_pmap _ _)) with (pkeys pw1.1). rewrite Hkeys. unfold one. by rewrite decide_True. }
  destruct kf as [ks fdn]. destruct (new_at_cnt _ _ _ _ Hs Hnew H0') as [Hs' Hc'].
  split; [|simpl; congruence]. split; [|split; [done|]].
  - simpl. split; [|change (plain (pkeys pw1.1)); rewrite Hk; apply plain_insert, Hp].
    apply (proc_wf_opened pw.1 _ fd a x (Some (ks, fdn)) (mkFDEntry fd 1 flags fosFileOps x) (Z.to_nat k) INT32_MAX); try done;
      [apply Hp|apply internal_MAX].
  - simpl. intros kf'. change (pkeys (set_pmap _ _)) with (pkeys pw1.1). rewrite Hkeys, Hc', Hb. simpl. lia.
Qed.

Lemma dir_inode_wlp dir_fd pw : proc_ok pw.1 -> wlp (dir_inode dir_fd) (fun _ pw' => pw' = pw) pw.
Proof.
  intros Hp. unfold dir_inode. destruct (_ =? _); [by apply wlp_bind, wlp_gets, wlp_ret|].
  apply wlp_bind, is_internal_wlp. intros v _ Hv. destruct (is_int v); [|by apply wlp_ret]. cbn [negb].
  apply wlp_bind, fdInt_wlp. intros v' Hfd Hv' Hi. apply wlp_bind, wlp_zoom, wp_wlp, fdGet_wp; [apply Hp| |].
  - intros a e _ Hs Ha. rewrite set_ptable_id. apply wlp_bind, wlp_deref. intros a' Heq. simplify_eq.
    apply wlp_bind. eapply entry_obj_wlp; [done|]. intros o Ho. by apply wlp_ret.
  - intros _. apply wlp_bind, wlp_deref. done.
Qed.

Lemma openat_wlp R dir_fd path flags mode pw :
  inv R pw -> room (pr_table pw.1) ->
  wlp (__openat early mem kernel dir_fd path flags mode)
    (fun r pw' => fresh_open pw pw' -> r <> - FdTable.ENOMEM -> good R pw pw') pw.
Proof.
  intros Hinv Hroom. pose proof Hinv as (Hp & Hs & _). unfold __openat, fosPathExcluded. apply wlp_bind, wlp_bind, wlp_gets, wlp_ret.
  destruct (path_excluded _ _).
  { eapply wlp_mono; [by apply (kernel_open_wlp R)|]. cbv beta. by intros r pw' Hg _ _. }
  apply wlp_bind. eapply wlp_mono; [by apply dir_inode_wlp|]. cbv beta. intros [inode|] pw' ->.
  - apply wlp_bind. eapply wlp_mono; [apply open_obj_wlp, Hs|]. cbv beta. intros [rv [x|]] pw1 Ho; simpl in Ho.
    + destruct Ho as [Hrv Ho]. rewrite (proj2 (Z.ltb_ge _ _)) by done. by apply enter_wlp.
    + destruct (rv <? 0); [|apply wlp_abort]. apply wlp_ret. intros _ _. by apply good_view.
  - apply wlp_bind, fdExt_wlp. intros v _ _. eapply wlp_mono; [by apply (kernel_open_wlp R)|]. cbv beta. by intros r pw' Hg _ _.
Qed.

(** *** The other calls *)

Lemma internal_file_wlp {A} fd (k : option Z -> M PW A) (Q : A -> PW -> Prop) pw :
  proc_ok pw.1 -> (forall v a e, file_at pw.1 fd v a e -> wlp (k (Some a)) Q pw) ->
  wlp (n ← on_map (fdInt fd); o ← on_table (fdGet n); k o) Q pw.
Proof.
  intros Hp HQ. apply wlp_bind, fdInt_wlp. intros v Hfd Hv Hi. destruct (file_at_ex _ _ _ Hp Hfd Hv Hi) as (a & e & Hf).
  apply wlp_bind, wlp_zoom, wp_wlp, fdGet_wp; [apply Hp| |].
  - intros b e' _ Hb _. rewrite set_ptable_id. apply (HQ v a e) in Hf as Hq. destruct Hf. by simplify_eq.
  - intros Hno. destruct (Hno a); [destruct Hi; lia|]. apply Hf.
Qed.

(** The common start: a call on a file of the kernel is passed on. *)
Lemma call_wlp {A} R fd (ext : Z -> M PW A) (body : M PW A) pw :
  inv R pw -> (forall e pw, wlp (ext e) (fun _ pw' => pview pw' = pview pw) pw) ->
  (wlp body (fun _ pw' => good R pw pw') pw) ->
  wlp (b ← is_internal fd; if negb b then e ← on_map (fdExt fd); ext e else body) (fun _ pw' => good R pw pw') pw.
Proof.
  intros Hinv Hext Hbody. apply wlp_bind, is_internal_wlp. intros v _ Hv. destruct (is_int v); [done|]. cbn [negb].
  apply wlp_bind, fdExt_wlp. intros v' _ _. eapply view_good; [done|]. apply Hext.
Qed.

Lemma world_view {A} (m : Z -> M World A) : (forall ch, keeps wview (m ch)) -> keeps pview (on_world m).
Proof.
  intros Hm pw. apply on_world_wlp. eapply wlp_mono; [apply Hm|]. intros a w' Hw. unfold pview. simpl. by rewrite Hw.
Qed.
Lemma proc_view f : (forall p w, pview (f p, w) = pview (p, w)) -> keeps pview (on_proc f).
Proof. intros Hf pw. apply wlp_modify. rewrite Hf. by destruct pw. Qed.
Lemma ext_view fd : keeps pview (on_map (fdExt fd)).
Proof. intros pw. by apply fdExt_wlp. Qed.
Lemma internal_view fd : keeps pview (is_internal fd).
Proof. intros pw. by apply is_internal_wlp. Qed.
#[local] Hint Resolve world_view ext_view internal_view real_view : keeps.

Lemma read_call_wlp R fd count pw :
  inv R pw -> wlp (__read early kernel kernel_data fuel fd count) (fun _ pw' => good R pw pw') pw.
Proof.
  intros Hinv. apply call_wlp; [done| |].
  - intros e. apply (keeps_bind pview); [apply keeps_gets|]. intros n. apply keeps_bind; [apply real_view|].
    intros r. apply keeps_ret.
  - apply internal_file_wlp; [apply Hinv|]. intros v a e Hf.
    apply wlp_bind, get_entry_wlp. intros e' _. destruct (has_flag _ _); [by apply wlp_ret, good_self|].
    eapply view_good; [done|]. eapply read_view; [apply Hinv|done].
Qed.

Lemma write_call_wlp R fd buf count pw :
  inv R pw -> wlp (__write early kernel fuel fd buf count) (fun _ pw' => good R pw pw') pw.
Proof.
  intros Hinv. apply call_wlp; [done|intros; apply real_view|]. apply wlp_bind, get_file_wlp; [apply Hinv|].
  intros v a e Hf. apply wlp_bind, get_entry_wlp. intros e' _. destruct (has_flag _ _); [by apply wlp_ret, good_self|].
  eapply view_good; [done|]. eapply write_view; [apply Hinv|done].
Qed.

Lemma lseek_call_wlp R fd offset whence pw :
  inv R pw -> wlp (__lseek64 early kernel fd offset whence) (fun _ pw' => good R pw pw') pw.
Proof.
  intros Hinv. apply call_wlp; [done|intros; apply real_view|]. apply wlp_bind, get_file_wlp; [apply Hinv|].
  intros v a e Hf. eapply view_good; [done|]. eapply lseek_view; [apply Hinv|done].
Qed.

Lemma ftruncate_call_wlp R fd len pw :
  inv R pw -> wlp (__ftruncate early kernel fuel fd len) (fun _ pw' => good R pw pw') pw.
Proof.
  intros Hinv. apply call_wlp; [done|intros; apply real_view|]. apply internal_file_wlp; [apply Hinv|].
  intros v a e Hf. apply wlp_bind, wlp_deref. intros a' Ha'. simplify_eq. eapply view_good; [done|].
  eapply truncate_view; [apply Hinv|done].
Qed.

Lemma truncate_call_view path len : keeps pview (__truncate early kernel fuel path len).
Proof.
  unfold __truncate, fosPathExcluded. apply keeps_bind; [apply keeps_bind; [apply keeps_gets|intros; apply keeps_ret]|].
  intros b. destruct b; [apply real_view|]. apply keeps_bind; [apply keeps_gets|]. intros cwd.
  apply world_view. intros ch. apply fosTruncate_keeps.
Qed.

Lemma fsync_call_view fd : keeps pview (__fsync kernel fd).
Proof.
  unfold __fsync. apply keeps_bind; [apply internal_view|]. intros b. destruct (negb b); [|apply keeps_ret].
  apply keeps_bind; [apply ext_view|]. intros e. apply real_view.
Qed.

Lemma chdir_call_view path : keeps pview (__chdir early kernel path).
Proof.
  unfold __chdir, fosPathExcluded. apply keeps_bind; [apply keeps_bind; [apply keeps_gets|intros; apply keeps_ret]|].
  intros b. apply keeps_bind; [apply keeps_gets|]. intros c. apply keeps_bind; [apply keeps_gets|]. intros cwd.
  destruct (b || negb c).
  - apply keeps_bind; [by apply proc_view|]. intros _. apply real_view.
  - apply keeps_bind; [apply world_view; intros ch; apply fosLookup_keeps|]. intros [[rv inode] ?].
    destruct (negb _); (apply keeps_bind; [by apply proc_view|]; intros _; apply keeps_ret).
Qed.

Lemma fchdir_call_wlp R fd pw :
  inv R pw -> wlp (__fchdir kernel fd) (fun _ pw' => good R pw pw') pw.
Proof.
  intros Hinv. apply view_good; [done|]. unfold __fchdir. apply wlp_bind, is_internal_wlp. intros v _ Hv. apply wlp_bind, wlp_gets.
  destruct (is_int v); cbn [negb].
  - apply internal_file_wlp; [apply Hinv|]. intros v' a e Hf.
    apply wlp_bind, wlp_deref. intros a' Ha'. simplify_eq. apply wlp_bind. eapply entry_obj_wlp; [apply Hf|]. intros o Ho.
    apply wlp_bind, wlp_assert. intros _. by apply wlp_bind, wlp_modify, wlp_ret.
  - apply wlp_bind, wlp_modify, wlp_bind, fdExt_wlp. intros v' _ _. eapply wlp_mono; [apply real_view|]. by intros r pw' ->.
Qed.

(** New flags for an entry. *)
Lemma table_ok_status t a e flags :
  table_ok t -> heap t !! a = Some e ->
  table_ok (set_heap (<[a := mkFDEntry (e_fd e) (num_fd e) flags (file_ops e) (private_data e)]> (heap t)) t).
Proof.
  intros [Hal Hs Hl Hi Hc Hn Ho Hd] Ha. split; simpl; try done.
  - intros b. specialize (Hc b). destruct (decide (b = a)) as [->|]; [|by rewrite lookup_insert_ne].
    rewrite lookup_insert_eq. by rewrite Ha in Hc.
  - intros b Hb. rewrite lookup_insert_ne; [by apply Hn|]. intros ->. by rewrite Hn in Ha.
Qed.

Lemma set_status_wlp R a flags pw : inv R pw -> wlp (set_status a flags) (fun _ pw' => good R pw pw') pw.
Proof.
  intros ([[Ht Hl Hm Ho Hbr] Hpl] & Hs & Hb). unfold set_status. apply wlp_bind, get_entry_wlp. intros e He.
  apply wlp_zoom, wlp_modify. split; [|done]. split; [|by split]. split; [|done]. split; simpl; [|done|done| |].
  - by apply table_ok_status.
  - by apply (objs_ok_update _ _ _ a e).
  - by apply (bare_update _ _ a e).
Qed.

Lemma fcntl_call_wlp R fd cmd arg pw :
  inv R pw -> (cmd = F_DUPFD -> room (pr_table pw.1)) ->
  wlp (__fcntl early mem kernel fd cmd arg) (fun _ pw' => good R pw pw') pw.
Proof.
  intros Hinv Hroom. unfold __fcntl. apply wlp_bind, is_internal_wlp. intros v _ Hv. destruct (is_int v); cbn [negb].
  2: { apply wlp_bind, on_map_read. intros v' _ _. apply on_map_ret. apply view_good; [done|].
       destruct (negb (negb _)); [apply real_view|]. apply wlp_bind, fdExt_wlp. intros v'' _ _. apply real_view. }
  apply wlp_bind, get_file_wlp; [apply Hinv|]. intros v' a e Hf. apply wlp_bind, get_entry_wlp. intros e' _.
  wif; [apply wlp_abort|]. destruct (Z.eqb_spec cmd F_DUPFD) as [->|]; [by apply dup_call_wlp; [|apply Hroom]|].
  assert (Hset : forall flags, wlp (set_status a flags;; mret 0) (fun _ pw' => good R pw pw') pw).
  { intros flags. apply wlp_bind. eapply wlp_mono; [by apply (set_status_wlp R)|]. intros [] pw' Hg. by apply wlp_ret. }
  wif; [by apply wlp_ret, good_self|]. wif; [wif; [apply Hset|apply wlp_abort]|].
  wif; [by apply wlp_ret, good_self|]. wif; [apply Hset|by apply wlp_ret, good_self].
Qed.

(** *** Start *)

(** The first [n] slots are in use, and the reserved ones are among them. *)
Record filled (n : nat) (t : FosFDTable) : Prop := {
  fi_table : table_ok t;
  fi_slots s : (exists a, fd_entries t !! s = Some (Ptr a)) <-> (s < n)%nat;
  fi_once j : Z.testbit (once_only_fds t) j = true -> j < Z.of_nat n
}.

Lemma filled_held n t j : filled n t -> 0 <= j < 512 -> held (alloc_state t) j <-> j < Z.of_nat n.
Proof.
  intros [Ht Hs Ho] Hj. split.
  - intros Hh. destruct (to_held _ Ht j Hj Hh) as [_ [Ha|Hb]]; [|by apply Ho].
    apply Hs in Ha. lia.
  - intros Hlt. destruct (proj2 (Hs (Z.to_nat j))) as [a Ha]; [lia|].
    by destruct (to_open _ Ht j a ltac:(lia) Ha).
Qed.

(** The next descriptor gets the next slot. *)
Lemma filled_create n ops data flags t :
  filled n t -> (n < 32)%nat -> (forall k, mem k = true) -> ops <> 0 ->
  wp (fdCreate mem ops data flags) (fun r t' => filled (S n) t' /\ exists a, r = (Z.of_nat n, Some a) /\
    heap t !! a = None /\ fd_entries t' = <[n := Ptr a]> (fd_entries t) /\
    heap t' = <[a := mkFDEntry (Z.of_nat n) 1 flags ops data]> (heap t)) t.
Proof.
  intros Hf Hn Hmem Hops. pose proof Hf as [Ht Hs Ho]. eapply wp_mono.
  { apply fdCreate_wp; [done|done|]. exists (Z.of_nat n). split; [lia|]. rewrite (filled_held n) by (done || lia). lia. }
  cbv beta. intros r t' [Ht' [(_ & _ & _ & Hm)|(fd & a & -> & (Hr & Hfree & Hlow) & Ha & Hes & Hh & Honce)]].
  { by rewrite Hmem in Hm. }
  assert (fd = Z.of_nat n) as ->.
  { rewrite (filled_held n) in Hfree by (done || lia). destruct (decide (Z.of_nat n < fd)) as [Hx|]; [|lia].
    specialize (Hlow (Z.of_nat n) ltac:(lia)). rewrite (filled_held n) in Hlow by (done || lia). lia. }
  rewrite Nat2Z.id in Hes. split; [|by exists a]. pose proof (to_length _ Ht) as Hlen. unfold EXPANSION_SIZE in Hlen. split; [done| |].
  - intros s. rewrite Hes. split.
    + intros [b [(<- & _)|[Hne Hb]]%list_lookup_insert_Some]; [lia|]. enough (s < n)%nat by lia. apply Hs. by exists b.
    + intros Hlt. destruct (decide (s = n)) as [->|Hne]; [exists a; apply list_lookup_insert_eq; lia|].
      rewrite list_lookup_insert_ne by done. apply Hs. lia.
  - intros j. rewrite Honce. intros Hj%Ho. lia.
Qed.

Lemma filled_once n fd t :
  filled n t -> 0 <= fd < 3 -> (3 <= n)%nat ->
  wp (fdOnceOnly fd) (fun _ t' => filled n t' /\ fd_entries t' = fd_entries t /\ heap t' = heap t) t.
Proof.
  intros [Ht Hs Ho] Hfd Hn. unfold fdOnceOnly, BITARRAY_BITS_PER_INT. apply wp_bind, wp_assert; [lia|]. apply wp_modify.
  split; [|done]. split; [|done|].
  - destruct Ht as [H1 H2 H3 H4 H5 H6 H7 H8]. split; cbn; try done. intros j Hj Hh.
    destruct (H8 j Hj Hh) as [? [Hp|Hb]]; (split; [done|]); [by left|right]. by rewrite Z.lor_spec, Hb.
  - cbn. intros j. rewrite Z.lor_spec, orb_true_iff. intros [Hj|Hj]; [by apply Ho|].
    assert (CREATE_MASK fd = 2 ^ fd) as Hm.
    { assert (fd = 0 \/ fd = 1 \/ fd = 2) as [-> |[-> | ->]] by lia; reflexivity. }
    rewrite Hm, Z.pow2_bits_eqb in Hj by lia. lia.
Qed.

Lemma for_fds_wp (I : Z -> PW -> Prop) (body : Z -> M PW unit) n i pw :
  I i pw -> (forall j pw, i <= j < i + Z.of_nat n -> I j pw -> wp (body j) (fun _ => I (j + 1)) pw) ->
  wp (for_fds n i body) (fun _ => I (i + Z.of_nat n)) pw.
Proof.
  revert i pw. induction n as [|n IH]; intros i pw Hi Hb; cbn [for_fds].
  - apply wp_ret. by rewrite Z.add_0_r.
  - apply wp_bind. eapply wp_mono; [apply Hb; [lia|done]|]. cbv beta. intros [] pw' Hi'.
    replace (i + Z.of_nat (S n)) with (i + 1 + Z.of_nat n) by lia. apply IH; [done|]. intros j pw'' Hj. apply Hb. lia.
Qed.

Lemma pw_map_set_wp fd v (Q : unit -> PW -> Prop) pw :
  0 <= fd < Z.of_nat (length (pr_map pw.1)) -> Q tt (set_pmap (<[Z.to_nat fd := v]> (pr_map pw.1)) pw.1, pw.2) ->
  wp (on_map (map_set fd v)) Q pw.
Proof.
  intros Hfd HQ. apply wp_zoom. unfold map_set. apply wp_bind, wp_gets. unfold id.
  rewrite (proj2 (andb_true_iff _ _)) by lia. by apply wp_modify.
Qed.

(** No number stands for anything. *)
Lemma forget_wp (Q : unit -> PW -> Prop) pw :
  length (pr_map pw.1) = Z.to_nat CONFIG_FD_COUNT ->
  Q tt (set_pmap (replicate (Z.to_nat CONFIG_FD_COUNT) INT32_MAX) pw.1, pw.2) ->
  wp (for_fds (Z.to_nat CONFIG_FD_COUNT) 0 (fun j => on_map (fdRemove j))) Q pw.
Proof.
  intros Hlen HQ. set (N := Z.to_nat CONFIG_FD_COUNT) in *. eapply wp_mono.
  { apply (for_fds_wp (fun i pw' => exists m, pw' = (set_pmap m pw.1, pw.2) /\ length m = N /\
      forall j, (j < Z.to_nat i)%nat -> m !! j = Some INT32_MAX)).
    - exists (pr_map pw.1). split; [by rewrite set_pmap_id|]. split; [done|lia].
    - intros j pw' Hj (m & -> & Hm & Hset). apply pw_map_set_wp; [cbn; lia|]. exists (<[Z.to_nat j := INT32_MAX]> m).
      split; [done|]. rewrite length_insert. split; [done|]. intros j' Hj'.
      destruct (decide (j' = Z.to_nat j)) as [->|]; [apply list_lookup_insert_eq; lia|].
      rewrite list_lookup_insert_ne by done. apply Hset. lia. }
  cbv beta. intros [] pw' (m & -> & Hm & Hset). enough (m = replicate N INT32_MAX) as -> by done.
  apply list_eq. intros j. destruct (decide (j < N)%nat).
  - rewrite Hset by lia. symmetry. by apply lookup_replicate_2.
  - rewrite (lookup_ge_None_2 m), (lookup_ge_None_2 (replicate _ _)); rewrite ?length_replicate; done || lia.
Qed.

(** A table in which all entries are bare and none is shared. *)
Definition all_bare (n : nat) (t : FosFDTable) : Prop :=
  filled n t /\ forall a e, heap t !! a = Some e -> private_data e = 0 /\ num_fd e = 1.

Lemma all_bare_create n flags t :
  all_bare n t -> (n < 32)%nat -> (forall k, mem k = true) -> wp (fdCreate mem fosFileOps 0 flags) (fun _ => all_bare (S n)) t.
Proof.
  intros [Hf Hb] Hn Hmem. eapply wp_mono; [by apply (filled_create n)|]. cbv beta. intros r t' (Hf' & a & _ & _ & _ & Hh).
  split; [done|]. rewrite Hh. intros b e [[<- <-]|[_ He]]%lookup_insert_Some; [done|by eapply Hb].
Qed.
Lemma all_bare_once fd t : all_bare 3 t -> 0 <= fd < 3 -> wp (fdOnceOnly fd) (fun _ => all_bare 3) t.
Proof.
  intros [Hf Hb] Hfd. eapply wp_mono; [by apply (filled_once 3)|]. cbv beta. intros [] t' (Hf' & _ & Hh). split; [done|].
  by rewrite Hh.
Qed.

Lemma proc_ok_started t p :
  all_bare 3 t -> pr_objs p = ∅ -> 0 < pr_next p -> length (pr_map p) = Z.to_nat CONFIG_FD_COUNT -> pr_table p = t ->
  (forall i v, pr_map p !! i = Some v -> ~ internal v) -> proc_ok p.
Proof.
  intros [Hf Hb] Ho Hn Hl <- Hm. assert (Hk : pkeys p = ∅) by (unfold pkeys; by rewrite Ho, fmap_empty).
  pose proof Hf as [Ht Hs _]. split; [|rewrite Hk; by intros x]. split; [done|done| | |].
  - split; [by intros i v Hi ?%(Hm i v Hi)|by intros i j v Hi Hj ?%(Hm i v Hi)| |].
    + intros s a Ha. assert (s < 3)%nat by (apply Hs; by exists a). split; [lia|by left].
    + intros s Hr. by apply Hs.
  - rewrite Hk. split; [intros a e Ha Hp; by destruct Hp, (Hb a e Ha)|intros a b e e' Ha _ Hp; by destruct Hp, (Hb a e Ha)|done|done|done].
  - intros s a e Ha He. destruct (Hb a e He) as [-> _]. split; [|done]. intros _. apply Hs. by exists a.
Qed.

(** The state in which the reading of the environment begins. *)
Definition blank (p : Process) : Prop :=
  heap (pr_table p) = ∅ /\ pr_objs p = ∅ /\ 0 < pr_next p /\ length (pr_map p) = Z.to_nat CONFIG_FD_COUNT.

Lemma on_table_wp {A} (m : M FosFDTable A) (Q : A -> PW -> Prop) t p w :
  wp m (fun a t' => Q a (set_ptable t' p, w)) t -> wp (on_table m) Q (set_ptable t p, w).
Proof. intros Hm. apply wp_zoom. exact Hm. Qed.

Lemma init_wp (Q : unit -> PW -> Prop) pw :
  (forall k, mem k = true) -> blank pw.1 ->
  (forall t, all_bare 3 t ->
    Q tt (set_pmap (replicate (Z.to_nat CONFIG_FD_COUNT) INT32_MAX) (set_ptable t pw.1), pw.2)) ->
  wp (init_descriptors mem) Q pw.
Proof.
  intros Hmem (Hh & Ho & Hn & Hl) HQ. unfold init_descriptors. apply wp_bind, wp_zoom.
  eapply wp_mono; [by apply fdInitialize_empty|]. cbv beta. intros _ t0 (Ht0 & Hh0 & Ho0 & He0).
  assert (Hb0 : all_bare 0 t0).
  { split; [split; [done| |]|by rewrite Hh0].
    - intros s. split; [|lia]. rewrite He0. by intros [a [? _]%lookup_replicate_1].
    - rewrite Ho0. intros j. by rewrite Z.bits_0. }
  do 3 (apply wp_bind, on_table_wp; eapply wp_mono; [apply all_bare_create; [eassumption|lia|done]|]; cbv beta; intros _ ? ?).
  do 3 (apply wp_bind, on_table_wp; eapply wp_mono; [apply all_bare_once; [eassumption|lia]|]; cbv beta; intros _ ? ?).
  apply forget_wp; [done|]. by apply HQ.
Qed.

(** ** The system *)

(** What the kernel stores for a call are bytes and descriptors. *)
Hypothesis kernel_stores : forall n v, v ∈ kernel_data n -> 0 <= v < 2 ^ 31.

(** A pipe of the kernel. *)
Lemma pipe2_wlp R flags pw :
  inv R pw -> has_flag flags O_EXCL = false ->
  wlp (__pipe2 early mem kernel kernel_data flags) (fun _ pw' => good R pw pw') pw.
Proof.
  intros Hinv Hf. unfold __pipe2. rewrite Hf. apply wlp_bind, wlp_gets, wlp_bind, real_wlp. intros n p' Hview.
  assert (Hg : good R pw (p', pw.2)) by by apply good_view.
  destruct (_ =? 0); [|by apply wlp_ret]. destruct (kernel_data (pr_calls pw.1)) as [|fd0 [|fd1 l]] eqn:Hd; try apply wlp_undef.
  apply wlp_bind. eapply wlp_mono; [apply (add_external_wlp R); [apply Hg|apply (kernel_stores (pr_calls pw.1)); rewrite Hd; left]|].
  cbv beta. intros v pw1 Hg1. apply wlp_bind.
  eapply wlp_mono; [apply (add_external_wlp R); [apply Hg1|apply (kernel_stores (pr_calls pw.1)); rewrite Hd; right; left]|].
  cbv beta. intros v' pw2 Hg2. apply wlp_ret. by eapply good_trans; [|eapply good_trans].
Qed.

(** The calls of a process on its files. *)
Inductive call : Type :=
| COpenat (dir_fd : Z) (path : string) (flags mode : Z)
| CDup (fd : Z)
| CDup2 (oldfd newfd : Z)
| CClose (fd : Z)
| CRead (fd count : Z)
| CWrite (fd : Z) (buf : list Z) (count : Z)
| CLseek (fd offset whence : Z)
| CTruncate (path : string) (length : Z)
| CFtruncate (fd length : Z)
| CFsync (fd : Z)
| CFcntl (fd cmd arg : Z)
| CChdir (path : string)
| CFchdir (fd : Z)
| CPipe2 (flags : Z).

Definition run_call (c : call) : M PW Z :=
  match c with
  | COpenat dir_fd path flags mode => __openat early mem kernel dir_fd path flags mode
  | CDup fd => __dup early mem kernel fd
  | CDup2 oldfd newfd => __dup2 early mem kernel oldfd newfd
  | CClose fd => __close early kernel fd
  | CRead fd count => r ← __read early kernel kernel_data fuel fd count; mret (fst r)
  | CWrite fd buf count => __write early kernel fuel fd buf count
  | CLseek fd offset whence => __lseek64 early kernel fd offset whence
  | CTruncate path length => __truncate early kernel fuel path length
  | CFtruncate fd length => __ftruncate early kernel fuel fd length
  | CFsync fd => __fsync kernel fd
  | CFcntl fd cmd arg => __fcntl early mem kernel fd cmd arg
  | CChdir path => __chdir early kernel path
  | CFchdir fd => __fchdir kernel fd
  | CPipe2 flags => r ← __pipe2 early mem kernel kernel_data flags; mret (fst r)
  end.

(** A new number needs one of the first 32 slots of the table: [fdCreate] writes over
    slot 32 when there is none ([fd.c], line 169). *)
Definition needs_room (c : call) : Prop :=
  match c with COpenat _ _ _ _ | CDup _ | CDup2 _ _ => True | CFcntl _ cmd _ => cmd = F_DUPFD | _ => False end.

(** What the code takes for granted and does not check.  The descriptor that a server
    draws at random for an open is not in use ([server.hpp], line 30).  There is memory
    for the entry, for otherwise the open leaves its object and its descriptor behind
    ([open.c], line 50).  A pipe is one of the kernel: the ends of a pipe of the servers,
    which [O_EXCL] asks for, are never closed there ([pipe.cpp], line 117). *)
Definition lucky (c : call) (pw : PW) (r : Z) (pw' : PW) : Prop :=
  match c with
  | COpenat _ _ _ _ => fresh_open pw pw' /\ r <> - FdTable.ENOMEM
  | CPipe2 flags => has_flag flags O_EXCL = false
  | _ => True
  end.

Lemma run_call_wlp R c pw :
  inv R pw -> moderate R -> (needs_room c -> room (pr_table pw.1)) ->
  wlp (run_call c) (fun r pw' => lucky c pw r pw' -> good R pw pw') pw.
Proof.
  intros Hinv HR Hroom. destruct c; simpl run_call; simpl lucky; simpl needs_room in Hroom.
  1: { eapply wlp_mono; [by apply (openat_wlp R); [|apply Hroom]|]. cbv beta. intros r pw' Hg [? ?]. by apply Hg. }
  13: { destruct (has_flag flags O_EXCL) eqn:Hf; [by apply wlp_true|]. apply wlp_bind.
        eapply wlp_mono; [by apply (pipe2_wlp R)|]. cbv beta. intros a pw' Hg. by apply wlp_ret. }
  all: apply (wlp_mono _ (fun _ pw' => good R pw pw')); [|by auto].
  - by apply dup_call_wlp; [|apply Hroom].
  - by apply dup2_call_wlp; [| |apply Hroom].
  - eapply wlp_mono; [by apply (close_wlp R)|]. cbv beta. by intros r pw' [Hg _].
  - apply wlp_bind. eapply wlp_mono; [by apply (read_call_wlp R)|]. cbv beta. intros a pw' Hg. by apply wlp_ret.
  - by apply write_call_wlp.
  - by apply lseek_call_wlp.
  - apply view_good; [done|]. apply truncate_call_view.
  - by apply ftruncate_call_wlp.
  - apply view_good; [done|]. apply fsync_call_view.
  - by apply fcntl_call_wlp.
  - apply view_good; [done|]. apply chdir_call_view.
  - by apply fchdir_call_wlp.
Qed.
End Processes.
