(* ===== verification/CText.v ===== *)
(** * Text of the C library

    What the code uses of [printf], [sscanf], [strstr] and the environment of a
    process.  A string is the list of its characters without the zero at the end. *)

From S2P Require Import Prelude.

Abbreviation text := (list Z).

Definition str (s : string) : text := (fun c => Z.of_N (Ascii.N_of_ascii c)) <$> String.list_ascii_of_string s.

(** ** [printf] *)

Definition digit_char (d : Z) : Z := if d <? 10 then 48 + d else 87 + d.

(** A number of 64 bits has at most 64 digits. *)
Fixpoint digits_of (fuel : nat) (base n : Z) : text :=
  match fuel with
  | O => []
  | S fuel' => (if n / base =? 0 then [] else digits_of fuel' base (n / base)) ++ [digit_char (n mod base)]
  end.
Definition print_num (base n : Z) : text := digits_of 64 base n.

(** [%d], [%u], [%x] and [%llx] *)
Definition print_d (n : Z) : text := if n <? 0 then 45 :: print_num 10 (- n) else print_num 10 n.
Definition print_u (n : Z) : text := print_num 10 n.
Definition print_x (n : Z) : text := print_num 16 n.

(** ** [sscanf] *)

Definition digit_val (base c : Z) : option Z :=
  if (48 <=? c) && (c <=? 57) then Some (c - 48)
  else if (base =? 16) && (97 <=? c) && (c <=? 102) then Some (c - 87)
  else if (base =? 16) && (65 <=? c) && (c <=? 70) then Some (c - 55)
  else None.

Fixpoint scan_digits (base : Z) (l : text) (acc : Z) : Z * text :=
  match l with
  | c :: l' => match digit_val base c with Some d => scan_digits base l' (acc * base + d) | None => (acc, l) end
  | [] => (acc, [])
  end.

Definition is_space (c : Z) : bool := (c =? 32) || ((9 <=? c) && (c <=? 13)).
Fixpoint skip_spaces (l : text) : text :=
  match l with c :: l' => if is_space c then skip_spaces l' else l | [] => [] end.

Definition scan_sign (l : text) : bool * text :=
  match l with
  | c :: l' => if c =? 45 then (true, l') else if c =? 43 then (false, l') else (false, l)
  | [] => (false, [])
  end.
Definition skip_0x (base : Z) (l : text) : text :=
  match l with
  | z :: x :: l' => if (base =? 16) && (z =? 48) && ((x =? 120) || (x =? 88)) then l' else l
  | _ => l
  end.

(** A number and what follows it, where there is a number. *)
Definition scan_number (base : Z) (l : text) : option (Z * text) :=
  let '(neg, l) := scan_sign (skip_spaces l) in
  match skip_0x base l with
  | [] => None
  | c :: l' =>
      match digit_val base c with
      | None => None
      | Some _ => let '(v, rest) := scan_digits base (c :: l') 0 in Some ((if neg then - v else v), rest)
      end
  end.

Inductive directive : Type := Lit (c : Z) | Dd | Du | Dx | Dllx.

Definition base_of (d : directive) : Z := match d with Dx | Dllx => 16 | _ => 10 end.

(** What is stored for a number; where its type cannot represent it the call is
    undefined. *)
Definition store (d : directive) (v : Z) : option Z :=
  match d with
  | Dd => if (- 2 ^ 31 <=? v) && (v <? 2 ^ 31) then Some v else None
  | Du | Dx => if Z.abs v <? 2 ^ 32 then Some (u32 v) else None
  | Dllx => if Z.abs v <? 2 ^ 64 then Some (u64 v) else None
  | Lit _ => None
  end.

(** The values that are assigned, in order: [sscanf] stops where the text does not
    match. *)
Fixpoint sscanf (fmt : list directive) (l : text) : option (list Z) :=
  match fmt with
  | [] => Some []
  | Lit c :: fmt' => match l with x :: l' => if x =? c then sscanf fmt' l' else Some [] | [] => Some [] end
  | d :: fmt' =>
      match scan_number (base_of d) l with
      | None => Some []
      | Some (v, l') =>
          match store d v with
          | None => None
          | Some w => cons w <$> sscanf fmt' l'
          end
      end
  end.

(** ** Strings and the environment *)

(** What follows the prefix [p] of [l]. *)
Fixpoint strip (p l : text) : option text :=
  match p, l with
  | [], _ => Some l
  | a :: p', b :: l' => if a =? b then strip p' l' else None
  | _ :: _, [] => None
  end.

(** [strstr(haystack, needle) != NULL] *)
Fixpoint strstr (haystack needle : text) : bool :=
  match strip needle haystack with
  | Some _ => true
  | None => match haystack with [] => false | _ :: h => strstr h needle end
  end.

Definition named (name e : text) : option text := strip (name ++ [61]) e.

Fixpoint getenv (name : text) (env : list text) : option text :=
  match env with
  | [] => None
  | e :: env' => match named name e with Some v => Some v | None => getenv name env' end
  end.
Definition unsetenv (name : text) (env : list text) : list text := filter (fun e => named name e = None) env.
(** [setenv(name, value, true)] *)
Definition setenv (name value : text) (env : list text) : list text := unsetenv name env ++ [name ++ [61] ++ value].

(** ** Printing and reading numbers *)

Definition base_ok (base : Z) : Prop := base = 10 \/ base = 16.

(** The text does not go on with a digit. *)
Definition stops (base : Z) (l : text) : Prop :=
  match l with [] => True | c :: _ => digit_val base c = None /\ c <> 120 /\ c <> 88 end.

Lemma digit_val_char base d : base_ok base -> 0 <= d < base -> digit_val base (digit_char d) = Some d.
Proof.
  intros Hb Hd. unfold digit_val, digit_char. assert (base = 10 \/ base = 16) as [-> | ->] by exact Hb.
  - assert ((d <? 10) = true) as -> by lia. rewrite (proj2 (andb_true_iff _ _)) by lia. f_equal. lia.
  - destruct (d <? 10) eqn:E; [rewrite (proj2 (andb_true_iff _ _)) by lia; f_equal; lia|].
    rewrite (proj2 (andb_false_iff _ _)) by lia. assert ((16 =? 16) && (97 <=? 87 + d) && (87 + d <=? 102) = true) as -> by lia.
    f_equal. lia.
Qed.

Lemma scan_stop base l acc : stops base l -> scan_digits base l acc = (acc, l).
Proof. destruct l as [|c l]; [done|]. cbn. by intros [-> _]. Qed.

Lemma scan_digits_of base fuel n acc rest :
  base_ok base -> 0 <= n < base ^ Z.of_nat fuel -> stops base rest ->
  exists k, scan_digits base (digits_of fuel base n ++ rest) acc = (acc * base ^ k + n, rest) /\ 0 <= k.
Proof.
  intros Hb Hn Hr. revert n acc rest Hn Hr.
  assert (Hb2 : 2 <= base) by (destruct Hb; lia).
  assert (Hgen : forall fuel n acc rest, 0 <= n < base ^ Z.of_nat fuel ->
    exists k, scan_digits base (digits_of fuel base n ++ rest) acc = scan_digits base rest (acc * base ^ k + n) /\ 0 <= k).
  { clear fuel. induction fuel as [|fuel IH]; intros n acc rest Hn.
    - exists 0. cbn in *. rewrite Z.mul_1_r. split; [f_equal; lia|lia].
    - cbn [digits_of]. rewrite <- app_assoc. pose proof (Z.mod_pos_bound n base ltac:(lia)) as Hm.
      pose proof (Z.div_mod n base ltac:(lia)) as Hdm. destruct (Z.eqb_spec (n / base) 0) as [Hz|Hz].
      + exists 1. cbn [app scan_digits]. rewrite digit_val_char by done. split; [f_equal; lia|lia].
      + destruct (IH (n / base) acc ([digit_char (n mod base)] ++ rest)) as (k & Hk & Hk0).
        { split; [apply Z.div_pos; lia|]. apply Z.div_lt_upper_bound; [lia|]. rewrite Nat2Z.inj_succ, Z.pow_succ_r in Hn by lia. lia. }
        exists (k + 1). rewrite Hk. cbn [app scan_digits]. rewrite digit_val_char by done. split; [|lia]. f_equal.
        rewrite Z.pow_add_r, Z.pow_1_r by lia. lia. }
  intros n acc rest Hn Hr. destruct (Hgen fuel n acc rest Hn) as (k & Hk & Hk0). exists k. by rewrite Hk, scan_stop.
Qed.

(** The first digit: zero only for the number zero. *)
Lemma digits_of_head base fuel n :
  base_ok base -> 0 <= n < base ^ Z.of_nat (S fuel) ->
  exists d l, digits_of (S fuel) base n = digit_char d :: l /\ 0 <= d < base /\ (d = 0 -> l = []).
Proof.
  intros Hb. assert (Hb2 : 2 <= base) by (destruct Hb; lia). revert n.
  induction fuel as [|fuel IH]; intros n Hn; cbn [digits_of]; pose proof (Z.mod_pos_bound n base ltac:(lia)) as Hm;
    destruct (Z.eqb_spec (n / base) 0) as [Hz|Hz].
  - by eexists _, _.
  - exfalso. apply Hz, Z.div_small. cbn in Hn. lia.
  - by eexists _, _.
  - destruct (IH (n / base)) as (d & l & Hl & Hd & H0).
    { split; [apply Z.div_pos; lia|]. apply Z.div_lt_upper_bound; [lia|].
      rewrite (Nat2Z.inj_succ (S fuel)), Z.pow_succ_r in Hn by lia. lia. }
    cbn [digits_of] in Hl. rewrite Hl. eexists d, _. split; [done|]. split; [done|]. intros ->. rewrite (H0 eq_refl) in Hl.
    exfalso. clear IH. apply (f_equal (fun x => scan_digits base x 0)) in Hl. change (digit_char 0) with 48 in Hl. revert Hl.
    destruct (scan_digits_of base (S fuel) (n / base) 0 [] Hb) as (k & Hk & _); [|done|].
    { split; [apply Z.div_pos; lia|]. apply Z.div_lt_upper_bound; [lia|].
      rewrite (Nat2Z.inj_succ (S fuel)), Z.pow_succ_r in Hn by lia. lia. }
    cbn [digits_of] in Hk. rewrite app_nil_r in Hk. rewrite Hk. cbn. intros [= ?]. lia.
Qed.

Lemma digit_char_range base d : base_ok base -> 0 <= d < base -> 48 <= digit_char d <= 102 /\ digit_char d <> 58 /\
  (digit_char d = 48 -> d = 0).
Proof. intros [-> | ->] Hd; unfold digit_char; destruct (Z.ltb_spec d 10); lia. Qed.

Lemma print_num_head base n :
  base_ok base -> 0 <= n < 2 ^ 64 -> exists d l, print_num base n = digit_char d :: l /\ 0 <= d < base /\ (d = 0 -> l = []).
Proof.
  intros Hb Hn. apply digits_of_head; [done|]. split; [lia|]. eapply Z.lt_le_trans; [apply Hn|].
  apply Z.pow_le_mono_l. destruct Hb; lia.
Qed.

Lemma scan_number_num base n rest :
  base_ok base -> 0 <= n < 2 ^ 64 -> stops base rest -> scan_number base (print_num base n ++ rest) = Some (n, rest).
Proof.
  intros Hb Hn Hr. destruct (print_num_head base n Hb Hn) as (d & l & Hl & Hd & H0).
  destruct (digit_char_range base d Hb Hd) as (Hc & Hc' & Hz).
  destruct (scan_digits_of base 64 n 0 rest Hb) as (k & Hk & _); [|done|].
  { split; [lia|]. eapply Z.lt_le_trans; [apply Hn|]. apply Z.pow_le_mono_l. destruct Hb; lia. }
  fold (print_num base n) in Hk. rewrite Hl in Hk |- *. cbn [app] in Hk |- *. unfold scan_number.
  cbn [skip_spaces]. assert (is_space (digit_char d) = false) as -> by (unfold is_space; lia). cbn [scan_sign].
  rewrite (proj2 (Z.eqb_neq (digit_char d) 45)), (proj2 (Z.eqb_neq (digit_char d) 43)) by lia.
  assert (skip_0x base (digit_char d :: l ++ rest) = digit_char d :: l ++ rest) as ->.
  { unfold skip_0x. destruct (l ++ rest) as [|x l'] eqn:E; [done|]. destruct (Z.eqb_spec (digit_char d) 48) as [He|]; [|by rewrite andb_false_r].
    rewrite (H0 (Hz He)) in E. cbn in E. subst rest. destruct Hr as (_ & H1 & H2).
    assert ((x =? 120) || (x =? 88) = false) as -> by lia. by rewrite andb_false_r. }
  rewrite digit_val_char by done. by rewrite Hk.
Qed.

Lemma scan_number_d n rest : - 2 ^ 31 <= n < 2 ^ 31 -> stops 10 rest -> scan_number 10 (print_d n ++ rest) = Some (n, rest).
Proof.
  intros Hn Hr. unfold print_d. destruct (Z.ltb_spec n 0) as [Hneg|]; [|apply scan_number_num; [by left|lia|done]].
  pose proof (scan_number_num 10 (- n) rest (or_introl eq_refl) ltac:(lia) Hr) as Hs. revert Hs.
  destruct (print_num_head 10 (- n)) as (d & l & Hl & Hd & _); [by left|lia|].
  destruct (digit_char_range 10 d) as (Hc & _ & _); [by left|done|].
  rewrite Hl. unfold scan_number. cbn [app skip_spaces]. assert (is_space (digit_char d) = false) as -> by (unfold is_space; lia).
  change (is_space 45) with false. cbn [scan_sign]. rewrite (proj2 (Z.eqb_neq (digit_char d) 45)), (proj2 (Z.eqb_neq (digit_char d) 43)) by lia.
  change (45 =? 45) with true. cbv iota beta zeta.
  destruct (skip_0x 10 _) as [|c l']; [done|]. destruct (digit_val 10 c); [|done]. destruct (scan_digits 10 (c :: l') 0).
  intros [= -> ->]. f_equal. f_equal. lia.
Qed.

(** One directive at a time. *)
Lemma sscanf_lit c fmt l : sscanf (Lit c :: fmt) (c :: l) = sscanf fmt l.
Proof. cbn. by rewrite Z.eqb_refl. Qed.
Lemma sscanf_d n fmt rest :
  - 2 ^ 31 <= n < 2 ^ 31 -> stops 10 rest -> sscanf (Dd :: fmt) (print_d n ++ rest) = cons n <$> sscanf fmt rest.
Proof.
  intros Hn Hr. cbn [sscanf base_of]. rewrite scan_number_d by done. unfold store. by rewrite (proj2 (andb_true_iff _ _)) by lia.
Qed.
Lemma sscanf_u n fmt rest :
  0 <= n < 2 ^ 32 -> stops 10 rest -> sscanf (Du :: fmt) (print_u n ++ rest) = cons n <$> sscanf fmt rest.
Proof.
  intros Hn Hr. cbn [sscanf base_of]. unfold print_u. rewrite scan_number_num by (done || lia || by left). unfold store.
  rewrite (proj2 (Z.ltb_lt _ _)) by lia. by rewrite u32_small.
Qed.
Lemma sscanf_x n fmt rest :
  0 <= n < 2 ^ 32 -> stops 16 rest -> sscanf (Dx :: fmt) (print_x n ++ rest) = cons n <$> sscanf fmt rest.
Proof.
  intros Hn Hr. cbn [sscanf base_of]. unfold print_x. rewrite scan_number_num by (done || lia || by right). unfold store.
  rewrite (proj2 (Z.ltb_lt _ _)) by lia. by rewrite u32_small.
Qed.
Lemma sscanf_llx n fmt rest :
  0 <= n < 2 ^ 64 -> stops 16 rest -> sscanf (Dllx :: fmt) (print_x n ++ rest) = cons n <$> sscanf fmt rest.
Proof.
  intros Hn Hr. cbn [sscanf base_of]. unfold print_x. rewrite scan_number_num by (done || lia || by right). unfold store.
  rewrite (proj2 (Z.ltb_lt _ _)) by lia. by rewrite u64_small.
Qed.

(** ** Prefixes and searches *)

Lemma strip_Some p l r : strip p l = Some r <-> l = p ++ r.
Proof.
  revert l. induction p as [|a p IH]; intros l; [cbn; naive_solver|]. destruct l as [|b l]; [done|]. cbn.
  destruct (Z.eqb_spec a b) as [->|Hne]; [rewrite IH; naive_solver|naive_solver].
Qed.
Lemma strip_app p r : strip p (p ++ r) = Some r.
Proof. by apply strip_Some. Qed.

Lemma strstr_spec h n : strstr h n = true <-> exists a b, h = a ++ n ++ b.
Proof.
  induction h as [|c h IH]; cbn [strstr].
  - destruct (strip n []) as [r|] eqn:E.
    + apply strip_Some in E. split; [|done]. intros _. by exists [], r.
    + split; [done|]. intros (a & b & Heq). destruct a; [|done]. cbn in Heq. rewrite Heq, strip_app in E. done.
  - destruct (strip n (c :: h)) as [r|] eqn:E.
    + apply strip_Some in E. split; [|done]. intros _. by exists [], r.
    + rewrite IH. split.
      * intros (a & b & ->). by exists (c :: a), b.
      * intros ([|c' a] & b & Heq); [cbn in Heq; by rewrite Heq, strip_app in E|]. injection Heq as -> ->. by exists a, b.
Qed.

(** ** Looking up names *)

Definition entry (name value : text) : text := name ++ [61] ++ value.

Lemma named_entry name v : named name (entry name v) = Some v.
Proof. unfold named, entry. rewrite app_assoc. apply strip_app. Qed.

(** A name has no equality sign. *)
Lemma named_other name name' v : 61 ∉ name -> 61 ∉ name' -> name <> name' -> named name (entry name' v) = None.
Proof.
  intros H1 H2 Hne. destruct (named name (entry name' v)) as [r|] eqn:E; [|done]. exfalso. apply Hne.
  apply strip_Some in E. unfold entry in E. rewrite <- app_assoc in E. cbn in E. clear Hne. revert name' H2 E.
  induction name as [|c name IH]; intros [|c' name'] H2 E; [done|..]; cbn in E; injection E as Hc E.
  - destruct H2. rewrite Hc. left.
  - destruct H1. rewrite Hc. left.
  - rewrite Hc. f_equal. apply IH; [|by intros ?; apply H2; right|done]. intros ?; apply H1; by right.
Qed.

Lemma getenv_app name l1 l2 : getenv name (l1 ++ l2) = match getenv name l1 with Some v => Some v | None => getenv name l2 end.
Proof. induction l1 as [|e l1 IH]; [done|]. cbn. by destruct (named name e). Qed.
Lemma getenv_None name env : getenv name env = None <-> Forall (fun e => named name e = None) env.
Proof.
  induction env as [|e env IH]; [split; [constructor|done]|]. rewrite Forall_cons, <- IH. cbn. destruct (named name e); naive_solver.
Qed.

(** ** Colons *)

Definition colon : Z := 58.

(** Two colons in a row. *)
Fixpoint double (l : text) : bool :=
  match l with
  | a :: (b :: _) as l' => ((a =? colon) && (b =? colon)) || double l'
  | _ => false
  end.

Lemma double_app a b : double b = true -> double (a ++ b) = true.
Proof. intros Hb. induction a as [|x a IH]; [done|]. cbn [app double]. destruct (a ++ b); [done|]. by rewrite IH, orb_true_r. Qed.
Lemma strstr_colons l : strstr l (str "::::") = true -> double l = true.
Proof. intros (a & b & ->)%strstr_spec. by apply double_app. Qed.

(** Texts of numbers have no colon. *)
Definition colonless (l : text) : Prop := l <> [] /\ colon ∉ l.
Lemma digits_colonless fuel base n : base_ok base -> 0 <= n -> colon ∉ digits_of fuel base n.
Proof.
  intros Hb. revert n. induction fuel as [|fuel IH]; intros n Hn; cbn [digits_of]; [apply not_elem_of_nil|].
  assert (0 < base) by (destruct Hb; lia). destruct (digit_char_range base (n mod base) Hb) as (_ & Hc & _); [by apply Z.mod_pos_bound|].
  rewrite not_elem_of_app, list_elem_of_singleton. split; [|by unfold colon].
  destruct (_ =? _); [apply not_elem_of_nil|]. apply IH. by apply Z.div_pos.
Qed.
Lemma print_num_colonless base n : base_ok base -> 0 <= n < 2 ^ 64 -> colonless (print_num base n).
Proof.
  intros Hb Hn. split; [|apply digits_colonless; [done|lia]].
  destruct (print_num_head base n Hb Hn) as (d & l & -> & _). done.
Qed.
Lemma print_d_colonless n : - 2 ^ 31 <= n < 2 ^ 31 -> colonless (print_d n).
Proof.
  intros Hn. unfold print_d. destruct (Z.ltb_spec n 0); [|apply print_num_colonless; [by left|lia]].
  destruct (print_num_colonless 10 (- n)) as [_ Hc]; [by left|lia|]. split; [done|]. apply not_elem_of_cons. by split.
Qed.

Lemma double_cons x l : x <> colon -> double (x :: l) = double l.
Proof. intros Hx. cbn [double]. destruct l as [|y l]; [done|]. by rewrite (proj2 (Z.eqb_neq x colon)). Qed.
Lemma double_skip l r : colon ∉ l -> double (l ++ r) = double r.
Proof.
  induction l as [|x l IH]; intros Hl; [done|]. apply not_elem_of_cons in Hl as [Hx Hl]. cbn [app].
  rewrite double_cons by done. by apply IH.
Qed.
Lemma double_colon l r : colonless l -> double (colon :: l ++ r) = double r.
Proof.
  intros [Hn Hl]. rewrite <- (double_skip l r) by done. destruct l as [|x l]; [done|]. apply not_elem_of_cons in Hl as [Hx Hl].
  cbn [app double]. rewrite (proj2 (Z.eqb_neq x colon)) by done. by rewrite andb_false_r.
Qed.
