(* ===== verification/ExecEnv.v ===== *)
(** * Descriptors across [exec]

    [libs/basicp/exec.c] and the part of [libs/basicp/start.c] that undoes it: a
    process that replaces its program lists its descriptors, its directory and the
    addresses of the servers in the environment, and the new program reads them. *)

From S2P Require Import Prelude FsTypes FsNode FsClient FsClientFile FsClientListing FsClientPipe FdTable Posix CText.

(** ** The list: [__execve] *)

Section Exec.
Context `{Config} `{Env}.
Variable early : nat -> nat -> bool.
Variable mem : nat -> bool.
Variable kernel : nat -> syscall -> Z.

(** The entries that are counted: those which are not found in "hare_". *)
Definition count_env (envp : list text) : Z :=
  Z.of_nat (length (filter (fun e => strstr (str "hare_") e = false) envp)).

Fixpoint count_fds (n : nat) (i : Z) : M PW Z :=
  match n with
  | O => mret 0
  | S n' =>
      b ← on_map (fdIsInternal i);
      b' ← (if (b : bool) then mret true else on_map (fdIsExternal i));
      c ← count_fds n' (i + 1);
      mret (if (b' : bool) then c + 1 else c)
  end.

Definition count_addrs (addrs : list Z) : Z := Z.of_nat (length (filter (fun a => a <> 0) addrs)).

(** Files that are not to be passed on are closed; the loop begins with 2. *)
Definition close_on_exec (fd : Z) : M PW unit :=
  b ← is_internal fd;
  if (b : bool)
  then
    flags ← __fcntl early mem kernel fd F_GETFD 0;
    if has_flag flags FD_CLOEXEC then __close_int early fd;; mret tt else mret tt
  else mret tt.

(** ["hare_fd_%d"] and what follows it for a file and for a number of the kernel. *)
Definition fd_name (i : Z) : text := str "hare_fd_" ++ print_d i.
Definition file_text (n fd : Z) (inode : InodeType) : text :=
  print_d n ++ str ":" ++ print_x fd ++ str ":" ++ print_x (it_id inode) ++ str "@" ++ print_d (it_server inode) ++
  str ":" ++ print_x (FileType_val (it_type inode)).
Definition external_text (e : Z) : text := print_d e ++ str "::::".

Definition exec_fd (i : Z) : M PW (option text) :=
  b ← on_map (fdIsInternal i);
  if (b : bool)
  then
    n ← on_map (fdInt i);
    o ← on_table (fdGet n);
    a ← deref o;
    e ← on_table (get_entry a);
    x ← get_obj (private_data e);
    mret (Some (entry (fd_name i) (file_text n (fosFileFd x) (fosFileIno x))))
  else
    b' ← on_map (fdIsExternal i);
    if (b' : bool)
    then x ← on_map (fdExt i); mret (Some (entry (fd_name i) (external_text x)))
    else mret None.

(** The entries, and the list of the numbers. *)
Fixpoint exec_fds (n : nat) (i : Z) : M PW (list text * text) :=
  match n with
  | O => mret ([], [])
  | S n' =>
      e ← exec_fd i;
      r ← exec_fds n' (i + 1);
      mret (match e with Some t => (t :: fst r, print_x i ++ str ":" ++ snd r) | None => r end)
  end.

Definition cwd_text (inode : InodeType) (cwd_in : bool) : text :=
  print_x (it_id inode) ++ str "@" ++ print_d (it_server inode) ++ str ":" ++ print_u (Z.b2z cwd_in) ++ str ":" ++
  print_d (FileType_val (it_type inode)).

Definition addr_name (i : Z) : text := str "hare_fs_addr_" ++ print_d i.
Fixpoint addr_entries (addrs : list Z) (i : Z) : list text :=
  match addrs with
  | [] => []
  | a :: addrs' => (if a =? 0 then [] else [entry (addr_name i) (print_x a)]) ++ addr_entries addrs' (i + 1)
  end.

(** The new environment.  [fd_list] has 4096 characters and [new_envp] has [envc + 1]
    elements; to write more is undefined. *)
Definition exec_env (envc : Z) (addrs : list Z) (envp : list text) : M PW (list text) :=
  r ← exec_fds (Z.to_nat CONFIG_FD_COUNT) 0;
  let '(fds, fd_list) := r in
  p ← gets (fun pw : PW => pw.1);
  let new_envp :=
    fds ++ (if bool_decide (fd_list = []) then [] else [entry (str "hare_fd_list") fd_list]) ++
    [entry (str "hare_cwd") (cwd_text (g_cwd_inode p) (g_cwd_in p))] ++ addr_entries addrs 0 ++ envp in
  if (Z.of_nat (length fd_list) <? 4096) && (Z.of_nat (length new_envp) <=? envc) then mret new_envp else undef.

(** The counting and the closing; the result is [envc]. *)
Definition exec_prepare (addrs : list Z) (envp : list text) : M PW Z :=
  nfds ← count_fds (Z.to_nat CONFIG_FD_COUNT) 0;
  let envc := count_env envp + nfds + count_addrs addrs + 3 in
  for_fds (Z.to_nat (CONFIG_FD_COUNT - 2)) 2 close_on_exec;;
  fsFlattenFds early mem;;
  mret envc.

(** [__execve] up to the call of [fosExec]. *)
Definition __execve (addrs : list Z) (envp : list text) : M PW (list text) :=
  envc ← exec_prepare addrs envp;
  exec_env envc addrs envp.

(** ** The new program: [faux_init] *)

(** The process, its environment, [g_fs_addr], and the three bytes that follow
    [g_cwd_in] in memory. *)
Record Image : Type := mkImage {
  im_pw : PW;
  im_env : list text;
  im_addrs : list Z;
  im_beyond : list Z
}.
Definition set_pw (pw : PW) (im : Image) : Image := mkImage pw (im_env im) (im_addrs im) (im_beyond im).
Definition set_env (env : list text) (im : Image) : Image := mkImage (im_pw im) env (im_addrs im) (im_beyond im).
Definition set_addrs (l : list Z) (im : Image) : Image := mkImage (im_pw im) (im_env im) l (im_beyond im).
Definition set_beyond (l : list Z) (im : Image) : Image := mkImage (im_pw im) (im_env im) (im_addrs im) l.

Definition on_pw {A} (m : M PW A) : M Image A := zoom im_pw set_pw m.
Definition unset (name : text) : M Image unit := modify (fun im => set_env (unsetenv name (im_env im)) im).
Definition scan (fmt : list directive) (l : text) : M Image (list Z) := deref (sscanf fmt l).

Definition FileType_of (v : Z) : option FileType :=
  if v =? S_IFREG then Some TYPE_FILE
  else if v =? S_IFDIR then Some TYPE_DIR
  else if v =? S_IFLNK then Some TYPE_SYMLINK
  else if v =? S_IFIFO then Some TYPE_PIPE
  else if v =? S_IFBLK then Some TYPE_DIR_SHARED
  else None.

Definition lits (s : string) : list directive := Lit <$> str s.

(** An object for descriptor [fd] of the servers, under the number [i]. *)
Definition read_file (i fd : Z) (inode : InodeType) : M PW unit :=
  a ← new_obj (obj_for inode fd);
  assert_ (negb (a =? 0));;
  r ← on_table (fdCreate mem fosFileOps a 0);
  match r with
  | (new_internal_fd, Some ent) =>
      assert_ (0 <=? new_internal_fd);;
      e ← on_table (get_entry ent);
      assert_ (negb (private_data e =? 0));;
      on_map (fdSetInternal i new_internal_fd)
  | (_, None) => abort
  end.

(** One number of the list; values that [sscanf] has not assigned are undefined. *)
Definition read_fd (i : Z) : M Image unit :=
  o ← gets (fun im => getenv (fd_name (i32 i)) (im_env im));
  match o with
  | None => abort
  | Some fd_value =>
      (if strstr fd_value (str "::::")
       then
         vs ← scan (Dd :: lits "::::") fd_value;
         match vs with
         | external_fd :: _ => on_pw (on_map (fdSetExternal i external_fd))
         | [] => undef
         end
       else
         vs ← scan (Dd :: lits ":" ++ [Dllx] ++ lits ":" ++ [Dllx] ++ lits "@" ++ [Dd] ++ lits ":" ++ [Dx]) fd_value;
         match vs with
         | [_; fd; id; server; type] =>
             t ← deref (FileType_of type);
             on_pw (read_file i fd (mkInodeType server id t))
         | _ => undef
         end);;
      unset (fd_name (i32 i))
  end.

Definition fd_width (i : Z) : nat :=
  Z.to_nat (2 + (if 15 <? i then 1 else 0) + (if 255 <? i then 1 else 0) + (if 4095 <? i then 1 else 0)).

(** Every number has two characters at least. *)
Fixpoint read_fds (fuel : nat) (fd_list : text) : M Image unit :=
  match fd_list with
  | [] => mret tt
  | _ =>
      vs ← scan (Dx :: lits ":") fd_list;
      match vs with
      | [] => mret tt
      | i :: _ =>
          if (length fd_list <? fd_width i)%nat then undef
          else
            match fuel with
            | O => timeout
            | S fuel' => read_fd i;; read_fds fuel' (drop (fd_width i) fd_list)
            end
      end
  end.

Definition read_addr (i : Z) : M Image unit :=
  o ← gets (fun im => getenv (addr_name i) (im_env im));
  match o with
  | None => mret tt
  | Some addr_value =>
      vs ← scan [Dllx] addr_value;
      (match vs with
       | v :: _ => modify (fun im => set_addrs (<[Z.to_nat i := v]> (im_addrs im)) im)
       | [] => mret tt
       end);;
      unset (addr_name i)
  end.
Fixpoint read_addrs (n : nat) (i : Z) : M Image unit :=
  match n with O => mret tt | S n' => read_addr i;; read_addrs n' (i + 1) end.

(** The number for [g_cwd_in] is stored as four bytes, the first of which is the
    variable; variables for which there is no value keep theirs. *)
Definition read_cwd : M Image unit :=
  o ← gets (fun im => getenv (str "hare_cwd") (im_env im));
  g_env_val ← deref o;
  vs ← scan (Dllx :: lits "@" ++ [Dd] ++ lits ":" ++ [Du] ++ lits ":" ++ [Dd]) g_env_val;
  im ← gets id;
  let cwd := g_cwd_inode (fst (im_pw im)) in
  t ← deref (match vs !! 3%nat with Some v => FileType_of v | None => Some (it_type cwd) end);
  b ← deref (match vs !! 2%nat with
             | Some v => if u8 v =? 0 then Some false else if u8 v =? 1 then Some true else None
             | None => Some (g_cwd_in (fst (im_pw im)))
             end);
  on_pw (on_proc (set_cwd (mkInodeType (default (it_server cwd) (vs !! 1%nat)) (default (it_id cwd) (vs !! 0%nat)) t) b));;
  match vs !! 2%nat with
  | Some v => modify (set_beyond [u8 (Z.shiftr v 8); u8 (Z.shiftr v 16); u8 (Z.shiftr v 24)])
  | None => mret tt
  end.

(** A program that was started by another one. *)
Definition inherit_env : M Image unit :=
  o ← gets (fun im => getenv (str "hare_fd_list") (im_env im));
  (match o with Some fd_list => read_fds (length fd_list) fd_list | None => mret tt end);;
  n ← gets (fun im => length (im_addrs im));
  read_addrs n 0;;
  (match o with Some _ => unset (str "hare_fd_list") | None => mret tt end);;
  read_cwd.

(** The address under which a server registers with the name server; the lookup is
    repeated until it has. *)
Variable registered : nat -> Z.

Definition lookup_addrs : M Image unit :=
  modify (fun im => set_addrs (imap (fun i a => if a =? 0 then registered i else a) (im_addrs im)) im).

(** The first program. *)
Definition start_first : M Image unit :=
  on_pw init_first;;
  lookup_addrs;;
  modify (fun im => set_env (setenv (str "faux_initted") (str "true") (im_env im)) im).

(** [faux_init]: the parts about descriptors, addresses and the directory.  The
    scheduler, the choice of a core for the next program and the channel to its server,
    the handlers for signals and for the end of the process are left out. *)
Definition faux_init : M Image unit :=
  on_pw (init_descriptors mem);;
  initted ← gets (fun im => getenv (str "faux_initted") (im_env im));
  match initted with Some _ => inherit_env | None => start_first end.
End Exec.
