(* ===== verification/ExecSpec.v ===== *)
(** * What survives [exec]

    [ExecEnv]: the descriptors that [__execve] lists are those the new program
    finds, each under its number. *)

From S2P Require Import Prelude FsTypes BufferCache FsFile FsNode FsServer FsDirCache FsClient FsClientFile FsClientListing FsClientPipe SpaceAlloc FdTable Posix FdCounts PosixFork CText ExecEnv.

(** ** What a number stands for *)

Inductive target : Type := File (fd : Z) (inode : InodeType) | Kernel (e : Z).

Definition fd_view (p : Process) (i : nat) : option target :=
  v ← pr_map p !! i;
  if is_int v
  then s ← fd_entries (pr_table p) !! Z.to_nat (v - 1);
       match s with
       | Ptr a => e ← heap (pr_table p) !! a; o ← pr_objs p !! private_data e; Some (File (fosFileFd o) (fosFileIno o))
       | _ => None
       end
  else if v <? 0 then Some (Kernel ((v + 1) * -1)) else None.

Lemma fd_view_file p fd v a e o :
  file_at p fd v a e -> pr_objs p !! private_data e = Some o -> fd_view p (Z.to_nat fd) = Some (File (fosFileFd o) (fosFileIno o)).
Proof.
  intros [Hfd Hv Hi Hs Ha] Ho. unfold fd_view. rewrite Hv. simpl. rewrite (proj2 (is_int_spec v)), Hs by done.
  simpl. rewrite Ha. simpl. by rewrite Ho.
Qed.

(** The numbers have the widths of their C types. *)
Definition machine_inode (i : InodeType) : Prop := - 2 ^ 31 <= it_server i < 2 ^ 31 /\ 0 <= it_id i < 2 ^ 64.
Record machine (p : Process) : Prop := {
  ma_obj x o : pr_objs p !! x = Some o -> machine_inode (fosFileIno o) /\ 0 <= fosFileFd o < 2 ^ 64;
  ma_map i v : pr_map p !! i = Some v -> - 2 ^ 31 <= v < 2 ^ 31;
  ma_cwd : machine_inode (g_cwd_inode p)
}.

(** The texts that stand for a target. *)
Inductive shows : target -> text -> Prop :=
| shows_file n fd inode : 0 <= n < 2 ^ 31 -> 0 <= fd < 2 ^ 64 -> machine_inode inode -> shows (File fd inode) (file_text n fd inode)
| shows_kernel e : 0 <= e < 2 ^ 31 -> shows (Kernel e) (external_text e).

(** ** The list *)

(** The numbers from [i] on that stand for something. *)
Definition fds (p : Process) (i : Z) (n : nat) : list (Z * target) :=
  omap (fun j => pair j <$> fd_view p (Z.to_nat j)) (seqZ i (Z.of_nat n)).

Definition list_text (l : list Z) : text := concat ((fun i => print_x i ++ str ":") <$> l).

Lemma list_text_cons i l : list_text (i :: l) = print_x i ++ str ":" ++ list_text l.
Proof. unfold list_text. cbn. by rewrite <- app_assoc. Qed.

(** [e] is the entry of a number. *)
Definition is_entry (d : Z * target) (e : text) : Prop := exists t, shows (snd d) t /\ e = entry (fd_name (fst d)) t.

Lemma fds_S p i n : fds p i (S n) = match fd_view p (Z.to_nat i) with Some t => [(i, t)] | None => [] end ++ fds p (i + 1) n.
Proof.
  unfold fds. rewrite seqZ_cons by lia. replace (Z.succ i) with (i + 1) by lia. replace (Z.pred (Z.of_nat (S n))) with (Z.of_nat n) by lia.
  csimpl. by destruct (fd_view p (Z.to_nat i)).
Qed.
Lemma elem_of_fds p i n j t : (j, t) ∈ fds p i n <-> i <= j < i + Z.of_nat n /\ fd_view p (Z.to_nat j) = Some t.
Proof.
  unfold fds. rewrite list_elem_of_omap. split.
  - intros (k & Hk%elem_of_seqZ & Hv). apply fmap_Some in Hv as (t' & Ht & [= -> ->]). done.
  - intros [Hj Ht]. exists j. rewrite elem_of_seqZ, Ht. done.
Qed.
Lemma fds_NoDup p i n : NoDup (fds p i n).*1.
Proof.
  revert i. induction n as [|n IH]; intros i; [constructor|]. rewrite fds_S. destruct (fd_view p (Z.to_nat i)) as [t|]; [|apply IH].
  cbn. constructor; [|apply IH]. intros ([j u] & -> & Hj%elem_of_fds)%list_elem_of_fmap. simpl in *. lia.
Qed.

Section List.
Context `{Config} `{Env}.

Lemma map_read_wp {A} fd v (k : Z -> M fd_map A) r (Q : A -> PW -> Prop) pw :
  0 <= fd -> pr_map pw.1 !! Z.to_nat fd = Some v -> k v (pr_map pw.1) = Done r (pr_map pw.1) -> Q r pw ->
  wp (on_map (v ← map_at fd; k v)) Q pw.
Proof.
  intros Hfd Hv Hk HQ. apply wp_zoom, wp_bind. unfold map_at. apply wp_bind, wp_gets.
  destruct (Z.ltb_spec fd 0); [lia|]. eapply wp_deref; [exact Hv|]. unfold wp. rewrite Hk. by rewrite set_pmap_id.
Qed.

(** A number and its file, or what the map has for it. *)
Lemma exec_fd_wp i pw (Q : option text -> PW -> Prop) :
  proc_wf pw.1 -> machine pw.1 -> 0 <= i < CONFIG_FD_COUNT ->
  (forall r, match fd_view pw.1 (Z.to_nat i) with
             | Some t => exists e, r = Some e /\ is_entry (i, t) e
             | None => r = None
             end -> Q r pw) -> wp (exec_fd i) Q pw.
Proof.
  intros Hp Hma Hi HQ. destruct (lookup_lt_is_Some_2 (pr_map pw.1) (Z.to_nat i)) as [v Hv]; [rewrite (po_length _ Hp); lia|].
  pose proof (ma_map _ Hma _ _ Hv) as Hr. unfold exec_fd. apply wp_bind. eapply map_read_wp; [lia|done|done|].
  change ((0 <? v) && negb (v =? INT32_MAX)) with (is_int v). destruct (is_int v) eqn:Hint.
  - apply is_int_spec in Hint. destruct (mo_slot _ _ (po_map _ Hp) _ _ Hv Hint) as [Hlow [a Ha]].
    destruct (counted_alive _ _ _ _ (to_counted _ (po_table _ Hp)) Ha) as [e He].
    assert (file_at pw.1 i v a e) as Hf by (split; [lia|done..]).
    assert (private_data e <> 0) as Hd by (rewrite (po_bare _ Hp _ _ _ Ha He); unfold reserved; lia).
    destruct (oo_obj _ _ _ (po_objs _ Hp) a e He Hd) as [k Hk]. unfold pkeys in Hk. rewrite lookup_fmap in Hk.
    apply fmap_Some in Hk as (o & Ho & _). apply wp_bind.
    eapply map_read_wp; [lia|done| |].
    { unfold mbind, M_bind, assert_. destruct Hint. by rewrite (proj2 (Z.ltb_lt _ _)), (proj2 (Z.eqb_neq _ _)) by lia. }
    apply wp_bind, wp_zoom, fdGet_wp; [apply Hp| |].
    2: { intros Hno. by destruct (Hno a); [lia|]. }
    intros b e' _ Hb He'. simplify_eq. rewrite set_ptable_id. apply wp_bind. eapply wp_deref; [done|].
    apply wp_bind, wp_zoom. unfold get_entry. apply wp_bind, wp_gets. eapply wp_deref; [exact He|]. rewrite set_ptable_id.
    apply wp_bind. unfold get_obj. apply wp_bind, wp_gets. eapply wp_deref; [exact Ho|]. apply wp_ret, HQ.
    rewrite (fd_view_file _ _ _ _ _ _ Hf Ho). eexists. split; [done|]. eexists. split; [|done].
    destruct (ma_obj _ Hma _ _ Ho). constructor; [lia|done|done].
  - apply wp_bind. eapply map_read_wp; [lia|done|done|]. unfold fd_view in HQ. rewrite Hv in HQ. simpl in HQ. rewrite Hint in HQ.
    destruct (Z.ltb_spec v 0) as [Hneg|Hneg]; cbn [andb].
    + rewrite (proj2 (Z.eqb_neq v INT32_MAX)) by (unfold INT32_MAX; lia). cbn [negb]. apply wp_bind.
      eapply map_read_wp; [lia|done|by rewrite (proj2 (Z.eqb_neq v INT32_MAX)) by (unfold INT32_MAX; lia)|].
      apply wp_ret, HQ. eexists. split; [done|]. eexists. split; [|done]. constructor. lia.
    + by apply wp_ret, HQ.
Qed.

Lemma exec_fds_wp n i pw (Q : list text * text -> PW -> Prop) :
  proc_wf pw.1 -> machine pw.1 -> 0 <= i -> i + Z.of_nat n <= CONFIG_FD_COUNT ->
  (forall es, Forall2 is_entry (fds pw.1 i n) es -> Q (es, list_text (fds pw.1 i n).*1) pw) -> wp (exec_fds n i) Q pw.
Proof.
  intros Hp Hma. revert i Q. induction n as [|n IH]; intros i Q Hi Hn HQ; cbn [exec_fds].
  - apply wp_ret, (HQ []). constructor.
  - apply wp_bind, exec_fd_wp; [done|done|lia|]. intros r Hr. apply wp_bind, IH; [lia|lia|]. intros es Hes. apply wp_ret.
    rewrite fds_S in HQ. destruct (fd_view pw.1 (Z.to_nat i)) as [t|].
    + destruct Hr as (e & -> & He). cbn [fst snd]. rewrite <- list_text_cons. apply (HQ (e :: es)). by constructor.
    + subst r. by apply HQ.
Qed.
End List.

(** ** Reading the texts *)

Lemma print_d_inj n m : - 2 ^ 31 <= n < 2 ^ 31 -> - 2 ^ 31 <= m < 2 ^ 31 -> print_d n = print_d m -> n = m.
Proof.
  intros Hn Hm Heq. pose proof (scan_number_d n [] Hn Logic.I) as H1. rewrite Heq, (scan_number_d m [] Hm Logic.I) in H1. congruence.
Qed.

(** Numbers begin with a digit or a sign, and have no other characters. *)
Definition number_char (c : Z) : Prop := c = 45 \/ 48 <= c <= 57 \/ 97 <= c <= 102.

Lemma digits_chars fuel base n : base_ok base -> 0 <= n -> Forall number_char (digits_of fuel base n).
Proof.
  intros Hb. revert n. induction fuel as [|fuel IH]; intros n Hn; cbn [digits_of]; [constructor|]. apply Forall_app.
  assert (0 < base) by (destruct Hb; lia). split.
  - destruct (_ =? _); [constructor|]. apply IH. by apply Z.div_pos.
  - apply Forall_singleton. pose proof (Z.mod_pos_bound n base ltac:(done)) as Hm. unfold number_char, digit_char.
    destruct (Z.ltb_spec (n mod base) 10), Hb; lia.
Qed.
Lemma print_d_chars n : Forall number_char (print_d n).
Proof.
  unfold print_d, print_num. destruct (Z.ltb_spec n 0).
  - constructor; [by left|]. apply digits_chars; [by left|lia].
  - apply digits_chars; [by left|done].
Qed.

Lemma number_name p n c : 61 ∉ p -> c = 61 -> c ∉ p ++ print_d n.
Proof.
  intros Hp ->. rewrite not_elem_of_app. split; [done|]. intros Hin. pose proof (proj1 (Forall_forall _ _) (print_d_chars n) _ Hin) as Hc.
  unfold number_char in Hc. lia.
Qed.
Lemma fd_name_plain i : 61 ∉ fd_name i.
Proof. apply number_name; [|done]. intros Hin. vm_compute in Hin. repeat (apply elem_of_cons in Hin as [?|Hin]; [done|]). set_solver. Qed.
Lemma addr_name_plain i : 61 ∉ addr_name i.
Proof. apply number_name; [|done]. intros Hin. vm_compute in Hin. repeat (apply elem_of_cons in Hin as [?|Hin]; [done|]). set_solver. Qed.

Lemma fd_name_inj i j : - 2 ^ 31 <= i < 2 ^ 31 -> - 2 ^ 31 <= j < 2 ^ 31 -> fd_name i = fd_name j -> i = j.
Proof. intros Hi Hj Heq%app_inv_head. by apply print_d_inj. Qed.
Lemma addr_name_inj i j : - 2 ^ 31 <= i < 2 ^ 31 -> - 2 ^ 31 <= j < 2 ^ 31 -> addr_name i = addr_name j -> i = j.
Proof. intros Hi Hj Heq%app_inv_head. by apply print_d_inj. Qed.

Lemma FileType_of_val t : FileType_of (FileType_val t) = Some t.
Proof. by destruct t. Qed.
Lemma FileType_val_small t : 0 <= FileType_val t < 2 ^ 31.
Proof. destruct t; vm_compute; split; congruence. Qed.

Lemma kernel_read e : 0 <= e < 2 ^ 31 -> strstr (external_text e) (str "::::") = true /\
  sscanf (Dd :: lits "::::") (external_text e) = Some [e].
Proof.
  intros He. unfold external_text. split; [apply strstr_spec; exists (print_d e), []; by rewrite app_nil_r|].
  rewrite sscanf_d; [done|lia|done].
Qed.

Lemma file_read n fd inode :
  0 <= n < 2 ^ 31 -> 0 <= fd < 2 ^ 64 -> machine_inode inode ->
  strstr (file_text n fd inode) (str "::::") = false /\
  sscanf (Dd :: lits ":" ++ [Dllx] ++ lits ":" ++ [Dllx] ++ lits "@" ++ [Dd] ++ lits ":" ++ [Dx]) (file_text n fd inode) =
    Some [n; fd; it_id inode; it_server inode; FileType_val (it_type inode)].
Proof.
  intros Hn Hfd [Hs Hid]. pose proof (FileType_val_small (it_type inode)) as Ht. split.
  - destruct (strstr _ _) eqn:E; [|done]. apply strstr_colons in E. revert E. unfold file_text.
    rewrite double_skip by (apply print_d_colonless; lia). change (str ":") with [colon]. cbn [app].
    rewrite double_colon by (apply print_num_colonless; [by right|done]).
    rewrite double_colon by (apply print_num_colonless; [by right|done]).
    change (str "@" ++ print_d (it_server inode) ++ ?r) with ([64] ++ (print_d (it_server inode) ++ r)).
    rewrite (double_skip [64]) by (unfold colon; set_solver). rewrite double_skip by (apply print_d_colonless; lia).
    rewrite <- (app_nil_r (print_x _)), double_colon by (apply print_num_colonless; [by right|lia]). done.
  - unfold file_text. change (lits ":") with [Lit 58]. change (lits "@") with [Lit 64]. change (str ":") with [58]. change (str "@") with [64].
    cbn [app]. rewrite sscanf_d by (done || lia). rewrite sscanf_lit, sscanf_llx by done. rewrite sscanf_lit, sscanf_llx by done.
    rewrite sscanf_lit, sscanf_d by done. rewrite sscanf_lit. rewrite <- (app_nil_r (print_x (FileType_val _))).
    rewrite sscanf_x by (done || lia). done.
Qed.

(** ** The new process *)

(** Nothing is shared, and the slots are used in order. *)
Record reading `{Config} (n : nat) (p : Process) : Prop := {
  rd_wf : proc_wf p;
  rd_filled : filled n (pr_table p);
  rd_single a e : heap (pr_table p) !! a = Some e -> num_fd e = 1;
  rd_made x o : pr_objs p !! x = Some o -> o = obj_for (fosFileIno o) (fosFileFd o)
}.

Definition same_rest (p p' : Process) : Prop :=
  pr_chan p' = pr_chan p /\ closed_fds p' = closed_fds p /\ g_cwd_inode p' = g_cwd_inode p /\ g_cwd_in p' = g_cwd_in p.

Lemma obj_for_ino inode fd : fosFileIno (obj_for inode fd) = inode /\ fosFileFd (obj_for inode fd) = fd.
Proof. unfold obj_for. by destruct (it_type inode). Qed.

Lemma fd_view_None p i : pr_map p !! i = Some INT32_MAX -> fd_view p i = None.
Proof. intros Hi. unfold fd_view. by rewrite Hi. Qed.

Section Child.
Context `{Config}.
Variable mem : nat -> bool.
Hypothesis mem_all : forall k, mem k = true.
Hypothesis fd_count_small : CONFIG_FD_COUNT <= 2 ^ 16.

(** What number [i] stands for after a new object got a slot. *)
Lemma fd_view_opened p p' n a x o e i :
  proc_wf p -> (n < 32)%nat -> heap (pr_table p) !! a = None -> private_data e = x -> x = pr_next p ->
  pr_map p !! i = Some INT32_MAX -> fd_entries (pr_table p) !! n = Some Null ->
  fd_entries (pr_table p') = <[n := Ptr a]> (fd_entries (pr_table p)) ->
  heap (pr_table p') = <[a := e]> (heap (pr_table p)) -> pr_map p' = <[i := Z.of_nat n + 1]> (pr_map p) ->
  pr_objs p' = <[x := o]> (pr_objs p) ->
  forall j, fd_view p' j = if decide (j = i) then Some (File (fosFileFd o) (fosFileIno o)) else fd_view p j.
Proof.
  intros Hp Hn Ha He -> Hi Hnull Hes Hh Hm Ho j. unfold fd_view. rewrite Hm, Hes, Hh, Ho.
  pose proof (lookup_lt_Some _ _ _ Hnull) as Hlt. case_decide as Hj.
  - subst j. rewrite list_lookup_insert_eq by by eapply lookup_lt_Some. simpl.
    assert (is_int (Z.of_nat n + 1) = true) as -> by (apply is_int_spec; unfold internal, INT32_MAX; lia).
    rewrite Z.add_simpl_r, Nat2Z.id, list_lookup_insert_eq by done. simpl. rewrite lookup_insert_eq. simpl.
    by rewrite He, lookup_insert_eq.
  - rewrite list_lookup_insert_ne by done. destruct (pr_map p !! j) as [v|] eqn:Hv; [|done]. simpl.
    destruct (is_int v) eqn:Hint; [|done]. apply is_int_spec in Hint.
    destruct (mo_slot _ _ (po_map _ Hp) _ _ Hv Hint) as [Hlow [b Hb]].
    rewrite list_lookup_insert_ne by congruence. rewrite Hb. simpl.
    destruct (counted_alive _ _ _ _ (to_counted _ (po_table _ Hp)) Hb) as [e' He']. rewrite lookup_insert_ne by congruence.
    rewrite He'. simpl. rewrite lookup_insert_ne; [done|]. intros Heq.
    assert (private_data e' <> 0) as Hd by (rewrite (po_bare _ Hp _ _ _ Hb He'); unfold reserved; lia).
    destruct (oo_obj _ _ _ (po_objs _ Hp) b e' He' Hd) as [k Hk]. rewrite (oo_next _ _ _ (po_objs _ Hp)) in Hk by lia. done.
Qed.

Lemma read_file_wp n i fd inode pw (Q : unit -> PW -> Prop) :
  reading n pw.1 -> (n < 32)%nat -> 0 <= i -> pr_map pw.1 !! Z.to_nat i = Some INT32_MAX ->
  (forall p', reading (S n) p' -> same_rest pw.1 p' -> pr_map p' = <[Z.to_nat i := Z.of_nat n + 1]> (pr_map pw.1) ->
    (forall j, fd_view p' j = if decide (j = Z.to_nat i) then Some (File fd inode) else fd_view pw.1 j) -> Q tt (p', pw.2)) ->
  wp (read_file mem i fd inode) Q pw.
Proof.
  intros [Hp Hf H1 Hmd] Hn Hi Hm HQ. unfold read_file, new_obj. apply wp_bind, wp_bind, wp_gets, wp_bind, wp_modify, wp_ret.
  set (x := pr_next pw.1). set (o := obj_for inode fd). pose proof (oo_positive _ _ _ (po_objs _ Hp)) as Hpos. fold x in Hpos.
  apply wp_bind, wp_assert; [lia|]. apply wp_bind, wp_zoom. cbn [pr_table set_pnext set_objs fst snd].
  eapply wp_mono; [by apply (filled_create mem n)|]. cbv beta. intros r t' (Hf' & a & -> & Ha & Hes & Hh).
  apply wp_bind, wp_assert; [lia|]. apply wp_bind, wp_zoom. unfold get_entry. apply wp_bind, wp_gets. cbn [pr_table set_ptable fst].
  eapply wp_deref; [by rewrite Hh; apply lookup_insert_eq|]. apply wp_bind, wp_assert; [cbn; lia|].
  apply pw_map_set_wp; [cbn; rewrite (po_length _ Hp); apply lookup_lt_Some in Hm; rewrite (po_length _ Hp) in Hm; lia|]. cbn.
  rewrite i32_small by lia. set (p' := set_pmap _ _).
  assert (Hnull : fd_entries (pr_table pw.1) !! n = Some Null).
  { rewrite <- (Nat2Z.id n). apply slot_free; [apply Hf|lia|]. rewrite (filled_held n) by (done || lia). lia. }
  apply (HQ p'); [|done|done|].
  - split; [|done| |].
    + apply (proc_wf_opened pw.1 p' (Z.of_nat n) a x (okey o) (mkFDEntry (Z.of_nat n) 1 0 fosFileOps x) (Z.to_nat i) INT32_MAX);
        try done; [|apply internal_MAX|by apply Hf'|by rewrite Nat2Z.id|by cbn; rewrite i32_small by lia|by apply fmap_insert].
      split; [lia|]. split; [rewrite (filled_held n) by (done || lia); lia|]. intros j Hj. apply (filled_held n); [done|lia|lia].
    + cbn. rewrite Hh. intros b e [[<- <-]|[_ He]]%lookup_insert_Some; [done|by eapply H1].
    + cbn. intros y o' [[_ <-]|[_ Ho']]%lookup_insert_Some; [|by eapply Hmd]. unfold o. by rewrite !(proj1 (obj_for_ino _ _)), !(proj2 (obj_for_ino _ _)).
  - intros j. rewrite (fd_view_opened pw.1 p' n a x o (mkFDEntry (Z.of_nat n) 1 0 fosFileOps x) (Z.to_nat i)) by done.
    destruct (obj_for_ino inode fd) as [E1 E2]. unfold o. by rewrite E1, E2.
Qed.
(** A number of the kernel. *)
Lemma set_kernel_wp n i e pw (Q : unit -> PW -> Prop) :
  reading n pw.1 -> 0 <= i -> 0 <= e < 2 ^ 31 -> pr_map pw.1 !! Z.to_nat i = Some INT32_MAX ->
  (forall p', reading n p' -> same_rest pw.1 p' -> pr_map p' = <[Z.to_nat i := - e - 1]> (pr_map pw.1) ->
    (forall j, fd_view p' j = if decide (j = Z.to_nat i) then Some (Kernel e) else fd_view pw.1 j) -> Q tt (p', pw.2)) ->
  wp (on_map (fdSetExternal i e)) Q pw.
Proof.
  intros [Hp Hf H1 Hmd] Hi He Hm HQ. pose proof (lookup_lt_Some _ _ _ Hm) as Hlt. apply pw_map_set_wp; [lia|].
  assert (i32 (-1 * e - 1) = - e - 1) as -> by (rewrite i32_small by lia; lia).
  assert (Hn : ~ internal (- e - 1)) by (unfold internal; lia).
  apply HQ; [|done|done|].
  - split; [|done|done|done]. destruct Hp as [Ht Hl Hmo Ho Hb]. split; simpl; [done|by rewrite length_insert| |done|done].
    by apply (map_ok_other _ _ _ INT32_MAX); [|done|apply internal_MAX|].
  - intros j. unfold fd_view. cbn. case_decide as Hj.
    + subst j. rewrite list_lookup_insert_eq by done. simpl. assert (is_int (- e - 1) = false) as -> by (unfold is_int; lia).
      rewrite (proj2 (Z.ltb_lt _ _)) by lia. do 2 f_equal. lia.
    + by rewrite list_lookup_insert_ne by done.
Qed.

(** The texts that no number has. *)
Definition fdfree (env : list text) : Prop := forall i, Forall (fun e => named (fd_name i) e = None) env.

Definition is_file (t : target) : bool := match t with File _ _ => true | Kernel _ => false end.
Definition files (ds : list (Z * target)) : nat := length (filter (fun d => is_file (snd d) = true) ds).

Lemma files_cons d ds : files (d :: ds) = ((if is_file (snd d) then 1 else 0) + files ds)%nat.
Proof. unfold files. rewrite filter_cons. destruct (is_file (snd d)); [by rewrite decide_True|by rewrite decide_False]. Qed.

Lemma unsetenv_id name env : Forall (fun e => named name e = None) env -> unsetenv name env = env.
Proof. intros Hf. unfold unsetenv. induction Hf as [|e env He Hf IH]; [done|]. rewrite filter_cons_True by done. by rewrite IH. Qed.
Lemma unsetenv_head name v env : Forall (fun e => named name e = None) env -> unsetenv name (entry name v :: env) = env.
Proof.
  intros Hf. unfold unsetenv. rewrite filter_cons_False by (by rewrite named_entry). by apply unsetenv_id.
Qed.

Lemma entries_other i ds es :
  0 <= i < 2 ^ 31 -> (forall d, d ∈ ds -> 0 <= fst d < 2 ^ 31 /\ fst d <> i) -> Forall2 is_entry ds es ->
  Forall (fun e => named (fd_name i) e = None) es.
Proof.
  intros Hi Hd Hes. induction Hes as [|d e ds es (t & _ & ->) Hes IH]; constructor.
  - apply named_other; [apply fd_name_plain..|]. destruct (Hd d ltac:(left)) as [? Hne]. intros Heq%fd_name_inj; [|lia|lia]. by apply Hne.
  - apply IH. intros d' Hd'. apply Hd. by right.
Qed.

Definition on_image (p : Process) (env : list text) (im : Image) : Image := set_env env (set_pw (p, (im_pw im).2) im).

Lemma read_fd_wp n d t es tail ds im (Q : unit -> Image -> Prop) :
  reading n (im_pw im).1 -> (n + (if is_file d.2 then 1 else 0) <= 32)%nat ->
  0 <= d.1 < CONFIG_FD_COUNT -> pr_map (im_pw im).1 !! Z.to_nat d.1 = Some INT32_MAX -> shows d.2 t ->
  im_env im = entry (fd_name d.1) t :: es ++ tail ->
  Forall2 is_entry ds es -> (forall d', d' ∈ ds -> 0 <= d'.1 < 2 ^ 31 /\ d'.1 <> d.1) -> fdfree tail ->
  (forall p', reading (n + (if is_file d.2 then 1 else 0)) p' -> same_rest (im_pw im).1 p' ->
    (forall j, j <> Z.to_nat d.1 -> pr_map p' !! j = pr_map (im_pw im).1 !! j) ->
    (forall j, fd_view p' j = if decide (j = Z.to_nat d.1) then Some d.2 else fd_view (im_pw im).1 j) ->
    Q tt (on_image p' (es ++ tail) im)) ->
  wp (read_fd mem d.1) Q im.
Proof.
  intros Hr Hn Hi Hm Hs He Hes Hds Ht HQ. destruct d as [i tg]. simpl in *. unfold read_fd. rewrite i32_small by lia.
  apply wp_bind, wp_gets. rewrite He. cbn [getenv]. rewrite named_entry.
  assert (Hunset : unsetenv (fd_name i) (entry (fd_name i) t :: es ++ tail) = es ++ tail).
  { apply unsetenv_head, Forall_app. split; [by eapply (entries_other i ds es); [lia| |]|apply Ht]. }
  destruct Hs as [m fd inode Hm' Hfd Hino|e He'].
  - destruct (file_read m fd inode Hm' Hfd Hino) as [-> Hscan]. apply wp_bind, wp_bind. unfold scan.
    eapply wp_deref; [exact Hscan|]. apply wp_bind. eapply wp_deref; [apply FileType_of_val|]. apply wp_zoom.
    apply (read_file_wp n); [done|simpl in Hn; lia|lia|done|]. intros p' Hr' Hsame Hmap Hv. apply wp_modify.
    change (Q tt (on_image p' (unsetenv (fd_name i) (im_env im)) im)). rewrite He, Hunset. apply HQ; [cbn [is_file]; by rewrite Nat.add_1_r|done| |].
    + intros j Hj. rewrite Hmap. by apply list_lookup_insert_ne.
    + intros j. rewrite Hv. by destruct inode.
  - destruct (kernel_read e He') as [-> Hscan]. apply wp_bind, wp_bind. unfold scan.
    eapply wp_deref; [exact Hscan|]. apply wp_zoom. apply (set_kernel_wp n); [done|lia|done|done|].
    intros p' Hr' Hsame Hmap Hv. apply wp_modify. change (Q tt (on_image p' (unsetenv (fd_name i) (im_env im)) im)). rewrite He, Hunset.
    apply HQ; [cbn [is_file]; by rewrite Nat.add_0_r|done| |done].
    intros j Hj. rewrite Hmap. by apply list_lookup_insert_ne.
Qed.
(** The steps through the list are as long as the numbers. *)
Lemma digits_length fuel n :
  0 <= n -> length (digits_of (S fuel) 16 n) = if n <? 16 then 1%nat else S (length (digits_of fuel 16 (n / 16))).
Proof.
  intros Hn. cbn [digits_of]. rewrite length_app. destruct (Z.ltb_spec n 16).
  - rewrite Z.div_small by lia. done.
  - rewrite (proj2 (Z.eqb_neq _ _)); [cbn; lia|]. pose proof (Z.div_le_mono 16 n 16 ltac:(lia) ltac:(lia)) as Hd. rewrite Z.div_same in Hd by lia. lia.
Qed.
Lemma fd_width_length i : 0 <= i < 2 ^ 16 -> fd_width i = S (length (print_x i)).
Proof.
  intros Hi. unfold fd_width, print_x, print_num.
  assert (Hq : forall k, 0 <= k -> 0 <= k / 16 /\ 16 * (k / 16) <= k < 16 * (k / 16) + 16).
  { intros k Hk. pose proof (Z.div_mod k 16 ltac:(lia)). pose proof (Z.mod_pos_bound k 16 ltac:(lia)). split; [by apply Z.div_pos|lia]. }
  pose proof (Hq i ltac:(lia)) as [H1 B1]. pose proof (Hq (i / 16) H1) as [H2 B2]. pose proof (Hq (i / 16 / 16) H2) as [H3 B3].
  change 64%nat with (S (S (S (S 60)))). rewrite (digits_length _ i), (digits_length _ (i / 16)), (digits_length _ (i / 16 / 16)),
    (digits_length _ (i / 16 / 16 / 16)) by lia.
  destruct (Z.ltb_spec i 16), (Z.ltb_spec (i / 16) 16), (Z.ltb_spec (i / 16 / 16) 16), (Z.ltb_spec (i / 16 / 16 / 16) 16),
    (Z.ltb_spec 15 i), (Z.ltb_spec 255 i), (Z.ltb_spec 4095 i); lia.
Qed.

Lemma read_fds_wp ds : forall n fuel es tail im (Q : unit -> Image -> Prop),
  reading n (im_pw im).1 -> (n + files ds <= 32)%nat -> NoDup ds.*1 ->
  (forall d, d ∈ ds -> 0 <= d.1 < CONFIG_FD_COUNT /\ pr_map (im_pw im).1 !! Z.to_nat d.1 = Some INT32_MAX) ->
  Forall2 is_entry ds es -> im_env im = es ++ tail -> fdfree tail -> (length ds <= fuel)%nat ->
  (forall p', reading (n + files ds) p' -> same_rest (im_pw im).1 p' ->
    (forall j t, fd_view p' j = Some t <-> (Z.of_nat j, t) ∈ ds \/ fd_view (im_pw im).1 j = Some t) ->
    Q tt (on_image p' tail im)) ->
  wp (read_fds mem fuel (list_text ds.*1)) Q im.
Proof.
  induction ds as [|d ds IH]; intros n fuel es tail im Q Hr Hn Hnd Hds Hes He Ht Hfuel HQ.
  - inversion Hes; subst. destruct fuel; apply wp_ret;
      (replace im with (on_image (im_pw im).1 tail im); [apply HQ|]); try done; try (by rewrite Nat.add_0_r);
      try (intros j t; set_solver); destruct im as [[p w] env ad be]; cbn in *; by rewrite <- He.
  - inversion Hes as [|? e ? es' (t & Hs & ->) Hes' E1 E2]; subst. cbn [fmap list_fmap] in *. rewrite list_text_cons.
    destruct (Hds d ltac:(left)) as [Hi Hm]. apply NoDup_cons in Hnd as [Hnew Hnd]. cbn [length] in Hfuel. destruct fuel as [|fuel]; [lia|].
    assert (Hlen : (fd_width d.1 <= length (print_x d.1 ++ str ":" ++ list_text ds.*1))%nat).
    { rewrite fd_width_length, !length_app by lia. cbn. lia. }
    cbn [read_fds]. destruct (print_x d.1 ++ str ":" ++ list_text ds.*1) as [|c0 l0] eqn:El.
    { rewrite fd_width_length in Hlen by lia. cbn in Hlen. lia. }
    rewrite <- El in *. clear El c0 l0. apply wp_bind. unfold scan.
    eapply wp_deref; [rewrite sscanf_x by (done || lia); done|]. cbv beta iota.
    rewrite (proj2 (Nat.ltb_ge _ _)) by done.
    assert (Hdrop : drop (fd_width d.1) (print_x d.1 ++ str ":" ++ list_text ds.*1) = list_text ds.*1).
    { rewrite app_assoc. apply drop_app_length'. rewrite fd_width_length, length_app by lia. cbn. lia. }
    rewrite Hdrop. apply wp_bind. eapply (read_fd_wp n d t es' tail ds).
    + done.
    + rewrite files_cons in Hn. lia.
    + done.
    + done.
    + done.
    + done.
    + done.
    + intros d' Hd'. destruct (Hds d' ltac:(by right)). split; [lia|]. intros Heq. apply Hnew. rewrite <- Heq. by apply list_elem_of_fmap_2.
    + done.
    + intros p' Hr' Hsame Hmap Hv. apply (IH (n + (if is_file d.2 then 1 else 0))%nat fuel es' tail); try done.
      * rewrite files_cons in Hn. lia.
      * intros d' Hd'. destruct (Hds d' ltac:(by right)) as [Hi' Hm']. split; [done|]. cbn. rewrite Hmap; [done|].
        intros Heq. apply Hnew. replace d.1 with d'.1 by lia. by apply list_elem_of_fmap_2.
      * lia.
      * intros p'' Hr'' Hsame' Hv'. apply HQ.
        -- rewrite files_cons. by rewrite Nat.add_assoc.
        -- destruct Hsame as (? & ? & ? & ?), Hsame' as (? & ? & ? & ?). cbn in *. split_and!; congruence.
        -- intros j u. rewrite Hv'. cbn. rewrite Hv, elem_of_cons. case_decide as Hj.
           ++ subst j. rewrite Z2Nat.id by lia. rewrite (fd_view_None _ _ Hm).
              split; [intros [?|[= <-]]; [by left; right|left; left; by destruct d]|].
              intros [[Heq|?]|?]; [right; by rewrite <- Heq|by left|done].
           ++ split; [tauto|]. intros [[Heq|?]|?]; [|by left|by right]. destruct Hj. rewrite <- Heq. cbn. lia.
Qed.
End Child.

(** ** Addresses and directory *)

Definition addrfree (env : list text) : Prop := forall i, Forall (fun e => named (addr_name i) e = None) env.

Lemma addr_entries_other k l i :
  0 <= k < i -> i + Z.of_nat (length l) <= 2 ^ 31 -> Forall (fun e => named (addr_name k) e = None) (addr_entries l i).
Proof.
  revert i. induction l as [|a l IH]; intros i Hk Hi; cbn [addr_entries]; [constructor|]. cbn [length] in Hi. apply Forall_app. split.
  - destruct (_ =? _); [constructor|]. apply Forall_singleton, named_other; [apply addr_name_plain..|]. intros ?%addr_name_inj; lia.
  - apply IH; lia.
Qed.

Lemma getenv_skip name l1 l2 : Forall (fun e => named name e = None) l1 -> getenv name (l1 ++ l2) = getenv name l2.
Proof. intros Hl. rewrite getenv_app. by rewrite (proj2 (getenv_None _ _) Hl). Qed.
Lemma unsetenv_app name l1 l2 : unsetenv name (l1 ++ l2) = unsetenv name l1 ++ unsetenv name l2.
Proof. apply filter_app. Qed.

Lemma read_addrs_wp envp rest : forall i known pre im (Q : unit -> Image -> Prop),
  0 <= i -> i + Z.of_nat (length rest) <= 2 ^ 31 -> Forall (fun a => 0 <= a < 2 ^ 64) rest ->
  im_addrs im = known ++ replicate (length rest) 0 -> length known = Z.to_nat i ->
  im_env im = pre ++ addr_entries rest i ++ envp -> addrfree pre -> addrfree envp ->
  Q tt (set_addrs (known ++ rest) (set_env (pre ++ envp) im)) -> wp (read_addrs (length rest) i) Q im.
Proof.
  induction rest as [|a rest IH]; intros i known pre im Q Hi Hn Hr Ha Hl He Hpre Henv HQ.
  - apply wp_ret. cbn in *. destruct im. cbn in *. subst. exact HQ.
  - cbn [length read_addrs addr_entries] in *. apply Forall_cons in Hr as [Hrange Hr].
    pose proof (addr_entries_other i rest (i + 1) ltac:(lia) ltac:(lia)) as Hother.
    apply wp_bind. unfold read_addr. apply wp_bind, wp_gets. rewrite He, getenv_skip by apply Hpre.
    cbn [replicate] in Ha. destruct (Z.eqb_spec a 0) as [->|Hne].
    + cbn [app]. rewrite getenv_skip by done. rewrite (proj2 (getenv_None _ _)) by apply Henv. apply wp_ret.
      apply (IH _ (known ++ [0]) pre); try done; try lia.
      * by rewrite <- app_assoc.
      * rewrite length_app. cbn. lia.
      * by rewrite <- app_assoc.
    + cbn [app getenv]. rewrite named_entry. apply wp_bind. unfold scan.
      eapply wp_deref; [rewrite <- (app_nil_r (print_x a)), sscanf_llx by done; done|]. cbv beta iota.
      apply wp_bind, wp_modify. unfold unset. apply wp_modify. cbn [im_env set_addrs set_env im_pw im_addrs im_beyond].
      rewrite He, unsetenv_app, unsetenv_id by apply Hpre. cbn [app]. rewrite unsetenv_head by (apply Forall_app; split; [done|apply Henv]).
      apply (IH _ (known ++ [a]) pre); try done; try lia.
      * cbn. rewrite Ha, <- app_assoc. rewrite <- Hl. rewrite insert_app_r_alt by done. by rewrite Nat.sub_diag.
      * rewrite length_app. cbn. lia.
      * cbn. by rewrite <- app_assoc.
Qed.

Lemma cwd_read inode b :
  machine_inode inode ->
  sscanf (Dllx :: lits "@" ++ [Dd] ++ lits ":" ++ [Du] ++ lits ":" ++ [Dd]) (cwd_text inode b) =
    Some [it_id inode; it_server inode; Z.b2z b; FileType_val (it_type inode)].
Proof.
  intros [Hs Hid]. pose proof (FileType_val_small (it_type inode)) as Ht. unfold cwd_text.
  change (lits ":") with [Lit 58]. change (lits "@") with [Lit 64]. change (str ":") with [58]. change (str "@") with [64]. cbn [app].
  rewrite sscanf_llx by done. rewrite sscanf_lit, sscanf_d by done. rewrite sscanf_lit, sscanf_u by (done || destruct b; cbn; lia).
  rewrite sscanf_lit. rewrite <- (app_nil_r (print_d (FileType_val _))). rewrite sscanf_d by (done || lia). done.
Qed.

Lemma read_cwd_wp inode b envp im (Q : unit -> Image -> Prop) :
  machine_inode inode -> im_env im = entry (str "hare_cwd") (cwd_text inode b) :: envp ->
  Q tt (set_beyond [0; 0; 0] (set_pw (set_cwd inode b (im_pw im).1, (im_pw im).2) im)) -> wp read_cwd Q im.
Proof.
  intros Hm He HQ. unfold read_cwd. apply wp_bind, wp_gets. rewrite He. cbn [getenv]. rewrite named_entry. apply wp_bind.
  eapply wp_deref; [done|]. apply wp_bind. unfold scan. eapply wp_deref; [by apply cwd_read|]. apply wp_bind, wp_gets. cbv zeta.
  apply wp_bind. eapply wp_deref; [apply FileType_of_val|]. apply wp_bind. eapply wp_deref; [instantiate (1 := b); by destruct b|].
  apply wp_bind, wp_zoom, wp_modify, wp_modify. destruct inode, b; exact HQ.
Qed.

(** ** The bounds *)

Section Bounds.
Context `{Config}.

(** A process has 29 files at most, besides the reserved slots. *)
Definition slot_of (p : Process) (j : nat) : option nat :=
  v ← pr_map p !! j; if is_int v then Some (Z.to_nat (v - 1)) else None.

Lemma slot_of_Some p j s : slot_of p j = Some s -> exists v, pr_map p !! j = Some v /\ internal v /\ s = Z.to_nat (v - 1).
Proof.
  unfold slot_of. destruct (pr_map p !! j) as [v|]; [|done]. simpl. destruct (is_int v) eqn:Hi; [|done]. apply is_int_spec in Hi.
  intros [= <-]. by exists v.
Qed.

Lemma files_slots p l :
  (length (filter (fun d => is_file (snd d) = true) (omap (fun j => pair j <$> fd_view p (Z.to_nat j)) (Z.of_nat <$> l))) <=
   length (omap (slot_of p) l))%nat.
Proof.
  induction l as [|j l IH]; [done|]. csimpl. rewrite Nat2Z.id. destruct (fd_view p j) as [t|] eqn:Ev; simpl.
  2: { destruct (slot_of p j); simpl; lia. }
  rewrite filter_cons. case_decide as Hf; [|destruct (slot_of p j); simpl; lia].
  destruct (slot_of p j) as [s|] eqn:Es; [simpl; lia|]. exfalso. revert Ev Es. unfold fd_view, slot_of.
  destruct (pr_map p !! j) as [v|]; [|done]. simpl. destruct (is_int v); [done|]. destruct (v <? 0); [|done]. by intros [= <-].
Qed.

Lemma files_bound p : proc_wf p -> (files (fds p 0 (Z.to_nat CONFIG_FD_COUNT)) <= 29)%nat.
Proof.
  intros Hp. unfold files, fds. set (N := Z.to_nat CONFIG_FD_COUNT).
  assert (seqZ 0 (Z.of_nat N) = Z.of_nat <$> seq 0 N) as ->.
  { unfold seqZ. rewrite Nat2Z.id. apply list_fmap_ext. intros. lia. }
  etrans; [apply files_slots|]. change 29%nat with (length (seq 3 29)). apply submseteq_length, NoDup_submseteq.
  - apply NoDup_omap; [apply NoDup_seq|]. intros i j s (v & Hv & Hi & Hs)%slot_of_Some (w & Hw & Hj & Hs')%slot_of_Some.
    assert (w = v) as -> by (destruct Hi, Hj; lia). by apply (mo_inj _ _ (po_map _ Hp) i j v).
  - intros s (j & _ & (v & Hv & Hi & ->)%slot_of_Some)%list_elem_of_omap. apply elem_of_seq.
    destruct (mo_slot _ _ (po_map _ Hp) _ _ Hv Hi) as [Hlow [a Ha]]. destruct (mo_mapped _ _ (po_map _ Hp) _ _ Ha). lia.
Qed.

(** The list of numbers fits. *)
Lemma list_text_length l : Forall (fun i => 0 <= i < 2 ^ 12) l -> (length (list_text l) <= 4 * length l)%nat.
Proof.
  induction 1 as [|i l Hi Hl IH]; [done|]. rewrite list_text_cons, !length_app. cbn [length].
  pose proof (fd_width_length i ltac:(lia)) as Hw. unfold fd_width in Hw. rewrite (proj2 (Z.ltb_ge 4095 i)) in Hw by lia.
  change (length (str ":")) with 1%nat. destruct (Z.ltb_spec 15 i), (Z.ltb_spec 255 i); lia.
Qed.
Lemma fds_length p i n : (length (fds p i n) <= n)%nat.
Proof. unfold fds. etrans; [apply length_omap_le|]. rewrite length_seqZ. lia. Qed.
End Bounds.

(** ** Names *)

Lemma app_ne (p x q y : text) k a b : p !! k = Some a -> q !! k = Some b -> a <> b -> p ++ x <> q ++ y.
Proof.
  intros Hp Hq Hne Heq. apply (f_equal (lookup k)) in Heq.
  rewrite (lookup_app_l_Some _ _ _ _ Hp), (lookup_app_l_Some _ _ _ _ Hq) in Heq. congruence.
Qed.

Definition list_name : text := str "hare_fd_list".
Definition cwd_name : text := str "hare_cwd".

Ltac char_in := intros Hin; vm_compute in Hin; repeat (apply elem_of_cons in Hin as [?|Hin]; [done|]); by apply not_elem_of_nil in Hin.
Lemma list_name_plain : 61 ∉ list_name.
Proof. char_in. Qed.
Lemma cwd_name_plain : 61 ∉ cwd_name.
Proof. char_in. Qed.

Lemma fd_list_ne i : fd_name i <> list_name.
Proof.
  change list_name with (str "hare_fd_" ++ str "list"). intros Heq%app_inv_head. pose proof (print_d_chars i) as Hc. rewrite Heq in Hc.
  apply Forall_cons in Hc as [Hc _]. change (number_char 108) in Hc. unfold number_char in Hc. lia.
Qed.
Lemma fd_cwd_ne i : fd_name i <> cwd_name.
Proof. rewrite <- (app_nil_r cwd_name). by apply (app_ne _ _ _ _ 5 102 99). Qed.
Lemma fd_addr_ne i j : fd_name i <> addr_name j.
Proof. by apply (app_ne _ _ _ _ 6 100 115). Qed.
Lemma addr_list_ne i : addr_name i <> list_name.
Proof. rewrite <- (app_nil_r list_name). by apply (app_ne _ _ _ _ 6 115 100). Qed.
Lemma addr_cwd_ne i : addr_name i <> cwd_name.
Proof. rewrite <- (app_nil_r cwd_name). by apply (app_ne _ _ _ _ 5 102 99). Qed.
Lemma list_cwd_ne : list_name <> cwd_name.
Proof. by intros Heq%(f_equal length). Qed.

(** What the program passes on: settings, none of them with a name of the list, and
    among them the mark of a program that has been started. *)
Definition settings (envp : list text) : Prop :=
  Forall (fun e => strip (str "hare_fd_") e = None /\ strip (str "hare_fs_addr_") e = None /\ 61 ∈ e) envp.
Definition env_ok (envp : list text) : Prop := settings envp /\ getenv (str "faux_initted") envp <> None.

Lemma strip_named p x e : strip p e = None -> named (p ++ x) e = None.
Proof.
  intros Hn. destruct (named (p ++ x) e) as [r|] eqn:E; [|done]. apply strip_Some in E. rewrite <- !app_assoc in E.
  rewrite E, strip_app in Hn. done.
Qed.
Lemma env_ok_fd envp : env_ok envp -> fdfree envp.
Proof. intros [He _] i. eapply Forall_impl; [exact He|]. intros e (H1 & _). by apply strip_named. Qed.
Lemma env_ok_addr envp : env_ok envp -> addrfree envp.
Proof. intros [He _] i. eapply Forall_impl; [exact He|]. intros e (_ & H2 & _). by apply strip_named. Qed.
Lemma env_ok_list envp : env_ok envp -> Forall (fun e => named list_name e = None) envp.
Proof. intros [He _]. eapply Forall_impl; [exact He|]. intros e (H1 & _). by apply (strip_named (str "hare_fd_") (str "list")). Qed.

Lemma addr_entries_named name l i :
  61 ∉ name -> (forall j, name <> addr_name j) -> Forall (fun e => named name e = None) (addr_entries l i).
Proof.
  intros H1 Hne. revert i. induction l as [|a l IH]; intros i; cbn [addr_entries]; [constructor|]. apply Forall_app. split; [|apply IH].
  destruct (_ =? _); [constructor|]. apply Forall_singleton, named_other; [done|apply addr_name_plain|apply Hne].
Qed.
Lemma entries_named name ds es :
  61 ∉ name -> (forall j, name <> fd_name j) -> Forall2 is_entry ds es -> Forall (fun e => named name e = None) es.
Proof.
  intros H1 Hne Hes. induction Hes as [|d e ds es (t & _ & ->) Hes IH]; constructor; [|done].
  apply named_other; [done|apply fd_name_plain|apply Hne].
Qed.

(** Everything the list adds to the environment, in its order. *)
Definition list_entry (l : text) : list text := if bool_decide (l = []) then [] else [entry list_name l].
Definition cwd_entry (p : Process) : text := entry cwd_name (cwd_text (g_cwd_inode p) (g_cwd_in p)).

Lemma rest_fdfree l p addrs envp : env_ok envp -> fdfree (list_entry l ++ [cwd_entry p] ++ addr_entries addrs 0 ++ envp).
Proof.
  intros He i. rewrite !Forall_app. split_and!.
  - unfold list_entry. case_bool_decide; [constructor|]. apply Forall_singleton, named_other;
      [apply fd_name_plain|apply list_name_plain|apply fd_list_ne].
  - apply Forall_singleton, named_other; [apply fd_name_plain|apply cwd_name_plain|apply fd_cwd_ne].
  - apply addr_entries_named; [apply fd_name_plain|]. intros j. apply fd_addr_ne.
  - by apply env_ok_fd.
Qed.
Lemma front_addrfree l p : addrfree (list_entry l ++ [cwd_entry p]).
Proof.
  intros i. rewrite Forall_app. split.
  - unfold list_entry. case_bool_decide; [constructor|]. apply Forall_singleton, named_other;
      [apply addr_name_plain|apply list_name_plain|apply addr_list_ne].
  - apply Forall_singleton, named_other; [apply addr_name_plain|apply cwd_name_plain|apply addr_cwd_ne].
Qed.

(** ** The round trip *)

(** The process that follows is what the one before was. *)
Record inherited `{Config} (p : Process) (addrs : list Z) (envp : list text) (im im' : Image) : Prop := {
  ih_fds i : fd_view (im_pw im').1 i = fd_view p i;
  ih_cwd : g_cwd_inode (im_pw im').1 = g_cwd_inode p /\ g_cwd_in (im_pw im').1 = g_cwd_in p;
  ih_addrs : im_addrs im' = addrs;
  ih_env : im_env im' = cwd_entry p :: envp;
  ih_tables : exists n, reading n (im_pw im').1;
  ih_world : (im_pw im').2 = (im_pw im).2;
  ih_open : closed_fds (im_pw im').1 = closed_fds (im_pw im).1
}.

Section Roundtrip.
Context `{Config} `{Env}.
Variable mem : nat -> bool.
Hypothesis mem_all : forall k, mem k = true.
Hypothesis fd_count_small : 0 <= CONFIG_FD_COUNT <= 1000.
Variable registered : nat -> Z.

Abbreviation N := (Z.to_nat CONFIG_FD_COUNT).

Lemma fd_view_bound p i t : proc_wf p -> fd_view p i = Some t -> (i < N)%nat.
Proof.
  intros Hp Hv. unfold fd_view in Hv. destruct (pr_map p !! i) as [v|] eqn:E; [|done]. apply lookup_lt_Some in E. by rewrite (po_length _ Hp) in E.
Qed.

Lemma started_reading t p :
  all_bare 3 t -> pr_objs p = ∅ -> 0 < pr_next p -> reading 3 (set_pmap (replicate N INT32_MAX) (set_ptable t p)).
Proof.
  intros Ht Ho Hn. split.
  - apply (proc_ok_started t); try done; cbn; [by rewrite length_replicate|].
    intros i v [-> _]%lookup_replicate_1. apply internal_MAX.
  - apply Ht.
  - intros a e Ha. by apply Ht in Ha as [_ ?].
  - cbn. rewrite Ho. by intros x o Hx.
Qed.

Lemma list_nil l : (forall i, i ∈ l -> 0 <= i < 2 ^ 16) -> list_text l = [] -> l = [].
Proof.
  intros Hl Hx. destruct l as [|i l]; [done|]. rewrite list_text_cons in Hx. apply app_eq_nil in Hx as [_ Hx]. done.
Qed.

Lemma getenv_list ds es p addrs envp :
  Forall2 is_entry ds es -> env_ok envp ->
  getenv list_name (es ++ list_entry (list_text ds.*1) ++ [cwd_entry p] ++ addr_entries addrs 0 ++ envp) =
    if bool_decide (list_text ds.*1 = []) then None else Some (list_text ds.*1).
Proof.
  intros Hes He. rewrite getenv_skip by (eapply entries_named; [apply list_name_plain|intros j Hj; by apply (fd_list_ne j)|done]).
  unfold list_entry. case_bool_decide; [|cbn [app getenv]; by rewrite named_entry]. cbn [app]. apply getenv_None.
  constructor; [apply named_other; [apply list_name_plain|apply cwd_name_plain|apply list_cwd_ne]|].
  apply Forall_app. split; [|by apply env_ok_list]. apply addr_entries_named; [apply list_name_plain|]. intros j Hj. by apply (addr_list_ne j).
Qed.
Lemma read_list_wp ds es tail im1 :
  reading 3 (im_pw im1).1 -> (files ds <= 29)%nat -> NoDup ds.*1 ->
  (forall d, d ∈ ds -> 0 <= d.1 < CONFIG_FD_COUNT /\ pr_map (im_pw im1).1 !! Z.to_nat d.1 = Some INT32_MAX) ->
  (forall i, fd_view (im_pw im1).1 i = None) -> Forall2 is_entry ds es -> im_env im1 = es ++ tail -> fdfree tail ->
  wp (match (if bool_decide (list_text ds.*1 = []) then None else Some (list_text ds.*1)) with
      | Some fd_list => read_fds mem (length fd_list) fd_list
      | None => mret tt
      end) (fun _ im2 => exists p2, (exists n, reading n p2) /\ same_rest (im_pw im1).1 p2 /\
    (forall j t, fd_view p2 j = Some t <-> (Z.of_nat j, t) ∈ ds) /\ im2 = on_image p2 tail im1) im1.
Proof.
  intros Hr Hf Hnd Hds Hnone Hes He Ht. case_bool_decide as Hx.
  - apply list_nil in Hx; [|intros i ([j u] & -> & Hd)%list_elem_of_fmap; destruct (Hds _ Hd); simpl in *; lia].
    apply fmap_nil_inv in Hx. rewrite Hx in *. inversion Hes; subst. apply wp_ret. exists (im_pw im1).1.
    split; [by exists 3%nat|]. split; [done|]. split.
    + intros j t. rewrite Hnone. set_solver.
    + destruct im1 as [[p1 w] env ad be]. cbn in *. by rewrite He.
  - assert (Hsmall : CONFIG_FD_COUNT <= 2 ^ 16) by lia. apply (read_fds_wp mem mem_all Hsmall ds 3 _ es tail); try done; [lia| |].
    + clear -Hds. induction ds as [|d ds IH]; [done|]. cbn [fmap list_fmap]. rewrite list_text_cons, !length_app. cbn.
      assert (length ds <= length (list_text ds.*1))%nat by (apply IH; intros; apply Hds; by right). lia.
    + intros p2 Hr2 Hs2 Hv2. exists p2. split; [by eexists|]. split; [done|]. split; [|done].
      intros j t. rewrite Hv2, Hnone. naive_solver.
Qed.

Lemma read_rest_wp p addrs envp l im (Q : unit -> Image -> Prop) :
  machine_inode (g_cwd_inode p) -> Forall (fun a => 0 <= a < 2 ^ 64) addrs -> Z.of_nat (length addrs) <= 2 ^ 31 -> env_ok envp ->
  im_addrs im = replicate (length addrs) 0 -> im_env im = list_entry l ++ [cwd_entry p] ++ addr_entries addrs 0 ++ envp ->
  Q tt (mkImage (set_cwd (g_cwd_inode p) (g_cwd_in p) (im_pw im).1, (im_pw im).2) (cwd_entry p :: envp) addrs [0; 0; 0]) ->
  wp (n ← gets (fun im => length (im_addrs im));
      read_addrs n 0;;
      (match (if bool_decide (l = []) then None else Some l) with Some _ => unset list_name | None => mret tt end);;
      read_cwd) Q im.
Proof.
  intros Hm Hra Hla Henv Ha He HQ. apply wp_bind, wp_gets. rewrite Ha, length_replicate. apply wp_bind.
  apply (read_addrs_wp envp addrs 0 [] (list_entry l ++ [cwd_entry p])); [done|lia|done|done|done| |apply front_addrfree|by apply env_ok_addr|].
  { rewrite He. by rewrite <- app_assoc. }
  apply wp_bind. apply (wp_mono _ (fun _ im' => im' = mkImage (im_pw im) (cwd_entry p :: envp) addrs (im_beyond im))).
  - unfold list_entry. case_bool_decide; [by apply wp_ret|]. apply wp_modify. unfold set_env, set_addrs. cbn [app im_pw im_env im_addrs im_beyond].
    f_equal. apply unsetenv_head. constructor; [|by apply env_ok_list].
    apply named_other; [apply list_name_plain|apply cwd_name_plain|apply list_cwd_ne].
  - intros [] im' ->. by apply (read_cwd_wp (g_cwd_inode p) (g_cwd_in p) envp).
Qed.

Lemma faux_init_wp p addrs envp es im :
  proc_wf p -> machine p -> Forall (fun a => 0 <= a < 2 ^ 64) addrs -> Z.of_nat (length addrs) <= 2 ^ 31 -> env_ok envp ->
  Forall2 is_entry (fds p 0 N) es ->
  blank (im_pw im).1 -> im_addrs im = replicate (length addrs) 0 ->
  im_env im = es ++ list_entry (list_text (fds p 0 N).*1) ++ [cwd_entry p] ++ addr_entries addrs 0 ++ envp ->
  wp (faux_init mem registered) (fun _ => inherited p addrs envp im) im.
Proof.
  intros Hp Hma Hra Hla Henv Hes Hb Ha He. set (ds := fds p 0 N) in *. unfold faux_init. apply wp_bind, wp_zoom, init_wp; [done|done|].
  intros t Ht. destruct Hb as (_ & Ho & Hn & _). pose proof (started_reading t _ Ht Ho Hn) as Hr.
  set (p1 := set_pmap _ _) in Hr |- *. set (im1 := set_pw (p1, (im_pw im).2) im).
  apply wp_bind, wp_gets. change (im_env im1) with (im_env im).
  destruct (getenv (str "faux_initted") (im_env im)) as [mark|] eqn:Hin; [|exfalso].
  2: { apply (proj2 Henv). rewrite He, !getenv_app in Hin. by repeat case_match. }
  unfold inherit_env. apply wp_bind, wp_gets. change (im_env im1) with (im_env im). rewrite He.
  change (str "hare_fd_list") with list_name. rewrite getenv_list by done. apply wp_bind. eapply wp_mono.
  { eapply (read_list_wp ds es _ im1); [done|by apply files_bound|apply fds_NoDup| | |done|exact He|by apply rest_fdfree].
    - intros [i u] [Hi _]%elem_of_fds. simpl. split; [lia|]. apply lookup_replicate_2. lia.
    - intros i. unfold fd_view. destruct (pr_map _ !! i) as [v|] eqn:E; [|done]. cbn in E. by apply lookup_replicate_1 in E as [-> _]. }
  cbv beta. intros [] im2 (p2 & [n Hr2] & (Hc1 & Hc2 & _) & Hv & ->).
  apply (read_rest_wp p addrs envp); [apply Hma|done|done|done|done|done|]. split; cbn; try done.
  - intros i. apply option_eq. intros u. rewrite (Hv i u). unfold ds. rewrite elem_of_fds, Nat2Z.id. split; [tauto|].
    intros Hu. split; [|done]. apply fd_view_bound in Hu; [lia|done].
  - exists n. by destruct Hr2 as [[]]; split; [split|..].
Qed.
End Roundtrip.
