(* ===== verification/ExecProcess.v ===== *)
(** * A process becomes another program

    [ExecEnv] as a whole: closing and listing the descriptors in one program,
    reading them in the next. *)

From S2P Require Import Prelude FsTypes BufferCache FsFile FsNode FsServer FsDirCache FsClient FsClientSpec FsClientFile FsClientListing FsClientPipe SpaceAlloc FdTable Posix FdCounts PosixFork CText ExecEnv ExecSpec.

(** ** Counting *)

(** A number that is counted. *)
Definition mapped (p : Process) (j : Z) : bool :=
  match pr_map p !! Z.to_nat j with Some v => is_int v || (v <? 0) | None => false end.
Definition mapped_in (p : Process) (i : Z) (n : nat) : nat := length (filter (fun j => mapped p j = true) (seqZ i (Z.of_nat n))).

Lemma mapped_in_S p i n : mapped_in p i (S n) = ((if mapped p i then 1 else 0) + mapped_in p (i + 1) n)%nat.
Proof.
  unfold mapped_in. rewrite seqZ_cons by lia. replace (Z.succ i) with (i + 1) by lia.
  replace (Z.pred (Z.of_nat (S n))) with (Z.of_nat n) by lia. rewrite filter_cons.
  destruct (mapped p i); [by rewrite decide_True|by rewrite decide_False].
Qed.
Lemma mapped_in_le p p' i n :
  (forall j, mapped p' j = true -> mapped p j = true) -> (mapped_in p' i n <= mapped_in p i n)%nat.
Proof.
  intros Hm. revert i. induction n as [|n IH]; intros i; [done|]. rewrite !mapped_in_S. specialize (IH (i + 1)). specialize (Hm i).
  destruct (mapped p' i); [rewrite Hm by done|destruct (mapped p i)]; lia.
Qed.
Lemma fds_mapped p i n : (length (fds p i n) <= mapped_in p i n)%nat.
Proof.
  revert i. induction n as [|n IH]; intros i; [done|]. rewrite fds_S, mapped_in_S, length_app. specialize (IH (i + 1)).
  destruct (fd_view p (Z.to_nat i)) as [t|] eqn:Ev; [|destruct (mapped p i); cbn; lia]. unfold mapped. unfold fd_view in Ev.
  destruct (pr_map p !! Z.to_nat i) as [v|]; [|done]. simpl in Ev. destruct (is_int v); [cbn; lia|]. destruct (v <? 0); [cbn; lia|done].
Qed.

(** A setting is not found in "hare_". *)
Lemma count_env_all envp : env_ok envp -> count_env envp = Z.of_nat (length envp).
Proof.
  intros [He _]. unfold count_env. f_equal. induction He as [|e envp (_ & _ & Heq) He IH]; [done|].
  rewrite filter_cons_True; [cbn [length]; by rewrite IH|]. destruct (strstr (str "hare_") e) eqn:Es; [|done]. exfalso.
  apply strstr_spec in Es as (x & y & Hx). assert (Hin : 61 ∈ str "hare_") by (rewrite Hx, !elem_of_app; tauto). revert Hin. char_in.
Qed.

Lemma count_fds_wlp n i pw :
  wlp (count_fds n i) (fun c pw' => pw' = pw /\ c = Z.of_nat (mapped_in pw.1 i n)) pw.
Proof.
  revert i. induction n as [|n IH]; intros i; cbn [count_fds]; [by apply wlp_ret|].
  apply wlp_bind, on_map_read. intros v Hi Hv. apply on_map_ret. apply wlp_bind.
  apply (wlp_mono _ (fun b pw' => pw' = pw /\ b = mapped pw.1 i)).
  - unfold mapped. rewrite Hv. change ((0 <? v) && negb (v =? INT32_MAX)) with (is_int v). destruct (is_int v); [by apply wlp_ret|].
    apply on_map_read. intros v' _ Hv'. apply on_map_ret. split; [done|]. assert (v' = v) as -> by congruence.
    cbn. destruct (Z.ltb_spec v 0); [|done]. unfold INT32_MAX. rewrite (proj2 (Z.eqb_neq _ _)) by lia. done.
  - intros b pw' [-> ->]. apply wlp_bind. eapply wlp_mono; [apply IH|]. cbv beta. intros c pw'' [-> ->]. apply wlp_ret.
    split; [done|]. rewrite mapped_in_S. destruct (mapped pw.1 i); lia.
Qed.

Lemma count_addrs_length addrs i : count_addrs addrs = Z.of_nat (length (addr_entries addrs i)).
Proof.
  unfold count_addrs. f_equal. revert i. induction addrs as [|a addrs IH]; intros i; [done|]. cbn [addr_entries].
  rewrite filter_cons, length_app, <- IH. case_decide as Ha; destruct (Z.eqb_spec a 0); cbn; lia || done.
Qed.

(** ** Closing *)

Section Process.
Context `{Config} `{Env}.
Variable early : nat -> nat -> bool.
Variable mem : nat -> bool.
Variable kernel : nat -> syscall -> Z.

(** What [machine] depends on. *)
Definition mview (pw : PW) := (pr_objs pw.1, pr_map pw.1, g_cwd_inode pw.1).
Lemma machine_view pw pw' : mview pw' = mview pw -> machine pw.1 -> machine pw'.1.
Proof. intros Hv [H1 H2 H3]. injection Hv as E1 E2 E3. split; [rewrite E1|rewrite E2|rewrite E3]; done. Qed.

Lemma fdInt_same fd : keeps mview (on_map (fdInt fd)).
Proof. intros pw. by apply fdInt_wlp. Qed.
Lemma on_table_same {A} (m : M FosFDTable A) : keeps mview (on_table m).
Proof. by apply keeps_zoom. Qed.
Lemma on_world_same {A} (m : Z -> M World A) : keeps mview (on_world m).
Proof. unfold on_world. apply keeps_bind; [apply keeps_gets|]. intros ch. by apply keeps_zoom. Qed.
#[local] Hint Resolve fdInt_same on_table_same on_world_same : keeps.
Lemma get_file_same fd : keeps mview (get_file fd).
Proof. unfold get_file. keeps_steps. Qed.
#[local] Hint Resolve get_file_same : keeps.

Lemma machine_delete x p : machine p -> machine (set_objs (delete x (pr_objs p)) p).
Proof. intros [H1 H2 H3]. split; cbn; [|done|done]. intros y o [_ Hy]%lookup_delete_Some. by eapply H1. Qed.

Lemma fosFileClose_machine a pw : machine pw.1 -> wlp (fosFileClose early a) (fun _ pw' => machine pw'.1) pw.
Proof.
  intros Hm. unfold fosFileClose. apply wlp_bind. eapply wlp_mono.
  { assert (Hk : keeps mview (entry_obj a)) by (unfold entry_obj, get_obj; keeps_steps). apply Hk. }
  cbv beta. intros [x o] pw1 Hv1. apply wlp_bind. eapply wlp_mono.
  { match goal with |- wlp ?m _ _ => assert (Hk : keeps mview m) by keeps_steps end. apply Hk. }
  cbv beta. intros [] pw2 Hv2. apply wlp_bind, wlp_modify, wlp_ret. cbn. apply machine_delete.
  eapply machine_view; [|exact Hm]. congruence.
Qed.

Lemma close_int_machine fd pw : machine pw.1 -> wlp (__close_int early fd) (fun _ pw' => machine pw'.1) pw.
Proof.
  intros Hm. unfold __close_int. apply wlp_bind. eapply wlp_mono; [apply fdInt_same|]. cbv beta. intros n pw1 H1.
  apply wlp_bind. eapply wlp_mono; [apply get_file_same|]. cbv beta. intros a pw2 H2.
  apply wlp_bind. eapply wlp_mono; [apply on_table_same|]. cbv beta. intros e pw3 H3.
  assert (Hm3 : machine pw3.1) by (eapply machine_view; [|exact Hm]; congruence).
  apply wlp_bind. apply (wlp_mono _ (fun _ pw' => machine pw'.1)).
  { destruct (_ =? _); [|by apply wlp_ret]. apply wlp_bind. eapply wlp_mono; [by apply fosFileClose_machine|]. intros ? ? ?. by apply wlp_ret. }
  intros [] pw4 Hm4. apply wlp_bind. eapply wlp_mono; [apply on_table_same|]. cbv beta. intros r pw5 H5.
  apply (machine_view _ _ H5) in Hm4. apply wlp_bind, map_set_wlp. intros _. apply wlp_ret. destruct Hm4 as [M1 M2 M3]. split; cbn; [done| |done].
  intros i v [(_ & <- & _)|[_ Hv]]%list_lookup_insert_Some; [unfold INT32_MAX; lia|by eapply M2].
Qed.

Lemma getfd_same fd v pw :
  proc_ok pw.1 -> pr_map pw.1 !! Z.to_nat fd = Some v -> internal v -> wlp (__fcntl early mem kernel fd F_GETFD 0) (fun _ pw' => pw' = pw) pw.
Proof.
  intros Hp Hv Hi. unfold __fcntl. apply wlp_bind, is_internal_wlp. intros v' _ Hv'. assert (v' = v) as -> by congruence.
  rewrite (proj2 (is_int_spec v)) by done. cbn [negb]. apply wlp_bind, get_file_wlp; [done|]. intros ? a e _.
  apply wlp_bind, get_entry_wlp. intros e' _. by apply wlp_ret.
Qed.

(** The numbers stay what they are, or are closed. *)
Definition fewer (p p' : Process) : Prop :=
  forall i, pr_map p' !! i = pr_map p !! i \/ ((2 <= i)%nat /\ pr_map p' !! i = Some INT32_MAX).

Lemma fewer_trans p1 p2 p3 : fewer p1 p2 -> fewer p2 p3 -> fewer p1 p3.
Proof. intros H1 H2 i. destruct (H2 i) as [->|]; [apply H1|by right]. Qed.
Lemma fewer_mapped p p' j : fewer p p' -> mapped p' j = true -> mapped p j = true.
Proof. intros Hf. unfold mapped. destruct (Hf (Z.to_nat j)) as [->|[_ ->]]; done. Qed.

(** The process while it gives up files. *)
Record closing (R : Z * Z -> Z) (pw pw' : PW) : Prop := {
  cl_good : good R pw pw';
  cl_machine : machine pw'.1;
  cl_fewer : fewer pw.1 pw'.1
}.

Lemma close_on_exec_wlp R fd pw0 pw :
  closing R pw0 pw -> moderate R -> 2 <= fd ->
  wlp (close_on_exec early mem kernel fd) (fun _ pw' => closing R pw0 pw') pw.
Proof.
  intros Hc HR Hfd. pose proof Hc as [[Hinv Hcl] Hm Hf]. unfold close_on_exec. apply wlp_bind, is_internal_wlp. intros v _ Hv.
  destruct (is_int v) eqn:Hint; [|by apply wlp_ret]. apply is_int_spec in Hint. apply wlp_bind.
  eapply wlp_mono; [by apply (getfd_same fd v); [apply Hinv|..]|]. cbv beta. intros flags pw1 ->.
  destruct (has_flag _ _); [|by apply wlp_ret]. apply wlp_bind. eapply wlp_mono.
  { apply wlp_and; [by apply (close_int_wlp early mem kernel (fun _ => []) 0 R)|by apply close_int_machine]. }
  cbv beta. intros r pw1 [(Hinv1 & Hmap & Hcl1) Hm1]. apply wlp_ret. split; [split; [done|congruence]|done|].
  eapply fewer_trans; [exact Hf|]. intros i. rewrite Hmap. destruct (decide (Z.to_nat fd = i)) as [<-|Hne].
  - right. split; [lia|]. apply list_lookup_insert_eq. by eapply lookup_lt_Some.
  - left. by apply list_lookup_insert_ne.
Qed.

(** Another object for a descriptor. *)
Lemma machine_insert x o o' p :
  machine p -> pr_objs p !! x = Some o -> fosFileIno o' = fosFileIno o -> fosFileFd o' = fosFileFd o ->
  forall y, machine (set_pnext (y + 1) (set_objs (<[y := o']> (pr_objs p)) p)).
Proof.
  intros [H1 H2 H3] Hx Hi Hf y. split; cbn; [|done|done]. intros z q [[_ <-]|[_ Hz]]%lookup_insert_Some; [|by eapply H1].
  rewrite Hi, Hf. by eapply H1.
Qed.

Lemma flatten_machine fd pw : machine pw.1 -> wlp (fsFlattenFdInternal early mem fd) (fun _ pw' => machine pw'.1) pw.
Proof.
  intros Hm. unfold fsFlattenFdInternal. apply wlp_bind. eapply wlp_mono; [apply fdInt_same|]. cbv beta. intros n pw1 H1.
  apply wlp_bind. eapply wlp_mono; [apply get_file_same|]. cbv beta. intros a pw2 H2.
  apply wlp_bind. eapply wlp_mono; [apply on_table_same|]. cbv beta. intros e pw3 H3.
  assert (Hm3 : machine pw3.1) by (eapply machine_view; [|exact Hm]; congruence).
  destruct (1 <? num_fd e); [|by apply wlp_ret]. apply wlp_bind, get_obj_wlp. intros o Ho.
  apply wlp_bind. eapply wlp_mono; [apply on_world_same|]. cbv beta. intros rv pw4 H4. apply wlp_bind, wlp_assert. intros _.
  assert (Hm4 : machine pw4.1) by (by eapply machine_view).
  assert (Ho4 : pr_objs pw4.1 !! private_data e = Some o) by (injection H4 as -> _ _; done).
  apply wlp_bind. unfold new_obj. apply wlp_bind, wlp_gets, wlp_bind, wlp_modify, wlp_ret.
  eapply wlp_mono; [apply on_table_same|]. cbv beta. intros [] pw5 H5. eapply machine_view; [exact H5|]. cbn [fst].
  eapply machine_insert; [done|exact Ho4|by destruct (fosIsDir o), (fosIsPipe o)|by destruct (fosIsDir o), (fosIsPipe o)].
Qed.

Lemma flatten_all_machine pw : machine pw.1 -> wlp (fsFlattenFds early mem) (fun _ pw' => machine pw'.1) pw.
Proof.
  intros Hm. apply (all_internal_wlp (fun _ pw' => machine pw'.1)); [done|done|]. intros j pw' v _ Hm' _ _. by apply flatten_machine.
Qed.

(** The room for the list: it was counted when there were more numbers. *)
Lemma exec_room p0 p addrs envp :
  fewer p0 p -> env_ok envp ->
  Z.of_nat (length (fds p 0 (Z.to_nat CONFIG_FD_COUNT)) + length (addr_entries addrs 0) + length envp + 2) <=
    count_env envp + Z.of_nat (mapped_in p0 0 (Z.to_nat CONFIG_FD_COUNT)) + count_addrs addrs + 3.
Proof.
  intros Hf He. rewrite count_env_all, (count_addrs_length addrs 0) by done.
  pose proof (fds_mapped p 0 (Z.to_nat CONFIG_FD_COUNT)).
  pose proof (mapped_in_le p0 p 0 (Z.to_nat CONFIG_FD_COUNT) (fun j => fewer_mapped _ _ j Hf)). lia.
Qed.

(** The state in which the list is written. *)
Lemma exec_prepare_wlp R addrs envp pw :
  inv R pw -> moderate R -> machine pw.1 -> env_ok envp ->
  wlp (exec_prepare early mem kernel addrs envp) (fun envc pw' => closing R pw pw' /\ (forall fd, alone pw'.1 fd) /\
    Z.of_nat (length (fds pw'.1 0 (Z.to_nat CONFIG_FD_COUNT)) + length (addr_entries addrs 0) + length envp + 2) <= envc) pw.
Proof.
  intros Hinv HR Hm He. unfold exec_prepare. apply wlp_bind. eapply wlp_mono; [apply count_fds_wlp|]. cbv beta. intros c pw0 [-> ->].
  apply wlp_bind. eapply wlp_mono.
  { apply (for_fds_wlp (fun _ pw' => closing R pw pw')); [split; [by apply good_self|done|by left]|].
    intros j pw' Hj Hc. apply close_on_exec_wlp; [done|done|lia]. }
  cbv beta. intros [] pw1 [[Hinv1 Hcl1] Hm1 Hf1]. apply wlp_bind. eapply wlp_mono.
  { apply wlp_and; [by apply (flatten_all_wlp early mem R)|by apply flatten_all_machine]. }
  cbv beta. intros [] pw2 [([Hinv2 Hcl2] & Hmap2 & Hal) Hm2]. apply wlp_ret.
  assert (Hf2 : fewer pw.1 pw2.1) by (intros i; rewrite Hmap2; apply Hf1).
  split; [split; [split; [done|congruence]|done|done]|]. split; [done|]. by apply exec_room.
Qed.
End Process.

(** ** From one program to the next *)

Definition addrs_ok (addrs : list Z) : Prop := Forall (fun a => 0 <= a < 2 ^ 64) addrs /\ Z.of_nat (length addrs) <= 2 ^ 31.

(** A program before the environment is read: nothing is open, no server is known. *)
Definition new_program `{Config} (addrs : list Z) (env : list text) (im : Image) : Prop :=
  blank (im_pw im).1 /\ im_addrs im = replicate (length addrs) 0 /\ im_env im = env.

Lemma exec_env_wp `{Config} `{Env} envc addrs envp pw (Q : list text -> PW -> Prop) :
  0 <= CONFIG_FD_COUNT <= 1000 -> proc_wf pw.1 -> machine pw.1 ->
  Z.of_nat (length (fds pw.1 0 (Z.to_nat CONFIG_FD_COUNT)) + length (addr_entries addrs 0) + length envp + 2) <= envc ->
  (forall es, Forall2 is_entry (fds pw.1 0 (Z.to_nat CONFIG_FD_COUNT)) es ->
    Q (es ++ list_entry (list_text (fds pw.1 0 (Z.to_nat CONFIG_FD_COUNT)).*1) ++ [cwd_entry pw.1] ++ addr_entries addrs 0 ++ envp) pw) ->
  wp (exec_env envc addrs envp) Q pw.
Proof.
  intros Hn Hp Hm Hc HQ. unfold exec_env. apply wp_bind, exec_fds_wp; [done|done|lia|lia|]. intros es Hes. cbv beta iota.
  apply wp_bind, wp_gets. cbv zeta. set (ds := fds pw.1 0 _) in *. rewrite (proj2 (andb_true_iff _ _)); [by apply wp_ret, HQ|]. split.
  - apply Z.ltb_lt. pose proof (list_text_length ds.*1) as Hl. rewrite length_fmap in Hl.
    pose proof (fds_length pw.1 0 (Z.to_nat CONFIG_FD_COUNT)) as Hk. fold ds in Hk. lapply Hl; [lia|].
    apply Forall_forall. intros i ([j t] & -> & [Hj _]%elem_of_fds)%list_elem_of_fmap. simpl. lia.
  - apply Z.leb_le. rewrite !length_app. rewrite <- (Forall2_length _ _ _ Hes). cbn [length].
    case_bool_decide; cbn [length]; lia.
Qed.

(** ** The same files are in use *)

(** The descriptor a target stands for, where it is not a pipe. *)
Definition target_key (t : target) : option (Z * Z) :=
  match t with
  | File fd inode => if bool_decide (it_type inode = TYPE_PIPE) then None else Some (it_server inode, fd)
  | Kernel _ => None
  end.

(** Objects are of the class that their type asks for. *)
Definition well_made (p : Process) : Prop := forall x o, pr_objs p !! x = Some o -> okey o = target_key (File (fosFileFd o) (fosFileIno o)).

Lemma made_well `{Config} n p : reading n p -> well_made p.
Proof.
  intros Hr x o Ho. rewrite (rd_made _ _ Hr _ _ Ho) at 1. unfold obj_for, okey, fosIsPipe, target_key, fosFileIno.
  generalize (fosFileFd o) (match o with ODir d => ad_inode d | OPipe q => ap_inode q | OFile f => cf_inode f end).
  intros fd [sv id ty]. by destruct ty.
Qed.
Lemma plain_well `{Config} p : proc_ok p -> well_made p.
Proof.
  intros Hp x o Ho. assert (Hk : okey o <> None).
  { intros Hn. apply (po_plain _ Hp x). unfold pkeys. by rewrite lookup_fmap, Ho, <- Hn. }
  unfold okey, fosIsPipe in *. cbn. destruct o; done.
Qed.

(** The key of the file that number [j] stands for. *)
Definition view_key (p : Process) (j : nat) : option (option (Z * Z)) :=
  t ← fd_view p j; match t with File _ _ => Some (target_key t) | Kernel _ => None end.

Lemma obj_at_view p j : well_made p -> snd <$> obj_at p j = view_key p j.
Proof.
  intros Hw. unfold obj_at, view_key, fd_view, pkeys. destruct (pr_map p !! j) as [v|]; [|done]. simpl. destruct (is_int v); [|by destruct (v <? 0)].
  destruct (fd_entries (pr_table p) !! _) as [[|a|]|]; try done. simpl. destruct (heap (pr_table p) !! a) as [e|]; [|done]. simpl.
  rewrite lookup_fmap. destruct (pr_objs p !! private_data e) as [o|] eqn:Ho; [|done]. simpl. by rewrite (Hw _ _ Ho).
Qed.

Lemma used_snd kf l : used kf l = Z.of_nat (length (filter (fun k => k = Some kf) (snd <$> l))).
Proof.
  unfold used. f_equal. induction l as [|[x k] l IH]; [done|]. csimpl. rewrite !filter_cons. simpl. case_decide; simpl; by rewrite IH.
Qed.

(** Processes without shared entries whose numbers stand for the same files use
    the same descriptors. *)
Lemma same_uses `{Config} p p' :
  proc_wf p -> proc_wf p' -> (forall fd, alone p fd) -> (forall fd, alone p' fd) -> well_made p -> well_made p' ->
  (forall i, fd_view p' i = fd_view p i) -> (forall kf, uses kf (pkeys p') = uses kf (pkeys p)) /\ (plain (pkeys p) -> plain (pkeys p')).
Proof.
  intros Hp Hp' Ha Ha' Hw Hw' Hv.
  assert (Hk : forall j, snd <$> obj_at p' j = snd <$> obj_at p j) by (intros j; rewrite !obj_at_view by done; unfold view_key; by rewrite Hv).
  split.
  - intros kf. rewrite !uses_list, <- (used_perm kf _ _ (visited_all p Hp Ha)), <- (used_perm kf _ _ (visited_all p' Hp' Ha')), !used_snd.
    unfold visited. rewrite !list_fmap_omap. do 3 f_equal. apply list_omap_ext, Forall_Forall2_diag, Forall_forall. intros j _. apply Hk.
  - intros Hpl x Hx. destruct (object_number p' x None Hp' Hx) as (fd & v & a & e & Hf & <-).
    pose proof (obj_at_file _ _ _ _ _ _ Hf Hx) as Ho. specialize (Hk (Z.to_nat fd)). rewrite Ho in Hk. symmetry in Hk.
    apply fmap_Some in Hk as ([y k] & Hy & Hn). simpl in Hn. subst k. apply obj_at_inv in Hy as (v' & a' & e' & _ & _ & Hk).
    by apply (Hpl y).
Qed.

(** The whole of [exec]: the uses of descriptors stay what they were. *)
Lemma execve_wlp `{Config} `{Env} early mem kernel registered R addrs envp pw :
  (forall k, mem k = true) -> 0 <= CONFIG_FD_COUNT <= 1000 ->
  inv R pw -> moderate R -> machine pw.1 -> addrs_ok addrs -> env_ok envp ->
  wlp (__execve early mem kernel addrs envp) (fun env pw1 => forall im, new_program addrs env im -> (im_pw im).2 = pw1.2 ->
    wp (faux_init mem registered) (fun _ im' => inv R (im_pw im') /\ closed_fds (im_pw im').1 = closed_fds (im_pw im).1) im) pw.
Proof.
  intros Hmem Hn Hinv HR Hm [Ha Hl] He. unfold __execve. apply wlp_bind. eapply wlp_mono; [by apply (exec_prepare_wlp _ _ _ R)|].
  cbv beta. intros envc pw1 ([[Hinv1 _] Hm1 _] & Hal & Hc). pose proof Hinv1 as (Hp1 & Hs1 & Hb1).
  apply wp_wlp, exec_env_wp; [done|apply Hp1|done|done|]. intros es Hes im (Hb & Had & Henv) Hw.
  eapply wp_mono; [by apply (faux_init_wp mem Hmem Hn registered pw1.1 addrs envp es im); [apply Hp1|..]|]. cbv beta.
  intros [] im' [Hv _ _ _ [n Hr] Hworld Hopen]. split; [|done].
  destruct (same_uses pw1.1 (im_pw im').1) as [Hu Hpl]; [apply Hp1|apply Hr|done| |by apply plain_well|by eapply made_well|done|].
  { intros fd v a e Hf. by apply (rd_single _ _ Hr a e), Hf. }
  split; [|rewrite Hworld, Hw; split; [done|]].
  - split; [apply Hr|]. apply Hpl, Hp1.
  - intros kf. by rewrite Hu, Hb1.
Qed.
