(* ===== verification/PosixSystem.v ===== *)
(** * Processes and servers

    Any number of processes that open, duplicate, use and close files, are cloned,
    replace their programs and exit, and the descriptors the servers keep for them. *)

From S2P Require Import Prelude FsTypes BufferCache FsFile FsNode FsServer FsServerInv FsServerOps FsMarshall FsReach FsServerSpec FsDirCache FsClient FsClientSpec FsClientFile FsClientListing FsClientPipe SpaceAlloc FdTable Posix FdCounts PosixFork CText ExecEnv ExecSpec ExecProcess.

Section System.
Context `{Config} `{Env}.
Variable early : nat -> nat -> bool.
Variable mem : nat -> bool.
Variable kernel : nat -> syscall -> Z.
Variable kernel_data : nat -> list Z.
Variable fuel : nat.
Variable registered : nat -> Z.
Hypothesis kernel_int : forall n c, kernel n c < 2 ^ 31.
Hypothesis fd_count_small : 3 <= CONFIG_FD_COUNT <= 1000.
Hypothesis kernel_dup2 : forall n o new, 0 <= kernel n (SysDup2 o new) -> kernel n (SysDup2 o new) = new.
Hypothesis kernel_stores : forall n v, v ∈ kernel_data n -> 0 <= v < 2 ^ 31.

Abbreviation run_call := (run_call early mem kernel kernel_data fuel).

Record Sys : Type := mkSys { sy_world : World; sy_procs : list Process }.

(** A process that has just started, and servers nobody has called. *)
Definition fresh_process (p : Process) : Prop :=
  proc_ok p /\ (forall i v, pr_map p !! i = Some v -> ~ internal v) /\ closed_fds p = false.

(** [faux_init] makes one of a program that no other one has started. *)
Lemma first_process_fresh im :
  (forall k, mem k = true) -> blank (im_pw im).1 -> closed_fds (im_pw im).1 = false ->
  getenv (str "faux_initted") (im_env im) = None ->
  wp (faux_init mem registered) (fun _ im' => fresh_process (im_pw im').1 /\ (im_pw im').2 = (im_pw im).2) im.
Proof.
  intros Hmem Hb Hc Henv. unfold faux_init. apply wp_bind, wp_zoom, init_wp; [done|done|]. intros t Ht.
  apply wp_bind, wp_gets. cbn [im_env set_pw]. rewrite Henv. unfold start_first. apply wp_bind, wp_zoom.
  unfold init_first, fdSetExternal. destruct Hb as (_ & Ho & Hnext & _). apply wp_bind, wp_modify.
  do 2 (apply wp_bind, pw_map_set_wp; [cbn; rewrite ?length_insert, length_replicate; lia|]).
  apply pw_map_set_wp; [cbn; rewrite ?length_insert, length_replicate; lia|].
  apply wp_bind, wp_modify, wp_modify. cbn. split; [|done].
  assert (Hm : forall i v, (<[2%nat := i32 (-3)]> (<[1%nat := i32 (-2)]> (<[0%nat := i32 (-1)]>
      (replicate (Z.to_nat CONFIG_FD_COUNT) INT32_MAX)))) !! i = Some v -> ~ internal v).
  { intros i v Hi. assert (v = i32 (-3) \/ v = i32 (-2) \/ v = i32 (-1) \/ v = INT32_MAX) as Hv.
    { repeat (apply list_lookup_insert_Some in Hi as [(_ & <- & _)|[_ Hi]]; [tauto|]).
      apply lookup_replicate_1 in Hi as [-> _]. tauto. }
    unfold internal. destruct Hv as [-> |[-> |[-> | ->]]]; vm_compute; intuition congruence. }
  split; [|by split]. apply (proc_ok_started t); try done. cbn. by rewrite !length_insert, length_replicate.
Qed.

Definition idle (w : World) : Prop :=
  forall k s, w_servers w !! k = Some s -> m_fds s = ∅ /\ i32 (s_id s) = Z.of_nat k.

(** Processes call in any order; a clone adds one.  There are at most [2^25].  Where
    a process replaces its program, [im] is the new program when it begins.  The calls
    that need a free slot find one, and are [lucky]; a process that replaces its program
    has numbers of their types, and enough memory. *)
Inductive psys_reach : Sys -> Prop :=
| ps_start w p : fresh_process p -> idle w -> psys_reach (mkSys w [p])
| ps_call w ps i p c r p' w' :
    psys_reach (mkSys w ps) -> ps !! i = Some p -> closed_fds p = false ->
    (needs_room c -> room (pr_table p)) -> run_call c (p, w) = Done r (p', w') -> lucky c (p, w) r (p', w') ->
    psys_reach (mkSys w' (<[i := p']> ps))
| ps_clone w ps i p ch child p' w' :
    psys_reach (mkSys w ps) -> ps !! i = Some p -> closed_fds p = false -> Z.of_nat (length ps) < 2 ^ 25 ->
    __clone early mem ch (p, w) = Done child (p', w') -> psys_reach (mkSys w' (<[i := p']> ps ++ [child]))
| ps_exec w ps i p addrs envp env p1 im im' :
    psys_reach (mkSys w ps) -> ps !! i = Some p -> closed_fds p = false -> machine p -> addrs_ok addrs -> env_ok envp ->
    (forall k, mem k = true) -> __execve early mem kernel addrs envp (p, w) = Done env (p1, (im_pw im).2) ->
    new_program addrs env im -> closed_fds (im_pw im).1 = false -> faux_init mem registered im = Done tt im' ->
    psys_reach (mkSys (im_pw im').2 (<[i := (im_pw im').1]> ps))
| ps_exit w ps i p p' w' :
    psys_reach (mkSys w ps) -> ps !! i = Some p -> closed_fds p = false ->
    __exit_group early kernel (p, w) = Done tt (p', w') -> psys_reach (mkSys w' (<[i := p']> ps)).

Definition total (kf : Z * Z) (ps : list Process) : Z := zsum (fun p => uses kf (pkeys p)) ps.

Record psys_ok (y : Sys) : Prop := {
  sk_procs p : p ∈ sy_procs y -> proc_ok p /\ (closed_fds p = true -> pkeys p = ∅);
  sk_servers : servers_ok (wview (sy_world y));
  sk_total kf : cnt (wview (sy_world y)) kf = total kf (sy_procs y);
  sk_length : Z.of_nat (length (sy_procs y)) <= 2 ^ 25
}.

Lemma total_bound kf ps : (forall p, p ∈ ps -> proc_ok p) -> 0 <= total kf ps <= 32 * Z.of_nat (length ps).
Proof.
  intros Hps. induction ps as [|p ps IH]; [done|]. unfold total in *. cbn [zsum foldr length].
  pose proof (uses_nonneg kf (pkeys p)). pose proof (uses_le kf (pkeys p)). pose proof (proc_bound p (Hps p ltac:(left))).
  specialize (IH ltac:(intros q Hq; apply Hps; by right)). unfold zsum in IH. lia.
Qed.

Lemma total_snoc kf ps p : total kf (ps ++ [p]) = total kf ps + uses kf (pkeys p).
Proof. unfold total, zsum. induction ps as [|q ps IH]; cbn [app foldr]; [lia|]. rewrite IH. lia. Qed.

Lemma total_delete kf ps i p : ps !! i = Some p -> total kf ps = total kf (delete i ps) + uses kf (pkeys p).
Proof.
  unfold total, zsum. revert i. induction ps as [|q ps IH]; intros [|i] Hi; simplify_eq/=; [lia|]. rewrite (IH i Hi). lia.
Qed.

(** One process at a time. *)
Lemma sys_focus w ps i p :
  psys_ok (mkSys w ps) -> ps !! i = Some p ->
  inv (fun kf => total kf (delete i ps)) (p, w) /\ forall kf, 0 <= total kf (delete i ps) < 2 ^ 31 - 128.
Proof.
  intros [Hps Hs Ht Hl] Hi. simpl in *. split.
  - split; [apply Hps; by apply list_elem_of_lookup; exists i|]. split; [done|]. intros kf. simpl. rewrite Ht. by apply total_delete.
  - intros kf. pose proof (total_bound kf (delete i ps)) as Hb. rewrite length_delete in Hb by by eexists.
    destruct Hb; [|lia]. intros q Hq. apply Hps. by eapply elem_of_submseteq, submseteq_delete.
Qed.

Lemma sys_refocus w ps i p p' w' :
  psys_ok (mkSys w ps) -> ps !! i = Some p -> inv (fun kf => total kf (delete i ps)) (p', w') ->
  (closed_fds p' = true -> pkeys p' = ∅) -> psys_ok (mkSys w' (<[i := p']> ps)).
Proof.
  intros [Hps Hs Ht Hl] Hi (Hp' & Hs' & Hb') Hc. simpl in *. pose proof (lookup_lt_Some _ _ _ Hi). split; simpl; [|done| |by rewrite length_insert].
  - intros q Hq. apply list_elem_of_lookup in Hq as [j [(_ & -> & _)|[_ Hj]]%list_lookup_insert_Some]; [done|].
    apply Hps. apply list_elem_of_lookup. by exists j.
  - intros kf. rewrite Hb'. simpl. pose proof (total_delete kf ps i p Hi) as Hd. unfold total in *.
    rewrite (zsum_insert _ _ _ p) by done. lia.
Qed.

Lemma sys_start w p : fresh_process p -> idle w -> psys_ok (mkSys w [p]).
Proof.
  intros (Hp & Hm & Hc) Hw. assert (Hk : pkeys p = ∅) by (apply no_files; [apply Hp|done]).
  assert (Hv : forall k sid c, wview w !! k = Some (sid, c) -> c = ∅ /\ i32 sid = Z.of_nat k).
  { intros k sid c (s & ? & Hs)%list_lookup_fmap_Some. simplify_eq. destruct (Hw k s Hs) as [Hf Hid].
    split; [|done]. unfold counts. by rewrite Hf, fmap_empty. }
  split; simpl; [| | |lia].
  - by intros q ->%list_elem_of_singleton.
  - split.
    + intros k sid c Hs. by apply (Hv k sid c).
    + intros k sid c fd n Hs Hn. destruct (Hv k sid c Hs) as [-> _]. done.
  - intros kf. unfold total. simpl. rewrite Hk, uses_empty. unfold cnt. destruct (_ <? 0); [done|].
    destruct (wview w !! _) as [[sid c]|] eqn:Hs; [|done]. by destruct (Hv _ _ _ Hs) as [-> _].
Qed.

Lemma fd_count_int : CONFIG_FD_COUNT <= 2 ^ 31.
Proof. lia. Qed.

Lemma sys_reach_ok y : psys_reach y -> psys_ok y.
Proof.
  induction 1 as [w p Hp Hw|w ps i p c r p' w' _ IH Hi Hcl Hroom Hrun Hl|w ps i p ch child p' w' _ IH Hi Hcl Hlen Hrun
    |w ps i p addrs envp env p1 im im' _ IH Hi Hcl Hm Ha He Hmem Hrun Hnew Hop Hinit
    |w ps i p p' w' _ IH Hi Hcl Hrun]; [by apply sys_start|..];
    destruct (sys_focus _ _ _ _ IH Hi) as [Hinv HR];
    assert (HR' : moderate (fun kf => total kf (delete i ps))) by (intros kf; specialize (HR kf); lia).
  - pose proof (run_call_wlp early mem kernel kernel_data fuel kernel_int fd_count_int kernel_dup2 kernel_stores _ c (p, w) Hinv HR' Hroom) as Hw. rewrite wlp_Done in Hw.
    destruct (Hw _ _ Hrun Hl) as [Hinv' Hc']. apply (sys_refocus w _ _ p); [done|done|done|]. simpl in Hc'. congruence.
  - pose proof (clone_wlp early mem _ ch (p, w) Hinv HR) as Hw. rewrite wlp_Done in Hw.
    destruct (Hw _ _ Hrun) as (Hch & Hcc & (Hp' & Hs' & Hb') & Hc'). simpl in *. destruct IH as [Hps Hs Ht Hln].
    pose proof (lookup_lt_Some _ _ _ Hi). split; simpl; [|done| |].
    + intros q [Hq| ->%list_elem_of_singleton]%elem_of_app; [|split; [done|congruence]].
      apply list_elem_of_lookup in Hq as [j [(_ & -> & _)|[_ Hj]]%list_lookup_insert_Some]; [split; [done|congruence]|].
      apply Hps. apply list_elem_of_lookup. by exists j.
    + intros kf. rewrite Hb', total_snoc. pose proof (total_delete kf ps i p Hi) as Hd. unfold total in *.
      rewrite (zsum_insert _ _ _ p) by done. lia.
    + rewrite length_app, length_insert. simpl. lia.
  - assert (Hn : 0 <= CONFIG_FD_COUNT <= 1000) by lia.
    pose proof (execve_wlp early mem kernel registered _ addrs envp (p, w) Hmem Hn Hinv HR' Hm Ha He) as Hw. rewrite wlp_Done in Hw.
    pose proof (Hw _ _ Hrun im Hnew eq_refl) as Hi'. unfold wp in Hi'. rewrite Hinit in Hi'. destruct Hi' as [Hinv' Hc'].
    apply (sys_refocus w _ _ p); [done|done|by destruct (im_pw im')|]. rewrite Hc', Hop. done.
  - pose proof (exit_wlp early mem kernel kernel_data fuel _ (p, w) Hinv HR' Hcl) as Hw. rewrite wlp_Done in Hw.
    destruct (Hw _ _ Hrun) as (Hinv' & Hk & _). by apply (sys_refocus w _ _ p).
Qed.

Lemma cnt_live w k fd :
  cnt (wview w) (k, fd) <> 0 -> exists s d, w_servers w !! Z.to_nat k = Some s /\ m_fds s !! fd = Some d.
Proof.
  unfold cnt, wview. simpl. destruct (k <? 0); [done|]. rewrite list_lookup_fmap.
  destruct (w_servers w !! Z.to_nat k) as [s|]; [|done]. simpl. unfold counts. rewrite lookup_fmap.
  destruct (m_fds s !! fd) as [d|] eqn:Hd; [|done]. intros _. by exists s, d.
Qed.

End System.

(** ** A run

    A process opens a file, duplicates the number and is cloned; the child exits,
    and then the parent closes both numbers and exits too. *)

Definition no_kernel (_ : nat) (_ : syscall) : Z := -1.
Definition no_data (_ : nat) : list Z := [].
Definition addr_of (i : nat) : Z := 4096 + Z.of_nat i.
Definition blank_process : Process :=
  mkProcess blank_table (replicate 256 0) ∅ 1 7 false false false root_dir true 0.
Definition demo_image (env : list text) (w : World) : Image := mkImage (blank_process, w) env [0; 0] [9; 9; 9].
Definition demo_process : Process :=
  match @faux_init small_config always addr_of (demo_image [] demo_world) with Done _ im => (im_pw im).1 | _ => blank_process end.
Abbreviation demo_reach := (@psys_reach small_config plain_env late always no_kernel no_data 9 addr_of).

Definition do_call (c : call) (i : nat) (y : Sys) : Sys :=
  match sy_procs y !! i with
  | Some p =>
      match @run_call small_config plain_env late always no_kernel no_data 9 c (p, sy_world y) with
      | Done _ (p', w') => mkSys w' (<[i := p']> (sy_procs y))
      | _ => y
      end
  | None => y
  end.
Definition do_clone (ch : Z) (i : nat) (y : Sys) : Sys :=
  match sy_procs y !! i with
  | Some p =>
      match @__clone small_config plain_env late always ch (p, sy_world y) with
      | Done child (p', w') => mkSys w' (<[i := p']> (sy_procs y) ++ [child])
      | _ => y
      end
  | None => y
  end.
Definition do_exit (i : nat) (y : Sys) : Sys :=
  match sy_procs y !! i with
  | Some p =>
      match @__exit_group small_config plain_env late no_kernel (p, sy_world y) with
      | Done _ (p', w') => mkSys w' (<[i := p']> (sy_procs y))
      | _ => y
      end
  | None => y
  end.

Definition demo_addrs : list Z := [0; 4660].
Definition demo_envp : list text := [str "faux_initted=true"; str "PATH=/bin"].
Definition do_exec (i : nat) (y : Sys) : Sys :=
  match sy_procs y !! i with
  | Some p =>
      match @__execve small_config plain_env late always no_kernel demo_addrs demo_envp (p, sy_world y) with
      | Done env (_, w1) =>
          match @faux_init small_config always addr_of (demo_image env w1) with
          | Done _ im' => mkSys (im_pw im').2 (<[i := (im_pw im').1]> (sy_procs y))
          | _ => y
          end
      | _ => y
      end
  | None => y
  end.

Lemma fresh_check (p p' : Process) w w' x k :
  pkeys p' = <[x := Some k]> (pkeys p) -> pkeys p !! x = None -> cnt (wview w) k = 0 -> fresh_open (p, w) (p', w').
Proof.
  intros Hk Hx Hc kf. simpl. rewrite Hk, uses_insert by done. unfold one. case_decide; [by subst|lia].
Qed.

Lemma do_call_reach c i y p r p' w' :
  demo_reach y -> sy_procs y !! i = Some p -> closed_fds p = false -> (needs_room c -> room (pr_table p)) ->
  @run_call small_config plain_env late always no_kernel no_data 9 c (p, sy_world y) = Done r (p', w') ->
  lucky c (p, sy_world y) r (p', w') -> demo_reach (do_call c i y).
Proof.
  intros Hy Hi Hc Hroom Hrun Hl. unfold do_call. rewrite Hi, Hrun. destruct y as [w ps]. by eapply ps_call.
Qed.
Lemma do_clone_reach ch i y p child p' w' :
  demo_reach y -> sy_procs y !! i = Some p -> closed_fds p = false -> Z.of_nat (length (sy_procs y)) < 2 ^ 25 ->
  @__clone small_config plain_env late always ch (p, sy_world y) = Done child (p', w') -> demo_reach (do_clone ch i y).
Proof. intros Hy Hi Hc Hl Hrun. unfold do_clone. rewrite Hi, Hrun. destruct y as [w ps]. by eapply ps_clone. Qed.
Lemma do_exit_reach i y p p' w' :
  demo_reach y -> sy_procs y !! i = Some p -> closed_fds p = false ->
  @__exit_group small_config plain_env late no_kernel (p, sy_world y) = Done tt (p', w') -> demo_reach (do_exit i y).
Proof. intros Hy Hi Hc Hrun. unfold do_exit. rewrite Hi, Hrun. destruct y as [w ps]. by eapply ps_exit. Qed.

(** Whether the numbers of a process have the widths of their types. *)
Definition inode_check (i : InodeType) : bool :=
  (- 2 ^ 31 <=? it_server i) && (it_server i <? 2 ^ 31) && (0 <=? it_id i) && (it_id i <? 2 ^ 64).
Definition machine_check (p : Process) : bool :=
  forallb (fun xo => inode_check (fosFileIno (snd xo)) && (0 <=? fosFileFd (snd xo)) && (fosFileFd (snd xo) <? 2 ^ 64))
    (map_to_list (pr_objs p)) &&
  forallb (fun v => (- 2 ^ 31 <=? v) && (v <? 2 ^ 31)) (pr_map p) && inode_check (g_cwd_inode p).
Lemma inode_check_ok i : inode_check i = true -> machine_inode i.
Proof. unfold inode_check, machine_inode. lia. Qed.
Lemma machine_checked p : machine_check p = true -> machine p.
Proof.
  unfold machine_check. rewrite !andb_true_iff, !forallb_forall. intros [[Ho Hm] Hc]. split.
  - intros x o Hx. specialize (Ho (x, o)). rewrite !andb_true_iff in Ho. destruct Ho as [[Hi H1] H2].
    { by apply list_elem_of_In, elem_of_map_to_list. }
    simpl in *. split; [by apply inode_check_ok|lia].
  - intros i v Hi. specialize (Hm v). rewrite andb_true_iff in Hm. destruct Hm; [|lia]. apply list_elem_of_In, list_elem_of_lookup. by exists i.
  - by apply inode_check_ok.
Qed.
Lemma demo_env_ok : env_ok demo_envp /\ addrs_ok demo_addrs.
Proof.
  split; [split; [|by vm_compute]|split; [by repeat constructor|done]].
  repeat constructor; try (vm_compute; reflexivity); apply (list_elem_of_lookup_2 _ 12) || apply (list_elem_of_lookup_2 _ 4); reflexivity.
Qed.

Lemma do_exec_reach i y p env p1 w1 im' :
  demo_reach y -> sy_procs y !! i = Some p -> closed_fds p = false -> machine_check p = true ->
  @__execve small_config plain_env late always no_kernel demo_addrs demo_envp (p, sy_world y) = Done env (p1, w1) ->
  @faux_init small_config always addr_of (demo_image env w1) = Done tt im' -> demo_reach (do_exec i y).
Proof.
  intros Hy Hi Hc Hm Hrun Hinit. unfold do_exec. rewrite Hi, Hrun, Hinit. destruct y as [w ps]. destruct demo_env_ok as [He Ha].
  assert (Hnew : @new_program small_config demo_addrs env (demo_image env w1)) by exact (conj (conj eq_refl (conj eq_refl (conj eq_refl eq_refl))) (conj eq_refl eq_refl)).
  exact (@ps_exec small_config plain_env late always no_kernel no_data 9 addr_of w ps i p demo_addrs demo_envp env p1 (demo_image env w1) im'
    Hy Hi Hc (machine_checked p Hm) Ha He (fun _ => eq_refl) Hrun Hnew eq_refl Hinit).
Qed.

Lemma demo_start : demo_reach (mkSys demo_world [demo_process]).
Proof.
  apply ps_start.
  - assert (Hn : 3 <= @CONFIG_FD_COUNT small_config <= 1000) by (split; vm_compute; discriminate).
    pose proof (@first_process_fresh small_config late always 9 addr_of Hn (demo_image [] demo_world)) as Hw. unfold demo_process.
    destruct (proj1 (wp_Done _ _ _) (Hw (fun _ => eq_refl) (conj eq_refl (conj eq_refl (conj eq_refl eq_refl))) eq_refl eq_refl))
      as ([] & im & E & Hp & _). rewrite E. exact Hp.
  - intros k s Hk. do 3 (destruct k as [|k]; [vm_compute in Hk; simplify_eq; split; by vm_compute|]). done.
Qed.

Definition demo_open : Sys := do_call (COpenat AT_FDCWD "/f" (Z.lor O_CREAT O_RDWR) 420) 0 (mkSys demo_world [demo_process]).
Definition demo_dup : Sys := do_call (CDup 3) 0 demo_open.
Definition demo_cloned : Sys := do_clone 8 0 demo_dup.
Definition demo_exec : Sys := do_exec 1 demo_cloned.
Definition demo_end : Sys := do_exit 0 (do_call (CClose 3) 0 (do_exit 1 demo_exec)).

Ltac run := vm_compute; reflexivity.
Lemma demo_open_reach : demo_reach demo_open.
Proof.
  eapply do_call_reach; [exact demo_start|run|run| |run|].
  - intros _. exists 5. split; [lia|]. vm_compute. done.
  - split; [|by vm_compute]. eapply (fresh_check _ _ _ _ 1 (0, 1010)); run.
Qed.
Lemma demo_dup_reach : demo_reach demo_dup.
Proof.
  eapply do_call_reach; [exact demo_open_reach|run|run| |run|exact Logic.I].
  intros _. exists 5. split; [lia|]. vm_compute. discriminate.
Qed.
Lemma demo_cloned_reach : demo_reach demo_cloned.
Proof. eapply do_clone_reach; [exact demo_dup_reach|run|run|run|run]. Qed.
Lemma demo_exec_reach : demo_reach demo_exec.
Proof. eapply do_exec_reach; [exact demo_cloned_reach|run|run|run|run|run]. Qed.
Lemma demo_end_reach : demo_reach demo_end.
Proof.
  eapply do_exit_reach; [|run|run|run]. eapply do_call_reach; [|run|run|intros []|run|exact Logic.I].
  eapply do_exit_reach; [exact demo_exec_reach|run|run|run].
Qed.

Lemma forgotten (l : list Server) :
  (forall s, s ∈ l -> m_fds s = ∅) -> length l = 3%nat -> m_fds <$> l = [∅; ∅; ∅].
Proof.
  intros Hall Hl. destruct l as [|a [|b [|c [|d l]]]]; try discriminate Hl. cbn.
  rewrite (Hall a), (Hall b), (Hall c) by set_solver. done.
Qed.


(** ** A new program *)

Section Inherit.
Context `{Config} `{Env}.
Variable mem : nat -> bool.
Hypothesis mem_all : forall k, mem k = true.
Hypothesis fd_count_small : 0 <= CONFIG_FD_COUNT <= 1000.
Variable registered : nat -> Z.

(** C5: A program that is replaced hands everything on: each number that stands for a
    file of the servers or for a file of the kernel stands for the same file in the new
    program, every other number is free; the current directory and the addresses of
    the servers are the same, and of what was added to the environment only the
    directory is left.  The numbers were counted before some were closed, in the
    state [pw0].  Neither program overruns a buffer, reads a value that was not
    found, or fails an assertion on the way. *)
Theorem exec_passes_descriptors nfds pw0 addrs envp pw :
  count_fds (Z.to_nat CONFIG_FD_COUNT) 0 pw0 = Done nfds pw0 -> fewer pw0.1 pw.1 ->
  proc_wf pw.1 -> machine pw.1 -> addrs_ok addrs -> env_ok envp ->
  wp (exec_env (count_env envp + nfds + count_addrs addrs + 3) addrs envp) (fun env pw' => pw' = pw /\
    forall im, new_program addrs env im -> wp (faux_init mem registered) (fun _ => inherited pw.1 addrs envp im) im) pw.
Proof.
  intros Hc Hf Hp Hm [Ha Hl] He. pose proof (count_fds_wlp (Z.to_nat CONFIG_FD_COUNT) 0 pw0) as Hw. rewrite wlp_Done in Hw.
  destruct (Hw _ _ Hc) as [_ ->]. apply exec_env_wp; [done|done|done|by apply exec_room|]. intros es Hes. split; [done|].
  intros im (Hb & Had & Henv). by apply (faux_init_wp mem mem_all fd_count_small registered pw.1 addrs envp es).
Qed.
End Inherit.

(** The process of the run above, with two numbers for one file. *)
Definition demo_parent : Process := default blank_process (sy_procs demo_dup !! 0%nat).

Lemma demo_parent_wf : @proc_wf small_config demo_parent.
Proof.
  assert (Hk : forall n c, no_kernel n c < 2 ^ 31) by (intros; unfold no_kernel; lia).
  assert (Hd : forall n o new, 0 <= no_kernel n (SysDup2 o new) -> no_kernel n (SysDup2 o new) = new)
    by (intros n o new; unfold no_kernel; lia).
  assert (Hn : 3 <= @CONFIG_FD_COUNT small_config <= 1000) by (split; vm_compute; discriminate).
  assert (Hs : forall n v, v ∈ no_data n -> 0 <= v < 2 ^ 31) by (intros n v Hv; by apply elem_of_nil in Hv).
  pose proof (@sys_reach_ok small_config plain_env late always no_kernel no_data 9 addr_of Hk Hn Hd Hs demo_dup demo_dup_reach) as Hok.
  apply (sk_procs _ Hok). apply (list_elem_of_lookup_2 _ 0). run.
Qed.

(** The numbers 3 and 4 stand for the file in the new program. *)
Lemma exec_passes_descriptors_witness :
  exists env im', @exec_env small_config (count_env demo_envp + 5 + count_addrs demo_addrs + 3) demo_addrs demo_envp (demo_parent, sy_world demo_dup) = Done env (demo_parent, sy_world demo_dup) /\
    @faux_init small_config always addr_of (demo_image env (sy_world demo_dup)) = Done tt im' /\
    @inherited small_config demo_parent demo_addrs demo_envp (demo_image env (sy_world demo_dup)) im' /\
    fd_view (im_pw im').1 4 = fd_view demo_parent 3 /\ fd_view demo_parent 3 <> None.
Proof.
  assert (Hn : 0 <= @CONFIG_FD_COUNT small_config <= 1000) by (split; vm_compute; discriminate).
  assert (Hc : @count_fds (Z.to_nat (@CONFIG_FD_COUNT small_config)) 0 (demo_parent, sy_world demo_dup) = Done 5 (demo_parent, sy_world demo_dup)) by run.
  assert (Hm : machine demo_parent) by (apply machine_checked; run). destruct demo_env_ok as [He Ha].
  pose proof (@exec_passes_descriptors small_config plain_env always (fun _ => eq_refl) Hn addr_of 5 (demo_parent, sy_world demo_dup) demo_addrs demo_envp
    (demo_parent, sy_world demo_dup) Hc (fun i => or_introl eq_refl) demo_parent_wf Hm Ha He) as Hw.
  destruct (proj1 (wp_Done _ _ _) Hw) as (env & pw' & E & -> & Hnext).
  assert (Hnew : @new_program small_config demo_addrs env (demo_image env (sy_world demo_dup)))
    by exact (conj (conj eq_refl (conj eq_refl (conj eq_refl eq_refl))) (conj eq_refl eq_refl)).
  destruct (proj1 (wp_Done _ _ _) (Hnext _ Hnew)) as (u & im' & E' & Hi). destruct u.
  assert (H3 : fd_view demo_parent 3 = fd_view demo_parent 4) by run.
  assert (H4 : bool_decide (fd_view demo_parent 3 = None) = false) by run. apply bool_decide_eq_false in H4.
  exists env, im'. split; [exact E|]. split; [exact E'|]. split; [exact Hi|]. split; [|exact H4].
  rewrite H3. apply (ih_fds _ _ _ _ _ Hi).
Defined.
