(* ===== verification/Lock.v ===== *)
(** * Locks

    [libs/utilities/lock.c] over the spin lock of
    [libs/utilities/include/arch/x86_64/arch_spinlock.h]: any number of threads
    take their steps in any order. *)

From S2P Require Import Prelude.

(** ** Threads

    A step is one access to the shared memory: one locked instruction on the byte
    [slock], or one load or store of [num_readers].  Those of [num_readers] happen
    only while the spin lock is held, so that the order in which the processor
    makes them visible does not matter. *)

(** The functions a thread calls. *)
Inductive call : Type := TryRead | AcquireRead | ReleaseRead | TryWrite | AcquireWrite | ReleaseWrite.

(** Where a thread is: outside of the lock, at the [decb] of the spin lock, in its
    waiting loop, with the spin lock before the load, before the store and before
    the unlock, and between the calls as a reader or as the writer. *)
Inductive pc : Type :=
  | Idle
  | Spin (c : call)
  | Wait (c : call)
  | Load (c : call)
  | Store (c : call) (v : Z)
  | Unlock (c : call)
  | Reading
  | Writing.

Definition i8 (z : Z) : Z := (z + 2 ^ 7) mod 2 ^ 8 - 2 ^ 7.

(** The shared memory: the byte of the spin lock and the count. *)
Record FosReaderWriterLock : Type := mkRWLock { num_readers : Z; slock : Z }.

Definition FOS_RWLOCK_UNLOCKED : FosReaderWriterLock := mkRWLock 0 1.

Definition fosRWLockInit (_ : FosReaderWriterLock) : FosReaderWriterLock := FOS_RWLOCK_UNLOCKED.

(** [_raw_spin_trylock], [_raw_spin_lock] and [_raw_spin_unlock]: the value of
    the byte afterwards and whether the instruction took the lock. *)
Definition spin_trylock (l : Z) : Z * bool := (0, 0 <? l).
Definition spin_decb (l : Z) : Z * bool := (i8 (l - 1), 0 <=? i8 (l - 1)).
Definition spin_unlock (_ : Z) : Z := 1.

(** ** Steps *)

(** The start of a call. *)
Definition begin_call (c : call) (m : FosReaderWriterLock) (p : pc) : option (FosReaderWriterLock * pc) :=
  match p, c with
  | Idle, (AcquireRead | AcquireWrite) => Some (m, Spin c)
  | Idle, (TryRead | TryWrite) =>
      let '(l, ok) := spin_trylock (slock m) in
      Some (mkRWLock (num_readers m) l, if ok then Load c else Idle)
  | Reading, ReleaseRead => Some (m, Spin c)
  | Writing, ReleaseWrite => Some (mkRWLock (num_readers m) (spin_unlock (slock m)), Idle)
  | _, _ => None
  end.

(** What follows the unlock at the end of the calls; [fosRWLockAcquireWrite] goes
    round its loop, as it comes there only with readers pending. *)
Definition after_unlock (c : call) : pc :=
  match c with
  | AcquireRead | TryRead => Reading
  | AcquireWrite => Spin AcquireWrite
  | ReleaseRead | TryWrite | ReleaseWrite => Idle
  end.

(** What the calls do with the count once they have the spin lock. *)
Definition with_lock (c : call) (readers : Z) : pc :=
  match c with
  | AcquireRead | TryRead => Store c (i32 (readers + 1))
  | ReleaseRead => Store c (i32 (readers - 1))
  | AcquireWrite | TryWrite | ReleaseWrite => if readers =? 0 then Writing else Unlock c
  end.

Definition thread_step (c : call) (m : FosReaderWriterLock) (p : pc) : option (FosReaderWriterLock * pc) :=
  match p with
  | Idle | Reading | Writing => begin_call c m p
  | Spin c => let '(l, ok) := spin_decb (slock m) in Some (mkRWLock (num_readers m) l, if ok then Load c else Wait c)
  | Wait c => Some (m, if slock m <=? 0 then Wait c else Spin c)
  | Load c => Some (m, with_lock c (num_readers m))
  | Store c v => Some (mkRWLock v (slock m), Unlock c)
  | Unlock c => Some (mkRWLock (num_readers m) (spin_unlock (slock m)), after_unlock c)
  end.

(** All threads. *)
Record world : Type := mkWorld { memory : FosReaderWriterLock; threads : list pc }.

Definition step (i : nat) (c : call) (s : world) : option world :=
  p ← threads s !! i;
  '(m, p') ← thread_step c (memory s) p;
  Some (mkWorld m (<[i := p']> (threads s))).

Definition start (n : nat) : world := mkWorld FOS_RWLOCK_UNLOCKED (replicate n Idle).

Inductive steps : world -> world -> Prop :=
  | steps_refl s : steps s s
  | steps_cons i c s s' s'' : step i c s = Some s' -> steps s' s'' -> steps s s''.

Fixpoint run (l : list (nat * call)) (s : world) : option world :=
  match l with [] => Some s | (i, c) :: l' => s' ← step i c s; run l' s' end.

(** ** Counting threads *)

(** Whether a thread has the spin lock, waits for it, is counted in
    [num_readers]. *)
Definition holding (p : pc) : Z := match p with Load _ | Store _ _ | Unlock _ | Writing => 1 | _ => 0 end.
Definition waiting (p : pc) : Z := match p with Wait _ => 1 | _ => 0 end.
Definition counted (p : pc) : Z :=
  match p with
  | Reading | Spin ReleaseRead | Wait ReleaseRead | Load ReleaseRead | Store ReleaseRead _
  | Unlock AcquireRead | Unlock TryRead => 1
  | _ => 0
  end.

Fixpoint tally (f : pc -> Z) (l : list pc) : Z := match l with [] => 0 | p :: l' => f p + tally f l' end.

Lemma tally_insert f l i p p' : l !! i = Some p -> tally f (<[i := p']> l) = tally f l - f p + f p'.
Proof.
  revert i. induction l as [|q l IH]; intros [|i] Hi; simplify_eq/=; [lia|]. rewrite IH by done. lia.
Qed.

Section Tally.
Variable f : pc -> Z.
Hypothesis Hf : forall p, 0 <= f p <= 1.
Hypothesis Hidle : f Idle = 0.

Lemma tally_bounds l : 0 <= tally f l <= Z.of_nat (length l).
Proof using Hf. induction l as [|p l IH]; simpl; [lia|]. specialize (Hf p). lia. Qed.

Lemma tally_ge l i p : l !! i = Some p -> f p <= tally f l.
Proof using All.
  intros Hi. pose proof (tally_insert f l i p Idle Hi). pose proof (tally_bounds (<[i := Idle]> l)). lia.
Qed.

Lemma tally_two l i j p q : i <> j -> l !! i = Some p -> l !! j = Some q -> f p + f q <= tally f l.
Proof using All.
  intros Hij Hi Hj. pose proof (tally_insert f l i p Idle Hi).
  assert (Hj' : <[i := Idle]> l !! j = Some q) by by rewrite list_lookup_insert_ne.
  pose proof (tally_ge _ j q Hj'). lia.
Qed.

Lemma tally_idle n : tally f (replicate n Idle) = 0.
Proof using Hidle. induction n as [|n IH]; simpl; [done|]. by rewrite IH, Hidle. Qed.

Lemma tally_zero l i p : tally f l = 0 -> l !! i = Some p -> f p = 0.
Proof using All. intros Hz Hi. pose proof (tally_ge l i p Hi). pose proof (Hf p). lia. Qed.

Lemma tally_pos l : 0 < tally f l -> exists i p, l !! i = Some p /\ f p = 1.
Proof using Hf.
  induction l as [|q l IH]; simpl; intros Hp; [lia|]. pose proof (Hf q). destruct (decide (f q = 1)).
  - by exists 0%nat, q.
  - destruct IH as (i & p & Hi & Hp'); [lia|]. by exists (S i), p.
Qed.
End Tally.

Lemma tally_add f g l : tally (fun p => f p + g p) l = tally f l + tally g l.
Proof. induction l as [|p l IH]; simpl; [done|]. lia. Qed.

Lemma holding_01 p : 0 <= holding p <= 1.
Proof. destruct p; simpl; lia. Qed.
Lemma waiting_01 p : 0 <= waiting p <= 1.
Proof. destruct p; simpl; lia. Qed.
Lemma counted_01 p : 0 <= counted p <= 1.
Proof. destruct p as [|c|c|c|c v|c| |]; simpl; try destruct c; lia. Qed.

(** ** The invariant *)

(** The value a thread is about to store. *)
Definition store_ok (readers : Z) (p : pc) : Prop :=
  match p with
  | Store (AcquireRead | TryRead) v => v = readers + 1
  | Store ReleaseRead v => v = readers - 1
  | Store _ _ => False
  | _ => True
  end.

(** The byte never leaves its range as long as there are at most 129 threads:
    every thread in the waiting loop has decremented it at most once since it was
    last set. *)
Record lock_ok (s : world) : Prop := {
  lk_few : Z.of_nat (length (threads s)) <= 129;
  lk_free : tally holding (threads s) = 0 -> slock (memory s) = 1;
  lk_held : tally holding (threads s) <> 0 ->
    tally holding (threads s) = 1 /\ - tally waiting (threads s) <= slock (memory s) <= 0;
  lk_count : num_readers (memory s) = tally counted (threads s);
  lk_store i p : threads s !! i = Some p -> store_ok (num_readers (memory s)) p;
  lk_writer i : threads s !! i = Some Writing -> tally counted (threads s) = 0
}.

Lemma lock_ok_start n : (n <= 129)%nat -> lock_ok (start n).
Proof.
  intros Hn. unfold start. split; simpl; rewrite ?length_replicate, ?tally_idle by done; [lia|done|done|done| |].
  - intros i p Hi. by apply lookup_replicate_1 in Hi as [-> _].
  - intros i Hi. by apply lookup_replicate_1 in Hi as [? _].
Qed.

(** A step of a thread that leaves the count as it is. *)
Lemma step_memory s i p p' l :
  lock_ok s -> threads s !! i = Some p -> counted p' = counted p -> store_ok (num_readers (memory s)) p' ->
  (p' = Writing -> tally counted (threads s) = 0) ->
  (tally holding (threads s) - holding p + holding p' = 0 -> l = 1) ->
  (tally holding (threads s) - holding p + holding p' <> 0 ->
    tally holding (threads s) - holding p + holding p' = 1 /\
    - (tally waiting (threads s) - waiting p + waiting p') <= l <= 0) ->
  lock_ok (mkWorld (mkRWLock (num_readers (memory s)) l) (<[i := p']> (threads s))).
Proof.
  intros Hok Hi Hc Hst Hw H0 H1. destruct Hok as [Hn _ _ Hcnt Hs Hwr].
  split; simpl; rewrite ?length_insert, ?(tally_insert _ _ _ _ _ Hi); [done|done|done|lia| |].
  - intros j q [(_ & <- & _)|[_ Hj]]%list_lookup_insert_Some; [done|by apply (Hs j)].
  - intros j [(_ & -> & _)|[_ Hj]]%list_lookup_insert_Some; [specialize (Hw eq_refl)|specialize (Hwr j Hj)]; lia.
Qed.

Lemma i8_small z : -128 <= z < 128 -> i8 z = z.
Proof. intros Hz. unfold i8. rewrite Z.mod_small; lia. Qed.

Lemma holding_waiting_01 p : 0 <= holding p + waiting p <= 1.
Proof. destruct p; simpl; lia. Qed.

(** A thread at the [decb] is not counted as waiting. *)
Lemma spin_room l i c :
  l !! i = Some (Spin c) -> tally holding l + tally waiting l + 1 <= Z.of_nat (length l).
Proof.
  intros Hi. rewrite <- tally_add. pose proof (tally_insert (fun p => holding p + waiting p) l i _ (Wait c) Hi) as He.
  pose proof (tally_bounds _ holding_waiting_01 (<[i := Wait c]> l)) as Hb. rewrite length_insert in Hb. simpl in He. lia.
Qed.

Lemma spin_step s i c :
  lock_ok s -> threads s !! i = Some (Spin c) ->
  let r := spin_decb (slock (memory s)) in
  lock_ok (mkWorld (mkRWLock (num_readers (memory s)) r.1) (<[i := if r.2 then Load c else Wait c]> (threads s))).
Proof.
  intros Hok Hi. unfold spin_decb. cbn [fst snd]. pose proof (spin_room _ _ _ Hi). pose proof (lk_few s Hok).
  pose proof (lk_free s Hok). pose proof (lk_held s Hok). pose proof (tally_bounds _ waiting_01 (threads s)).
  destruct (decide (tally holding (threads s) = 0)) as [Hz|Hz].
  - replace (slock (memory s)) with 1 by (symmetry; auto). change (i8 (1 - 1)) with 0. cbn [Z.leb Z.compare].
    apply (step_memory s i (Spin c)); simpl; [done|done|by destruct c|done|done|lia|lia].
  - rewrite i8_small, (proj2 (Z.leb_gt _ _)) by lia.
    apply (step_memory s i (Spin c)); simpl; [done|done|by destruct c|done|done|lia|lia].
Qed.

Lemma try_step s i c :
  lock_ok s -> threads s !! i = Some Idle -> c = TryRead \/ c = TryWrite ->
  let r := spin_trylock (slock (memory s)) in
  lock_ok (mkWorld (mkRWLock (num_readers (memory s)) r.1) (<[i := if r.2 then Load c else Idle]> (threads s))).
Proof.
  intros Hok Hi Hc. unfold spin_trylock. cbn [fst snd]. pose proof (lk_free s Hok). pose proof (lk_held s Hok).
  pose proof (tally_bounds _ waiting_01 (threads s)). destruct (Z.ltb_spec 0 (slock (memory s))).
  - apply (step_memory s i Idle); simpl; [done|done|by destruct Hc as [-> | ->]|done|done|lia|lia].
  - apply (step_memory s i Idle); simpl; [done|done|done|done|done|lia|lia].
Qed.

(** The step that stores the count. *)
Lemma store_step s i c v :
  lock_ok s -> threads s !! i = Some (Store c v) ->
  lock_ok (mkWorld (mkRWLock v (slock (memory s))) (<[i := Unlock c]> (threads s))).
Proof.
  intros Hok Hi. destruct Hok as [Hn H0 H1 Hcnt Hs Hwr]. pose proof (Hs i _ Hi) as Hv.
  assert (Hother : forall j q, j <> i -> threads s !! j = Some q -> holding q = 0).
  { intros j q Hj Hq. pose proof (tally_two holding holding_01 eq_refl _ i j _ q (not_eq_sym Hj) Hi Hq).
    pose proof (holding_01 q). simpl in *. lia. }
  split; simpl; rewrite ?length_insert, ?(tally_insert _ _ _ _ _ Hi); simpl; [done|lia|lia| | |].
  - destruct c; simpl in *; lia.
  - intros j q [(_ & <- & _)|[Hj Hq]]%list_lookup_insert_Some; [done|]. specialize (Hother j q (not_eq_sym Hj) Hq).
    by destruct q.
  - intros j [(_ & ? & _)|[Hj Hq]]%list_lookup_insert_Some; [done|].
    by specialize (Hother j Writing (not_eq_sym Hj) Hq).
Qed.

Lemma step_ok s i c s' : lock_ok s -> step i c s = Some s' -> lock_ok s'.
Proof.
  intros Hok Hs. unfold step in Hs. destruct (threads s !! i) as [p|] eqn:Hi; [|done]. cbn in Hs.
  pose proof (lk_free s Hok) as Hfree. pose proof (lk_held s Hok) as Hheld. pose proof (lk_count s Hok) as Hcnt.
  pose proof (tally_bounds _ counted_01 (threads s)). pose proof (lk_few s Hok).
  pose proof (tally_ge counted counted_01 eq_refl _ _ _ Hi) as Hge.
  pose proof (tally_ge holding holding_01 eq_refl _ _ _ Hi) as Hgeh.
  pose proof (tally_ge waiting waiting_01 eq_refl _ _ _ Hi) as Hgew.
  assert (Hmem : memory s = mkRWLock (num_readers (memory s)) (slock (memory s))) by by destruct (memory s).
  destruct p as [|d|d|d|d v|d| |]; cbn in Hs.
  - destruct c; simplify_eq/=; try rewrite Hmem; try (by apply try_step; auto);
      apply (step_memory s i Idle); simpl; (done || lia).
  - simplify_eq/=. by apply spin_step.
  - simplify_eq. rewrite Hmem. simpl. destruct (Z.leb_spec (slock (memory s)) 0);
      apply (step_memory s i (Wait d)); simpl in *; (done || lia || by destruct d).
  - simplify_eq. rewrite Hmem. simpl.
    assert (with_lock d (num_readers (memory s)) = Writing -> tally counted (threads s) = 0).
    { destruct d; simpl; try done; case_match; try done; lia. }
    assert (Hw : holding (with_lock d (num_readers (memory s))) = 1 /\
      waiting (with_lock d (num_readers (memory s))) = 0) by by destruct d; simpl; try case_match.
    apply (step_memory s i (Load d)); simpl in *; [done|done| | |done|lia|lia].
    + destruct d; simpl; try done; by case_match.
    + destruct d; simpl; try (by case_match); apply i32_small; simpl in *; lia.
  - simplify_eq. by apply store_step.
  - simplify_eq. apply (step_memory s i (Unlock d)); simpl in *;
      [done|done|by destruct d|by destruct d|by destruct d|done|].
    destruct d; simpl in *; lia.
  - destruct c; simplify_eq/=. rewrite Hmem. apply (step_memory s i Reading); simpl; (done || lia).
  - destruct c; simplify_eq/=. apply (step_memory s i Writing); simpl in *; (done || lia).
Qed.

Lemma steps_ok s s' : steps s s' -> lock_ok s -> lock_ok s'.
Proof. induction 1 as [|i c s s' s'' Hs _ IH]; [done|]. intros Hok. by apply IH, (step_ok s i c). Qed.

(** C28: With at most 129 threads, while a thread has the lock for writing no
    other thread has it for writing or for reading, in whatever order the threads
    take their steps; and the count is the number of readers. *)
Theorem rw_exclusion n s i j q :
  (n <= 129)%nat -> steps (start n) s -> threads s !! i = Some Writing -> i <> j -> threads s !! j = Some q ->
  q <> Writing /\ q <> Reading /\ num_readers (memory s) = 0.
Proof.
  intros Hn Hr Hi Hij Hj. pose proof (steps_ok _ _ Hr (lock_ok_start n Hn)) as Hok.
  pose proof (lk_writer s Hok i Hi) as Hw. pose proof (lk_held s Hok). pose proof (lk_count s Hok).
  pose proof (tally_two holding holding_01 eq_refl _ i j _ q Hij Hi Hj). simpl in *.
  pose proof (tally_zero counted counted_01 eq_refl _ j q Hw Hj) as Hq.
  split; [|split; [|lia]]; intros ->; simpl in *; lia.
Qed.

(** The schedule in which thread 0 takes the lock and the others try. *)
Definition overflow_schedule (n : nat) : list (nat * call) :=
  replicate 3 (0%nat, AcquireWrite) ++
  mjoin ((fun i => replicate 2 (i, AcquireWrite)) <$> seq 1 (n - 1)) ++ [((n - 1)%nat, AcquireWrite)].

(** With 130 threads the byte of the spin lock overflows: while one thread
    writes and 128 wait, the next decrement makes the byte positive and a second
    writer gets in. *)
Theorem two_writers_among_130 :
  match run (overflow_schedule 130) (start 130) with
  | Some s => threads s !! 0%nat = Some Writing /\ threads s !! 129%nat = Some Writing
  | None => False
  end.
Proof. vm_compute. done. Qed.

(** ** Progress *)

(** The steps of one thread while the others rest. *)
Inductive solo : FosReaderWriterLock -> pc -> FosReaderWriterLock -> pc -> Prop :=
  | solo_refl m p : solo m p m p
  | solo_cons c m p m' p' m'' p'' :
      thread_step c m p = Some (m', p') -> solo m' p' m'' p'' -> solo m p m'' p''.

Lemma solo_trans m p m' p' m'' p'' : solo m p m' p' -> solo m' p' m'' p'' -> solo m p m'' p''.
Proof. induction 1; [done|]. intros Hs. eapply solo_cons; [done|auto]. Qed.

Lemma steps_trans s s' s'' : steps s s' -> steps s' s'' -> steps s s''.
Proof. induction 1; [done|]. intros Hs. eapply steps_cons; [done|auto]. Qed.

Lemma solo_steps i m p m' p' ts :
  solo m p m' p' -> ts !! i = Some p -> steps (mkWorld m ts) (mkWorld m' (<[i := p']> ts)).
Proof.
  intros Hs. revert ts. induction Hs as [m p|c m p m1 p1 m2 p2 Hst _ IH]; intros ts Hi.
  - rewrite list_insert_id by done. apply steps_refl.
  - apply (steps_cons i c _ (mkWorld m1 (<[i := p1]> ts))).
    { unfold step. cbn [threads memory]. rewrite Hi. cbn. by rewrite Hst. }
    rewrite <- (list_insert_insert_eq ts i p2 p1). apply IH, list_lookup_insert_eq. by eapply lookup_lt_Some.
Qed.

(** A thread that has the spin lock can give it back. *)
Lemma holder_out m p : holding p = 1 -> exists m' p', solo m p m' p' /\ holding p' = 0.
Proof.
  intros Hp. assert (Hun : forall m d, exists m' p', solo m (Unlock d) m' p' /\ holding p' = 0).
  { intros m0 d. do 2 eexists. split; [eapply (solo_cons TryRead); [done|apply solo_refl]|by destruct d]. }
  assert (Hst : forall m d v, exists m' p', solo m (Store d v) m' p' /\ holding p' = 0).
  { intros m0 d v. destruct (Hun (mkRWLock v (slock m0)) d) as (m' & p' & Hs & Hh).
    exists m', p'. split; [by eapply (solo_cons TryRead)|done]. }
  assert (Hwr : forall m, exists m' p', solo m Writing m' p' /\ holding p' = 0).
  { intros m0. do 2 eexists. split; [eapply (solo_cons ReleaseWrite); [done|apply solo_refl]|done]. }
  destruct p as [|d|d|d|d v|d| |]; simpl in Hp; try done.
  assert (Hl : exists m' p', solo m (with_lock d (num_readers m)) m' p' /\ holding p' = 0).
  { destruct d; simpl; [auto|auto|auto| | |]; case_match; auto. }
  destruct Hl as (m' & p' & Hs & Hh). exists m', p'. split; [by eapply (solo_cons TryRead)|done].
Qed.

Ltac solo_next c := eapply (solo_cons c); [reflexivity|].

Lemma reader_out r : exists m', solo (mkRWLock r 1) (Spin ReleaseRead) m' Idle.
Proof. eexists. do 4 solo_next TryRead. apply solo_refl. Qed.

Lemma reading_out r : exists m', solo (mkRWLock r 1) Reading m' Idle.
Proof. destruct (reader_out r) as [m' Hm]. exists m'. by solo_next ReleaseRead. Qed.

Lemma spin_out r d : r = 0 \/ d = ReleaseRead -> exists m', solo (mkRWLock r 1) (Spin d) m' Idle.
Proof.
  intros [-> | ->]; [|apply reader_out].
  assert (Hr : exists m', solo (mkRWLock (i32 (0 + 1)) 1) Reading m' Idle) by apply reading_out.
  destruct Hr as [m' Hm]. destruct d; [exists m'|exists m'|apply reader_out|eexists|eexists|eexists];
    do 2 solo_next TryRead; try (do 2 solo_next TryRead; apply Hm); solo_next ReleaseWrite; apply solo_refl.
Qed.

(** A thread can leave when the spin lock is free, unless readers keep it from
    writing. *)
Lemma thread_out m p :
  slock m = 1 -> holding p = 0 -> num_readers m = 0 \/ counted p = 1 -> exists m', solo m p m' Idle.
Proof.
  destruct m as [r l]. simpl. intros -> Hp Hr.
  destruct p as [|d|d|d|d v|d| |]; simpl in *; try done.
  - exists (mkRWLock r 1). apply solo_refl.
  - apply spin_out. by destruct Hr; [left|right; destruct d].
  - destruct (spin_out r d) as [m' Hm]; [by destruct Hr; [left|right; destruct d]|].
    exists m'. by solo_next TryRead.
  - apply reading_out.
Qed.

Definition busy (p : pc) : Z := match p with Idle => 0 | _ => 1 end.

Lemma busy_01 p : 0 <= busy p <= 1.
Proof. destruct p; simpl; lia. Qed.

(** Some thread can leave. *)
Lemma one_out s :
  lock_ok s -> tally holding (threads s) = 0 -> 0 < tally busy (threads s) ->
  exists s', steps s s' /\ tally holding (threads s') = 0 /\ tally busy (threads s') < tally busy (threads s).
Proof.
  intros Hok H0 Hb. pose proof (lk_free s Hok H0) as Hl. pose proof (lk_count s Hok) as Hc.
  assert (Hex : exists i p, threads s !! i = Some p /\ busy p = 1 /\ (num_readers (memory s) = 0 \/ counted p = 1)).
  { pose proof (tally_bounds _ counted_01 (threads s)). destruct (decide (0 < tally counted (threads s))) as [Hp|Hp].
    - destruct (tally_pos counted counted_01 _ Hp) as (i & p & Hi & Hp1). exists i, p.
      split; [done|]. split; [by destruct p|by right].
    - destruct (tally_pos busy busy_01 _ Hb) as (i & p & Hi & Hp1). exists i, p. split; [done|]. split; [done|left; lia]. }
  destruct Hex as (i & p & Hi & Hp & Hr). pose proof (tally_zero holding holding_01 eq_refl _ i p H0 Hi) as Hh.
  destruct (thread_out (memory s) p Hl Hh Hr) as [m' Hm]. exists (mkWorld m' (<[i := Idle]> (threads s))).
  split; [destruct s; by apply (solo_steps i _ p)|]. cbn [threads]. rewrite !(tally_insert _ _ _ _ _ Hi). simpl. lia.
Qed.

Lemma no_holder s :
  lock_ok s -> exists s', steps s s' /\ tally holding (threads s') = 0 /\ tally busy (threads s') <= tally busy (threads s).
Proof.
  intros Hok. destruct (decide (tally holding (threads s) = 0)) as [H0|H0].
  { exists s. split; [apply steps_refl|done]. }
  destruct (lk_held s Hok H0) as [H1 _].
  destruct (tally_pos holding holding_01 (threads s)) as (i & p & Hi & Hp); [lia|].
  destruct (holder_out (memory s) p Hp) as (m' & p' & Hs & Hp'). exists (mkWorld m' (<[i := p']> (threads s))).
  split; [destruct s; by apply (solo_steps i _ p)|]. cbn [threads]. rewrite !(tally_insert _ _ _ _ _ Hi).
  assert (busy p = 1) by by destruct p. pose proof (busy_01 p'). lia.
Qed.

Lemma drain s : lock_ok s -> exists s', steps s s' /\ tally busy (threads s') = 0.
Proof.
  remember (Z.to_nat (tally busy (threads s))) as k eqn:Hk. revert s Hk.
  induction (lt_wf k) as [k _ IH]. intros s -> Hok. destruct (no_holder s Hok) as (s1 & Hs1 & H1 & Hb1).
  pose proof (tally_bounds _ busy_01 (threads s1)). pose proof (steps_ok _ _ Hs1 Hok) as Hok1.
  destruct (decide (tally busy (threads s1) = 0)) as [Hz|Hz]; [by exists s1|].
  destruct (one_out s1 Hok1 H1) as (s2 & Hs2 & _ & Hb2); [lia|]. pose proof (tally_bounds _ busy_01 (threads s2)).
  destruct (IH (Z.to_nat (tally busy (threads s2))) ltac:(lia) s2 eq_refl (steps_ok _ _ Hs2 Hok1)) as (s3 & Hs3 & Hb3).
  exists s3. split; [|done]. by apply (steps_trans _ s1), (steps_trans _ s2).
Qed.

(** C29: No order of steps leads to a deadlock: from every state that at most
    129 threads get into, the threads have a way on in which each of them
    finishes its calls and leaves the lock. *)
Theorem rw_no_deadlock n s :
  (n <= 129)%nat -> steps (start n) s -> exists s', steps s s' /\ forall i p, threads s' !! i = Some p -> p = Idle.
Proof.
  intros Hn Hr. destruct (drain s) as (s' & Hs & Hb); [by apply (steps_ok _ _ Hr), lock_ok_start|].
  exists s'. split; [done|]. intros i p Hi. pose proof (tally_zero busy busy_01 eq_refl _ i p Hb Hi). by destruct p.
Qed.

(** ** Demonstration *)

Lemma run_steps l s s' : run l s = Some s' -> steps s s'.
Proof.
  revert s. induction l as [|[i c] l IH]; intros s Hr; simplify_eq/=; [apply steps_refl|].
  destruct (step i c s) as [s1|] eqn:Hs; [|done]. by apply (steps_cons i c s s1), IH.
Qed.

(** A writer, a thread in the waiting loop and one that has not begun. *)
Definition demo_threads : world :=
  mkWorld (mkRWLock 0 (-1)) [Writing; Wait AcquireRead; Idle].

Lemma demo_reached : steps (start 3) demo_threads.
Proof. apply (run_steps (replicate 3 (0%nat, AcquireWrite) ++ replicate 2 (1%nat, AcquireRead))). reflexivity. Qed.

Lemma rw_exclusion_witness :
  Wait AcquireRead <> Writing /\ Wait AcquireRead <> Reading /\ num_readers (memory demo_threads) = 0.
Proof. apply (rw_exclusion 3 demo_threads 0 1); [lia|apply demo_reached|done|done|done]. Defined.

Lemma rw_no_deadlock_witness :
  exists s', steps demo_threads s' /\ forall i p, threads s' !! i = Some p -> p = Idle.
Proof. apply (rw_no_deadlock 3 demo_threads); [lia|apply demo_reached]. Defined.
