(* ===== verification/Channel.v ===== *)
(** * Channels

    The message ring between two processes of [messaging/include/channel.h]: a
    sender allocates, fills and sends messages in a shared buffer, a receiver
    takes them out in order and frees them.  The sender and the receiver take
    turns, one call at a time. *)

From S2P Require Import Prelude.

Definition CACHELINE_SIZE : Z := 64.
Definition CACHELINE_MASK : Z := CACHELINE_SIZE - 1.

(** ** The shared memory

    [shared] is an array of bytes; a header is read from the bytes at its offset:
    two bytes of [size], two of [alloced], the byte [ready]. *)

Definition bytes : Type := Z -> Z.

Record Message : Type := mkMessage { size : Z; alloced : Z; ready : bool }.

Definition sizeof_Message : Z := 8.

Definition header (m : bytes) (off : Z) : Message :=
  mkMessage (m off + 256 * m (off + 1)) (m (off + 2) + 256 * m (off + 3)) (negb (m (off + 4) =? 0)).

Definition wr (k v : Z) (m : bytes) : bytes := fun j => if j =? k then v else m j.
Definition wr16 (k v : Z) (m : bytes) : bytes := wr k (v mod 256) (wr (k + 1) (v / 256 mod 256) m).
Definition wr_bool (k : Z) (b : bool) (m : bytes) : bytes := wr k (if b then 1 else 0) m.
Fixpoint wr_list (k : Z) (l : list Z) (m : bytes) : bytes :=
  match l with [] => m | v :: l' => wr_list (k + 1) l' (wr k v m) end.

Record HalfChannel : Type := mkHalf {
  head : Z;
  tail : Z;
  next : Z;
  shared : bytes;
  closed : bool
}.

Definition set_head (x : Z) (r : HalfChannel) := mkHalf x (tail r) (next r) (shared r) (closed r).
Definition set_tail (x : Z) (r : HalfChannel) := mkHalf (head r) x (next r) (shared r) (closed r).
Definition set_next (x : Z) (r : HalfChannel) := mkHalf (head r) (tail r) x (shared r) (closed r).
Definition set_shared (x : bytes) (r : HalfChannel) := mkHalf (head r) (tail r) (next r) x (closed r).
Definition set_closed (x : bool) (r : HalfChannel) := mkHalf (head r) (tail r) (next r) (shared r) x.

(** A compare-and-swap of a field; nobody else runs in between. *)
Definition cmpxchg (get : HalfChannel -> Z) (put : Z -> HalfChannel -> HalfChannel) (old new : Z)
  : M HalfChannel bool :=
  x ← gets get; if x =? old then modify (put new);; mret true else mret false.

Section Ring.
(** [CONFIG_CHANNEL_BUF_SIZE] *)
Variable SHARED_SIZE : Z.

(** Accesses to the buffer; outside of it they are undefined. *)
Definition get_msg (off : Z) : M HalfChannel Message :=
  if (0 <=? off) && (off + sizeof_Message <=? SHARED_SIZE) then gets (fun r => header (shared r) off) else undef.
Definition poke (off len : Z) (f : bytes -> bytes) : M HalfChannel unit :=
  if (0 <=? off) && (off + len <=? SHARED_SIZE) then modify (fun r => set_shared (f (shared r)) r) else undef.
Definition set_size (off v : Z) : M HalfChannel unit := poke off 2 (wr16 off v).
Definition set_alloced (off v : Z) : M HalfChannel unit := poke (off + 2) 2 (wr16 (off + 2) v).
Definition set_ready (off : Z) (b : bool) : M HalfChannel unit := poke (off + 4) 1 (wr_bool (off + 4) b).

(** [__channel_setup_owned]: the buffer keeps what it holds. *)
Definition channel_setup (r : HalfChannel) : HalfChannel := mkHalf 0 (SHARED_SIZE - 1) 0 (shared r) false.

Definition _channel_message_size (size : Z) : Z :=
  let msg_size := u64 (size + sizeof_Message) in
  if SHARED_SIZE - CACHELINE_SIZE <? msg_size then 0
  else if negb (Z.land msg_size CACHELINE_MASK =? 0)
  then u64 (Z.land msg_size (Z.lnot CACHELINE_MASK) + CACHELINE_SIZE)
  else msg_size.

(** The loop of [_channel_gc], with its variables. *)
Fixpoint gc_loop (fuel : nat) (head0 tail0 freeing freed : Z) : M HalfChannel unit :=
  match fuel with
  | O => timeout
  | S fuel' =>
      if (freeing =? head0) || (freed =? SHARED_SIZE) then mret tt
      else
        let freeing := if SHARED_SIZE <=? freeing then 0 else freeing in
        message ← get_msg freeing;
        if ready message then mret tt
        else
          let new_tail :=
            if negb (size message =? u16 (-1)) then u64 (freeing + alloced message - 1) else SHARED_SIZE - 1 in
          ok ← cmpxchg tail set_tail tail0 new_tail;
          if negb ok then mret tt
          else gc_loop fuel' head0 new_tail (u64 (new_tail + 1)) (u64 (freed + alloced message))
  end.

(** Every pass frees at least a line, so there are at most as many as lines. *)
Definition gc_fuel : nat := S (Z.to_nat (SHARED_SIZE / CACHELINE_SIZE)).

Definition _channel_gc : M HalfChannel unit :=
  head0 ← gets head;
  tail0 ← gets tail;
  let freeing := tail0 + 1 in
  let freed := u64 (tail0 + 1 - head0) in
  let freed := if tail0 <? head0 then u64 (SHARED_SIZE - freed) else freed in
  let freed := if SHARED_SIZE <? freed then 0 else freed in
  gc_loop gc_fuel head0 tail0 freeing freed.

(** ** The sender *)

(** Where [channel_allocate] puts a message of [alloced_size] bytes: at the head,
    or, wrapped, at the start of the buffer. *)
Inductive place : Type := At_head | Wrapped | Nowhere.

Definition find_place (alloced_size head0 tail0 : Z) : place :=
  if ((head0 <? tail0) && (alloced_size <=? tail0 + 1 - head0)) ||
     ((tail0 <? head0) && (alloced_size <=? SHARED_SIZE - head0))
  then At_head
  else if (tail0 <? head0) && (alloced_size <=? tail0 + 1) then Wrapped
  else Nowhere.

(** The mark that sends the receiver to the start of the buffer. *)
Definition put_sentinel (head0 : Z) : M HalfChannel unit :=
  set_size head0 (u16 (-1));; set_alloced head0 (u16 (SHARED_SIZE - head0));; set_ready head0 true.

(** The second half of [channel_allocate]: the pointer to the payload. *)
Definition take_place (wrapped : bool) (alloced_start alloced_size head0 tail0 : Z) : M HalfChannel (option Z) :=
  let new_head := alloced_start + alloced_size in
  (if new_head =? tail0 + 1 then cmpxchg tail set_tail tail0 SHARED_SIZE;; mret tt else mret tt);;
  let new_head := if SHARED_SIZE <=? new_head then 0 else new_head in
  ok ← cmpxchg head set_head head0 new_head;
  if negb ok then mret None
  else
    (if wrapped then put_sentinel head0 else mret tt);;
    set_size alloced_start 0;;
    set_ready alloced_start true;;
    set_alloced alloced_start (u16 alloced_size);;
    mret (Some (alloced_start + sizeof_Message)).

Definition channel_allocate (size : Z) : M HalfChannel (option Z) :=
  head0 ← gets head;
  tail0 ← gets tail;
  let alloced_size := _channel_message_size size in
  if alloced_size =? 0 then mret None
  else
    (if tail0 =? SHARED_SIZE then _channel_gc else mret tt);;
    tail0 ← gets tail;
    match find_place alloced_size head0 tail0 with
    | At_head => take_place false head0 alloced_size head0 tail0
    | Wrapped => take_place true 0 alloced_size head0 tail0
    | Nowhere =>
        _channel_gc;;
        tail0 ← gets tail;
        match find_place alloced_size head0 tail0 with
        | At_head => take_place false head0 alloced_size head0 tail0
        | Wrapped => take_place true 0 alloced_size head0 tail0
        | Nowhere =>
            if tail0 <? head0
            then cmpxchg head set_head head0 0;; put_sentinel head0;; mret None
            else mret None
        end
    end.

(** What the sender does with the memory it has allocated. *)
Definition write_payload (data : Z) (l : list Z) : M HalfChannel unit :=
  poke data (Z.of_nat (length l)) (wr_list data l).

Definition channel_send (data size : Z) : M HalfChannel unit := set_size (data - sizeof_Message) (u16 size).

(** ** The receiver *)

(** [__channel_poll]: the size, and the offset and the header of the message.  A
    mark is followed once: there is none at the start of the buffer. *)
Fixpoint poll_loop (fuel : nat) (next0 : Z) : M HalfChannel (Z * Z * Message) :=
  match fuel with
  | O => timeout
  | S fuel' =>
      msg ← get_msg next0;
      if negb (ready msg) || (size msg =? 0)
      then c ← gets closed; mret (if (c : bool) then 2 ^ 64 - 1 else 0, next0, msg)
      else if size msg =? u16 (-1)
      then
        ok ← cmpxchg next set_next next0 0;
        if negb ok then mret (0, next0, msg)
        else set_ready next0 false;; poll_loop fuel' 0
      else mret (size msg, next0, msg)
  end.
Definition channel_poll_msg : M HalfChannel (Z * Z * Message) := n ← gets next; poll_loop 2 n.

Definition channel_poll : M HalfChannel Z := '(sz, _, _) ← channel_poll_msg; mret sz.

(** [channel_receive]: the size and the pointer to the payload; [take_msg] is
    its part after the poll. *)
Definition take_msg (res : Z * Z * Message) : M HalfChannel (Z * option Z) :=
  let '(sz, next0, msg) := res in
  if (sz =? 2 ^ 64 - 1) || (sz =? 0) then mret (sz, None)
  else
    let new_next := next0 + alloced msg in
    let new_next := if SHARED_SIZE <=? new_next then 0 else new_next in
    ok ← cmpxchg next set_next next0 new_next;
    if negb ok then mret (0, None) else mret (sz, Some (next0 + sizeof_Message)).
Definition channel_receive : M HalfChannel (Z * option Z) := res ← channel_poll_msg; take_msg res.

Fixpoint free_loop (n : nat) (message : Z) : M HalfChannel unit :=
  match n with O => mret tt | S n' => set_ready message false;; free_loop n' (message + CACHELINE_SIZE) end.
Definition channel_free (data : Z) : M HalfChannel unit :=
  let message := data - sizeof_Message in
  msg ← get_msg message;
  free_loop (Z.to_nat ((alloced msg + CACHELINE_SIZE - 1) / CACHELINE_SIZE)) message.

(** ** The end *)

(** [cmpxchg(chan->closed, false, true)] *)
Definition mark_closed : M HalfChannel bool :=
  c ← gets closed; if c : bool then mret false else modify (set_closed true);; mret true.

(** [channel_close]: the flag is set; where it is set already, the end that does
    not own the buffer takes it back.  The pool to which the owner returns the buffer
    belongs to its endpoint. *)
Definition channel_close (owned : bool) : M HalfChannel unit :=
  ok ← mark_closed; if owned || ok then mret tt else modify (set_closed false).
End Ring.

(** ** Demonstration *)

(** A buffer of four lines. *)
Definition small : Z := 256.
Definition blank : HalfChannel := channel_setup small (mkHalf 0 0 0 (fun _ => 0) false).

(** A message of one byte; the receiver's view of it. *)
Definition send_byte (v : Z) : M HalfChannel (option Z) :=
  o ← channel_allocate small 1;
  match o with
  | Some data => write_payload small data [v];; channel_send small data 1;; mret (Some data)
  | None => mret None
  end.
Definition receive_byte : M HalfChannel (option Z) :=
  '(_, o) ← channel_receive small; m ← gets shared; mret (m <$> o).

(** A full buffer loses and repeats messages: with four messages waiting in
    a buffer of four lines a fifth is accepted in the place of the first, which is
    never received; and when all four have been received and none freed, the
    first is received a second time. *)
Theorem full_channel_overwrites :
  match (send_byte 1;; send_byte 2;; send_byte 3;; send_byte 4;; send_byte 5;;
         a ← receive_byte; b ← receive_byte; mret [a; b]) blank with
  | Done l _ => l = [Some 5; Some 2]
  | _ => False
  end /\
  match (send_byte 1;; send_byte 2;; send_byte 3;; send_byte 4;;
         receive_byte;; receive_byte;; receive_byte;; receive_byte;; receive_byte) blank with
  | Done o _ => o = Some 1
  | _ => False
  end.
Proof. vm_compute. done. Qed.
