(* ===== verification/ChannelSpec.v ===== *)
(** * A channel is a queue

    The ring of [Channel] holds a sequence of chunks; the messages among them are
    received in the order in which they were allocated, each with the payload it
    was sent with, as long as the ring never is full with its oldest message in
    use. *)

From S2P Require Import Prelude Channel.

(** ** Memory *)

(** [m'] differs from [m] only in [a .. b-1]. *)
Definition outside (a b : Z) (m m' : bytes) : Prop := forall k, ~ (a <= k < b) -> m' k = m k.

Definition reads (m : bytes) (k : Z) (l : list Z) : Prop :=
  forall i v, l !! i = Some v -> m (k + Z.of_nat i) = v.

(** No line of [a .. a+n-1] has its [ready] byte set. *)
Definition quiet (m : bytes) (a n : Z) : Prop :=
  forall k, a <= k < a + n -> k mod 64 = 0 -> m (k + 4) = 0.

Ltac bytes_solver :=
  unfold wr16, wr_bool, wr in *; repeat match goal with |- context [Z.eqb ?x ?y] => destruct (Z.eqb_spec x y) end;
  try lia; try done.

Lemma outside_refl a b m : outside a b m m.
Proof. by intros k. Qed.
Lemma outside_trans a b m m' m'' : outside a b m m' -> outside a b m' m'' -> outside a b m m''.
Proof. intros H1 H2 k Hk. by rewrite H2, H1. Qed.
Lemma outside_weaken a b a' b' m m' : outside a' b' m m' -> a <= a' -> b' <= b -> outside a b m m'.
Proof. intros H Ha Hb k Hk. apply H. lia. Qed.

Lemma wr16_outside k v m : outside k (k + 2) m (wr16 k v m).
Proof. intros j Hj. bytes_solver. Qed.
Lemma wr_bool_outside k b m : outside k (k + 1) m (wr_bool k b m).
Proof. intros j Hj. bytes_solver. Qed.

Lemma wr_list_outside k l m : outside k (k + Z.of_nat (length l)) m (wr_list k l m).
Proof.
  revert k m. induction l as [|v l IH]; intros k m j Hj; [done|]. simpl in *. rewrite IH by lia. bytes_solver.
Qed.

Lemma wr_list_reads k l m : reads (wr_list k l m) k l.
Proof.
  revert k m. induction l as [|v l IH]; intros k m i x Hi; [done|]. destruct i as [|i]; simplify_eq/=.
  - rewrite Z.add_0_r, wr_list_outside by lia. bytes_solver.
  - replace (k + Z.of_nat (S i)) with (k + 1 + Z.of_nat i) by lia. by apply IH.
Qed.

Lemma header_ext m m' off : (forall k, off <= k < off + 5 -> m' k = m k) -> header m' off = header m off.
Proof. intros H. unfold header. by rewrite !H by lia. Qed.

Lemma header_size m off v :
  0 <= v < 2 ^ 16 -> header (wr16 off v m) off = mkMessage v (alloced (header m off)) (ready (header m off)).
Proof.
  intros Hv. unfold header. cbn [alloced ready].
  assert (H : forall k, k <> off -> k <> off + 1 -> wr16 off v m k = m k) by (intros; bytes_solver).
  rewrite (H (off + 2)), (H (off + 3)), (H (off + 4)) by lia. f_equal. bytes_solver. rewrite (Z.mod_small (v / 256)).
  - pose proof (Z.div_mod v 256). lia.
  - split; [apply Z.div_pos; lia|]. apply Z.div_lt_upper_bound; lia.
Qed.

Lemma header_alloced m off v :
  0 <= v < 2 ^ 16 -> header (wr16 (off + 2) v m) off = mkMessage (size (header m off)) v (ready (header m off)).
Proof.
  intros Hv. unfold header. cbn [size ready].
  assert (H : forall k, k <> off + 2 -> k <> off + 3 -> wr16 (off + 2) v m k = m k) by (intros; bytes_solver).
  rewrite (H off), (H (off + 1)), (H (off + 4)) by lia. f_equal. bytes_solver. rewrite (Z.mod_small (v / 256)).
  - pose proof (Z.div_mod v 256). lia.
  - split; [apply Z.div_pos; lia|]. apply Z.div_lt_upper_bound; lia.
Qed.

Lemma header_ready m off b :
  header (wr_bool (off + 4) b m) off = mkMessage (size (header m off)) (alloced (header m off)) b.
Proof.
  unfold header. cbn [size alloced].
  assert (H : forall k, k <> off + 4 -> wr_bool (off + 4) b m k = m k) by (intros; bytes_solver).
  rewrite (H off), (H (off + 1)), (H (off + 2)), (H (off + 3)) by lia. f_equal. unfold wr_bool, wr. rewrite Z.eqb_refl. by destruct b.
Qed.

Lemma header_quiet m off : ready (header m off) = false <-> m (off + 4) = 0.
Proof. unfold header. cbn [ready]. rewrite negb_false_iff. apply Z.eqb_eq. Qed.

Lemma reads_outside m m' k l a b :
  reads m k l -> outside a b m m' -> k + Z.of_nat (length l) <= a \/ b <= k -> reads m' k l.
Proof. intros Hr Ho Hd i v Hi. pose proof (lookup_lt_Some _ _ _ Hi). rewrite Ho by lia. by apply Hr. Qed.

Lemma quiet_outside m m' k n a b :
  quiet m k n -> outside a b m m' -> k mod 64 = 0 -> n mod 64 = 0 -> k + n <= a \/ b <= k -> quiet m' k n.
Proof.
  intros Hq Ho Hk Hn Hd j Hj Hj0. rewrite Ho; [by apply Hq|].
  pose proof (Z.div_mod k 64). pose proof (Z.div_mod n 64). pose proof (Z.div_mod j 64). lia.
Qed.

(** ** Chunks *)

(** What a part of the ring is: allocated but not sent, sent, received and in
    use, freed, or the rest of the buffer behind a mark, with the [ready] bit of
    the mark. *)
Inductive kind : Type := Alloced | Sent (l : list Z) | Held (l : list Z) | Freed | Skip (b : bool).

Record chunk : Type := mkChunk { c_off : Z; c_len : Z; c_kind : kind }.

Definition inside (c : chunk) (k : Z) : Prop := c_off c <= k < c_off c + c_len c.

Fixpoint used (cs : list chunk) : Z := match cs with [] => 0 | c :: cs' => c_len c + used cs' end.

Lemma used_app l1 l2 : used (l1 ++ l2) = used l1 + used l2.
Proof. induction l1; simpl; lia. Qed.

(** What the memory holds for a chunk. *)
Definition chunk_ok (m : bytes) (c : chunk) : Prop :=
  match c_kind c with
  | Alloced => header m (c_off c) = mkMessage 0 (c_len c) true
  | Sent l | Held l =>
      header m (c_off c) = mkMessage (Z.of_nat (length l)) (c_len c) true /\ reads m (c_off c + 8) l /\
      0 < Z.of_nat (length l) /\ Z.of_nat (length l) + 8 <= c_len c
  | Freed => (exists sz, sz <> 65535 /\ header m (c_off c) = mkMessage sz (c_len c) false) /\
      quiet m (c_off c) (c_len c)
  | Skip b => header m (c_off c) = mkMessage 65535 (c_len c) b /\ quiet m (c_off c + 64) (c_len c - 64)
  end.

Section Layout.
Variable S : Z.
Hypothesis HS : 128 <= S <= 65536.
Hypothesis HS64 : S mod 64 = 0.

Definition wrap (x : Z) : Z := if S <=? x then 0 else x.

(** The chunks lie one behind the other from [a] to [b]. *)
Definition chunk_at (a : Z) (c : chunk) : Prop :=
  c_off c = a /\ 64 <= c_len c /\ c_len c mod 64 = 0 /\ a + c_len c <= S /\
  match c_kind c with Skip _ => a + c_len c = S /\ 0 < a | _ => c_len c < 65535 end.

Fixpoint laid (a : Z) (cs : list chunk) (b : Z) : Prop :=
  match cs with
  | [] => a = b
  | c :: cs' => chunk_at a c /\ laid (wrap (a + c_len c)) cs' b
  end.

(** A position in the ring. *)
Definition pos (a : Z) : Prop := 0 <= a < S /\ a mod 64 = 0.

Lemma laid_app a l1 l2 b : laid a (l1 ++ l2) b <-> exists x, laid a l1 x /\ laid x l2 b.
Proof.
  revert a. induction l1 as [|c l1 IH]; intros a; simpl.
  - split; [intros ?; by exists a|by intros (x & -> & ?)].
  - rewrite IH. split; [intros (? & x & ? & ?)|intros (x & [? ?] & ?)].
    + exists x. split; [by split|done].
    + split; [done|]. by exists x.
Qed.

Lemma mod64_add x y : x mod 64 = 0 -> y mod 64 = 0 -> (x + y) mod 64 = 0.
Proof. intros Hx Hy. rewrite Z.add_mod, Hx, Hy by lia. done. Qed.

Lemma wrap_pos x : 0 <= x <= S -> x mod 64 = 0 -> pos (wrap x).
Proof using HS. intros Hx Hm. unfold wrap, pos. destruct (Z.leb_spec S x); (split; [lia|done]). Qed.

Lemma wrap_mod x : 0 <= x <= S -> wrap x = x mod S.
Proof using HS.
  intros Hx. unfold wrap. destruct (Z.leb_spec S x).
  - replace x with S by lia. by rewrite Z.mod_same by lia.
  - by rewrite Z.mod_small by lia.
Qed.

Lemma chunk_next a c : pos a -> chunk_at a c -> pos (wrap (a + c_len c)).
Proof using HS. intros [Ha Ha64] (_ & ? & ? & ? & _). apply wrap_pos; [lia|by apply mod64_add]. Qed.

Lemma laid_end a cs b : pos a -> laid a cs b -> pos b /\ b = (a + used cs) mod S.
Proof using HS.
  revert a. induction cs as [|c cs IH]; intros a Ha Hl; simpl in Hl.
  - subst. split; [done|]. simpl. rewrite Z.add_0_r, Z.mod_small; [done|apply Ha].
  - destruct Hl as [Hc Hl]. destruct (IH _ (chunk_next a c Ha Hc) Hl) as [Hb ->]. split; [done|].
    destruct Hc as (_ & ? & _ & ? & _). destruct Ha. rewrite wrap_mod by lia. rewrite Zplus_mod_idemp_l.
    simpl. f_equal. lia.
Qed.

Lemma laid_used a cs b : laid a cs b -> 64 * Z.of_nat (length cs) <= used cs.
Proof. revert a. induction cs as [|c cs IH]; intros a Hl; simpl in *; [lia|]. destruct Hl as [(_ & ? & _) Hl]. specialize (IH _ Hl). lia. Qed.

(** The distance of a byte from the start of the ring. *)
Definition idx (a k : Z) : Z := (k - a) mod S.

Lemma idx_shift a n k :
  0 <= n -> idx ((a + n) mod S) k + n < S -> idx a k = idx ((a + n) mod S) k + n.
Proof using HS.
  unfold idx. intros Hn Hlt. pose proof (Z.mod_pos_bound (k - (a + n) mod S) S ltac:(lia)).
  rewrite <- (Z.mod_small ((k - (a + n) mod S) mod S + n) S) by lia.
  rewrite Zplus_mod_idemp_l. rewrite <- Zplus_mod_idemp_l, Zminus_mod_idemp_r, Zplus_mod_idemp_l. f_equal. lia.
Qed.

Lemma laid_idx a cs b c k :
  pos a -> laid a cs b -> used cs <= S -> c ∈ cs -> inside c k -> idx a k < used cs.
Proof using HS.
  revert a. induction cs as [|c0 cs IH]; intros a Ha Hl Hu Hin Hk; [by apply elem_of_nil in Hin|].
  simpl in *. destruct Hl as [Hc Hl]. pose proof (laid_used _ _ _ Hl). pose proof Hc as (Hoff & ? & _ & ? & _).
  pose proof Ha as [? _]. apply elem_of_cons in Hin as [->|Hin].
  - unfold inside in Hk. unfold idx. rewrite Z.mod_small; lia.
  - specialize (IH _ (chunk_next a c0 Ha Hc) Hl ltac:(lia) Hin Hk). rewrite wrap_mod in IH by lia.
    rewrite (idx_shift a (c_len c0)) by lia. lia.
Qed.

Lemma laid_elem a cs b c : pos a -> laid a cs b -> c ∈ cs -> pos (c_off c) /\ chunk_at (c_off c) c.
Proof using HS.
  revert a. induction cs as [|c0 cs IH]; intros a Ha Hl Hin; [by apply elem_of_nil in Hin|].
  destruct Hl as [Hc Hl]. apply elem_of_cons in Hin as [->|Hin].
  - assert (c_off c0 = a) as -> by apply Hc. done.
  - by apply (IH _ (chunk_next a c0 Ha Hc)).
Qed.

Lemma laid_disjoint a l1 c l2 b c' :
  pos a -> laid a (l1 ++ c :: l2) b -> used (l1 ++ c :: l2) <= S -> c' ∈ l1 ++ l2 ->
  c_off c' + c_len c' <= c_off c \/ c_off c + c_len c <= c_off c'.
Proof using HS.
  intros Ha Hl Hu Hin. destruct (decide (c_off c' + c_len c' <= c_off c \/ c_off c + c_len c <= c_off c')) as [|Hn]; [done|].
  exfalso. apply laid_app in Hl as (x & Hl1 & Hl2). destruct (laid_end a l1 x Ha Hl1) as [Hx Hxe].
  pose proof Hl2 as [Hc Hl3]. pose proof Hc as (Hoff & Hlen & _ & Hend & _). rewrite used_app in Hu. simpl in Hu.
  pose proof (laid_used _ _ _ Hl1). pose proof (laid_used _ _ _ Hl3).
  assert (Hlen' : 64 <= c_len c').
  { assert (Hc' : chunk_at (c_off c') c'); [|by destruct Hc' as (_ & ? & _)].
    apply elem_of_app in Hin as [Hin|Hin]; [by apply (laid_elem a l1 x)|].
    apply (laid_elem (wrap (x + c_len c)) l2 b); [by apply chunk_next|done|done]. }
  set (k := Z.max (c_off c) (c_off c')). assert (Hk : inside c k /\ inside c' k) by (unfold inside; lia).
  destruct Hk as [Hk Hk']. apply elem_of_app in Hin as [Hin|Hin].
  - pose proof (laid_idx a l1 x c' k Ha Hl1 ltac:(lia) Hin Hk').
    assert (Hi : idx x k < used (c :: l2)) by (apply (laid_idx x (c :: l2) b c); [done|done|simpl; lia|by apply elem_of_cons; left|done]).
    simpl in Hi. rewrite Hxe in Hi. pose proof (idx_shift a (used l1) k ltac:(lia) ltac:(lia)).
    pose proof (Z.mod_pos_bound (k - (a + used l1) mod S) S ltac:(lia)). unfold idx in *. lia.
  - assert (Hi : idx x k < c_len c) by (unfold idx; unfold inside in Hk; rewrite Z.mod_small; lia).
    pose proof (laid_idx _ l2 b c' k (chunk_next x c Hx Hc) Hl3 ltac:(lia) Hin Hk') as Hi'.
    destruct Hx as [? _]. rewrite wrap_mod in Hi' by lia.
    pose proof (idx_shift x (c_len c) k ltac:(lia) ltac:(lia)).
    pose proof (Z.mod_pos_bound (k - (x + c_len c) mod S) S ltac:(lia)). unfold idx in *. lia.
Qed.

(** ** Memory and chunks *)

Record mem_ok (m : bytes) (cs : list chunk) : Prop := {
  mk_chunks c : c ∈ cs -> chunk_ok m c;
  mk_free k : 0 <= k < S -> k mod 64 = 0 -> (forall c, c ∈ cs -> ~ inside c k) -> m (k + 4) = 0
}.

Lemma chunk_ok_outside m m' c x y :
  pos (c_off c) -> chunk_at (c_off c) c -> chunk_ok m c -> outside x y m m' ->
  c_off c + c_len c <= x \/ y <= c_off c -> chunk_ok m' c.
Proof.
  intros [_ Hoff] (_ & Hlen & Hlen64 & _ & _) Hok Ho Hd.
  assert (Hh : header m' (c_off c) = header m (c_off c)) by (apply header_ext; intros; apply Ho; lia).
  unfold chunk_ok in *. destruct (c_kind c) as [|l|l| |b]; rewrite Hh.
  - done.
  - destruct Hok as (? & Hr & ? & ?). split; [done|]. split; [|done]. apply (reads_outside m m' _ _ x y); [done|done|lia].
  - destruct Hok as (? & Hr & ? & ?). split; [done|]. split; [|done]. apply (reads_outside m m' _ _ x y); [done|done|lia].
  - destruct Hok as [? Hq]. split; [done|]. by apply (quiet_outside m m' _ _ x y).
  - destruct Hok as [? Hq]. split; [done|]. apply (quiet_outside m m' _ _ x y); [done|done| | |lia].
    + by apply mod64_add.
    + by replace (c_len c - 64) with (c_len c + -1 * 64) by lia; rewrite Z.mod_add.
Qed.

(** A change of the memory within a line-aligned range that ends up in a chunk. *)
Lemma free_outside m m' x y k :
  x mod 64 = 0 -> y mod 64 = 0 -> outside x y m m' -> k mod 64 = 0 -> ~ (x <= k < y) -> m' (k + 4) = m (k + 4).
Proof.
  intros Hx Hy Ho Hk Hn. apply Ho. pose proof (Z.div_mod x 64). pose proof (Z.div_mod y 64).
  pose proof (Z.div_mod k 64). lia.
Qed.

Lemma mem_ok_update m m' a l1 c c' l2 b :
  pos a -> laid a (l1 ++ c :: l2) b -> used (l1 ++ c :: l2) <= S -> mem_ok m (l1 ++ c :: l2) ->
  c_off c' = c_off c -> c_len c' = c_len c -> outside (c_off c) (c_off c + c_len c) m m' -> chunk_ok m' c' ->
  mem_ok m' (l1 ++ c' :: l2).
Proof using All.
  intros Ha Hl Hu [Hcs Hfree] Ho Hlen Hout Hc'.
  assert (Hin : forall d, d ∈ l1 ++ l2 -> d ∈ l1 ++ c :: l2) by set_solver.
  assert (Hc : pos (c_off c) /\ chunk_at (c_off c) c) by (apply (laid_elem a (l1 ++ c :: l2) b); [done|done|set_solver]).
  destruct Hc as [[_ Hco] (_ & _ & Hcl & _)]. split.
  - intros d Hd. assert (Hd' : d = c' \/ d ∈ l1 ++ l2) by set_solver. destruct Hd' as [->|Hd']; [done|].
    destruct (laid_elem a _ b d Ha Hl (Hin d Hd')) as [Hdp Hda].
    apply (chunk_ok_outside m m' d (c_off c) (c_off c + c_len c)); [done|done|by apply Hcs, Hin|done|].
    by apply (laid_disjoint a l1 c l2 b d).
  - intros k Hk Hk64 Hnot. rewrite (free_outside m m' (c_off c) (c_off c + c_len c));
      [|done|by apply mod64_add|done|done|].
    + apply Hfree; [done|done|]. intros d Hd Hdk. assert (Hd' : d = c \/ d ∈ l1 ++ l2) by set_solver.
      destruct Hd' as [->|Hd']; [apply (Hnot c'); [set_solver|unfold inside in *; lia]|].
      by apply (Hnot d); [set_solver|].
    + intros Hck. apply (Hnot c'); [set_solver|]. unfold inside. lia.
Qed.

Lemma mem_ok_snoc m m' a cs c b :
  pos a -> laid a cs b -> chunk_at b c -> used cs + c_len c <= S -> mem_ok m cs ->
  outside b (b + c_len c) m m' -> chunk_ok m' c -> mem_ok m' (cs ++ [c]).
Proof using All.
  intros Ha Hl Hc Hu [Hcs Hfree] Hout Hok. destruct (laid_end a cs b Ha Hl) as [[_ Hb64] _].
  pose proof Hc as (Hoff & _ & Hcl & _).
  assert (Hl' : laid a (cs ++ [c]) (wrap (b + c_len c))) by (apply laid_app; exists b; done).
  split.
  - intros d Hd. assert (Hd' : d = c \/ d ∈ cs) by set_solver. destruct Hd' as [->|Hd']; [done|].
    destruct (laid_elem a cs b d Ha Hl Hd') as [Hdp Hda].
    apply (chunk_ok_outside m m' d b (b + c_len c)); [done|done|by apply Hcs|done|].
    rewrite <- Hoff. apply (laid_disjoint a cs c [] (wrap (b + c_len c)) d); [done|done| |by rewrite app_nil_r].
    rewrite used_app. simpl. lia.
  - intros k Hk Hk64 Hnot. rewrite (free_outside m m' b (b + c_len c)); [|done|by apply mod64_add|done|done|].
    + apply Hfree; [done|done|]. intros d Hd. apply Hnot. set_solver.
    + intros Hck. apply (Hnot c); [set_solver|]. unfold inside. lia.
Qed.

(** The lines of a range that no chunk covers. *)
Lemma mem_ok_quiet m a cs b n :
  pos a -> laid a cs b -> used cs + n <= S -> b + n <= S -> mem_ok m cs -> quiet m b n.
Proof using All.
  intros Ha Hl Hu Hn [_ Hfree] k Hk Hk64. destruct (laid_end a cs b Ha Hl) as [[Hb _] Hbe].
  apply Hfree; [lia|done|]. intros c Hc Hin. pose proof (laid_used _ _ _ Hl).
  pose proof (laid_idx a cs b c k Ha Hl ltac:(lia) Hc Hin) as Hi.
  assert (Hi' : idx b k = k - b) by (unfold idx; apply Z.mod_small; lia).
  rewrite Hbe in Hi'. rewrite (idx_shift a (used cs)) in Hi by lia. lia.
Qed.

(** A chunk that can be collected. *)
Definition collectable (c : chunk) : Prop := c_kind c = Freed \/ c_kind c = Skip false.

Lemma mem_ok_drop m a c cs b :
  pos a -> laid a (c :: cs) b -> collectable c -> mem_ok m (c :: cs) -> mem_ok m cs.
Proof using All.
  intros Ha [Hc Hl] Hcol [Hcs Hfree]. split; [intros d Hd; apply Hcs; set_solver|].
  intros k Hk Hk64 Hnot. destruct (decide (inside c k)) as [Hin|Hin].
  2: { apply Hfree; [done|done|]. intros d Hd. apply elem_of_cons in Hd as [->|Hd]; [done|by apply Hnot]. }
  assert (Hok : chunk_ok m c) by (apply Hcs; set_solver). unfold chunk_ok, inside in *.
  destruct Hcol as [Hk'|Hk']; rewrite Hk' in Hok; destruct Hok as [Hh Hq]; [by apply Hq|].
  destruct (decide (k = c_off c)) as [->|Hne].
  - apply header_quiet. by rewrite Hh.
  - apply Hq; [|done]. destruct Ha as [_ Ha64]. assert (c_off c = a) as Hoff by apply Hc.
    pose proof (Z.div_mod k 64). pose proof (Z.div_mod (c_off c) 64). rewrite Hoff in *. lia.
Qed.

(** ** The invariant of the ring *)

Definition passed (c : chunk) : Prop :=
  match c_kind c with Held _ | Freed | Skip false => True | _ => False end.
Definition pending (c : chunk) : Prop :=
  match c_kind c with Alloced | Sent _ | Skip true => True | _ => False end.

(** [tail] for a ring that starts at [a] and has [u] bytes in use. *)
Definition tail_at (r : HalfChannel) (a u : Z) : Prop :=
  (tail r = (if a =? 0 then S else a) - 1 /\ u < S) \/ (tail r = S /\ a = 0 /\ u = S).

(** The chunks: first those the receiver has passed, then those before it. *)
Record ring_at (a : Z) (r : HalfChannel) (P Q : list chunk) : Prop := {
  rg_pos : pos a;
  rg_next : laid a P (next r);
  rg_head : laid (next r) Q (head r);
  rg_used : used (P ++ Q) <= S;
  rg_tail : tail_at r a (used (P ++ Q));
  rg_mem : mem_ok (shared r) (P ++ Q);
  rg_passed c : c ∈ P -> passed c;
  rg_pending c : c ∈ Q -> pending c
}.
Definition ring (r : HalfChannel) (P Q : list chunk) : Prop := exists a, ring_at a r P Q.

(** When the ring is full, its oldest message lies at the start of the buffer
    and has been freed. *)
Definition roomy (r : HalfChannel) : Prop := tail r = S -> head r = 0 /\ ready (header (shared r) 0) = false.

Lemma ring_laid a r P Q : ring_at a r P Q -> laid a (P ++ Q) (head r).
Proof. intros Hr. apply laid_app. exists (next r). split; apply Hr. Qed.

(** ** Collection *)

(** The first chunk is collected. *)
Lemma ring_collect a r c P Q :
  ring_at a r (c :: P) Q -> collectable c ->
  ring_at (wrap (a + c_len c)) (set_tail (a + c_len c - 1) r) P Q.
Proof using All.
  intros Hr Hcol. pose proof (ring_laid _ _ _ _ Hr) as Hl. destruct Hr as [Ha [Hc Hn] Hh Hu Ht Hm Hp Hq]. simpl in Hu.
  pose proof (laid_used _ _ _ (proj2 Hl)). pose proof Hc as (_ & Hlen & _ & Hend & _).
  split; simpl; [by apply chunk_next|done|done|lia| |by apply (mem_ok_drop _ a c _ (head r))| |done].
  - left. simpl. destruct Ha as [? _]. unfold wrap. destruct (Z.leb_spec S (a + c_len c)); simpl; [lia|].
    rewrite (proj2 (Z.eqb_neq _ _)) by lia. lia.
  - intros d Hd. apply Hp. set_solver.
Qed.

(** The header of the first chunk tells whether it can be collected. *)
Lemma ring_first a r c cs P Q :
  ring_at a r P Q -> P ++ Q = c :: cs ->
  (ready (header (shared r) a) = false -> exists P', P = c :: P' /\ collectable c /\
    alloced (header (shared r) a) = c_len c /\
    (if negb (size (header (shared r) a) =? u16 (-1)) then a + c_len c - 1 else S - 1) = a + c_len c - 1).
Proof using All.
  intros Hr Heq Hrdy. pose proof (ring_laid _ _ _ _ Hr) as Hl. rewrite Heq in Hl. destruct Hl as [Hc _].
  assert (Hoff : c_off c = a) by apply Hc.
  assert (Hok : chunk_ok (shared r) c) by (apply (rg_mem _ _ _ _ Hr); rewrite Heq; set_solver).
  destruct P as [|c' P'].
  - simpl in Heq. assert (Hp : pending c) by (apply (rg_pending _ _ _ _ Hr); rewrite Heq; set_solver).
    unfold pending, chunk_ok in *. rewrite Hoff in Hok.
    destruct (c_kind c) as [|l|l| |[]]; try done; [|destruct Hok as [Hok _]|destruct Hok as [Hok _]]; by rewrite Hok in Hrdy.
  - simpl in Heq. injection Heq as -> _. exists P'. split; [done|].
    assert (Hp : passed c) by (apply (rg_passed _ _ _ _ Hr); set_solver).
    unfold passed, chunk_ok, collectable in *. rewrite Hoff in Hok. change (u16 (-1)) with 65535.
    destruct (c_kind c) as [|l|l| |[]] eqn:Hk; try done.
    + destruct Hok as [Hok _]. by rewrite Hok in Hrdy.
    + destruct Hok as [(sz & Hsz & Hok) _]. rewrite Hok. cbn [size alloced].
      split; [by left|]. split; [done|]. by rewrite (proj2 (Z.eqb_neq _ _)).
    + destruct Hok as [Hok _]. rewrite Hok. cbn [size alloced]. split; [by right|]. split; [done|].
      destruct Hc as (_ & _ & _ & _ & Hsk). rewrite Hk in Hsk. simpl. lia.
Qed.

Lemma cmpxchg_wp get put old new (Q : bool -> HalfChannel -> Prop) r :
  get r = old -> Q true (put new r) -> wp (cmpxchg get put old new) Q r.
Proof.
  intros Hg HQ. unfold cmpxchg. apply wp_bind, wp_gets. rewrite Hg, Z.eqb_refl. by apply wp_bind, wp_modify, wp_ret.
Qed.

Lemma get_msg_wp off (Q : Message -> HalfChannel -> Prop) r :
  pos off -> Q (header (shared r) off) r -> wp (get_msg S off) Q r.
Proof using All.
  intros [Hoff H64] HQ. unfold get_msg, sizeof_Message. rewrite (proj2 (andb_true_iff _ _)); [by apply wp_gets|].
  pose proof (Z.div_mod off 64). pose proof (Z.div_mod S 64). lia.
Qed.

(** What a collection leaves. *)
Definition collected (r : HalfChannel) (P Q : list chunk) (r' : HalfChannel) : Prop :=
  exists a' F P', P = F ++ P' /\ (forall c, c ∈ F -> collectable c) /\ ring_at a' r' P' Q /\
    r' = set_tail (tail r') r /\ tail r' < S.

(** And one by the collector, which stops only at a chunk that cannot be collected. *)
Definition swept (r : HalfChannel) (P Q : list chunk) (r' : HalfChannel) : Prop :=
  exists a' F P', P = F ++ P' /\ (forall c, c ∈ F -> collectable c) /\ ring_at a' r' P' Q /\
    r' = set_tail (tail r') r /\ tail r' < S /\ (forall c, List.hd_error P' = Some c -> ~ collectable c).

Lemma swept_collected r P Q r' : swept r P Q r' -> collected r P Q r'.
Proof. intros (a & F & P' & ? & ? & ? & ? & ? & _). by exists a, F, P'. Qed.

Lemma swept_cons r c P Q r' t : collectable c -> swept (set_tail t r) P Q r' -> swept r (c :: P) Q r'.
Proof.
  intros Hc (a' & F & P' & -> & HF & Hr & He & Ht). exists a', (c :: F), P'. split; [done|].
  split; [intros d [->|Hd]%elem_of_cons; auto|]. split; [done|]. split; [|done]. rewrite He at 1. done.
Qed.

(** The header of a chunk that can be collected is not ready. *)
Lemma collectable_quiet m c : chunk_ok m c -> collectable c -> ready (header m (c_off c)) = false.
Proof. unfold chunk_ok. intros Hok [Hk|Hk]; rewrite Hk in Hok; [destruct Hok as [(sz & _ & ->) _]|destruct Hok as [-> _]]; done. Qed.

(** The counter [freed] and the position [freeing] of the loop, for a ring that
    starts at [a], has [u] bytes in use and its head at [h]. *)
Definition gc_vars (a u h freeing freed : Z) : Prop :=
  (freeing = a \/ (a = 0 /\ S <= freeing)) /\
  ((freed = S - u /\ (u < S \/ S <= freeing)) \/ (freeing = a /\ a + u = h /\ 0 <= freed /\ freed + u < S)).

Lemma gc_vars_stop a u h freeing freed :
  pos a -> 0 <= u <= S -> h = (a + u) mod S -> gc_vars a u h freeing freed ->
  (freeing =? h) || (freed =? S) = (u =? 0).
Proof using All.
  intros [Ha _] Hu Hh [Hf Hv]. pose proof (Z.mod_pos_bound (a + u) S ltac:(lia)).
  destruct (Z.eqb_spec u 0) as [->|Hne].
  - rewrite Z.add_0_r, Z.mod_small in Hh by lia. destruct Hv as [[-> _]|(-> & ? & _)]; lia.
  - apply orb_false_iff. split; [|lia]. apply Z.eqb_neq. intros ->. destruct Hv as [[_ Hlt]|(? & ? & _)]; [|lia].
    destruct Hf as [->|[-> ?]]; [|lia]. destruct (decide (a + u < S)).
    + rewrite Z.mod_small in Hh by lia. lia.
    + replace (a + u) with (a + u - S + 1 * S) in Hh by lia. rewrite Z.mod_add, Z.mod_small in Hh by lia. lia.
Qed.

Lemma gc_vars_step a u h freeing freed n :
  pos a -> h < S -> 0 < n <= u -> u <= S -> a + n <= S -> gc_vars a u h freeing freed ->
  gc_vars (wrap (a + n)) (u - n) h (a + n) (freed + n).
Proof using All.
  intros [Ha _] Hh Hn Hu Hend [Hf Hv]. unfold gc_vars, wrap. split.
  - destruct (Z.leb_spec S (a + n)); [right; lia|by left].
  - destruct Hv as [[-> _]|(-> & <- & ? & ?)]; [left; lia|].
    destruct (Z.leb_spec S (a + n)); [left; lia|right; lia].
Qed.

Lemma gc_loop_wp fuel a r P Q freeing freed :
  ring_at a r P Q -> tail r < S \/ (used (P ++ Q) <> 0 /\ ready (header (shared r) a) = false) ->
  gc_vars a (used (P ++ Q)) (head r) freeing freed -> (length P < fuel)%nat ->
  wp (gc_loop S fuel (head r) (tail r) freeing freed) (fun _ r' => swept r P Q r') r.
Proof using All.
  revert a r P freeing freed. induction fuel as [|fuel IH]; intros a r P freeing freed Hr Ht Hv Hfuel; [lia|].
  pose proof (ring_laid _ _ _ _ Hr) as Hl. pose proof (rg_pos _ _ _ _ Hr) as Ha. pose proof (rg_used _ _ _ _ Hr) as Hu.
  destruct (laid_end a _ _ Ha Hl) as [[Hh _] Hhe]. pose proof (laid_used _ _ _ Hl).
  assert (Hdone : tail r < S -> (forall c, List.hd_error P = Some c -> ~ collectable c) -> swept r P Q r).
  { intros Hts Hfst. exists a, [], P. split; [done|]. split; [by intros c Hc%elem_of_nil|]. split; [done|]. by split; [destruct r|]. }
  cbn [gc_loop]. rewrite (gc_vars_stop a (used (P ++ Q))) by (done || lia).
  destruct (Z.eqb_spec (used (P ++ Q)) 0) as [He|Hne].
  { apply wp_ret, Hdone; [by destruct Ht as [|[]]|]. destruct P; [done|]. simpl in *. lia. }
  assert (Hfa : (if S <=? freeing then 0 else freeing) = a).
  { destruct Hv as [[->|[-> ?]] _]; [destruct Ha; by rewrite (proj2 (Z.leb_gt _ _)) by lia|by rewrite (proj2 (Z.leb_le _ _))]. }
  rewrite Hfa. apply wp_bind, get_msg_wp; [done|]. destruct (ready _) eqn:Hrdy.
  { apply wp_ret, Hdone; [destruct Ht as [|[_ ?]]; [done|congruence]|]. destruct P as [|c P]; [done|]. intros ? [= <-] Hcol.
    pose proof (mk_chunks _ _ (rg_mem _ _ _ _ Hr) c ltac:(set_solver)) as Hok. apply collectable_quiet in Hok; [|done].
    destruct Hl as [(Hoff & _) _]. rewrite Hoff in Hok. congruence. }
  destruct (P ++ Q) as [|c cs] eqn:Heq; [done|].
  destruct (ring_first a r c cs P Q Hr Heq Hrdy) as (P' & -> & Hcol & Hal & Hsz). rewrite Hal.
  pose proof Hl as [(_ & Hlen & _ & Hend & _) Hl']. pose proof (laid_used _ _ _ Hl'). simpl in Hu, Heq. injection Heq as Heq.
  assert (0 <= a < S) by apply Ha. rewrite (u64_small (a + c_len c - 1)), Hsz by lia.
  apply wp_bind, cmpxchg_wp; [done|]. cbn [negb].
  assert (Hfreed : 0 <= freed < 2 ^ 32).
  { destruct Hv as [_ [[-> _]|(_ & _ & ? & ?)]]; simpl in *; lia. }
  rewrite !u64_small by lia. replace (a + c_len c - 1 + 1) with (a + c_len c) by lia.
  eapply wp_mono; [apply (IH (wrap (a + c_len c)) (set_tail (a + c_len c - 1) r) P')|].
  - by apply ring_collect.
  - left. simpl. lia.
  - rewrite Heq. replace (used cs) with (used (c :: cs) - c_len c) by (simpl; lia).
    apply (gc_vars_step a _ _ freeing); [done|simpl; lia|simpl; lia|simpl; lia|lia|done].
  - simpl in Hfuel. lia.
  - cbv beta. intros _ r'. by apply swept_cons.
Qed.

(** The variables with which [_channel_gc] enters its loop. *)
Lemma gc_vars_init a u h t :
  pos a -> pos h -> 0 <= u <= S -> h = (a + u) mod S ->
  (t = (if a =? 0 then S else a) - 1 /\ u < S) \/ (t = S /\ a = 0 /\ u = S) ->
  gc_vars a u h (t + 1)
    (let freed := if t <? h then u64 (S - u64 (t + 1 - h)) else u64 (t + 1 - h) in if S <? freed then 0 else freed).
Proof using All.
  intros [Ha _] [Hh _] Hu He Ht. destruct Ht as [[-> Hlt]|(-> & -> & ->)].
  2: { rewrite Z.mod_same in He by lia. subst h. rewrite (proj2 (Z.ltb_ge _ _)), u64_small by lia. cbv zeta.
       rewrite (proj2 (Z.ltb_lt _ _)) by lia. split; [right; lia|left; lia]. }
  assert (Hwrap : (a + u < S /\ h = a + u) \/ (S <= a + u /\ h = a + u - S)).
  { destruct (decide (a + u < S)); [left; by rewrite Z.mod_small in He by lia|right].
    replace (a + u) with (a + u - S + 1 * S) in He by lia. rewrite Z.mod_add, Z.mod_small in He by lia. lia. }
  clear He. replace ((if a =? 0 then S else a) - 1 + 1) with (if a =? 0 then S else a) by lia.
  destruct (Z.eqb_spec a 0) as [->|Hne].
  - rewrite (proj2 (Z.ltb_ge _ _)), u64_small by lia. cbv zeta. rewrite (proj2 (Z.ltb_ge _ _)) by lia.
    split; [right; lia|left; lia].
  - cbv zeta. destruct (Z.ltb_spec (a - 1) h).
    + destruct (decide (u = 0)) as [->|].
      * replace (a - h) with 0 by lia. rewrite (u64_small 0), Z.sub_0_r, u64_small, Z.ltb_irrefl by lia.
        split; [by left|left; lia].
      * replace (u64 (a - h)) with (2 ^ 64 - u) by (unfold u64; apply (Z.mod_unique _ _ (-1)); lia).
        replace (u64 (S - (2 ^ 64 - u))) with (S + u) by (unfold u64; apply (Z.mod_unique _ _ (-1)); lia).
        rewrite (proj2 (Z.ltb_lt _ _)) by lia. split; [by left|right; lia].
    + rewrite u64_small by lia. rewrite (proj2 (Z.ltb_ge _ _)) by lia. split; [by left|left; lia].
Qed.

Lemma gc_wp r P Q : ring r P Q -> roomy r -> wp (_channel_gc S) (fun _ r' => swept r P Q r') r.
Proof using All.
  intros [a Hr] Hroom. pose proof (ring_laid _ _ _ _ Hr) as Hl. pose proof (rg_pos _ _ _ _ Hr) as Ha.
  pose proof (rg_used _ _ _ _ Hr) as Hu. pose proof (rg_tail _ _ _ _ Hr) as Ht.
  destruct (laid_end a _ _ Ha Hl) as [Hh Hhe]. pose proof (laid_used _ _ _ Hl) as Hlen.
  unfold _channel_gc. apply wp_bind, wp_gets, wp_bind, wp_gets. apply (gc_loop_wp _ a).
  - done.
  - destruct Ht as [[-> _]|(Htl & -> & Hfull)]; [left; destruct Ha; destruct (a =? 0); lia|right].
    split; [lia|by apply Hroom].
  - apply gc_vars_init; [done|done|lia|done|done].
  - unfold gc_fuel. rewrite length_app in Hlen. change CACHELINE_SIZE with 64.
    assert (Z.of_nat (length P) <= S / 64) by (apply Z.div_le_lower_bound; lia). lia.
Qed.

(** ** Writing headers *)

Definition stamped (m : bytes) (off : Z) (h : Message) (m' : bytes) : Prop :=
  header m' off = h /\ outside off (off + 5) m m'.

Lemma poke_wp off len f (Q : unit -> HalfChannel -> Prop) r :
  0 <= off -> off + len <= S -> Q tt (set_shared (f (shared r)) r) -> wp (poke S off len f) Q r.
Proof. intros H1 H2 HQ. unfold poke. rewrite (proj2 (andb_true_iff _ _)) by lia. by apply wp_modify. Qed.

Lemma pos_line off : pos off -> 0 <= off /\ off + 64 <= S.
Proof using All. intros [H H64]. pose proof (Z.div_mod off 64). pose proof (Z.div_mod S 64). lia. Qed.

Lemma set_size_wp off v (Q : unit -> HalfChannel -> Prop) r :
  pos off -> 0 <= v < 2 ^ 16 ->
  (forall m', stamped (shared r) off (mkMessage v (alloced (header (shared r) off)) (ready (header (shared r) off))) m' ->
    Q tt (set_shared m' r)) -> wp (set_size S off v) Q r.
Proof using All.
  intros Ho%pos_line Hv HQ. apply poke_wp; [lia|lia|]. apply HQ. split; [by apply header_size|].
  eapply outside_weaken; [apply wr16_outside|lia|lia].
Qed.

Lemma set_alloced_wp off v (Q : unit -> HalfChannel -> Prop) r :
  pos off -> 0 <= v < 2 ^ 16 ->
  (forall m', stamped (shared r) off (mkMessage (size (header (shared r) off)) v (ready (header (shared r) off))) m' ->
    Q tt (set_shared m' r)) -> wp (set_alloced S off v) Q r.
Proof using All.
  intros Ho%pos_line Hv HQ. apply poke_wp; [lia|lia|]. apply HQ. split; [by apply header_alloced|].
  eapply outside_weaken; [apply wr16_outside|lia|lia].
Qed.

Lemma set_ready_wp off b (Q : unit -> HalfChannel -> Prop) r :
  pos off ->
  (forall m', stamped (shared r) off (mkMessage (size (header (shared r) off)) (alloced (header (shared r) off)) b) m' ->
    Q tt (set_shared m' r)) -> wp (set_ready S off b) Q r.
Proof using All.
  intros Ho%pos_line HQ. apply poke_wp; [lia|lia|]. apply HQ. split; [by apply header_ready|].
  eapply outside_weaken; [apply wr_bool_outside|lia|lia].
Qed.

Lemma put_sentinel_wp off (Q : unit -> HalfChannel -> Prop) r :
  pos off -> 0 < off ->
  (forall m', stamped (shared r) off (mkMessage 65535 (S - off) true) m' -> Q tt (set_shared m' r)) ->
  wp (put_sentinel S off) Q r.
Proof using All.
  intros Ho Hp HQ. pose proof (pos_line off Ho). unfold put_sentinel. change (u16 (-1)) with 65535.
  replace (u16 (S - off)) with (S - off) by (unfold u16; rewrite Z.mod_small; lia).
  apply wp_bind, set_size_wp; [done|lia|]. intros m1 [Hh1 Ho1].
  apply wp_bind, set_alloced_wp; [done|lia|]. intros m2 [Hh2 Ho2].
  apply set_ready_wp; [done|]. intros m3 [Hh3 Ho3]. cbn [shared set_shared] in *. apply HQ. split.
  - by rewrite Hh3, Hh2, Hh1.
  - eapply outside_trans; [done|]. eapply outside_trans; [apply Ho2|apply Ho3].
Qed.

(** The header of a new message. *)
Lemma put_alloced_wp {A} off n (f : M HalfChannel A) (Q : A -> HalfChannel -> Prop) r :
  pos off -> 0 <= n < 2 ^ 16 ->
  (forall m', stamped (shared r) off (mkMessage 0 n true) m' -> wp f Q (set_shared m' r)) ->
  wp (set_size S off 0;; set_ready S off true;; set_alloced S off (u16 n);; f) Q r.
Proof using All.
  intros Ho Hn HQ. replace (u16 n) with n by (unfold u16; by rewrite Z.mod_small).
  apply wp_bind, set_size_wp; [done|lia|]. intros m1 [Hh1 Ho1].
  apply wp_bind, set_ready_wp; [done|]. intros m2 [Hh2 Ho2].
  apply wp_bind, set_alloced_wp; [done|done|]. intros m3 [Hh3 Ho3]. cbn [shared set_shared] in *. apply HQ. split.
  - by rewrite Hh3, Hh2, Hh1.
  - eapply outside_trans; [done|]. eapply outside_trans; [apply Ho2|apply Ho3].
Qed.

(** ** Allocation *)

(** A chunk is added at the head. *)
Lemma ring_add a r P Q c m' t' :
  ring_at a r P Q -> chunk_at (head r) c -> pending c -> used (P ++ Q) + c_len c <= S ->
  outside (head r) (head r + c_len c) (shared r) m' -> chunk_ok m' c ->
  (t' = tail r /\ tail r < S /\ used (P ++ Q) + c_len c < S) \/ (t' = S /\ a = 0 /\ used (P ++ Q) + c_len c = S) ->
  ring_at a (mkHalf (wrap (head r + c_len c)) t' (next r) m' (closed r)) P (Q ++ [c]).
Proof using All.
  intros Hr Hc Hpc Hu Hout Hok Ht. pose proof (ring_laid _ _ _ _ Hr) as Hl. destruct Hr as [Ha Hn Hh _ Htl Hm Hp Hq].
  split; simpl; [done|done| | | | |done|].
  - apply laid_app. exists (head r). by repeat split; try apply Hc.
  - rewrite app_assoc, used_app. simpl. lia.
  - unfold tail_at in *. rewrite app_assoc, used_app. simpl. rewrite Z.add_0_r.
    destruct Ht as [(-> & Hlt & ?)|(-> & -> & ->)]; [left; destruct Htl as [[-> _]|(? & _)]; [done|lia]|by right].
  - rewrite app_assoc. by apply (mem_ok_snoc (shared r) m' a _ c (head r)).
  - intros d [Hd|Hd]%elem_of_app; [by apply Hq|]. by apply list_elem_of_singleton in Hd as ->.
Qed.

(** What the chunks mean: the messages the receiver has not passed, in order,
    with their pointer, capacity and, once sent, payload; those it holds. *)
Definition waiting_msg (c : chunk) : option (Z * Z * option (list Z)) :=
  match c_kind c with
  | Alloced => Some (c_off c + 8, c_len c - 8, None)
  | Sent l => Some (c_off c + 8, c_len c - 8, Some l)
  | _ => None
  end.
Definition held_msg (c : chunk) : option (Z * Z * list Z) :=
  match c_kind c with Held l => Some (c_off c + 8, c_len c - 8, l) | _ => None end.
Definition waiting (Q : list chunk) : list (Z * Z * option (list Z)) := omap waiting_msg Q.
Definition held (P : list chunk) : list (Z * Z * list Z) := omap held_msg P.

Lemma waiting_app Q1 Q2 : waiting (Q1 ++ Q2) = waiting Q1 ++ waiting Q2.
Proof. apply omap_app. Qed.
Lemma held_app P1 P2 : held (P1 ++ P2) = held P1 ++ held P2.
Proof. apply omap_app. Qed.

Lemma held_collectable F : (forall c, c ∈ F -> collectable c) -> held F = [].
Proof.
  intros HF. induction F as [|c F IH]; [done|].
  change (c :: F) with ([c] ++ F). rewrite held_app, IH by (intros; apply HF; set_solver). unfold held, held_msg. simpl.
  by destruct (HF c ltac:(set_solver)) as [-> | ->].
Qed.

(** The free part of the ring. *)
Lemma ring_space a r P Q :
  ring_at a r P Q -> tail r < S ->
  0 <= tail r /\ (tail r + 1) mod 64 = 0 /\ (tail r = S - 1 -> a = 0) /\
  ((head r <= tail r /\ used (P ++ Q) = S - (tail r + 1 - head r)) \/
   (tail r < head r /\ used (P ++ Q) = head r - (tail r + 1))).
Proof using All.
  intros Hr Ht. pose proof (ring_laid _ _ _ _ Hr) as Hl. pose proof (rg_pos _ _ _ _ Hr) as Ha.
  pose proof (rg_used _ _ _ _ Hr) as Hu. pose proof (laid_used _ _ _ Hl).
  destruct (laid_end a _ _ Ha Hl) as [[Hh _] Hhe]. destruct Ha as [Ha Ha64].
  destruct (rg_tail _ _ _ _ Hr) as [[He Hlt]|(? & _)]; [|lia]. set (u := used (P ++ Q)) in *.
  assert (Hwrap : (a + u < S /\ head r = a + u) \/ (S <= a + u /\ head r = a + u - S)).
  { destruct (decide (a + u < S)); [left; by rewrite Z.mod_small in Hhe by lia|right].
    replace (a + u) with (a + u - S + 1 * S) in Hhe by lia. rewrite Z.mod_add, Z.mod_small in Hhe by lia. lia. }
  destruct (Z.eqb_spec a 0); [subst a|]; rewrite He.
  - replace (S - 1 + 1) with S by lia. split; [lia|]. split; [done|]. split; [done|lia].
  - replace (a - 1 + 1) with a by lia. split; [lia|]. split; [done|]. split; lia.
Qed.

Lemma message_size_spec size :
  0 <= size < 2 ^ 32 -> let n := _channel_message_size S size in
  n = 0 \/ (64 <= n <= S - 64 /\ n mod 64 = 0 /\ size + 8 <= n).
Proof using All.
  intros Hs. cbv zeta. unfold _channel_message_size, sizeof_Message, CACHELINE_MASK, CACHELINE_SIZE.
  rewrite u64_small by lia. destruct (Z.ltb_spec (S - 64) (size + 8)); [by left|right].
  change (64 - 1) with (Z.ones 6). rewrite Z.land_ones by lia. change (2 ^ 6) with 64.
  pose proof (Z.div_mod (size + 8) 64). pose proof (Z.mod_pos_bound (size + 8) 64). pose proof (Z.div_mod S 64).
  destruct (Z.eqb_spec ((size + 8) mod 64) 0); cbn [negb]; [lia|].
  rewrite <- Z.ldiff_land, Z.ldiff_ones_r, Z.shiftr_div_pow2, Z.shiftl_mul_pow2 by lia. change (2 ^ 6) with 64.
  rewrite u64_small by lia. split; [lia|]. split; [|lia].
  replace ((size + 8) / 64 * 64 + 64) with (((size + 8) / 64 + 1) * 64) by lia. by apply Z.mod_mul.
Qed.

(** The flag for a full ring and the move of the head. *)
Lemma take_place_wp (wrapped : bool) start n r (Q : option Z -> HalfChannel -> Prop) :
  (forall r', r' = mkHalf (wrap (start + n)) (if start + n =? tail r + 1 then S else tail r) (next r) (shared r) (closed r) ->
    wp ((if wrapped then put_sentinel S (head r) else mret tt);;
        set_size S start 0;; set_ready S start true;; set_alloced S start (u16 n);; mret (Some (start + 8)) : M HalfChannel (option Z)) Q r') ->
  wp (take_place S wrapped start n (head r) (tail r)) Q r.
Proof.
  intros HQ. unfold take_place, sizeof_Message. destruct (start + n =? tail r + 1); apply wp_bind.
  - apply wp_bind, cmpxchg_wp; [done|]. apply wp_ret. apply wp_bind, cmpxchg_wp; [done|]. by apply HQ.
  - apply wp_ret. apply wp_bind, cmpxchg_wp; [done|]. apply HQ. by destruct r.
Qed.

Lemma new_chunk_at b n : 64 <= n < 65535 -> n mod 64 = 0 -> b + n <= S -> chunk_at b (mkChunk b n Alloced).
Proof. intros. unfold chunk_at. simpl. lia. Qed.

Lemma place_head_wp a r P Q n :
  ring_at a r P Q -> tail r < S -> find_place S n (head r) (tail r) = At_head -> 64 <= n <= S - 64 -> n mod 64 = 0 ->
  wp (take_place S false (head r) n (head r) (tail r)) (fun o r' => o = Some (head r + 8) /\
    (roomy r' -> ring_at a r' P (Q ++ [mkChunk (head r) n Alloced]))) r.
Proof using All.
  intros Hr Ht Hf Hn Hn64. destruct (ring_space a r P Q Hr Ht) as (Ht0 & Ht64 & Htl & Hsp).
  destruct (laid_end a _ _ (rg_pos _ _ _ _ Hr) (ring_laid _ _ _ _ Hr)) as [Hhp Hhe].
  assert (Hfit : head r + n <= S /\ used (P ++ Q) + n <= S /\ (head r <= tail r -> head r + n <= tail r + 1)).
  { revert Hf. unfold find_place. destruct (_ || _) eqn:He; [intros _; lia|]. by destruct (_ && (n <=? tail r + 1)). }
  apply take_place_wp. intros r1 ->. apply wp_bind, wp_ret, put_alloced_wp; [done|lia|].
  intros m' [Hm Ho]. apply wp_ret. split; [done|]. intros Hroom. cbn [set_shared head tail next shared closed] in *.
  apply (ring_add a r P Q (mkChunk (head r) n Alloced) m'); simpl; [done|by apply new_chunk_at; lia|done|lia| |done|].
  { eapply outside_weaken; [done|lia|lia]. }
  unfold roomy in Hroom. simpl in Hroom. destruct (Z.eqb_spec (head r + n) (tail r + 1)).
  - right. destruct (Hroom eq_refl) as [Hw _]. unfold wrap in Hw. destruct (Z.leb_spec S (head r + n)); [|lia].
    split; [done|]. split; [apply Htl; lia|lia].
  - left. split; [done|]. split; [done|]. destruct Hsp as [[? ?]|[? ?]]; lia.
Qed.

(** The rest of the buffer is skipped. *)
Lemma ring_skip a r P Q m' :
  ring_at a r P Q -> tail r < head r -> stamped (shared r) (head r) (mkMessage 65535 (S - head r) true) m' ->
  ring_at a (mkHalf 0 (tail r) (next r) m' (closed r)) P (Q ++ [mkChunk (head r) (S - head r) (Skip true)]).
Proof using All.
  intros Hr Ht [Hm Ho]. pose proof (ring_laid _ _ _ _ Hr) as Hl. pose proof (rg_pos _ _ _ _ Hr) as Ha.
  destruct (laid_end a _ _ Ha Hl) as [Hhp _]. pose proof (pos_line _ Hhp). destruct Hhp as [_ Hh64].
  destruct (ring_space a r P Q Hr ltac:(lia)) as (Ht0 & _ & _ & Hsp).
  assert (Hlen : (S - head r) mod 64 = 0) by (pose proof (Z.div_mod S 64); pose proof (Z.div_mod (head r) 64); apply Z.mod_divide; [lia|exists (S / 64 - head r / 64); lia]).
  pose proof (ring_add a r P Q (mkChunk (head r) (S - head r) (Skip true)) m' (tail r)) as Hadd. simpl in Hadd.
  replace (wrap (head r + (S - head r))) with 0 in Hadd by (unfold wrap; by rewrite (proj2 (Z.leb_le _ _)) by lia).
  apply Hadd; [done| |done|lia| | |left; lia].
  - unfold chunk_at. simpl. lia.
  - eapply outside_weaken; [done|lia|lia].
  - split; [done|]. simpl.
    assert (Hq : quiet (shared r) (head r) (S - head r)) by (apply (mem_ok_quiet _ a (P ++ Q)); [done|done|lia|lia|apply Hr]).
    intros k Hk Hk64. rewrite Ho by lia. apply Hq; [lia|done].
Qed.

Lemma place_wrapped_wp a r P Q n :
  ring_at a r P Q -> tail r < head r -> n <= tail r + 1 -> 64 <= n <= S - 64 -> n mod 64 = 0 ->
  wp (take_place S true 0 n (head r) (tail r)) (fun o r' => o = Some 8 /\
    (roomy r' -> ring_at a r' P ((Q ++ [mkChunk (head r) (S - head r) (Skip true)]) ++ [mkChunk 0 n Alloced]))) r.
Proof using All.
  intros Hr Ht Hfit Hn Hn64. pose proof (rg_pos _ _ _ _ Hr) as Ha.
  destruct (laid_end a _ _ Ha (ring_laid _ _ _ _ Hr)) as [Hhp _].
  pose proof (pos_line _ Hhp) as Hhl. destruct (ring_space a r P Q Hr ltac:(lia)) as (Ht0 & Ht64 & Htl & Hsp).
  apply take_place_wp. intros r1 ->. apply wp_bind, put_sentinel_wp; [done|lia|]. intros m1 Hm1.
  apply put_alloced_wp; [by split; [lia|]|lia|]. intros m2 [Hm2 Ho2]. apply wp_ret. split; [done|].
  unfold roomy. cbn [set_shared head tail next shared closed] in *. intros Hroom. rewrite Z.add_0_l in *.
  destruct (Z.eqb_spec n (tail r + 1)).
  { destruct (Hroom eq_refl) as [Hw _]. unfold wrap in Hw. destruct (Z.leb_spec S n); lia. }
  pose proof (ring_skip a r P Q m1 Hr Ht Hm1) as Hr1. assert (tail r < S) by lia.
  destruct (ring_space _ _ _ _ Hr1) as (_ & _ & _ & Hsp1); [done|]. simpl in Hsp1.
  apply (ring_add a _ P _ (mkChunk 0 n Alloced) m2 (tail r) Hr1); simpl;
    [by apply new_chunk_at; lia|done|lia| |done|left; lia].
  eapply outside_weaken; [done|lia|lia].
Qed.

(** What an allocation does, if the ring has room afterwards. *)
Definition allocated (P Q : list chunk) (sz : Z) (o : option Z) (r' : HalfChannel) : Prop :=
  roomy r' -> exists P' Q', ring r' P' Q' /\ held P' = held P /\
    match o with
    | None => waiting Q' = waiting Q
    | Some d => let cap := _channel_message_size S sz - 8 in sz <= cap /\ waiting Q' = waiting Q ++ [(d, cap, None)]
    end.

Lemma place_wp a r P Q sz n (k : M HalfChannel (option Z)) :
  n = _channel_message_size S sz -> ring_at a r P Q -> tail r < S -> 64 <= n <= S - 64 -> n mod 64 = 0 -> sz + 8 <= n ->
  wp k (allocated P Q sz) r ->
  wp (match find_place S n (head r) (tail r) with
      | At_head => take_place S false (head r) n (head r) (tail r)
      | Wrapped => take_place S true 0 n (head r) (tail r)
      | Nowhere => k
      end) (allocated P Q sz) r.
Proof using All.
  intros Hsize Hr Ht Hn Hn64 Hsz Hk. destruct (find_place S n (head r) (tail r)) eqn:Hf; [| |done].
  - eapply wp_mono; [by apply (place_head_wp a r P Q n)|]. cbv beta. intros o r' [-> Hr'] Hroom.
    exists P, (Q ++ [mkChunk (head r) n Alloced]). split; [exists a; auto|]. split; [done|].
    cbv zeta. rewrite <- Hsize. split; [lia|]. by rewrite waiting_app.
  - assert (tail r < head r /\ n <= tail r + 1).
    { revert Hf. unfold find_place. destruct (_ || _); [done|]. destruct (_ && _) eqn:He; [|done]. lia. }
    eapply wp_mono; [apply (place_wrapped_wp a r P Q n); lia || done|]. cbv beta. intros o r' [-> Hr'] Hroom.
    exists P. eexists. split; [exists a; by apply Hr'|]. split; [done|]. cbv zeta. rewrite <- Hsize. split; [lia|].
    rewrite !waiting_app. unfold waiting at 2. simpl. by rewrite app_nil_r.
Qed.

Lemma collected_inv r P Q r' :
  collected r P Q r' ->
  exists a P1, ring_at a r' P1 Q /\ held P1 = held P /\ head r' = head r /\ tail r' < S.
Proof.
  intros (a & F & P1 & -> & HF & Hr & He & Ht). exists a, P1. split; [done|]. split; [|split; [|done]].
  - by rewrite held_app, (held_collectable F).
  - by rewrite He.
Qed.

Lemma allocated_held P1 P Q sz o r : held P1 = held P -> allocated P1 Q sz o r -> allocated P Q sz o r.
Proof. unfold allocated. by intros ->. Qed.

Lemma gc_if_full_wp r P Q :
  ring r P Q -> roomy r -> wp (if tail r =? S then _channel_gc S else mret tt) (fun _ r' => collected r P Q r') r.
Proof using All.
  intros Hr Hroom. destruct (Z.eqb_spec (tail r) S).
  { eapply wp_mono; [by apply gc_wp|]. cbv beta. intros _ r'. apply swept_collected. }
  destruct Hr as [a Hr]. apply wp_ret.
  exists a, [], P. split; [done|]. split; [by intros c Hc%elem_of_nil|]. split; [done|]. split; [by destruct r|].
  destruct (rg_tail _ _ _ _ Hr) as [[-> _]|[? _]]; [|done]. destruct (rg_pos _ _ _ _ Hr). destruct (a =? 0); lia.
Qed.

Lemma channel_allocate_wp r P Q sz :
  ring r P Q -> roomy r -> 0 <= sz < 2 ^ 32 -> wp (channel_allocate S sz) (allocated P Q sz) r.
Proof using All.
  intros Hr Hroom Hsz. unfold channel_allocate. apply wp_bind, wp_gets, wp_bind, wp_gets.
  pose proof (message_size_spec sz Hsz) as Hn. cbv zeta in Hn. set (n := _channel_message_size S sz) in *.
  destruct (Z.eqb_spec n 0); [apply wp_ret; intros _; by exists P, Q|]. destruct Hn as [?|(Hn & Hn64 & Hcap)]; [done|].
  apply wp_bind. eapply wp_mono; [by apply gc_if_full_wp|]. cbv beta.
  intros _ r1 (a1 & P1 & Hr1 & Hh1 & <- & Ht1)%collected_inv. apply wp_bind, wp_gets.
  eapply wp_mono; [|intros o r'; by apply (allocated_held P1)].
  apply (place_wp a1); [done|done|done|done|done|lia|]. apply wp_bind.
  eapply wp_mono; [apply (gc_wp r1 P1 Q); [by exists a1|intros ?; lia]|]. cbv beta.
  intros _ r2 (a2 & P2 & Hr2 & Hh2 & <- & Ht2)%swept_collected%collected_inv. apply wp_bind, wp_gets.
  eapply wp_mono; [|intros o r'; by apply (allocated_held P2)].
  apply (place_wp a2); [done|done|done|done|done|lia|].
  destruct (Z.ltb_spec (tail r2) (head r2)); [|apply wp_ret; intros _; exists P2, Q; split; [by exists a2|done]].
  apply wp_bind, cmpxchg_wp; [done|]. destruct (laid_end a2 _ _ (rg_pos _ _ _ _ Hr2) (ring_laid _ _ _ _ Hr2)) as [Hhp _].
  destruct (ring_space a2 r2 P2 Q Hr2 Ht2) as (? & _).
  apply wp_bind, put_sentinel_wp; [done|lia|]. intros m' Hm'. apply wp_ret. intros _.
  exists P2. eexists. split; [exists a2; by apply (ring_skip a2 r2 P2 Q m')|]. split; [done|].
  rewrite waiting_app. unfold waiting at 2. simpl. by rewrite app_nil_r.
Qed.

(** ** Messages on their way *)

(** A chunk of the same place. *)
Definition same_place (c c' : chunk) : Prop :=
  c_off c' = c_off c /\ c_len c' = c_len c /\ (chunk_at (c_off c) c -> chunk_at (c_off c) c').

Lemma laid_replace a l1 c c' l2 b : same_place c c' -> laid a (l1 ++ c :: l2) b -> laid a (l1 ++ c' :: l2) b.
Proof.
  intros (Ho & Hl & Hc) (x & H1 & H2 & H3)%laid_app. apply laid_app. exists x. split; [done|].
  assert (c_off c = x) as <- by apply H2. split; [auto|by rewrite Hl].
Qed.

Lemma used_replace l1 c c' l2 : same_place c c' -> used (l1 ++ c' :: l2) = used (l1 ++ c :: l2).
Proof. intros (_ & Hl & _). rewrite !used_app. simpl. by rewrite Hl. Qed.

Lemma ring_replace_Q a r P Q1 c c' Q2 m' :
  ring_at a r P (Q1 ++ c :: Q2) -> same_place c c' -> pending c' ->
  outside (c_off c) (c_off c + c_len c) (shared r) m' -> chunk_ok m' c' ->
  ring_at a (set_shared m' r) P (Q1 ++ c' :: Q2).
Proof using All.
  intros Hr Hs Hp Ho Hok. pose proof (ring_laid _ _ _ _ Hr) as Hl. rewrite app_assoc in Hl.
  destruct Hr as [Ha Hn Hh Hu Ht Hm Hpp Hqq]. rewrite app_assoc in Hu, Ht, Hm.
  split; simpl; rewrite ?(app_assoc P Q1); [done|done|by apply (laid_replace _ _ c)|by rewrite (used_replace _ c)| | |done|].
  - by rewrite (used_replace _ c).
  - by apply (mem_ok_update (shared r) m' a _ c c' Q2 (head r)); [| | | |apply (proj1 Hs)|apply (proj1 (proj2 Hs))| |].
  - intros d Hd. assert (Hd' : d = c' \/ d ∈ Q1 ++ c :: Q2) by set_solver. destruct Hd' as [->|]; auto.
Qed.

Lemma ring_replace_P a r P1 c c' P2 Q m' :
  ring_at a r (P1 ++ c :: P2) Q -> same_place c c' -> passed c' ->
  outside (c_off c) (c_off c + c_len c) (shared r) m' -> chunk_ok m' c' ->
  ring_at a (set_shared m' r) (P1 ++ c' :: P2) Q.
Proof using All.
  intros Hr Hs Hp Ho Hok. pose proof (ring_laid _ _ _ _ Hr) as Hl. rewrite <- app_assoc in Hl.
  destruct Hr as [Ha Hn Hh Hu Ht Hm Hpp Hqq]. rewrite <- app_assoc in Hu, Ht, Hm. simpl in *.
  split; simpl; rewrite <- ?app_assoc; simpl; [done|by apply (laid_replace _ _ c)|done|by rewrite (used_replace _ c)| | | |done].
  - by rewrite (used_replace _ c).
  - by apply (mem_ok_update (shared r) m' a _ c c' (P2 ++ Q) (head r)); [| | | |apply (proj1 Hs)|apply (proj1 (proj2 Hs))| |].
  - intros d Hd. assert (Hd' : d = c' \/ d ∈ P1 ++ c :: P2) by set_solver. destruct Hd' as [->|]; auto.
Qed.

(** The receiver passes a chunk. *)
Lemma ring_pass a r P c c' Q m' :
  ring_at a r P (c :: Q) -> same_place c c' -> passed c' ->
  outside (c_off c) (c_off c + c_len c) (shared r) m' -> chunk_ok m' c' ->
  ring_at a (mkHalf (head r) (tail r) (wrap (next r + c_len c)) m' (closed r)) (P ++ [c']) Q.
Proof using All.
  intros Hr Hs Hp Ho Hok. pose proof (ring_laid _ _ _ _ Hr) as Hl.
  destruct Hr as [Ha Hn Hh Hu Ht Hm Hpp Hqq]. destruct Hh as [Hc Hh].
  split; simpl; rewrite <- ?app_assoc; simpl; [done| |done|by rewrite (used_replace _ c)| | | |].
  - apply laid_app. exists (next r). split; [done|]. assert (Hoff : c_off c = next r) by apply Hc.
    destruct Hs as (Ho' & Hl' & Hc'). rewrite Hoff in *. split; [auto|]. simpl. by rewrite Hl'.
  - unfold tail_at in *. simpl. by rewrite (used_replace _ c).
  - by apply (mem_ok_update (shared r) m' a _ c c' Q (head r)); [| | | |apply (proj1 Hs)|apply (proj1 (proj2 Hs))| |].
  - intros d [Hd|Hd]%elem_of_app; [by apply Hpp|]. by apply list_elem_of_singleton in Hd as ->.
  - intros d Hd. apply Hqq. set_solver.
Qed.

Lemma omap_split {A B} (f : A -> option B) l w1 x w2 :
  omap f l = w1 ++ x :: w2 ->
  exists l1 y l2, l = l1 ++ y :: l2 /\ f y = Some x /\ omap f l1 = w1 /\ omap f l2 = w2.
Proof.
  revert w1. induction l as [|y l IH]; intros w1 Hw; simpl in Hw; [by destruct w1|].
  destruct (f y) as [z|] eqn:Hy.
  - destruct w1 as [|z' w1]; simpl in Hw; injection Hw as -> Hw.
    + by exists [], y, l.
    + destruct (IH w1 Hw) as (l1 & y' & l2 & -> & Hf & <- & Hl2). exists (y :: l1), y', l2.
      split; [done|]. split; [done|]. split; [simpl; by rewrite Hy|done].
  - destruct (IH w1 Hw) as (l1 & y' & l2 & -> & Hf & <- & Hl2). exists (y :: l1), y', l2.
    split; [done|]. split; [done|]. split; [simpl; by rewrite Hy|done].
Qed.

Lemma send_wp r P Q w1 d cap w2 l :
  ring r P Q -> waiting Q = w1 ++ (d, cap, None) :: w2 -> 0 < Z.of_nat (length l) <= cap ->
  wp (write_payload S d l;; channel_send S d (Z.of_nat (length l))) (fun _ r' =>
    exists Q', ring r' P Q' /\ waiting Q' = w1 ++ (d, cap, Some l) :: w2) r.
Proof using All.
  intros [a Hr] Hw Hlen. apply omap_split in Hw as (Q1 & c & Q2 & -> & Hc & Hw1 & Hw2).
  destruct c as [off len k]. destruct k; try done. cbn in Hc. injection Hc as <- <-.
  destruct (laid_elem a _ _ (mkChunk off len Alloced) (rg_pos _ _ _ _ Hr) (ring_laid _ _ _ _ Hr)) as [Hoff Hat]; [set_solver|].
  pose proof (mk_chunks _ _ (rg_mem _ _ _ _ Hr) (mkChunk off len Alloced) ltac:(set_solver)) as Hok.
  unfold chunk_ok in Hok. cbn [c_off c_len c_kind] in *. destruct Hat as (_ & Hl64 & Hlm & Hend & Hmax). simpl in *.
  pose proof (pos_line off Hoff). unfold write_payload. apply wp_bind, poke_wp; [lia|lia|].
  unfold channel_send, sizeof_Message. replace (off + 8 - 8) with off by lia.
  replace (u16 _) with (Z.of_nat (length l)) by (unfold u16; rewrite Z.mod_small; lia).
  apply set_size_wp; [done|lia|]. intros m' [Hm' Ho]. cbn [shared set_shared] in *.
  pose proof (wr_list_outside (off + 8) l (shared r)) as Ho1.
  assert (Hh : header (wr_list (off + 8) l (shared r)) off = header (shared r) off) by (apply header_ext; intros; apply Ho1; lia).
  rewrite Hh, Hok in Hm'. exists (Q1 ++ mkChunk off len (Sent l) :: Q2). split.
  - exists a. apply (ring_replace_Q a r P Q1 (mkChunk off len Alloced) (mkChunk off len (Sent l)) Q2 m' Hr); [done|done| |].
    + eapply outside_trans; [eapply outside_weaken; [apply Ho1|simpl; lia|simpl; lia]|].
      eapply outside_weaken; [apply Ho|simpl; lia|simpl; lia].
    + split; [done|]. split; [|simpl; lia]. simpl. apply (reads_outside (wr_list (off + 8) l (shared r)) m' _ _ off (off + 5));
        [apply wr_list_reads|done|lia].
  - unfold waiting in *. rewrite omap_app, Hw1. f_equal. cbn. f_equal. exact Hw2.
Qed.

(** The next message is not there. *)
Lemma next_quiet a r P : ring_at a r P [] -> roomy r -> ready (header (shared r) (next r)) = false.
Proof using All.
  intros Hr Hroom. pose proof (ring_laid _ _ _ _ Hr) as Hl. pose proof (rg_head _ _ _ _ Hr) as Hn. simpl in Hn.
  pose proof (rg_pos _ _ _ _ Hr) as Ha. destruct (laid_end _ _ _ Ha Hl) as [[Hh Hh64] _]. rewrite Hn.
  destruct (rg_tail _ _ _ _ Hr) as [[_ Hlt]|(Ht & -> & _)].
  - apply header_quiet. apply (mem_ok_quiet _ a (P ++ []) (head r) 1); [done|done|lia|lia|apply Hr|lia|done].
  - destruct (Hroom Ht) as [Hz Hrdy]. by rewrite Hz.
Qed.

(** What polling finds: no message, or the first one. *)
Definition polled (r : HalfChannel) (Q : list chunk) (res : Z * Z * Message) : Prop :=
  match Q with
  | c :: _ =>
      match c_kind c with
      | Sent l => res = (Z.of_nat (length l), next r, header (shared r) (next r))
      | Alloced => exists h, res = (if closed r then 2 ^ 64 - 1 else 0, next r, h)
      | _ => False
      end
  | [] => exists h, res = (if closed r then 2 ^ 64 - 1 else 0, next r, h)
  end.

Definition no_mark (Q : list chunk) : Prop := match Q with c :: _ => c_kind c <> Skip true | [] => True end.

Lemma poll_here_wp a r P Q fuel :
  ring_at a r P Q -> roomy r -> no_mark Q ->
  wp (poll_loop S (Datatypes.S fuel) (next r)) (fun res r' => r' = r /\ polled r Q res) r.
Proof using All.
  intros Hr Hroom Hmark. destruct (laid_end _ _ _ (rg_pos _ _ _ _ Hr) (rg_next _ _ _ _ Hr)) as [Hnp _].
  cbn [poll_loop]. apply wp_bind, get_msg_wp; [done|]. destruct Q as [|c Q].
  { rewrite (next_quiet a r P) by done. cbn [negb orb]. apply wp_bind, wp_gets, wp_ret. split; [done|by eexists]. }
  pose proof (rg_pending _ _ _ _ Hr c ltac:(set_solver)) as Hp. pose proof (rg_head _ _ _ _ Hr) as [Hc _].
  assert (Hoff : c_off c = next r) by apply Hc.
  pose proof (mk_chunks _ _ (rg_mem _ _ _ _ Hr) c ltac:(set_solver)) as Hok. unfold chunk_ok, pending, polled in *.
  rewrite Hoff in Hok. simpl in Hmark. destruct (c_kind c) as [|l| | |[]] eqn:Hk; try done.
  - rewrite Hok. cbn. apply wp_bind, wp_gets, wp_ret. split; [done|by eexists].
  - destruct Hok as (Hh & _ & Hl0 & Hl1). destruct Hc as (_ & _ & _ & _ & Hmax). rewrite Hk in Hmax.
    rewrite !Hh. cbn [ready size negb orb]. rewrite (proj2 (Z.eqb_neq _ _)) by lia.
    change (u16 (-1)) with 65535. rewrite (proj2 (Z.eqb_neq _ _)) by lia. by apply wp_ret.
Qed.

Lemma no_mark_at_0 Q b : laid 0 Q b -> no_mark Q.
Proof. destruct Q as [|c Q]; [done|]. intros [(_ & _ & _ & _ & Hk) _] Hs. rewrite Hs in Hk. lia. Qed.

(** Polling, which follows a mark. *)
Lemma poll_wp a r P Q :
  ring_at a r P Q -> roomy r ->
  wp (channel_poll_msg S) (fun res r' => exists P' Q', ring_at a r' P' Q' /\ held P' = held P /\
    waiting Q' = waiting Q /\ polled r' Q' res /\ closed r' = closed r) r.
Proof using All.
  intros Hr Hroom. unfold channel_poll_msg. apply wp_bind, wp_gets.
  assert (Hdec : no_mark Q \/ exists c Q', Q = c :: Q' /\ c_kind c = Skip true).
  { destruct Q as [|c Q]; [by left|]. destruct (c_kind c) as [| | | |[]] eqn:Hk; try (left; simpl; by rewrite Hk).
    right. by exists c, Q. }
  destruct Hdec as [Hm|(c & Q' & -> & Hk)].
  { eapply wp_mono; [by apply (poll_here_wp a r P Q)|]. cbv beta. intros res r' [-> Hres]. by exists P, Q. }
  pose proof (rg_head _ _ _ _ Hr) as [Hc _]. assert (Hoff : c_off c = next r) by apply Hc.
  destruct (laid_end _ _ _ (rg_pos _ _ _ _ Hr) (rg_next _ _ _ _ Hr)) as [Hnp _].
  pose proof (mk_chunks _ _ (rg_mem _ _ _ _ Hr) c ltac:(set_solver)) as Hok. unfold chunk_ok in Hok.
  rewrite Hk, Hoff in Hok. destruct Hok as [Hh Hq]. destruct Hc as (_ & Hlen & _ & _ & Hsk). rewrite Hk in Hsk.
  cbn [poll_loop]. apply wp_bind, get_msg_wp; [done|]. rewrite Hh. cbn [ready size negb orb Z.eqb].
  change (u16 (-1)) with 65535. cbn [Z.eqb Pos.eqb]. apply wp_bind, cmpxchg_wp; [done|]. cbn [negb].
  apply wp_bind, set_ready_wp; [done|]. intros m' [Hm' Ho]. cbn [set_next set_shared shared head tail closed] in *.
  rewrite Hh in Hm'. cbn [size alloced] in Hm'.
  pose proof (ring_pass a r P c (mkChunk (c_off c) (c_len c) (Skip false)) Q' m' Hr) as Hr1.
  replace (wrap (next r + c_len c)) with 0 in Hr1 by (unfold wrap; by rewrite (proj2 (Z.leb_le _ _)) by lia).
  assert (Hr1' : ring_at a (mkHalf (head r) (tail r) 0 m' (closed r)) (P ++ [mkChunk (c_off c) (c_len c) (Skip false)]) Q').
  { apply Hr1; [|done| |].
    - split; [done|]. split; [done|]. unfold chunk_at. by rewrite Hk.
    - rewrite Hoff. eapply outside_weaken; [done|lia|lia].
    - split; simpl; rewrite Hoff; [done|]. intros k Hk1 Hk2. rewrite Ho by lia. by apply Hq. }
  eapply wp_mono; [apply (poll_here_wp a _ _ Q' 0 Hr1')|].
  - intros Ht. destruct (Hroom Ht) as [? Hz]. split; [done|]. cbn [shared]. rewrite <- Hz. f_equal.
    apply header_ext. intros k Hk'. apply Ho. pose proof (pos_line _ Hnp). destruct Hnp as [_ H64].
    pose proof (Z.div_mod (next r) 64). lia.
  - apply (no_mark_at_0 Q' (head r)), Hr1'.
  - cbv beta. intros res r' [-> Hres]. eexists _, Q'. split; [done|].
    rewrite held_app. split; [by rewrite app_nil_r|]. split; [|done].
    change (c :: Q') with ([c] ++ Q'). rewrite waiting_app. unfold waiting at 2, waiting_msg. simpl. by rewrite Hk.
Qed.

(** What a reception does: the first waiting message, if it has been sent, is
    received with its payload. *)
Definition received (cl : bool) (P Q : list chunk) (res : Z * option Z) (r' : HalfChannel) : Prop :=
  exists P' Q', ring r' P' Q' /\
    match waiting Q with
    | (d, cap, Some l) :: w => res = (Z.of_nat (length l), Some d) /\ reads (shared r') d l /\
        waiting Q' = w /\ held P' = held P ++ [(d, cap, l)]
    | _ => res = (if cl then 2 ^ 64 - 1 else 0, None) /\ waiting Q' = waiting Q /\ held P' = held P
    end.

Lemma take_none_wp a r P Q h :
  ring_at a r P Q -> (forall d cap l w, waiting Q <> (d, cap, Some l) :: w) ->
  wp (take_msg S (if closed r then 2 ^ 64 - 1 else 0, next r, h)) (received (closed r) P Q) r.
Proof.
  intros Hr Hw. unfold take_msg. rewrite (proj2 (orb_true_iff _ _)) by (destruct (closed r); [by left|by right]).
  apply wp_ret. exists P, Q. split; [by exists a|].
  destruct (waiting Q) as [|[[d cap] [l|]] w]; [done|by destruct (Hw d cap l w)|done].
Qed.

Lemma take_sent_wp a r P Q off len l :
  ring_at a r P (mkChunk off len (Sent l) :: Q) ->
  wp (take_msg S (Z.of_nat (length l), next r, header (shared r) (next r)))
    (received (closed r) P (mkChunk off len (Sent l) :: Q)) r.
Proof using All.
  intros Hr. pose proof (rg_head _ _ _ _ Hr) as [(Hoff & Hlen & _ & Hend & Hmax) _].
  cbn [c_off c_len c_kind] in *. subst off.
  pose proof (mk_chunks _ _ (rg_mem _ _ _ _ Hr) (mkChunk (next r) len (Sent l)) ltac:(set_solver)) as Hok.
  pose proof Hok as (Hh & Hreads & Hl0 & Hl1). cbn [c_off c_len] in Hh, Hreads, Hl0, Hl1. unfold take_msg.
  rewrite (proj2 (orb_false_iff _ _)) by lia. rewrite Hh. cbn [alloced].
  apply wp_bind, cmpxchg_wp; [done|]. apply wp_ret.
  exists (P ++ [mkChunk (next r) len (Held l)]), Q. split.
  - exists a. apply (ring_pass a r P (mkChunk (next r) len (Sent l)) (mkChunk (next r) len (Held l)) Q (shared r) Hr);
      [done|done|apply outside_refl|done].
  - cbn. split; [done|]. split; [done|]. split; [done|]. by rewrite held_app.
Qed.

Lemma receive_wp r P Q :
  ring r P Q -> roomy r -> wp (channel_receive S) (received (closed r) P Q) r.
Proof using All.
  intros [a Hr] Hroom. unfold channel_receive. apply wp_bind. eapply wp_mono; [by apply (poll_wp a)|].
  cbv beta. intros res r1 (P1 & Q1 & Hr1 & Hh1 & Hw1 & Hres & <-).
  eapply (wp_mono _ (received (closed r1) P1 Q1)).
  2: { intros res' r'. unfold received. by rewrite Hh1, Hw1. }
  unfold polled in Hres. destruct Q1 as [|c Q1].
  { destruct Hres as [h ->]. by apply (take_none_wp a). }
  destruct c as [off len k]. cbn [c_kind] in Hres. destruct k as [|l| | |]; try done.
  - destruct Hres as [h ->]. by apply (take_none_wp a).
  - subst res. by apply (take_sent_wp a).
Qed.

(** ** Freeing *)

(** The [ready] bytes of [n] lines are cleared. *)
Lemma free_loop_wp n off (Q : unit -> HalfChannel -> Prop) r :
  off mod 64 = 0 -> 0 <= off -> off + 64 * Z.of_nat n <= S ->
  (forall m', (forall k, off <= k < off + 64 * Z.of_nat n -> k mod 64 = 4 -> m' k = 0) ->
    (forall k, off <= k < off + 64 * Z.of_nat n -> k mod 64 = 4 \/ m' k = shared r k) ->
    outside off (off + 64 * Z.of_nat n) (shared r) m' -> Q tt (set_shared m' r)) ->
  wp (free_loop S n off) Q r.
Proof using All.
  revert off r. induction n as [|n IH]; intros off r H64 H0 Hend HQ.
  { apply wp_ret. assert (He : set_shared (shared r) r = r) by by destruct r. rewrite <- He.
    apply HQ; [lia|lia|apply outside_refl]. }
  cbn [free_loop]. change CACHELINE_SIZE with 64. apply wp_bind, poke_wp; [lia|lia|].
  apply IH; [by apply mod64_add|lia|lia|]. intros m' Hz Hk Ho. cbn [shared set_shared] in *.
  assert (Hfst : forall k, k < off + 64 -> m' k = wr_bool (off + 4) false (shared r) k) by (intros k Hk'; apply Ho; lia).
  apply HQ.
  - intros k Hkr Hk4. destruct (decide (k < off + 64)); [|apply Hz; [lia|done]]. rewrite Hfst by done.
    assert (k = off + 4) as -> by (pose proof (Z.div_mod k 64); pose proof (Z.div_mod off 64); lia).
    unfold wr_bool, wr. by rewrite Z.eqb_refl.
  - intros k Hkr. destruct (decide (k < off + 64)).
    + rewrite Hfst by done. unfold wr_bool, wr. destruct (Z.eqb_spec k (off + 4)) as [->|]; [left|by right].
      by rewrite Z.add_mod, H64 by lia.
    + destruct (Hk k ltac:(lia)) as [?|Hk']; [by left|right]. rewrite Hk'. unfold wr_bool, wr.
      by rewrite (proj2 (Z.eqb_neq _ _)) by lia.
  - intros k Hkr. rewrite Ho by lia. unfold wr_bool, wr. by rewrite (proj2 (Z.eqb_neq _ _)) by lia.
Qed.

Lemma lines_of len : len mod 64 = 0 -> 0 <= len -> (len + 64 - 1) / 64 = len / 64 /\ 64 * (len / 64) = len.
Proof.
  intros Hm Hl. pose proof (Z.div_mod len 64). split; [|lia].
  symmetry. apply (Z.div_unique _ _ _ 63); lia.
Qed.

Lemma free_wp r P Q h1 d cap l h2 :
  ring r P Q -> held P = h1 ++ (d, cap, l) :: h2 ->
  wp (channel_free S d) (fun _ r' => exists P', ring r' P' Q /\ held P' = h1 ++ h2) r.
Proof using All.
  intros [a Hr] Hh. apply omap_split in Hh as (P1 & c & P2 & -> & Hc & Hh1 & Hh2).
  destruct c as [off len k]. destruct k; try done. cbn in Hc. injection Hc as <- <- ->.
  destruct (laid_elem a _ _ (mkChunk off len (Held l)) (rg_pos _ _ _ _ Hr) (ring_laid _ _ _ _ Hr)) as [Hoff Hat]; [set_solver|].
  pose proof (mk_chunks _ _ (rg_mem _ _ _ _ Hr) (mkChunk off len (Held l)) ltac:(set_solver)) as Hok.
  unfold chunk_ok in Hok. cbn [c_off c_len c_kind] in *. destruct Hok as (Hhd & _ & Hl0 & Hl1).
  destruct Hat as (_ & Hl64 & Hlm & Hend & Hmax). cbn [c_off c_len c_kind] in *. pose proof Hoff as [Hoff0 Hoff64].
  unfold channel_free, sizeof_Message, CACHELINE_SIZE. replace (off + 8 - 8) with off by lia.
  apply wp_bind, get_msg_wp; [done|]. rewrite Hhd. cbn [alloced].
  destruct (lines_of len Hlm ltac:(lia)) as [-> Hlen].
  assert (He : 64 * Z.of_nat (Z.to_nat (len / 64)) = len) by lia.
  apply free_loop_wp; [done|lia|lia|]. rewrite He. intros m' Hz Hk Ho.
  exists (P1 ++ mkChunk off len Freed :: P2). split.
  - exists a. apply (ring_replace_P a r P1 (mkChunk off len (Held l)) (mkChunk off len Freed) P2 Q m' Hr); [done|done|done|].
    assert (Hline : forall k, off <= k < off + len -> k mod 64 = 0 -> m' (k + 4) = 0).
    { intros k Hkr Hk0. pose proof (Z.div_mod k 64). pose proof (Z.div_mod (off + len) 64).
      assert ((off + len) mod 64 = 0) by by apply mod64_add. apply Hz; [lia|]. by rewrite Z.add_mod, Hk0. }
    split; [|exact Hline]. exists (Z.of_nat (length l)). split; [lia|]. cbn [c_off c_len].
    assert (Hsame : forall i, 0 <= i < 4 -> m' (off + i) = shared r (off + i)).
    { intros i Hi. destruct (Hk (off + i) ltac:(lia)) as [H4|]; [|done].
      rewrite Z.add_mod, Hoff64, (Z.mod_small i), Z.add_0_l, Z.mod_small in H4 by lia. lia. }
    unfold header in *. injection Hhd as H1 H2 _. rewrite (Hline off) by (done || lia).
    rewrite !Hsame by lia. rewrite <- (Z.add_0_r off) at 1. rewrite Hsame, Z.add_0_r by lia. by rewrite H1, H2.
  - unfold held in *. rewrite omap_app, Hh1. f_equal. exact Hh2.
Qed.

(** ** A drained channel *)

(** Nothing that the receiver has passed is in use. *)
Lemma passed_collectable P : (forall c, c ∈ P -> passed c) -> held P = [] -> forall c, c ∈ P -> collectable c.
Proof.
  intros Hp Hh c Hc. specialize (Hp c Hc). apply list_elem_of_split in Hc as (l1 & l2 & ->). unfold held in Hh.
  rewrite omap_app in Hh. apply app_nil in Hh as [_ Hh]. unfold passed, collectable, held_msg in *. simpl in Hh.
  destruct (c_kind c) as [| | | |[]]; auto; done.
Qed.

Lemma drained_roomy a r P : ring_at a r P [] -> held P = [] -> roomy r.
Proof using All.
  intros Hr Hh Ht. destruct (rg_tail _ _ _ _ Hr) as [[Ht' _]|(_ & -> & Hu)].
  { destruct (rg_pos _ _ _ _ Hr) as [? _]. destruct (a =? 0); lia. }
  destruct (laid_end 0 _ _ (rg_pos _ _ _ _ Hr) (ring_laid _ _ _ _ Hr)) as [_ ->]. rewrite Hu. split; [by rewrite Z.mod_same by lia|].
  destruct P as [|c P]; [simpl in Hu; lia|]. destruct (rg_next _ _ _ _ Hr) as [(Hoff & _) _]. rewrite <- Hoff.
  apply collectable_quiet; [apply (mk_chunks _ _ (rg_mem _ _ _ _ Hr)); set_solver|].
  eapply passed_collectable; [apply Hr|done|set_solver].
Qed.

(** A reception follows the mark, if there is nothing else. *)
Lemma drain_wp r P Q :
  ring r P Q -> roomy r -> waiting Q = [] -> held P = [] ->
  wp (channel_receive S) (fun _ r' => exists P', ring r' P' [] /\ held P' = [] /\ roomy r') r.
Proof using All.
  intros [a Hr] Hroom Hw Hh. unfold channel_receive. apply wp_bind. eapply wp_mono; [by apply (poll_wp a)|]. cbv beta.
  intros res r1 (P1 & Q1 & Hr1 & Hh1 & Hw1 & Hres & _). rewrite Hw in Hw1. rewrite Hh in Hh1.
  assert (Q1 = []) as ->.
  { destruct Q1 as [|c Q1]; [done|]. unfold polled, waiting, waiting_msg in *. simpl in Hw1.
    destruct (c_kind c) as [| | | |[]]; done. }
  destruct Hres as [h ->]. eapply wp_mono; [apply wp_and; [by eapply take_none_wp|apply (wp_wlp _ (fun _ r' => r' = r1))]|].
  - unfold take_msg. rewrite (proj2 (orb_true_iff _ _)) by (destruct (closed r1); [by left|by right]). by apply wp_ret.
  - cbv beta. intros _ r' [_ ->]. exists P1. split; [by exists a|]. split; [done|]. by eapply drained_roomy.
Qed.

(** What lies before the head has been swept up: half of the buffer is free in one piece. *)
Lemma swept_place r P r' n :
  (forall c, c ∈ P -> collectable c) -> swept r P [] r' -> 2 * n <= S -> find_place S n (head r') (tail r') <> Nowhere.
Proof using All.
  intros Hcol (a & F & P' & -> & _ & Hr & _ & Ht & Hfst) Hn.
  assert (P' = []) as ->.
  { destruct P' as [|c P']; [done|]. exfalso. apply (Hfst c eq_refl), Hcol. set_solver. }
  pose proof (rg_next _ _ _ _ Hr) as Hl1. pose proof (rg_head _ _ _ _ Hr) as Hl2. simpl in Hl1, Hl2. rewrite <- Hl2, <- Hl1.
  destruct (rg_pos _ _ _ _ Hr) as [Ha _]. destruct (rg_tail _ _ _ _ Hr) as [[-> _]|(? & _)]; [|lia]. unfold find_place.
  destruct (Z.eqb_spec a 0) as [->|]; [rewrite (proj2 (orb_true_iff _ _)); [done|left; lia]|].
  destruct (_ || _) eqn:He; [done|]. rewrite (proj2 (andb_true_iff _ _)); [done|]. lia.
Qed.

Lemma place_some_wp a r P Q n (k : M HalfChannel (option Z)) :
  ring_at a r P Q -> tail r < S -> 64 <= n <= S - 64 -> n mod 64 = 0 ->
  (find_place S n (head r) (tail r) = Nowhere -> wp k (fun o _ => o <> None) r) ->
  wp (match find_place S n (head r) (tail r) with
      | At_head => take_place S false (head r) n (head r) (tail r)
      | Wrapped => take_place S true 0 n (head r) (tail r)
      | Nowhere => k
      end) (fun o _ => o <> None) r.
Proof using All.
  intros Hr Ht Hn Hn64 Hk. destruct (find_place S n (head r) (tail r)) eqn:Hf; [| |by apply Hk].
  - eapply wp_mono; [by apply (place_head_wp a r P Q n)|]. by intros o r' [-> _].
  - assert (tail r < head r /\ n <= tail r + 1).
    { revert Hf. unfold find_place. destruct (_ || _); [done|]. destruct (_ && _) eqn:He; [|done]. lia. }
    eapply wp_mono; [apply (place_wrapped_wp a r P Q n); lia || done|]. by intros o r' [-> _].
Qed.

Lemma allocate_drained_wp r P sz :
  ring r P [] -> roomy r -> held P = [] -> 0 <= sz < 2 ^ 32 ->
  _channel_message_size S sz <> 0 -> 2 * _channel_message_size S sz <= S ->
  wp (channel_allocate S sz) (fun o _ => o <> None) r.
Proof using All.
  intros Hr Hroom Hh Hsz H0 Hhalf. unfold channel_allocate. apply wp_bind, wp_gets, wp_bind, wp_gets.
  pose proof (message_size_spec sz Hsz) as Hn. cbv zeta in Hn. set (n := _channel_message_size S sz) in *.
  rewrite (proj2 (Z.eqb_neq _ _)) by done. destruct Hn as [?|(Hn & Hn64 & _)]; [done|].
  apply wp_bind. eapply wp_mono; [by apply gc_if_full_wp|]. cbv beta.
  intros _ r1 (a1 & P1 & Hr1 & Hh1 & <- & Ht1)%collected_inv. rewrite Hh in Hh1. apply wp_bind, wp_gets.
  apply (place_some_wp a1 r1 P1 []); [done..|]. intros _. apply wp_bind.
  eapply wp_mono; [apply (gc_wp r1 P1 []); [by exists a1|intros ?; lia]|]. cbv beta. intros _ r2 Hsw.
  pose proof (swept_place r1 P1 r2 n (passed_collectable P1 (rg_passed _ _ _ _ Hr1) Hh1) Hsw Hhalf) as Hpl.
  apply swept_collected, collected_inv in Hsw as (a2 & P2 & Hr2 & _ & <- & Ht2). apply wp_bind, wp_gets.
  by apply (place_some_wp a2 r2 P2 []).
Qed.

(** ** The flag *)

(** Only [channel_close] changes the flag. *)
Lemma poke_keeps off len g : keeps closed (poke S off len g).
Proof. unfold poke. keeps_steps. Qed.
Lemma get_msg_keeps off : keeps closed (get_msg S off).
Proof. unfold get_msg. keeps_steps. Qed.
Lemma cmpxchg_keeps get put old new : (forall x r, closed (put x r) = closed r) -> keeps closed (cmpxchg get put old new).
Proof. intros Hput. unfold cmpxchg. repeat first [apply keeps_modify; solve [auto] | keeps_step]. Qed.
#[local] Hint Resolve poke_keeps get_msg_keeps : keeps.
#[local] Hint Extern 1 (keeps closed (cmpxchg _ _ _ _)) => apply cmpxchg_keeps; reflexivity : keeps.

Lemma gc_loop_keeps fuel : forall head0 tail0 freeing freed, keeps closed (gc_loop S fuel head0 tail0 freeing freed).
Proof. induction fuel as [|fuel IH]; intros; cbn [gc_loop]; repeat (apply IH || keeps_step; cbv zeta). Qed.
Lemma gc_keeps : keeps closed (_channel_gc S).
Proof. unfold _channel_gc. repeat (apply gc_loop_keeps || keeps_step; cbv zeta). Qed.
#[local] Hint Resolve gc_keeps : keeps.

Lemma allocate_keeps sz : keeps closed (channel_allocate S sz).
Proof. unfold channel_allocate, take_place, put_sentinel, set_size, set_ready, set_alloced. keeps_steps. Qed.
Lemma send_keeps d l : keeps closed (write_payload S d l;; channel_send S d (Z.of_nat (length l))).
Proof. unfold write_payload, channel_send, set_size. keeps_steps. Qed.
Lemma poll_loop_keeps fuel : forall n, keeps closed (poll_loop S fuel n).
Proof. induction fuel as [|fuel IH]; intros; cbn [poll_loop]; unfold set_ready; repeat (apply IH || keeps_step; cbv zeta). Qed.
Lemma receive_keeps : keeps closed (channel_receive S).
Proof. unfold channel_receive, channel_poll_msg, take_msg. repeat (apply poll_loop_keeps || keeps_step; cbv zeta). Qed.
Lemma free_loop_keeps n : forall m, keeps closed (free_loop S n m).
Proof. induction n as [|n IH]; intros; cbn [free_loop]; unfold set_ready; repeat (apply IH || keeps_step; cbv zeta). Qed.
Lemma free_keeps d : keeps closed (channel_free S d).
Proof. unfold channel_free. repeat (apply free_loop_keeps || keeps_step; cbv zeta). Qed.

(** ** The queue *)

(** The messages that wait, in the order of their allocation, with pointer,
    capacity and, once sent, payload; the messages the receiver holds; and whether
    the channel is closed. *)
Record fifo : Type := mkFifo {
  f_waiting : list (Z * Z * option (list Z));
  f_held : list (Z * Z * list Z);
  f_closed : bool
}.

(** The calls; [ChSend i d l] fills and sends the [i]-th waiting message, whose
    pointer is [d], and [ChFree i d] frees the [i]-th one held; [ChClose] is called by
    the end that owns the buffer or by the other one. *)
Inductive chan_op : Type :=
  ChAllocate (sz : Z) | ChSend (i : nat) (d : Z) (l : list Z) | ChReceive | ChFree (i : nat) (d : Z) | ChClose (owned : bool).

(** What a call returns; for a reception the size, the pointer and the payload
    read through it. *)
Inductive chan_res : Type := Ptr (o : option Z) | Got (sz : Z) (o : option (Z * list Z)) | Nothing.

Definition payload (m : bytes) (d : Z) (n : Z) : list Z := (fun i => m (d + Z.of_nat i)) <$> seq 0 (Z.to_nat n).

Definition chan_run (op : chan_op) : M HalfChannel chan_res :=
  match op with
  | ChAllocate sz => o ← channel_allocate S sz; mret (Ptr o)
  | ChSend _ d l => (write_payload S d l;; channel_send S d (Z.of_nat (length l)));; mret Nothing
  | ChReceive =>
      '(sz, o) ← channel_receive S;
      m ← gets shared;
      mret (Got sz ((fun d => (d, payload m d sz)) <$> o))
  | ChFree _ d => channel_free S d;; mret Nothing
  | ChClose owned => channel_close owned;; mret Nothing
  end.

Definition chan_pre (op : chan_op) (f : fifo) : Prop :=
  match op with
  | ChAllocate sz => 0 <= sz < 2 ^ 32
  | ChSend i d l => exists cap, f_waiting f !! i = Some (d, cap, None) /\ 0 < Z.of_nat (length l) <= cap
  | ChReceive | ChClose _ => True
  | ChFree i d => exists cap l, f_held f !! i = Some (d, cap, l)
  end.

(** What the calls do on the queue. *)
Definition fifo_step (op : chan_op) (res : chan_res) (f f' : fifo) : Prop :=
  match op, res with
  | ChAllocate sz, Ptr None => f' = f
  | ChAllocate sz, Ptr (Some d) =>
      let cap := _channel_message_size S sz - 8 in
      sz <= cap /\ f' = mkFifo (f_waiting f ++ [(d, cap, None)]) (f_held f) (f_closed f)
  | ChSend i d l, Nothing =>
      exists cap, f_waiting f !! i = Some (d, cap, None) /\
        f' = mkFifo (<[i := (d, cap, Some l)]> (f_waiting f)) (f_held f) (f_closed f)
  | ChReceive, Got n o =>
      match f_waiting f with
      | (d, cap, Some l) :: w =>
          n = Z.of_nat (length l) /\ o = Some (d, l) /\ f' = mkFifo w (f_held f ++ [(d, cap, l)]) (f_closed f)
      | _ => n = (if f_closed f then 2 ^ 64 - 1 else 0) /\ o = None /\ f' = f
      end
  | ChFree i d, Nothing => f' = mkFifo (f_waiting f) (delete i (f_held f)) (f_closed f)
  | ChClose owned, Nothing => f' = mkFifo (f_waiting f) (f_held f) (owned || negb (f_closed f))
  | _, _ => False
  end.

Definition linked (r : HalfChannel) (f : fifo) : Prop :=
  exists P Q, ring r P Q /\ roomy r /\ f = mkFifo (waiting Q) (held P) (closed r).

Lemma payload_reads m d l : reads m d l -> payload m d (Z.of_nat (length l)) = l.
Proof.
  intros Hr. apply list_eq. intros i. unfold payload. rewrite list_lookup_fmap, Nat2Z.id.
  destruct (l !! i) as [v|] eqn:Hi.
  - pose proof (lookup_lt_Some _ _ _ Hi). rewrite lookup_seq_lt by done. simpl. f_equal. by apply Hr.
  - apply lookup_ge_None in Hi. rewrite lookup_seq_ge by done. done.
Qed.

Lemma chan_close_wp owned r f :
  linked r f ->
  wp (chan_run (ChClose owned)) (fun res r' => exists f', fifo_step (ChClose owned) res f f' /\ linked r' f') r.
Proof using All.
  intros (P & Q & [a Hr] & Hroom & ->). cbn [chan_run fifo_step f_waiting f_held f_closed].
  assert (Hset : forall c, linked (set_closed c r) (mkFifo (waiting Q) (held P) c)).
  { intros c. exists P, Q. split; [exists a; destruct Hr; by split|done]. }
  unfold channel_close, mark_closed. apply wp_bind, wp_bind, wp_bind, wp_gets. destruct (closed r) eqn:Hc.
  - apply wp_ret. destruct owned; cbn [orb]; [apply wp_ret, wp_ret|apply wp_modify, wp_ret]; (eexists; split; [done|]).
    + exists P, Q. split; [by exists a|]. by rewrite Hc.
    + apply Hset.
  - apply wp_bind, wp_modify, wp_ret. rewrite orb_true_r. apply wp_ret, wp_ret. eexists. split; [done|].
    rewrite orb_true_r. apply Hset.
Qed.

Lemma chan_run_wp op r f :
  linked r f -> chan_pre op f ->
  wp (chan_run op) (fun res r' => roomy r' -> exists f', fifo_step op res f f' /\ linked r' f') r.
Proof using All.
  intros Hlk Hpre. destruct op as [sz|i d l| |i d|owned].
  5: { eapply wp_mono; [by apply chan_close_wp|]. auto. }
  all: destruct Hlk as (P & Q & Hr & Hroom & ->); cbn [chan_run chan_pre fifo_step f_waiting f_held f_closed] in *.
  - apply wp_bind. eapply wp_mono; [apply wp_and; [by apply (channel_allocate_wp r P Q)|apply allocate_keeps]|].
    intros o r' [Hal Hcl]. apply wp_ret. intros Hroom'. rewrite <- Hcl.
    destruct (Hal Hroom') as (P' & Q' & Hr' & Hh & Hw). exists (mkFifo (waiting Q') (held P') (closed r')).
    split; [|by exists P', Q']. rewrite Hh. destruct o as [d|]; [|by rewrite Hw]. destruct Hw as [? ->]. done.
  - destruct Hpre as (cap & Hi & Hl). apply wp_bind. eapply wp_mono; [apply wp_and; [|apply send_keeps]|].
    { apply (send_wp r P Q (take i (waiting Q)) d cap (drop (Datatypes.S i) (waiting Q))); [done| |done].
      symmetry. by apply take_drop_middle. }
    cbv beta. intros _ r' [(Q' & Hr' & Hw) Hcl]. apply wp_ret. intros Hroom'. exists (mkFifo (waiting Q') (held P) (closed r')).
    split; [|by exists P, Q']. exists cap. split; [done|]. rewrite Hw, Hcl. f_equal. symmetry. apply insert_take_drop.
    by eapply lookup_lt_Some.
  - apply wp_bind. eapply wp_mono; [apply wp_and; [by apply (receive_wp r P Q)|apply receive_keeps]|].
    intros [sz o] r' [(P' & Q' & Hr' & Hres) Hcl].
    apply wp_bind, wp_gets, wp_ret. intros Hroom'. exists (mkFifo (waiting Q') (held P') (closed r')). split; [|by exists P', Q'].
    destruct (waiting Q) as [|[[d cap] [l|]] w]; rewrite Hcl.
    + by destruct Hres as ([= -> ->] & -> & ->).
    + destruct Hres as ([= -> ->] & Hrd & -> & ->). split; [done|]. cbn. by rewrite payload_reads.
    + by destruct Hres as ([= -> ->] & -> & ->).
  - destruct Hpre as (cap & l & Hi). apply wp_bind. eapply wp_mono; [apply wp_and; [|apply free_keeps]|].
    { apply (free_wp r P Q (take i (held P)) d cap l (drop (Datatypes.S i) (held P))); [done|].
      symmetry. by apply take_drop_middle. }
    cbv beta. intros _ r' [(P' & Hr' & Hh) Hcl]. apply wp_ret. intros Hroom'. exists (mkFifo (waiting Q) (held P') (closed r')).
    split; [|by exists P', Q]. by rewrite Hh, delete_take_drop, Hcl.
Qed.

(** ** Sessions *)

(** A channel that has been set up over a clean buffer and used by calls that
    meet their preconditions, with the queue it stands for. *)
Inductive session : HalfChannel -> fifo -> Prop :=
  | session_start r0 : (forall k, shared r0 k = 0) -> session (channel_setup S r0) (mkFifo [] [] false)
  | session_step op res r r' f f' :
      session r f -> chan_pre op f -> chan_run op r = Done res r' -> roomy r' -> fifo_step op res f f' -> session r' f'.

Lemma ring_start r0 : (forall k, shared r0 k = 0) -> linked (channel_setup S r0) (mkFifo [] [] false).
Proof using All.
  intros Hz. exists [], []. split; [|split; [intros ?; simpl in *; lia|done]]. exists 0.
  split; simpl; [by split; [lia|]|done|done|lia|left; simpl; lia| | |].
  - split; [by intros c Hc%elem_of_nil|by intros k _ _ _].
  - by intros c Hc%elem_of_nil.
  - by intros c Hc%elem_of_nil.
Qed.

(** The queue after a call is determined by what the call returned. *)
Lemma fifo_step_det op res f f1 f2 : fifo_step op res f f1 -> fifo_step op res f f2 -> f1 = f2.
Proof.
  destruct op as [sz|i d l| |i d|owned], res as [[d'|]|n o|]; simpl; try done.
  - by intros [_ ->] [_ ->].
  - by intros -> ->.
  - intros (c1 & H1 & ->) (c2 & H2 & ->). rewrite H1 in H2. by injection H2 as ->.
  - destruct (f_waiting f) as [|[[d cap] [l|]] w]; intros (_ & _ & ->) (_ & _ & ->); done.
  - by intros -> ->.
  - by intros -> ->.
Qed.

Lemma session_linked r f : session r f -> linked r f.
Proof using All.
  induction 1 as [r0 Hz|op res r r' f f' _ IH Hpre Hrun Hroom Hstep]; [by apply ring_start|].
  pose proof (chan_run_wp op r f IH Hpre) as Hw. unfold wp in Hw. rewrite Hrun in Hw.
  destruct (Hw Hroom) as (f'' & Hs & Hl). by rewrite (fifo_step_det _ _ _ _ _ Hstep Hs).
Qed.

(** The memory of the messages in use. *)
Definition regions (f : fifo) : list (Z * Z) := (f_held f).*1 ++ (f_waiting f).*1.

(** No two of them overlap. *)
Definition apart (f : fifo) : Prop :=
  forall l1 x l2 y l3, regions f = l1 ++ x :: l2 ++ y :: l3 -> x.1 + x.2 <= y.1 \/ y.1 + y.2 <= x.1.

Definition region (c : chunk) : option (Z * Z) :=
  match c_kind c with Alloced | Sent _ | Held _ => Some (c_off c + 8, c_len c - 8) | _ => None end.

Lemma region_held P : (forall c, c ∈ P -> passed c) -> (held P).*1 = omap region P.
Proof.
  induction P as [|c P IH]; intros HP; [done|]. change (c :: P) with ([c] ++ P).
  rewrite held_app, omap_app, fmap_app, IH by (intros; apply HP; set_solver). f_equal.
  specialize (HP c ltac:(set_solver)). unfold passed, held, held_msg, region in *. cbn. by destruct (c_kind c) as [| | | |[]].
Qed.

Lemma region_waiting Q : (forall c, c ∈ Q -> pending c) -> (waiting Q).*1 = omap region Q.
Proof.
  induction Q as [|c Q IH]; intros HQ; [done|]. change (c :: Q) with ([c] ++ Q).
  rewrite waiting_app, omap_app, fmap_app, IH by (intros; apply HQ; set_solver). f_equal.
  specialize (HQ c ltac:(set_solver)). unfold pending, waiting, waiting_msg, region in *. cbn. by destruct (c_kind c) as [| | | |[]].
Qed.

Lemma linked_apart r f : linked r f -> apart f.
Proof using All.
  intros (P & Q & [a Hr] & _ & ->) l1 x l2 y l3. unfold regions. cbn [f_held f_waiting].
  rewrite region_held, region_waiting, <- omap_app by apply Hr. intros He.
  apply omap_split in He as (k1 & c & k2 & Hk & Hc & _ & He). apply omap_split in He as (k3 & c' & k4 & -> & Hc' & _ & _).
  pose proof (ring_laid _ _ _ _ Hr) as Hl. pose proof (rg_used _ _ _ _ Hr) as Hu. rewrite Hk in Hl, Hu.
  pose proof (laid_disjoint a k1 c _ _ c' (rg_pos _ _ _ _ Hr) Hl Hu ltac:(set_solver)) as Hd.
  unfold region in *. destruct (c_kind c), (c_kind c'); simplify_eq/=; lia.
Qed.

End Layout.

(** ** Demonstration *)

Definition quiet_buffer : HalfChannel := mkHalf 0 0 0 (fun _ => 0) false.

(** The state after a call. *)
Definition after (op : chan_op) (r : HalfChannel) : HalfChannel :=
  match chan_run 256 op r with Done _ r' => r' | _ => r end.

Lemma session_call op res r f f' :
  session 256 r f -> chan_pre op f -> match chan_run 256 op r with Done x _ => x = res | _ => False end ->
  tail (after op r) <> 256 -> fifo_step 256 op res f f' -> session 256 (after op r) f'.
Proof.
  intros Hs Hpre Hrun Ht Hf. unfold after in *. destruct (chan_run 256 op r) as [x r'| | |] eqn:He; try done. subst x.
  by apply (session_step 256 op res r r' f f' Hs Hpre He).
Qed.

(** Two messages are allocated, and sent in the other order; the first is received,
    then the channel is closed. *)
Definition demo_calls : list chan_op :=
  [ChAllocate 3; ChAllocate 2; ChSend 1 72 [7; 8]; ChSend 0 8 [1; 2; 3]; ChReceive; ChFree 0 8; ChClose true].
Definition demo_channel : HalfChannel := foldl (fun r op => after op r) (channel_setup 256 quiet_buffer) demo_calls.

Lemma demo_session : session 256 demo_channel (mkFifo [(72, 56, Some [7; 8])] [] true).
Proof.
  unfold demo_channel, demo_calls. cbn [foldl].
  eapply (session_call _ Nothing _ (mkFifo [(72, 56, Some [7; 8])] [] false));
    [|exact Logic.I|vm_compute; reflexivity|vm_compute; discriminate|reflexivity].
  eapply (session_call _ Nothing _ (mkFifo [(72, 56, Some [7; 8])] [(8, 56, [1; 2; 3])] false));
    [|by exists 56, [1; 2; 3]|vm_compute; reflexivity|vm_compute; discriminate|reflexivity].
  eapply (session_call _ (Got 3 (Some (8, [1; 2; 3]))) _ (mkFifo [(8, 56, Some [1; 2; 3]); (72, 56, Some [7; 8])] [] false));
    [|exact Logic.I|vm_compute; reflexivity|vm_compute; discriminate|by vm_compute].
  eapply (session_call _ Nothing _ (mkFifo [(8, 56, None); (72, 56, Some [7; 8])] [] false));
    [|by exists 56|vm_compute; reflexivity|vm_compute; discriminate|by exists 56].
  eapply (session_call _ Nothing _ (mkFifo [(8, 56, None); (72, 56, None)] [] false));
    [|by exists 56|vm_compute; reflexivity|vm_compute; discriminate|by exists 56].
  eapply (session_call _ (Ptr (Some 72)) _ (mkFifo [(8, 56, None)] [] false));
    [|by vm_compute|vm_compute; reflexivity|vm_compute; discriminate|by vm_compute].
  eapply (session_call _ (Ptr (Some 8)) _ (mkFifo [] [] false));
    [|by vm_compute|vm_compute; reflexivity|vm_compute; discriminate|by vm_compute].
  by apply session_start.
Qed.

