(* ===== verification/Dispatch.v ===== *)
(** * Matching responses to requests

    [messaging/dispatch.cpp] and [messaging/include/dispatch.h], in a process that
    sends requests and does not serve any: the dispatcher is not running, no thread
    sleeps.  It uses the queue, the map and the pool of [Containers]. *)

From S2P Require Import Prelude Containers.

Definition MAX_TRANSACTIONS : nat := 1024.

(** A message as [channel_select] yields it: header, payload and channel. *)
Record Incoming : Type := mkIncoming { in_handler : Z; in_id : Z; in_body : list Z; in_from : Z }.

(** What successive calls of [channel_select] find; nothing once the list has
    come to its end. *)
Inductive arrival : Type := Quiet | Arrived (m : Incoming).

(** A [PendingMessage *] is an index into the pool. *)
Record Dispatcher : Type := mkDispatcher {
  pending_responses : CircularQueue Z;
  pending_response_map : Map Z Z;
  pending_pool : Pool;
  pmsgs : gmap Z Incoming;
  poll_pmsg : option Z;
  arrivals : list arrival;
  notified : list (list Z)
}.

Definition set_queue (x : CircularQueue Z) (d : Dispatcher) :=
  mkDispatcher x (pending_response_map d) (pending_pool d) (pmsgs d) (poll_pmsg d) (arrivals d) (notified d).
Definition set_map (x : Map Z Z) (d : Dispatcher) :=
  mkDispatcher (pending_responses d) x (pending_pool d) (pmsgs d) (poll_pmsg d) (arrivals d) (notified d).
Definition set_pool (x : Pool) (d : Dispatcher) :=
  mkDispatcher (pending_responses d) (pending_response_map d) x (pmsgs d) (poll_pmsg d) (arrivals d) (notified d).
Definition set_pmsgs (x : gmap Z Incoming) (d : Dispatcher) :=
  mkDispatcher (pending_responses d) (pending_response_map d) (pending_pool d) x (poll_pmsg d) (arrivals d) (notified d).
Definition set_poll (x : option Z) (d : Dispatcher) :=
  mkDispatcher (pending_responses d) (pending_response_map d) (pending_pool d) (pmsgs d) x (arrivals d) (notified d).
Definition set_arrivals (x : list arrival) (d : Dispatcher) :=
  mkDispatcher (pending_responses d) (pending_response_map d) (pending_pool d) (pmsgs d) (poll_pmsg d) x (notified d).
Definition set_notified (x : list (list Z)) (d : Dispatcher) :=
  mkDispatcher (pending_responses d) (pending_response_map d) (pending_pool d) (pmsgs d) (poll_pmsg d) (arrivals d) x.

Definition get_pmsg (p : Z) : M Dispatcher Incoming := h ← gets pmsgs; deref (h !! p).

(** [pending_pool.free] *)
Definition free_pmsg (p : Z) : M Dispatcher unit :=
  pool ← gets pending_pool; pool' ← deref (pool_free p pool); modify (set_pool pool').

(** [_dispatchPoll(false)]: the element for the next message is allocated once
    and kept until a message comes.  There are no requests pending. *)
Definition _dispatchPoll : M Dispatcher (option Z) :=
  d ← gets id;
  match poll_pmsg d with
  | Some _ => mret tt
  | None =>
      let '(o, pool') := pool_allocate (pending_pool d) in
      modify (set_pool pool');; modify (set_poll o)
  end;;
  p ← gets poll_pmsg;
  p ← deref p;
  a ← gets arrivals;
  match a with
  | [] => mret None
  | Quiet :: a' => modify (set_arrivals a');; mret None
  | Arrived m :: a' =>
      modify (set_arrivals a');;
      modify (fun d => set_pmsgs (<[p := m]> (pmsgs d)) d);;
      modify (set_poll None);;
      mret (Some p)
  end.

(** [_dispatchProcessMessage]: whether the message is done with.  The callback
    for notifications gets their payloads in order. *)
Definition _dispatchProcessMessage (p : Z) : M Dispatcher bool :=
  m ← get_pmsg p;
  if in_handler m =? -1
  then
    q ← gets pending_responses;
    let '(pushed, q') := q_push p q in
    modify (set_queue q');;
    assert_ pushed;;
    mret false
  else if in_handler m =? -2
  then modify (fun d => set_notified (notified d ++ [in_body m]) d);; free_pmsg p;; mret true
  else abort.

(** [_dispatchProcessResponses], where no thread is found to wake. *)
Definition _dispatchProcessResponses : M Dispatcher unit :=
  q ← gets pending_responses;
  p ← deref (q_front q);
  modify (set_queue (q_pop q));;
  m ← get_pmsg p;
  rm ← gets pending_response_map;
  assert_ (map_find (in_id m) rm =? q_end rm);;
  modify (set_map (map_insert (in_id m) p rm)).

Fixpoint process_others (n : nat) : M Dispatcher unit :=
  match n with O => mret tt | S n' => _dispatchProcessResponses;; process_others n' end.

Definition _dispatchCheckPendingResponseMap (id : Z) : M Dispatcher (option Z) :=
  rm ← gets pending_response_map;
  let imsg := map_find id rm in
  if negb (imsg =? q_end rm)
  then p ← deref (map_value imsg rm); modify (set_map (q_rm_it imsg rm));; mret (Some p)
  else mret None.

(** [_dispatchWaitForMessage], which never yields; it waits for ever when nothing
    arrives any more. *)
Fixpoint wait_loop (fuel : nat) (id : Z) (other_response_count : nat) : M Dispatcher Z :=
  match fuel with
  | O => timeout
  | S fuel' =>
      o ← _dispatchPoll;
      match o with
      | Some p =>
          m ← get_pmsg p;
          if (in_handler m =? -1) && (in_id m =? id)
          then process_others other_response_count;; mret p
          else
            processed ← _dispatchProcessMessage p;
            wait_loop fuel' id (if (processed : bool) then other_response_count else S other_response_count)
      | None => wait_loop fuel' id other_response_count
      end
  end.
Definition _dispatchWaitForMessage (id : Z) : M Dispatcher Z :=
  n ← gets (fun d => length (arrivals d)); wait_loop n id 0.

(** [dispatchReceive]: the payload and the channel it came from. *)
Definition dispatchReceive (id : Z) : M Dispatcher (list Z * Z) :=
  o ← _dispatchCheckPendingResponseMap id;
  p ← match o with Some p => mret p | None => _dispatchWaitForMessage id end;
  m ← get_pmsg p;
  assert_ (in_handler m =? -1);;
  assert_ (in_id m =? id);;
  free_pmsg p;;
  mret (in_body m, in_from m).

Fixpoint notifications_loop (fuel : nat) : M Dispatcher unit :=
  match fuel with
  | O => timeout
  | S fuel' =>
      o ← _dispatchPoll;
      match o with Some p => _dispatchProcessMessage p;; notifications_loop fuel' | None => mret tt end
  end.
Definition dispatchCheckNotifications : M Dispatcher unit :=
  n ← gets (fun d => length (arrivals d)); notifications_loop (S n).

(** A dispatcher before its first use; [junk] fills the arrays. *)
Definition Dispatcher_new (junk : Z) (a : list arrival) : Dispatcher :=
  mkDispatcher (CircularQueue_new (replicate MAX_TRANSACTIONS junk)) (CircularQueue_new (replicate MAX_TRANSACTIONS (junk, junk)))
    (Pool_new MAX_TRANSACTIONS) ∅ None a [].

(** ** What is waiting *)

Definition is_response (id : Z) (m : Incoming) : Prop := in_handler m = -1 /\ in_id m = id.

(** The elements of the pool in use: in the map, in the queue, for the next
    message, and [extra] ones in the hands of the caller. *)
Definition owned (ids : gmap Z Z) (d : Dispatcher) : list Z :=
  (map_to_list ids).*2 ++ q_contents (pending_responses d) ++ option_list (poll_pmsg d).

Record inv (ids : gmap Z Z) (extra : list Z) (d : Dispatcher) : Prop := {
  iv_map : map_repr (pending_response_map d) ids;
  iv_map_cap : q_capacity (pending_response_map d) = Z.of_nat MAX_TRANSACTIONS;
  iv_queue : q_ok (pending_responses d);
  iv_queue_cap : q_capacity (pending_responses d) = Z.of_nat MAX_TRANSACTIONS;
  iv_pool : pool_repr (pending_pool d) (list_to_set (extra ++ owned ids d));
  iv_pool_cap : length (free_list (pending_pool d)) = MAX_TRANSACTIONS;
  iv_nodup : NoDup (extra ++ owned ids d);
  iv_ids id p : ids !! id = Some p -> exists m, pmsgs d !! p = Some m /\ is_response id m
}.

Lemma inv_bound ids extra d : inv ids extra d -> (length (extra ++ owned ids d) <= MAX_TRANSACTIONS)%nat.
Proof.
  intros Hi. pose proof (iv_pool _ _ _ Hi) as Hp.
  assert (Hsub : extra ++ owned ids d ⊆+ seqZ 0 (Z.of_nat MAX_TRANSACTIONS)).
  { apply NoDup_submseteq; [apply Hi|]. intros x Hx. apply elem_of_seqZ.
    assert (Hu : x ∈ (list_to_set (extra ++ owned ids d) : gset Z)) by by apply elem_of_list_to_set.
    apply (pr_used _ _ Hp) in Hu. rewrite (iv_pool_cap _ _ _ Hi) in Hu. lia. }
  apply submseteq_length in Hsub. rewrite length_seqZ in Hsub. lia.
Qed.

Lemma map_repr_size (q : Map Z Z) (m : gmap Z Z) : map_repr q m -> q_size q = Z.of_nat (size m).
Proof.
  intros [Hok Hnd Hm]. rewrite <- Hm, <- length_map_to_list.
  assert (Hp : map_to_list (list_to_map (q_contents q) : gmap Z Z) ≡ₚ q_contents q) by by apply map_to_list_to_map.
  rewrite Hp, q_contents_length by done. pose proof (qo_size _ Hok). lia.
Qed.

Lemma owned_length ids d :
  length (owned ids d) = (size ids + length (q_contents (pending_responses d)) + length (option_list (poll_pmsg d)))%nat.
Proof. unfold owned. rewrite !length_app, length_fmap, length_map_to_list. lia. Qed.

(** The pool after a change of the elements in use. *)
Lemma pool_repr_eq p (u u' : gset Z) : pool_repr p u -> u = u' -> pool_repr p u'.
Proof. by intros ? <-. Qed.

(** ** Operations *)

Lemma get_pmsg_wp p m (Q : Incoming -> Dispatcher -> Prop) d :
  pmsgs d !! p = Some m -> Q m d -> wp (get_pmsg p) Q d.
Proof. intros Hp HQ. unfold get_pmsg. apply wp_bind, wp_gets. by apply (wp_deref _ m). Qed.

Lemma pool_free_length p i p' : pool_free i p = Some p' -> length (free_list p') = length (free_list p).
Proof. unfold pool_free. case_match; [|done]. intros [= <-]. simpl. apply length_insert. Qed.
Lemma pool_allocate_length p : length (free_list (pool_allocate p).2) = length (free_list p).
Proof. unfold pool_allocate. by case_match. Qed.

Lemma free_pmsg_wp ids extra p d (Q : unit -> Dispatcher -> Prop) :
  inv ids (p :: extra) d -> (forall pool', inv ids extra (set_pool pool' d) -> Q tt (set_pool pool' d)) ->
  wp (free_pmsg p) Q d.
Proof.
  intros Hi HQ. unfold free_pmsg. apply wp_bind, wp_gets. destruct Hi as [Hm Hmc Hq Hqc Hp Hpc Hnd Hids].
  destruct (pool_free_repr (pending_pool d) _ p Hp) as (pool' & Hf & Hp'); [simpl; set_solver|].
  apply wp_bind, (wp_deref _ pool'); [done|]. apply wp_modify, HQ. simpl in Hnd. apply NoDup_cons in Hnd as [Hn Hnd].
  split; simpl; try done; [|by rewrite (pool_free_length _ _ _ Hf)].
  apply (pool_repr_eq _ _ _ Hp'). cbn. change (owned ids (set_pool pool' d)) with (owned ids d).
  assert (p ∉ (list_to_set (extra ++ owned ids d) : gset Z)) by by rewrite elem_of_list_to_set. set_solver.
Qed.

(** What a step leaves alone. *)
Definition kept (d d' : Dispatcher) : Prop :=
  pending_responses d' = pending_responses d /\ pending_response_map d' = pending_response_map d /\ notified d' = notified d.

Lemma pool_exhausted ids d :
  inv ids [] d -> (forall i, 0 <= i < Z.of_nat MAX_TRANSACTIONS -> i ∈ (list_to_set (owned ids d) : gset Z)) ->
  (MAX_TRANSACTIONS <= length (owned ids d))%nat.
Proof.
  intros Hi Hall. assert (Hsub : seqZ 0 (Z.of_nat MAX_TRANSACTIONS) ⊆+ owned ids d).
  { apply NoDup_submseteq; [apply NoDup_seqZ|]. intros x Hx%elem_of_seqZ.
    apply (elem_of_list_to_set (C := gset Z)), Hall. lia. }
  apply submseteq_length in Hsub. rewrite length_seqZ in Hsub. lia.
Qed.

(** The element for the next message. *)
Lemma poll_slot_wp ids d (Q : unit -> Dispatcher -> Prop) :
  inv ids [] d -> (size ids + length (q_contents (pending_responses d)) < MAX_TRANSACTIONS)%nat ->
  (forall p d', inv ids [] d' -> poll_pmsg d' = Some p -> kept d d' -> pmsgs d' = pmsgs d -> arrivals d' = arrivals d ->
    Q tt d') ->
  wp (match poll_pmsg d with
      | Some _ => mret tt
      | None =>
          let '(o, pool') := pool_allocate (pending_pool d) in
          modify (set_pool pool');; modify (set_poll o)
      end) Q d.
Proof.
  intros Hi Hroom HQ. destruct (poll_pmsg d) as [p|] eqn:Hpoll; [by apply wp_ret, (HQ p)|].
  pose proof (pool_allocate_length (pending_pool d)) as Hlen.
  pose proof (pool_allocate_repr (pending_pool d) _ (iv_pool _ _ _ Hi)) as Hal.
  destruct (pool_allocate (pending_pool d)) as [[i|] pool'].
  - destruct Hal as [Hni Hp']. apply wp_bind, wp_modify, wp_modify, (HQ i); [|done|done|done|done].
    destruct Hi as [Hm Hmc Hq Hqc Hp Hpc Hnd Hids].
    assert (Ho : owned ids (set_poll (Some i) (set_pool pool' d)) = owned ids d ++ [i]).
    { unfold owned. simpl. rewrite Hpoll. simpl. rewrite app_nil_r. by rewrite app_assoc. }
    split; simpl; try done; [|simpl in Hlen; by rewrite Hlen|].
    + rewrite Ho. apply (pool_repr_eq _ _ _ Hp'). rewrite list_to_set_app_L. set_solver.
    + rewrite Ho. simpl in *. apply NoDup_app. split; [done|]. split; [|apply NoDup_singleton].
      intros x Hx ->%list_elem_of_singleton. apply Hni. by apply elem_of_list_to_set.
  - destruct Hal as [_ Hall]. rewrite (iv_pool_cap _ _ _ Hi) in Hall. pose proof (pool_exhausted ids d Hi Hall) as Hlong.
    rewrite owned_length, Hpoll in Hlong. simpl in Hlong. lia.
Qed.

Lemma dispatch_poll_wp ids d (Q : option Z -> Dispatcher -> Prop) :
  inv ids [] d -> (size ids + length (q_contents (pending_responses d)) < MAX_TRANSACTIONS)%nat ->
  match arrivals d with
  | Arrived m :: a => forall p d', inv ids [p] d' -> kept d d' -> pmsgs d' = <[p := m]> (pmsgs d) ->
      p ∉ q_contents (pending_responses d) -> arrivals d' = a -> Q (Some p) d'
  | l => forall d', inv ids [] d' -> kept d d' -> pmsgs d' = pmsgs d -> arrivals d' = tail l -> Q None d'
  end -> wp _dispatchPoll Q d.
Proof.
  intros Hi Hroom HQ. unfold _dispatchPoll. apply wp_bind, wp_gets. unfold id. apply wp_bind, (poll_slot_wp ids); [done|done|].
  intros p d1 Hi1 Hp1 Hk1 Hpm1 Ha1. apply wp_bind, wp_gets, wp_bind, (wp_deref _ p); [done|]. apply wp_bind, wp_gets.
  rewrite Ha1. destruct (arrivals d) as [|[|m] a].
  - apply wp_ret, HQ; done.
  - apply wp_bind, wp_modify, wp_ret, HQ; [|done|done|done]. by destruct Hi1.
  - apply wp_bind, wp_modify, wp_bind, wp_modify, wp_bind, wp_modify, wp_ret.
    assert (Ho : owned ids d1 ≡ₚ p :: owned ids (set_poll None d1)).
    { unfold owned. simpl. rewrite Hp1. simpl. rewrite app_nil_r, app_assoc. symmetry. apply Permutation_cons_append. }
    destruct Hi1 as [Hm Hmc Hq Hqc Hp Hpc Hnd Hids]. simpl in Hnd. rewrite Ho in Hnd. pose proof Hnd as [Hpn _]%NoDup_cons.
    apply HQ; [|done|by rewrite <- Hpm1| |done].
    + split; simpl; try done.
      * apply (pool_repr_eq _ _ _ Hp). apply set_eq. intros x.
        rewrite elem_of_union, elem_of_singleton, !elem_of_list_to_set. cbn [app]. rewrite Ho. apply elem_of_cons.
      * intros id q Hid. destruct (Hids id q Hid) as (m0 & Hm0 & Hr0). exists m0. split; [|done].
        rewrite lookup_insert_ne; [done|]. intros <-. apply Hpn. unfold owned. apply elem_of_app. left.
        apply list_elem_of_fmap. exists (id, p). split; [done|]. by apply elem_of_map_to_list.
    + destruct Hk1 as (<- & _). intros Hin. apply Hpn. unfold owned. simpl. rewrite !elem_of_app. auto.
Qed.

(** The responses that have arrived and nobody has asked for. *)
Definition unclaimed (ids : gmap Z Z) (d : Dispatcher) : gmap Z Incoming := omap (fun p => pmsgs d !! p) ids.

Lemma inv_perm ids ids' extra extra' d d' :
  inv ids extra d -> pending_pool d' = pending_pool d -> extra' ++ owned ids' d' ≡ₚ extra ++ owned ids d ->
  map_repr (pending_response_map d') ids' -> q_capacity (pending_response_map d') = Z.of_nat MAX_TRANSACTIONS ->
  q_ok (pending_responses d') -> q_capacity (pending_responses d') = Z.of_nat MAX_TRANSACTIONS ->
  (forall id p, ids' !! id = Some p -> exists m, pmsgs d' !! p = Some m /\ is_response id m) ->
  inv ids' extra' d'.
Proof.
  intros Hi Hpool Hperm Hm Hmc Hq Hqc Hids. split; try done.
  - rewrite Hpool. apply (pool_repr_eq _ _ _ (iv_pool _ _ _ Hi)). apply set_eq. intros x.
    rewrite !elem_of_list_to_set. by rewrite Hperm.
  - rewrite Hpool. apply Hi.
  - rewrite Hperm. apply Hi.
Qed.

Lemma push_response_wp ids p m d (Q : bool -> Dispatcher -> Prop) :
  inv ids [p] d -> pmsgs d !! p = Some m -> in_handler m = -1 ->
  (length (q_contents (pending_responses d)) < MAX_TRANSACTIONS)%nat ->
  (forall q', inv ids [] (set_queue q' d) -> q_contents q' = q_contents (pending_responses d) ++ [p] ->
    Q false (set_queue q' d)) ->
  wp (_dispatchProcessMessage p) Q d.
Proof.
  intros Hi Hp Hm Hroom HQ. unfold _dispatchProcessMessage. apply wp_bind, (get_pmsg_wp p m); [done|].
  rewrite Hm. cbn [Z.eqb Pos.eqb]. apply wp_bind, wp_gets.
  pose proof (q_push_spec p (pending_responses d) (iv_queue _ _ _ Hi)) as Hpush.
  destruct (q_push p (pending_responses d)) as [b q']. destruct Hpush as (Hok & Hcap & Hpush).
  rewrite decide_True in Hpush by (rewrite (iv_queue_cap _ _ _ Hi); lia). destruct Hpush as [-> Hc].
  apply wp_bind, wp_modify, wp_bind, wp_assert; [done|]. apply wp_ret, HQ; [|done].
  apply (inv_perm ids ids [p] [] d); try done; [| | |by rewrite <- (iv_queue_cap _ _ _ Hi)|].
  - unfold owned. simpl. rewrite Hc. rewrite <- app_assoc. simpl. rewrite app_assoc.
    rewrite <- Permutation_middle. by rewrite <- app_assoc.
  - apply Hi.
  - apply Hi.
  - apply Hi.
Qed.

Lemma process_note_wp ids p m d (Q : bool -> Dispatcher -> Prop) :
  inv ids [p] d -> pmsgs d !! p = Some m -> in_handler m = -2 ->
  (forall d', inv ids [] d' -> pending_responses d' = pending_responses d -> pmsgs d' = pmsgs d ->
    arrivals d' = arrivals d -> notified d' = notified d ++ [in_body m] -> Q true d') ->
  wp (_dispatchProcessMessage p) Q d.
Proof.
  intros Hi Hp Hm HQ. unfold _dispatchProcessMessage. apply wp_bind, (get_pmsg_wp p m); [done|].
  rewrite Hm. cbn [Z.eqb Pos.eqb]. apply wp_bind, wp_modify. apply wp_bind, (free_pmsg_wp ids []).
  - by destruct Hi.
  - intros pool' Hi'. by apply wp_ret, HQ.
Qed.

Lemma owned_front ids ids' id p ql d q' rm' :
  ids !! id = None -> ids' = <[id := p]> ids -> q_contents (pending_responses d) = p :: ql -> q_contents q' = ql ->
  owned ids' (set_map rm' (set_queue q' d)) ≡ₚ owned ids d.
Proof.
  intros Hid -> Hq Hq'. unfold owned. simpl. rewrite Hq, Hq'. rewrite map_to_list_insert by done. simpl.
  by rewrite Permutation_middle.
Qed.

Lemma process_response_wp ids extra p ql m d (Q : unit -> Dispatcher -> Prop) :
  inv ids extra d -> q_contents (pending_responses d) = p :: ql -> pmsgs d !! p = Some m -> in_handler m = -1 ->
  ids !! in_id m = None -> (size ids < MAX_TRANSACTIONS)%nat ->
  (forall d', inv (<[in_id m := p]> ids) extra d' -> q_contents (pending_responses d') = ql -> pmsgs d' = pmsgs d ->
    arrivals d' = arrivals d -> notified d' = notified d -> Q tt d') ->
  wp _dispatchProcessResponses Q d.
Proof.
  intros Hi Hq Hp Hm Hid Hroom HQ. unfold _dispatchProcessResponses. apply wp_bind, wp_gets.
  destruct (q_pop_spec p ql _ (iv_queue _ _ _ Hi) Hq) as (Hfront & Hok & Hcap & Hc).
  apply wp_bind, (wp_deref _ p); [done|]. apply wp_bind, wp_modify, wp_bind, (get_pmsg_wp p m); [done|].
  apply wp_bind, wp_gets. simpl. pose proof (map_repr_size _ _ (iv_map _ _ _ Hi)) as Hsz.
  assert (Hlt : q_size (pending_response_map d) < q_capacity (pending_response_map d)) by (rewrite (iv_map_cap _ _ _ Hi); lia).
  destruct (map_find_repr _ _ (in_id m) (iv_map _ _ _ Hi) Hlt) as [(j & v & Hv & _)|[_ Hf]]; [by rewrite Hv in Hid|].
  apply wp_bind, wp_assert; [by rewrite Hf, Z.eqb_refl|]. apply wp_modify.
  destruct (map_insert_repr _ _ (in_id m) p (iv_map _ _ _ Hi) Hlt Hid) as (Hrm & Hrc & _).
  apply HQ; try done. apply (inv_perm ids _ extra extra d); simpl; try done.
  - f_equiv. by apply (owned_front ids _ (in_id m) p ql).
  - by rewrite Hrc, (iv_map_cap _ _ _ Hi).
  - by rewrite Hcap, (iv_queue_cap _ _ _ Hi).
  - intros id q [[<- <-]|[_ Hq']]%lookup_insert_Some; [by exists m|by apply (iv_ids _ _ _ Hi)].
Qed.

(** ** The reference *)

Definition add_all (ms : list Incoming) (mp : gmap Z Incoming) : gmap Z Incoming :=
  foldl (fun mp m => <[in_id m := m]> mp) mp ms.

(** The first response to [id] among the arrivals: the other responses and the
    notifications before it, the response, and what comes after it. *)
Fixpoint find_response (id : Z) (a : list arrival) : option (list Incoming * list (list Z) * Incoming * list arrival) :=
  match a with
  | [] => None
  | Quiet :: a' => find_response id a'
  | Arrived m :: a' =>
      if (in_handler m =? -1) && (in_id m =? id) then Some ([], [], m, a')
      else
        '(rs, ns, m', a'') ← find_response id a';
        Some (if in_handler m =? -1 then (m :: rs, ns, m', a'') else (rs, in_body m :: ns, m', a''))
  end.

(** Responses and notifications only. *)
Definition known_arrival (x : arrival) : Prop :=
  match x with Quiet => True | Arrived m => in_handler m = -1 \/ in_handler m = -2 end.

Lemma unclaimed_insert ids id p m d :
  pmsgs d !! p = Some m -> unclaimed (<[id := p]> ids) d = <[id := m]> (unclaimed ids d).
Proof. intros Hp. unfold unclaimed. by apply omap_insert_Some. Qed.

Lemma unclaimed_ext ids d d' :
  (forall id p, ids !! id = Some p -> pmsgs d' !! p = pmsgs d !! p) -> unclaimed ids d' = unclaimed ids d.
Proof.
  intros He. unfold unclaimed. apply map_eq. intros id. rewrite !lookup_omap.
  destruct (ids !! id) as [p|] eqn:Hid; [|done]. simpl. by apply (He id).
Qed.

(** The messages of the queue. *)
Definition queued (d : Dispatcher) (ql : list Z) (ms : list Incoming) : Prop :=
  Forall2 (fun p m => pmsgs d !! p = Some m /\ in_handler m = -1) ql ms.

(** They have numbers of their own, and there is room for them. *)
Definition fresh_for (ids : gmap Z Z) (ms : list Incoming) : Prop :=
  NoDup (in_id <$> ms) /\ (forall m, m ∈ ms -> ids !! in_id m = None) /\
  (size ids + length ms < MAX_TRANSACTIONS)%nat.

Lemma fresh_for_cons ids m ms p : fresh_for ids (m :: ms) -> fresh_for (<[in_id m := p]> ids) ms.
Proof.
  intros (Hnd & Hno & Hsz). simpl in *. apply NoDup_cons in Hnd as [Hm Hnd]. split; [done|]. split.
  - intros m' Hm'. rewrite lookup_insert_ne; [apply Hno; set_solver|]. intros He. apply Hm. rewrite He.
    by apply list_elem_of_fmap_2.
  - rewrite map_size_insert_None by (apply Hno; set_solver). lia.
Qed.

Lemma process_others_wp ms ids extra ql d (Q : unit -> Dispatcher -> Prop) :
  inv ids extra d -> q_contents (pending_responses d) = ql -> queued d ql ms -> fresh_for ids ms ->
  (forall ids' d', inv ids' extra d' -> q_contents (pending_responses d') = [] -> pmsgs d' = pmsgs d ->
    arrivals d' = arrivals d -> notified d' = notified d -> unclaimed ids' d' = add_all ms (unclaimed ids d) -> Q tt d') ->
  wp (process_others (length ql)) Q d.
Proof.
  revert ids ql d. induction ms as [|m ms IH]; intros ids ql d Hi Hq Hqs Hfr HQ.
  { apply Forall2_nil_inv_r in Hqs as ->. by apply wp_ret, (HQ ids). }
  apply Forall2_cons_inv_r in Hqs as (p & ql' & [Hp Hm] & Hqs & ->). simpl. apply wp_bind.
  pose proof Hfr as (_ & Hno & Hsz). simpl in Hsz.
  apply (process_response_wp ids extra p ql' m); [done|done|done|done|apply Hno; set_solver|lia|].
  intros d1 Hi1 Hq1 Hpm1 Ha1 Hn1. apply (IH (<[in_id m := p]> ids)); [done|done| |by apply fresh_for_cons|].
  { unfold queued. by rewrite Hpm1. }
  intros ids' d' Hi' Hq' Hpm' Ha' Hn' Hu'. apply (HQ ids'); [done|done|congruence|congruence|congruence|].
  rewrite Hu'. simpl. f_equal. rewrite (unclaimed_insert _ _ _ m) by by rewrite Hpm1.
  f_equal. apply unclaimed_ext. intros. by rewrite Hpm1.
Qed.

Lemma inv_fresh ids p d id q : inv ids [p] d -> ids !! id = Some q -> q <> p.
Proof.
  intros Hi Hid ->. pose proof (iv_nodup _ _ _ Hi) as Hnd. simpl in Hnd. apply NoDup_cons in Hnd as [Hn _].
  apply Hn. unfold owned. apply elem_of_app. left. apply list_elem_of_fmap. exists (id, p).
  split; [done|]. by apply elem_of_map_to_list.
Qed.

(** A message has been taken off a channel: what was known stays known. *)
Lemma arrived_kept ids p m d d' ql ms :
  inv ids [p] d' -> pmsgs d' = <[p := m]> (pmsgs d) -> p ∉ ql -> queued d ql ms ->
  queued d' ql ms /\ unclaimed ids d' = unclaimed ids d.
Proof.
  intros Hi Hpm Hp Hqs. split.
  - unfold queued in *. rewrite Hpm. apply Forall2_same_length_lookup in Hqs as [Hlen Hqs].
    apply Forall2_same_length_lookup. split; [done|]. intros i q x Hq Hx. destruct (Hqs i q x Hq Hx).
    rewrite lookup_insert_ne; [done|]. intros <-. apply Hp. by eapply list_elem_of_lookup_2.
  - apply unclaimed_ext. intros id q Hid. rewrite Hpm, lookup_insert_ne; [done|].
    apply not_eq_sym. by apply (inv_fresh ids p d' id).
Qed.

(** What [_dispatchWaitForMessage] achieves. *)
Definition waited (ids : gmap Z Z) (d : Dispatcher) (ms : list Incoming) (ns : list (list Z)) (m : Incoming)
  (a' : list arrival) (p : Z) (d' : Dispatcher) : Prop :=
  exists ids', inv ids' [p] d' /\ q_contents (pending_responses d') = [] /\ pmsgs d' !! p = Some m /\
    arrivals d' = a' /\ notified d' = notified d ++ ns /\ unclaimed ids' d' = add_all ms (unclaimed ids d).

Lemma waited_from ids d d1 ms ns0 ns m a' p d' :
  unclaimed ids d1 = unclaimed ids d -> notified d1 = notified d ++ ns0 ->
  waited ids d1 ms ns m a' p d' -> waited ids d ms (ns0 ++ ns) m a' p d'.
Proof.
  intros Hu Hn (ids' & ? & ? & ? & ? & Hn' & Hu'). exists ids'. rewrite Hu in Hu'. rewrite Hn, <- app_assoc in Hn'. done.
Qed.

Lemma wait_loop_wp id a ids d ql ms rs ns m a' :
  arrivals d = a -> inv ids [] d -> q_contents (pending_responses d) = ql -> queued d ql ms ->
  find_response id a = Some (rs, ns, m, a') -> Forall known_arrival a -> fresh_for ids (ms ++ rs) ->
  wp (wait_loop (length a) id (length ql)) (waited ids d (ms ++ rs) ns m a') d.
Proof.
  revert ids d ql ms rs ns. induction a as [|x a IH]; intros ids d ql ms rs ns Ha Hi Hq Hqs Hf Hk Hfr; [done|].
  apply Forall_cons in Hk as [Hx Hk]. pose proof Hfr as (_ & _ & Hsz). rewrite length_app in Hsz.
  pose proof (Forall2_length _ _ _ Hqs) as Hlen. cbn [length wait_loop].
  apply wp_bind, (dispatch_poll_wp ids); [done|rewrite Hq; lia|]. rewrite Ha, Hq. simpl in Hf. destruct x as [|x].
  { intros d1 Hi1 (Hq1 & _ & Hn1) Hpm1 Ha1.
    eapply wp_mono; [apply (IH ids d1 ql ms rs ns); [done|done|by rewrite Hq1|by unfold queued; rewrite Hpm1|done|done|done]|].
    intros p d'. apply (waited_from ids d d1 _ []); [apply unclaimed_ext; intros; by rewrite Hpm1|by rewrite app_nil_r]. }
  intros p d1 Hi1 (Hq1 & _ & Hn1) Hpm1 Hpq Ha1.
  destruct (arrived_kept ids p x d d1 ql ms Hi1 Hpm1 Hpq Hqs) as [Hqs1 Hu1].
  assert (Hpx : pmsgs d1 !! p = Some x) by by rewrite Hpm1, lookup_insert_eq.
  apply wp_bind, (get_pmsg_wp p x); [done|]. destruct (_ && _) eqn:Hmine.
  - injection Hf as <- <- <- <-. rewrite app_nil_r in *. apply wp_bind.
    apply (process_others_wp ms ids [p] ql); [done|by rewrite Hq1|done|done|].
    intros ids' d' Hi' Hq' Hpm' Ha' Hn' Hu'. apply wp_ret. exists ids'.
    rewrite Hpm', Ha', Hn', Hn1, app_nil_r, Hu', Hu1. done.
  - destruct (find_response id a) as [[[[rs1 ns1] m1] a1]|] eqn:Hf1; [|done]. simpl in Hf. apply wp_bind.
    destruct Hx as [Hx|Hx]; rewrite Hx in Hf; simpl in Hf; injection Hf as <- <- <- <-.
    + apply (push_response_wp ids p x); [done|done|done|rewrite Hq1, Hq; lia|]. intros q' Hi2 Hq2.
      rewrite Hq1, Hq in Hq2. replace (S (length ql)) with (length (ql ++ [p])) by (rewrite length_app; simpl; lia).
      rewrite (cons_middle x ms rs1), app_assoc in *.
      eapply wp_mono; [apply (IH ids _ (ql ++ [p]) (ms ++ [x]) rs1 ns1); try done|].
      * apply Forall2_app; [done|by apply Forall2_cons].
      * intros p' d'. by apply (waited_from ids d (set_queue q' d1) _ []); [|rewrite app_nil_r].
    + apply (process_note_wp ids p x); [done|done|done|]. intros d2 Hi2 Hq2 Hpm2 Ha2 Hn2.
      eapply wp_mono; [apply (IH ids d2 ql ms rs1 ns1); [congruence|done|congruence| |done|done|done]|].
      * unfold queued. by rewrite Hpm2.
      * intros p' d'. apply (waited_from ids d d2 _ [in_body x]); [|congruence].
        rewrite <- Hu1. apply unclaimed_ext. intros. by rewrite Hpm2.
Qed.

(** ** Receiving *)

(** A dispatcher at rest, with [mp] the responses nobody has asked for. *)
Definition holds (mp : gmap Z Incoming) (d : Dispatcher) : Prop :=
  exists ids, inv ids [] d /\ q_contents (pending_responses d) = [] /\ unclaimed ids d = mp.

Definition responses (a : list arrival) : list Incoming :=
  omap (fun x => match x with Arrived m => if in_handler m =? -1 then Some m else None | Quiet => None end) a.

(** Every transaction has one response, and there is room for all. *)
Definition orderly (mp : gmap Z Incoming) (a : list arrival) : Prop :=
  Forall known_arrival a /\ NoDup (in_id <$> responses a) /\
  (forall m, m ∈ responses a -> mp !! in_id m = None) /\ (size mp + length (responses a) < MAX_TRANSACTIONS)%nat.

Lemma q_rm_it_capacity {A} (q : CircularQueue A) it : q_capacity (q_rm_it it q) = q_capacity q.
Proof. unfold q_rm_it, q_rm, q_capacity. case_match; simpl; [|done]. by rewrite length_insert. Qed.

Lemma size_unclaimed ids extra d : inv ids extra d -> size (unclaimed ids d) = size ids.
Proof.
  intros Hi. assert (Hdom : dom (unclaimed ids d) = dom ids).
  { apply set_eq. intros id. rewrite !elem_of_dom. unfold unclaimed. rewrite lookup_omap. split.
    - destruct (ids !! id); [by eexists|]. by intros [? ?].
    - intros [p Hp]. destruct (iv_ids _ _ _ Hi id p Hp) as (m & Hm & _). rewrite Hp. simpl. by exists m. }
  by rewrite <- !size_dom, Hdom.
Qed.

(** The response has already arrived. *)
Lemma check_map_wp id ids d (Q : option Z -> Dispatcher -> Prop) :
  inv ids [] d -> (size ids < MAX_TRANSACTIONS)%nat ->
  match ids !! id with
  | Some p => forall rm', inv (delete id ids) [p] (set_map rm' d) -> Q (Some p) (set_map rm' d)
  | None => Q None d
  end -> wp (_dispatchCheckPendingResponseMap id) Q d.
Proof.
  intros Hi Hsz HQ. unfold _dispatchCheckPendingResponseMap. apply wp_bind, wp_gets.
  pose proof (map_repr_size _ _ (iv_map _ _ _ Hi)).
  assert (Hlt : q_size (pending_response_map d) < q_capacity (pending_response_map d)) by (rewrite (iv_map_cap _ _ _ Hi); lia).
  destruct (map_find_repr _ _ id (iv_map _ _ _ Hi) Hlt) as [(j & p & Hp & Hj & Hf & Hne)|[Hno Hf]].
  - rewrite Hp in HQ. rewrite (proj2 (Z.eqb_neq _ _)) by done. cbn [negb].
    destruct (q_contents_elt _ j _ (mr_ok _ _ (iv_map _ _ _ Hi)) Hj) as [_ He]. unfold q_elt in He.
    apply wp_bind, (wp_deref _ p); [unfold map_value; by rewrite Hf, He|]. apply wp_bind, wp_modify, wp_ret, HQ.
    apply (inv_perm ids _ [] [p] d); simpl; try done; try apply Hi.
    + unfold owned. simpl. by rewrite <- (map_to_list_delete ids id p) by done.
    + rewrite Hf. by apply (map_rm_repr _ _ j id p (iv_map _ _ _ Hi)).
    + rewrite q_rm_it_capacity. apply Hi.
    + intros id' q [_ Hq]%lookup_delete_Some. by apply (iv_ids _ _ _ Hi).
  - rewrite Hno in HQ. rewrite Hf, Z.eqb_refl. by apply wp_ret.
Qed.

(** The last steps of [dispatchReceive]. *)
Lemma take_response_wp id ids p m d (Q : list Z * Z -> Dispatcher -> Prop) :
  inv ids [p] d -> pmsgs d !! p = Some m -> is_response id m ->
  (forall pool', inv ids [] (set_pool pool' d) -> Q (in_body m, in_from m) (set_pool pool' d)) ->
  wp (m ← get_pmsg p; assert_ (in_handler m =? -1);; assert_ (in_id m =? id);; free_pmsg p;;
      mret (in_body m, in_from m)) Q d.
Proof.
  intros Hi Hp [Hh Hid] HQ. apply wp_bind, (get_pmsg_wp p m); [done|].
  apply wp_bind, wp_assert; [by rewrite Hh|]. apply wp_bind, wp_assert; [by rewrite Hid, Z.eqb_refl|].
  apply wp_bind, (free_pmsg_wp ids []); [done|]. intros pool' Hi'. by apply wp_ret, HQ.
Qed.

(** *** The reference finds every response *)

Lemma find_response_spec id a rs ns m a' :
  find_response id a = Some (rs, ns, m, a') ->
  responses a = rs ++ m :: responses a' /\ is_response id m /\ (Forall known_arrival a -> Forall known_arrival a').
Proof.
  revert rs ns. induction a as [|[|x] a IH]; intros rs ns Hf; simpl in Hf; [done| |].
  { destruct (IH rs ns Hf) as (Hr & Hm & Hk). split; [done|]. split; [done|]. intros H. by apply Hk, (Forall_inv_tail H). }
  unfold responses. simpl. destruct (in_handler x =? -1) eqn:Hx; simpl in Hf.
  - destruct (in_id x =? id) eqn:Hid.
    { injection Hf as <- <- <- <-. split; [done|]. split; [unfold is_response; lia|]. apply Forall_inv_tail. }
    destruct (find_response id a) as [[[[rs1 ns1] m1] a1]|] eqn:Hf1; [|done]. simpl in Hf. injection Hf as <- <- <- <-.
    destruct (IH rs1 ns1 eq_refl) as (Hr & Hm & Hk). split; [simpl; f_equal; exact Hr|]. split; [done|].
    intros H. by apply Hk, (Forall_inv_tail H).
  - destruct (find_response id a) as [[[[rs1 ns1] m1] a1]|] eqn:Hf1; [|done]. simpl in Hf. injection Hf as <- <- <- <-.
    destruct (IH rs1 ns1 eq_refl) as (Hr & Hm & Hk). split; [exact Hr|]. split; [done|].
    intros H. by apply Hk, (Forall_inv_tail H).
Qed.

Lemma find_response_total id a : id ∈ in_id <$> responses a -> is_Some (find_response id a).
Proof.
  induction a as [|[|x] a IH]; intros Hin; [by apply elem_of_nil in Hin|by apply IH|].
  unfold responses in Hin. simpl in *. destruct (in_handler x =? -1) eqn:Hx; simpl in *.
  - destruct (Z.eqb_spec (in_id x) id) as [|Hne]; [by eexists|].
    apply elem_of_cons in Hin as [->|Hin]; [done|]. destruct (IH Hin) as [[[[rs ns] m] a'] ->]. by eexists.
  - destruct (IH Hin) as [[[[rs ns] m] a'] ->]. by eexists.
Qed.

Lemma add_all_other rs mp i : i ∉ in_id <$> rs -> add_all rs mp !! i = mp !! i.
Proof.
  revert mp. induction rs as [|m rs IH]; intros mp Hi; [done|]. simpl in *. apply not_elem_of_cons in Hi as [Hne Hi].
  rewrite IH by done. by apply lookup_insert_ne.
Qed.

Lemma add_all_in rs mp m : NoDup (in_id <$> rs) -> m ∈ rs -> add_all rs mp !! in_id m = Some m.
Proof.
  revert mp. induction rs as [|x rs IH]; intros mp Hnd Hm; [by apply elem_of_nil in Hm|]. simpl in *.
  apply NoDup_cons in Hnd as [Hx Hnd]. apply elem_of_cons in Hm as [->|Hm]; [|by apply IH].
  rewrite add_all_other by done. apply lookup_insert_eq.
Qed.

Lemma add_all_size rs mp :
  NoDup (in_id <$> rs) -> (forall m, m ∈ rs -> mp !! in_id m = None) -> size (add_all rs mp) = (size mp + length rs)%nat.
Proof.
  revert mp. induction rs as [|x rs IH]; intros mp Hnd Hno; simpl; [lia|]. simpl in Hnd. apply NoDup_cons in Hnd as [Hx Hnd].
  rewrite IH; [rewrite map_size_insert_None by (apply Hno; set_solver); lia|done|].
  intros m Hm. rewrite lookup_insert_ne; [apply Hno; set_solver|]. intros He. apply Hx. rewrite He. by apply list_elem_of_fmap_2.
Qed.

(** A response that has arrived or will arrive. *)
Definition avail (mp : gmap Z Incoming) (a : list arrival) (m : Incoming) : Prop :=
  mp !! in_id m = Some m \/ m ∈ responses a.

Lemma orderly_next mp a rs m a' :
  orderly mp a -> responses a = rs ++ m :: responses a' -> Forall known_arrival a' -> orderly (add_all rs mp) a'.
Proof.
  intros (_ & Hnd & Hno & Hsz) Hr Hk. rewrite Hr in *. rewrite fmap_app in Hnd. apply NoDup_app in Hnd as (Hnd1 & Hd & Hnd2).
  simpl in Hnd2. apply NoDup_cons in Hnd2 as [Hm Hnd2]. split; [done|]. split; [done|]. split.
  - intros x Hx. rewrite add_all_other; [apply Hno; set_solver|]. intros Hin. apply (Hd _ Hin). simpl.
    apply elem_of_cons. right. by apply list_elem_of_fmap_2.
  - rewrite add_all_size; [rewrite length_app in Hsz; simpl in Hsz; lia|done|]. intros x Hx. apply Hno. set_solver.
Qed.

Lemma avail_next mp a rs m a' m' :
  orderly mp a -> responses a = rs ++ m :: responses a' -> in_id m' <> in_id m ->
  avail mp a m' -> avail (add_all rs mp) a' m'.
Proof.
  intros (_ & Hnd & Hno & _) Hr Hne Hav. unfold avail in *. rewrite Hr in *. rewrite fmap_app in Hnd.
  apply NoDup_app in Hnd as (Hnd1 & _ & _). destruct Hav as [Hmp|[Hin|[->|Hin]%elem_of_cons]%elem_of_app]; [| | |by right].
  - left. rewrite add_all_other; [done|]. intros (x & Hx & Hxr)%list_elem_of_fmap. specialize (Hno x ltac:(set_solver)).
    by rewrite <- Hx, Hmp in Hno.
  - left. by apply add_all_in.
  - done.
Qed.

Lemma unclaimed_lookup ids extra d id m :
  inv ids extra d -> unclaimed ids d !! id = Some m -> exists p, ids !! id = Some p /\ pmsgs d !! p = Some m /\ is_response id m.
Proof.
  intros Hi. unfold unclaimed. rewrite lookup_omap. destruct (ids !! id) as [p|] eqn:Hp; [|done]. simpl. intros Hm.
  exists p. split; [done|]. destruct (iv_ids _ _ _ Hi id p Hp) as (m' & Hm' & Hr). by simplify_eq.
Qed.

Lemma unclaimed_delete ids id d : unclaimed (delete id ids) d = delete id (unclaimed ids d).
Proof. apply omap_delete. Qed.

(** What a reception of [m] does. *)
Definition receives (mp : gmap Z Incoming) (d : Dispatcher) (m : Incoming) (r : list Z * Z) (d' : Dispatcher) : Prop :=
  r = (in_body m, in_from m) /\ exists mp', holds mp' d' /\ orderly mp' (arrivals d') /\
    forall m', in_id m' <> in_id m -> avail mp (arrivals d) m' -> avail mp' (arrivals d') m'.

(** The response to [id] had arrived. *)
Lemma receive_arrived ids d m p pool' rm' :
  inv ids [] d -> orderly (unclaimed ids d) (arrivals d) -> ids !! in_id m = Some p -> pmsgs d !! p = Some m ->
  q_contents (pending_responses d) = [] -> inv (delete (in_id m) ids) [] (set_pool pool' (set_map rm' d)) ->
  receives (unclaimed ids d) d m (in_body m, in_from m) (set_pool pool' (set_map rm' d)).
Proof.
  intros Hi (Hk & Hnd & Hno & Hsz) Hp Hm Hq Hi2. set (id := in_id m) in *. split; [done|].
  exists (delete id (unclaimed ids d)). split; [|split].
  - exists (delete id ids). split; [done|]. split; [done|]. exact (unclaimed_delete ids id d).
  - split; [done|]. split; [done|]. split; [intros x Hx; apply lookup_delete_None; right; by apply Hno|].
    assert (Hmp : unclaimed ids d !! id = Some m) by (unfold unclaimed; by rewrite lookup_omap, Hp).
    rewrite map_size_delete_Some by by exists m. simpl. lia.
  - intros m' Hne [Hm'|Hm']; [left|by right]. by rewrite lookup_delete_ne.
Qed.

Lemma first_response mp a rs m m0 a' :
  orderly mp a -> responses a = rs ++ m0 :: responses a' -> m ∈ responses a -> in_id m0 = in_id m -> m0 = m.
Proof.
  intros (_ & Hnd & _) Hr Ha He. rewrite Hr, fmap_app in Hnd. simpl in Hnd.
  apply NoDup_app in Hnd as (_ & Hd & [Hn _]%NoDup_cons). rewrite Hr in Ha.
  apply elem_of_app in Ha as [Ha|[->|Ha]%elem_of_cons]; [|done|].
  - destruct (Hd (in_id m)); [by apply list_elem_of_fmap_2|]. rewrite <- He. apply elem_of_cons. by left.
  - destruct Hn. rewrite He. by apply list_elem_of_fmap_2.
Qed.

Lemma orderly_fresh ids d rs m a' :
  inv ids [] d -> orderly (unclaimed ids d) (arrivals d) -> responses (arrivals d) = rs ++ m :: responses a' ->
  fresh_for ids rs.
Proof.
  intros Hi (_ & Hnd & Hno & Hsz) Hr. rewrite Hr in *. rewrite fmap_app in Hnd. apply NoDup_app in Hnd as (Hnd1 & _ & _).
  split; [done|]. split.
  - intros x Hx. destruct (ids !! in_id x) as [q|] eqn:Hxq; [|done].
    destruct (iv_ids _ _ _ Hi _ q Hxq) as (m1 & Hm1 & _). specialize (Hno x ltac:(set_solver)).
    unfold unclaimed in Hno. rewrite lookup_omap, Hxq in Hno. simpl in Hno. congruence.
  - rewrite (size_unclaimed ids [] d Hi), length_app in Hsz. simpl in Hsz. lia.
Qed.

(** One reception. *)
Lemma dispatch_receive_wp mp d m :
  holds mp d -> orderly mp (arrivals d) -> avail mp (arrivals d) m -> in_handler m = -1 ->
  wp (dispatchReceive (in_id m)) (receives mp d m) d.
Proof.
  intros (ids & Hi & Hq & <-) Hord Hav Hh. set (id := in_id m). assert (Hid : is_response id m) by done.
  pose proof Hord as (Hk & Hnd & Hno & Hsz). pose proof (size_unclaimed ids [] d Hi) as Hsu.
  unfold dispatchReceive. apply wp_bind, (check_map_wp id ids); [done|lia|]. destruct (ids !! id) as [p|] eqn:Hp.
  - intros rm' Hi1. apply wp_bind, wp_ret. destruct (iv_ids _ _ _ Hi id p Hp) as (m0 & Hm0 & [_ Hr0]).
    assert (Hmp : unclaimed ids d !! id = Some m0) by (unfold unclaimed; by rewrite lookup_omap, Hp).
    assert (m0 = m) as ->.
    { destruct Hav as [Ha|Ha]; [unfold id in *; congruence|]. specialize (Hno m Ha). unfold id in *. congruence. }
    apply (take_response_wp id (delete id ids) p m); [done|done|done|]. intros pool' Hi2. by apply (receive_arrived ids d m p).
  - assert (Hmp : unclaimed ids d !! id = None) by (unfold unclaimed; by rewrite lookup_omap, Hp).
    destruct Hav as [Ha|Ha]; [unfold id in *; congruence|].
    destruct (find_response_total id (arrivals d)) as [[[[rs ns] m0] a'] Hf]; [by apply list_elem_of_fmap_2|].
    destruct (find_response_spec _ _ _ _ _ _ Hf) as (Hr & [Hh0 Hid0] & Hk').
    assert (m0 = m) as -> by by apply (first_response (unclaimed ids d) (arrivals d) rs m m0 a').
    apply wp_bind. unfold _dispatchWaitForMessage. apply wp_bind, wp_gets.
    eapply wp_mono; [apply (wait_loop_wp id (arrivals d) ids d [] [] rs ns m a'); [done|done|done|by constructor|done|done|]|].
    { by apply (orderly_fresh ids d rs m a'). }
    intros p d' (ids' & Hi' & Hq' & Hp' & Ha' & _ & Hu'). simpl in Hu'.
    apply (take_response_wp id ids' p m); [done|done|done|]. intros pool' Hi2. split; [done|].
    exists (add_all rs (unclaimed ids d)). simpl. rewrite Ha'. split; [by exists ids'|].
    split; [apply (orderly_next _ (arrivals d) rs m); auto|]. intros m' Hne. by apply (avail_next _ (arrivals d) rs m).
Qed.

(** Several receptions. *)
Fixpoint receive_all (ids : list Z) : M Dispatcher (list (list Z * Z)) :=
  match ids with
  | [] => mret []
  | id :: ids' => r ← dispatchReceive id; rs ← receive_all ids'; mret (r :: rs)
  end.

Lemma receive_all_wp ms mp d :
  holds mp d -> orderly mp (arrivals d) -> (forall m, m ∈ ms -> avail mp (arrivals d) m /\ in_handler m = -1) ->
  NoDup (in_id <$> ms) ->
  wp (receive_all (in_id <$> ms)) (fun rs _ => rs = (fun m => (in_body m, in_from m)) <$> ms) d.
Proof.
  revert mp d. induction ms as [|m ms IH]; intros mp d Hh Ho Hav Hnd; [by apply wp_ret|]. simpl in *.
  apply NoDup_cons in Hnd as [Hm Hnd]. destruct (Hav m ltac:(set_solver)) as [Ham Hhm].
  apply wp_bind. eapply wp_mono; [by apply (dispatch_receive_wp mp d m)|]. intros r d1 (-> & mp1 & Hh1 & Ho1 & Hav1).
  apply wp_bind. eapply wp_mono; [apply (IH mp1 d1 Hh1 Ho1); [|done]|].
  - intros m' Hm'. destruct (Hav m' ltac:(set_solver)) as [Ham' Hhm']. split; [|done]. apply Hav1; [|done].
    intros He. apply Hm. rewrite <- He. by apply list_elem_of_fmap_2.
  - cbv beta. intros rs d2 ->. by apply wp_ret.
Qed.

Lemma new_holds junk a : holds ∅ (Dispatcher_new junk a).
Proof.
  exists ∅. split; [|split; [|apply omap_empty]].
  - assert (Hq : forall A (x : A), q_ok (CircularQueue_new (replicate MAX_TRANSACTIONS x)) /\
      q_capacity (CircularQueue_new (replicate MAX_TRANSACTIONS x)) = Z.of_nat MAX_TRANSACTIONS /\
      q_contents (CircularQueue_new (replicate MAX_TRANSACTIONS x)) = []).
    { intros A x. assert (Hc : q_capacity (CircularQueue_new (replicate MAX_TRANSACTIONS x)) = Z.of_nat MAX_TRANSACTIONS).
      { unfold q_capacity, CircularQueue_new. cbn [q_data]. by rewrite length_replicate. }
      split; [|done]. split; rewrite Hc; cbn [CircularQueue_new q_at q_size]; unfold MAX_TRANSACTIONS; lia. }
    destruct (Hq (Z * Z)%type (junk, junk)) as (Ho1 & Hc1 & Hn1). destruct (Hq Z junk) as (Ho2 & Hc2 & Hn2).
    assert (Hown : owned ∅ (Dispatcher_new junk a) = []) by (unfold owned; cbn [Dispatcher_new pending_responses poll_pmsg]; by rewrite Hn2, map_to_list_empty).
    split; try done.
    + split; [done|by cbn [Dispatcher_new pending_response_map]; rewrite Hn1; apply NoDup_nil|].
      by cbn [Dispatcher_new pending_response_map]; rewrite Hn1.
    + rewrite Hown. apply pool_new_repr.
    + rewrite Hown. by apply NoDup_nil.
  - done.
Qed.

(** C24: Every request gets its own response: whatever the order in which the
    responses arrive, mixed with each other and with notifications, and whatever
    the order in which they are asked for, each reception returns, with the
    payload and the channel of the response to its transaction. *)
Theorem dispatch_matches junk a ms :
  Forall known_arrival a -> NoDup (in_id <$> responses a) -> (length (responses a) < MAX_TRANSACTIONS)%nat ->
  ms ⊆ responses a -> NoDup (in_id <$> ms) ->
  wp (receive_all (in_id <$> ms)) (fun rs _ => rs = (fun m => (in_body m, in_from m)) <$> ms) (Dispatcher_new junk a).
Proof.
  intros Hk Hnd Hlen Hsub Hndm. apply (receive_all_wp ms ∅ (Dispatcher_new junk a)); [apply new_holds| | |done].
  - split; [done|]. split; [done|]. split; [intros m _; apply lookup_empty|by rewrite map_size_empty].
  - intros m Hm. apply Hsub in Hm. split; [by right|]. apply list_elem_of_omap in Hm as ([|x] & _ & Hx); [done|].
    destruct (Z.eqb_spec (in_handler x) (-1)); [|done]. by injection Hx as <-.
Qed.

(** ** Demonstration *)

Definition note : Incoming := mkIncoming (-2) (-1) [7] 3.
Definition resp1 : Incoming := mkIncoming (-1) 11 [1; 1] 3.
Definition resp2 : Incoming := mkIncoming (-1) 22 [2] 4.

Lemma dispatch_matches_witness :
  wp (receive_all [11; 22]) (fun rs _ => rs = [([1; 1], 3); ([2], 4)])
    (Dispatcher_new 0 [Arrived resp2; Quiet; Arrived note; Arrived resp1]).
Proof.
  apply (dispatch_matches 0 [Arrived resp2; Quiet; Arrived note; Arrived resp1] [resp1; resp2]).
  - repeat apply Forall_cons_2; [by left|done|by right|by left|by apply Forall_nil].
  - apply (bool_decide_unpack _). vm_compute. done.
  - apply (bool_decide_unpack _). vm_compute. done.
  - change (responses _) with [resp2; resp1]. set_solver.
  - apply (bool_decide_unpack _). vm_compute. done.
Defined.

Lemma wait_quiet n i k p d :
  poll_pmsg d = Some p -> arrivals d = replicate n Quiet -> wait_loop n i k d = Timeout.
Proof.
  revert d. induction n as [|n IH]; intros d Hp Ha; [done|]. cbn [wait_loop].
  unfold _dispatchPoll, mbind, M_bind, gets, modify, mret, M_ret, deref, id. cbn. rewrite Hp. cbn. rewrite Hp. cbn.
  rewrite Ha. cbn. by apply IH.
Qed.

(** A response that is taken off its channel while notifications are looked
    for is lost: the reception that asks for it waits for ever. *)
Theorem notification_check_loses_response n :
  match dispatchCheckNotifications (Dispatcher_new 0 [Arrived resp1]) with
  | Done _ d => dispatchReceive 11 (set_arrivals (replicate n Quiet) d) = Timeout
  | _ => False
  end.
Proof.
  destruct (dispatchCheckNotifications _) as [[] d| | |] eqn:Hd; vm_compute in Hd; [|done|done|done]. injection Hd as <-.
  unfold dispatchReceive, _dispatchWaitForMessage, mbind, M_bind, mret, M_ret.
  set (d1 := set_arrivals _ _). assert (Hc : _dispatchCheckPendingResponseMap 11 d1 = Done None d1) by reflexivity.
  rewrite Hc. unfold gets. cbn beta iota. replace (length (arrivals d1)) with n by (symmetry; apply length_replicate).
  by rewrite (wait_quiet n 11 0 1022).
Qed.
