(* ===== verification/Threading.v ===== *)
(** * Cooperative threads

    [messaging/threading.cpp] and [messaging/include/threading.h]: threads that
    give up the processor themselves, contexts that are made only when a thread
    must be resumed later, a list of runnable threads, and condition variables.

    The processor state that [getcontext], [makecontext], [swapcontext] and
    [setcontext] handle is reduced to what decides who runs: the function a context
    starts with and whether it has been started.  A call that gives up the processor is a
    step from one running thread to the next: it ends when code of some thread other than
    the loop of the library runs. *)

From S2P Require Import Prelude Containers.

(** ** Lists of threads *)

Definition THREAD_LIST_SIZE : Z := 128.
Definition THREAD_POOL_SIZE : nat := 128.

Record ThreadList : Type := mkThreadList { tl_at : Z; tl_size : Z; tl_threads : list Z }.

(** [threadListInitialize]; the array keeps what it has. *)
Definition threadListInitialize (l : ThreadList) : ThreadList := mkThreadList 0 0 (tl_threads l).
Definition threadListPush (t : Z) (l : ThreadList) : bool * ThreadList :=
  if tl_size l =? THREAD_LIST_SIZE then (false, l)
  else
    let tail := u64 (tl_at l + tl_size l) mod THREAD_LIST_SIZE in
    (true, mkThreadList (tl_at l) (u64 (tl_size l + 1)) (<[Z.to_nat tail := t]> (tl_threads l))).
Definition threadListPop (l : ThreadList) : ThreadList :=
  mkThreadList (u64 (tl_at l + 1) mod THREAD_LIST_SIZE) (u64 (tl_size l - 1)) (tl_threads l).
Definition threadListFront (l : ThreadList) : option Z := tl_threads l !! Z.to_nat (tl_at l).
Definition threadListSize (l : ThreadList) : Z := tl_size l.

(** ** Threads and contexts *)

(** What a thread runs: the loop of the library, with its argument, or a function
    of the program. *)
Inductive Target : Type :=
| ThreadMain (next : option Z)
| User (f : Z).

Record Thread : Type := mkThread { th_tid : Z; th_context : option Z; th_target : Target }.
Record Context : Type := mkContext { ctx_entry : Target; ctx_started : bool }.

Definition with_context (c : option Z) (t : Thread) : Thread := mkThread (th_tid t) c (th_target t).

(** The elements of the pools that are in use are in the two maps: to use one that
    is not is undefined. *)
Record Threading : Type := mkThreading {
  thread_pool : Pool;
  context_pool : Pool;
  threads : gmap Z Thread;
  contexts : gmap Z Context;
  ready_threads : ThreadList;
  conds : gmap Z ThreadList;
  current_thread : option Z;
  g_tid : Z;
  main_target : Target
}.

Definition set_threads (f : gmap Z Thread -> gmap Z Thread) (s : Threading) : Threading :=
  mkThreading (thread_pool s) (context_pool s) (f (threads s)) (contexts s) (ready_threads s) (conds s)
    (current_thread s) (g_tid s) (main_target s).
Definition set_contexts (f : gmap Z Context -> gmap Z Context) (s : Threading) : Threading :=
  mkThreading (thread_pool s) (context_pool s) (threads s) (f (contexts s)) (ready_threads s) (conds s)
    (current_thread s) (g_tid s) (main_target s).
Definition set_thread_pool (p : Pool) (s : Threading) : Threading :=
  mkThreading p (context_pool s) (threads s) (contexts s) (ready_threads s) (conds s)
    (current_thread s) (g_tid s) (main_target s).
Definition set_context_pool (p : Pool) (s : Threading) : Threading :=
  mkThreading (thread_pool s) p (threads s) (contexts s) (ready_threads s) (conds s)
    (current_thread s) (g_tid s) (main_target s).
Definition set_ready (l : ThreadList) (s : Threading) : Threading :=
  mkThreading (thread_pool s) (context_pool s) (threads s) (contexts s) l (conds s)
    (current_thread s) (g_tid s) (main_target s).
Definition set_conds (f : gmap Z ThreadList -> gmap Z ThreadList) (s : Threading) : Threading :=
  mkThreading (thread_pool s) (context_pool s) (threads s) (contexts s) (ready_threads s) (f (conds s))
    (current_thread s) (g_tid s) (main_target s).
Definition set_current (t : option Z) (s : Threading) : Threading :=
  mkThreading (thread_pool s) (context_pool s) (threads s) (contexts s) (ready_threads s) (conds s)
    t (g_tid s) (main_target s).
Definition set_tid (n : Z) (s : Threading) : Threading :=
  mkThreading (thread_pool s) (context_pool s) (threads s) (contexts s) (ready_threads s) (conds s)
    (current_thread s) n (main_target s).

Definition get_thread (t : Z) : M Threading Thread := o ← gets (fun s => threads s !! t); deref o.
Definition put_thread (t : Z) (th : Thread) : M Threading unit := modify (set_threads (<[t := th]>)).

(** ** Creation and destruction *)

Definition threadCreate (target : Target) : M Threading Z :=
  p ← gets thread_pool;
  match pool_allocate p with
  | (None, _) => abort
  | (Some t, p') =>
      modify (set_thread_pool p');;
      n ← gets g_tid;
      modify (set_tid (i32 (n + 1)));;
      put_thread t (mkThread (i32 (n + 1)) None target);;
      mret t
  end.

Definition free_context (c : Z) : M Threading unit :=
  p ← gets context_pool;
  p' ← deref (pool_free c p);
  modify (set_context_pool p');;
  modify (set_contexts (delete c)).

Definition _threadDestroy (t : Z) : M Threading unit :=
  th ← get_thread t;
  (match th_context th with Some c => free_context c | None => mret tt end);;
  p ← gets thread_pool;
  p' ← deref (pool_free t p);
  modify (set_thread_pool p');;
  modify (set_threads (delete t)).

Definition _threadMakeContext (t : Z) : M Threading unit :=
  th ← get_thread t;
  c ← (match th_context th with
       | Some c => mret c
       | None =>
           p ← gets context_pool;
           match pool_allocate p with
           | (None, _) => abort
           | (Some c, p') => modify (set_context_pool p');; mret c
           end
       end);
  cp ← gets context_pool;
  tp ← gets thread_pool;
  assert_ (pool_available tp <=? pool_available cp);;
  modify (set_contexts (<[c := mkContext (th_target th) false]>));;
  put_thread t (with_context (Some c) th).

(** ** Scheduling *)

Definition threadSchedule (t : Z) : M Threading unit :=
  l ← gets ready_threads;
  match threadListPush t l with
  | (true, l') => modify (set_ready l')
  | (false, _) => abort
  end.

Definition _threadGetRunnable : M Threading Z :=
  l ← gets ready_threads;
  if 0 <? threadListSize l
  then
    rtn ← deref (threadListFront l);
    modify (set_ready (threadListPop l));;
    mret rtn
  else
    main ← gets main_target;
    threadCreate main.

Definition make_if_none (t : Z) : M Threading unit :=
  th ← get_thread t;
  match th_context th with None => _threadMakeContext t | Some _ => mret tt end.

(** [threadSwitch] up to [setcontext]; false when it returns to its caller. *)
Definition switch_to (next : Z) : M Threading bool :=
  cur ← gets current_thread;
  if bool_decide (cur = Some next) then mret false
  else
    (match cur with Some t => _threadDestroy t | None => mret tt end);;
    make_if_none next;;
    modify (set_current (Some next));;
    mret true.

(** The processor is given to the context of the current thread: a context that
    was left is returned to, a new one starts with its function. *)
Definition resume (main : option Z -> M Threading unit) : M Threading unit :=
  cur ← gets current_thread;
  t ← deref cur;
  th ← get_thread t;
  c ← deref (th_context th);
  o ← gets (fun s => contexts s !! c);
  ctx ← deref o;
  if ctx_started ctx then mret tt
  else
    modify (set_contexts (<[c := mkContext (ctx_entry ctx) true]>));;
    match ctx_entry ctx with
    | ThreadMain next => main next
    | User _ => mret tt
    end.

(** The assertion at the start of [_threadMain]. *)
Definition main_entered : M Threading unit :=
  cur ← gets current_thread;
  me ← (match cur with Some t => mret t | None => abort end);
  self ← get_thread me;
  assert_ (bool_decide (th_context self <> None)).

(** The loop of [_threadMain]: a thread without a context takes over the one of
    the loop. *)
Fixpoint main_loop (fuel : nat) (next_thread : option Z) : M Threading unit :=
  match fuel with
  | O => timeout
  | S fuel' =>
      next ← (match next_thread with Some n => mret n | None => _threadGetRunnable end);
      th ← get_thread next;
      match th_context th with
      | Some _ =>
          switched ← switch_to next;
          if (switched : bool) then resume (fun n => main_entered;; main_loop fuel' n) else main_loop fuel' None
      | None =>
          cur ← gets current_thread;
          me ← deref cur;
          self ← get_thread me;
          put_thread next (with_context (th_context self) th);;
          put_thread me (with_context None self);;
          _threadDestroy me;;
          modify (set_current (Some next));;
          match th_target th with
          | ThreadMain n => main_entered;; main_loop fuel' n
          | User _ => mret tt
          end
      end
  end.

Definition _threadMain (fuel : nat) (vp_next_thread : option Z) : M Threading unit :=
  main_entered;; main_loop fuel vp_next_thread.

(** The loop goes round at most twice before code of the program runs. *)
Definition main_fuel : nat := 2.

Definition threadSwap (next : Z) : M Threading unit :=
  cur ← gets current_thread;
  me ← (match cur with Some t => mret t | None => abort end);
  self ← get_thread me;
  assert_ (bool_decide (th_context self <> None));;
  make_if_none next;;
  modify (set_current (Some next));;
  resume (_threadMain main_fuel).

Definition threadSwitch (next : Z) : M Threading unit :=
  switched ← switch_to next;
  if (switched : bool) then resume (_threadMain main_fuel) else mret tt.

Definition threadYield (runnable : bool) : M Threading unit :=
  cur ← gets current_thread;
  me ← (match cur with Some t => mret t | None => abort end);
  l ← gets ready_threads;
  if runnable && negb (0 <? threadListSize l) then mret tt
  else
    (if runnable then threadSchedule me else mret tt);;
    l ← gets ready_threads;
    next ← (if 0 <? threadListSize l
            then
              n ← _threadGetRunnable;
              th ← get_thread n;
              match th_context th with None => threadCreate (ThreadMain (Some n)) | Some _ => mret n end
            else threadCreate (ThreadMain None));
    threadSwap next.

(** The function of the current thread returns: to the loop it was called from,
    or out of a context, which ends the process. *)
Definition thread_return : M Threading unit :=
  cur ← gets current_thread;
  me ← deref cur;
  self ← get_thread me;
  c ← deref (th_context self);
  o ← gets (fun s => contexts s !! c);
  ctx ← deref o;
  match ctx_entry ctx with
  | ThreadMain _ => main_loop main_fuel None
  | User _ => abort
  end.

(** ** Start and stop *)

Definition threadingGetNumThreads : M Threading Z := l ← gets ready_threads; mret (i32 (threadListSize l + 1)).
Definition threadingIsRunning : M Threading bool := c ← gets current_thread; mret (bool_decide (c <> None)).

Definition set_main (m : Target) (s : Threading) : Threading :=
  mkThreading (thread_pool s) (context_pool s) (threads s) (contexts s) (ready_threads s) (conds s)
    (current_thread s) (g_tid s) m.

Definition threadingStart (main : Target) : M Threading unit :=
  modify (set_main main);;
  next ← threadCreate (ThreadMain None);
  modify (set_current None);;
  threadSwitch next.

Definition threadingStop : M Threading unit :=
  n ← threadingGetNumThreads;
  (if 1 <? n then abort else mret tt);;
  cur ← gets current_thread;
  me ← deref cur;
  _threadDestroy me;;
  modify (set_current None).

(** ** Condition variables *)

Definition get_cond (cv : Z) : M Threading ThreadList := o ← gets (fun s => conds s !! cv); deref o.
Definition put_cond (cv : Z) (l : ThreadList) : M Threading unit := modify (set_conds (<[cv := l]>)).

Definition condInitialize (cv : Z) : M Threading unit := l ← get_cond cv; put_cond cv (threadListInitialize l).
Definition condEmpty (cv : Z) : M Threading bool := l ← get_cond cv; mret (threadListSize l =? 0).

(** Whether there was room in the list is not looked at. *)
Definition condWait (cv : Z) : M Threading unit :=
  l ← get_cond cv;
  cur ← gets current_thread;
  me ← (match cur with Some t => mret t | None => abort end);
  put_cond cv (snd (threadListPush me l));;
  threadYield false.

Definition condNotify (cv : Z) : M Threading unit :=
  e ← condEmpty cv;
  if (e : bool) then mret tt
  else
    l ← get_cond cv;
    t ← deref (threadListFront l);
    threadSchedule t;;
    l ← get_cond cv;
    put_cond cv (threadListPop l).

Fixpoint condNotifyAll_loop (fuel : nat) (cv : Z) : M Threading unit :=
  e ← condEmpty cv;
  if (e : bool) then mret tt
  else
    match fuel with
    | O => timeout
    | S fuel' => condNotify cv;; condNotifyAll_loop fuel' cv
    end.
Definition condNotifyAll (cv : Z) : M Threading unit := condNotifyAll_loop (Z.to_nat THREAD_LIST_SIZE) cv.
