(* ===== verification/ThreadingSpec.v ===== *)
(** * Invariant of the cooperative threads

    Lists of threads are queues, and while code of the program runs every context
    belongs to one thread and goes back to the loop of the library, and no thread
    of that loop is left.  The rules at the end say who runs after a call. *)

From S2P Require Import Prelude Containers Threading.

(** ** Lists of threads are queues *)

Record tl_repr (l : ThreadList) (q : list Z) : Prop := {
  tr_at : 0 <= tl_at l < 128;
  tr_len : length (tl_threads l) = 128%nat;
  tr_size : tl_size l = Z.of_nat (length q);
  tr_max : (length q <= 128)%nat;
  tr_elt i : (i < length q)%nat -> tl_threads l !! Z.to_nat ((tl_at l + Z.of_nat i) mod 128) = q !! i
}.

Lemma tl_push l q t : tl_repr l q -> (length q < 128)%nat ->
  exists l', threadListPush t l = (true, l') /\ tl_repr l' (q ++ [t]).
Proof.
  intros [Ha Hl Hs Hm He] Hq. unfold threadListPush, THREAD_LIST_SIZE.
  destruct (Z.eqb_spec (tl_size l) 128); [lia|]. eexists. split; [done|].
  rewrite !u64_small by lia. split; cbn; rewrite ?length_insert, ?length_app; cbn; try lia.
  intros i Hi. destruct (decide (i = length q)) as [->|Hne].
  - rewrite lookup_app_r, Nat.sub_diag by lia. rewrite Hs. rewrite list_lookup_insert_eq; [done|].
    pose proof (Z.mod_pos_bound (tl_at l + Z.of_nat (length q)) 128). lia.
  - rewrite lookup_app_l by lia. rewrite list_lookup_insert_ne; [apply He; lia|].
    rewrite Hs. pose proof (Z.mod_pos_bound (tl_at l + Z.of_nat (length q)) 128).
    pose proof (Z.mod_pos_bound (tl_at l + Z.of_nat i) 128). intros E. apply Z2Nat.inj in E; [|lia..].
    apply Hne. assert ((tl_at l + Z.of_nat (length q) - (tl_at l + Z.of_nat i)) mod 128 = 0) as Hz.
    { rewrite Zminus_mod, E. by rewrite Z.sub_diag. }
    replace (tl_at l + Z.of_nat (length q) - (tl_at l + Z.of_nat i)) with (Z.of_nat (length q - i)) in Hz by lia.
    rewrite Z.mod_small in Hz by lia. lia.
Qed.

Lemma tl_front l t q : tl_repr l (t :: q) -> threadListFront l = Some t.
Proof.
  intros [Ha Hl Hs Hm He]. unfold threadListFront. specialize (He 0%nat ltac:(cbn; lia)).
  rewrite Z.add_0_r, Z.mod_small in He by lia. done.
Qed.

Lemma tl_pop l t q : tl_repr l (t :: q) -> tl_repr (threadListPop l) q.
Proof.
  intros [Ha Hl Hs Hm He]. cbn in Hs, Hm. unfold threadListPop, THREAD_LIST_SIZE. rewrite !u64_small by lia.
  split; cbn; [apply Z.mod_pos_bound; lia|done|lia|lia|].
  intros i Hi. rewrite Z.add_mod_idemp_l by lia. specialize (He (S i) ltac:(cbn; lia)). change ((t :: q) !! S i) with (q !! i) in He. rewrite <- He.
  do 3 f_equal. lia.
Qed.

Lemma tl_pos l q : tl_repr l q -> (0 <? threadListSize l) = negb (bool_decide (q = [])).
Proof.
  intros [Ha Hl Hs Hm He]. unfold threadListSize. rewrite Hs. destruct q; [done|]. by apply Z.ltb_lt.
Qed.

(** ** Pools *)

Lemma pool_count p used : pool_repr p used -> nfree p = Z.of_nat (length (free_list p)) - Z.of_nat (size used).
Proof.
  intros [Hr Hnd Hf Hu]. set (all := list_to_set (C := gset Z) (seqZ 0 (Z.of_nat (length (free_list p))))).
  assert (Hall : size all = length (free_list p)).
  { unfold all. rewrite size_list_to_set by apply NoDup_seqZ. rewrite length_seqZ. lia. }
  assert (Hdec : all = list_to_set (take (Z.to_nat (nfree p)) (free_list p)) ∪ used).
  { apply set_eq. intros i. unfold all. rewrite elem_of_list_to_set, elem_of_seqZ, elem_of_union, elem_of_list_to_set, Hf.
    destruct (decide (i ∈ used)) as [Hi|Hi]; [specialize (Hu i Hi)|]; naive_solver lia. }
  rewrite Hdec, size_union, size_list_to_set, length_take in Hall; [lia|done|].
  intros i Hi. rewrite elem_of_list_to_set, Hf in Hi. naive_solver.
Qed.

Record pools_ok (s : Threading) : Prop := {
  po_threads : pool_repr (thread_pool s) (dom (threads s));
  po_contexts : pool_repr (context_pool s) (dom (contexts s));
  po_tlen : length (free_list (thread_pool s)) = THREAD_POOL_SIZE;
  po_clen : length (free_list (context_pool s)) = THREAD_POOL_SIZE
}.

(** What a call leaves alone. *)
Definition same_lists (s s' : Threading) : Prop :=
  ready_threads s' = ready_threads s /\ conds s' = conds s /\ main_target s' = main_target s.

Lemma same_lists_trans s1 s2 s3 : same_lists s1 s2 -> same_lists s2 s3 -> same_lists s1 s3.
Proof. unfold same_lists. intros (-> & -> & ->) (-> & -> & ->). done. Qed.

Lemma free_len i p p' : pool_free i p = Some p' -> length (free_list p') = length (free_list p).
Proof. unfold pool_free. case_match; [|done]. intros [= <-]. cbn. by rewrite length_insert. Qed.

Lemma allocate_some p used : pool_repr p used -> Z.of_nat (size used) < Z.of_nat (length (free_list p)) ->
  exists i p', pool_allocate p = (Some i, p') /\ (i ∉ used) /\ pool_repr p' ({[i]} ∪ used) /\
    length (free_list p') = length (free_list p).
Proof.
  intros Hr Hlt. pose proof (pool_count _ _ Hr) as Hc. pose proof (pool_allocate_repr p used Hr) as Ha.
  destruct (pool_allocate p) as [[i|] p'] eqn:E.
  - exists i, p'. destruct Ha. split_and!; try done. unfold pool_allocate in E. case_match; simplify_eq. done.
  - unfold pool_allocate in E. destruct (Z.eqb_spec (nfree p) 0); [lia|]. simplify_eq.
    destruct Hr as [Hrange _ _ _]. apply lookup_ge_None in H. lia.
Qed.

Lemma wp_create target s (Q : Z -> Threading -> Prop) :
  pools_ok s -> (size (dom (threads s)) < THREAD_POOL_SIZE)%nat ->
  (forall t n s', t ∉ dom (threads s) -> pools_ok s' -> same_lists s s' -> contexts s' = contexts s ->
     context_pool s' = context_pool s -> current_thread s' = current_thread s ->
     threads s' = <[t := mkThread n None target]> (threads s) -> Q t s') ->
  wp (threadCreate target) Q s.
Proof.
  intros [Ht Hc Hl Hcl] Hsz HQ. destruct (allocate_some _ _ Ht) as (t & p' & E & Hnew & Hr & Hlen); [rewrite Hl; lia|].
  unfold threadCreate. apply wp_bind, wp_gets. rewrite E. apply wp_bind, wp_modify, wp_bind, wp_gets.
  apply wp_bind, wp_modify. apply wp_bind, wp_modify, wp_ret.
  eapply HQ; [exact Hnew| |done..]. split; cbn; try done; [by rewrite dom_insert_L|congruence].
Qed.

Lemma wp_get_thread t th s (Q : Thread -> Threading -> Prop) :
  threads s !! t = Some th -> Q th s -> wp (get_thread t) Q s.
Proof. intros Ht HQ. apply wp_bind, wp_gets. rewrite Ht. by eapply wp_deref. Qed.

Lemma wp_free_context c s (Q : unit -> Threading -> Prop) :
  pools_ok s -> c ∈ dom (contexts s) ->
  (forall p, pools_ok (set_contexts (delete c) (set_context_pool p s)) ->
     Q tt (set_contexts (delete c) (set_context_pool p s))) ->
  wp (free_context c) Q s.
Proof.
  intros [Ht Hc Hl Hcl] Hin HQ. destruct (pool_free_repr _ _ c Hc Hin) as (p & E & Hr).
  unfold free_context. apply wp_bind, wp_gets, wp_bind. eapply wp_deref; [exact E|].
  apply wp_bind, wp_modify, wp_modify, HQ. split; cbn; try done.
  - by rewrite dom_delete_L.
  - rewrite <- Hcl. by eapply free_len.
Qed.

Definition delete_context (o : option Z) (m : gmap Z Context) : gmap Z Context :=
  match o with Some c => delete c m | None => m end.

Lemma wp_destroy t th s (Q : unit -> Threading -> Prop) :
  pools_ok s -> threads s !! t = Some th -> (forall c, th_context th = Some c -> c ∈ dom (contexts s)) ->
  (forall s', pools_ok s' -> same_lists s s' -> current_thread s' = current_thread s ->
     threads s' = delete t (threads s) -> contexts s' = delete_context (th_context th) (contexts s) -> Q tt s') ->
  wp (_threadDestroy t) Q s.
Proof.
  intros Hp Ht Hc HQ. unfold _threadDestroy. apply wp_bind. eapply wp_get_thread; [done|]. apply wp_bind.
  assert (forall s1, pools_ok s1 -> threads s1 = threads s -> same_lists s s1 -> current_thread s1 = current_thread s ->
    contexts s1 = delete_context (th_context th) (contexts s) ->
    wp (p ← gets thread_pool; p' ← deref (pool_free t p); modify (set_thread_pool p');; modify (set_threads (delete t))) Q s1) as Hrest.
  { intros s1 [H1 H2 H3 H4] E1 E2 E3 E4.
    destruct (pool_free_repr _ _ t H1) as (p & E & Hr); [rewrite E1; by apply elem_of_dom_2 in Ht|].
    apply wp_bind, wp_gets, wp_bind. eapply wp_deref; [exact E|]. apply wp_bind, wp_modify, wp_modify.
    apply HQ; cbn; [|done|done|by rewrite E1|done]. split; cbn; try done.
    - by rewrite dom_delete_L.
    - rewrite <- H3. by eapply free_len. }
  destruct (th_context th) as [c|] eqn:Ec.
  - apply wp_free_context; [done|by apply Hc|]. intros p Hp'. by apply Hrest.
  - apply wp_ret. by apply Hrest.
Qed.

(** ** Contexts *)

(** Each context in use belongs to one thread. *)
Record ctx_ok (s : Threading) : Prop := {
  co_some t th c : threads s !! t = Some th -> th_context th = Some c -> c ∈ dom (contexts s);
  co_inj t t' th th' c : threads s !! t = Some th -> threads s !! t' = Some th' ->
    th_context th = Some c -> th_context th' = Some c -> t = t';
  co_owned c : c ∈ dom (contexts s) -> exists t th, threads s !! t = Some th /\ th_context th = Some c
}.

Lemma length_omap_lt {A B} (f : A -> option B) l x : x ∈ l -> f x = None -> (length (omap f l) < length l)%nat.
Proof.
  assert (forall k, (length (omap f k) <= length k)%nat) as Hle.
  { induction k as [|y k IH]; cbn; [lia|]. destruct (f y); cbn; unfold omap in *; lia. }
  induction l as [|y l IH]; [by intros ?%elem_of_nil|]. intros [->|Hin]%elem_of_cons Hx; cbn.
  - rewrite Hx. specialize (Hle l). unfold omap in *. lia.
  - specialize (IH Hin Hx). destruct (f y); cbn; unfold omap in *; lia.
Qed.

(** A thread without a context leaves a context in the pool for it. *)
Lemma contexts_below s t th : ctx_ok s -> threads s !! t = Some th -> th_context th = None ->
  (size (dom (contexts s)) < size (dom (threads s)))%nat.
Proof.
  intros [_ _ Ho] Ht Hn. rewrite (size_dom (threads s)). rewrite <- length_map_to_list.
  assert (dom (contexts s) ⊆ list_to_set (omap (fun kv => th_context kv.2) (map_to_list (threads s)))) as Hsub.
  { intros c (t' & th' & Ht' & Hc')%Ho. rewrite elem_of_list_to_set, list_elem_of_omap.
    exists (t', th'). split; [by apply elem_of_map_to_list|done]. }
  apply subseteq_size in Hsub.
  assert (size (list_to_set (C := gset Z) (omap (fun kv => th_context kv.2) (map_to_list (threads s)))) <=
    length (omap (fun kv => th_context kv.2) (map_to_list (threads s))))%nat as Hle.
  { generalize (omap (fun kv : Z * Thread => th_context kv.2) (map_to_list (threads s))). intros l.
    induction l as [|x l IH]; cbn; [by rewrite size_empty|]. rewrite size_union_alt.
    pose proof (subseteq_size (list_to_set l ∖ {[x]} : gset Z) (list_to_set l) ltac:(set_solver)). rewrite size_singleton. lia. }
  pose proof (length_omap_lt (fun kv => th_context kv.2) (map_to_list (threads s)) (t, th)
    (proj2 (elem_of_map_to_list _ _ _) Ht) Hn). lia.
Qed.

Lemma wp_make_context t th s (Q : unit -> Threading -> Prop) :
  pools_ok s -> ctx_ok s -> threads s !! t = Some th -> th_context th = None ->
  (forall c s', c ∉ dom (contexts s) -> pools_ok s' -> same_lists s s' -> current_thread s' = current_thread s ->
     threads s' = <[t := with_context (Some c) th]> (threads s) ->
     contexts s' = <[c := mkContext (th_target th) false]> (contexts s) -> Q tt s') ->
  wp (make_if_none t) Q s.
Proof.
  intros [Hp Hc Hl Hcl] Ho Ht Hn HQ. pose proof (contexts_below s t th Ho Ht Hn) as Hlt.
  unfold make_if_none. apply wp_bind. eapply wp_get_thread; [done|]. rewrite Hn.
  unfold _threadMakeContext. apply wp_bind. eapply wp_get_thread; [done|]. rewrite Hn.
  pose proof (pool_count _ _ Hp) as Np. rewrite Hl in Np. pose proof (pr_range _ _ Hp) as Rp.
  destruct (allocate_some _ _ Hc) as (c & p' & E & Hnew & Hr & Hlen); [rewrite Hcl; lia|].
  apply wp_bind, wp_bind, wp_gets. rewrite E. apply wp_bind, wp_modify, wp_ret.
  apply wp_bind, wp_gets, wp_bind, wp_gets. apply wp_bind, wp_assert.
  { pose proof (pool_count _ _ Hr) as Nc. rewrite Hlen, Hcl, size_union, size_singleton in Nc by set_solver.
    unfold pool_available. cbn. apply Z.leb_le. lia. }
  apply wp_bind, wp_modify, wp_modify. eapply (HQ c); try done. split; cbn; try done.
  - rewrite dom_insert_L. apply elem_of_dom_2 in Ht. by rewrite subseteq_union_1_L by set_solver.
  - by rewrite dom_insert_L.
  - congruence.
Qed.

(** ** The state while code of the program runs *)

Definition is_started (s : Threading) (t : Z) : Prop :=
  exists th c, threads s !! t = Some th /\ th_context th = Some c.

Record tcore (s : Threading) (r : Z) : Prop := {
  ti_ctx : ctx_ok s;
  ti_cur : current_thread s = Some r;
  ti_run : is_started s r;
  ti_user t th : threads s !! t = Some th -> exists f, th_target th = User f;
  ti_loop c x : contexts s !! c = Some x -> ctx_started x = true /\ exists n, ctx_entry x = ThreadMain n;
  ti_main : exists f, main_target s = User f
}.
Definition tinv (s : Threading) (r : Z) : Prop := pools_ok s /\ tcore s r.

(** The thread [n] runs now, and [gone] is no more. *)
Definition moved (s s' : Threading) (n : Z) (gone : option Z) : Prop :=
  (forall t, t ∈ dom (threads s') <-> (t = n \/ t ∈ dom (threads s)) /\ gone <> Some t) /\
  (forall t, is_started s' t <-> (t = n \/ is_started s t) /\ gone <> Some t) /\
  conds s' = conds s /\ main_target s' = main_target s.

Lemma pools_put s t th th' : pools_ok s -> threads s !! t = Some th -> pools_ok (set_threads (<[t := th']>) s).
Proof.
  intros [H1 H2 H3 H4] Ht. split; cbn; try done. apply elem_of_dom_2 in Ht.
  rewrite dom_insert_L. by rewrite subseteq_union_1_L by set_solver.
Qed.

Lemma pools_ctx s c x x' : pools_ok s -> contexts s !! c = Some x -> pools_ok (set_contexts (<[c := x']>) s).
Proof.
  intros [H1 H2 H3 H4] Ht. split; cbn; try done. apply elem_of_dom_2 in Ht.
  rewrite dom_insert_L. by rewrite subseteq_union_1_L by set_solver.
Qed.

Lemma pools_same s s' : pools_ok s -> thread_pool s' = thread_pool s -> context_pool s' = context_pool s ->
  threads s' = threads s -> contexts s' = contexts s -> pools_ok s'.
Proof. intros [H1 H2 H3 H4] E1 E2 E3 E4. split; congruence. Qed.

Lemma wp_main_entered me self c fuel next s (Q : unit -> Threading -> Prop) :
  current_thread s = Some me -> threads s !! me = Some self -> th_context self = Some c ->
  wp (main_loop fuel next) Q s -> wp (_threadMain fuel next) Q s.
Proof.
  intros Hcur Hme Hc HQ. unfold _threadMain, main_entered. apply wp_bind, wp_bind, wp_gets. rewrite Hcur.
  apply wp_bind, wp_ret, wp_bind. eapply wp_get_thread; [done|]. apply wp_assert; [|done].
  apply bool_decide_eq_true. by rewrite Hc.
Qed.

(** The loop on its own context [c], with a thread that has none. *)
Lemma wp_takeover fuel me self c n th f s (Q : unit -> Threading -> Prop) :
  pools_ok s -> current_thread s = Some me -> threads s !! me = Some self -> th_context self = Some c ->
  threads s !! n = Some th -> th_context th = None -> th_target th = User f ->
  (forall s', pools_ok s' -> same_lists s s' -> current_thread s' = Some n ->
     threads s' = delete me (<[n := with_context (Some c) th]> (threads s)) -> contexts s' = contexts s -> Q tt s') ->
  wp (main_loop (S fuel) (Some n)) Q s.
Proof.
  intros Hp Hcur Hme Hc Hn Hnc Hu HQ. assert (n <> me) as Hne by congruence.
  cbn [main_loop]. apply wp_bind, wp_ret, wp_bind. eapply wp_get_thread; [done|]. rewrite Hnc.
  apply wp_bind, wp_gets, wp_bind. eapply wp_deref; [exact Hcur|]. apply wp_bind. eapply wp_get_thread; [done|]. rewrite Hc.
  apply wp_bind, wp_modify, wp_bind, wp_modify, wp_bind.
  eapply wp_destroy with (th := with_context None self).
  - eapply pools_put; [by eapply pools_put|]. cbn. by rewrite lookup_insert_ne.
  - cbn. by rewrite lookup_insert_eq.
  - done.
  - intros s' Hp' Hl' Hc' Ht' Hx'. cbn in *. apply wp_bind, wp_modify. rewrite Hu. apply wp_ret.
    apply HQ; cbn; try done.
    + by eapply pools_same.
    + rewrite Ht'. by rewrite delete_insert_eq.
Qed.

(** A context that was left is returned to. *)
Lemma wp_resume_started main t th c x s (Q : unit -> Threading -> Prop) :
  current_thread s = Some t -> threads s !! t = Some th -> th_context th = Some c ->
  contexts s !! c = Some x -> ctx_started x = true -> Q tt s -> wp (resume main) Q s.
Proof.
  intros Hcur Ht Hc Hx Hst HQ. unfold resume. apply wp_bind, wp_gets, wp_bind. eapply wp_deref; [exact Hcur|].
  apply wp_bind. eapply wp_get_thread; [done|]. apply wp_bind. eapply wp_deref; [done|].
  apply wp_bind, wp_gets, wp_bind. eapply wp_deref; [done|]. rewrite Hst. by apply wp_ret.
Qed.

(** A new context starts the loop. *)
Lemma wp_resume_loop main t th c next s (Q : unit -> Threading -> Prop) :
  current_thread s = Some t -> threads s !! t = Some th -> th_context th = Some c ->
  contexts s !! c = Some (mkContext (ThreadMain next) false) ->
  wp (main next) Q (set_contexts (<[c := mkContext (ThreadMain next) true]>) s) -> wp (resume main) Q s.
Proof.
  intros Hcur Ht Hc Hx HQ. unfold resume. apply wp_bind, wp_gets, wp_bind. eapply wp_deref; [exact Hcur|].
  apply wp_bind. eapply wp_get_thread; [done|]. apply wp_bind. eapply wp_deref; [done|].
  apply wp_bind, wp_gets, wp_bind. eapply wp_deref; [done|]. cbn. by apply wp_bind, wp_modify.
Qed.

(** A thread that gets a context of its own. *)
Lemma tcore_start s s' r n th c k :
  tcore s r -> threads s !! n = Some th -> th_context th = None -> c ∉ dom (contexts s) ->
  current_thread s' = Some n -> main_target s' = main_target s -> conds s' = conds s ->
  threads s' = <[n := with_context (Some c) th]> (threads s) ->
  contexts s' = <[c := mkContext (ThreadMain k) true]> (contexts s) ->
  tcore s' n /\ moved s s' n None.
Proof.
  intros [[Ho1 Ho2 Ho3] Hcur Hrun Hu Hloop Hmain] Hn Hnc Hc Hcur' Hm Hcd Et Ex. split; [split; try done|split_and!; try done].
  - split; rewrite ?Et, ?Ex.
    + intros t th' c' [[<- <-]|[Hne Ht]]%lookup_insert_Some; cbn; [intros [= <-]; set_solver|].
      intros Hc'. apply dom_insert, elem_of_union_r. by eapply Ho1.
    + assert (forall t th' c', threads s !! t = Some th' -> th_context th' = Some c' -> c' <> c) as Hold.
      { intros t th' c' Ht Hc' ->. apply Hc. by eapply Ho1. }
      intros t t' th1 th2 c'. intros [[<- <-]|[Hne Ht]]%lookup_insert_Some [[<- <-]|[Hne' Ht']]%lookup_insert_Some; cbn; try done.
      * intros [= <-] H2. by destruct (Hold _ _ _ Ht' H2).
      * intros H1 [= <-]. by destruct (Hold _ _ _ Ht H1).
      * by eapply Ho2.
    + intros c' [->%elem_of_singleton|Hin]%dom_insert%elem_of_union.
      * exists n. eexists. rewrite lookup_insert_eq. done.
      * destruct (Ho3 _ Hin) as (t & th' & Ht & Hc'). exists t, th'. rewrite lookup_insert_ne; [done|]. intros ->. congruence.
  - eexists _, _. rewrite Et, lookup_insert_eq. done.
  - rewrite Et. intros t th' [[<- <-]|[Hne Ht]]%lookup_insert_Some; [by apply (Hu n th)|by eapply Hu].
  - rewrite Ex. intros c' x [[<- <-]|[Hne Ht]]%lookup_insert_Some; [by eauto|by eapply Hloop].
  - by rewrite Hm.
  - intros t. rewrite Et, dom_insert_L. apply elem_of_dom_2 in Hn. set_solver.
  - intros t. unfold is_started. rewrite Et. split.
    + intros (th' & c' & [[<- <-]|[Hne Ht]]%lookup_insert_Some & Hc'); split; try done; [by left|right; by eexists _, _].
    + intros [[->|(th' & c' & Ht & Hc')] _]; [eexists _, _; by rewrite lookup_insert_eq|].
      exists th', c'. rewrite lookup_insert_ne; [done|]. intros ->. congruence.
Qed.

(** A new thread, which has no context. *)
Lemma tcore_create s s' r n k f :
  tcore s r -> n ∉ dom (threads s) -> same_lists s s' -> current_thread s' = current_thread s ->
  contexts s' = contexts s -> threads s' = <[n := mkThread k None (User f)]> (threads s) ->
  tcore s' r /\ (forall t, is_started s' t <-> is_started s t) /\ (forall t, t ∈ dom (threads s') <-> t = n \/ t ∈ dom (threads s)).
Proof.
  intros [[Ho1 Ho2 Ho3] Hcur Hrun Hu Hloop Hmain] Hn (_ & _ & Hm) Hc Ex Et.
  assert (forall t th c, threads s' !! t = Some th -> th_context th = Some c -> threads s !! t = Some th) as Hold.
  { rewrite Et. by intros t th c [[<- <-]|[Hne Ht]]%lookup_insert_Some. }
  assert (forall t th, threads s !! t = Some th -> threads s' !! t = Some th) as Hnew.
  { intros t th Ht. rewrite Et, lookup_insert_ne; [done|]. intros ->. by apply Hn, elem_of_dom. }
  assert (forall t, is_started s' t <-> is_started s t) as Hst.
  { intros t. split; intros (th & c & Ht & Hc'); exists th, c; eauto. }
  split_and!; [split; try done| |].
  - split; rewrite ?Ex; eauto. intros c (t & th & Ht & Hc')%Ho3. eauto.
  - congruence.
  - by apply Hst.
  - rewrite Et. intros t th [[<- <-]|[Hne Ht]]%lookup_insert_Some; [by eexists|by eapply Hu].
  - rewrite Ex. exact Hloop.
  - by rewrite Hm.
  - done.
  - intros t. rewrite Et, dom_insert_L. set_solver.
Qed.

(** The thread [me] hands its context over, or gives it back, and is gone. *)
Lemma moved_gone s s' me n th self c :
  tcore s me -> threads s !! n = Some th -> th_context th = None -> threads s !! me = Some self -> th_context self = Some c ->
  current_thread s' = Some n -> main_target s' = main_target s -> conds s' = conds s ->
  threads s' = delete me (<[n := with_context (Some c) th]> (threads s)) -> contexts s' = contexts s ->
  tcore s' n /\ moved s s' n (Some me).
Proof.
  intros [[Ho1 Ho2 Ho3] Hcur Hrun Hu Hloop Hmain] Hn Hnc Hme Hc Hcur' Hm Hcd Et Ex.
  assert (n <> me) as Hne by congruence.
  assert (threads s' !! n = Some (with_context (Some c) th)) as Hn'.
  { rewrite Et, lookup_delete_ne by done. by rewrite lookup_insert_eq. }
  assert (forall t th', threads s' !! t = Some th' -> (t = n /\ th' = with_context (Some c) th) \/ (t <> me /\ threads s !! t = Some th')) as Hinv.
  { intros t th'. rewrite Et. intros [Hd [[<- <-]|[? ?]]%lookup_insert_Some]%lookup_delete_Some; auto. }
  assert (forall t th', t <> me -> t <> n -> threads s !! t = Some th' -> threads s' !! t = Some th') as Hkeep.
  { intros t th' ? ? Ht. by rewrite Et, lookup_delete_ne, lookup_insert_ne. }
  split; [split; try done|split_and!; try done].
  - split; rewrite ?Ex.
    + intros t th' c' [[-> ->]|[_ Ht]]%Hinv Hc'; [injection Hc' as <-|]; by eapply Ho1.
    + intros t t' th1 th2 c' [[-> ->]|[Hn1 H1]]%Hinv [[-> ->]|[Hn2 H2]]%Hinv C1 C2; cbn in *; try done.
      * injection C1 as <-. by destruct Hn2; eapply Ho2.
      * injection C2 as <-. by destruct Hn1; eapply Ho2.
      * by eapply Ho2.
    + intros c' (t & th' & Ht & Hc')%Ho3. destruct (decide (t = me)) as [->|Hnm].
      * exists n. eexists. split; [done|]. cbn. congruence.
      * exists t, th'. split; [|done]. apply Hkeep; [done|congruence|done].
  - eexists _, _. split; [done|]. done.
  - intros t th' [[-> ->]|[_ Ht]]%Hinv; [by apply (Hu n th)|by eapply Hu].
  - rewrite Ex. exact Hloop.
  - by rewrite Hm.
  - intros t. rewrite Et, dom_delete_L, dom_insert_L. apply elem_of_dom_2 in Hn. split.
    + intros [[->%elem_of_singleton|?]%elem_of_union Hnm]%elem_of_difference; (split; [set_solver|]); intros [= <-]; set_solver.
    + intros [Ht Hg]. apply elem_of_difference. split; [set_solver|]. intros ->%elem_of_singleton. done.
  - intros t. split.
    + intros (th' & c' & [[-> ->]|[Hnm Ht]]%Hinv & Hc'); split; try congruence; [by left|right; by eexists _, _].
    + intros [[->|(th' & c' & Ht & Hc')] Hg]; [by eexists _, _|].
      exists th', c'. split; [|done]. apply Hkeep; congruence.
Qed.

Lemma moved_switch s s' me n th c self :
  tcore s me -> n <> me -> threads s !! n = Some th -> th_context th = Some c -> threads s !! me = Some self ->
  current_thread s' = Some n -> main_target s' = main_target s -> conds s' = conds s ->
  threads s' = delete me (threads s) -> contexts s' = delete_context (th_context self) (contexts s) ->
  tcore s' n /\ moved s s' n (Some me).
Proof.
  intros [[Ho1 Ho2 Ho3] Hcur (self' & cs & Hse & Hcs) Hu Hloop Hmain] Hne Hn Hc Hme Hcur' Hm Hcd Et Ex.
  assert (self' = self) as -> by congruence. rewrite Hcs in Ex. cbn in Ex.
  assert (forall t th', threads s' !! t = Some th' <-> t <> me /\ threads s !! t = Some th') as Hinv.
  { intros t th'. rewrite Et, lookup_delete_Some. naive_solver. }
  split; [split; try done|split_and!; try done].
  - split.
    + intros t th' c' [Hnm Ht]%Hinv Hc'. rewrite Ex, dom_delete_L. apply elem_of_difference. split; [by eapply Ho1|].
      intros ->%elem_of_singleton. by destruct Hnm; eapply Ho2.
    + intros t t' th1 th2 c' [_ H1]%Hinv [_ H2]%Hinv. by eapply Ho2.
    + rewrite Ex, dom_delete_L. intros c' [(t & th' & Ht & Hc')%Ho3 Hcc]%elem_of_difference.
      exists t, th'. split; [|done]. apply Hinv. split; [|done]. intros ->. set_solver.
  - exists th, c. split; [|done]. by apply Hinv.
  - intros t th' [_ Ht]%Hinv. by eapply Hu.
  - rewrite Ex. intros c' x [_ Hx]%lookup_delete_Some. by eapply Hloop.
  - by rewrite Hm.
  - intros t. rewrite Et, dom_delete_L. apply elem_of_dom_2 in Hn. split.
    + intros [Ht Hnm]%elem_of_difference. split; [by right|]. intros [= <-]. set_solver.
    + intros [Ht Hg]. apply elem_of_difference. split; [set_solver|]. intros ->%elem_of_singleton. done.
  - intros t. split.
    + intros (th' & c' & [Hnm Ht]%Hinv & Hc'). split; [right; by eexists _, _|congruence].
    + intros [[->|(th' & c' & Ht & Hc')] Hg]; [exists th, c; split; [by apply Hinv|done]|].
      exists th', c'. split; [|done]. apply Hinv. split; [congruence|done].
Qed.

(** ** Who runs next *)

Lemma tinv_current s r n : tinv s r -> is_started s n -> tinv (set_current (Some n) s) n /\ moved s (set_current (Some n) s) n None.
Proof.
  intros [Hp [[Ho1 Ho2 Ho3] Hcur Hrun Hu Hloop Hmain]] Hn. split; [split; [by eapply pools_same|split; [by split|done..]]|].
  destruct Hn as (th & c & Hn & Hc). split_and!; try done.
  - intros t. cbn. apply elem_of_dom_2 in Hn. naive_solver.
  - intros t. cbn. split; [intros Ht; split; [by right|done]|]. intros [[->|?] _]; [by exists th, c|done].
Qed.

Lemma wp_resume_user main r s (Q : unit -> Threading -> Prop) : tinv s r -> Q tt s -> wp (resume main) Q s.
Proof.
  intros Ht HQ. pose proof Ht as [_ [[Ho1 _ _] Hcur (th & c & Hr & Hc) _ Hloop _]].
  destruct (proj1 (elem_of_dom _ _) (Ho1 _ _ _ Hr Hc)) as [x Hx].
  eapply wp_resume_started; try done. by apply (Hloop c x).
Qed.

Lemma wp_make_started n s (Q : unit -> Threading -> Prop) : is_started s n -> Q tt s -> wp (make_if_none n) Q s.
Proof.
  intros (th & c & Hn & Hc) HQ. unfold make_if_none. apply wp_bind. eapply wp_get_thread; [done|]. rewrite Hc. by apply wp_ret.
Qed.

Lemma wp_swap_started r n s (Q : unit -> Threading -> Prop) :
  tinv s r -> is_started s n ->
  (forall s', tinv s' n -> moved s s' n None -> ready_threads s' = ready_threads s -> Q tt s') -> wp (threadSwap n) Q s.
Proof.
  intros Ht Hn HQ. pose proof Ht as [_ [_ Hcur (th & c & Hr & Hc) _ _ _]].
  unfold threadSwap. apply wp_bind, wp_gets. rewrite Hcur. apply wp_bind, wp_ret, wp_bind.
  eapply wp_get_thread; [done|]. apply wp_bind, wp_assert; [apply bool_decide_eq_true; by rewrite Hc|]. apply wp_bind, wp_make_started; [done|].
  apply wp_bind, wp_modify. destruct (tinv_current s r n Ht Hn) as [Ht' Hm].
  eapply wp_resume_user; [exact Ht'|]. by apply HQ.
Qed.

(** A new thread of the library's loop is made and swapped to. *)
Lemma wp_swap_loop r next s (Q : unit -> Threading -> Prop) :
  tinv s r -> (size (dom (threads s)) < THREAD_POOL_SIZE)%nat ->
  (forall m c k s', m ∉ dom (threads s) -> c ∉ dom (contexts s) -> pools_ok s' -> same_lists s s' ->
     current_thread s' = Some m ->
     threads s' = <[m := mkThread k (Some c) (ThreadMain next)]> (threads s) ->
     contexts s' = <[c := mkContext (ThreadMain next) true]> (contexts s) -> wp (main_loop main_fuel next) Q s') ->
  wp (n ← threadCreate (ThreadMain next); threadSwap n) Q s.
Proof.
  intros Ht Hsz HQ. pose proof Ht as [Hp [[Ho1 Ho2 Ho3] Hcur (th & cr & Hr & Hc) _ _ _]].
  apply wp_bind. eapply wp_create; [done|done|]. intros m k s1 Hm Hp1 Hl1 Hx1 _ Hc1 Et1.
  assert (r <> m) by (intros ->; apply Hm; by apply elem_of_dom_2 in Hr).
  unfold threadSwap. apply wp_bind, wp_gets. rewrite Hc1, Hcur. apply wp_bind, wp_ret, wp_bind.
  eapply wp_get_thread; [rewrite Et1; by rewrite lookup_insert_ne|]. apply wp_bind, wp_assert; [apply bool_decide_eq_true; by rewrite Hc|].
  apply wp_bind. eapply wp_make_context; [done| |rewrite Et1; apply lookup_insert_eq|done|].
  { assert (forall t th' c, threads s1 !! t = Some th' -> th_context th' = Some c -> threads s !! t = Some th') as Hold.
    { rewrite Et1. by intros t th' c' [[<- <-]|[? ?]]%lookup_insert_Some. }
    split; rewrite ?Hx1; eauto. intros c (t & th' & Ht' & Hc')%Ho3. exists t, th'. split; [|done].
    rewrite Et1, lookup_insert_ne; [done|]. intros ->. apply Hm. by apply elem_of_dom_2 in Ht'. }
  intros c s2 Hc2 Hp2 Hl2 Hcur2 Et2 Ex2. apply wp_bind, wp_modify.
  eapply wp_resume_loop; [done|cbn; rewrite Et2; apply lookup_insert_eq|done|cbn; rewrite Ex2; apply lookup_insert_eq|].
  eapply wp_main_entered; [done|cbn; rewrite Et2; apply lookup_insert_eq|done|]. eapply (HQ m c k); cbn; try done.
  - by rewrite Hx1 in Hc2.
  - eapply pools_ctx; [by eapply pools_same|]. cbn. rewrite Ex2. apply lookup_insert_eq.
  - eapply same_lists_trans; [exact Hl1|]. exact Hl2.
  - rewrite Et2, Et1, insert_insert_eq. done.
  - rewrite Ex2, insert_insert_eq, Hx1. done.
Qed.

Lemma delete_fresh {A} (m : gmap Z A) k n x y : k ∉ dom m -> n <> k -> delete k (<[n := x]> (<[k := y]> m)) = <[n := x]> m.
Proof.
  intros Hk Hne. rewrite delete_insert_ne by done. rewrite delete_insert_id; [done|]. by apply not_elem_of_dom.
Qed.

(** Swapping to a thread that has not run yet. *)
Lemma wp_swap_fresh r n th s (Q : unit -> Threading -> Prop) :
  tinv s r -> (size (dom (threads s)) < THREAD_POOL_SIZE)%nat -> threads s !! n = Some th -> th_context th = None ->
  (forall s', tinv s' n -> moved s s' n None -> ready_threads s' = ready_threads s -> Q tt s') ->
  wp (m ← threadCreate (ThreadMain (Some n)); threadSwap m) Q s.
Proof.
  intros Ht Hsz Hn Hnc HQ. eapply wp_swap_loop; [done|done|]. intros m c k s1 Hm Hc Hp1 (Hr1 & Hd1 & Hm1) Hcur1 Et1 Ex1.
  assert (n <> m) as Hne by (intros ->; apply Hm; by apply elem_of_dom_2 in Hn).
  destruct (ti_user _ _ (proj2 Ht) _ _ Hn) as [f Hf].
  eapply wp_takeover; [done|done|rewrite Et1; apply lookup_insert_eq|done|rewrite Et1; by rewrite lookup_insert_ne|done|done|].
  intros s2 Hp2 (Hr2 & Hd2 & Hm2) Hcur2 Et2 Ex2. rewrite Et1, delete_fresh in Et2 by done. rewrite Ex1 in Ex2.
  destruct (tcore_start s s2 r n th c (Some n)) as [H1 H2]; [apply Ht|done|done|done|done|congruence..|].
  apply HQ; [by split|done|congruence].
Qed.

(** The loop finds a thread itself. *)
Lemma wp_main_next fuel s (Q : unit -> Threading -> Prop) :
  wp _threadGetRunnable (fun n s1 => wp (main_loop (S fuel) (Some n)) Q s1) s -> wp (main_loop (S fuel) None) Q s.
Proof. intros Hw. cbn [main_loop]. apply wp_bind. exact Hw. Qed.

Lemma wp_runnable_none s (Q : Z -> Threading -> Prop) :
  tl_repr (ready_threads s) [] -> wp (threadCreate (main_target s)) Q s -> wp _threadGetRunnable Q s.
Proof.
  intros Hl HQ. unfold _threadGetRunnable. apply wp_bind, wp_gets. rewrite (tl_pos _ _ Hl). cbn. by apply wp_bind, wp_gets.
Qed.

Lemma wp_runnable_some s t q (Q : Z -> Threading -> Prop) :
  tl_repr (ready_threads s) (t :: q) ->
  Q t (set_ready (threadListPop (ready_threads s)) s) -> wp _threadGetRunnable Q s.
Proof.
  intros Hl HQ. unfold _threadGetRunnable. apply wp_bind, wp_gets. rewrite (tl_pos _ _ Hl). cbn.
  apply wp_bind. eapply wp_deref; [by eapply tl_front|]. by apply wp_bind, wp_modify, wp_ret.
Qed.

(** Swapping to the main function when nothing is runnable. *)
Lemma wp_swap_idle r s (Q : unit -> Threading -> Prop) :
  tinv s r -> tl_repr (ready_threads s) [] -> (S (size (dom (threads s))) < THREAD_POOL_SIZE)%nat ->
  (forall n s', n ∉ dom (threads s) -> tinv s' n -> moved s s' n None -> ready_threads s' = ready_threads s -> Q tt s') ->
  wp (m ← threadCreate (ThreadMain None); threadSwap m) Q s.
Proof.
  intros Ht Hl Hsz HQ. eapply wp_swap_loop; [done|lia|]. intros m c k s1 Hm Hc Hp1 (Hr1 & Hd1 & Hm1) Hcur1 Et1 Ex1.
  destruct (ti_main _ _ (proj2 Ht)) as [f Hf].
  apply wp_main_next, wp_runnable_none; [by rewrite Hr1|].
  rewrite Hm1, Hf. apply wp_create; [done|rewrite Et1, dom_insert_L, size_union, size_singleton by set_solver; lia|].
  intros n j s2 Hn Hp2 (Hr2 & Hd2 & Hm2) Hx2 _ Hcur2 Et2. rewrite Et1, dom_insert_L in Hn.
  assert (n <> m) as Hne by set_solver. assert (n ∉ dom (threads s)) as Hnew by set_solver.
  assert (threads s2 !! m = Some (mkThread k (Some c) (ThreadMain None))) as Hm'.
  { rewrite Et2, lookup_insert_ne, Et1 by done. apply lookup_insert_eq. }
  eapply wp_takeover; [done|by rewrite Hcur2|done|done|rewrite Et2; apply lookup_insert_eq|done|done|].
  intros s3 Hp3 (Hr3 & Hd3 & Hm3) Hcur3 Et3 Ex3.
  assert (threads s3 = <[n := mkThread j (Some c) (User f)]> (threads s)) as Et.
  { rewrite Et3, Et2, Et1, insert_insert_eq. by apply delete_fresh. }
  set (mid := set_threads (<[n := mkThread j None (User f)]>) s).
  destruct (tcore_create s mid r n j f) as (Cm & Sm & Dm); [apply Ht|done..|].
  destruct (tcore_start mid s3 r n (mkThread j None (User f)) c None) as [H1 (M1 & M2 & M3 & M4)];
    [done|apply lookup_insert_eq|done|done|done|cbn; congruence|cbn; congruence|cbn; by rewrite insert_insert_eq|cbn; congruence|].
  eapply HQ; [done|by split| |congruence]. split_and!; [..|done|done].
  - intros t. rewrite M1, Dm. naive_solver.
  - intros t. rewrite M2, Sm. naive_solver.
Qed.

(** ** A thread ends *)

Lemma tinv_ready s r l : tinv s r -> tinv (set_ready l s) r.
Proof. intros [Hp [[Ho1 Ho2 Ho3] ? ? ? ? ?]]. split; [by eapply pools_same|]. split; [by split|done..]. Qed.

(** [switch_to] a thread that was left, and the processor given to it. *)
Lemma wp_switch_started r n s (Q : unit -> Threading -> Prop) main other :
  tinv s r -> is_started s n -> n <> r ->
  (forall s', tinv s' n -> moved s s' n (Some r) -> ready_threads s' = ready_threads s -> Q tt s') ->
  wp (switched ← switch_to n; if (switched : bool) then resume main else other) Q s.
Proof.
  intros Ht (th & c & Hn & Hc) Hne HQ. pose proof Ht as [Hp [[Ho1 _ _] Hcur (self & cs & Hr & Hcs) _ _ _]].
  apply wp_bind. unfold switch_to. apply wp_bind, wp_gets. rewrite Hcur. case_bool_decide; [congruence|].
  apply wp_bind. eapply wp_destroy; [done|done|intros c' Hc'; by eapply Ho1|].
  intros s1 Hp1 (Hr1 & Hd1 & Hm1) Hcur1 Et1 Ex1.
  apply wp_bind, wp_make_started; [exists th, c; split; [|done]; rewrite Et1; by rewrite lookup_delete_ne|].
  apply wp_bind, wp_modify, wp_ret. cbn.
  destruct (moved_switch s (set_current (Some n) s1) r n th c self) as [H1 H2]; try done; [apply Ht|].
  assert (tinv (set_current (Some n) s1) n) as Ht' by (split; [by eapply pools_same|done]).
  eapply wp_resume_user; [exact Ht'|]. by apply HQ.
Qed.

(** The loop, on the context of a thread that is over, with the next one. *)
Lemma wp_main_some r n s (Q : unit -> Threading -> Prop) :
  tinv s r -> n ∈ dom (threads s) -> n <> r ->
  (forall s', tinv s' n -> moved s s' n (Some r) -> ready_threads s' = ready_threads s -> Q tt s') ->
  wp (main_loop main_fuel (Some n)) Q s.
Proof.
  intros Ht [th Hn]%elem_of_dom Hne HQ. pose proof Ht as [Hp [Hctx Hcur (self & c & Hr & Hc) Hu _ _]].
  destruct (th_context th) as [cn|] eqn:Hcn.
  - unfold main_fuel. cbn [main_loop]. apply wp_bind, wp_ret, wp_bind.
    eapply wp_get_thread; [done|]. rewrite Hcn. eapply wp_switch_started; [done|by exists th, cn|done|done].
  - destruct (Hu _ _ Hn) as [f Hf]. eapply wp_takeover; [done..|].
    intros s1 Hp1 (Hr1 & Hd1 & Hm1) Hcur1 Et1 Ex1.
    destruct (moved_gone s s1 r n th self c) as [H1 H2]; try done; [apply Ht|]. by apply HQ; [split| |].
Qed.

Lemma wp_return_to_loop r s (Q : unit -> Threading -> Prop) :
  tinv s r -> wp (main_loop main_fuel None) Q s -> wp thread_return Q s.
Proof.
  intros [_ [[Ho1 _ _] Hcur (self & c & Hr & Hc) _ Hloop _]] HQ.
  destruct (proj1 (elem_of_dom _ _) (Ho1 _ _ _ Hr Hc)) as [x Hx]. destruct (Hloop _ _ Hx) as [_ [k Hk]].
  unfold thread_return. apply wp_bind, wp_gets, wp_bind. eapply wp_deref; [exact Hcur|]. apply wp_bind.
  eapply wp_get_thread; [done|]. apply wp_bind. eapply wp_deref; [done|]. apply wp_bind, wp_gets, wp_bind.
  eapply wp_deref; [done|]. by rewrite Hk.
Qed.

Lemma wp_return_some r t q s (Q : unit -> Threading -> Prop) :
  tinv s r -> tl_repr (ready_threads s) (t :: q) -> t ∈ dom (threads s) -> t <> r ->
  (forall s', tinv s' t -> moved s s' t (Some r) -> tl_repr (ready_threads s') q -> Q tt s') ->
  wp thread_return Q s.
Proof.
  intros Ht Hl Hin Hne HQ. pose proof Ht as [_ [_ Hcur (self & c & Hr & Hc) _ _ _]].
  eapply wp_return_to_loop; [done|]. apply wp_main_next. eapply wp_runnable_some; [done|].
  eapply wp_main_some; [by apply tinv_ready|done|done|].
  intros s1 H1 H2 H3. apply HQ; [done|exact H2|]. rewrite H3. cbn. by eapply tl_pop.
Qed.

Lemma wp_return_none r s (Q : unit -> Threading -> Prop) :
  tinv s r -> tl_repr (ready_threads s) [] -> (size (dom (threads s)) < THREAD_POOL_SIZE)%nat ->
  (forall n s', n ∉ dom (threads s) -> tinv s' n -> moved s s' n (Some r) -> tl_repr (ready_threads s') [] -> Q tt s') ->
  wp thread_return Q s.
Proof.
  intros Ht Hl Hsz HQ. pose proof Ht as [Hp [_ Hcur (self & c & Hr & Hc) _ _ [f Hf]]].
  eapply wp_return_to_loop; [done|]. apply wp_main_next. eapply wp_runnable_none; [done|].
  rewrite Hf. apply wp_create; [done|done|]. intros n k s1 Hn Hp1 Hl1 Hx1 _ Hcur1 Et1.
  assert (n <> r) as Hne by (intros ->; apply Hn; by apply elem_of_dom_2 in Hr).
  destruct (tcore_create s s1 r n k f) as (C1 & S1 & D1); [apply Ht|done..|].
  eapply wp_main_some; [by split|apply D1; by left|done|].
  intros s2 H1 (M1 & M2 & M3 & M4) H3. destruct Hl1 as (L1 & L2 & L3). eapply HQ; [done|done| |].
  - split_and!; [..|congruence|congruence].
    + intros t. rewrite M1, D1. naive_solver.
    + intros t. rewrite M2, S1. naive_solver.
  - by rewrite H3, L1.
Qed.

(** ** A thread gives way *)

Lemma wp_bind_inv {S A B} (m : M S A) (k : A -> M S B) Q s : wp (m ≫= k) Q s -> wp m (fun a s' => wp (k a) Q s') s.
Proof. unfold wp, mbind, M_bind. by destruct (m s). Qed.

Lemma wp_schedule t q s (Q : unit -> Threading -> Prop) :
  tl_repr (ready_threads s) q -> (length q < 128)%nat ->
  (forall l, tl_repr l (q ++ [t]) -> Q tt (set_ready l s)) -> wp (threadSchedule t) Q s.
Proof.
  intros Hl Hq HQ. destruct (tl_push _ _ t Hl Hq) as (l' & E & Hl'). unfold threadSchedule.
  apply wp_bind, wp_gets. rewrite E. by apply wp_modify, HQ.
Qed.

(** The part of [threadYield] after the current thread was put in the list. *)
Definition yield_rest : M Threading unit :=
  l ← gets ready_threads;
  next ← (if 0 <? threadListSize l
          then
            n ← _threadGetRunnable;
            th ← get_thread n;
            match th_context th with None => threadCreate (ThreadMain (Some n)) | Some _ => mret n end
          else threadCreate (ThreadMain None));
  threadSwap next.

Lemma wp_yield_some r t q s (Q : unit -> Threading -> Prop) :
  tinv s r -> tl_repr (ready_threads s) (t :: q) -> t ∈ dom (threads s) -> (size (dom (threads s)) < THREAD_POOL_SIZE)%nat ->
  (forall s', tinv s' t -> moved s s' t None -> tl_repr (ready_threads s') q -> Q tt s') ->
  wp yield_rest Q s.
Proof.
  intros Ht Hl [th Hth]%elem_of_dom Hsz HQ. unfold yield_rest. apply wp_bind, wp_gets.
  rewrite (tl_pos _ _ Hl). change (negb (bool_decide (t :: q = []))) with true. cbv iota.
  set (s1 := set_ready (threadListPop (ready_threads s)) s).
  assert (forall s', ready_threads s' = ready_threads s1 -> tl_repr (ready_threads s') q) as Hq.
  { intros s' ->. by eapply tl_pop. }
  assert (wp (n ← (match th_context th with None => threadCreate (ThreadMain (Some t)) | Some _ => mret t end); threadSwap n) Q s1) as Hw.
  { destruct (th_context th) as [c|] eqn:Hc.
    - apply wp_bind, wp_ret. eapply wp_swap_started; [by apply tinv_ready|by exists th, c|]. intros s' H1 H2 H3. by apply HQ; auto.
    - eapply wp_swap_fresh; [by apply tinv_ready|done|done|done|]. intros s' H1 H2 H3. by apply HQ; auto. }
  apply wp_bind, wp_bind. eapply wp_runnable_some; [done|].
  apply wp_bind. eapply wp_get_thread; [exact Hth|]. apply wp_bind_inv in Hw. exact Hw.
Qed.

Lemma wp_yield_none r s (Q : unit -> Threading -> Prop) :
  tinv s r -> tl_repr (ready_threads s) [] -> (S (size (dom (threads s))) < THREAD_POOL_SIZE)%nat ->
  (forall n s', n ∉ dom (threads s) -> tinv s' n -> moved s s' n None -> tl_repr (ready_threads s') [] -> Q tt s') ->
  wp yield_rest Q s.
Proof.
  intros Ht Hl Hsz HQ. unfold yield_rest. apply wp_bind, wp_gets. rewrite (tl_pos _ _ Hl).
  change (negb (bool_decide ([] = ([] : list Z)))) with false. cbv iota.
  eapply wp_swap_idle; [done..|]. intros n s' H1 H2 H3 H4. eapply HQ; [done..|]. by rewrite H4.
Qed.
