(* ===== verification/ThreadingRefine.v ===== *)
(** * Threads refine a scheduler

    The calls of [Threading], seen by the program: which thread runs, in which order
    the runnable ones follow, who waits for what.  The contexts and the threads that
    the library makes for its own loop do not show. *)

From S2P Require Import Prelude Containers Threading ThreadingSpec.

(** ** The scheduler *)

(** What the program sees: the thread that runs, those that follow in order, those
    that wait for a condition, all there are and those that have run before. *)
Record Sched : Type := mkSched {
  running : Z;
  queue : list Z;
  waiting : gmap Z (list Z);
  alive : gset Z;
  started : gset Z
}.

Inductive Op : Type :=
| OpCreate (f : Z)
| OpSchedule (t : Z)
| OpYield
| OpSuspend
| OpReturn
| OpSwitch (t : Z)
| OpWait (cv : Z)
| OpNotify (cv : Z).

Definition run_op (o : Op) : M Threading unit :=
  match o with
  | OpCreate f => threadCreate (User f);; mret tt
  | OpSchedule t => threadSchedule t
  | OpYield => threadYield true
  | OpSuspend => threadYield false
  | OpReturn => thread_return
  | OpSwitch t => threadSwitch t
  | OpWait cv => condWait cv
  | OpNotify cv => condNotify cv
  end.

(** [next_of q a a']: the first of the queue [q] runs, or, when there is none, a
    new thread with the main function. *)
Inductive next_of (q : list Z) (a : Sched) : Sched -> Prop :=
| next_queue t q' : q = t :: q' -> next_of q a (mkSched t q' (waiting a) (alive a) ({[t]} ∪ started a))
| next_main t : q = [] -> t ∉ alive a -> next_of q a (mkSched t [] (waiting a) ({[t]} ∪ alive a) ({[t]} ∪ started a)).

Definition without (r : Z) (a : Sched) : Sched :=
  mkSched (running a) (queue a) (waiting a) (alive a ∖ {[r]}) (started a ∖ {[r]}).
Definition with_waiting (cv : Z) (l : list Z) (a : Sched) : Sched :=
  mkSched (running a) (queue a) (<[cv := l]> (waiting a)) (alive a) (started a).

Inductive sched_step (a : Sched) : Op -> Sched -> Prop :=
| step_create f t : t ∉ alive a ->
    sched_step a (OpCreate f) (mkSched (running a) (queue a) (waiting a) ({[t]} ∪ alive a) (started a))
| step_schedule t :
    sched_step a (OpSchedule t) (mkSched (running a) (queue a ++ [t]) (waiting a) (alive a) (started a))
| step_yield_alone : queue a = [] -> sched_step a OpYield a
| step_yield a' : queue a <> [] -> next_of (queue a ++ [running a]) a a' -> sched_step a OpYield a'
| step_suspend a' : next_of (queue a) a a' -> sched_step a OpSuspend a'
| step_return a' : next_of (queue a) (without (running a) a) a' -> sched_step a OpReturn a'
| step_switch t : sched_step a (OpSwitch t)
    (mkSched t (queue a) (waiting a) (alive a ∖ {[running a]}) (started a ∖ {[running a]}))
| step_wait cv l a' : waiting a !! cv = Some l ->
    next_of (queue a) (with_waiting cv (l ++ [running a]) a) a' -> sched_step a (OpWait cv) a'
| step_notify_none cv : waiting a !! cv = Some [] -> sched_step a (OpNotify cv) a
| step_notify cv t l : waiting a !! cv = Some (t :: l) ->
    sched_step a (OpNotify cv) (mkSched (running a) (queue a ++ [t]) (<[cv := l]> (waiting a)) (alive a) (started a)).

(** No thread is in two places: running, runnable, or waiting for one condition. *)
Record places_ok (l : list Z) (w : gmap Z (list Z)) (al : gset Z) : Prop := {
  pl_nodup : NoDup l;
  pl_alive t : t ∈ l -> t ∈ al;
  pl_wait cv k t : w !! cv = Some k -> t ∈ k -> (t ∈ al) /\ t ∉ l;
  pl_wnodup cv k : w !! cv = Some k -> NoDup k;
  pl_once cv cv' k k' t : w !! cv = Some k -> w !! cv' = Some k' -> t ∈ k -> t ∈ k' -> cv = cv'
}.

Definition waits (w : gmap Z (list Z)) (t : Z) : Prop := exists cv k, w !! cv = Some k /\ t ∈ k.

Lemma places_sub l l' w al : places_ok l w al -> NoDup l' -> (forall t, t ∈ l' -> t ∈ l) -> places_ok l' w al.
Proof.
  intros [H1 H2 H3 H4 H5] Hn Hsub. split; eauto. intros cv k t Hk Ht. destruct (H3 _ _ _ Hk Ht). split; [done|]. auto.
Qed.

Lemma places_snoc l w al t : places_ok l w al -> t ∈ al -> t ∉ l -> ~ waits w t -> places_ok (l ++ [t]) w al.
Proof.
  intros [H1 H2 H3 H4 H5] Ha Hl Hw. split; eauto.
  - apply NoDup_app. split; [done|]. split; [|apply NoDup_singleton]. intros x Hx ->%list_elem_of_singleton. done.
  - intros x [?| ->%list_elem_of_singleton]%elem_of_app; auto.
  - intros cv k x Hk Hx. destruct (H3 _ _ _ Hk Hx). split; [done|]. intros [?| ->%list_elem_of_singleton]%elem_of_app; [done|].
    apply Hw. by exists cv, k.
Qed.

Lemma places_more l w al al' : places_ok l w al -> (forall t, t ∈ al -> t ∈ al') -> places_ok l w al'.
Proof. intros [H1 H2 H3 H4 H5] Hs. split; eauto. intros cv k t Hk Ht. destruct (H3 _ _ _ Hk Ht). auto. Qed.

Lemma places_fewer r l w al : places_ok (r :: l) w al -> places_ok l w (al ∖ {[r]}).
Proof.
  intros [H1 H2 H3 H4 H5]. apply NoDup_cons in H1 as [Hr Hn]. split; eauto.
  - intros t Ht. apply elem_of_difference. split; [apply H2; set_solver|]. intros ->%elem_of_singleton. done.
  - intros cv k t Hk Ht. destruct (H3 _ _ _ Hk Ht). set_solver.
Qed.

Lemma places_one w al t : places_ok [] w al -> t ∉ al -> places_ok [t] w ({[t]} ∪ al).
Proof.
  intros [H1 H2 H3 H4 H5] Ht. split; eauto.
  - apply NoDup_singleton.
  - intros x ->%list_elem_of_singleton. set_solver.
  - intros cv k x Hk Hx. destruct (H3 _ _ _ Hk Hx). split; [set_solver|]. intros ->%list_elem_of_singleton. done.
Qed.

Lemma places_wait cv k r l w al : places_ok (r :: l) w al -> w !! cv = Some k -> places_ok l (<[cv := k ++ [r]]> w) al.
Proof.
  intros [H1 H2 H3 H4 H5] Hk. apply NoDup_cons in H1 as [Hr Hn].
  assert (forall c j, w !! c = Some j -> r ∉ j) as Hnw.
  { intros c j Hj Hin. destruct (H3 _ _ _ Hj Hin). set_solver. }
  assert (forall c j t, <[cv := k ++ [r]]> w !! c = Some j -> t ∈ j -> (c = cv /\ t = r) \/ exists j', w !! c = Some j' /\ t ∈ j') as Hcases.
  { intros c j t [[<- <-]|[Hne Hj]]%lookup_insert_Some Ht; [|right; eauto].
    apply elem_of_app in Ht as [Ht| ->%list_elem_of_singleton]; eauto. }
  split; eauto.
  - intros t Ht. apply H2. set_solver.
  - intros c j t Hj [[-> ->]|(j' & Hj' & Ht')]%(Hcases _ _ _ Hj); [split; [apply H2; set_solver|done]|].
    destruct (H3 _ _ _ Hj' Ht'). set_solver.
  - intros c j [[<- <-]|[Hne Hj]]%lookup_insert_Some; [|eauto]. apply NoDup_app. split; [eauto|].
    split; [|apply NoDup_singleton]. intros x Hx ->%list_elem_of_singleton. by destruct (Hnw _ _ Hk).
  - intros c c' j j' t Hj Hj' Ht Ht'.
    destruct (Hcases _ _ _ Hj Ht) as [[-> ->]|(i & Hi & Hin)], (Hcases _ _ _ Hj' Ht') as [[-> Hr']|(i' & Hi' & Hin')]; eauto.
    + by destruct (Hnw _ _ Hi').
    + subst t. by destruct (Hnw _ _ Hi).
Qed.

Lemma places_notify cv t k l w al : places_ok l w al -> w !! cv = Some (t :: k) -> places_ok (l ++ [t]) (<[cv := k]> w) al.
Proof.
  intros [H1 H2 H3 H4 H5] Hk. pose proof (H4 _ _ Hk) as [Htk Hnk]%NoDup_cons.
  destruct (H3 _ _ t Hk ltac:(set_solver)) as [Hta Htl].
  assert (forall c j, <[cv := k]> w !! c = Some j -> exists j', w !! c = Some j' /\ (forall x, x ∈ j -> x ∈ j') /\ (t ∉ j) /\ NoDup j) as Hsub.
  { intros c j [[<- <-]|[Hne Hj]]%lookup_insert_Some; [exists (t :: k); set_solver|].
    exists j. split_and!; [done..| |eauto]. intros Ht. apply Hne. symmetry. eapply H5; [exact Hj|exact Hk|done|set_solver]. }
  split.
  - apply NoDup_app. split; [done|]. split; [|apply NoDup_singleton]. by intros x Hx ->%list_elem_of_singleton.
  - intros x [?| ->%list_elem_of_singleton]%elem_of_app; auto.
  - intros c j x (j' & Hj' & Hin & Ht & _)%Hsub Hx. destruct (H3 _ _ _ Hj' (Hin _ Hx)). split; [done|].
    intros [?| ->%list_elem_of_singleton]%elem_of_app; done.
  - intros c j (j' & _ & _ & _ & ?)%Hsub. done.
  - intros c c' j j' x (i & Hi & Hin & _)%Hsub (i' & Hi' & Hin' & _)%Hsub Hx Hx'. eapply H5; eauto.
Qed.

(** ** The refinement *)

Record repr (s : Threading) (a : Sched) : Prop := {
  rp_inv : tinv s (running a);
  rp_queue : tl_repr (ready_threads s) (queue a);
  rp_alive : dom (threads s) = alive a;
  rp_started t : is_started s t <-> t ∈ started a;
  rp_wait cv k : waiting a !! cv = Some k -> exists l, conds s !! cv = Some l /\ tl_repr l k;
  rp_places : places_ok (running a :: queue a) (waiting a) (alive a)
}.

(** What a program may ask for: it does not put a thread into a second place, and
    leaves room for the thread of the library's loop. *)
Definition allowed (a : Sched) (o : Op) : Prop :=
  match o with
  | OpCreate _ | OpYield | OpReturn => (size (alive a) < THREAD_POOL_SIZE)%nat
  | OpSchedule t => t ∈ alive a /\ t <> running a /\ (t ∉ queue a) /\ ~ waits (waiting a) t
  | OpSuspend => (S (size (alive a)) < THREAD_POOL_SIZE)%nat
  | OpSwitch t => t ∈ started a /\ t <> running a /\ (t ∉ queue a) /\ ~ waits (waiting a) t
  | OpWait cv => is_Some (waiting a !! cv) /\ (S (size (alive a)) < THREAD_POOL_SIZE)%nat
  | OpNotify cv => is_Some (waiting a !! cv)
  end.

(** There is always room in a list for a thread that is not in it. *)
Lemma list_room s a k t : repr s a -> NoDup k -> (forall x, x ∈ k -> x ∈ alive a) -> t ∈ alive a -> t ∉ k ->
  (length k < 128)%nat.
Proof.
  intros Hr Hn Hk Ht Htk.
  destruct (proj1 (rp_inv _ _ Hr)) as [Hp _ Hl _]. pose proof (pool_count _ _ Hp) as Hc. pose proof (pr_range _ _ Hp).
  rewrite (rp_alive _ _ Hr), Hl in *. change (Z.of_nat THREAD_POOL_SIZE) with 128 in *.
  assert (size (list_to_set (C := gset Z) (t :: k)) <= size (alive a))%nat as Hsz.
  { apply subseteq_size. intros x [->|Hx]%elem_of_list_to_set%elem_of_cons; auto. }
  rewrite size_list_to_set in Hsz by (by apply NoDup_cons). cbn in Hsz. lia.
Qed.

(** After a move the threads are those of the new state of the scheduler. *)
Lemma repr_moved s s' a n q w al st gone :
  moved s s' n gone -> tinv s' n -> tl_repr (ready_threads s') q ->
  (forall t, t ∈ al <-> (t = n \/ t ∈ dom (threads s)) /\ gone <> Some t) ->
  (forall t, t ∈ st <-> (t = n \/ is_started s t) /\ gone <> Some t) ->
  (forall cv k, w !! cv = Some k -> exists l, conds s !! cv = Some l /\ tl_repr l k) ->
  places_ok (n :: q) w al -> a = mkSched n q w al st -> repr s' a.
Proof.
  intros (M1 & M2 & M3 & M4) Ht Hq Hal Hst Hw Hpl ->. split; cbn; try done.
  - apply set_eq. intros t. by rewrite M1, Hal.
  - intros t. by rewrite M2, Hst.
  - rewrite M3. exact Hw.
Qed.

(** The next thread of the queue [q], for a state whose conditions are those of [a]. *)
Lemma yield_next s a q (Q : unit -> Threading -> Prop) :
  tinv s (running a) -> tl_repr (ready_threads s) q -> dom (threads s) = alive a ->
  (forall t, is_started s t <-> t ∈ started a) ->
  (forall cv k, waiting a !! cv = Some k -> exists l, conds s !! cv = Some l /\ tl_repr l k) ->
  places_ok q (waiting a) (alive a) ->
  (size (alive a) < THREAD_POOL_SIZE)%nat -> (q = [] -> (S (size (alive a)) < THREAD_POOL_SIZE)%nat) ->
  (forall a' s', next_of q a a' -> repr s' a' -> Q tt s') -> wp yield_rest Q s.
Proof.
  intros Ht Hq Hal Hst Hw Hpl Hsz Hsz2 HQ. destruct q as [|t q].
  - eapply wp_yield_none; [done|done|rewrite Hal; auto|]. intros n s' Hn H1 H2 H3. rewrite Hal in Hn.
    eapply HQ; [by apply (next_main _ _ n)|].
    eapply repr_moved; [exact H2|done|done| | |done| |done]; [set_solver| |by apply places_one].
    intros t. rewrite elem_of_union, elem_of_singleton, Hst. naive_solver.
  - assert (t ∈ alive a) as Hta by (apply (pl_alive _ _ _ Hpl); set_solver).
    eapply wp_yield_some; [done|done|by rewrite Hal|by rewrite Hal|]. intros s' H1 H2 H3.
    eapply HQ; [by apply (next_queue _ _ t q)|].
    eapply repr_moved; [exact H2|done|done| | |done|done|done]; [set_solver|].
    intros x. rewrite elem_of_union, elem_of_singleton, Hst. naive_solver.
Qed.

Lemma wp_yield_rest (b : bool) r q s (Q : unit -> Threading -> Prop) :
  tinv s r -> tl_repr (ready_threads s) q -> (b = true -> q <> []) ->
  wp ((if b then threadSchedule r else mret tt);; yield_rest) Q s -> wp (threadYield b) Q s.
Proof.
  intros [_ [_ Hcur _ _ _ _]] Hq Hb Hw. unfold threadYield. apply wp_bind, wp_gets. rewrite Hcur.
  apply wp_bind, wp_ret, wp_bind, wp_gets. rewrite (tl_pos _ _ Hq).
  destruct b; cbn [andb]; [|exact Hw]. rewrite bool_decide_eq_false_2 by auto. exact Hw.
Qed.

Definition Goal_of (o : Op) (s : Threading) (a : Sched) : Prop :=
  wp (run_op o) (fun _ s' => exists a', sched_step a o a' /\ repr s' a') s.

Lemma refine_create f s a : repr s a -> allowed a (OpCreate f) -> Goal_of (OpCreate f) s a.
Proof.
  intros [Ht Hq Hal Hst Hw Hpl] Hsz. apply wp_bind. apply wp_create; [apply Ht|by rewrite Hal|].
  intros t k s' Hn Hp' Hl' Hx' _ Hcur' Et'.
  destruct (tcore_create s s' (running a) t k f) as (H1 & H2 & H3); [apply Ht|done..|].
  destruct Hl' as (L1 & L2 & L3). rewrite Hal in Hn. apply wp_ret. eexists. split; [by apply (step_create _ f t)|].
  split; cbn.
  - by split.
  - by rewrite L1.
  - apply set_eq. intros x. rewrite H3, Hal. set_solver.
  - intros x. by rewrite H2, Hst.
  - by rewrite L2.
  - eapply places_more; [done|]. set_solver.
Qed.

Lemma refine_schedule t s a : repr s a -> allowed a (OpSchedule t) -> Goal_of (OpSchedule t) s a.
Proof.
  intros Hr (Hta & Htr & Htq & Htw). pose proof Hr as [Ht Hq Hal Hst Hw Hpl].
  eapply wp_schedule; [done| |].
  { eapply list_room; [done| |..]; [|intros x Hx; apply (pl_alive _ _ _ Hpl); set_solver|exact Hta|done].
    by apply (pl_nodup _ _ _) in Hpl as [_ ?]%NoDup_cons. }
  intros l Hl. eexists. split; [by apply step_schedule|]. split; cbn; try done.
  - by apply tinv_ready.
  - apply (places_snoc (running a :: queue a)); [done..|set_solver|done].
Qed.

Lemma refine_yield s a : repr s a -> allowed a OpYield -> Goal_of OpYield s a.
Proof.
  intros Hr Hsz. pose proof Hr as [Ht Hq Hal Hst Hw Hpl]. unfold Goal_of. cbn [run_op].
  destruct (decide (queue a = [])) as [He|Hne].
  { destruct Ht as [? [? Hcur ? ? ? ?]]. unfold threadYield. apply wp_bind, wp_gets. rewrite Hcur. apply wp_bind, wp_ret, wp_bind, wp_gets.
    rewrite (tl_pos _ _ Hq), He. apply wp_ret. exists a. split; [by apply step_yield_alone|done]. }
  pose proof (pl_nodup _ _ _ Hpl) as [Hrq Hnq]%NoDup_cons.
  eapply wp_yield_rest; [done|done|done|]. apply wp_bind. eapply wp_schedule; [done| |].
  { eapply (list_room s a _ (running a)); [done|done|intros x Hx; apply (pl_alive _ _ _ Hpl); set_solver| |done].
    apply (pl_alive _ _ _ Hpl). set_solver. }
  intros l Hl. eapply (yield_next _ a (queue a ++ [running a])); try done.
  - by apply tinv_ready.
  - eapply places_sub; [done| |set_solver]. apply NoDup_app. split; [done|]. split; [set_solver|apply NoDup_singleton].
  - intros Hnil. by apply app_nil in Hnil as [_ ?].
  - intros a' s' Hn Hr'. exists a'. split; [by apply step_yield|done].
Qed.

Lemma refine_suspend s a : repr s a -> allowed a OpSuspend -> Goal_of OpSuspend s a.
Proof.
  intros [Ht Hq Hal Hst Hw Hpl] Hsz. cbn in Hsz. unfold Goal_of. cbn [run_op].
  eapply wp_yield_rest; [done..|]. apply wp_bind, wp_ret. eapply (yield_next _ a (queue a)); try done; [|lia|].
  - pose proof (pl_nodup _ _ _ Hpl) as [_ Hn]%NoDup_cons. eapply places_sub; [done|done|set_solver].
  - intros a' s' Hn Hr'. exists a'. split; [by apply step_suspend|done].
Qed.

Lemma refine_return s a : repr s a -> allowed a OpReturn -> Goal_of OpReturn s a.
Proof.
  intros [Ht Hq Hal Hst Hw Hpl] Hsz. cbn in Hsz. unfold Goal_of. cbn [run_op].
  pose proof (pl_nodup _ _ _ Hpl) as [Hrq Hnq]%NoDup_cons. pose proof (places_fewer _ _ _ _ Hpl) as Hpl'.
  destruct (queue a) as [|t q] eqn:Eq.
  - eapply wp_return_none; [done|done|by rewrite Hal|]. intros n s' Hn H1 H2 H3. rewrite Hal in Hn.
    assert (n <> running a) as Hne by (intros ->; apply Hn, (pl_alive _ _ _ Hpl); set_solver).
    eexists. split; [apply step_return; rewrite Eq; apply (next_main _ _ n); [done|cbn; set_solver]|].
    eapply repr_moved; [exact H2|done|done| | |exact Hw| |done]; cbn.
    + set_solver.
    + intros x. rewrite elem_of_union, elem_of_difference, !elem_of_singleton, Hst. naive_solver.
    + apply places_one; [done|set_solver].
  - assert (t ∈ alive a) as Hta by (apply (pl_alive _ _ _ Hpl); set_solver).
    assert (t <> running a) as Hne by set_solver.
    eapply wp_return_some; [done|done|by rewrite Hal|done|]. intros s' H1 H2 H3.
    eexists. split; [apply step_return; rewrite Eq; by apply (next_queue _ _ t q)|].
    eapply repr_moved; [exact H2|done|done| | |exact Hw|exact Hpl'|done]; cbn.
    + set_solver.
    + intros x. rewrite elem_of_union, elem_of_difference, !elem_of_singleton, Hst. naive_solver.
Qed.

Lemma refine_switch t s a : repr s a -> allowed a (OpSwitch t) -> Goal_of (OpSwitch t) s a.
Proof.
  intros [Ht Hq Hal Hst Hw Hpl] (Hts & Htr & Htq & Htw). unfold Goal_of. cbn [run_op].
  pose proof Hts as Hts'. apply Hst in Hts'.
  assert (t ∈ alive a) as Hta by (destruct Hts' as (th & c & Hth & _); rewrite <- Hal; by apply elem_of_dom_2 in Hth).
  eapply wp_switch_started; [done|done|done|]. intros s' H1 H2 H3. eexists. split; [by apply step_switch|].
  eapply repr_moved; [exact H2|done|by rewrite H3| | |exact Hw| |done].
  - set_solver.
  - intros x. rewrite elem_of_difference, elem_of_singleton, Hst. naive_solver.
  - pose proof (pl_nodup _ _ _ Hpl) as [Hrq Hnq]%NoDup_cons.
    assert (places_ok (running a :: queue a ++ [t]) (waiting a) (alive a)) as Hp2
      by (apply (places_snoc (running a :: queue a)); [done..|set_solver|done]).
    apply places_fewer in Hp2. eapply places_sub; [exact Hp2| |set_solver]. by apply NoDup_cons.
Qed.

Lemma refine_wait cv s a : repr s a -> allowed a (OpWait cv) -> Goal_of (OpWait cv) s a.
Proof.
  intros Hr [[k Hk] Hsz]. pose proof Hr as [Ht Hq Hal Hst Hw Hpl]. unfold Goal_of. cbn [run_op].
  destruct (Hw _ _ Hk) as (l & Hl & Hrl). pose proof Ht as [Hp [[Ho1 Ho2 Ho3] Hcur Hrun Hu Hloop Hmain]].
  assert (running a ∉ k) as Hrk by (intros Hin; destruct (pl_wait _ _ _ Hpl _ _ _ Hk Hin); set_solver).
  destruct (tl_push l k (running a) Hrl) as (l' & El & Hl').
  { eapply (list_room s a _ (running a)); [done|by apply (pl_wnodup _ _ _ Hpl cv)| | |done].
    - intros x Hx. by apply (pl_wait _ _ _ Hpl cv k).
    - apply (pl_alive _ _ _ Hpl). set_solver. }
  unfold condWait, get_cond. apply wp_bind, wp_bind, wp_gets. eapply wp_deref; [exact Hl|].
  apply wp_bind, wp_gets, wp_bind. rewrite Hcur. apply wp_ret, wp_bind, wp_modify. rewrite El. cbn [snd].
  set (s1 := set_conds (<[cv := l']>) s).
  assert (tinv s1 (running a)) as Ht1 by (split; [by eapply pools_same|split; [by split|done..]]).
  eapply (wp_yield_rest false); [exact Ht1|exact Hq|done|]. apply wp_bind, wp_ret.
  eapply (yield_next _ (with_waiting cv (k ++ [running a]) a) (queue a)); try done.
  - cbn. intros c j [[<- <-]|[Hne Hj]]%lookup_insert_Some; [exists l'; by rewrite lookup_insert_eq|].
    rewrite lookup_insert_ne by done. by apply Hw.
  - by apply places_wait.
  - cbn. lia.
  - intros a' s' Hn Hr'. exists a'. split; [by eapply step_wait|done].
Qed.

Lemma refine_notify cv s a : repr s a -> allowed a (OpNotify cv) -> Goal_of (OpNotify cv) s a.
Proof.
  intros Hr [k Hk]. pose proof Hr as [Ht Hq Hal Hst Hw Hpl]. unfold Goal_of. cbn [run_op].
  destruct (Hw _ _ Hk) as (l & Hl & Hrl). unfold condNotify, condEmpty, get_cond.
  apply wp_bind, wp_bind, wp_bind, wp_gets. eapply wp_deref; [exact Hl|]. apply wp_ret.
  unfold threadListSize. rewrite (tr_size _ _ Hrl). destruct k as [|t k].
  { apply wp_ret. exists a. split; [by apply step_notify_none|done]. }
  change (Z.of_nat (length (t :: k)) =? 0) with false. cbv iota.
  apply wp_bind, wp_bind, wp_gets. eapply wp_deref; [exact Hl|]. apply wp_bind.
  eapply wp_deref; [by eapply tl_front|]. apply wp_bind.
  pose proof (pl_nodup _ _ _ Hpl) as [Hrq Hnq]%NoDup_cons.
  destruct (pl_wait _ _ _ Hpl cv _ t Hk ltac:(set_solver)) as [Hta Htn].
  eapply wp_schedule; [done| |].
  { eapply (list_room s a _ t); [done|done|intros x Hx; apply (pl_alive _ _ _ Hpl); set_solver|done|set_solver]. }
  intros l1 Hl1. apply wp_bind, wp_bind, wp_gets. eapply wp_deref; [exact Hl|]. apply wp_modify.
  eexists. split; [by eapply step_notify|]. pose proof (tinv_ready _ _ l1 Ht) as [Hp [[Ho1 Ho2 Ho3] Hcur Hrun Hu Hloop Hmain]].
  split; cbn; try done.
  - split; [by eapply pools_same|split; [by split|done..]].
  - intros c j [[<- <-]|[Hne Hj]]%lookup_insert_Some; [exists (threadListPop l); rewrite lookup_insert_eq; split; [done|by eapply tl_pop]|].
    rewrite lookup_insert_ne by done. by apply Hw.
  - by apply (places_notify cv t k (running a :: queue a)).
Qed.

(** C23: the thread library refines a scheduler: every call - creation, scheduling,
    yielding, suspension, the end of a thread, the switch to a suspended one, waiting
    for and notifying a condition - returns without failing an assertion, without
    using a freed thread or context and without running out of a context, in a state
    in which the thread that the scheduler says runs: the first of the queue, or a new one
    with the main function; no other thread is lost, run twice or left behind. *)
Theorem threads_refine_scheduler o s a :
  repr s a -> allowed a o ->
  wp (run_op o) (fun _ s' => exists a', sched_step a o a' /\ repr s' a') s.
Proof.
  intros Hr Ha. destruct o.
  - by apply refine_create.
  - by apply refine_schedule.
  - by apply refine_yield.
  - by apply refine_suspend.
  - by apply refine_return.
  - by apply refine_switch.
  - by apply refine_wait.
  - by apply refine_notify.
Qed.

(** ** Start and notification of all *)

Lemma notify_step cv s a t k :
  repr s a -> waiting a !! cv = Some (t :: k) ->
  wp (condNotify cv) (fun _ s' => repr s' (mkSched (running a) (queue a ++ [t]) (<[cv := k]> (waiting a)) (alive a) (started a))) s.
Proof.
  intros Hr Hk. eapply wp_mono; [apply (refine_notify cv s a Hr); by eexists|].
  intros [] s' (a' & Hs & Hr'). inversion Hs; simplify_eq. done.
Qed.

(** [condNotifyAll] ends, with all that waited in the queue in their order. *)
Lemma notify_all cv s a k :
  repr s a -> waiting a !! cv = Some k ->
  wp (condNotifyAll cv) (fun _ s' => repr s' (mkSched (running a) (queue a ++ k) (<[cv := []]> (waiting a)) (alive a) (started a))) s.
Proof.
  intros Hr Hk. unfold condNotifyAll, THREAD_LIST_SIZE. destruct (rp_wait _ _ Hr _ _ Hk) as (l & Hl & Hrl).
  pose proof (tr_max _ _ Hrl) as Hmax. change (Z.to_nat 128) with 128%nat. clear l Hl Hrl. revert Hmax. generalize 128%nat as n. intros n Hn.
  revert s a k Hr Hk Hn. induction n as [|n IH]; intros s a k Hr Hk Hn; cbn [condNotifyAll_loop];
    destruct (rp_wait _ _ Hr _ _ Hk) as (l & Hl & Hrl); apply wp_bind; unfold condEmpty, get_cond;
    apply wp_bind, wp_bind, wp_gets; (eapply wp_deref; [exact Hl|]); apply wp_ret; unfold threadListSize; rewrite (tr_size _ _ Hrl);
    (destruct k as [|t k]; [apply wp_ret; rewrite app_nil_r, insert_id by done; by destruct a|]).
  - cbn in Hn. lia.
  - change (Z.of_nat (length (t :: k)) =? 0) with false. cbv iota. apply wp_bind.
    eapply wp_mono; [by eapply notify_step|]. intros [] s' Hr'. cbn in Hn.
    eapply wp_mono; [eapply (IH _ _ k Hr'); [cbn; apply lookup_insert_eq|lia]|]. intros [] s2 Hr2. cbn in Hr2.
    by rewrite insert_insert_eq, <- app_assoc in Hr2.
Qed.

Definition empty_list : ThreadList := mkThreadList 0 0 (replicate 128 0).
(** Before [threadingStart]: nothing is allocated, and the conditions in [cvs] have
    been initialised. *)
Definition threading_init (cvs : gset Z) : Threading :=
  mkThreading (Pool_new THREAD_POOL_SIZE) (Pool_new THREAD_POOL_SIZE) ∅ ∅ empty_list
    (gset_to_gmap empty_list cvs) None 0 (User 0).

Lemma empty_list_repr : tl_repr empty_list [].
Proof. split; [cbn; lia|done|done|cbn; lia|]. intros i Hi. cbn in Hi. lia. Qed.

(** One thread, on one context of the loop. *)
Lemma started_alone s n j c f cvs :
  pools_ok s -> current_thread s = Some n ->
  threads s = <[n := mkThread j (Some c) (User f)]> ∅ -> contexts s = <[c := mkContext (ThreadMain None) true]> ∅ ->
  ready_threads s = empty_list -> conds s = gset_to_gmap empty_list cvs -> main_target s = User f ->
  repr s (mkSched n [] (gset_to_gmap [] cvs) {[n]} {[n]}).
Proof.
  intros Hp Hcur Et Ex Hr Hd Hm.
  assert (forall t th, threads s !! t = Some th <-> t = n /\ th = mkThread j (Some c) (User f)) as Hth.
  { intros t th. rewrite Et, lookup_insert_Some, lookup_empty. naive_solver. }
  assert (forall cv k, gset_to_gmap (A := list Z) [] cvs !! cv = Some k -> cv ∈ cvs /\ k = []) as Hcv.
  { intros cv k [? ?]%lookup_gset_to_gmap_Some. auto. }
  split; cbn.
  - split; [done|]. split; try done.
    + split.
      * intros t th c' [-> ->]%Hth [= <-]. rewrite Ex, dom_insert_L. set_solver.
      * by intros t t' th th' c' [-> _]%Hth [-> _]%Hth.
      * rewrite Ex, dom_insert_L, dom_empty_L. intros c' Hc'. assert (c' = c) as -> by set_solver.
        eexists _, _. split; [by apply Hth|done].
    + eexists _, _. split; [by apply Hth|done].
    + intros t th [-> ->]%Hth. by exists f.
    + rewrite Ex. intros c' x. rewrite lookup_insert_Some, lookup_empty. intros [[<- <-]|[_ ?]]; [|done]. by eauto.
    + by exists f.
  - rewrite Hr. apply empty_list_repr.
  - rewrite Et, dom_insert_L, dom_empty_L. set_solver.
  - intros t. rewrite elem_of_singleton. split; [by intros (th & c' & [-> _]%Hth & _)|].
    intros ->. eexists _, _. split; [by apply Hth|done].
  - intros cv k [Hin ->]%Hcv. exists empty_list. split; [|apply empty_list_repr]. rewrite Hd. by apply lookup_gset_to_gmap_Some.
  - split.
    + apply NoDup_singleton.
    + set_solver.
    + intros cv k t [_ ->]%Hcv. set_solver.
    + intros cv k [_ ->]%Hcv. constructor.
    + intros cv cv' k k' t [_ ->]%Hcv. set_solver.
Qed.

(** [threadingStart] runs the main function in a thread of its own. *)
Lemma threading_started cvs f :
  wp (threadingStart (User f)) (fun _ s' => exists t, repr s' (mkSched t [] (gset_to_gmap [] cvs) {[t]} {[t]})) (threading_init cvs).
Proof.
  assert (pools_ok (set_main (User f) (threading_init cvs))) as Hp0.
  { split; cbn; [apply pool_new_repr..| |]; rewrite length_seqZ; done. }
  unfold threadingStart. apply wp_bind, wp_modify, wp_bind. eapply wp_create; [exact Hp0|vm_compute; lia|].
  intros m k s1 _ Hp1 (Hr1 & Hd1 & Hm1) Hx1 _ _ Et1. apply wp_bind, wp_modify. unfold threadSwitch, switch_to.
  apply wp_bind, wp_bind, wp_gets. cbn [current_thread set_current]. rewrite bool_decide_eq_false_2 by done.
  apply wp_bind, wp_ret, wp_bind. cbn in Et1, Hx1, Hr1, Hd1, Hm1.
  eapply wp_make_context; [by eapply pools_same| |cbn; rewrite Et1; apply lookup_insert_eq|done|].
  { split; cbn; rewrite ?Et1, ?Hx1; [by intros t th c [[<- <-]|[_ ?]]%lookup_insert_Some|
      by intros t t' th th' c [[<- <-]|[_ ?]]%lookup_insert_Some|set_solver]. }
  intros c s2 Hc Hp2 (Hr2 & Hd2 & Hm2) _ Et2 Ex2. cbn in Hr2, Hd2, Hm2, Et2, Ex2, Hc. apply wp_bind, wp_modify, wp_ret. cbv iota.
  eapply wp_resume_loop; [done|cbn; rewrite Et2; apply lookup_insert_eq|done|cbn; rewrite Ex2; apply lookup_insert_eq|].
  eapply wp_main_entered; [done|cbn; rewrite Et2; apply lookup_insert_eq|done|].
  apply wp_main_next, wp_runnable_none; [cbn; rewrite Hr2, Hr1; apply empty_list_repr|]. cbn [main_target set_contexts set_current].
  rewrite Hm2, Hm1. apply wp_create; [|cbn; rewrite Et2, Et1, insert_insert_eq, dom_insert_L, dom_empty_L, union_empty_r_L, size_singleton; vm_compute; lia|].
  { eapply pools_ctx; [by eapply pools_same|]. cbn. rewrite Ex2. apply lookup_insert_eq. }
  intros n j s3 Hn Hp3 (Hr3 & Hd3 & Hm3) Hx3 _ Hcur3 Et3. cbn in Hn, Hr3, Hd3, Hm3, Hx3, Hcur3, Et3. rewrite Et2, Et1, insert_insert_eq in Et3, Hn.
  assert (n <> m) as Hne by (rewrite dom_insert_L in Hn; set_solver).
  assert (threads s3 !! m = Some (with_context (Some c) (mkThread k None (ThreadMain None)))) as Hm'.
  { rewrite Et3, lookup_insert_ne by done. apply lookup_insert_eq. }
  eapply wp_takeover; [done|done|done|done|rewrite Et3; apply lookup_insert_eq|done|done|].
  intros s4 Hp4 (Hr4 & Hd4 & Hm4) Hcur4 Et4 Ex4. exists n.
  apply (started_alone s4 n j c f cvs); try done.
  - rewrite Et4, Et3, insert_insert_eq. apply delete_fresh; [set_solver|done].
  - rewrite Ex4, Hx3, Ex2, insert_insert_eq, Hx1. done.
  - congruence.
  - congruence.
  - rewrite Hm4, Hm3, Hm2. done.
Qed.

Lemma threads_refine_scheduler_witness :
  exists s s1 a a', threadingStart (User 7) (threading_init {[1]}) = Done tt s /\ repr s a /\ allowed a (OpWait 1) /\
    run_op (OpWait 1) s = Done tt s1 /\ sched_step a (OpWait 1) a' /\ repr s1 a'.
Proof.
  destruct (proj1 (wp_Done _ _ _) (threading_started {[1]} 7)) as ([] & s & E & t & Hr).
  set (a := mkSched t [] (gset_to_gmap [] {[1]}) {[t]} {[t]}) in Hr.
  assert (allowed a (OpWait 1)) as Ha.
  { split; [exists []; apply lookup_gset_to_gmap_Some; set_solver|]. change (alive a) with ({[t]} : gset Z). rewrite size_singleton. unfold THREAD_POOL_SIZE. lia. }
  destruct (proj1 (wp_Done _ _ _) (threads_refine_scheduler (OpWait 1) s a Hr Ha)) as ([] & s1 & E1 & a' & Hst & Hr').
  exists s, s1, a, a'. exact (conj E (conj Hr (conj Ha (conj E1 (conj Hst Hr'))))).
Defined.
