(* ===== verification/NameServer.v ===== *)
(** * The name server

    [name/nameserver.cpp]: names and the endpoints registered under them, one
    table per socket; the endpoints of a name take turns. *)

From S2P Require Import Prelude.

(** [sock_name_to_addrs]: the number of tables is [SOCK_NUM]. *)
Abbreviation ForwardNameTable := (gmap Z (list Z)).
Abbreviation NameTables := (list ForwardNameTable).

(** [(Address) ~0] *)
Definition no_address : Z := 2 ^ 64 - 1.

(** [CORE_TO_SOCK] for a number of sockets that is a power of two. *)
Definition CORE_TO_SOCK (socks core : Z) : Z := Z.land core (socks - 1).

Definition get_sock (core : Z) : M NameTables nat :=
  t ← gets id; mret (Z.to_nat (CORE_TO_SOCK (Z.of_nat (length (t : NameTables))) core)).

Definition get_table (sock : nat) : M NameTables ForwardNameTable := t ← gets id; deref ((t : NameTables) !! sock).
Definition put_table (sock : nat) (x : ForwardNameTable) : M NameTables unit :=
  modify (fun t : NameTables => <[sock := x]> t).

(** The handlers: the acknowledgement that is sent back. *)
Definition nameserver_name_register (core name ep_addr : Z) : M NameTables bool :=
  sock ← get_sock core;
  t ← get_table sock;
  match t !! name with
  | Some l => put_table sock (<[name := ep_addr :: l]> t)
  | None => put_table sock (<[name := [ep_addr]]> t)
  end;;
  mret true.

Definition nameserver_name_unregister (core name ep_addr : Z) : M NameTables bool :=
  sock ← get_sock core;
  t ← get_table sock;
  match t !! name with
  | Some l =>
      let l' := filter (fun a => a <> ep_addr) l in
      put_table sock (if (length l' =? 0)%nat then delete name t else <[name := l']> t)
  | None => mret tt
  end;;
  mret true.

(** The front of a list goes to its back; the front of an empty list is
    undefined. *)
Definition take_turn (sock : nat) (name : Z) (t : ForwardNameTable) (l : list Z) : M NameTables Z :=
  match l with
  | a :: l' => put_table sock (<[name := l' ++ [a]]> t);; mret a
  | [] => undef
  end.

(** The loop over the other sockets. *)
Fixpoint lookup_loop (n sock_i sock : nat) (name : Z) : M NameTables Z :=
  match n with
  | O => mret no_address
  | S n' =>
      if (sock_i =? sock)%nat then lookup_loop n' (S sock_i) sock name
      else
        t ← get_table sock_i;
        match t !! name with
        | Some l => take_turn sock_i name t l
        | None => lookup_loop n' (S sock_i) sock name
        end
  end.

Definition nameserver_name_lookup (core name : Z) : M NameTables (Z * bool) :=
  sock ← get_sock core;
  t ← get_table sock;
  ep_addr ← match t !! name with Some l => take_turn sock name t l | None => mret no_address end;
  socks ← gets length;
  ep_addr ← (if ep_addr =? no_address then lookup_loop socks 0 sock name else mret ep_addr);
  mret (ep_addr, negb (ep_addr =? no_address)).

(** ** Turns *)

Fixpoint lookups (n : nat) (core name : Z) : M NameTables (list (Z * bool)) :=
  match n with
  | O => mret []
  | S n' => r ← nameserver_name_lookup core name; rs ← lookups n' core name; mret (r :: rs)
  end.

(** The socket of a core. *)
Definition sock_of (ts : NameTables) (core : Z) : nat := Z.to_nat (CORE_TO_SOCK (Z.of_nat (length ts)) core).

Lemma get_sock_wp core (Q : nat -> NameTables -> Prop) ts : Q (sock_of ts core) ts -> wp (get_sock core) Q ts.
Proof. intros HQ. unfold get_sock. by apply wp_bind, wp_gets, wp_ret. Qed.

Lemma get_table_wp sock t (Q : ForwardNameTable -> NameTables -> Prop) ts :
  ts !! sock = Some t -> Q t ts -> wp (get_table sock) Q ts.
Proof. intros Ht HQ. unfold get_table. apply wp_bind, wp_gets. by apply (wp_deref _ t). Qed.

(** The state in which a name has the endpoints [l]. *)
Definition listed (ts : NameTables) (sock : nat) (t : ForwardNameTable) (name : Z) (l : list Z) : NameTables :=
  <[sock := <[name := l]> t]> ts.

Lemma lookup_turn ts core t name a l :
  ts !! sock_of ts core = Some t -> a <> no_address ->
  wp (nameserver_name_lookup core name) (fun r ts' => r = (a, true) /\ ts' = listed ts (sock_of ts core) t name (l ++ [a]))
    (listed ts (sock_of ts core) t name (a :: l)).
Proof.
  intros Ht Ha. unfold nameserver_name_lookup. set (s := sock_of ts core) in *. pose proof (lookup_lt_Some _ _ _ Ht).
  assert (Hs : sock_of (listed ts s t name (a :: l)) core = s) by (unfold sock_of, listed; by rewrite length_insert).
  apply wp_bind, get_sock_wp. rewrite Hs.
  apply wp_bind, (get_table_wp _ (<[name := a :: l]> t)); [by apply list_lookup_insert_eq|].
  rewrite lookup_insert_eq. apply wp_bind. unfold take_turn, put_table. apply wp_bind, wp_modify, wp_ret.
  apply wp_bind, wp_gets. rewrite (proj2 (Z.eqb_neq _ _)) by done. apply wp_bind, wp_ret, wp_ret.
  rewrite (proj2 (Z.eqb_neq _ _)) by done. split; [done|]. unfold listed.
  by rewrite list_insert_insert_eq, insert_insert_eq.
Qed.

Lemma lookups_wp ts core t name l2 l1 :
  ts !! sock_of ts core = Some t -> no_address ∉ l2 ->
  wp (lookups (length l2) core name)
    (fun rs ts' => rs = (fun a => (a, true)) <$> l2 /\ ts' = listed ts (sock_of ts core) t name (l1 ++ l2))
    (listed ts (sock_of ts core) t name (l2 ++ l1)).
Proof.
  intros Ht. revert l1. induction l2 as [|a l2 IH]; intros l1 Hn; [apply wp_ret; by rewrite app_nil_r|].
  apply not_elem_of_cons in Hn as [Ha Hn]. simpl. apply wp_bind.
  eapply wp_mono; [apply (lookup_turn ts core t name a (l2 ++ l1)); [done|by apply not_eq_sym]|].
  cbv beta. intros r ts' [-> ->]. rewrite <- app_assoc. apply wp_bind.
  eapply wp_mono; [by apply (IH (l1 ++ [a]))|]. cbv beta. intros rs ts' [-> ->]. apply wp_ret.
  split; [done|]. by rewrite <- app_assoc.
Qed.

(** C26: The endpoints registered under a name on a core's socket take turns: as
    many lookups as there are endpoints return each of them once, in order, and
    leave the tables as they were. *)
Theorem name_round_robin ts core t name l :
  ts !! sock_of ts core = Some t -> t !! name = Some l -> no_address ∉ l ->
  wp (lookups (length l) core name) (fun rs ts' => rs = (fun a => (a, true)) <$> l /\ ts' = ts) ts.
Proof.
  intros Ht Hl Hn. pose proof (lookups_wp ts core t name l [] Ht Hn) as Hw. rewrite app_nil_r in Hw. simpl in Hw.
  assert (He : listed ts (sock_of ts core) t name l = ts) by (unfold listed; by rewrite insert_id, list_insert_id).
  by rewrite He in Hw.
Qed.

(** Two replicas of a server registered by core 3. *)
Lemma name_round_robin_witness :
  exists ts : NameTables, ts !! sock_of ts 3 = Some {[ 7 := [100; 200] ]} /\
    wp (lookups 2 3 7) (fun rs ts' => rs = [(100, true); (200, true)] /\ ts' = ts) ts.
Proof.
  exists [ {[ 7 := [100; 200] ]} ]. split; [reflexivity|].
  apply (name_round_robin [ {[ 7 := [100; 200] ]} ] 3 {[ 7 := [100; 200] ]} 7 [100; 200]);
    [reflexivity|reflexivity|by apply (bool_decide_unpack (no_address ∉ [100; 200]))].
Defined.

(** ** Every sequence of requests *)

Inductive request :=
| Register (core name ep_addr : Z)
| Unregister (core name ep_addr : Z)
| Lookup (core name : Z).

(** The reply to a request: an address, for a lookup, and the acknowledgement. *)
Definition serve (r : request) : M NameTables (Z * bool) :=
  match r with
  | Register core name a => ack ← nameserver_name_register core name a; mret (no_address, ack)
  | Unregister core name a => ack ← nameserver_name_unregister core name a; mret (no_address, ack)
  | Lookup core name => nameserver_name_lookup core name
  end.

Fixpoint serve_all (rs : list request) : M NameTables (list (Z * bool)) :=
  match rs with
  | [] => mret []
  | r :: rs' => x ← serve r; xs ← serve_all rs'; mret (x :: xs)
  end.

(** No name has an empty list of endpoints, and none has the address that
    means none. *)
Definition table_ok (t : ForwardNameTable) : Prop := forall name l, t !! name = Some l -> l <> [] /\ no_address ∉ l.
Definition tables_ok (n : nat) (ts : NameTables) : Prop := length ts = n /\ (0 < n)%nat /\ Forall table_ok ts.

(** *** What the server promises

    A set of registrations: a socket, a name and an endpoint. *)
Abbreviation Registry := (gset (nat * Z * Z)).

Definition spec_step (socks : nat) (r : request) (R : Registry) : Registry :=
  let sock core := Z.to_nat (CORE_TO_SOCK (Z.of_nat socks) core) in
  match r with
  | Register core name a => {[ (sock core, name, a) ]} ∪ R
  | Unregister core name a => R ∖ {[ (sock core, name, a) ]}
  | Lookup _ _ => R
  end.

(** A lookup returns a registered endpoint, of the socket that asks when it has
    one, and is refused when there is none at all. *)
Definition reply_ok (socks : nat) (r : request) (R : Registry) (x : Z * bool) : Prop :=
  match r with
  | Register _ _ _ | Unregister _ _ _ => x.2 = true
  | Lookup core name =>
      let sock := Z.to_nat (CORE_TO_SOCK (Z.of_nat socks) core) in
      if x.2 then (exists s, (s, name, x.1) ∈ R) /\ (forall a, (sock, name, a) ∈ R -> (sock, name, x.1) ∈ R)
      else forall s a, (s, name, a) ∉ R
  end.

Fixpoint replies_ok (socks : nat) (rs : list request) (R : Registry) (xs : list (Z * bool)) : Prop :=
  match rs, xs with
  | [], [] => True
  | r :: rs', x :: xs' => reply_ok socks r R x /\ replies_ok socks rs' (spec_step socks r R) xs'
  | _, _ => False
  end.

(** The tables hold the registry. *)
Definition lists_at (ts : NameTables) (sock : nat) (name : Z) : list Z :=
  default [] (ts !! sock ≫= (fun t : ForwardNameTable => t !! name)).
Definition represents (ts : NameTables) (R : Registry) : Prop :=
  forall sock name a, (sock, name, a) ∈ R <-> a ∈ lists_at ts sock name.

Definition request_ok (r : request) : Prop :=
  match r with Register _ _ a => a <> no_address | _ => True end.

Lemma land_le a b : 0 <= b -> Z.land a b <= b.
Proof.
  intros Hb. apply Z.ldiff_le; [done|]. apply Z.bits_inj'. intros n Hn.
  rewrite Z.ldiff_spec, Z.land_spec, Z.bits_0. by destruct (Z.testbit a n), (Z.testbit b n).
Qed.

Lemma sock_lt n ts core : tables_ok n ts -> (sock_of ts core < n)%nat.
Proof.
  intros (Hl & Hn & _). unfold sock_of, CORE_TO_SOCK. rewrite Hl.
  pose proof (land_le core (Z.of_nat n - 1)). lia.
Qed.

Lemma table_at n ts sock : tables_ok n ts -> (sock < n)%nat -> exists t, ts !! sock = Some t /\ table_ok t.
Proof.
  intros (Hl & _ & Hf) Hs. destruct (lookup_lt_is_Some_2 ts sock) as [t Ht]; [lia|].
  exists t. split; [done|]. by apply (Forall_lookup_1 _ _ _ _ Hf Ht).
Qed.

Lemma lists_at_put ts sock t name sock' name' : ts !! sock = Some t -> forall t' : ForwardNameTable,
  (forall k, k <> name -> t' !! k = t !! k) ->
  lists_at (<[sock := t']> ts) sock' name' =
    if decide (sock' = sock /\ name' = name) then default [] (t' !! name) else lists_at ts sock' name'.
Proof.
  intros Ht t' Hk. unfold lists_at. pose proof (lookup_lt_Some _ _ _ Ht). destruct (decide (sock' = sock)) as [->|Hs].
  - rewrite list_lookup_insert_eq, Ht by done. simpl. destruct (decide _) as [[_ ->]|Hn]; [done|].
    rewrite Hk; [done|naive_solver].
  - rewrite list_lookup_insert_ne by done. by rewrite decide_False by naive_solver.
Qed.

(** Replacing the endpoints of one name. *)
Lemma put_ok n ts sock t name (t' : ForwardNameTable) :
  tables_ok n ts -> ts !! sock = Some t -> table_ok t ->
  (forall k, k <> name -> t' !! k = t !! k) ->
  (forall l, t' !! name = Some l -> l <> [] /\ no_address ∉ l) ->
  tables_ok n (<[sock := t']> ts).
Proof.
  intros (Hl & Hn & Hf) Ht Hok Hk Hname. split; [by rewrite length_insert|]. split; [done|].
  apply Forall_insert; [done|]. intros k l Hkl. destruct (decide (k = name)) as [->|Hne]; [by apply Hname|].
  rewrite Hk in Hkl by done. by apply (Hok k).
Qed.

Lemma represents_put ts sock t name (t' : ForwardNameTable) R R' :
  represents ts R -> ts !! sock = Some t ->
  (forall k, k <> name -> t' !! k = t !! k) ->
  (forall a, (sock, name, a) ∈ R' <-> a ∈ default [] (t' !! name)) ->
  (forall s k a, ~ (s = sock /\ k = name) -> (s, k, a) ∈ R' <-> (s, k, a) ∈ R) ->
  represents (<[sock := t']> ts) R'.
Proof.
  intros Hr Ht Hk Hin Hout s k a. rewrite (lists_at_put ts sock t name s k Ht t' Hk).
  destruct (decide _) as [[-> ->]|Hn]; [apply Hin|]. by rewrite Hout.
Qed.

Lemma lists_at_table ts sock t name : ts !! sock = Some t -> lists_at ts sock name = default [] (t !! name).
Proof. intros Ht. unfold lists_at. by rewrite Ht. Qed.

(** *** Each request refines its step *)

Definition kept (n : nat) (r : request) (R : Registry) (x : Z * bool) (ts : NameTables) : Prop :=
  reply_ok n r R x /\ tables_ok n ts /\ represents ts (spec_step n r R).

Lemma sock_eq n ts core : tables_ok n ts -> Z.to_nat (CORE_TO_SOCK (Z.of_nat n) core) = sock_of ts core.
Proof. intros (Hl & _). unfold sock_of. by rewrite Hl. Qed.

Lemma register_kept n ts R core name a :
  tables_ok n ts -> represents ts R -> a <> no_address ->
  wp (serve (Register core name a)) (kept n (Register core name a) R) ts.
Proof.
  intros Hok Hr Ha. pose proof (sock_lt n ts core Hok) as Hs. pose proof (sock_eq n ts core Hok) as He.
  destruct (table_at n ts _ Hok Hs) as (t & Ht & Htok). set (s := sock_of ts core) in *.
  assert (Hput : forall l, default [] (t !! name) = l -> kept n (Register core name a) R (no_address, true)
    (<[s := <[name := a :: l]> t]> ts)).
  { intros l Hl. split; [done|]. split.
    - apply (put_ok n ts s t name); [done..|by intros; rewrite lookup_insert_ne|].
      intros l' [= <-]%(eq_trans (eq_sym (lookup_insert_eq t name (a :: l)))). split; [done|].
      apply not_elem_of_cons. split; [by apply not_eq_sym|]. subst l. destruct (t !! name) as [l|] eqn:E; [|apply not_elem_of_nil].
      by apply (Htok name).
    - apply (represents_put ts s t name _ R); [done..|by intros; rewrite lookup_insert_ne| |]; simpl; rewrite He.
      + intros b. rewrite lookup_insert_eq. simpl. rewrite elem_of_union, elem_of_singleton, elem_of_cons, (Hr s name b).
        rewrite (lists_at_table ts s t name Ht), Hl. naive_solver.
      + intros s' k b Hn. rewrite elem_of_union, elem_of_singleton. naive_solver. }
  simpl. apply wp_bind. unfold nameserver_name_register. apply wp_bind, get_sock_wp.
  apply wp_bind, (get_table_wp _ t); [done|]. unfold put_table. fold s.
  destruct (t !! name) as [l|]; apply wp_bind, wp_modify, wp_ret, wp_ret; by apply Hput.
Qed.

Lemma unregister_kept n ts R core name a :
  tables_ok n ts -> represents ts R ->
  wp (serve (Unregister core name a)) (kept n (Unregister core name a) R) ts.
Proof.
  intros Hok Hr. pose proof (sock_lt n ts core Hok) as Hs. pose proof (sock_eq n ts core Hok) as He.
  destruct (table_at n ts _ Hok Hs) as (t & Ht & Htok). set (s := sock_of ts core) in *.
  assert (Hin : forall b, (s, name, b) ∈ R <-> b ∈ default [] (t !! name))
    by (intros b; by rewrite (Hr s name b), (lists_at_table ts s t name Ht)).
  simpl. apply wp_bind. unfold nameserver_name_unregister. apply wp_bind, get_sock_wp.
  apply wp_bind, (get_table_wp _ t); [done|]. unfold put_table. fold s. destruct (t !! name) as [l|] eqn:E.
  - apply wp_bind, wp_modify, wp_ret, wp_ret. split; [done|].
    set (l' := filter (fun b => b <> a) l).
    set (t' := if (length l' =? 0)%nat then delete name t else <[name := l']> t).
    assert (Hk : forall k, k <> name -> t' !! k = t !! k)
      by (intros k Hk; unfold t'; destruct (_ =? _)%nat; [by apply lookup_delete_ne|by apply lookup_insert_ne]).
    assert (Hname : default [] (t' !! name) = l' /\ (forall x, t' !! name = Some x -> x = l' /\ l' <> [])).
    { unfold t'. destruct (Nat.eqb_spec (length l') 0) as [Hz|Hz].
      - rewrite lookup_delete_eq. by apply nil_length_inv in Hz as ->.
      - rewrite lookup_insert_eq. split; [done|]. intros x [= <-]. split; [done|]. by intros ->. }
    destruct Hname as [Hd Hx]. split.
    + apply (put_ok n ts s t name); [done..|]. intros x Hx'. destruct (Hx x Hx') as [-> Hne]. split; [done|].
      unfold l'. rewrite list_elem_of_filter. intros [_ Hbad]. by apply (proj2 (Htok name l E)).
    + apply (represents_put ts s t name _ R); [done..| |]; simpl; rewrite He.
      * intros b. rewrite Hd, elem_of_difference, elem_of_singleton, (Hin b). unfold l'. rewrite list_elem_of_filter. simpl.
        naive_solver.
      * intros s' k b Hn. rewrite elem_of_difference, elem_of_singleton. naive_solver.
  - apply wp_bind, wp_ret, wp_ret, wp_ret. split; [done|]. split; [done|]. simpl. rewrite He.
    assert (HR : R ∖ {[ (s, name, a) ]} = R); [|by rewrite HR].
    apply set_eq. intros [[s' k] b]. rewrite elem_of_difference, elem_of_singleton. split; [by intros [? _]|].
    intros Hb. split; [done|]. intros [= -> -> ->]. apply Hin in Hb. by apply not_elem_of_nil in Hb.
Qed.

(** A turn returns an endpoint of the name and keeps the registry. *)
Lemma take_turn_wp n ts R sock t name l :
  tables_ok n ts -> represents ts R -> ts !! sock = Some t -> t !! name = Some l ->
  wp (take_turn sock name t l)
    (fun a ts' => a <> no_address /\ (sock, name, a) ∈ R /\ tables_ok n ts' /\ represents ts' R) ts.
Proof.
  intros Hok Hr Ht Hl.
  assert (Htok : table_ok t) by (apply (Forall_lookup_1 _ _ _ _ (proj2 (proj2 Hok)) Ht)).
  destruct (Htok name l Hl) as [Hne Hno]. destruct l as [|a l']; [done|]. simpl. unfold put_table.
  apply wp_bind, wp_modify, wp_ret. apply not_elem_of_cons in Hno as [Ha Hno].
  assert (Hat : lists_at ts sock name = a :: l') by (rewrite (lists_at_table ts sock t name Ht), Hl; done).
  split; [by apply not_eq_sym|]. split; [apply Hr; rewrite Hat; by left|]. split.
  - apply (put_ok n ts sock t name); [done..|by intros; rewrite lookup_insert_ne|].
    intros l2 [= <-]%(eq_trans (eq_sym (lookup_insert_eq t name (l' ++ [a])))). split; [by destruct l'|].
    rewrite elem_of_app, list_elem_of_singleton. naive_solver.
  - apply (represents_put ts sock t name _ R); [done..|by intros; rewrite lookup_insert_ne| |done].
    intros b. rewrite lookup_insert_eq. simpl. rewrite (Hr sock name b), Hat.
    rewrite elem_of_cons, elem_of_app, list_elem_of_singleton. tauto.
Qed.

Lemma lookup_loop_wp n ts R name sock k i :
  tables_ok n ts -> represents ts R -> (k + i)%nat = n ->
  (forall s a, (s < i)%nat \/ s = sock -> (s, name, a) ∉ R) ->
  wp (lookup_loop k i sock name)
    (fun a ts' => (if a =? no_address then forall s b, (s, name, b) ∉ R else exists s, (s, name, a) ∈ R) /\
       tables_ok n ts' /\ represents ts' R) ts.
Proof.
  intros Hok Hr. revert i. induction k as [|k IH]; intros i Hn Hnone; simpl.
  - apply wp_ret. split; [|done]. cbv beta. rewrite Z.eqb_refl. intros s b Hin. destruct (decide (s < i)%nat) as [Hs|Hs].
    + apply (Hnone s b); [by left|done].
    + apply Hr in Hin. unfold lists_at in Hin. rewrite (lookup_ge_None_2 ts s) in Hin by (destruct Hok; lia).
      by apply not_elem_of_nil in Hin.
  - destruct (Nat.eqb_spec i sock) as [->|Hi].
    { apply IH; [lia|]. intros s a Hs. apply Hnone. destruct (decide (s = sock)); [by right|left; lia]. }
    destruct (table_at n ts i Hok) as (t & Ht & _); [lia|]. apply wp_bind, (get_table_wp _ t); [done|].
    destruct (t !! name) as [l|] eqn:El.
    + eapply wp_mono; [by apply (take_turn_wp n ts R i t name l)|]. cbv beta. intros a ts' (Ha & Hin & Hok' & Hr').
      split; [|done]. rewrite (proj2 (Z.eqb_neq _ _)) by done. by exists i.
    + apply IH; [lia|]. intros s a Hs. destruct (decide (s = i)) as [->|Hsi]; [|apply Hnone; destruct Hs; [left; lia|by right]].
      rewrite (Hr i name a), (lists_at_table ts i t name Ht), El. apply not_elem_of_nil.
Qed.

Lemma lookup_kept n ts R core name :
  tables_ok n ts -> represents ts R -> wp (serve (Lookup core name)) (kept n (Lookup core name) R) ts.
Proof.
  intros Hok Hr. pose proof (sock_lt n ts core Hok) as Hs. pose proof (sock_eq n ts core Hok) as He.
  destruct (table_at n ts _ Hok Hs) as (t & Ht & Htok). unfold kept. simpl. rewrite He. set (s := sock_of ts core) in *.
  unfold nameserver_name_lookup. apply wp_bind, get_sock_wp. fold s.
  apply wp_bind, (get_table_wp _ t); [done|]. apply wp_bind. destruct (t !! name) as [l|] eqn:El.
  - eapply wp_mono; [by apply (take_turn_wp n ts R s t name l)|]. cbv beta. intros a ts' (Ha & Hin & Hok' & Hr').
    apply wp_bind, wp_gets. rewrite (proj2 (Z.eqb_neq _ _)) by done. apply wp_bind, wp_ret, wp_ret.
    rewrite (proj2 (Z.eqb_neq _ _)) by done. simpl. split; [|done]. split; [by exists s|done].
  - apply wp_ret, wp_bind, wp_gets. rewrite Z.eqb_refl. apply wp_bind.
    assert (Hno : forall a, (s, name, a) ∉ R)
      by (intros a; rewrite (Hr s name a), (lists_at_table ts s t name Ht), El; apply not_elem_of_nil).
    eapply wp_mono; [apply (lookup_loop_wp n ts R name s (length ts) 0); [done..|destruct Hok; lia|]|].
    { intros s' a [?| ->]; [lia|apply Hno]. }
    cbv beta. intros a ts' [Ha Hrest]. apply wp_ret. split; [|done]. simpl.
    destruct (a =? no_address); simpl; [done|]. split; [done|]. intros b Hb. by apply Hno in Hb.
Qed.

Lemma serve_all_kept n rs : forall ts R, tables_ok n ts -> represents ts R -> Forall request_ok rs ->
  wp (serve_all rs) (fun xs ts' => replies_ok n rs R xs /\ tables_ok n ts') ts.
Proof.
  induction rs as [|r rs IH]; intros ts R Hok Hr Hrs; [by apply wp_ret|].
  apply Forall_cons in Hrs as [Hq Hrs]. simpl. apply wp_bind. apply wp_mono with (Q := kept n r R).
  - destruct r; [by apply register_kept|by apply unregister_kept|by apply lookup_kept].
  - intros x ts1 (Hx & Hok1 & Hr1). apply wp_bind. eapply wp_mono; [by apply (IH ts1 (spec_step n r R))|].
    cbv beta. intros xs ts2 [Hxs Hok2]. by apply wp_ret.
Qed.

(** C25: Whatever the clients ask for, in any order, the name server answers as
    a set of registrations does: a lookup is answered with an endpoint that is
    registered under the name, one of the asking core's socket when it has one,
    and is refused exactly when there is none on any socket; and the server
    never takes the front of an empty list. *)
Theorem nameserver_refines_registry (n : nat) (rs : list request) :
  (0 < n)%nat -> Forall request_ok rs ->
  wp (serve_all rs) (fun xs ts => replies_ok n rs ∅ xs /\ tables_ok n ts) (replicate n ∅).
Proof.
  intros Hn Hrs. apply serve_all_kept; [|intros s name a|done].
  - split; [apply length_replicate|]. split; [done|]. apply Forall_replicate. intros name l Hl. by rewrite lookup_empty in Hl.
  - unfold lists_at. split; [by intros Hin%elem_of_empty|]. destruct (replicate n ∅ !! s) as [t|] eqn:E.
    + apply lookup_replicate in E as [-> _]. simpl. rewrite lookup_empty. by intros Hin%elem_of_nil.
    + by intros Hin%elem_of_nil.
Qed.

(** Two sockets: core 0 looks up a name core 1 has registered. *)
Lemma nameserver_refines_registry_witness :
  wp (serve_all [Register 1 7 100; Lookup 0 7; Unregister 1 7 100; Lookup 0 7])
    (fun xs _ => replies_ok 2 [Register 1 7 100; Lookup 0 7; Unregister 1 7 100; Lookup 0 7] ∅ xs) (replicate 2 ∅).
Proof.
  eapply wp_mono; [apply (nameserver_refines_registry 2 [Register 1 7 100; Lookup 0 7; Unregister 1 7 100; Lookup 0 7])|].
  - lia.
  - repeat constructor; done.
  - cbv beta. by intros xs ts [Hxs _].
Defined.
