(* ===== verification/NetChecksum.v ===== *)
(** * Internet checksums

    [lwip/src/core/ipv4/inet_chksum.c] and the byte order functions of
    [inet.c]: the sum of a packet in its three versions, of which the build takes
    the first, and the checksums of memory and of chains of buffers. *)

From S2P Require Import Prelude.

(** ** Byte order *)

Definition htons (n : Z) : Z := u16 (Z.lor (Z.shiftl (Z.land n 255) 8) (Z.shiftr (Z.land n 65280) 8)).
Definition ntohs (n : Z) : Z := htons n.
Definition htonl (n : Z) : Z :=
  u32 (Z.lor (Z.lor (Z.lor (Z.shiftl (Z.land n 255) 24) (Z.shiftl (Z.land n 65280) 8))
             (Z.shiftr (Z.land n 16711680) 8)) (Z.shiftr (Z.land n 4278190080) 24)).
Definition ntohl (n : Z) : Z := htonl n.

(** The swap of two bytes that is written out in the checksum functions. *)
Definition swap_bytes (acc : Z) : Z := Z.lor (Z.shiftl (Z.land acc 255) 8) (Z.shiftr (Z.land acc 65280) 8).

(** ** Sums

    Words are read from memory in the order of a little-endian machine. *)

Definition load16 (b0 b1 : Z) : Z := b0 + b1 * 2 ^ 8.
Definition load32 (b0 b1 b2 b3 : Z) : Z := b0 + b1 * 2 ^ 8 + b2 * 2 ^ 16 + b3 * 2 ^ 24.

(** One fold of the carries, and the loop that folds until none is left; three
    rounds are enough for 32 bits. *)
Definition fold_once (acc : Z) : Z := u32 (Z.shiftr acc 16 + Z.land acc 65535).
Fixpoint fold_loop (fuel : nat) (acc : Z) : Z :=
  match fuel with
  | O => acc
  | S fuel' => if Z.shiftr acc 16 =? 0 then acc else fold_loop fuel' (fold_once acc)
  end.
Definition fold_all (acc : Z) : Z := fold_loop 3 acc.

(** Version 1: octets in network order. *)
Fixpoint chksum1_loop (data : list Z) (acc : Z) : Z :=
  match data with
  | a :: b :: data' => chksum1_loop data' (u32 (acc + u16 (Z.lor (Z.shiftl a 8) b)))
  | [a] => u32 (acc + u16 (Z.shiftl a 8))
  | [] => acc
  end.
Definition lwip_standard_chksum (data : list Z) : Z :=
  let acc := fold_once (chksum1_loop data 0) in
  let acc := if negb (Z.land acc 4294901760 =? 0) then fold_once acc else acc in
  htons (u16 acc).

(** Version 2: words of the machine, from an address that may be odd.  The
    first byte of an odd address and the last byte make up the word [t]. *)
Fixpoint sum16_loop (data : list Z) (sum : Z) : list Z * Z :=
  match data with
  | a :: b :: data' => sum16_loop data' (u32 (sum + load16 a b))
  | _ => (data, sum)
  end.
Definition tail_byte (data : list Z) (t : Z) : Z :=
  match data with a :: _ => Z.land t 65280 + a | [] => t end.
Definition odd_start (odd : bool) (data : list Z) : list Z * Z :=
  match odd, data with true, a :: data' => (data', a * 2 ^ 8) | _, _ => (data, 0) end.
Definition odd_end (odd : bool) (sum : Z) : Z := if odd then swap_bytes sum else sum.

Definition lwip_standard_chksum2 (addr : Z) (data : list Z) : Z :=
  let odd := Z.odd addr in
  let '(data, t) := odd_start odd data in
  let '(rest, sum) := sum16_loop data 0 in
  let sum := u32 (sum + tail_byte rest t) in
  u16 (odd_end odd (fold_all sum)).

(** Version 3: eight bytes in a round, the carry is added back. *)
Definition add_carry (sum w : Z) : Z :=
  let tmp := u32 (sum + w) in if tmp <? sum then u32 (tmp + 1) else tmp.
Fixpoint sum64_loop (data : list Z) (sum : Z) : list Z * Z :=
  match data with
  | a :: b :: c :: d :: e :: f :: g :: h :: data' =>
      sum64_loop data' (add_carry (add_carry sum (load32 a b c d)) (load32 e f g h))
  | _ => (data, sum)
  end.
Definition align32 (addr : Z) (data : list Z) : list Z * Z :=
  match data with
  | a :: b :: data' => if negb (Z.land addr 3 =? 0) then (data', u32 (load16 a b)) else (data, 0)
  | _ => (data, 0)
  end.

Definition lwip_standard_chksum3 (addr : Z) (data : list Z) : Z :=
  let odd := Z.odd addr in
  let '(data1, t) := odd_start odd data in
  let addr1 := if odd && negb (bool_decide (data = [])) then addr + 1 else addr in
  let '(data2, sum) := align32 addr1 data1 in
  let '(data3, sum) := sum64_loop data2 sum in
  let sum := fold_once sum in
  let '(rest, sum) := sum16_loop data3 sum in
  let sum := u32 (sum + tail_byte rest t) in
  u16 (odd_end odd (fold_all sum)).

(** ** Checksums *)

Definition complement (acc : Z) : Z := u16 (Z.lnot (Z.land acc 65535)).

Definition inet_chksum (data : list Z) : Z := complement (fold_all (lwip_standard_chksum data)).

(** The loop over a chain; [q] is the payload of one buffer. *)
Fixpoint pseudo_loop (chain : list (list Z)) (acc : Z) (swapped : bool) : Z * bool :=
  match chain with
  | [] => (acc, swapped)
  | q :: chain' =>
      let acc := fold_all (u32 (acc + lwip_standard_chksum q)) in
      if Z.of_nat (length q) mod 2 =? 0 then pseudo_loop chain' acc swapped
      else pseudo_loop chain' (swap_bytes acc) (negb swapped)
  end.

Definition pseudo_header (acc src dest proto proto_len : Z) : Z :=
  let acc := u32 (acc + Z.land src 65535) in
  let acc := u32 (acc + Z.land (Z.shiftr src 16) 65535) in
  let acc := u32 (acc + Z.land dest 65535) in
  let acc := u32 (acc + Z.land (Z.shiftr dest 16) 65535) in
  let acc := u32 (acc + htons (u16 proto)) in
  u32 (acc + htons proto_len).

Definition inet_chksum_pseudo (chain : list (list Z)) (src dest proto proto_len : Z) : Z :=
  let '(acc, swapped) := pseudo_loop chain 0 false in
  let acc := if swapped then swap_bytes acc else acc in
  complement (fold_all (pseudo_header acc src dest proto proto_len)).

(** Only the first [chksum_len] bytes; the assertion in the loop fails when much
    is left.  The parity is that of the whole buffer. *)
Fixpoint partial_loop (chain : list (list Z)) (chksum_len acc : Z) (swapped : bool) : M unit (Z * bool) :=
  match chain with
  | [] => mret (acc, swapped)
  | q :: chain' =>
      if negb (0 <? chksum_len) then mret (acc, swapped)
      else
        let chklen := Z.min (Z.of_nat (length q)) chksum_len in
        let acc := u32 (acc + lwip_standard_chksum (take (Z.to_nat chklen) q)) in
        let chksum_len := u16 (chksum_len - chklen) in
        assert_ (chksum_len <? 32767);;
        let acc := fold_all acc in
        if Z.of_nat (length q) mod 2 =? 0 then partial_loop chain' chksum_len acc swapped
        else partial_loop chain' chksum_len (swap_bytes acc) (negb swapped)
  end.
Definition inet_chksum_pseudo_partial (chain : list (list Z)) (src dest proto proto_len chksum_len : Z) : M unit Z :=
  r ← partial_loop chain chksum_len 0 false;
  let '(acc, swapped) := r in
  let acc := if (swapped : bool) then swap_bytes acc else acc in
  mret (complement (fold_all (pseudo_header acc src dest proto proto_len))).

(** [0x00ffUL << 8] and [0xff00UL >> 8] are computed before [&], so that the
    accumulator is not changed. *)
Fixpoint pbuf_loop (chain : list (list Z)) (acc : Z) (swapped : bool) : Z * bool :=
  match chain with
  | [] => (acc, swapped)
  | q :: chain' =>
      let acc := fold_all (u32 (acc + lwip_standard_chksum q)) in
      if Z.of_nat (length q) mod 2 =? 0 then pbuf_loop chain' acc swapped
      else pbuf_loop chain' (Z.lor (Z.land acc (Z.shiftl 255 8)) (Z.land acc (Z.shiftr 65280 8))) (negb swapped)
  end.
Definition inet_chksum_pbuf (chain : list (list Z)) : Z :=
  let '(acc, swapped) := pbuf_loop chain 0 false in
  let acc := if swapped then swap_bytes acc else acc in
  complement acc.

(** ** One's complement sums *)

Definition bytes (l : list Z) : Prop := Forall (fun b => 0 <= b < 256) l.

(** The sum of the words of a packet, in network order and in the order of the
    machine; a last byte is padded with zero. *)
Fixpoint word_sum (l : list Z) : Z :=
  match l with a :: b :: l' => a * 256 + b + word_sum l' | [a] => a * 256 | [] => 0 end.
Fixpoint host_sum (l : list Z) : Z :=
  match l with a :: b :: l' => a + b * 256 + host_sum l' | [a] => a | [] => 0 end.

(** The sum with end-around carry, in 16 bits: zero stands for zero only. *)
Definition ones (s : Z) : Z := if s =? 0 then 0 else 1 + (s - 1) mod 65535.

(** [v] and [s] are the same sum, but for carries that have been added back. *)
Definition rep (v s : Z) : Prop := 0 <= v /\ 0 <= s /\ (exists k, v = s + 65535 * k) /\ (v = 0 <-> s = 0).

Lemma rep_refl s : 0 <= s -> rep s s.
Proof. intros Hs. split_and!; [done|done|exists 0; lia|done]. Qed.
Lemma rep_trans u v w : rep u v -> rep v w -> rep u w.
Proof.
  intros (? & ? & [k ->] & H1) (? & ? & [k' ->] & H2). split_and!; [done|done|exists (k + k'); lia|].
  rewrite H1. done.
Qed.
Lemma rep_sym v s : rep v s -> rep s v.
Proof. intros (? & ? & [k ->] & Hz). split_and!; [done|done|exists (-k); lia|tauto]. Qed.
Lemma rep_add v s v' s' : rep v s -> rep v' s' -> rep (v + v') (s + s').
Proof. intros (? & ? & [k Hk] & ?) (? & ? & [k' Hk'] & ?). split_and!; [lia|lia|exists (k + k'); lia|lia]. Qed.
Lemma rep_times c s : 0 < c -> 0 <= s -> (exists j, c = 1 + 65535 * j) -> rep (c * s) s.
Proof. intros Hc Hs [j ->]. split_and!; [nia|done|exists (j * s); lia|nia]. Qed.
Lemma rep_mul c v s : 0 < c -> rep v s -> rep (c * v) (c * s).
Proof. intros Hc (? & ? & [k ->] & ?). split_and!; [nia|nia|exists (c * k); lia|nia]. Qed.

Lemma ones_range s : 0 <= ones s <= 65535.
Proof. unfold ones. case_match; [lia|]. pose proof (Z.mod_pos_bound (s - 1) 65535). lia. Qed.

Lemma rep_ones v s : rep v s -> v <= 65535 -> v = ones s.
Proof.
  intros (Hv & Hs & [k Hk] & Hz) Hle. unfold ones. destruct (Z.eqb_spec s 0) as [->|Hne]; [lia|].
  assert (v <> 0) by tauto. rewrite <- (Z.mod_unique (s - 1) 65535 (- k) (v - 1)); lia.
Qed.

Lemma ones_rep s : 0 <= s -> rep (ones s) s.
Proof.
  intros Hs. pose proof (ones_range s). split; [lia|]. split; [done|]. unfold ones in *. destruct (Z.eqb_spec s 0) as [->|Hne].
  - split; [exists 0; lia|done].
  - pose proof (Z.mod_pos_bound (s - 1) 65535). split; [|lia]. exists (- ((s - 1) / 65535)).
    pose proof (Z.div_mod (s - 1) 65535). lia.
Qed.

(** Numbers that are the same sum have the same one. *)
Lemma ones_eq u v : rep u v -> ones u = ones v.
Proof.
  intros Hr. apply rep_ones; [|apply ones_range]. eapply rep_trans; [|exact Hr]. apply ones_rep. apply Hr.
Qed.

(** *** Bits and bytes *)

Lemma land_low n : Z.land n 65535 = n mod 65536.
Proof. apply (Z.land_ones n 16). lia. Qed.
Lemma land_byte n : Z.land n 255 = n mod 256.
Proof. apply (Z.land_ones n 8). lia. Qed.


Lemma swap_bytes_eq n : swap_bytes n = (n / 256) mod 256 + n mod 256 * 256.
Proof.
  unfold swap_bytes. rewrite Z.shiftr_land. change (Z.shiftr 65280 8) with 255. rewrite !land_byte, Z.shiftr_div_pow2 by lia.
  rewrite Z.lor_comm, lor_disjoint_add; [done|lia|]. change (2 ^ 8) with 256. apply Z.mod_pos_bound. lia.
Qed.

Lemma swap_bytes_range n : 0 <= swap_bytes n < 65536.
Proof.
  rewrite swap_bytes_eq. pose proof (Z.mod_pos_bound (n / 256) 256). pose proof (Z.mod_pos_bound n 256). lia.
Qed.

Lemma htons_swap n : htons n = swap_bytes n.
Proof. unfold htons. fold (swap_bytes n). unfold u16. apply Z.mod_small, swap_bytes_range. Qed.

(** The bytes of a number that has two. *)
Lemma two_bytes n : 0 <= n < 65536 -> exists hi lo, n = hi * 256 + lo /\ 0 <= hi < 256 /\ 0 <= lo < 256 /\ swap_bytes n = lo * 256 + hi.
Proof.
  intros Hn. exists (n / 256), (n mod 256). pose proof (Z.div_mod n 256). pose proof (Z.mod_pos_bound n 256).
  assert (0 <= n / 256 < 256) by (split; [apply Z.div_pos; lia|apply Z.div_lt_upper_bound; lia]).
  rewrite swap_bytes_eq, (Z.mod_small (n / 256)) by lia. lia.
Qed.

Lemma swap_swap n : 0 <= n < 65536 -> swap_bytes (swap_bytes n) = n.
Proof.
  intros Hn. destruct (two_bytes n Hn) as (hi & lo & -> & ? & ? & ->).
  destruct (two_bytes (lo * 256 + hi)) as (a & b & Hab & ? & ? & ->); [lia|]. lia.
Qed.

Lemma rep_swap n s : 0 <= n < 65536 -> rep n s -> rep (swap_bytes n) (256 * s).
Proof.
  intros Hn Hr. eapply rep_trans; [|by apply rep_mul]. destruct (two_bytes n Hn) as (hi & lo & -> & ? & ? & ->).
  split_and!; [lia|lia|exists (- hi); lia|lia].
Qed.

(** *** Folding *)

Lemma fold_once_eq n : 0 <= n < 2 ^ 32 -> fold_once n = n / 65536 + n mod 65536 /\ 0 <= n / 65536 < 65536.
Proof.
  intros Hn. unfold fold_once. rewrite land_low, Z.shiftr_div_pow2 by lia. change (2 ^ 16) with 65536.
  pose proof (Z.mod_pos_bound n 65536). assert (0 <= n / 65536 < 65536) by (split; [apply Z.div_pos; lia|apply Z.div_lt_upper_bound; lia]).
  rewrite u32_small by lia. done.
Qed.

Lemma fold_once_rep n : 0 <= n < 2 ^ 32 -> rep (fold_once n) n /\ fold_once n < 131072.
Proof.
  intros Hn. destruct (fold_once_eq n Hn) as [-> Hq]. pose proof (Z.div_mod n 65536). pose proof (Z.mod_pos_bound n 65536).
  split; [|lia]. split_and!; [lia|lia|exists (- (n / 65536)); lia|lia].
Qed.

Lemma fold_once_small n : 0 <= n < 131072 -> fold_once n <= 65535 \/ n = 131071.
Proof.
  intros Hn. destruct (fold_once_eq n) as [-> _]; [lia|]. pose proof (Z.div_mod n 65536). pose proof (Z.mod_pos_bound n 65536).
  assert (0 <= n / 65536 < 2) by (split; [apply Z.div_pos; lia|apply Z.div_lt_upper_bound; lia]). lia.
Qed.

(** The result of the first fold is small enough for one more. *)
Lemma fold_twice n : 0 <= n < 2 ^ 32 -> 0 <= fold_once (fold_once n) <= 65535.
Proof.
  intros Hn. destruct (fold_once_rep n Hn) as [Hr Hlt]. destruct (fold_once_rep (fold_once n)) as [Hr' _]; [destruct Hr; lia|].
  split; [apply Hr'|]. destruct (fold_once_small (fold_once n)) as [|He]; [destruct Hr; lia|done|].
  destruct (fold_once_eq n Hn) as [He' ?]. pose proof (Z.mod_pos_bound n 65536). lia.
Qed.

Lemma shiftr_zero n : 0 <= n -> (Z.shiftr n 16 =? 0) = (n <? 65536).
Proof.
  intros Hn. rewrite Z.shiftr_div_pow2 by lia. change (2 ^ 16) with 65536. destruct (Z.ltb_spec n 65536).
  - by rewrite Z.div_small.
  - apply Z.eqb_neq. pose proof (Z.div_le_lower_bound n 65536 1). lia.
Qed.

Lemma fold_all_rep n : 0 <= n < 2 ^ 32 -> rep (fold_all n) n /\ 0 <= fold_all n < 65536.
Proof.
  intros Hn. unfold fold_all. cbn [fold_loop]. destruct (fold_once_rep n Hn) as [Hr Hlt].
  destruct (fold_once_rep (fold_once n)) as [Hr2 _]; [destruct Hr; lia|]. pose proof (fold_twice n Hn).
  rewrite shiftr_zero by lia. destruct (Z.ltb_spec n 65536); [split; [apply rep_refl; lia|lia]|].
  rewrite shiftr_zero by apply Hr. destruct (Z.ltb_spec (fold_once n) 65536); [split; [done|destruct Hr; lia]|].
  rewrite shiftr_zero by apply Hr2. rewrite (proj2 (Z.ltb_lt _ _)) by lia. split; [by eapply rep_trans|lia].
Qed.

Lemma fold_all_ones n s : 0 <= n < 2 ^ 32 -> rep n s -> fold_all n = ones s.
Proof.
  intros Hn Hr. destruct (fold_all_rep n Hn) as [Hf Hlt]. apply rep_ones; [by eapply rep_trans|lia].
Qed.

(** *** The loops *)

Lemma pairs_ind (P : list Z -> Prop) :
  P [] -> (forall a, P [a]) -> (forall a b l, P l -> P (a :: b :: l)) -> forall l, P l.
Proof.
  intros H0 H1 H2. enough (Hl : forall n l, (length l <= n)%nat -> P l) by (intros l; by apply (Hl (length l))).
  induction n as [|n IH]; intros [|a [|b l]] Hn; simpl in Hn; try lia; auto. apply H2, IH. lia.
Qed.

Lemma bytes_cons a l : bytes (a :: l) <-> 0 <= a < 256 /\ bytes l.
Proof. unfold bytes. by rewrite Forall_cons. Qed.

Lemma sums_bound l : bytes l ->
  0 <= word_sum l /\ 2 * word_sum l <= 65535 * (Z.of_nat (length l) + 1) /\
  0 <= host_sum l /\ 2 * host_sum l <= 65535 * (Z.of_nat (length l) + 1).
Proof.
  induction l as [|a|a b l IH] using pairs_ind; cbn [word_sum host_sum length]; [lia| |].
  - intros [? _]%bytes_cons. lia.
  - intros [? [? Hl]%bytes_cons]%bytes_cons. specialize (IH Hl). lia.
Qed.

Lemma host_word l : bytes l -> rep (host_sum l) (256 * word_sum l).
Proof.
  induction l as [|a|a b l IH] using pairs_ind; cbn [word_sum host_sum].
  - intros _. by apply rep_refl.
  - intros [? _]%bytes_cons. split_and!; [lia|lia|exists (- a); lia|lia].
  - intros [? [? Hl]%bytes_cons]%bytes_cons. rewrite Z.mul_add_distr_l. apply rep_add; [|by apply IH].
    split_and!; [lia|lia|exists (- a); lia|lia].
Qed.

Lemma host_cons a l : bytes (a :: l) -> rep (host_sum (a :: l)) (a + 256 * host_sum l).
Proof.
  revert a. induction l as [|b|b c l IH] using pairs_ind; intros a [Ha Hl]%bytes_cons.
  - cbn [host_sum]. replace (a + 256 * 0) with a by lia. apply rep_refl. lia.
  - apply bytes_cons in Hl as [? _]. cbn [host_sum]. replace (a + 256 * b) with (a + b * 256 + 0) by lia. apply rep_refl. lia.
  - apply bytes_cons in Hl as [Hb Hl]. pose proof Hl as [Hc Hl']%bytes_cons.
    change (host_sum (a :: b :: c :: l)) with (a + b * 256 + host_sum (c :: l)). cbn [host_sum].
    replace (a + 256 * (b + c * 256 + host_sum l)) with (a + b * 256 + (65536 * c + 256 * host_sum l)) by lia.
    apply rep_add; [apply rep_refl; lia|]. eapply rep_trans; [by apply IH|]. pose proof (sums_bound l Hl').
    apply rep_add; [|apply rep_refl; lia]. apply rep_sym, rep_times; [lia|lia|by exists 1].
Qed.

(** The sum of a packet that comes in two parts. *)
Definition shift_of (n : nat) : Z := if Z.of_nat n mod 2 =? 0 then 1 else 256.

Lemma shift_of_SS n : shift_of (S (S n)) = shift_of n.
Proof. unfold shift_of. replace (Z.of_nat (S (S n))) with (Z.of_nat n + 1 * 2) by lia. by rewrite Z.mod_add. Qed.
Lemma shift_pos n : 0 < shift_of n.
Proof. unfold shift_of. by case_match. Qed.

Lemma host_app l l' : bytes l -> bytes l' -> rep (host_sum (l ++ l')) (host_sum l + shift_of (length l) * host_sum l').
Proof.
  intros Hl Hl'. pose proof (sums_bound l' Hl'). induction l as [|a|a b l IH] using pairs_ind.
  - change (rep (host_sum l') (1 * host_sum l')). rewrite Z.mul_1_l. apply rep_refl. lia.
  - apply (host_cons a l'). apply bytes_cons in Hl as [Ha _]. by apply bytes_cons.
  - apply bytes_cons in Hl as [? [? Hl]%bytes_cons]. cbn [app host_sum length]. rewrite shift_of_SS, <- (Z.add_assoc _ (host_sum l)).
    apply rep_add; [apply rep_refl; lia|by apply IH].
Qed.

Lemma chksum1_loop_eq l acc :
  bytes l -> 0 <= acc -> acc + word_sum l < 2 ^ 32 -> chksum1_loop l acc = acc + word_sum l.
Proof.
  revert acc. induction l as [|a|a b l IH] using pairs_ind; cbn [chksum1_loop word_sum]; intros acc.
  - lia.
  - intros [Ha _]%bytes_cons Hacc Hlt. rewrite Z.shiftl_mul_pow2 by lia. change (2 ^ 8) with 256. unfold u16.
    rewrite Z.mod_small, u32_small by lia. done.
  - intros [Ha [Hb Hl]%bytes_cons]%bytes_cons Hacc Hlt. pose proof (sums_bound l Hl).
    rewrite Z.lor_comm, lor_disjoint_add by lia. change (2 ^ 8) with 256. unfold u16.
    rewrite Z.mod_small, u32_small by lia. rewrite IH; [lia|done|lia|lia].
Qed.

Lemma high_bits n : 0 <= n < 2 ^ 32 -> (Z.land n 4294901760 =? 0) = (n <? 65536).
Proof.
  intros Hn. rewrite <- shiftr_zero by lia. change 4294901760 with (Z.shiftl 65535 16).
  assert (Hz : Z.shiftr (Z.land n (Z.shiftl 65535 16)) 16 = Z.shiftr n 16).
  { rewrite Z.shiftr_land, Z.shiftr_shiftl_l, Z.sub_diag by lia. change (Z.shiftl 65535 0) with (Z.ones 16).
    rewrite Z.land_ones, Z.mod_small; [done| |lia]. rewrite Z.shiftr_div_pow2 by lia.
    split; [apply Z.div_pos; lia|apply Z.div_lt_upper_bound; lia]. }
  destruct (Z.eqb_spec (Z.shiftr n 16) 0) as [H0|H0]; rewrite <- Hz in H0.
  - apply Z.eqb_eq. apply Z.bits_inj'. intros i Hi. rewrite Z.bits_0, Z.land_spec.
    destruct (Z.ltb_spec i 16); [by rewrite Z.shiftl_spec_low, andb_false_r|].
    assert (Hb : Z.testbit (Z.shiftr n 16) (i - 16) = false) by (rewrite <- Hz, H0; apply Z.bits_0).
    rewrite Z.shiftr_spec in Hb by lia. replace (i - 16 + 16) with i in Hb by lia. by rewrite Hb.
  - apply Z.eqb_neq. intros Hx. by rewrite Hx in H0.
Qed.

Lemma chksum_value l : bytes l -> Z.of_nat (length l) < 131071 -> lwip_standard_chksum l = swap_bytes (ones (word_sum l)).
Proof.
  intros Hl Hn. pose proof (sums_bound l Hl). unfold lwip_standard_chksum. cbv zeta.
  rewrite chksum1_loop_eq, Z.add_0_l by (done || lia). rewrite htons_swap. f_equal.
  destruct (fold_once_rep (word_sum l)) as [Hr Hlt]; [lia|]. pose proof (fold_twice (word_sum l) ltac:(lia)) as Ht.
  rewrite high_bits by (destruct Hr; lia). destruct (Z.ltb_spec (fold_once (word_sum l)) 65536); cbn [negb]; unfold u16.
  - rewrite Z.mod_small by (destruct Hr; lia). apply rep_ones; [done|lia].
  - rewrite Z.mod_small by lia. apply rep_ones; [|lia]. eapply rep_trans; [|exact Hr].
    apply fold_once_rep. destruct Hr; lia.
Qed.

(** In the order of the machine. *)
Lemma chksum_host l : bytes l -> Z.of_nat (length l) < 131071 -> lwip_standard_chksum l = ones (host_sum l).
Proof.
  intros Hl Hn. rewrite chksum_value by done. pose proof (sums_bound l Hl). pose proof (ones_range (word_sum l)).
  apply rep_ones; [|pose proof (swap_bytes_range (ones (word_sum l))); lia].
  eapply rep_trans; [apply rep_swap; [lia|apply ones_rep; lia]|]. apply rep_sym. by apply host_word.
Qed.

Lemma sum16_loop_eq l s :
  bytes l -> 0 <= s -> s + host_sum l < 2 ^ 32 ->
  exists rest s', sum16_loop l s = (rest, s') /\ 0 <= s' /\ s' + host_sum rest = s + host_sum l /\
    (rest = [] \/ exists x, rest = [x] /\ 0 <= x < 256).
Proof.
  revert s. induction l as [|a|a b l IH] using pairs_ind; cbn [sum16_loop host_sum]; intros s.
  - intros _ Hs Hlt. exists [], s. by split_and!; [..|left].
  - intros [Ha _]%bytes_cons Hs Hlt. exists [a], s. split_and!; [done|done|done|right; by exists a].
  - intros [Ha [Hb Hl]%bytes_cons]%bytes_cons Hs Hlt. pose proof (sums_bound l Hl). unfold load16. change (2 ^ 8) with 256.
    rewrite u32_small by lia. destruct (IH (s + (a + b * 256))) as (rest & s' & He & Hs' & Hsum & Hrest); [done|lia|lia|].
    exists rest, s'. split_and!; [done|done|lia|done].
Qed.

Lemma high_byte a : 0 <= a < 256 -> Z.land (a * 256) 65280 = a * 256.
Proof.
  intros Ha. change 65280 with (Z.shiftl 255 8). change 256 with (2 ^ 8). rewrite <- Z.shiftl_mul_pow2 by lia.
  rewrite <- Z.shiftl_land. rewrite land_byte, Z.mod_small by lia. done.
Qed.

(** What the tail and the first byte of an odd address add. *)
Lemma tail_byte_sum rest t :
  (rest = [] \/ exists x, rest = [x] /\ 0 <= x < 256) -> (t = 0 \/ exists a, t = a * 256 /\ 0 <= a < 256) ->
  tail_byte rest t = host_sum rest + t.
Proof.
  intros [->|(x & -> & Hx)] Ht; simpl; [lia|]. destruct Ht as [->|(a & -> & Ha)].
  - rewrite Z.land_0_l. lia.
  - rewrite high_byte by done. lia.
Qed.

(** The part that both versions end with: the rest of the data, the two end
    bytes, and the swap for an odd address. *)
Lemma finish odd data t l s :
  bytes data -> (odd, data, t, l) = (false, data, 0, data) \/ (exists a, odd = true /\ t = a * 256 /\ 0 <= a < 256 /\ l = a :: data) ->
  0 <= s -> s + t < 2 ^ 32 -> rep s (host_sum data) ->
  u16 (odd_end odd (fold_all (u32 (s + t)))) = ones (host_sum l).
Proof.
  intros Hd Hcase Hs Hlt Hr. assert (Ht : 0 <= t) by (destruct Hcase as [Heq|(a & _ & -> & ? & _)]; [simplify_eq; lia|lia]).
  rewrite u32_small by lia. destruct (fold_all_rep (s + t)) as [Hf Hrange]; [lia|].
  destruct Hcase as [Heq|(a & -> & -> & Ha & ->)]; simplify_eq; unfold odd_end, u16.
  - rewrite Z.mod_small by lia. apply rep_ones; [|lia]. eapply rep_trans; [exact Hf|]. by rewrite Z.add_0_r.
  - rewrite Z.mod_small by apply swap_bytes_range. apply rep_ones; [|pose proof (swap_bytes_range (fold_all (s + a * 256))); lia].
    assert (Hl : bytes (a :: data)) by by apply bytes_cons.
    eapply rep_trans; [|apply rep_sym, host_cons, Hl]. eapply rep_trans; [apply rep_swap; [lia|exact Hf]|].
    rewrite Z.mul_add_distr_l, Z.add_comm. apply rep_add; [|by apply rep_mul].
    replace (256 * (a * 256)) with (65536 * a) by lia. apply rep_times; [lia|lia|by exists 1].
Qed.

(** A start at an odd address, or an even one. *)
Lemma start_cases addr a l (P : bool -> list Z -> Z -> Prop) :
  bytes (a :: l) ->
  (forall odd data t, bytes data -> (length data <= length (a :: l))%nat -> (t = 0 \/ exists a, t = a * 256 /\ 0 <= a < 256) ->
    (odd, data, t, a :: l) = (false, data, 0, data) \/ (exists b, odd = true /\ t = b * 256 /\ 0 <= b < 256 /\ a :: l = b :: data) ->
    P odd data t) ->
  P (Z.odd addr) (fst (odd_start (Z.odd addr) (a :: l))) (snd (odd_start (Z.odd addr) (a :: l))).
Proof.
  intros Hl HP. pose proof Hl as [Ha Hl']%bytes_cons. destruct (Z.odd addr); simpl; apply HP; try done.
  - simpl. lia.
  - right. by exists a.
  - right. by exists a.
  - by left.
  - by left.
Qed.

Lemma chksum2_host addr l :
  bytes l -> Z.of_nat (length l) < 131000 -> lwip_standard_chksum2 addr l = ones (host_sum l).
Proof.
  intros Hl Hn. destruct l as [|a l]; [unfold lwip_standard_chksum2; by destruct (Z.odd addr)|].
  unfold lwip_standard_chksum2. cbv zeta. rewrite (surjective_pairing (odd_start _ _)).
  apply (start_cases addr a l (fun odd data t => (let '(rest, sum) := sum16_loop data 0 in
    u16 (odd_end odd (fold_all (u32 (sum + tail_byte rest t))))) = ones (host_sum (a :: l)))); [done|].
  intros odd data t Hd Hlen Ht Hcase. pose proof (sums_bound data Hd).
  destruct (sum16_loop_eq data 0) as (rest & s & -> & Hs & Hsum & Hrest); [done|lia|lia|].
  rewrite (tail_byte_sum rest t Hrest Ht), Z.add_assoc.
  assert (0 <= t < 65536) by (destruct Ht as [->|(b & -> & ?)]; lia).
  apply (finish odd data); [done|done|lia|lia|]. rewrite Hsum, Z.add_0_l. apply rep_refl. lia.
Qed.

Lemma add_carry_rep s w : 0 <= s < 2 ^ 32 -> 0 <= w < 2 ^ 32 -> rep (add_carry s w) (s + w) /\ 0 <= add_carry s w < 2 ^ 32.
Proof.
  intros Hs Hw. unfold add_carry. cbv zeta. destruct (Z.ltb_spec (s + w) (2 ^ 32)) as [Hlt|Hge].
  - rewrite (u32_small (s + w)) by lia. rewrite (proj2 (Z.ltb_ge _ _)) by lia. split; [apply rep_refl; lia|lia].
  - assert (Hu : u32 (s + w) = s + w - 2 ^ 32).
    { unfold u32. symmetry. apply (Z.mod_unique _ _ 1); lia. }
    rewrite Hu, (proj2 (Z.ltb_lt _ _)), u32_small by lia. split; [|lia].
    split_and!; [lia|lia|exists (- 65537); lia|lia].
Qed.

Lemma octets_ind (P : list Z -> Prop) :
  (forall l, (length l < 8)%nat -> P l) ->
  (forall a b c d e f g h l, P l -> P (a :: b :: c :: d :: e :: f :: g :: h :: l)) -> forall l, P l.
Proof.
  intros H0 H1. enough (Hl : forall n l, (length l <= n)%nat -> P l) by (intros l; by apply (Hl (length l))).
  induction n as [|n IH]; intros l Hn; [apply H0; lia|].
  destruct l as [|a [|b [|c [|d [|e [|f [|g [|h l]]]]]]]]; try (apply H0; simpl; lia). apply H1, IH. simpl in Hn. lia.
Qed.

Lemma load32_host a b c d l : load32 a b c d + host_sum l + 65535 * (- (c + d * 256)) = host_sum (a :: b :: c :: d :: l).
Proof. unfold load32. change (2 ^ 8) with 256. change (2 ^ 16) with 65536. change (2 ^ 24) with 16777216. cbn [host_sum]. lia. Qed.

Lemma rep_load32 a b c d l :
  bytes [a; b; c; d] -> 0 <= host_sum l -> rep (load32 a b c d + host_sum l) (host_sum (a :: b :: c :: d :: l)) /\
  0 <= load32 a b c d < 2 ^ 32.
Proof.
  intros [Ha [Hb [Hc [Hd _]%bytes_cons]%bytes_cons]%bytes_cons]%bytes_cons Hl. pose proof (load32_host a b c d l) as Heq.
  unfold load32 in *. split; [|lia]. cbn [host_sum] in *. split_and!; [lia|lia|exists (c + d * 256); lia|lia].
Qed.

Lemma sum64_loop_rep l s :
  bytes l -> 0 <= s < 2 ^ 32 ->
  exists rest s', sum64_loop l s = (rest, s') /\ 0 <= s' < 2 ^ 32 /\ bytes rest /\ (length rest < 8)%nat /\
    rep (s' + host_sum rest) (s + host_sum l).
Proof.
  revert s. induction l as [l Hl8|a b c d e f g h l IH] using octets_ind; intros s Hl Hs.
  - exists l, s. pose proof (sums_bound l Hl). split_and!; [|lia|lia|done|done|apply rep_refl; lia].
    destruct l as [|? [|? [|? [|? [|? [|? [|? [|? l]]]]]]]]; try done. simpl in Hl8. lia.
  - pose proof (Forall_app (fun b => 0 <= b < 256) [a; b; c; d] (e :: f :: g :: h :: l)) as [H1 _]. destruct (H1 Hl) as [Hl1 Hl2].
    pose proof (Forall_app (fun b => 0 <= b < 256) [e; f; g; h] l) as [H2 _]. destruct (H2 Hl2) as [Hl3 Hl4].
    pose proof (sums_bound l Hl4). pose proof (sums_bound _ Hl2).
    destruct (rep_load32 a b c d (e :: f :: g :: h :: l) Hl1) as [Hr1 Hw1]; [lia|].
    destruct (rep_load32 e f g h l Hl3) as [Hr2 Hw2]; [lia|].
    destruct (add_carry_rep s (load32 a b c d) Hs Hw1) as [Hc1 Hs1].
    destruct (add_carry_rep _ (load32 e f g h) Hs1 Hw2) as [Hc2 Hs2].
    destruct (IH _ Hl4 Hs2) as (rest & s' & He & Hs' & Hrest & Hlen & Hr).
    exists rest, s'. split_and!; [exact He|lia|lia|done|done|]. eapply rep_trans; [exact Hr|].
    eapply rep_trans; [apply rep_add; [exact Hc2|apply rep_refl; lia]|]. rewrite <- Z.add_assoc.
    eapply rep_trans; [apply rep_add; [exact Hc1|exact Hr2]|]. rewrite <- Z.add_assoc.
    apply rep_add; [apply rep_refl; lia|done].
Qed.

Lemma align32_rep addr l :
  bytes l -> exists rest s, align32 addr l = (rest, s) /\ bytes rest /\ 0 <= s < 65536 /\ s + host_sum rest = host_sum l.
Proof.
  intros Hl. destruct l as [|a [|b l]]; [by exists [], 0|by exists [a], 0|]. simpl. case_match.
  2: { exists (a :: b :: l), 0. split_and!; try done; lia. }
  pose proof Hl as [Ha [Hb Hl']%bytes_cons]%bytes_cons. exists l, (a + b * 256). unfold load16. change (2 ^ 8) with 256.
  rewrite u32_small by lia. split_and!; [done|done|lia|lia|lia].
Qed.

Lemma chksum3_host addr l : bytes l -> lwip_standard_chksum3 addr l = ones (host_sum l).
Proof.
  intros Hl. destruct l as [|a l]; [unfold lwip_standard_chksum3; by destruct (Z.odd addr)|].
  unfold lwip_standard_chksum3. cbv zeta. rewrite (surjective_pairing (odd_start _ _)).
  generalize (if Z.odd addr && negb (bool_decide (a :: l = [])) then addr + 1 else addr). intros addr1.
  apply (start_cases addr a l (fun odd data1 t => (let '(data2, sum) := align32 addr1 data1 in
    let '(data3, sum0) := sum64_loop data2 sum in let '(rest, sum1) := sum16_loop data3 (fold_once sum0) in
    u16 (odd_end odd (fold_all (u32 (sum1 + tail_byte rest t))))) = ones (host_sum (a :: l)))); [done|].
  intros odd data t Hd Hlen Ht Hcase. destruct (align32_rep addr1 data Hd) as (d2 & s2 & -> & Hd2 & Hs2 & Hsum2).
  destruct (sum64_loop_rep d2 s2 Hd2) as (d3 & s3 & -> & Hs3 & Hd3 & Hlen3 & Hr3); [lia|]. pose proof (sums_bound d3 Hd3).
  destruct (fold_once_rep s3 Hs3) as [Hf Hflt]. assert (0 <= fold_once s3) by apply Hf.
  destruct (sum16_loop_eq d3 (fold_once s3)) as (rest & s & -> & Hs & Hsum & Hrest); [done|lia|lia|].
  rewrite (tail_byte_sum rest t Hrest Ht), Z.add_assoc.
  assert (0 <= t < 65536) by (destruct Ht as [->|(b & -> & ?)]; lia).
  apply (finish odd data); [done|done|lia|lia|]. rewrite Hsum, <- Hsum2. eapply rep_trans; [|exact Hr3].
  apply rep_add; [done|apply rep_refl; lia].
Qed.

(** ** Chains of buffers *)

Lemma bytes_app l l' : bytes l -> bytes l' -> bytes (l ++ l').
Proof. intros Hl Hl'. unfold bytes in *. by apply Forall_app. Qed.

Lemma host_nonneg l : bytes l -> 0 <= host_sum l.
Proof. intros Hl. apply (sums_bound l Hl). Qed.

(** Twice a shift by one byte is none at all. *)
Lemma shift_shift n s : 0 <= s -> rep (shift_of n * (shift_of n * s)) s.
Proof.
  intros Hs. unfold shift_of. case_match; [rewrite !Z.mul_1_l; by apply rep_refl|].
  replace (256 * (256 * s)) with (65536 * s) by lia. apply rep_times; [lia|done|by exists 1].
Qed.

Lemma shift_of_app (l l' : list Z) s :
  0 <= s -> rep (shift_of (length (l ++ l')) * s) (shift_of (length l') * (shift_of (length l) * s)).
Proof.
  intros Hs. rewrite length_app. unfold shift_of. rewrite Nat2Z.inj_add, Z.add_mod by lia.
  destruct (Z.mod_pos_bound (Z.of_nat (length l)) 2), (Z.mod_pos_bound (Z.of_nat (length l')) 2); [lia..|].
  assert (Z.of_nat (length l) mod 2 = 0 \/ Z.of_nat (length l) mod 2 = 1) as [-> | ->] by lia;
    assert (Z.of_nat (length l') mod 2 = 0 \/ Z.of_nat (length l') mod 2 = 1) as [-> | ->] by lia; simpl Z.modulo; simpl Z.eqb; cbv iota.
  1-3: rewrite ?Z.mul_1_l; apply rep_refl; lia.
  rewrite Z.mul_1_l. apply rep_sym. replace (256 * (256 * s)) with (65536 * s) by lia. apply rep_times; [lia|done|by exists 1].
Qed.

(** The accumulator after the bytes [pre]: their sum, as it is seen from the
    place that comes next. *)
Definition summed (pre : list Z) (acc : Z) : Prop := 0 <= acc < 65536 /\ rep acc (shift_of (length pre) * host_sum pre).

(** One buffer is added. *)
Lemma summed_add pre q acc :
  bytes pre -> bytes q -> Z.of_nat (length q) < 65536 -> summed pre acc ->
  let acc1 := fold_all (u32 (acc + lwip_standard_chksum q)) in
  0 <= acc1 < 65536 /\ rep acc1 (shift_of (length pre) * host_sum (pre ++ q)).
Proof.
  intros Hpre Hq Hn [Hacc Hr]. cbv zeta. rewrite chksum_host by (done || lia). pose proof (ones_range (host_sum q)).
  rewrite u32_small by lia. destruct (fold_all_rep (acc + ones (host_sum q))) as [Hf Hrange]; [lia|]. split; [done|].
  eapply rep_trans; [exact Hf|]. pose proof (host_nonneg q Hq). pose proof (shift_pos (length pre)).
  apply rep_sym. eapply rep_trans; [apply rep_mul; [done|by apply host_app]|]. rewrite Z.mul_add_distr_l.
  apply rep_add; [by apply rep_sym|]. eapply rep_trans; [by apply shift_shift|]. apply rep_sym, ones_rep. lia.
Qed.

Lemma odd_shift (q : list Z) : (Z.of_nat (length q) mod 2 =? 0) = (shift_of (length q) =? 1).
Proof. unfold shift_of. by destruct (_ =? 0). Qed.

(** The step of the loops that swap. *)
Lemma summed_step pre q acc :
  bytes pre -> bytes q -> Z.of_nat (length q) < 65536 -> summed pre acc ->
  let acc1 := fold_all (u32 (acc + lwip_standard_chksum q)) in
  summed (pre ++ q) (if Z.of_nat (length q) mod 2 =? 0 then acc1 else swap_bytes acc1).
Proof.
  intros Hpre Hq Hn Hs. destruct (summed_add pre q acc Hpre Hq Hn Hs) as [Hrange Hr]. cbv zeta in *.
  set (acc1 := fold_all _) in *. pose proof (host_nonneg _ (bytes_app _ _ Hpre Hq)) as H0. split.
  { case_match; [done|apply swap_bytes_range]. }
  eapply rep_trans; [|apply rep_sym, (shift_of_app pre q), H0]. unfold shift_of at 1.
  destruct (_ =? 0); [by rewrite Z.mul_1_l|]. by apply rep_swap.
Qed.

Definition is_odd (l : list Z) : bool := negb (Z.of_nat (length l) mod 2 =? 0).

Lemma is_odd_app l l' : is_odd (l ++ l') = if Z.of_nat (length l') mod 2 =? 0 then is_odd l else negb (is_odd l).
Proof.
  unfold is_odd. rewrite length_app, Nat2Z.inj_add, Z.add_mod by lia.
  destruct (Z.mod_pos_bound (Z.of_nat (length l)) 2), (Z.mod_pos_bound (Z.of_nat (length l')) 2); [lia..|].
  assert (Z.of_nat (length l) mod 2 = 0 \/ Z.of_nat (length l) mod 2 = 1) as [-> | ->] by lia;
    assert (Z.of_nat (length l') mod 2 = 0 \/ Z.of_nat (length l') mod 2 = 1) as [-> | ->] by lia; done.
Qed.

Definition chain_ok (chain : list (list Z)) : Prop := Forall (fun q => bytes q /\ Z.of_nat (length q) < 65536) chain.

Lemma pseudo_loop_summed chain pre acc :
  chain_ok chain -> bytes pre -> summed pre acc ->
  exists acc', pseudo_loop chain acc (is_odd pre) = (acc', is_odd (pre ++ concat chain)) /\ summed (pre ++ concat chain) acc'.
Proof.
  intros Hc. revert pre acc. induction Hc as [|q chain [Hq Hn] Hc IH]; intros pre acc Hpre Hs; cbn [pseudo_loop concat].
  - rewrite app_nil_r. by exists acc.
  - pose proof (summed_step pre q acc Hpre Hq Hn Hs) as Hstep. cbv zeta in *.
    destruct (IH (pre ++ q) _ (bytes_app _ _ Hpre Hq) Hstep) as (acc' & He & Hs'). rewrite <- app_assoc in *.
    exists acc'. split; [|done]. rewrite <- He, is_odd_app. by destruct (_ =? 0).
Qed.

(** At the end the sum is turned back. *)
Lemma turn_back (pre : list Z) acc s :
  0 <= acc < 65536 -> 0 <= s -> rep acc (shift_of (length pre) * s) -> (if is_odd pre then swap_bytes acc else acc) = ones s.
Proof.
  intros Hacc H0 Hr. unfold is_odd. rewrite odd_shift.
  pose proof (shift_shift (length pre) s H0) as Hss. destruct (Z.eqb_spec (shift_of (length pre)) 1) as [He|He]; cbn [negb].
  - rewrite He, Z.mul_1_l in Hr. apply rep_ones; [done|lia].
  - apply rep_ones; [|pose proof (swap_bytes_range acc); lia].
    assert (He' : shift_of (length pre) = 256) by (unfold shift_of in *; by destruct (_ =? 0)). rewrite He' in *.
    eapply rep_trans; [by apply rep_swap|done].
Qed.

Lemma summed_end l acc : bytes l -> summed l acc -> (if is_odd l then swap_bytes acc else acc) = ones (host_sum l).
Proof. intros Hl [Hacc Hr]. apply turn_back; [done|by apply host_nonneg|done]. Qed.

Lemma summed_nil : summed [] 0.
Proof. split; [lia|]. by apply rep_refl. Qed.

Lemma concat_bytes chain : chain_ok chain -> bytes (concat chain).
Proof. intros Hc. induction Hc as [|q chain [Hq _] _ IH]; [constructor|]. by apply bytes_app. Qed.

Lemma chain_sum chain :
  chain_ok chain ->
  (let '(acc, swapped) := pseudo_loop chain 0 false in if swapped then swap_bytes acc else acc) = ones (host_sum (concat chain)).
Proof.
  intros Hc. destruct (pseudo_loop_summed chain [] 0 Hc) as (acc & He & Hs); [constructor|apply summed_nil|].
  change (is_odd []) with false in He. rewrite He. apply summed_end; [by apply concat_bytes|done].
Qed.

(** *** The pseudo header *)

(** A number of the machine in memory. *)
Definition bytes16 (n : Z) : list Z := [n mod 256; n / 256 mod 256].
Definition bytes32 (n : Z) : list Z := bytes16 (n mod 65536) ++ bytes16 (n / 65536).

(** The 12 bytes that TCP and UDP checksums cover in addition to the packet:
    both addresses, a zero byte, the protocol and the length in network order. *)
Definition pseudo_bytes (src dest proto proto_len : Z) : list Z :=
  bytes32 src ++ bytes32 dest ++ [0; proto] ++ [proto_len / 256; proto_len mod 256].

Lemma host_bytes16 n l : 0 <= n < 65536 -> host_sum (bytes16 n ++ l) = n + host_sum l.
Proof.
  intros Hn. unfold bytes16. simpl. pose proof (Z.div_mod n 256).
  rewrite (Z.mod_small (n / 256)); [lia|]. split; [apply Z.div_pos; lia|apply Z.div_lt_upper_bound; lia].
Qed.

Lemma bytes16_ok n : bytes (bytes16 n).
Proof. repeat constructor; apply Z.mod_pos_bound; lia. Qed.

Lemma high_half n : 0 <= n < 2 ^ 32 -> 0 <= n / 65536 < 65536.
Proof. intros Hn. split; [apply Z.div_pos; lia|apply Z.div_lt_upper_bound; lia]. Qed.

Lemma host_bytes32 n l : 0 <= n < 2 ^ 32 -> host_sum (bytes32 n ++ l) = n mod 65536 + n / 65536 + host_sum l.
Proof.
  intros Hn. unfold bytes32. rewrite <- app_assoc. pose proof (high_half n Hn). pose proof (Z.mod_pos_bound n 65536).
  rewrite !host_bytes16 by lia. lia.
Qed.

Lemma bytes32_ok n : bytes (bytes32 n).
Proof. apply bytes_app; apply bytes16_ok. Qed.

Record header_ok (src dest proto proto_len : Z) : Prop := {
  ho_src : 0 <= src < 2 ^ 32;
  ho_dest : 0 <= dest < 2 ^ 32;
  ho_proto : 0 <= proto < 256;
  ho_len : 0 <= proto_len < 65536
}.

Lemma pseudo_bytes_ok src dest proto proto_len : header_ok src dest proto proto_len -> bytes (pseudo_bytes src dest proto proto_len).
Proof.
  intros []. unfold pseudo_bytes. repeat (apply bytes_app; [apply bytes32_ok|]).
  assert (0 <= proto_len / 256 < 256) by (split; [apply Z.div_pos; lia|apply Z.div_lt_upper_bound; lia]).
  pose proof (Z.mod_pos_bound proto_len 256). repeat constructor; lia.
Qed.

Lemma halves n : 0 <= n < 2 ^ 32 -> Z.land n 65535 = n mod 65536 /\ Z.land (Z.shiftr n 16) 65535 = n / 65536.
Proof.
  intros Hn. rewrite !land_low, Z.shiftr_div_pow2 by lia. split; [done|]. apply Z.mod_small, high_half, Hn.
Qed.

Lemma htons_host n : 0 <= n < 65536 -> htons n = n / 256 + n mod 256 * 256.
Proof.
  intros Hn. rewrite htons_swap, swap_bytes_eq. f_equal. apply Z.mod_small.
  split; [apply Z.div_pos; lia|apply Z.div_lt_upper_bound; lia].
Qed.

Lemma pseudo_header_sum acc src dest proto proto_len :
  0 <= acc < 65536 -> header_ok src dest proto proto_len ->
  pseudo_header acc src dest proto proto_len = acc + host_sum (pseudo_bytes src dest proto proto_len) /\
  0 <= acc + host_sum (pseudo_bytes src dest proto proto_len) < 2 ^ 32.
Proof.
  intros Hacc Hh. pose proof Hh as [Hs Hd Hp Hl]. unfold pseudo_header. cbv zeta.
  destruct (halves src Hs) as [-> ->], (halves dest Hd) as [-> ->]. unfold pseudo_bytes. rewrite !host_bytes32 by done.
  pose proof (high_half src Hs). pose proof (high_half dest Hd). pose proof (Z.mod_pos_bound src 65536).
  pose proof (Z.mod_pos_bound dest 65536). pose proof (Z.mod_pos_bound proto_len 256).
  assert (0 <= proto_len / 256 < 256) by (split; [apply Z.div_pos; lia|apply Z.div_lt_upper_bound; lia]).
  assert (Hpr : htons (u16 proto) = proto * 256).
  { unfold u16. rewrite Z.mod_small, htons_host, Z.div_small, Z.mod_small by lia. lia. }
  rewrite Hpr, (htons_host proto_len) by done. cbn [app host_sum]. split; [|lia].
  repeat match goal with |- context [u32 ?x] => lazymatch x with context [u32 _] => fail | _ => rewrite (u32_small x) by lia end end.
  lia.
Qed.

Lemma complement_eq n : 0 <= n < 65536 -> complement n = 65535 - n.
Proof.
  intros Hn. unfold complement. rewrite land_low, Z.mod_small by lia. unfold Z.lnot, u16.
  symmetry. apply (Z.mod_unique _ _ (-1)); lia.
Qed.

Lemma inet_chksum_eq l : bytes l -> Z.of_nat (length l) < 131071 -> inet_chksum l = 65535 - ones (host_sum l).
Proof.
  intros Hl Hn. unfold inet_chksum. rewrite chksum_host by done. pose proof (ones_range (host_sum l)).
  rewrite (fold_all_ones _ (ones (host_sum l))); [|lia|apply rep_refl; lia].
  pose proof (ones_range (ones (host_sum l))). rewrite complement_eq by lia. f_equal. apply ones_eq, ones_rep. by apply host_nonneg.
Qed.

(** Data that ends where a word ends is summed on its own. *)
Lemma host_app_even l l' : is_odd l = false -> host_sum (l ++ l') = host_sum l + host_sum l'.
Proof.
  induction l as [|a|a b l IH] using pairs_ind; [done|done|]. intros Ho. cbn [app host_sum]. rewrite IH; [lia|].
  unfold is_odd in *. replace (Z.of_nat (length (a :: b :: l))) with (Z.of_nat (length l) + 1 * 2) in Ho by (simpl; lia).
  by rewrite Z.mod_add in Ho.
Qed.

(** From the sum of the data to the checksum with the pseudo header. *)
Lemma pseudo_end l src dest proto proto_len :
  bytes l -> header_ok src dest proto proto_len -> Z.of_nat (length l) < 131000 ->
  complement (fold_all (pseudo_header (ones (host_sum l)) src dest proto proto_len)) =
  inet_chksum (pseudo_bytes src dest proto proto_len ++ l).
Proof.
  intros Hl Hh Hn. pose proof (ones_range (host_sum l)). pose proof (pseudo_bytes_ok _ _ _ _ Hh) as Hp.
  destruct (pseudo_header_sum (ones (host_sum l)) src dest proto proto_len) as [-> Hlt]; [lia|done|].
  rewrite inet_chksum_eq; [|by apply bytes_app|rewrite length_app; change (length (pseudo_bytes _ _ _ _)) with 12%nat; lia].
  rewrite (fold_all_ones _ (host_sum (pseudo_bytes src dest proto proto_len ++ l))); [|done|].
  - pose proof (ones_range (host_sum (pseudo_bytes src dest proto proto_len ++ l))). apply complement_eq. lia.
  - rewrite host_app_even by done. rewrite Z.add_comm. apply rep_add; [apply rep_refl; by apply host_nonneg|].
    apply ones_rep. by apply host_nonneg.
Qed.

(** The loop over part of a chain. *)
Lemma partial_loop_stop chain acc swapped : partial_loop chain 0 acc swapped tt = Done (acc, swapped) tt.
Proof. by destruct chain. Qed.

Lemma partial_loop_summed chain n pre acc :
  chain_ok chain -> bytes pre -> summed pre acc -> 0 <= n < 32767 ->
  exists acc' swapped, partial_loop chain n acc (is_odd pre) tt = Done (acc', swapped) tt /\
    (if swapped then swap_bytes acc' else acc') = ones (host_sum (pre ++ take (Z.to_nat n) (concat chain))).
Proof.
  intros Hc. revert n pre acc. induction Hc as [|q chain [Hq Hn] Hc IH]; intros n pre acc Hpre Hs Hlen; cbn [partial_loop concat].
  { exists acc, (is_odd pre). rewrite take_nil, app_nil_r. split; [done|by apply summed_end]. }
  destruct (Z.ltb_spec 0 n); cbn [negb].
  2: { exists acc, (is_odd pre). replace (Z.to_nat n) with O by lia. rewrite take_0, app_nil_r. split; [done|by apply summed_end]. }
  assert (Hu : u16 (n - Z.min (Z.of_nat (length q)) n) = n - Z.min (Z.of_nat (length q)) n) by (apply Z.mod_small; lia).
  cbv zeta. rewrite Hu, (proj2 (Z.ltb_lt _ _)) by lia. cbv beta. rewrite take_app.
  destruct (Z.leb_spec (Z.of_nat (length q)) n) as [Hle|Hgt].
  - rewrite Z.min_l, Nat2Z.id, firstn_all by done. pose proof (summed_step pre q acc Hpre Hq Hn Hs) as Hstep. cbv zeta in Hstep.
    destruct (IH (n - Z.of_nat (length q)) (pre ++ q) _ (bytes_app _ _ Hpre Hq) Hstep) as (acc' & sw & He & Hend); [lia|].
    exists acc', sw. rewrite (take_ge q), app_assoc by lia. replace (Z.to_nat n - length q)%nat with (Z.to_nat (n - Z.of_nat (length q))) by lia.
    split; [|done]. rewrite <- He, is_odd_app. by destruct (_ =? 0).
  - rewrite Z.min_r, Z.sub_diag by lia. replace (Z.to_nat n - length q)%nat with O by lia. rewrite take_0, app_nil_r.
    assert (Hq' : bytes (take (Z.to_nat n) q)) by by apply Forall_take.
    destruct (summed_add pre (take (Z.to_nat n) q) acc) as [Hrange Hr]; [done|done|rewrite length_take; lia|done|].
    set (acc1 := fold_all _) in *. pose proof (host_nonneg _ (bytes_app _ _ Hpre Hq')) as H0.
    pose proof (turn_back pre acc1 _ Hrange H0 Hr) as Hend.
    destruct (_ =? 0); eexists _, _; (split; [apply partial_loop_stop|]); [done|].
    rewrite <- Hend. destruct (is_odd pre); cbn [negb]; [done|]. by apply swap_swap.
Qed.

(** Without buffers of odd length nothing is swapped. *)
Lemma pbuf_loop_even chain acc : Forall (fun q => is_odd q = false) chain -> pbuf_loop chain acc false = pseudo_loop chain acc false.
Proof.
  intros Hc. revert acc. induction Hc as [|q chain Hq Hc IH]; intros acc; [done|]. cbn [pbuf_loop pseudo_loop]. cbv zeta.
  unfold is_odd in Hq. apply negb_false_iff in Hq. rewrite Hq. apply IH.
Qed.

Lemma pbuf_even chain :
  chain_ok chain -> Forall (fun q => is_odd q = false) chain -> Z.of_nat (length (concat chain)) < 65536 ->
  inet_chksum_pbuf chain = inet_chksum (concat chain).
Proof.
  intros Hc He Hn. pose proof (concat_bytes _ Hc) as Hb. rewrite inet_chksum_eq by (done || lia). unfold inet_chksum_pbuf.
  rewrite pbuf_loop_even by done. pose proof (chain_sum chain Hc) as Hs. destruct (pseudo_loop chain 0 false) as [acc sw].
  rewrite Hs. pose proof (ones_range (host_sum (concat chain))). apply complement_eq. lia.
Qed.

(** A buffer of one byte already has another checksum than its byte. *)
Lemma pbuf_odd_differs : inet_chksum_pbuf [[1]] = 65279 /\ inet_chksum [1] = 65534.
Proof. by vm_compute. Qed.

(** ** Theorems *)

(** C35: The three versions of the sum are the same function of the data, at
    whatever address the data is; they are the sum of its 16-bit words with the
    carries added back. *)
Theorem checksum_versions_agree l addr :
  bytes l -> Z.of_nat (length l) < 65536 ->
  lwip_standard_chksum l = swap_bytes (ones (word_sum l)) /\
  lwip_standard_chksum2 addr l = lwip_standard_chksum l /\
  lwip_standard_chksum3 addr l = lwip_standard_chksum l.
Proof.
  intros Hl Hn. split; [apply chksum_value; [done|lia]|]. rewrite (chksum_host l) by (done || lia).
  split; [apply chksum2_host; [done|lia]|by apply chksum3_host].
Qed.

(** C34: The checksum of TCP and UDP over a chain of buffers, however the packet is
    cut into buffers, is the checksum of the pseudo header and the packet in one
    piece; the partial one is that of its first bytes.  The checksum of ICMP and
    IGMP over a chain is that of the packet when all buffers have even lengths. *)
Theorem chain_checksum chain src dest proto proto_len chksum_len :
  chain_ok chain -> Z.of_nat (length (concat chain)) < 65536 -> header_ok src dest proto proto_len -> 0 <= chksum_len < 32767 ->
  inet_chksum_pseudo chain src dest proto proto_len = inet_chksum (pseudo_bytes src dest proto proto_len ++ concat chain) /\
  inet_chksum_pseudo_partial chain src dest proto proto_len chksum_len tt =
    Done (inet_chksum (pseudo_bytes src dest proto proto_len ++ take (Z.to_nat chksum_len) (concat chain))) tt /\
  (Forall (fun q => is_odd q = false) chain -> inet_chksum_pbuf chain = inet_chksum (concat chain)).
Proof.
  intros Hc Hn Hh Hlen. pose proof (concat_bytes _ Hc) as Hb. split; [|split; [|intros He; by apply pbuf_even]].
  - rewrite <- pseudo_end by (done || lia). rewrite <- (chain_sum chain Hc). unfold inet_chksum_pseudo.
    by destruct (pseudo_loop chain 0 false).
  - destruct (partial_loop_summed chain chksum_len [] 0 Hc) as (acc & sw & He & Hend); [constructor|apply summed_nil|done|].
    unfold inet_chksum_pseudo_partial. change false with (is_odd []). unfold mbind, M_bind. rewrite He. cbv beta iota.
    rewrite Hend. cbn [app]. rewrite pseudo_end; [done|by apply Forall_take|done|rewrite length_take; lia].
Qed.

(** C36: A packet into which its checksum has been written, at an even offset where
    there was zero, has the checksum zero, which is what a receiver tests. *)
Theorem checksum_verifies pre post :
  bytes pre -> bytes post -> is_odd pre = false -> Z.of_nat (length pre + length post) < 65534 ->
  inet_chksum (pre ++ bytes16 (inet_chksum (pre ++ bytes16 0 ++ post)) ++ post) = 0.
Proof.
  intros Hpre Hpost Ho Hn. assert (Hall : forall c, bytes (pre ++ bytes16 c ++ post)).
  { intros c. apply bytes_app; [done|]. apply bytes_app; [apply bytes16_ok|done]. }
  assert (Hlen : forall c, Z.of_nat (length (pre ++ bytes16 c ++ post)) < 131071) by (intros c; rewrite !length_app; simpl; lia).
  assert (Hsum : forall c, 0 <= c < 65536 -> host_sum (pre ++ bytes16 c ++ post) = c + (host_sum pre + host_sum post)).
  { intros c Hc. rewrite host_app_even, host_bytes16 by done. lia. }
  rewrite !inet_chksum_eq by done. rewrite (Hsum 0), Z.add_0_l by lia. set (s := host_sum pre + host_sum post).
  assert (Hs : 0 <= s) by (unfold s; pose proof (host_nonneg _ Hpre); pose proof (host_nonneg _ Hpost); lia).
  pose proof (ones_range s). rewrite Hsum by lia. fold s.
  enough (65535 = ones (65535 - ones s + s)) by lia. apply rep_ones; [|lia].
  destruct (ones_rep s Hs) as (_ & _ & [k Hk] & Hz). split_and!; [lia|lia|exists (k); lia|lia].
Qed.

(** ** Runs *)

Definition demo_packet : list Z := [69; 0; 1; 2; 255; 254; 17].

Lemma checksum_versions_agree_witness :
  lwip_standard_chksum2 1001 demo_packet = 343 /\ lwip_standard_chksum3 1002 demo_packet = 343.
Proof.
  assert (Hb : bytes demo_packet) by (repeat constructor; lia).
  assert (Hn : Z.of_nat (length demo_packet) < 65536) by (simpl; lia).
  assert (Hv : lwip_standard_chksum demo_packet = 343) by (vm_compute; reflexivity).
  destruct (checksum_versions_agree demo_packet 1001 Hb Hn) as (_ & H2 & _).
  destruct (checksum_versions_agree demo_packet 1002 Hb Hn) as (_ & _ & H3).
  rewrite H2, H3. split; exact Hv.
Defined.

Definition demo_chain : list (list Z) := [[69; 0; 1]; [2; 255]; [254; 17]].

Lemma chain_checksum_witness :
  inet_chksum_pseudo demo_chain 16777343 16777343 17 7 = inet_chksum (pseudo_bytes 16777343 16777343 17 7 ++ demo_packet) /\
  inet_chksum_pseudo_partial demo_chain 16777343 16777343 17 7 4 tt =
    Done (inet_chksum (pseudo_bytes 16777343 16777343 17 7 ++ [69; 0; 1; 2])) tt.
Proof.
  assert (Hc : chain_ok demo_chain) by (repeat constructor; simpl; lia).
  assert (Hn : Z.of_nat (length (concat demo_chain)) < 65536) by (simpl; lia).
  assert (Hh : header_ok 16777343 16777343 17 7) by (split; lia).
  assert (Hl : 0 <= 4 < 32767) by lia.
  destruct (chain_checksum demo_chain 16777343 16777343 17 7 4 Hc Hn Hh Hl) as (H1 & H2 & _).
  split; [exact H1|exact H2].
Defined.

Lemma checksum_verifies_witness :
  inet_chksum ([69; 0] ++ bytes16 (inet_chksum ([69; 0] ++ bytes16 0 ++ [255; 254; 17])) ++ [255; 254; 17]) = 0.
Proof.
  apply (checksum_verifies [69; 0] [255; 254; 17]); [repeat constructor; lia|repeat constructor; lia|reflexivity|simpl; lia].
Defined.
