(* ===== verification/InetAddr.v ===== *)
(** * Internet addresses as text

    [lwip/src/core/ipv4/inet.c]: the numbers-and-dots notation.  A C string is the
    list of its characters without the zero at the end; an address is the 32-bit
    number that the machine, which is little-endian, has in memory. *)

From S2P Require Import Prelude NetChecksum.

Definition INADDR_NONE : Z := 2 ^ 32 - 1.

(** ** Characters *)

Definition in_range (c lo up : Z) : bool := (lo <=? u8 c) && (u8 c <=? up).
Definition isprint (c : Z) : bool := in_range c 32 127.
Definition isdigit (c : Z) : bool := in_range c 48 57.
Definition isxdigit (c : Z) : bool := isdigit c || in_range c 97 102 || in_range c 65 70.
Definition islower (c : Z) : bool := in_range c 97 122.
Definition isspace (c : Z) : bool :=
  (c =? 32) || (c =? 12) || (c =? 10) || (c =? 13) || (c =? 9) || (c =? 11).
Definition dot : Z := 46.

(** ** Reading *)

(** The inner loop: digits of one number, and what is left of the string. *)
Fixpoint digits (base : Z) (cp : list Z) (val : Z) : Z * list Z :=
  match cp with
  | c :: cp' =>
      if isdigit c then digits base cp' (u32 (val * base + (c - 48)))
      else if (base =? 16) && isxdigit c
      then digits base cp' (u32 (Z.lor (u32 (Z.shiftl val 4)) (c + 10 - (if islower c then 97 else 65))))
      else (val, cp)
  | [] => (val, cp)
  end.

Definition number (cp : list Z) : option (Z * list Z) :=
  match cp with
  | [] => None
  | c :: cp' =>
      if negb (isdigit c) then None
      else if c =? 48
      then
        match cp' with
        | x :: cp'' => if (x =? 120) || (x =? 88) then Some (digits 16 cp'' 0) else Some (digits 8 cp' 0)
        | [] => Some (digits 8 cp' 0)
        end
      else Some (digits 10 cp 0)
  end.

(** The outer loop; [room] is the number of elements left in [parts]. *)
Fixpoint collect (room : nat) (cp : list Z) (parts : list Z) : option (list Z * Z * list Z) :=
  match number cp with
  | None => None
  | Some (val, c :: cp') =>
      if c =? dot
      then match room with O => None | S room' => collect room' cp' (parts ++ [val]) end
      else Some (parts, val, c :: cp')
  | Some (val, []) => Some (parts, val, [])
  end.

Definition trailing_ok (cp : list Z) : bool :=
  match cp with c :: _ => isprint c && isspace c | [] => true end.

Definition shl (n k : Z) : Z := u32 (Z.shiftl n k).

Definition inet_aton (cp : list Z) : option Z :=
  match collect 3 cp [] with
  | None => None
  | Some (parts, val, rest) =>
      if negb (trailing_ok rest) then None
      else
        match parts with
        | [] => Some (htonl val)
        | [a] => if 16777215 <? val then None else Some (htonl (Z.lor val (shl a 24)))
        | [a; b] => if 65535 <? val then None else Some (htonl (Z.lor val (Z.lor (shl a 24) (shl b 16))))
        | a :: b :: c :: _ =>
            if 255 <? val then None
            else Some (htonl (Z.lor val (Z.lor (Z.lor (shl a 24) (shl b 16)) (shl c 8))))
        end
  end.

Definition inet_addr (cp : list Z) : Z := default INADDR_NONE (inet_aton cp).

(** ** Writing *)

(** The digits of a byte from the last to the first; a byte has three at most. *)
Fixpoint inv_digits (fuel : nat) (b : Z) : list Z :=
  match fuel with
  | O => []
  | S fuel' => (48 + b mod 10) :: (if b / 10 =? 0 then [] else inv_digits fuel' (b / 10))
  end.
Definition byte_text (b : Z) : list Z := reverse (inv_digits 3 b).

(** The dot after the last byte is overwritten with the zero. *)
Definition inet_ntoa (addr : Z) : list Z :=
  let text := concat ((fun b => byte_text b ++ [dot]) <$> bytes32 addr) in
  take (length text - 1) text.

(** ** One byte *)

Definition all_digits (l : list Z) : Prop := Forall (fun c => 48 <= c <= 57) l.
Definition decimal (l : list Z) (v : Z) : Z := foldl (fun v c => v * 10 + (c - 48)) v l.

(** The text is not a digit further. *)
Definition stops (rest : list Z) : Prop := match rest with c :: _ => c = dot | [] => True end.

Lemma isdigit_digit c : 48 <= c <= 57 -> isdigit c = true.
Proof. intros Hc. unfold isdigit, in_range, u8. rewrite Z.mod_small by lia. lia. Qed.

Lemma digits_stop base rest v : stops rest -> digits base rest v = (v, rest).
Proof. destruct rest as [|c rest]; [done|]. intros ->. cbn [digits]. change (isdigit dot) with false. change (isxdigit dot) with false. by rewrite andb_false_r. Qed.

Lemma digits_decimal l rest v :
  all_digits l -> stops rest -> 0 <= v -> (v + 1) * 10 ^ Z.of_nat (length l) <= 2 ^ 32 ->
  digits 10 (l ++ rest) v = (decimal l v, rest).
Proof.
  intros Hl Hs. revert v. induction Hl as [|c l Hc Hl IH]; intros v Hv Hb; [by apply digits_stop|].
  cbn [app digits]. rewrite isdigit_digit by done. cbn [length] in Hb. rewrite Nat2Z.inj_succ, Z.pow_succ_r in Hb by lia.
  assert (0 < 10 ^ Z.of_nat (length l)) by (apply Z.pow_pos_nonneg; lia).
  rewrite u32_small by nia. apply IH; [lia|nia].
Qed.

(** The text of a byte: digits, without a leading zero unless it is zero. *)
Definition text_ok (b : Z) : bool :=
  let l := byte_text b in
  forallb (fun c => (48 <=? c) && (c <=? 57)) l && (decimal l 0 =? b) && (Z.of_nat (length l) <=? 3) &&
  match l with [] => false | c :: l' => negb (c =? 48) || bool_decide (l' = []) end.

Lemma all_texts_ok : forallb text_ok (seqZ 0 256) = true.
Proof. by vm_compute. Qed.

Lemma text_spec b :
  0 <= b < 256 -> exists c l, byte_text b = c :: l /\ all_digits (c :: l) /\ decimal (c :: l) 0 = b /\
    Z.of_nat (length (c :: l)) <= 3 /\ (c = 48 -> l = []).
Proof.
  intros Hb. pose proof all_texts_ok as Hall. rewrite forallb_forall in Hall. specialize (Hall b).
  rewrite <- list_elem_of_In, elem_of_seqZ in Hall. specialize (Hall ltac:(lia)). unfold text_ok in Hall.
  rewrite !andb_true_iff in Hall. destruct Hall as [[[Hd Hv] Hn] Hz]. destruct (byte_text b) as [|c l] eqn:He; [done|].
  exists c, l. split; [done|]. split; [|split; [lia|split; [lia|]]].
  - apply Forall_forall. intros x Hx. rewrite forallb_forall in Hd. specialize (Hd x). rewrite <- list_elem_of_In in Hd. specialize (Hd Hx). lia.
  - intros ->. simpl in Hz. by apply bool_decide_eq_true_1 in Hz.
Qed.

Lemma number_text b rest : 0 <= b < 256 -> stops rest -> number (byte_text b ++ rest) = Some (b, rest).
Proof.
  intros Hb Hs. destruct (text_spec b Hb) as (c & l & -> & Hd & Hv & Hn & Hz). pose proof Hd as [Hc _]%Forall_cons.
  unfold number. cbn [app]. rewrite isdigit_digit by done. cbn [negb]. destruct (Z.eqb_spec c 48) as [->|Hne].
  - rewrite (Hz eq_refl) in *. cbn [app]. unfold decimal in Hv. simpl in Hv. subst b. destruct rest as [|x rest]; [done|].
    simpl in Hs. subst x. change ((dot =? 120) || (dot =? 88)) with false. cbv iota. by rewrite (digits_stop 8 (dot :: rest)).
  - change (c :: l ++ rest) with ((c :: l) ++ rest). rewrite digits_decimal; [by rewrite Hv|done|done|lia|].
    assert (10 ^ Z.of_nat (length (c :: l)) <= 10 ^ 3) by (apply Z.pow_le_mono_r; lia). lia.
Qed.

(** ** Byte order *)

(** Four bytes, the first one lowest. *)
Definition join4 (b0 b1 b2 b3 : Z) : Z := b0 + b1 * 2 ^ 8 + b2 * 2 ^ 16 + b3 * 2 ^ 24.

Lemma land_field n k : 0 <= k -> Z.land n (Z.shiftl 255 k) = (n / 2 ^ k) mod 256 * 2 ^ k.
Proof.
  intros Hk. rewrite <- (land_byte (n / 2 ^ k)), <- Z.shiftr_div_pow2, <- Z.shiftl_mul_pow2 by done.
  rewrite Z.shiftl_land. apply Z.bits_inj'. intros i Hi. rewrite !Z.land_spec.
  destruct (Z.ltb_spec i k); [rewrite !Z.shiftl_spec_low by lia; by rewrite andb_false_r|]. rewrite !Z.shiftl_spec, Z.shiftr_spec by lia.
  by replace (i - k + k) with i by lia.
Qed.

Lemma lor4 b0 b1 b2 b3 :
  0 <= b0 < 256 -> 0 <= b1 < 256 -> 0 <= b2 < 256 ->
  Z.lor (Z.lor (Z.lor (b3 * 2 ^ 24) (b2 * 2 ^ 16)) (b1 * 2 ^ 8)) b0 = join4 b0 b1 b2 b3.
Proof.
  intros H0 H1 H2. unfold join4.
  assert (H01 : 0 <= b0 + b1 * 2 ^ 8 < 2 ^ 16) by lia. assert (H02 : 0 <= b0 + b1 * 2 ^ 8 + b2 * 2 ^ 16 < 2 ^ 24) by lia.
  rewrite <- !Z.lor_assoc. rewrite (Z.lor_comm (b1 * 2 ^ 8)), <- (Z.shiftl_mul_pow2 b1), (lor_disjoint_add b1 b0 8) by lia.
  rewrite (Z.lor_comm (b2 * 2 ^ 16)), <- (Z.shiftl_mul_pow2 b2), (lor_disjoint_add b2 _ 16) by lia.
  rewrite (Z.lor_comm (b3 * 2 ^ 24)), <- (Z.shiftl_mul_pow2 b3), (lor_disjoint_add b3 _ 24) by lia.
  by rewrite ?Z.shiftl_mul_pow2 by lia.
Qed.

Lemma join4_range b0 b1 b2 b3 :
  0 <= b0 < 256 -> 0 <= b1 < 256 -> 0 <= b2 < 256 -> 0 <= b3 < 256 -> 0 <= join4 b0 b1 b2 b3 < 2 ^ 32.
Proof. unfold join4. lia. Qed.

Lemma join4_byte b0 b1 b2 b3 :
  0 <= b0 < 256 -> 0 <= b1 < 256 -> 0 <= b2 < 256 -> 0 <= b3 < 256 ->
  let n := join4 b0 b1 b2 b3 in
  n mod 256 = b0 /\ (n / 2 ^ 8) mod 256 = b1 /\ (n / 2 ^ 16) mod 256 = b2 /\ (n / 2 ^ 24) mod 256 = b3.
Proof.
  intros H0 H1 H2 H3. unfold join4. cbv zeta. split_and!.
  - symmetry. apply (Z.mod_unique _ _ (b1 + b2 * 2 ^ 8 + b3 * 2 ^ 16)); lia.
  - rewrite <- (Z.div_unique _ (2 ^ 8) (b1 + b2 * 2 ^ 8 + b3 * 2 ^ 16) b0) by lia.
    symmetry. apply (Z.mod_unique _ _ (b2 + b3 * 2 ^ 8)); lia.
  - rewrite <- (Z.div_unique _ (2 ^ 16) (b2 + b3 * 2 ^ 8) (b0 + b1 * 2 ^ 8)) by lia.
    symmetry. apply (Z.mod_unique _ _ b3); lia.
  - rewrite <- (Z.div_unique _ (2 ^ 24) b3 (b0 + b1 * 2 ^ 8 + b2 * 2 ^ 16)) by lia. apply Z.mod_small. lia.
Qed.

Lemma htonl_join4 b0 b1 b2 b3 :
  0 <= b0 < 256 -> 0 <= b1 < 256 -> 0 <= b2 < 256 -> 0 <= b3 < 256 -> htonl (join4 b0 b1 b2 b3) = join4 b3 b2 b1 b0.
Proof.
  intros H0 H1 H2 H3. destruct (join4_byte b0 b1 b2 b3 H0 H1 H2 H3) as (E0 & E1 & E2 & E3). unfold htonl.
  change 65280 with (Z.shiftl 255 8). change 16711680 with (Z.shiftl 255 16). change 4278190080 with (Z.shiftl 255 24).
  rewrite land_byte, !land_field, E0, E1, E2, E3 by lia. rewrite !Z.shiftl_mul_pow2, !Z.shiftr_div_pow2 by lia.
  replace (b1 * 2 ^ 8 * 2 ^ 8) with (b1 * 2 ^ 16) by lia.
  replace (b2 * 2 ^ 16 / 2 ^ 8) with (b2 * 2 ^ 8) by (apply Z.div_unique_exact; lia).
  replace (b3 * 2 ^ 24 / 2 ^ 24) with b3 by (apply Z.div_unique_exact; lia).
  rewrite lor4 by done. apply u32_small. by apply join4_range.
Qed.

Lemma address_bytes a :
  0 <= a < 2 ^ 32 -> exists b0 b1 b2 b3, 0 <= b0 < 256 /\ 0 <= b1 < 256 /\ 0 <= b2 < 256 /\ 0 <= b3 < 256 /\
    a = join4 b0 b1 b2 b3 /\ bytes32 a = [b0; b1; b2; b3].
Proof.
  intros Ha. exists (a mod 65536 mod 256), (a mod 65536 / 256 mod 256), (a / 65536 mod 256), (a / 65536 / 256 mod 256).
  pose proof (Z.mod_pos_bound (a mod 65536) 256). pose proof (Z.mod_pos_bound (a mod 65536 / 256) 256).
  pose proof (Z.mod_pos_bound (a / 65536) 256). pose proof (Z.mod_pos_bound (a / 65536 / 256) 256).
  split_and!; try lia; [|done]. unfold join4. pose proof (Z.div_mod a 65536). pose proof (Z.mod_pos_bound a 65536).
  pose proof (Z.div_mod (a mod 65536) 256). pose proof (Z.div_mod (a / 65536) 256). pose proof (high_half a Ha).
  rewrite (Z.mod_small (a mod 65536 / 256)), (Z.mod_small (a / 65536 / 256)); [lia|..];
    (split; [apply Z.div_pos; lia|apply Z.div_lt_upper_bound; lia]).
Qed.

(** ** Theorems *)

(** C37: An address that is written in numbers-and-dots notation is read back as it
    was, by [inet_aton] and by [inet_addr]. *)
Theorem inet_text_roundtrip a : 0 <= a < 2 ^ 32 -> inet_aton (inet_ntoa a) = Some a /\ inet_addr (inet_ntoa a) = a.
Proof.
  intros Ha. enough (Haton : inet_aton (inet_ntoa a) = Some a) by (unfold inet_addr; by rewrite Haton).
  destruct (address_bytes a Ha) as (b0 & b1 & b2 & b3 & H0 & H1 & H2 & H3 & -> & Hb). unfold inet_ntoa. rewrite Hb.
  cbn [fmap list_fmap concat]. rewrite app_nil_r. set (t3 := byte_text b3).
  assert (Htake : forall l : list Z, take (length (l ++ t3 ++ [dot]) - 1) (l ++ t3 ++ [dot]) = l ++ t3).
  { intros l. rewrite !app_assoc. rewrite length_app. simpl. rewrite Nat.add_sub. by rewrite take_app_length. }
  rewrite !app_assoc. rewrite <- (app_assoc _ t3). rewrite Htake. rewrite <- !app_assoc.
  unfold inet_aton. cbn [collect]. rewrite (number_text b0) by done. cbn [app]. rewrite Z.eqb_refl.
  cbn [collect]. rewrite (number_text b1) by done. cbn [app]. rewrite Z.eqb_refl.
  cbn [collect]. rewrite (number_text b2) by done. cbn [app]. rewrite Z.eqb_refl.
  unfold t3. rewrite <- (app_nil_r (byte_text b3)). cbn [collect]. rewrite (number_text b3) by done.
  cbn [trailing_ok negb]. rewrite (proj2 (Z.ltb_ge _ _)) by lia. f_equal. unfold shl.
  rewrite !Z.shiftl_mul_pow2, !u32_small by lia. rewrite Z.lor_comm, lor4 by done. by apply htonl_join4.
Qed.

(** The parts before the last one are not bounded, and the last one is taken
    modulo [2^32]: more texts than there are addresses are accepted. *)
Lemma inet_aton_spills :
  inet_aton [49; 46; 50; 46; 51; 48; 48; 46; 52] = inet_aton [49; 46; 51; 46; 52; 52; 46; 52] /\
  inet_aton [52; 50; 57; 52; 57; 54; 55; 50; 57; 55] = inet_aton [49].
Proof. by vm_compute. Qed.

Lemma inet_text_roundtrip_witness :
  inet_ntoa 33557247 = [50; 53; 53; 46; 49; 48; 46; 48; 46; 50] /\ inet_aton [50; 53; 53; 46; 49; 48; 46; 48; 46; 50] = Some 33557247.
Proof.
  assert (Ht : inet_ntoa 33557247 = [50; 53; 53; 46; 49; 48; 46; 48; 46; 50]) by (vm_compute; reflexivity).
  split; [exact Ht|]. rewrite <- Ht. apply (inet_text_roundtrip 33557247). lia.
Defined.
