(* ===== verification/KconfExpr.v ===== *)
(** * Dependency expressions of the configuration tool

    [common/kconfig/expr.c], [expr.h] and what it uses of [symbol.c]: conditions
    over symbols with three values, and the transformations that simplify them.

    A condition is built from the nodes below; [E_CHOICE] and [E_RANGE] nodes
    only occur in the lists of a choice and of a range, which these functions are
    not applied to.  Trees own their nodes, so [expr_copy] is the identity on
    values and [expr_free] does nothing to them. *)

From S2P Require Import Prelude.

(** ** Values and symbols *)

Inductive tristate : Type := Tno | Tmod | Tyes.

#[export] Instance tristate_eq_dec : EqDecision tristate.
Proof. solve_decision. Defined.

Definition tri_val (t : tristate) : Z := match t with Tno => 0 | Tmod => 1 | Tyes => 2 end.
Definition E_or (dep1 dep2 : tristate) : tristate := if tri_val dep2 <? tri_val dep1 then dep1 else dep2.
Definition E_and (dep1 dep2 : tristate) : tristate := if tri_val dep1 <? tri_val dep2 then dep1 else dep2.
Definition E_not (dep : tristate) : tristate := match dep with Tno => Tyes | Tmod => Tmod | Tyes => Tno end.

Inductive symbol_type : Type := S_UNKNOWN | S_BOOLEAN | S_TRISTATE | S_INT | S_HEX | S_STRING | S_OTHER.

#[export] Instance symbol_type_eq_dec : EqDecision symbol_type.
Proof. solve_decision. Defined.

Definition SYMBOL_YES : Z := 1.
Definition SYMBOL_MOD : Z := 2.
Definition SYMBOL_NO : Z := 4.
Definition SYMBOL_CONST : Z := 7.
Definition SYMBOL_VALID : Z := 128.

Record symbol : Type := mkSymbol {
  sym_name : string;
  sym_type : symbol_type;
  sym_flags : Z;
  curr_val : string;
  curr_tri : tristate
}.

(** A symbol is known by its address. *)
Abbreviation sym := Z (only parsing).
Definition symbol_yes : sym := 1.
Definition symbol_mod : sym := 2.
Definition symbol_no : sym := 3.

Definition has_flags (s : symbol) (f : Z) : bool := negb (Z.land (sym_flags s) f =? 0).

Inductive expr_type : Type := E_OR | E_AND | E_NOT | E_EQUAL | E_UNEQUAL | E_SYMBOL.

#[export] Instance expr_type_eq_dec : EqDecision expr_type.
Proof. solve_decision. Defined.

Inductive expr : Type :=
| Or (left right : expr)
| And (left right : expr)
| Not (left : expr)
| Equal (left right : sym)
| Unequal (left right : sym)
| Symbol (left : sym).

#[export] Instance expr_eq_dec : EqDecision expr.
Proof. solve_decision. Defined.

Definition etype (e : expr) : expr_type :=
  match e with
  | Or _ _ => E_OR | And _ _ => E_AND | Not _ => E_NOT
  | Equal _ _ => E_EQUAL | Unequal _ _ => E_UNEQUAL | Symbol _ => E_SYMBOL
  end.
Definition is_type (t : expr_type) (e : expr) : bool := bool_decide (etype e = t).

(** [NULL] stands for the condition that always holds. *)
Definition expr_alloc_and (e1 e2 : option expr) : option expr :=
  match e1, e2 with None, _ => e2 | _, None => e1 | Some a, Some b => Some (And a b) end.
Definition expr_alloc_or (e1 e2 : option expr) : option expr :=
  match e1, e2 with None, _ => e2 | _, None => e1 | Some a, Some b => Some (Or a b) end.

Definition expr_is_yes (e : option expr) : bool :=
  match e with None => true | Some (Symbol s) => s =? symbol_yes | _ => false end.
Definition expr_is_no (e : option expr) : bool :=
  match e with Some (Symbol s) => s =? symbol_no | _ => false end.

Section Table.
Variable tab : sym -> symbol.

(** ** Evaluation

    The symbols have their values: where [SYMBOL_VALID] is set [sym_calc_value]
    returns at once. *)

Definition tri_string (t : tristate) : string := match t with Tno => "n" | Tmod => "m" | Tyes => "y" end.

Definition sym_get_string_value (s : sym) : string :=
  match sym_type (tab s) with
  | S_BOOLEAN | S_TRISTATE => tri_string (curr_tri (tab s))
  | _ => curr_val (tab s)
  end.

Definition same_string (s1 s2 : sym) : bool := String.eqb (sym_get_string_value s1) (sym_get_string_value s2).

Fixpoint calc_value (e : expr) : tristate :=
  match e with
  | Symbol s => curr_tri (tab s)
  | And l r => E_and (calc_value l) (calc_value r)
  | Or l r => E_or (calc_value l) (calc_value r)
  | Not l => E_not (calc_value l)
  | Equal s1 s2 => if same_string s1 s2 then Tyes else Tno
  | Unequal s1 s2 => if same_string s1 s2 then Tno else Tyes
  end.
Definition expr_calc_value (e : option expr) : tristate :=
  match e with None => Tyes | Some e => calc_value e end.

(** ** Constants *)

Definition is_sym (s : sym) (e : expr) : bool := match e with Symbol s' => s' =? s | _ => false end.

Fixpoint expr_eliminate_yn (e : expr) : expr :=
  match e with
  | And l r =>
      let l := expr_eliminate_yn l in
      let r := expr_eliminate_yn r in
      if is_sym symbol_no l then Symbol symbol_no
      else if is_sym symbol_yes l then r
      else if is_sym symbol_no r then Symbol symbol_no
      else if is_sym symbol_yes r then l
      else And l r
  | Or l r =>
      let l := expr_eliminate_yn l in
      let r := expr_eliminate_yn r in
      if is_sym symbol_no l then r
      else if is_sym symbol_yes l then Symbol symbol_yes
      else if is_sym symbol_no r then l
      else if is_sym symbol_yes r then Symbol symbol_yes
      else Or l r
  | _ => e
  end.

(** [FOO!=n] becomes [FOO] for a tristate symbol. *)
Fixpoint expr_trans_bool (e : expr) : expr :=
  match e with
  | And l r => And (expr_trans_bool l) (expr_trans_bool r)
  | Or l r => Or (expr_trans_bool l) (expr_trans_bool r)
  | Not l => Not (expr_trans_bool l)
  | Unequal s1 s2 =>
      if bool_decide (sym_type (tab s1) = S_TRISTATE) && (s2 =? symbol_no) then Symbol s1 else e
  | _ => e
  end.

(** ** Equality

    [expr_eq] and [__expr_eliminate_eq] call each other; the second takes the
    first as an argument.  [trans_count] is set back by [expr_eq]; the count of the
    elimination itself is returned.  [None] is out of fuel: the depth of the calls
    is bounded by the size of the trees. *)

Fixpoint size (e : expr) : nat :=
  match e with
  | And l r | Or l r => S (size l + size r)
  | Not l => S (size l)
  | _ => 1
  end.

Definition node (t : expr_type) (l r : expr) : expr := match t with E_AND => And l r | _ => Or l r end.
Definition unit_of (t : expr_type) : sym := match t with E_AND => symbol_yes | _ => symbol_no end.

(** The children of a node of type [t]. *)
Definition split (t : expr_type) (e : expr) : option (expr * expr) :=
  match t, e with E_AND, And l r => Some (l, r) | E_OR, Or l r => Some (l, r) | _, _ => None end.

Definition same_const (e1 e2 : expr) : bool :=
  match e1, e2 with
  | Symbol s1, Symbol s2 => (s1 =? s2) && has_flags (tab s1) (Z.lor SYMBOL_YES SYMBOL_NO)
  | _, _ => false
  end.
Definition same_symbol (e1 e2 : expr) : bool :=
  match e1, e2 with Symbol s1, Symbol s2 => s1 =? s2 | _, _ => false end.

(** [__expr_eliminate_eq] *)
Fixpoint eliminate_eq (eq : expr -> expr -> option bool) (fuel : nat) (t : expr_type) (e1 e2 : expr)
  : option (expr * expr * Z) :=
  match fuel with
  | O => None
  | S fuel' =>
      match split t e1 with
      | Some (l, r) =>
          '(l', e2', n) ← eliminate_eq eq fuel' t l e2;
          '(r', e2'', m) ← eliminate_eq eq fuel' t r e2';
          Some (node t l' r', e2'', n + m)
      | None =>
          match split t e2 with
          | Some (l, r) =>
              '(e1', l', n) ← eliminate_eq eq fuel' t e1 l;
              '(e1'', r', m) ← eliminate_eq eq fuel' t e1' r;
              Some (e1'', node t l' r', n + m)
          | None =>
              if same_const e1 e2 then Some (e1, e2, 0)
              else
                b ← eq e1 e2;
                Some (if b : bool then (Symbol (unit_of t), Symbol (unit_of t), 1) else (e1, e2, 0))
          end
      end
  end.

Fixpoint expr_eq (fuel : nat) (e1 e2 : expr) : option bool :=
  match fuel with
  | O => None
  | S fuel' =>
      match e1, e2 with
      | Equal a b, Equal c d | Unequal a b, Unequal c d => Some ((a =? c) && (b =? d))
      | Symbol a, Symbol c => Some (a =? c)
      | Not a, Not b => expr_eq fuel' a b
      | And _ _, And _ _ | Or _ _, Or _ _ =>
          '(a, b, _) ← eliminate_eq (expr_eq fuel') (size e1 + size e2) (etype e1) e1 e2;
          Some (same_symbol (expr_eliminate_yn a) (expr_eliminate_yn b))
      | _, _ => Some false
      end
  end.

Definition eq_fuel (e1 e2 : expr) : nat := size e1 + size e2.
Definition exprs_equal (e1 e2 : expr) : option bool := expr_eq (eq_fuel e1 e2) e1 e2.

Definition is_chain (e : expr) : bool := is_type E_AND e || is_type E_OR e.

Definition elim (t : expr_type) (e1 e2 : expr) : option (expr * expr * Z) :=
  eliminate_eq exprs_equal (size e1 + size e2) t e1 e2.

Definition expr_eliminate_eq (e1 e2 : expr) : option (expr * expr) :=
  '(a, b, _) ← (if is_chain e1 then elim (etype e1) e1 e2 else Some (e1, e2, 0));
  '(c, d, _) ← (if negb (bool_decide (etype a = etype b)) && is_chain b then elim (etype b) a b else Some (a, b, 0));
  Some (expr_eliminate_yn c, expr_eliminate_yn d).

(** ** Joining two conditions *)

Definition leaf_sym (e : expr) : option sym :=
  match e with Equal a _ | Unequal a _ | Symbol a => Some a | _ => None end.

(** The symbol both conditions are about, when they are about one boolean or
    tristate symbol. *)
Definition join_sym (e1 e2 : expr) : option sym :=
  match (match e1 with Not x => leaf_sym x | _ => leaf_sym e1 end),
        (match e2 with Not (Symbol a) => Some a | _ => leaf_sym e2 end) with
  | Some sym1, Some sym2 =>
      if negb (sym1 =? sym2) then None
      else
        match sym_type (tab sym1) with
        | S_BOOLEAN | S_TRISTATE => Some sym1
        | _ => None
        end
  | _, _ => None
  end.

Definition equals (s : sym) (e : expr) : bool := match e with Equal _ r => r =? s | _ => false end.
Definition differs (s : sym) (e : expr) : bool := match e with Unequal _ r => r =? s | _ => false end.
Definition symbol_node (e : expr) : bool := match e with Symbol _ => true | _ => false end.
Definition not_symbol (e : expr) : bool := match e with Not (Symbol _) => true | _ => false end.
Definition either (p q : expr -> bool) (e1 e2 : expr) : bool := (p e1 && q e2) || (q e1 && p e2).
Definition is_tristate (s : sym) : bool := bool_decide (sym_type (tab s) = S_TRISTATE).
Definition is_boolean (s : sym) : bool := bool_decide (sym_type (tab s) = S_BOOLEAN).

Definition join_or_rules (s : sym) (e1 e2 : expr) : option expr :=
  if is_tristate s && either (equals symbol_yes) (equals symbol_mod) e1 e2 then Some (Unequal s symbol_no)
  else if is_tristate s && either (equals symbol_yes) (equals symbol_no) e1 e2 then Some (Unequal s symbol_mod)
  else if is_tristate s && either (equals symbol_mod) (equals symbol_no) e1 e2 then Some (Unequal s symbol_yes)
  else if is_boolean s && either not_symbol symbol_node e1 e2 then Some (Symbol symbol_yes)
  else None.

Definition expr_join_or (e1 e2 : expr) : option (option expr) :=
  match exprs_equal e1 e2 with
  | Some true => Some (Some e1)
  | Some false => Some (s ← join_sym e1 e2; join_or_rules s e1 e2)
  | None => None
  end.

(** [(a='b') && (a!='c')] with constants [b] and [c]. *)
Definition join_consts (s b c : sym) : option expr :=
  if has_flags (tab c) SYMBOL_CONST && has_flags (tab b) SYMBOL_CONST
  then Some (if negb (b =? c) then Equal s b else Symbol symbol_no)
  else None.

Definition join_tristate (s : sym) (e1 e2 : expr) : option expr :=
  match e1, e2 with
  | Equal _ b, Unequal _ c | Unequal _ c, Equal _ b => join_consts s b c
  | _, _ =>
      if either (differs symbol_yes) (differs symbol_no) e1 e2 then Some (Equal s symbol_mod)
      else if either (differs symbol_yes) (differs symbol_mod) e1 e2 then Some (Equal s symbol_no)
      else if either (differs symbol_mod) (differs symbol_no) e1 e2 then Some (Equal s symbol_yes)
      else None
  end.

Definition join_and_rules (s : sym) (e1 e2 : expr) : option expr :=
  if either symbol_node (equals symbol_yes) e1 e2 then Some (Equal s symbol_yes)
  else if either symbol_node (differs symbol_no) e1 e2 then Some (Symbol s)
  else if either symbol_node (differs symbol_mod) e1 e2 then Some (Equal s symbol_yes)
  else if is_tristate s then join_tristate s e1 e2
  else None.

Definition expr_join_and (e1 e2 : expr) : option (option expr) :=
  match exprs_equal e1 e2 with
  | Some true => Some (Some e1)
  | Some false => Some (s ← join_sym e1 e2; join_and_rules s e1 e2)
  | None => None
  end.

(** ** Negation normal form *)

Definition transform_leaf (e : expr) : expr :=
  match e with
  | Equal l r =>
      if negb (is_boolean l) then e
      else if r =? symbol_no then Not (Symbol l)
      else if r =? symbol_mod then Symbol symbol_no
      else if r =? symbol_yes then Symbol l
      else e
  | Unequal l r =>
      if negb (is_boolean l) then e
      else if r =? symbol_no then Symbol l
      else if r =? symbol_mod then Symbol symbol_yes
      else if r =? symbol_yes then Not (Symbol l)
      else e
  | _ => e
  end.

Fixpoint expr_transform (fuel : nat) (e : expr) : option expr :=
  match fuel with
  | O => None
  | S fuel' =>
      match e with
      | Equal _ _ | Unequal _ _ | Symbol _ => Some (transform_leaf e)
      | And l r => l' ← expr_transform fuel' l; r' ← expr_transform fuel' r; Some (And l' r')
      | Or l r => l' ← expr_transform fuel' l; r' ← expr_transform fuel' r; Some (Or l' r')
      | Not l =>
          l' ← expr_transform fuel' l;
          match l' with
          | Not a => expr_transform fuel' a
          | Equal a b => Some (Unequal a b)
          | Unequal a b => Some (Equal a b)
          | Or a b => expr_transform fuel' (And (Not a) (Not b))
          | And a b => expr_transform fuel' (Or (Not a) (Not b))
          | Symbol s =>
              Some (if s =? symbol_yes then Symbol symbol_no
                    else if s =? symbol_mod then Symbol symbol_mod
                    else if s =? symbol_no then Symbol symbol_yes
                    else Not (Symbol s))
          end
      end
  end.
Definition transform_fuel (e : expr) : nat := 3 * size e.
Definition transformed (e : expr) : option expr := expr_transform (transform_fuel e) e.

(** ** Common parts

    [expr_extract_eq] moves what the two chains share to [ep]; it returns [ep]
    and what is left of both. *)
Fixpoint expr_extract_eq (fuel : nat) (t : expr_type) (ep : option expr) (e1 e2 : expr)
  : option (option expr * expr * expr) :=
  match fuel with
  | O => None
  | S fuel' =>
      match split t e1 with
      | Some (l, r) =>
          '(ep1, l', e2') ← expr_extract_eq fuel' t ep l e2;
          '(ep2, r', e2'') ← expr_extract_eq fuel' t ep1 r e2';
          Some (ep2, node t l' r', e2'')
      | None =>
          match split t e2 with
          | Some (l, r) =>
              '(ep1, e1', l') ← expr_extract_eq fuel' t ep e1 l;
              '(ep2, e1'', r') ← expr_extract_eq fuel' t ep1 e1' r;
              Some (ep2, e1'', node t l' r')
          | None =>
              b ← exprs_equal e1 e2;
              Some (if b : bool
                    then (Some (match ep with Some e => node t e e1 | None => e1 end),
                          Symbol (unit_of t), Symbol (unit_of t))
                    else (ep, e1, e2))
          end
      end
  end.

(** [expr_extract_eq_and] and [expr_extract_eq_or] *)
Definition extract (t : expr_type) (e1 e2 : expr) : option (option expr * expr * expr) :=
  '(tmp, a, b) ← expr_extract_eq (size e1 + size e2) t None e1 e2;
  Some (match tmp with
        | Some _ => (tmp, expr_eliminate_yn a, expr_eliminate_yn b)
        | None => (tmp, a, b)
        end).
Definition expr_extract_eq_and (e1 e2 : expr) := extract E_AND e1 e2.
Definition expr_extract_eq_or (e1 e2 : expr) := extract E_OR e1 e2.

(** ** Duplicates

    [expr_eliminate_dups1(type, &e, &e)] walks one tree with two pointers and
    rewrites what they point to, so both are kept as paths from the root of the
    chain; the state is the tree and [trans_count].  The calls on [&e1, &e1] have
    both pointers in the subtree at [e1]: they run on that subtree. *)

Inductive dir : Type := Left | Right.

#[export] Instance dir_eq_dec : EqDecision dir.
Proof. solve_decision. Defined.

Fixpoint at_path (e : expr) (p : list dir) {struct p} : option expr :=
  match p, e with
  | [], _ => Some e
  | Left :: p, And l _ | Left :: p, Or l _ => at_path l p
  | Right :: p, And _ r | Right :: p, Or _ r => at_path r p
  | _, _ => None
  end.

Fixpoint put_path (e : expr) (p : list dir) (x : expr) {struct p} : expr :=
  match p, e with
  | [], _ => x
  | Left :: p, And l r => And (put_path l p x) r
  | Left :: p, Or l r => Or (put_path l p x) r
  | Right :: p, And l r => And l (put_path r p x)
  | Right :: p, Or l r => Or l (put_path r p x)
  | _, _ => e
  end.

Definition tree_state : Type := expr * Z.

(** A call on the subtree at [p]. *)
Definition on_subtree (p : list dir) (f : tree_state -> option tree_state) (s : tree_state) : option tree_state :=
  e ← at_path s.1 p;
  '(e', n) ← f (e, s.2);
  Some (put_path s.1 p e', n).

Definition join (t : expr_type) (e1 e2 : expr) : option (option expr) :=
  match t with E_OR => expr_join_or e1 e2 | E_AND => expr_join_and e1 e2 | _ => Some None end.

(** [e1 = the unit; e2 = tmp; trans_count++] when the two can be joined. *)
Definition join_at (t : expr_type) (p1 p2 : list dir) (s : tree_state) : option tree_state :=
  e1 ← at_path s.1 p1;
  e2 ← at_path s.1 p2;
  tmp ← join t e1 e2;
  Some (match tmp with
        | Some x => (put_path (put_path s.1 p1 (Symbol (unit_of t))) p2 x, s.2 + 1)
        | None => s
        end).

Fixpoint expr_eliminate_dups1 (fuel : nat) (t : expr_type) (p1 p2 : list dir) (s : tree_state) : option tree_state :=
  match fuel with
  | O => None
  | S fuel' =>
      e1 ← at_path s.1 p1;
      e2 ← at_path s.1 p2;
      if is_type t e1 then
        s ← expr_eliminate_dups1 fuel' t (p1 ++ [Left]) p2 s;
        expr_eliminate_dups1 fuel' t (p1 ++ [Right]) p2 s
      else if is_type t e2 then
        s ← expr_eliminate_dups1 fuel' t p1 (p2 ++ [Left]) s;
        expr_eliminate_dups1 fuel' t p1 (p2 ++ [Right]) s
      else if bool_decide (p1 = p2) then Some s
      else
        s ← (if is_chain e1 then on_subtree p1 (expr_eliminate_dups1 fuel' (etype e1) [] []) s else Some s);
        join_at t p1 p2 s
  end.

(** [(FOO || BAR) && (!FOO && !BAR) -> n] and its dual: [e1] goes when what its
    negation says is all part of [e2]. *)
Definition cancel_at (p1 p2 : list dir) (s : tree_state) : option tree_state :=
  e1 ← at_path s.1 p1;
  e2 ← at_path s.1 p2;
  tmp1 ← transformed (Not e1);
  match e1 with
  | Or _ _ =>
      '(_, tmp1, _) ← expr_extract_eq_and tmp1 e2;
      Some (if expr_is_yes (Some tmp1) then (put_path s.1 p1 (Symbol symbol_no), s.2 + 1) else s)
  | And _ _ =>
      '(_, tmp1, _) ← expr_extract_eq_or tmp1 e2;
      Some (if expr_is_no (Some tmp1) then (put_path s.1 p1 (Symbol symbol_yes), s.2 + 1) else s)
  | _ => Some s
  end.

Fixpoint expr_eliminate_dups2 (fuel : nat) (t : expr_type) (p1 p2 : list dir) (s : tree_state) : option tree_state :=
  match fuel with
  | O => None
  | S fuel' =>
      e1 ← at_path s.1 p1;
      e2 ← at_path s.1 p2;
      if is_type t e1 then
        s ← expr_eliminate_dups2 fuel' t (p1 ++ [Left]) p2 s;
        expr_eliminate_dups2 fuel' t (p1 ++ [Right]) p2 s
      else
        s ← (if is_type t e2 then
               s ← expr_eliminate_dups2 fuel' t p1 (p2 ++ [Left]) s;
               expr_eliminate_dups2 fuel' t p1 (p2 ++ [Right]) s
             else Some s);
        if bool_decide (p1 = p2) then Some s
        else
          e1 ← at_path s.1 p1;
          if is_chain e1 then
            s ← on_subtree p1 (expr_eliminate_dups2 fuel' (etype e1) [] []) s;
            cancel_at p1 p2 s
          else Some s
  end.

Definition dups_fuel (e : expr) : nat := size e * (size e + 3).

(** One round of the loop of [expr_eliminate_dups]. *)
Definition dups_round (e : expr) : option tree_state :=
  if is_chain e then
    s ← expr_eliminate_dups1 (dups_fuel e) (etype e) [] [] (e, 0);
    expr_eliminate_dups2 (dups_fuel s.1) (etype s.1) [] [] s
  else Some (e, 0).

Fixpoint dups_loop (fuel : nat) (e : expr) : option expr :=
  match fuel with
  | O => None
  | S fuel' =>
      '(e', n) ← dups_round e;
      if n =? 0 then Some e' else dups_loop fuel' (expr_eliminate_yn e')
  end.
Definition expr_eliminate_dups (e : option expr) : option (option expr) :=
  match e with
  | None => Some None
  | Some e => e' ← dups_loop (S (size e)) e; Some (Some e')
  end.

(** ** Queries *)

Fixpoint expr_contains_symbol (dep : expr) (s : sym) : bool :=
  match dep with
  | And l r | Or l r => expr_contains_symbol l s || expr_contains_symbol r s
  | Symbol a => a =? s
  | Equal a b | Unequal a b => (a =? s) || (b =? s)
  | Not l => expr_contains_symbol l s
  end.

Fixpoint expr_depends_symbol (dep : expr) (s : sym) : bool :=
  match dep with
  | And l r => expr_depends_symbol l s || expr_depends_symbol r s
  | Symbol a => a =? s
  | Equal a b => (a =? s) && ((b =? symbol_yes) || (b =? symbol_mod))
  | Unequal a b => (a =? s) && (b =? symbol_no)
  | _ => false
  end.

(** [(e) = s] with [eq], [(e) != s] without, as a condition on the symbols. *)
Definition negate_if (b : bool) (e : expr) : expr := if b then Not e else e.

Fixpoint expr_trans_compare (e : expr) (eq : bool) (s : sym) : option expr :=
  match e with
  | And l r =>
      e' ← (if s =? symbol_yes then a ← expr_trans_compare l true s; b ← expr_trans_compare r true s; Some (And a b)
            else if s =? symbol_no then a ← expr_trans_compare l true s; b ← expr_trans_compare r true s; Some (Or a b)
            else Some e);
      Some (negate_if (negb eq) e')
  | Or l r =>
      e' ← (if s =? symbol_yes then a ← expr_trans_compare l true s; b ← expr_trans_compare r true s; Some (Or a b)
            else if s =? symbol_no then a ← expr_trans_compare l true s; b ← expr_trans_compare r true s; Some (And a b)
            else Some e);
      Some (negate_if (negb eq) e')
  | Not l => expr_trans_compare l (negb eq) s
  | Unequal _ _ | Equal _ _ =>
      if s =? symbol_yes then Some (negate_if (negb eq) e)
      else if s =? symbol_mod then Some (Symbol (if eq then symbol_no else symbol_yes))
      else if s =? symbol_no then Some (negate_if eq e)
      else None
  | Symbol a => Some (if eq then Equal a s else Unequal a s)
  end.
Definition trans_compare (e : option expr) (eq : bool) (s : sym) : option expr :=
  match e with
  | None => Some (negate_if (negb eq) (Symbol s))
  | Some e => expr_trans_compare e eq s
  end.

(** The condition of a menu entry, as [menu_finalize] computes it from the
    condition of its parent and its own. *)
Definition entry_dep (parent dep : option expr) : option (option expr) :=
  basedep ← (match dep with None => Some None | Some d => d' ← transformed d; Some (Some d') end);
  expr_eliminate_dups (expr_alloc_and parent basedep).

(** [(e) != n], simplified. *)
Definition compared (e : option expr) : option (option expr) :=
  a ← trans_compare e false symbol_no;
  b ← transformed a;
  expr_eliminate_dups (Some b).

(** Whether [menu_finalize] puts a later entry with the condition [dep] below the
    entry of [s], which is visible under [visible]. *)
Definition entry_below (visible dep : option expr) (s : sym) : option bool :=
  basedep ← compared visible;
  match dep with
  | None => Some false
  | Some d =>
      if negb (expr_contains_symbol d s) then Some false
      else if expr_depends_symbol d s then Some true
      else
        d' ← compared dep;
        match d', basedep with
        | Some e1, Some e2 => '(_, dep2) ← expr_eliminate_eq e1 e2; Some (expr_is_yes (Some dep2))
        | _, _ => Some (expr_is_yes basedep)
        end
  end.

End Table.
