(* ===== verification/KconfSpec.v ===== *)
(** * What the simplification of dependency expressions keeps

    The functions of [KconfExpr] end, and the condition they return has the value
    of the condition they are given. *)

From S2P Require Import Prelude KconfExpr.

(** ** The operators *)

Definition op (t : expr_type) (a b : tristate) : tristate := match t with E_AND => E_and a b | _ => E_or a b end.

Lemma op_comm t a b : op t a b = op t b a.
Proof. by destruct t, a, b. Qed.

Lemma op_assoc t a b c : op t a (op t b c) = op t (op t a b) c.
Proof. by destruct t, a, b, c. Qed.

Lemma op_idem t a : op t a a = a.
Proof. by destruct t, a. Qed.

Lemma op_swap t a b c d : op t (op t a b) (op t c d) = op t (op t a c) (op t b d).
Proof. by destruct t, a, b, c, d. Qed.

Lemma E_not_invol a : E_not (E_not a) = a.
Proof. by destruct a. Qed.

(** The table of symbols the functions work with: the three constants of
    [symbol.c], boolean symbols are never [m], and two constants with one value
    are one symbol, which [sym_lookup] sees to. *)
Record table_ok (tab : Z -> symbol) : Prop := {
  ok_yes : tab symbol_yes = mkSymbol "y" S_UNKNOWN (Z.lor SYMBOL_YES SYMBOL_VALID) "y" Tyes;
  ok_mod : tab symbol_mod = mkSymbol "m" S_UNKNOWN (Z.lor SYMBOL_MOD SYMBOL_VALID) "m" Tmod;
  ok_no : tab symbol_no = mkSymbol "n" S_UNKNOWN (Z.lor SYMBOL_NO SYMBOL_VALID) "n" Tno;
  ok_bool : forall s, sym_type (tab s) = S_BOOLEAN -> curr_tri (tab s) <> Tmod;
  ok_const : forall a b, has_flags (tab a) SYMBOL_CONST = true -> has_flags (tab b) SYMBOL_CONST = true ->
    sym_get_string_value tab a = sym_get_string_value tab b -> a = b
}.

Section Values.
Variable tab : Z -> symbol.
Hypothesis tab_ok : table_ok tab.

Abbreviation val := (calc_value tab).

Lemma val_yes : val (Symbol symbol_yes) = Tyes.
Proof. cbn. by rewrite (ok_yes _ tab_ok). Qed.
Lemma val_mod : val (Symbol symbol_mod) = Tmod.
Proof. cbn. by rewrite (ok_mod _ tab_ok). Qed.
Lemma val_no : val (Symbol symbol_no) = Tno.
Proof. cbn. by rewrite (ok_no _ tab_ok). Qed.

Lemma op_unit t a : op t (val (Symbol (unit_of t))) a = a.
Proof. destruct t; cbn [unit_of]; rewrite ?val_yes, ?val_no; by destruct a. Qed.

Lemma val_node t l r : val (node t l r) = op t (val l) (val r).
Proof. by destruct t. Qed.

Lemma split_node t e l r : split t e = Some (l, r) -> e = node t l r /\ (t = E_AND \/ t = E_OR).
Proof. destruct t, e; cbn; intros [= -> ->]; auto. Qed.

Lemma size_node t l r : size (node t l r) = S (size l + size r).
Proof. by destruct t. Qed.

Lemma size_pos e : (1 <= size e)%nat.
Proof. destruct e; cbn; lia. Qed.

(** ** [expr_eliminate_yn] *)

Lemma is_sym_spec s e : is_sym s e = true <-> e = Symbol s.
Proof.
  destruct e; cbn; try (split; congruence). rewrite Z.eqb_eq. split; congruence.
Qed.

Lemma yn_and l r l' r' :
  l' = expr_eliminate_yn l -> r' = expr_eliminate_yn r ->
  let e := expr_eliminate_yn (And l r) in
  (l' = Symbol symbol_no /\ e = Symbol symbol_no) \/ (l' = Symbol symbol_yes /\ e = r') \/
  (r' = Symbol symbol_no /\ e = Symbol symbol_no) \/ (r' = Symbol symbol_yes /\ e = l') \/
  (is_sym symbol_no l' = false /\ is_sym symbol_yes l' = false /\
   is_sym symbol_no r' = false /\ is_sym symbol_yes r' = false /\ e = And l' r').
Proof.
  intros -> ->. cbn.
  destruct (is_sym symbol_no (expr_eliminate_yn l)) eqn:E1; [apply is_sym_spec in E1; auto 10|].
  destruct (is_sym symbol_yes (expr_eliminate_yn l)) eqn:E2; [apply is_sym_spec in E2; auto 10|].
  destruct (is_sym symbol_no (expr_eliminate_yn r)) eqn:E3; [apply is_sym_spec in E3; auto 10|].
  destruct (is_sym symbol_yes (expr_eliminate_yn r)) eqn:E4; [apply is_sym_spec in E4; auto 10|].
  auto 10.
Qed.

Lemma yn_or l r l' r' :
  l' = expr_eliminate_yn l -> r' = expr_eliminate_yn r ->
  let e := expr_eliminate_yn (Or l r) in
  (l' = Symbol symbol_no /\ e = r') \/ (l' = Symbol symbol_yes /\ e = Symbol symbol_yes) \/
  (r' = Symbol symbol_no /\ e = l') \/ (r' = Symbol symbol_yes /\ e = Symbol symbol_yes) \/
  (is_sym symbol_no l' = false /\ is_sym symbol_yes l' = false /\
   is_sym symbol_no r' = false /\ is_sym symbol_yes r' = false /\ e = Or l' r').
Proof.
  intros -> ->. cbn.
  destruct (is_sym symbol_no (expr_eliminate_yn l)) eqn:E1; [apply is_sym_spec in E1; auto 10|].
  destruct (is_sym symbol_yes (expr_eliminate_yn l)) eqn:E2; [apply is_sym_spec in E2; auto 10|].
  destruct (is_sym symbol_no (expr_eliminate_yn r)) eqn:E3; [apply is_sym_spec in E3; auto 10|].
  destruct (is_sym symbol_yes (expr_eliminate_yn r)) eqn:E4; [apply is_sym_spec in E4; auto 10|].
  auto 10.
Qed.

(** One case per way a constant goes, with the results of the children named. *)
Ltac yn_cases l r :=
  let l' := fresh "l'" in let r' := fresh "r'" in let Hl := fresh "Hl" in let Hr := fresh "Hr" in let E := fresh "E" in
  remember (expr_eliminate_yn l) as l' eqn:Hl; remember (expr_eliminate_yn r) as r' eqn:Hr;
  first [destruct (yn_and l r l' r' Hl Hr) as [[? E]|[[? E]|[[? E]|[[? E]|(?&?&?&?&E)]]]]; rewrite E
        |destruct (yn_or l r l' r' Hl Hr) as [[? E]|[[? E]|[[? E]|[[? E]|(?&?&?&?&E)]]]]; rewrite E];
  clear E; clear Hl Hr; subst.

Lemma yn_value e : val (expr_eliminate_yn e) = val e.
Proof.
  induction e as [l IHl r IHr|l IHl r IHr| | | |]; try done.
  - change (val (Or l r)) with (E_or (val l) (val r)). rewrite <- IHl, <- IHr.
    yn_cases l r; rewrite ?val_yes, ?val_no; try done; match goal with |- context [val ?x] => by destruct (val x) end.
  - change (val (And l r)) with (E_and (val l) (val r)). rewrite <- IHl, <- IHr.
    yn_cases l r; rewrite ?val_yes, ?val_no; try done; match goal with |- context [val ?x] => by destruct (val x) end.
Qed.

Lemma yn_size e : (size (expr_eliminate_yn e) <= size e)%nat.
Proof.
  induction e as [l IHl r IHr|l IHl r IHr| | | |]; try done.
  - yn_cases l r; cbn [size] in *; lia.
  - yn_cases l r; cbn [size] in *; lia.
Qed.

(** A chain node with a constant as a child. *)
Definition const_leaf (e : expr) : bool := is_sym symbol_no e || is_sym symbol_yes e.
Fixpoint reducible (e : expr) : bool :=
  match e with
  | And l r | Or l r => const_leaf l || const_leaf r || reducible l || reducible r
  | _ => false
  end.

Lemma const_leaf_spec e : const_leaf e = true -> expr_eliminate_yn e = e /\ size e = 1%nat /\ (e = Symbol symbol_no \/ e = Symbol symbol_yes).
Proof. unfold const_leaf. rewrite orb_true_iff, !is_sym_spec. intros [->| ->]; auto. Qed.

Lemma yn_shrinks e : reducible e = true -> (size (expr_eliminate_yn e) < size e)%nat.
Proof.
  induction e as [l IHl r IHr|l IHl r IHr| | | |]; try done; cbn [reducible]; intros Hr.
  all: pose proof (yn_size l) as Sl; pose proof (yn_size r) as Sr; pose proof (size_pos r); pose proof (size_pos l).
  all: destruct (const_leaf l) eqn:Cl;
    [apply const_leaf_spec in Cl as (Ey & _ & [->| ->]); cbn in *; repeat case_match; cbn; lia|].
  all: destruct (const_leaf r) eqn:Cr;
    [apply const_leaf_spec in Cr as (Ey & _ & [->| ->]); cbn in *; repeat case_match; cbn; lia|].
  all: assert ((size (expr_eliminate_yn l) < size l)%nat \/ (size (expr_eliminate_yn r) < size r)%nat) as Hd
    by (cbn in Hr; destruct (reducible l); auto).
  all: clear IHl IHr Hr Cl Cr; yn_cases l r; cbn [size] in *; lia.
Qed.

(** ** [expr_eq] *)

(** What [__expr_eliminate_eq] takes out of the two chains is the same. *)
Definition common_part (t : expr_type) (e1 e2 e1' e2' : expr) : Prop :=
  exists c, val e1 = op t c (val e1') /\ val e2 = op t c (val e2').

Lemma common_refl t e1 e2 : common_part t e1 e2 e1 e2.
Proof. exists (val (Symbol (unit_of t))). by rewrite !op_unit. Qed.

Lemma common_left t l r e2 l' r' e2' e2'' :
  common_part t l e2 l' e2' -> common_part t r e2' r' e2'' ->
  common_part t (node t l r) e2 (node t l' r') e2''.
Proof.
  intros (c & Hl & H2) (d & Hr & H2'). exists (op t c d).
  rewrite !val_node, Hl, H2, Hr, H2'. split; [apply op_swap|apply op_assoc].
Qed.

Lemma common_sym t e1 e2 e1' e2' : common_part t e1 e2 e1' e2' -> common_part t e2 e1 e2' e1'.
Proof. intros (c & ? & ?). by exists c. Qed.

Lemma common_leaf t e1 e2 :
  val e1 = val e2 -> common_part t e1 e2 (Symbol (unit_of t)) (Symbol (unit_of t)).
Proof. intros E. exists (val e1). by rewrite (op_comm t (val e1)), !op_unit. Qed.

Lemma common_done t e1 e2 e1' e2' :
  common_part t e1 e2 e1' e2' -> val e1' = val e2' -> val e1 = val e2.
Proof. intros (c & -> & ->) ->. done. Qed.

Lemma same_symbol_val e1 e2 : same_symbol e1 e2 = true -> val e1 = val e2.
Proof. destruct e1, e2; cbn; try done. by intros ->%Z.eqb_eq. Qed.

Lemma eliminate_eq_sound eq n t e1 e2 e1' e2' k :
  (forall a b, eq a b = Some true -> val a = val b) ->
  eliminate_eq tab eq n t e1 e2 = Some (e1', e2', k) -> common_part t e1 e2 e1' e2'.
Proof.
  intros Heq. revert e1 e2 e1' e2' k. induction n as [|n IH]; intros e1 e2 e1' e2' k; [done|]. cbn [eliminate_eq].
  destruct (split t e1) as [[l r]|] eqn:E1.
  - apply split_node in E1 as [-> _].
    intros ([[l' e2a] i] & Q1 & ([[r' e2b] j] & Q2 & [= <- <- <-])%bind_Some)%bind_Some. eapply common_left; eauto.
  - destruct (split t e2) as [[l r]|] eqn:E2.
    + apply split_node in E2 as [-> _].
      intros ([[e1a l'] i] & Q1 & ([[e1b r'] j] & Q2 & [= <- <- <-])%bind_Some)%bind_Some.
      apply common_sym. eapply common_left; apply common_sym; eauto.
    + destruct (same_const tab e1 e2); [intros [= <- <- <-]; apply common_refl|].
      intros ([] & Q & [= <- <- <-])%bind_Some; [by apply common_leaf, Heq|apply common_refl].
Qed.

Lemma expr_eq_sound n e1 e2 : expr_eq tab n e1 e2 = Some true -> val e1 = val e2.
Proof.
  revert e1 e2. induction n as [|n IH]; intros e1 e2; [done|].
  assert (forall m t d1 d2, ('(a, b, _) ← eliminate_eq tab (expr_eq tab n) m t d1 d2;
            Some (same_symbol (expr_eliminate_yn a) (expr_eliminate_yn b))) = Some true -> val d1 = val d2) as Hc.
  { intros m t d1 d2 ([[a b] k] & Q & [= Hs])%bind_Some. eapply common_done; [by eapply eliminate_eq_sound|].
    apply same_symbol_val in Hs. by rewrite !yn_value in Hs. }
  destruct e1, e2; try done; cbn [expr_eq etype]; try (by apply Hc);
    try (intros [= [->%Z.eqb_eq ->%Z.eqb_eq]%andb_prop]; done).
  - intros Hn. cbn. by rewrite (IH _ _ Hn).
  - by intros [= ->%Z.eqb_eq].
Qed.

Lemma exprs_equal_val e1 e2 : exprs_equal tab e1 e2 = Some true -> val e1 = val e2.
Proof. apply expr_eq_sound. Qed.

(** An elimination compares leaves only, which are smaller than a chain. *)
Lemma eliminate_eq_total eq K n t e1 e2 :
  (forall a b, (size a + size b < K)%nat -> is_Some (eq a b)) ->
  (size e1 + size e2 <= S n)%nat -> (size e1 + size e2 <= K)%nat ->
  (split t e1 = None -> split t e2 = None -> (size e1 + size e2 < K)%nat) ->
  exists e1' e2' k, eliminate_eq tab eq n t e1 e2 = Some (e1', e2', k) /\
    (size e1' <= size e1)%nat /\ (size e2' <= size e2)%nat.
Proof.
  intros Heq. revert e1 e2. induction n as [|n IH]; intros e1 e2 Hn HK Hs.
  { pose proof (size_pos e1). pose proof (size_pos e2). lia. }
  cbn [eliminate_eq]. destruct (split t e1) as [[l r]|] eqn:E1.
  { apply split_node in E1 as [-> _]. rewrite size_node in *. pose proof (size_pos l). pose proof (size_pos r).
    destruct (IH l e2) as (l' & e2a & i & -> & ? & ?); [lia..|]. cbn [mbind option_bind].
    destruct (IH r e2a) as (r' & e2b & j & -> & ? & ?); [lia..|]. eexists _, _, _. split; [done|]. rewrite size_node. lia. }
  destruct (split t e2) as [[l r]|] eqn:E2.
  { apply split_node in E2 as [-> _]. rewrite size_node in *. pose proof (size_pos l). pose proof (size_pos r).
    destruct (IH e1 l) as (e1a & l' & i & -> & ? & ?); [lia..|]. cbn [mbind option_bind].
    destruct (IH e1a r) as (e1b & r' & j & -> & ? & ?); [lia..|]. eexists _, _, _. split; [done|]. rewrite size_node. lia. }
  destruct (same_const tab e1 e2); [by eexists _, _, _|]. pose proof (size_pos e1). pose proof (size_pos e2).
  destruct (Heq e1 e2) as [[] ->]; [auto| |]; by eexists _, _, _.
Qed.

Lemma expr_eq_total n e1 e2 : (size e1 + size e2 <= n)%nat -> is_Some (expr_eq tab n e1 e2).
Proof.
  revert e1 e2. induction n as [|n IH]; intros e1 e2 Hn; [pose proof (size_pos e1); lia|].
  assert (forall t, split t e1 <> None -> is_Some ('(a, b, _) ← eliminate_eq tab (expr_eq tab n) (size e1 + size e2) t e1 e2;
            Some (same_symbol (expr_eliminate_yn a) (expr_eliminate_yn b)))) as Hc.
  { intros t Ht. destruct (eliminate_eq_total (expr_eq tab n) (S n) (size e1 + size e2) t e1 e2) as (a & b & k & -> & _);
      [intros; apply IH; lia|lia|lia|done|by eexists]. }
  destruct e1, e2; try (by eexists); cbn [expr_eq]; try (by apply Hc). apply IH. cbn in Hn. lia.
Qed.

Lemma exprs_equal_total e1 e2 : exists b, exprs_equal tab e1 e2 = Some b.
Proof. by apply expr_eq_total. Qed.

(** ** Joining *)

Definition tri_symbol (s : Z) : Prop := sym_type (tab s) = S_BOOLEAN \/ sym_type (tab s) = S_TRISTATE.

Lemma string_tri s : tri_symbol s -> sym_get_string_value tab s = tri_string (curr_tri (tab s)).
Proof. unfold sym_get_string_value. by intros [-> | ->]. Qed.

Definition const_tri (c : Z) : option tristate :=
  if c =? symbol_yes then Some Tyes else if c =? symbol_mod then Some Tmod
  else if c =? symbol_no then Some Tno else None.

Lemma string_const c v : const_tri c = Some v -> sym_get_string_value tab c = tri_string v.
Proof.
  unfold const_tri, sym_get_string_value.
  destruct (Z.eqb_spec c symbol_yes) as [->|]; [by rewrite (ok_yes _ tab_ok); intros [= <-]|].
  destruct (Z.eqb_spec c symbol_mod) as [->|]; [by rewrite (ok_mod _ tab_ok); intros [= <-]|].
  destruct (Z.eqb_spec c symbol_no) as [->|]; [by rewrite (ok_no _ tab_ok); intros [= <-]|done].
Qed.

Lemma same_string_const s c v :
  tri_symbol s -> const_tri c = Some v -> same_string tab s c = bool_decide (curr_tri (tab s) = v).
Proof.
  intros Hs Hc. unfold same_string. rewrite (string_tri _ Hs), (string_const _ _ Hc).
  by destruct (curr_tri (tab s)), v.
Qed.

(** A condition on the symbol [s] alone. *)
Definition about (s : Z) (e : expr) : Prop :=
  leaf_sym e = Some s \/ exists x, e = Not x /\ leaf_sym x = Some s.

Lemma join_sym_spec e1 e2 s : join_sym tab e1 e2 = Some s -> tri_symbol s /\ about s e1 /\ about s e2.
Proof.
  unfold join_sym. intros H.
  destruct (match e1 with Not x => leaf_sym x | _ => leaf_sym e1 end) as [s1|] eqn:E1; [|done].
  destruct (match e2 with Not (Symbol a) => Some a | _ => leaf_sym e2 end) as [s2|] eqn:E2; [|done].
  destruct (Z.eqb_spec s1 s2) as [<-|]; [|done]. cbn in H.
  assert (s1 = s /\ tri_symbol s) as [-> Ht].
  { unfold tri_symbol. destruct (sym_type (tab s1)) eqn:?; by simplify_eq; auto. }
  unfold about. split; [done|split].
  - destruct e1; cbn in E1; eauto.
  - destruct e2 as [| |x| | |]; eauto. destruct x; simplify_eq; eauto.
Qed.

(** The values of the conditions the rules are about. *)
Definition is_val (s : Z) (v : tristate) : tristate := if bool_decide (curr_tri (tab s) = v) then Tyes else Tno.

Lemma equals_val c v s e :
  equals c e = true -> about s e -> tri_symbol s -> const_tri c = Some v -> val e = is_val s v.
Proof.
  destruct e; try done. cbn. intros ->%Z.eqb_eq [[= ->]|(? & ? & ?)] Hs Hc; [|done].
  by rewrite (same_string_const s c v).
Qed.

Lemma differs_val c v s e :
  differs c e = true -> about s e -> tri_symbol s -> const_tri c = Some v -> val e = E_not (is_val s v).
Proof.
  destruct e; try done. cbn. intros ->%Z.eqb_eq [[= ->]|(? & ? & ?)] Hs Hc; [|done].
  rewrite (same_string_const s c v) by done. unfold is_val. by case_bool_decide.
Qed.

Lemma symbol_node_val s e : symbol_node e = true -> about s e -> val e = curr_tri (tab s).
Proof. destruct e; try done. by intros _ [[= ->]|(? & ? & ?)]. Qed.

Lemma not_symbol_val s e : not_symbol e = true -> about s e -> val e = E_not (curr_tri (tab s)).
Proof.
  destruct e as [| |x| | |]; try done. destruct x; try done.
  intros _ [?|(? & [= <-] & [= ->])]; done.
Qed.

Lemma either_cases p q e1 e2 :
  either p q e1 e2 = true -> (p e1 = true /\ q e2 = true) \/ (q e1 = true /\ p e2 = true).
Proof. unfold either. by rewrite orb_true_iff, !andb_true_iff. Qed.

(** A rule with two conditions on one symbol is right when it is right for the
    two in the order it names them. *)
Lemma either_val t (p q : expr -> bool) e1 e2 a b x :
  either p q e1 e2 = true ->
  (forall e, e = e1 \/ e = e2 -> p e = true -> val e = a) ->
  (forall e, e = e1 \/ e = e2 -> q e = true -> val e = b) ->
  x = op t a b -> x = op t (val e1) (val e2).
Proof.
  intros [[Hp Hq]|[Hq Hp]]%either_cases Ha Hb ->.
  - by rewrite (Ha e1), (Hb e2) by auto.
  - rewrite (Hb e1), (Ha e2) by auto. apply op_comm.
Qed.

Lemma val_cmp s c v : tri_symbol s -> const_tri c = Some v ->
  val (Equal s c) = is_val s v /\ val (Unequal s c) = E_not (is_val s v).
Proof.
  intros Hs Hc. cbn. rewrite (same_string_const s c v) by done. unfold is_val. by case_bool_decide.
Qed.

Ltac rule_case s :=
  match goal with
  | H : either _ _ _ _ = true |- _ =>
      eapply (either_val _ _ _ _ _ _ _ _ H);
      [intros ? [->| ->] ?; first [by eapply equals_val|by eapply differs_val|by eapply symbol_node_val|by eapply not_symbol_val]
      |intros ? [->| ->] ?; first [by eapply equals_val|by eapply differs_val|by eapply symbol_node_val|by eapply not_symbol_val]
      |]
  end.

Lemma join_or_rules_val s e1 e2 x :
  tri_symbol s -> about s e1 -> about s e2 -> join_or_rules tab s e1 e2 = Some x ->
  val x = E_or (val e1) (val e2).
Proof.
  intros Hs A1 A2. unfold join_or_rules. change E_or with (op E_OR).
  repeat (case_match; [intros [= <-]|]); [..|done].
  all: match goal with H : _ && _ = true |- _ => apply andb_prop in H as [Ht H] end.
  all: rule_case s.
  - rewrite (proj2 (val_cmp s symbol_no Tno Hs eq_refl)). unfold is_val. by destruct (curr_tri (tab s)).
  - rewrite (proj2 (val_cmp s symbol_mod Tmod Hs eq_refl)). unfold is_val. by destruct (curr_tri (tab s)).
  - rewrite (proj2 (val_cmp s symbol_yes Tyes Hs eq_refl)). unfold is_val. by destruct (curr_tri (tab s)).
  - rewrite val_yes. apply bool_decide_eq_true in Ht. apply (ok_bool _ tab_ok) in Ht.
    by destruct (curr_tri (tab s)).
Qed.

Lemma join_consts_val s b c x :
  join_consts tab s b c = Some x -> val x = E_and (val (Equal s b)) (val (Unequal s c)).
Proof.
  unfold join_consts. case_match eqn:Hc; [|done]. apply andb_prop in Hc as [Hc Hb]. intros [= <-].
  destruct (Z.eqb_spec b c) as [->|Hne]; cbn [negb].
  - rewrite val_no. cbn. by destruct (same_string tab s c).
  - cbn. unfold same_string.
    destruct (String.eqb_spec (sym_get_string_value tab s) (sym_get_string_value tab b)) as [E|]; [|by case_match].
    destruct (String.eqb_spec (sym_get_string_value tab s) (sym_get_string_value tab c)) as [E'|]; [|done].
    exfalso. apply Hne, (ok_const _ tab_ok); [done..|congruence].
Qed.

Lemma join_tristate_val s e1 e2 x :
  tri_symbol s -> about s e1 -> about s e2 -> join_tristate tab s e1 e2 = Some x ->
  val x = E_and (val e1) (val e2).
Proof.
  intros Hs A1 A2 Hj.
  assert (forall e1 e2, about s e1 -> about s e2 ->
    (if either (differs symbol_yes) (differs symbol_no) e1 e2 then Some (Equal s symbol_mod)
      else if either (differs symbol_yes) (differs symbol_mod) e1 e2 then Some (Equal s symbol_no)
      else if either (differs symbol_mod) (differs symbol_no) e1 e2 then Some (Equal s symbol_yes)
      else None) = Some x -> val x = E_and (val e1) (val e2)) as Hd.
  { clear e1 e2 A1 A2 Hj. intros e1 e2 A1 A2. change E_and with (op E_AND).
    repeat (case_match; [intros [= <-]; rule_case s|]); [..|done].
    - rewrite (proj1 (val_cmp s symbol_mod Tmod Hs eq_refl)). unfold is_val. by destruct (curr_tri (tab s)).
    - rewrite (proj1 (val_cmp s symbol_no Tno Hs eq_refl)). unfold is_val. by destruct (curr_tri (tab s)).
    - rewrite (proj1 (val_cmp s symbol_yes Tyes Hs eq_refl)). unfold is_val. by destruct (curr_tri (tab s)). }
  destruct e1 as [| | |a b|a b|], e2 as [| | |c d|c d|]; try (by apply Hd).
  - destruct A1 as [[= ->]|(? & ? & ?)], A2 as [[= ->]|(? & ? & ?)]; try done. by apply join_consts_val.
  - destruct A1 as [[= ->]|(? & ? & ?)], A2 as [[= ->]|(? & ? & ?)]; try done.
    apply join_consts_val in Hj. rewrite Hj. apply (op_comm E_AND).
Qed.

Lemma join_and_rules_val s e1 e2 x :
  tri_symbol s -> about s e1 -> about s e2 -> join_and_rules tab s e1 e2 = Some x ->
  val x = E_and (val e1) (val e2).
Proof.
  intros Hs A1 A2. unfold join_and_rules.
  destruct (either symbol_node (equals symbol_yes) e1 e2) eqn:R1.
  { intros [= <-]. change E_and with (op E_AND). rule_case s.
    rewrite (proj1 (val_cmp s symbol_yes Tyes Hs eq_refl)). unfold is_val. by destruct (curr_tri (tab s)). }
  destruct (either symbol_node (differs symbol_no) e1 e2) eqn:R2.
  { intros [= <-]. change E_and with (op E_AND). rule_case s.
    unfold is_val. cbn. by destruct (curr_tri (tab s)). }
  destruct (either symbol_node (differs symbol_mod) e1 e2) eqn:R3.
  { intros [= <-]. change E_and with (op E_AND). rule_case s.
    rewrite (proj1 (val_cmp s symbol_yes Tyes Hs eq_refl)). unfold is_val. by destruct (curr_tri (tab s)). }
  case_match; [by apply join_tristate_val|done].
Qed.

(** ** What a join is *)

(** No symbol of the condition is [m]. *)
Fixpoint two_valued (e : expr) : Prop :=
  match e with
  | And l r | Or l r => two_valued l /\ two_valued r
  | Not l => two_valued l
  | Symbol s => curr_tri (tab s) <> Tmod
  | _ => True
  end.

Lemma two_valued_val e : two_valued e -> val e <> Tmod.
Proof.
  induction e as [l IHl r IHr|l IHl r IHr|l IHl| | |]; cbn [two_valued calc_value].
  - intros [Hl%IHl Hr%IHr]. by destruct (val l), (val r).
  - intros [Hl%IHl Hr%IHr]. by destruct (val l), (val r).
  - intros Hl%IHl. by destruct (val l).
  - by case_match.
  - by case_match.
  - done.
Qed.

Lemma two_valued_yes : two_valued (Symbol symbol_yes).
Proof. cbn. by rewrite (ok_yes _ tab_ok). Qed.
Lemma two_valued_no : two_valued (Symbol symbol_no).
Proof. cbn. by rewrite (ok_no _ tab_ok). Qed.
Lemma two_valued_unit t : two_valued (Symbol (unit_of t)).
Proof. destruct t; apply two_valued_yes || apply two_valued_no. Qed.
Lemma two_valued_node t l r : two_valued (node t l r) <-> two_valued l /\ two_valued r.
Proof. by destruct t. Qed.

(** The result is a leaf or [e1] itself. *)
Definition joined (e1 e2 x : expr) : Prop :=
  size x = 1%nat /\ (two_valued e1 -> two_valued e2 -> two_valued x).

Lemma symbol_node_two s p e1 e2 :
  about s e1 -> about s e2 -> either symbol_node p e1 e2 = true -> joined e1 e2 (Symbol s).
Proof.
  intros A1 A2 [[Hp _]|[_ Hp]]%either_cases; split; [done| |done|].
  - destruct e1; try done. by destruct A1 as [[= ->]|(? & ? & ?)].
  - destruct e2; try done. by destruct A2 as [[= ->]|(? & ? & ?)].
Qed.

Lemma join_or_rules_joined s e1 e2 x : join_or_rules tab s e1 e2 = Some x -> joined e1 e2 x.
Proof. unfold join_or_rules. repeat case_match; intros [= <-]; split; try done; intros; apply two_valued_yes. Qed.

Lemma join_and_rules_joined s e1 e2 x :
  about s e1 -> about s e2 -> join_and_rules tab s e1 e2 = Some x -> joined e1 e2 x.
Proof.
  intros A1 A2. unfold join_and_rules, join_tristate, join_consts.
  case_match; [by intros [= <-]|]. case_match; [intros [= <-]; by eapply symbol_node_two|].
  repeat case_match; intros [= <-]; split; try done; intros; apply two_valued_no.
Qed.

Lemma join_spec t e1 e2 :
  t = E_AND \/ t = E_OR ->
  exists o, join tab t e1 e2 = Some o /\
    forall x, o = Some x ->
      val x = op t (val e1) (val e2) /\ (x = e1 \/ joined e1 e2 x).
Proof.
  intros Ht.
  assert (join tab t e1 e2 = match exprs_equal tab e1 e2 with
    | Some true => Some (Some e1)
    | Some false => Some (s ← join_sym tab e1 e2; match t with E_AND => join_and_rules tab s e1 e2 | _ => join_or_rules tab s e1 e2 end)
    | None => None end) as ->.
  { by destruct Ht as [-> | ->]. }
  destruct (exprs_equal_total e1 e2) as [[] E]; rewrite E; (eexists; split; [done|]).
  - intros x [= <-]. split; [|by left]. by rewrite <- (exprs_equal_val _ _ E), op_idem.
  - intros x (s & Hs & Hx)%bind_Some. apply join_sym_spec in Hs as (Ht' & A1 & A2).
    destruct Ht as [-> | ->]; cbn [op].
    + split; [by eapply join_and_rules_val|right; by eapply join_and_rules_joined].
    + split; [by eapply join_or_rules_val|right; by eapply join_or_rules_joined].
Qed.
End Values.

(** Tables with symbols of one type beside the constants. *)
Definition sample_table (ty : symbol_type) (f : Z -> tristate) (s : Z) : symbol :=
  if s =? symbol_yes then mkSymbol "y" S_UNKNOWN (Z.lor SYMBOL_YES SYMBOL_VALID) "y" Tyes
  else if s =? symbol_mod then mkSymbol "m" S_UNKNOWN (Z.lor SYMBOL_MOD SYMBOL_VALID) "m" Tmod
  else if s =? symbol_no then mkSymbol "n" S_UNKNOWN (Z.lor SYMBOL_NO SYMBOL_VALID) "n" Tno
  else mkSymbol "FOO" ty SYMBOL_VALID "" (f s).

Lemma sample_ok ty f : (ty = S_BOOLEAN -> forall s, f s <> Tmod) -> table_ok (sample_table ty f).
Proof.
  intros Hf.
  assert (forall s, has_flags (sample_table ty f s) SYMBOL_CONST = true -> s = symbol_yes \/ s = symbol_mod \/ s = symbol_no) as Hc.
  { intros s. unfold sample_table. repeat case_match; rewrite ?Z.eqb_eq in *; auto. done. }
  split; [done..| |].
  - intros s. unfold sample_table. repeat (case_match; [done|]). cbn. auto.
  - intros a b [-> |[-> | ->]]%Hc [-> |[-> | ->]]%Hc; done.
Qed.
