(* ===== verification/KconfSimplify.v ===== *)
(** * Simplification of dependency expressions

    [expr_transform] computes the negation normal form; [expr_eliminate_dups]
    ends and keeps the value of conditions whose symbols are not [m].  The two
    are composed as [menu_finalize] does. *)

From S2P Require Import Prelude KconfExpr KconfSpec.

Section Nnf.
Variable tab : Z -> symbol.
Hypothesis tab_ok : table_ok tab.

Abbreviation val := (calc_value tab).

(** ** Negation normal form *)

Definition neg_leaf (e : expr) : expr :=
  match e with
  | Equal a b => Unequal a b
  | Unequal a b => Equal a b
  | Symbol s =>
      if s =? symbol_yes then Symbol symbol_no
      else if s =? symbol_mod then Symbol symbol_mod
      else if s =? symbol_no then Symbol symbol_yes
      else Not (Symbol s)
  | Not x => x
  | _ => e
  end.

(** [e] with [b], its negation without; negations stay at symbols only. *)
Fixpoint nnf (b : bool) (e : expr) : expr :=
  match e with
  | And l r => node (if b then E_AND else E_OR) (nnf b l) (nnf b r)
  | Or l r => node (if b then E_OR else E_AND) (nnf b l) (nnf b r)
  | Not l => nnf (negb b) l
  | _ => if b then transform_leaf tab e else neg_leaf (transform_leaf tab e)
  end.

Definition plain (s : Z) : Prop := s <> symbol_yes /\ s <> symbol_mod /\ s <> symbol_no.

Lemma boolean_plain s : is_boolean tab s = true -> plain s.
Proof.
  unfold is_boolean. rewrite bool_decide_eq_true. intros Hb.
  repeat split; intros ->; revert Hb.
  - by rewrite (ok_yes _ tab_ok).
  - by rewrite (ok_mod _ tab_ok).
  - by rewrite (ok_no _ tab_ok).
Qed.

Lemma neg_plain s : plain s -> neg_leaf (Symbol s) = Not (Symbol s).
Proof. intros (? & ? & ?). cbn. by repeat case_match; rewrite ?Z.eqb_eq in *. Qed.

(** What a leaf becomes. *)
Inductive literal : expr -> Prop :=
| lit_not s : plain s -> literal (Not (Symbol s))
| lit_symbol s : literal (Symbol s)
| lit_equal a b : transform_leaf tab (Equal a b) = Equal a b -> literal (Equal a b)
| lit_unequal a b : transform_leaf tab (Unequal a b) = Unequal a b -> literal (Unequal a b).

Definition is_leaf (e : expr) : Prop := match e with Equal _ _ | Unequal _ _ | Symbol _ => True | _ => False end.

Lemma transform_leaf_literal e : is_leaf e -> literal (transform_leaf tab e).
Proof.
  destruct e as [| | |l r|l r|s]; try done; intros _; [| |constructor].
  - destruct (is_boolean tab l) eqn:Hb; cbn; rewrite Hb; cbn; [|constructor; cbn; by rewrite Hb].
    pose proof (boolean_plain _ Hb).
    repeat (case_match; [by constructor|]). constructor. cbn. rewrite Hb. cbn. by repeat case_match.
  - destruct (is_boolean tab l) eqn:Hb; cbn; rewrite Hb; cbn; [|constructor; cbn; by rewrite Hb].
    pose proof (boolean_plain _ Hb).
    repeat (case_match; [by constructor|]). constructor. cbn. rewrite Hb. cbn. by repeat case_match.
Qed.

Lemma unequal_transform a b : transform_leaf tab (Equal a b) = Equal a b <-> transform_leaf tab (Unequal a b) = Unequal a b.
Proof. cbn. repeat case_match; split; intros; congruence. Qed.

Lemma neg_literal e : literal e -> literal (neg_leaf e) /\ neg_leaf (neg_leaf e) = e.
Proof.
  intros [s Hs|s|a b H|a b H].
  - cbn [neg_leaf]. split; [constructor|by apply neg_plain].
  - destruct (decide (s = symbol_yes)) as [->|]; [by split; [constructor|]|].
    destruct (decide (s = symbol_mod)) as [->|]; [by split; [constructor|]|].
    destruct (decide (s = symbol_no)) as [->|]; [by split; [constructor|]|].
    rewrite neg_plain by done. split; [by constructor|done].
  - split; [constructor; by apply unequal_transform|done].
  - split; [constructor; by apply unequal_transform|done].
Qed.

Lemma nnf_literal b e : literal e -> nnf b e = if b then e else neg_leaf e.
Proof.
  intros [s Hs|s|x y H|x y H]; cbn [nnf]; try by rewrite ?H.
  destruct b; cbn [negb]; [by apply neg_plain|done].
Qed.

Lemma nnf_leaf b e : is_leaf e -> nnf b e = if b then transform_leaf tab e else neg_leaf (transform_leaf tab e).
Proof. by destruct e. Qed.

Lemma nnf_node b t l r : t = E_AND \/ t = E_OR ->
  nnf b (node t l r) = node (if b then t else match t with E_AND => E_OR | _ => E_AND end) (nnf b l) (nnf b r).
Proof. intros [-> | ->]; by destruct b. Qed.

Lemma nnf_nnf_leaf b b' e : is_leaf e -> nnf b (nnf b' e) = nnf (eqb b b') e.
Proof.
  intros He. pose proof (transform_leaf_literal _ He) as Hl. destruct (neg_literal _ Hl) as [Hn E].
  rewrite !(nnf_leaf _ e He). destruct b'.
  - rewrite nnf_literal by done. by destruct b.
  - rewrite nnf_literal by done. destruct b; [done|]. by rewrite E.
Qed.

(** Normal forms are kept, and the two polarities are each other's negation. *)
Lemma nnf_nnf b b' e : nnf b (nnf b' e) = nnf (eqb b b') e.
Proof.
  revert b b'. induction e as [l IHl r IHr|l IHl r IHr|l IHl|x y|x y|s]; intros b b'; try (by apply nnf_nnf_leaf).
  1,2: cbn [nnf]; rewrite nnf_node by (destruct b'; auto); rewrite IHl, IHr; by destruct b, b'.
  cbn [nnf]. rewrite IHl. by destruct b, b'.
Qed.

Lemma nnf_not b e x : nnf b e = Not x -> exists s, x = Symbol s /\ plain s.
Proof.
  revert b. induction e as [l IHl r IHr|l IHl r IHr|l IHl|y z|y z|s]; intros b.
  1,2: by destruct b.
  { apply IHl. }
  all: intros E; rewrite nnf_leaf in E by done.
  all: match type of E with context [transform_leaf tab ?e] =>
         pose proof (transform_leaf_literal e Logic.I) as Hl end.
  all: assert (literal (Not x)) as Hx by (rewrite <- E; destruct b; [done|by apply neg_literal]).
  all: inversion Hx; eauto.
Qed.

(** *** Values *)

Lemma transform_leaf_val e : is_leaf e -> val (transform_leaf tab e) = val e.
Proof.
  assert (forall l r v, is_boolean tab l = true -> const_tri r = Some v ->
    val (Equal l r) = is_val tab l v /\ val (Unequal l r) = E_not (is_val tab l v) /\ curr_tri (tab l) <> Tmod) as Hc.
  { intros l r v Hb%bool_decide_eq_true Hr.
    destruct (val_cmp _ tab_ok l r v) as [-> ->]; [by left|done|]. split_and!; [done..|by apply (ok_bool _ tab_ok)]. }
  destruct e as [| | |l r|l r|s]; try done; intros _; unfold transform_leaf.
  all: destruct (is_boolean tab l) eqn:Hb; [|done]; cbn [negb].
  all: destruct (Z.eqb_spec r symbol_no) as [->|];
    [destruct (Hc l symbol_no Tno Hb eq_refl) as (E1 & E2 & E3); rewrite ?E1, ?E2; unfold is_val; cbn;
     by destruct (curr_tri (tab l))|].
  all: destruct (Z.eqb_spec r symbol_mod) as [->|];
    [destruct (Hc l symbol_mod Tmod Hb eq_refl) as (E1 & E2 & E3);
     rewrite ?E1, ?E2, ?(val_no _ tab_ok), ?(val_yes _ tab_ok); unfold is_val; by destruct (curr_tri (tab l))|].
  all: destruct (Z.eqb_spec r symbol_yes) as [->|]; [|done].
  all: destruct (Hc l symbol_yes Tyes Hb eq_refl) as (E1 & E2 & E3); rewrite ?E1, ?E2; unfold is_val; cbn;
     by destruct (curr_tri (tab l)).
Qed.

Lemma neg_leaf_val e : literal e -> val (neg_leaf e) = E_not (val e).
Proof.
  intros [s Hs|s|a b _|a b _].
  - cbn. by rewrite E_not_invol.
  - destruct (decide (s = symbol_yes)) as [->|].
    { change (neg_leaf (Symbol symbol_yes)) with (Symbol symbol_no). by rewrite (val_yes _ tab_ok), (val_no _ tab_ok). }
    destruct (decide (s = symbol_mod)) as [->|].
    { change (neg_leaf (Symbol symbol_mod)) with (Symbol symbol_mod). by rewrite !(val_mod _ tab_ok). }
    destruct (decide (s = symbol_no)) as [->|].
    { change (neg_leaf (Symbol symbol_no)) with (Symbol symbol_yes). by rewrite (val_yes _ tab_ok), (val_no _ tab_ok). }
    by rewrite neg_plain.
  - cbn. by case_match.
  - cbn. by case_match.
Qed.

Lemma nnf_val b e : val (nnf b e) = if b then val e else E_not (val e).
Proof.
  revert b. induction e as [l IHl r IHr|l IHl r IHr|l IHl|y z|y z|s]; intros b.
  1,2: cbn [nnf]; rewrite val_node, IHl, IHr; destruct b; cbn; by destruct (val l), (val r).
  { cbn [nnf]. rewrite IHl. destruct b; cbn; by rewrite ?E_not_invol. }
  all: rewrite nnf_leaf by done; destruct b; [by apply transform_leaf_val|];
    rewrite neg_leaf_val by (by apply transform_leaf_literal); by rewrite transform_leaf_val.
Qed.

Lemma transform_leaf_two e : is_leaf e -> two_valued tab e -> two_valued tab (transform_leaf tab e).
Proof.
  assert (forall l, is_boolean tab l = true -> curr_tri (tab l) <> Tmod) as Hb.
  { intros l Hl%bool_decide_eq_true. by apply (ok_bool _ tab_ok). }
  destruct e as [| | |l r|l r|s]; try done; intros _ _; unfold transform_leaf.
  all: destruct (is_boolean tab l) eqn:E; [|done]; apply Hb in E; cbn [negb].
  all: repeat case_match; try done; apply (two_valued_no _ tab_ok) || apply (two_valued_yes _ tab_ok).
Qed.

Lemma neg_leaf_two e : two_valued tab e -> two_valued tab (neg_leaf e).
Proof.
  destruct e as [| | | | |s]; try done. intros Hs. cbn [neg_leaf].
  destruct (Z.eqb_spec s symbol_yes); [apply (two_valued_no _ tab_ok)|].
  destruct (Z.eqb_spec s symbol_mod) as [->|]; [done|].
  destruct (Z.eqb_spec s symbol_no); [apply (two_valued_yes _ tab_ok)|done].
Qed.

Lemma nnf_two b e : two_valued tab e -> two_valued tab (nnf b e).
Proof.
  revert b. induction e as [l IHl r IHr|l IHl r IHr|l IHl|y z|y z|s]; intros b He.
  1,2: cbn [nnf]; destruct He; apply two_valued_node; auto.
  { by apply IHl. }
  all: apply transform_leaf_two in He; [|done]; rewrite nnf_leaf by done; destruct b; [done|].
  all: by apply neg_leaf_two.
Qed.

(** *** [expr_transform] computes it *)

Fixpoint height (e : expr) : nat :=
  match e with
  | And l r | Or l r => S (Nat.max (height l) (height r))
  | Not l => S (height l)
  | _ => 1
  end.
Fixpoint chain_depth (e : expr) : nat :=
  match e with
  | And l r | Or l r => S (Nat.max (chain_depth l) (chain_depth r))
  | Not l => chain_depth l
  | _ => 1
  end.

Lemma height_size e : (1 <= chain_depth e <= height e)%nat /\ (height e <= size e)%nat.
Proof. induction e; cbn; lia. Qed.

Lemma chain_depth_node t l r : chain_depth (node t l r) = S (Nat.max (chain_depth l) (chain_depth r)).
Proof. by destruct t. Qed.

Lemma literal_depth e : literal e -> chain_depth e = 1%nat.
Proof. by intros []. Qed.

Lemma nnf_depth b e : chain_depth (nnf b e) = chain_depth e.
Proof.
  revert b. induction e as [l IHl r IHr|l IHl r IHr|l IHl|y z|y z|s]; intros b.
  1,2: cbn [nnf]; rewrite chain_depth_node, IHl, IHr; done.
  { apply IHl. }
  all: rewrite nnf_leaf by done; destruct b; apply literal_depth; [|apply neg_literal]; by apply transform_leaf_literal.
Qed.

Lemma transform_normal n c : nnf true c = c -> (chain_depth c < n)%nat -> expr_transform tab n c = Some c.
Proof.
  revert n. induction c as [l IHl r IHr|l IHl r IHr|l IHl|y z|y z|s]; intros n Hc Hn;
    (destruct n as [|n]; [lia|]); cbn in Hn; cbn [expr_transform].
  - injection Hc as Hl Hr. rewrite IHl, IHr by (done || lia). done.
  - injection Hc as Hl Hr. rewrite IHl, IHr by (done || lia). done.
  - destruct (nnf_not true (Not l) l Hc) as (s & -> & Hs).
    destruct n as [|n]; [cbn in Hn; lia|]. cbn. apply neg_plain in Hs. cbn in Hs. by rewrite Hs.
  - f_equal. apply Hc.
  - f_equal. apply Hc.
  - done.
Qed.

(** The step after the argument of a negation is transformed. *)
Definition after_not (n : nat) (c : expr) : option expr :=
  match c with
  | Not a => expr_transform tab n a
  | Equal a b => Some (Unequal a b)
  | Unequal a b => Some (Equal a b)
  | Or a b => expr_transform tab n (And (Not a) (Not b))
  | And a b => expr_transform tab n (Or (Not a) (Not b))
  | Symbol s => Some (neg_leaf (Symbol s))
  end.

Lemma transform_not n e : expr_transform tab (S n) (Not e) = expr_transform tab n e ≫= after_not n.
Proof. cbn. by destruct (expr_transform tab n e) as [[]|]. Qed.

Lemma after_not_normal c n : nnf true c = c -> (2 * chain_depth c <= n)%nat -> after_not n c = Some (nnf false c).
Proof.
  assert (forall c n, nnf true c = c -> (2 * chain_depth c < n)%nat ->
    (forall m, (2 * chain_depth c <= m)%nat -> after_not m c = Some (nnf false c)) ->
    expr_transform tab n (Not c) = Some (nnf false c)) as Hnot.
  { intros d m Hd Hm IH. destruct m as [|m]; [lia|]. pose proof (height_size d).
    rewrite transform_not, transform_normal by (done || lia). apply IH. lia. }
  revert n. induction c as [l IHl r IHr|l IHl r IHr|l IHl|y z|y z|s]; intros n Hc Hn; cbn in Hn.
  - injection Hc as Hl Hr. destruct n as [|n]; [lia|]. cbn [after_not expr_transform].
    rewrite !Hnot by (auto || lia). done.
  - injection Hc as Hl Hr. destruct n as [|n]; [lia|]. cbn [after_not expr_transform].
    rewrite !Hnot by (auto || lia). done.
  - destruct (nnf_not true (Not l) l Hc) as (s & -> & Hs). destruct n as [|n]; [cbn in Hn; lia|]. done.
  - change (transform_leaf tab (Equal y z) = Equal y z) in Hc. cbn [after_not nnf]. by rewrite Hc.
  - change (transform_leaf tab (Unequal y z) = Unequal y z) in Hc. cbn [after_not nnf]. by rewrite Hc.
  - done.
Qed.

Lemma transform_nnf n e : (height e + 2 * chain_depth e <= n)%nat -> expr_transform tab n e = Some (nnf true e).
Proof.
  revert n. induction e as [l IHl r IHr|l IHl r IHr|l IHl|y z|y z|s]; intros n Hn; cbn in Hn;
    (destruct n as [|n]; [lia|]); try done.
  - cbn [expr_transform]. by rewrite IHl, IHr by lia.
  - cbn [expr_transform]. by rewrite IHl, IHr by lia.
  - rewrite transform_not, IHl by lia. cbn [mbind option_bind].
    rewrite after_not_normal by (rewrite ?nnf_nnf, ?nnf_depth; done || lia). by rewrite nnf_nnf.
Qed.

Lemma transformed_nnf e : transformed tab e = Some (nnf true e).
Proof. apply transform_nnf. unfold transform_fuel. pose proof (height_size e). lia. Qed.

End Nnf.

(** Negations at symbols only, and not at the constants. *)
Fixpoint normal (e : expr) : Prop :=
  match e with
  | And l r | Or l r => normal l /\ normal r
  | Not l => exists s, l = Symbol s /\ plain s
  | _ => True
  end.

Lemma literal_normal tab e : literal tab e -> normal e.
Proof. intros []; cbn; eauto. Qed.

Lemma nnf_normal tab b e : table_ok tab -> normal (nnf tab b e).
Proof.
  intros Hok. revert b. induction e as [l IHl r IHr|l IHl r IHr|l IHl|y z|y z|s]; intros b.
  1,2: destruct b; cbn; auto.
  { apply IHl. }
  all: rewrite nnf_leaf by done; eapply (literal_normal tab); destruct b; [|apply neg_literal];
    by apply transform_leaf_literal.
Qed.

(** C40: [expr_transform] ends on every condition with its negation normal form:
    the recursive definition [nnf], in which negations stand at symbols other than
    the constants only; the value is the one of the condition, for all three values
    of its symbols. *)
Theorem transform_normal_form tab e :
  table_ok tab ->
  exists e', transformed tab e = Some e' /\ e' = nnf tab true e /\ normal e' /\
    calc_value tab e' = calc_value tab e.
Proof.
  intros Hok. eexists. split; [by apply transformed_nnf|]. split; [done|].
  split; [by apply nnf_normal|]. by apply (nnf_val tab Hok true).
Qed.

Lemma transform_normal_form_witness :
  exists e', transformed (sample_table S_TRISTATE (fun _ => Tmod)) (Not (Or (Symbol 10) (Not (Symbol 11)))) = Some e' /\
    e' = And (Not (Symbol 10)) (Symbol 11) /\ normal e' /\
    calc_value (sample_table S_TRISTATE (fun _ => Tmod)) e' = Tmod.
Proof.
  exact (transform_normal_form (sample_table S_TRISTATE (fun _ => Tmod)) (Not (Or (Symbol 10) (Not (Symbol 11))))
    (sample_ok S_TRISTATE (fun _ => Tmod) ltac:(discriminate))).
Defined.
