(* ===== verification/KconfDups.v ===== *)
(** * Elimination of duplicates in dependency expressions

    [expr_eliminate_dups1] and [expr_eliminate_dups2] rewrite the leaves of a
    chain of one operator while they walk it with two pointers.  The shape of the
    chain does not change, which is why the pointers stay good; every rewrite
    keeps the value of the chain and leaves a constant for [expr_eliminate_yn] to
    take out, which is why the loop ends. *)

From S2P Require Import Prelude KconfExpr KconfSpec KconfSimplify.

(** ** The shape of a chain *)

Inductive skeleton : Type := Leaf | Fork (l r : skeleton).

Definition chain_type (t : expr_type) : Prop := t = E_AND \/ t = E_OR.

Fixpoint skel (t : expr_type) (e : expr) : skeleton :=
  match t, e with
  | E_AND, And l r | E_OR, Or l r => Fork (skel t l) (skel t r)
  | _, _ => Leaf
  end.

Fixpoint skel_at (k : skeleton) (p : list dir) {struct p} : option skeleton :=
  match p, k with
  | [], _ => Some k
  | Left :: p, Fork l _ => skel_at l p
  | Right :: p, Fork _ r => skel_at r p
  | _, Leaf => None
  end.

Fixpoint ssize (k : skeleton) : nat := match k with Leaf => 1 | Fork l r => S (ssize l + ssize r) end.

Lemma ssize_size t e : (ssize (skel t e) <= size e)%nat.
Proof. induction e; destruct t; cbn in *; lia. Qed.

Lemma skel_leaf t e : chain_type t -> is_type t e = false <-> skel t e = Leaf.
Proof. intros [-> | ->]; destruct e; cbn; split; done. Qed.

Lemma skel_fork t e : is_type t e = true -> chain_type t -> exists a b, skel t e = Fork a b.
Proof. intros H [-> | ->]; destruct e; try done; eauto. Qed.

Lemma skel_type t e a b : skel t e = Fork a b -> etype e = t.
Proof. destruct t, e; done. Qed.

Lemma skel_at_app k p q : skel_at k (p ++ q) = k' ← skel_at k p; skel_at k' q.
Proof. revert k. induction p as [|[] p IH]; intros [|l r]; cbn; auto. Qed.

(** Inversion of a valid step into a chain. *)
Lemma skel_cons t e d p k : chain_type t -> skel_at (skel t e) (d :: p) = Some k ->
  exists l r, e = node t l r /\ skel t e = Fork (skel t l) (skel t r) /\
    skel_at (skel t (match d with Left => l | Right => r end)) p = Some k.
Proof.
  intros [-> | ->]; destruct e; cbn; try (by destruct d); destruct d; intros H; eexists _, _; by rewrite ?H.
Qed.

Lemma at_node t l r d p : at_path (node t l r) (d :: p) = at_path (match d with Left => l | Right => r end) p.
Proof. by destruct t, d. Qed.

Lemma put_node t l r d p x : put_path (node t l r) (d :: p) x =
  match d with Left => node t (put_path l p x) r | Right => node t l (put_path r p x) end.
Proof. by destruct t, d. Qed.

Lemma skel_node t l r : chain_type t -> skel t (node t l r) = Fork (skel t l) (skel t r).
Proof. by intros [-> | ->]. Qed.

(** Induction along a path that stays in the chain. *)
Lemma chain_path_ind t (P : expr -> list dir -> Prop) :
  chain_type t ->
  (forall e, P e []) ->
  (forall l r d p, P (match d with Left => l | Right => r end) p -> P (node t l r) (d :: p)) ->
  forall p e k, skel_at (skel t e) p = Some k -> P e p.
Proof.
  intros Ht H0 Hs. induction p as [|d p IH]; intros e k Hk; [apply H0|].
  destruct (skel_cons _ _ _ _ _ Ht Hk) as (l & r & -> & _ & Hp). apply Hs. by eapply IH.
Qed.

Section Paths.
Variable t : expr_type.
Hypothesis t_chain : chain_type t.

Definition valid (e : expr) (p : list dir) (k : skeleton) : Prop := skel_at (skel t e) p = Some k.

Lemma valid_at e p k : valid e p k -> exists x, at_path e p = Some x /\ skel t x = k.
Proof.
  revert e. induction p as [|d p IH]; intros e Hk; [by unfold valid in Hk; injection Hk as <-; eexists|].
  destruct (skel_cons _ _ _ _ _ t_chain Hk) as (l & r & -> & _ & Hp). rewrite at_node. by apply IH.
Qed.

Lemma put_same e p k x : valid e p k -> at_path e p = Some x -> put_path e p x = e.
Proof.
  intros Hk. revert x. pattern e, p. eapply (chain_path_ind t); [done|..|exact Hk].
  - by intros ? ? [= ->].
  - intros l r d q IH x Hx. rewrite put_node. rewrite at_node in Hx. destruct d; by rewrite IH.
Qed.

Lemma at_put e p k y : valid e p k -> at_path (put_path e p y) p = Some y.
Proof.
  intros Hk. pattern e, p. eapply (chain_path_ind t); [done|..|exact Hk]; [done|].
  intros l r d q IH. rewrite put_node. destruct d; by rewrite at_node.
Qed.

Lemma put_skel e p y : valid e p (skel t y) -> skel t (put_path e p y) = skel t e.
Proof.
  revert e. induction p as [|d p IH]; intros e Hk; [unfold valid in Hk; by injection Hk as ->|].
  destruct (skel_cons _ _ _ _ _ t_chain Hk) as (l & r & -> & _ & Hp).
  rewrite put_node. destruct d; rewrite !skel_node by done; by rewrite IH.
Qed.

Lemma put_size e p k x y : valid e p k -> at_path e p = Some x ->
  (size (put_path e p y) + size x = size e + size y)%nat.
Proof.
  intros Hk. revert x. pattern e, p. eapply (chain_path_ind t); [done|..|exact Hk].
  - intros ? ? [= ->]. cbn. lia.
  - intros l r d q IH x Hx. rewrite put_node. rewrite at_node in Hx. specialize (IH x Hx).
    destruct d; rewrite !size_node; lia.
Qed.

Lemma at_size e p k x : valid e p k -> at_path e p = Some x -> p <> [] -> (size x < size e)%nat.
Proof.
  intros Hk. revert x. pattern e, p. eapply (chain_path_ind t); [done|..|exact Hk]; [done|].
  intros l r d q IH x Hx _. rewrite at_node in Hx. rewrite size_node.
  destruct q as [|d' q].
  - injection Hx as <-. destruct d; lia.
  - specialize (IH x Hx ltac:(done)). destruct d; lia.
Qed.

(** Two leaves of a chain are apart. *)
Lemma at_put_other e p1 p2 y :
  valid e p1 Leaf -> valid e p2 Leaf -> p1 <> p2 -> at_path (put_path e p1 y) p2 = at_path e p2.
Proof.
  intros H1. revert p2. pattern e, p1. revert H1. revert e. induction p1 as [|d p1 IH]; intros e H1 p2 H2 Hne.
  - unfold valid in H1. injection H1 as H1. destruct p2 as [|d2 p2]; [done|]. unfold valid in H2. rewrite H1 in H2. by destruct d2.
  - destruct (skel_cons _ _ _ _ _ t_chain H1) as (l & r & -> & _ & Hp).
    destruct p2 as [|d2 p2].
    { unfold valid in H2. cbn in H2. rewrite skel_node in H2 by done. done. }
    destruct (skel_cons _ _ _ _ _ t_chain H2) as (l2 & r2 & E & _ & Hp2).
    assert (l2 = l /\ r2 = r) as [-> ->] by (destruct t_chain as [-> | ->]; by injection E as -> ->).
    rewrite put_node, at_node. destruct d, d2; rewrite at_node; try done; apply IH; (done || congruence).
Qed.

Lemma put_other_valid e p1 p2 k y : valid e p1 (skel t y) -> valid e p2 k -> valid (put_path e p1 y) p2 k.
Proof. intros H1 H2. unfold valid. by rewrite put_skel. Qed.

(** A constant below the root is for [expr_eliminate_yn] to take out. *)
Lemma reducible_node l r : reducible (node t l r) = const_leaf l || const_leaf r || reducible l || reducible r.
Proof. by destruct t. Qed.

Lemma reducible_at e p k x : valid e p k -> at_path e p = Some x -> reducible x = true -> reducible e = true.
Proof.
  intros Hk. revert x. pattern e, p. eapply (chain_path_ind t); [done|..|exact Hk].
  - by intros ? ? [= ->].
  - intros l r d q IH x Hx Hr. rewrite at_node in Hx. specialize (IH x Hx Hr).
    rewrite reducible_node. destruct d; rewrite IH, ?orb_true_r; done.
Qed.

Lemma const_at e p k x : valid e p k -> at_path e p = Some x -> p <> [] -> const_leaf x = true -> reducible e = true.
Proof.
  intros Hk. revert x. pattern e, p. eapply (chain_path_ind t); [done|..|exact Hk]; [done|].
  intros l r d q IH x Hx _ Hc. rewrite at_node in Hx. rewrite reducible_node. destruct q as [|d' q].
  - injection Hx as <-. destruct d; rewrite Hc, ?orb_true_r; done.
  - specialize (IH x Hx ltac:(done) Hc). destruct d; rewrite IH, ?orb_true_r; done.
Qed.

End Paths.

(** ** Values and steps *)

Section Dups.
Variable tab : Z -> symbol.
Hypothesis tab_ok : table_ok tab.

Abbreviation val := (calc_value tab).

(** The value of a chain as a function of one of its nodes. *)
Lemma put_val t e p k : chain_type t -> valid t e p k ->
  exists c, forall y, val (put_path e p y) = op t c (val y).
Proof.
  intros Ht Hk. pattern e, p. eapply (chain_path_ind t); [done|..|exact Hk].
  - intros e0. exists (val (Symbol (unit_of t))). intros y. by rewrite op_unit.
  - intros l r d q (c & IH). exists (op t (val (match d with Left => r | Right => l end)) c).
    intros y. rewrite put_node. destruct d; rewrite val_node, IH.
    + rewrite (op_comm t _ (val r)). apply op_assoc.
    + apply op_assoc.
Qed.

Lemma put2_val t e p1 p2 : chain_type t -> valid t e p1 Leaf -> valid t e p2 Leaf -> p1 <> p2 ->
  exists c, forall y1 y2, skel t y1 = Leaf ->
    val (put_path (put_path e p1 y1) p2 y2) = op t c (op t (val y1) (val y2)).
Proof.
  intros Ht. revert e p2. induction p1 as [|d p1 IH]; intros e p2 H1 H2 Hne.
  - unfold valid in H1. injection H1 as H1. destruct p2 as [|d2 p2]; [done|].
    unfold valid in H2. rewrite H1 in H2. by destruct d2.
  - destruct (skel_cons _ _ _ _ _ Ht H1) as (l & r & -> & _ & Hp).
    destruct p2 as [|d2 p2].
    { unfold valid in H2. cbn in H2. rewrite skel_node in H2 by done. done. }
    destruct (skel_cons _ _ _ _ _ Ht H2) as (l2 & r2 & E & _ & Hp2).
    assert (l2 = l /\ r2 = r) as [-> ->] by (destruct Ht as [-> | ->]; by injection E as -> ->).
    destruct (decide (d = d2)) as [<-|Hd].
    + destruct (IH _ p2 Hp Hp2) as (c & Hc); [congruence|].
      exists (op t (val (match d with Left => r | Right => l end)) c). intros y1 y2 Hy.
      rewrite put_node. destruct d; rewrite put_node, val_node, Hc by done.
      * rewrite (op_comm t _ (val r)). apply op_assoc.
      * apply op_assoc.
    + destruct (put_val t _ _ _ Ht Hp) as (c1 & Hc1). destruct (put_val t _ _ _ Ht Hp2) as (c2 & Hc2).
      exists (op t c1 c2). intros y1 y2 _. rewrite put_node.
      destruct d, d2; try done; rewrite put_node, val_node, Hc1, Hc2.
      * apply op_swap.
      * rewrite op_comm. apply op_swap.
Qed.

Lemma two_at t e p k x : chain_type t -> valid t e p k -> at_path e p = Some x -> two_valued tab e -> two_valued tab x.
Proof.
  intros Ht Hk. revert x. pattern e, p. eapply (chain_path_ind t); [done|..|exact Hk].
  - by intros ? ? [= ->].
  - intros l r d q IH x Hx [Hl Hr]%two_valued_node. rewrite at_node in Hx. apply IH; [done|by destruct d].
Qed.

Lemma two_put t e p k y : chain_type t -> valid t e p k -> two_valued tab e -> two_valued tab y -> two_valued tab (put_path e p y).
Proof.
  intros Ht Hk. pattern e, p. eapply (chain_path_ind t); [done|..|exact Hk]; [done|].
  intros l r d q IH [Hl Hr]%two_valued_node Hy. rewrite put_node.
  destruct d; apply two_valued_node; auto.
Qed.

(** What the passes do to the tree.  The value is kept without [all] when no
    symbol is [m]. *)
Definition step_ok (all : bool) (t : expr_type) (s s' : tree_state) : Prop :=
  (size s'.1 <= size s.1)%nat /\ skel t s'.1 = skel t s.1 /\
  (two_valued tab s.1 -> two_valued tab s'.1) /\
  (all = true \/ two_valued tab s.1 -> val s'.1 = val s.1) /\
  (s' = s \/ reducible s'.1 = true).

Lemma step_refl all t s : step_ok all t s s.
Proof. split_and!; auto. Qed.

Lemma step_trans all t s1 s2 s3 : step_ok all t s1 s2 -> step_ok all t s2 s3 -> step_ok all t s1 s3.
Proof.
  intros (A1 & A2 & A3 & A4 & A5) (B1 & B2 & B3 & B4 & B5). split_and!.
  - lia.
  - congruence.
  - auto.
  - intros H. rewrite B4 by (destruct H; auto). auto.
  - destruct B5 as [-> | ?]; auto.
Qed.

(** A pass over the subtree at a leaf of the chain. *)
Lemma on_subtree_ok all t t' p s e f e' n :
  chain_type t -> valid t s.1 p Leaf -> at_path s.1 p = Some e -> skel t e' = Leaf ->
  f (e, s.2) = Some (e', n) -> step_ok all t' (e, s.2) (e', n) ->
  exists s', on_subtree p f s = Some s' /\ step_ok all t s s' /\ at_path s'.1 p = Some e'.
Proof.
  intros Ht Hv He Hl Hf (A1 & A2 & A3 & A4 & A5). cbn in *.
  unfold on_subtree. rewrite He. cbn. rewrite Hf. cbn. eexists. split; [done|]. cbn.
  split; [|by eapply (at_put t)]. split_and!; cbn.
  - pose proof (put_size t Ht _ _ _ _ e' Hv He). lia.
  - apply put_skel; [done|]. by rewrite Hl.
  - intros H2. eapply two_put; eauto. apply A3. by eapply two_at.
  - intros H2. destruct (put_val t _ _ _ Ht Hv) as (c & Hc).
    rewrite Hc, A4, <- Hc by (destruct H2; [auto|right; by eapply two_at]). by rewrite (put_same t Ht _ _ _ _ Hv He).
  - destruct A5 as [[= -> ->]|Hr].
    + left. rewrite (put_same t Ht _ _ _ _ Hv He). by destruct s.
    + right. eapply (reducible_at t Ht _ p Leaf); [..|done].
      * apply put_other_valid; [done|by rewrite Hl|done].
      * by eapply (at_put t).
Qed.

Lemma joined_leaf t e1 e2 x : skel t e1 = Leaf -> x = e1 \/ joined tab e1 e2 x -> skel t x = Leaf.
Proof.
  intros Hl [-> | [Hs _]]; [done|]. destruct x as [l r|l r| | | |]; cbn in Hs; try (by destruct t).
  all: pose proof (size_pos l); lia.
Qed.

Lemma joined_size e1 e2 x : x = e1 \/ joined tab e1 e2 x -> (size x <= size e1)%nat.
Proof. intros [-> | [-> _]]; [done|apply size_pos]. Qed.

Lemma unit_const t : const_leaf (Symbol (unit_of t)) = true.
Proof. by destruct t. Qed.

Lemma join_at_ok t p1 p2 s :
  chain_type t -> valid t s.1 p1 Leaf -> valid t s.1 p2 Leaf -> p1 <> p2 -> p1 <> [] ->
  exists s', join_at tab t p1 p2 s = Some s' /\ step_ok true t s s'.
Proof.
  intros Ht V1 V2 Hne Hp1.
  destruct (valid_at t Ht _ _ _ V1) as (e1 & E1 & L1). destruct (valid_at t Ht _ _ _ V2) as (e2 & E2 & L2).
  destruct (join_spec _ tab_ok t e1 e2 Ht) as (o & Ho & Hspec).
  unfold join_at. rewrite E1, E2. cbn. rewrite Ho. cbn. eexists. split; [done|].
  destruct o as [x|]; [|apply step_refl]. destruct (Hspec x eq_refl) as [Hval Hx].
  set (u := Symbol (unit_of t)). assert (skel t u = Leaf) as Lu by (by destruct t).
  assert (skel t x = Leaf) as Lx by (exact (joined_leaf t e1 e2 x L1 Hx)).
  set (e' := put_path s.1 p1 u).
  assert (valid t e' p2 Leaf) as V2' by (apply put_other_valid; [done|by rewrite Lu|done]).
  assert (valid t e' p1 Leaf) as V1' by (apply put_other_valid; [done|by rewrite Lu|done]).
  assert (at_path e' p2 = Some e2) as E2' by (unfold e'; by rewrite (at_put_other t)).
  split_and!; cbn.
  - pose proof (put_size t Ht _ _ _ _ u V1 E1). pose proof (put_size t Ht _ _ _ _ x V2' E2').
    pose proof (joined_size _ _ _ Hx). pose proof (size_pos e2). subst e' u. cbn in *. lia.
  - rewrite put_skel by (try done; by rewrite Lx). apply put_skel; [done|by rewrite Lu].
  - intros H2. assert (two_valued tab e1) by exact (two_at t _ _ _ _ Ht V1 E1 H2). assert (two_valued tab e2) by exact (two_at t _ _ _ _ Ht V2 E2 H2).
    eapply two_put; eauto; [eapply two_put; eauto; by apply two_valued_unit|].
    destruct Hx as [-> | [_ Hj]]; auto.
  - intros _. destruct (put2_val t _ _ _ Ht V1 V2 Hne) as (c & Hc). unfold e'. rewrite Hc by done.
    unfold u. rewrite op_unit, Hval, <- (Hc e1 e2) by done.
    rewrite (put_same t Ht s.1 p1 Leaf e1) by done. by rewrite (put_same t Ht s.1 p2 Leaf e2).
  - right. eapply (const_at t Ht _ p1 Leaf u); [|..|done|apply unit_const].
    + apply put_other_valid; [done|by rewrite Lx|done].
    + rewrite (at_put_other t) by (done || congruence). by eapply (at_put t).
Qed.

(** ** The first pass *)

Lemma chain_node e : is_chain e = true -> chain_type (etype e) /\ exists a b, skel (etype e) e = Fork a b.
Proof. destruct e; try done; intros _; unfold chain_type; cbn; eauto. Qed.

Lemma other_chain t t' e a b : chain_type t -> skel t' e = Fork a b -> t <> t' -> skel t e = Leaf.
Proof. intros Ht He%skel_type Hne. apply skel_leaf; [done|]. apply bool_decide_eq_false. congruence. Qed.

Lemma valid_left t e p a b : valid t e p (Fork a b) -> valid t e (p ++ [Left]) a.
Proof. unfold valid. intros H. by rewrite skel_at_app, H. Qed.
Lemma valid_right t e p a b : valid t e p (Fork a b) -> valid t e (p ++ [Right]) b.
Proof. unfold valid. intros H. by rewrite skel_at_app, H. Qed.

Lemma step_valid all t s s' p k : step_ok all t s s' -> valid t s.1 p k -> valid t s'.1 p k.
Proof. unfold valid. by intros (_ & -> & _). Qed.

(** The call [f] is good on every chain of at most [S B] nodes. *)
Definition pass_ok (all : bool) (f : nat -> expr_type -> list dir -> list dir -> tree_state -> option tree_state)
    (n : nat) : Prop :=
  forall B t p1 p2 s k1 k2 a b,
    chain_type t -> skel t s.1 = Fork a b -> (size s.1 <= S B)%nat ->
    valid t s.1 p1 k1 -> valid t s.1 p2 k2 -> (ssize k1 + ssize k2 + B * (B + 3) <= n)%nat ->
    exists s', f n t p1 p2 s = Some s' /\ step_ok all t s s'.

(** Two calls in a row, as both passes make them on the children of a node. *)
Lemma pass_twice all f n B t p1 p2 q1 q2 s k1 k2 j1 j2 a b :
  pass_ok all f n -> chain_type t -> skel t s.1 = Fork a b -> (size s.1 <= S B)%nat ->
  valid t s.1 p1 k1 -> valid t s.1 p2 k2 -> (ssize k1 + ssize k2 + B * (B + 3) <= n)%nat ->
  valid t s.1 q1 j1 -> valid t s.1 q2 j2 -> (ssize j1 + ssize j2 + B * (B + 3) <= n)%nat ->
  exists s', (s ← f n t p1 p2 s; f n t q1 q2 s) = Some s' /\ step_ok all t s s'.
Proof.
  intros Hf Ht Hs HB V1 V2 Hn W1 W2 Hm.
  destruct (Hf B t p1 p2 s k1 k2 a b) as (s1 & E1 & O1); try done.
  destruct (Hf B t q1 q2 s1 j1 j2 a b) as (s2 & E2 & O2); try done.
  - by rewrite (proj1 (proj2 O1)).
  - pose proof (proj1 O1). lia.
  - by eapply step_valid.
  - by eapply step_valid.
  - exists s2. rewrite E1. split; [done|by eapply step_trans].
Qed.

(** The call on a chain of the other operator that is a leaf of this one. *)
Lemma pass_subtree all f n B t p s e :
  pass_ok all f n -> chain_type t -> (size s.1 <= S B)%nat -> valid t s.1 p Leaf -> p <> [] ->
  at_path s.1 p = Some e -> is_chain e = true -> (2 + B * (B + 3) <= S n)%nat ->
  exists s' e', on_subtree p (f n (etype e) [] []) s = Some s' /\ step_ok all t s s' /\
    at_path s'.1 p = Some e' /\ etype e' = etype e.
Proof.
  intros Hf Ht HB V Hp He Hc Hn.
  destruct (chain_node _ Hc) as [Ht' (a & b & Hk)].
  pose proof (at_size t Ht _ _ _ _ V He Hp) as Hsz.
  assert (t <> etype e) as Hne.
  { intros ->. destruct (valid_at _ Ht _ _ _ V) as (x & E & L). congruence. }
  destruct B as [|B]; [pose proof (size_pos e); lia|].
  pose proof (ssize_size (etype e) e) as Hss.
  destruct (Hf B (etype e) [] [] (e, s.2) (skel (etype e) e) (skel (etype e) e) a b) as ([e' m] & E & O);
    try done; [cbn; lia|nia|].
  pose proof (proj1 (proj2 O)) as Hk'. cbn in Hk'. rewrite Hk in Hk'.
  destruct (on_subtree_ok all t (etype e) p s e (f n (etype e) [] []) e' m) as (s' & E' & O' & A'); try done.
  { by eapply other_chain. }
  exists s', e'. split_and!; try done. by eapply skel_type.
Qed.

Lemma leaf_not_root t s p a b : skel t s = Fork a b -> valid t s p Leaf -> p <> [].
Proof. intros Hs Hv ->. unfold valid in Hv. cbn in Hv. congruence. Qed.

Lemma dups1_ok n : pass_ok true (expr_eliminate_dups1 tab) n.
Proof.
  induction n as [|n IH]; intros B t p1 p2 s k1 k2 a b Ht Hs HB V1 V2 Hn.
  { destruct k1; cbn in Hn; lia. }
  destruct (valid_at t Ht _ _ _ V1) as (e1 & E1 & L1). destruct (valid_at t Ht _ _ _ V2) as (e2 & E2 & L2).
  cbn [expr_eliminate_dups1]. rewrite E1, E2. cbn [mbind option_bind].
  destruct (is_type t e1) eqn:T1.
  { destruct (skel_fork _ _ T1 Ht) as (x & y & K). rewrite K in L1. subst k1. cbn in Hn.
    eapply (pass_twice _ _ _ B); eauto using valid_left, valid_right; cbn; lia. }
  destruct (is_type t e2) eqn:T2.
  { destruct (skel_fork _ _ T2 Ht) as (x & y & K). rewrite K in L2. subst k2. cbn in Hn.
    eapply (pass_twice _ _ _ B); eauto using valid_left, valid_right; cbn; lia. }
  apply (skel_leaf _ _ Ht) in T1, T2. assert (k1 = Leaf) as -> by congruence. assert (k2 = Leaf) as -> by congruence.
  case_bool_decide as Hp; [eexists; split; [done|apply step_refl]|].
  pose proof (leaf_not_root _ _ _ _ _ Hs V1) as Hr.
  destruct (is_chain e1) eqn:C1.
  - destruct (pass_subtree true _ n B t p1 s e1 IH Ht HB V1 Hr E1 C1 ltac:(cbn in Hn; lia)) as (s1 & e' & Q & O & _).
    rewrite Q. cbn [mbind option_bind].
    destruct (join_at_ok t p1 p2 s1) as (s2 & Q2 & O2); eauto using step_valid.
    exists s2. split; [done|by eapply step_trans].
  - cbn [mbind option_bind]. by apply join_at_ok.
Qed.

(** ** The second pass *)

Definition part_val (t : expr_type) (ep : option expr) : tristate :=
  match ep with Some e => val e | None => val (Symbol (unit_of t)) end.

(** What is moved to [ep] is taken from both. *)
Definition extracted (t : expr_type) (ep ep' : option expr) (e e' : expr) : Prop :=
  op t (part_val t ep') (val e') = op t (part_val t ep) (val e).

Lemma extract_left t ep ep1 ep2 l r l' r' :
  extracted t ep ep1 l l' -> extracted t ep1 ep2 r r' -> extracted t ep ep2 (node t l r) (node t l' r').
Proof.
  unfold extracted. rewrite !val_node. intros H1 H2.
  rewrite (op_comm t (val l')), op_assoc, H2, <- op_assoc, (op_comm t (val r)), op_assoc, H1.
  by rewrite <- op_assoc.
Qed.

Lemma extract_trans t ep ep1 ep2 e e' e'' :
  extracted t ep ep1 e e' -> extracted t ep1 ep2 e' e'' -> extracted t ep ep2 e e''.
Proof. unfold extracted. congruence. Qed.

Lemma extract_leaf t ep e1 e : val e1 = val e ->
  extracted t ep (Some (match ep with Some x => node t x e1 | None => e1 end)) e (Symbol (unit_of t)).
Proof.
  intros E. unfold extracted. rewrite (op_comm t _ (val (Symbol _))), op_unit by done.
  destruct ep as [x|]; cbn [part_val]; [by rewrite val_node, E|by rewrite op_unit, E].
Qed.

Lemma extract_eq_ok n t ep e1 e2 :
  (size e1 + size e2 <= S n)%nat ->
  exists ep' e1' e2', expr_extract_eq tab n t ep e1 e2 = Some (ep', e1', e2') /\
    extracted t ep ep' e1 e1' /\ extracted t ep ep' e2 e2' /\
    (size e1' <= size e1)%nat /\ (size e2' <= size e2)%nat.
Proof.
  revert ep e1 e2. induction n as [|n IH]; intros ep e1 e2 Hn.
  { pose proof (size_pos e1). pose proof (size_pos e2). lia. }
  cbn [expr_extract_eq]. pose proof (size_pos e1) as P1. pose proof (size_pos e2) as P2.
  destruct (split t e1) as [[l r]|] eqn:S1.
  { apply split_node in S1 as [-> _]. rewrite size_node in *. pose proof (size_pos l). pose proof (size_pos r).
    destruct (IH ep l e2) as (ep1 & l' & e2a & -> & X1 & Y1 & ? & ?); [lia|]. cbn [mbind option_bind].
    destruct (IH ep1 r e2a) as (ep2 & r' & e2b & -> & X2 & Y2 & ? & ?); [lia|].
    eexists _, _, _. split; [done|]. rewrite size_node.
    split_and!; eauto using extract_left, extract_trans; lia. }
  destruct (split t e2) as [[l r]|] eqn:S2.
  { apply split_node in S2 as [-> _]. rewrite size_node in *. pose proof (size_pos l). pose proof (size_pos r).
    destruct (IH ep e1 l) as (ep1 & e1a & l' & -> & X1 & Y1 & ? & ?); [lia|]. cbn [mbind option_bind].
    destruct (IH ep1 e1a r) as (ep2 & e1b & r' & -> & X2 & Y2 & ? & ?); [lia|].
    eexists _, _, _. split; [done|]. rewrite size_node.
    split_and!; eauto using extract_left, extract_trans; lia. }
  destruct (exprs_equal_total tab e1 e2) as [[] E]; rewrite E; cbn [mbind option_bind];
    (eexists _, _, _; split; [done|]).
  - apply (exprs_equal_val _ tab_ok) in E. split_and!; [by apply extract_leaf..|cbn; lia|cbn; lia].
  - by unfold extracted.
Qed.

(** When nothing but the unit is left of [e1], [e2] has [e1] as a part. *)
Lemma extract_whole t e1 e2 :
  exists tmp a b, extract tab t e1 e2 = Some (tmp, a, b) /\
    (a = Symbol (unit_of t) -> exists c, val e2 = op t (val e1) c).
Proof.
  unfold extract. destruct (extract_eq_ok (size e1 + size e2) t None e1 e2) as (tmp & a & b & E & X & Y & _); [lia|].
  rewrite E. cbn [mbind option_bind]. unfold extracted in X, Y. cbn [part_val] in X, Y.
  rewrite !op_unit in X, Y by done.
  assert (val a = val (Symbol (unit_of t)) -> exists c, val e2 = op t (val e1) c) as Hw.
  { intros Ha. exists (val b). rewrite <- X, <- Y, Ha. by rewrite (op_comm t _ (val (Symbol _))), op_unit. }
  destruct tmp; (eexists _, _, _; split; [done|]); intros Ha; apply Hw.
  - by rewrite <- (yn_value _ tab_ok), Ha.
  - by rewrite Ha.
Qed.

(** A chain with a part and its negation has the value that absorbs all. *)
Definition zero_of (t : expr_type) : Z := match t with E_AND => symbol_no | _ => symbol_yes end.

Lemma absorbed t v e1 c1 c2 d :
  chain_type t -> e1 <> Tmod -> v = op t c1 e1 -> v = op t c2 (op t (E_not e1) d) ->
  v = op t c1 (val (Symbol (zero_of t))).
Proof.
  intros [-> | ->] He -> E; cbn [zero_of]; rewrite ?(val_no _ tab_ok), ?(val_yes _ tab_ok).
  - by destruct c1, e1, c2, d.
  - by destruct c1, e1, c2, d.
Qed.

Lemma cancel_step t p1 p2 k2 s e1 e2 d :
  chain_type t -> valid t s.1 p1 Leaf -> valid t s.1 p2 k2 -> p1 <> [] ->
  at_path s.1 p1 = Some e1 -> at_path s.1 p2 = Some e2 ->
  val e2 = op t (E_not (val e1)) d ->
  step_ok false t s (put_path s.1 p1 (Symbol (zero_of t)), s.2 + 1).
Proof.
  intros Ht V1 V2 Hr E1 E2 Hd.
  set (z := Symbol (zero_of t)). assert (skel t z = Leaf) as Lz by (by destruct t).
  split_and!; cbn.
  - pose proof (put_size t Ht _ _ _ _ z V1 E1). pose proof (size_pos e1). subst z. cbn in *. lia.
  - apply put_skel; [done|by rewrite Lz].
  - intros H2. eapply two_put; eauto. subst z. destruct t; apply two_valued_no || apply two_valued_yes; done.
  - intros [?|H2]; [done|].
    destruct (put_val t _ _ _ Ht V1) as (c1 & H1'). destruct (put_val t _ _ _ Ht V2) as (c2 & H2').
    rewrite H1'. symmetry. apply (absorbed t _ (val e1) c1 c2 d Ht).
    + apply (two_valued_val tab). exact (two_at t _ _ _ _ Ht V1 E1 H2).
    + by rewrite <- H1', (put_same t Ht _ _ _ _ V1 E1).
    + by rewrite <- Hd, <- H2', (put_same t Ht _ _ _ _ V2 E2).
  - right. eapply (const_at t Ht _ p1 Leaf z); [|..|done|by destruct t].
    + apply put_other_valid; [done|by rewrite Lz|done].
    + by eapply (at_put t).
Qed.

Lemma is_yes_symbol e : expr_is_yes (Some e) = true -> e = Symbol symbol_yes.
Proof. destruct e; try done. cbn. by intros ->%Z.eqb_eq. Qed.
Lemma is_no_symbol e : expr_is_no (Some e) = true -> e = Symbol symbol_no.
Proof. destruct e; try done. cbn. by intros ->%Z.eqb_eq. Qed.

Lemma cancel_at_ok t p1 p2 k2 s e1 :
  chain_type t -> valid t s.1 p1 Leaf -> valid t s.1 p2 k2 -> p1 <> [] -> at_path s.1 p1 = Some e1 ->
  exists s', cancel_at tab p1 p2 s = Some s' /\ step_ok false t s s'.
Proof.
  intros Ht V1 V2 Hr E1. destruct (valid_at t Ht _ _ _ V1) as (e1' & E1' & L1).
  assert (e1' = e1) as -> by congruence.
  destruct (valid_at t Ht _ _ _ V2) as (e2 & E2 & _).
  unfold cancel_at. rewrite E1, E2. cbn [mbind option_bind].
  rewrite (transformed_nnf _ tab_ok). cbn [mbind option_bind].
  pose proof (nnf_val _ tab_ok true (Not e1)) as Hn. cbn [calc_value] in Hn.
  destruct e1 as [l r|l r| | | |]; try (eexists; split; [done|apply step_refl]).
  - assert (t = E_AND) as -> by (destruct Ht as [-> | ->]; done).
    destruct (extract_whole E_AND (nnf tab true (Not (Or l r))) e2) as (tmp & a & b & X & Hw).
    unfold expr_extract_eq_and. rewrite X. cbn [mbind option_bind]. eexists. split; [done|].
    destruct (expr_is_yes (Some a)) eqn:Hy; [|apply step_refl].
    apply is_yes_symbol in Hy. destruct (Hw Hy) as (d & Hd). rewrite Hn in Hd.
    exact (cancel_step E_AND p1 p2 k2 s _ e2 d Ht V1 V2 Hr E1 E2 Hd).
  - assert (t = E_OR) as -> by (destruct Ht as [-> | ->]; done).
    destruct (extract_whole E_OR (nnf tab true (Not (And l r))) e2) as (tmp & a & b & X & Hw).
    unfold expr_extract_eq_or. rewrite X. cbn [mbind option_bind]. eexists. split; [done|].
    destruct (expr_is_no (Some a)) eqn:Hy; [|apply step_refl].
    apply is_no_symbol in Hy. destruct (Hw Hy) as (d & Hd). rewrite Hn in Hd.
    exact (cancel_step E_OR p1 p2 k2 s _ e2 d Ht V1 V2 Hr E1 E2 Hd).
Qed.

Lemma dups2_ok n : pass_ok false (expr_eliminate_dups2 tab) n.
Proof.
  induction n as [|n IH]; intros B t p1 p2 s k1 k2 a b Ht Hs HB V1 V2 Hn.
  { destruct k1; cbn in Hn; lia. }
  destruct (valid_at t Ht _ _ _ V1) as (e1 & E1 & L1). destruct (valid_at t Ht _ _ _ V2) as (e2 & E2 & L2).
  cbn [expr_eliminate_dups2]. rewrite E1, E2. cbn [mbind option_bind].
  destruct (is_type t e1) eqn:T1.
  { destruct (skel_fork _ _ T1 Ht) as (x & y & K). rewrite K in L1. subst k1. cbn in Hn.
    eapply (pass_twice _ _ _ B); eauto using valid_left, valid_right; cbn; lia. }
  apply (skel_leaf _ _ Ht) in T1. assert (k1 = Leaf) as -> by congruence. cbn [ssize] in Hn.
  match goal with |- context [if is_type t e2 then ?x else ?y] =>
    assert (exists s1, (if is_type t e2 then x else y) = Some s1 /\ step_ok false t s s1) as (s1 & Q1 & O1)
  end.
  { destruct (is_type t e2) eqn:T2; [|eexists; split; [done|apply step_refl]].
    destruct (skel_fork _ _ T2 Ht) as (x & y & K). rewrite K in L2. subst k2. cbn in Hn.
    eapply (pass_twice _ _ _ B); eauto using valid_left, valid_right; cbn; lia. }
  rewrite Q1. cbn [mbind option_bind]. case_bool_decide as Hp; [by exists s1|].
  assert (valid t s1.1 p1 Leaf) as W1 by (by eapply step_valid).
  assert (valid t s1.1 p2 k2) as W2 by (by eapply step_valid).
  destruct (valid_at t Ht _ _ _ W1) as (f1 & F1 & _). rewrite F1. cbn [mbind option_bind].
  destruct (is_chain f1) eqn:C1; [|by exists s1].
  pose proof (leaf_not_root _ _ _ _ _ Hs V1) as Hr.
  destruct (pass_subtree false _ n B t p1 s1 f1 IH Ht ltac:(pose proof (proj1 O1); lia) W1 Hr F1 C1
    ltac:(destruct k2; cbn in Hn; lia)) as (s2 & e' & Q & O2 & A & _).
  rewrite Q. cbn [mbind option_bind].
  destruct (cancel_at_ok t p1 p2 k2 s2 e') as (s3 & -> & O3); eauto using step_valid.
  exists s3. split; [done|]. eapply step_trans; [done|]. by eapply step_trans.
Qed.

(** ** The loop *)

(** A pass over a whole chain. *)
Lemma pass_root all f e n :
  (forall m, pass_ok all f m) -> is_chain e = true ->
  exists s', f (dups_fuel e) (etype e) [] [] (e, n) = Some s' /\ step_ok all (etype e) (e, n) s'.
Proof.
  intros Hf Hc. destruct (chain_node _ Hc) as [Ht (a & b & Hk)].
  pose proof (ssize_size (etype e) e) as Hss. pose proof (size_pos e).
  eapply (Hf _ (pred (size e)) _ [] [] (e, n) (skel (etype e) e) (skel (etype e) e)); try done.
  - cbn. lia.
  - unfold dups_fuel. destruct (size e) as [|z]; [lia|]. cbn [pred]. nia.
Qed.

Lemma step_weaken all t s s' : step_ok true t s s' -> step_ok all t s s'.
Proof. intros (A1 & A2 & A3 & A4 & A5). split_and!; auto. Qed.

Lemma dups_round_ok e : exists e' n, dups_round tab e = Some (e', n) /\
  (size e' <= size e)%nat /\ (two_valued tab e -> two_valued tab e' /\ val e' = val e) /\
  (n <> 0 -> reducible e' = true).
Proof.
  unfold dups_round. destruct (is_chain e) eqn:Hc; [|eexists _, _; split; [done|]; split_and!; done].
  destruct (pass_root true _ e 0 dups1_ok Hc) as ([e1 n1] & -> & O1). cbn [mbind option_bind fst].
  destruct (chain_node _ Hc) as [Ht (a & b & Hk)].
  assert (etype e1 = etype e) as Et by (eapply skel_type, eq_trans; [exact (proj1 (proj2 O1))|exact Hk]).
  assert (is_chain e1 = true) as Hc1 by (unfold is_chain, is_type in *; by rewrite Et).
  destruct (pass_root false _ e1 n1 dups2_ok Hc1) as ([e2 n2] & -> & O2). rewrite Et in O2.
  destruct (step_trans _ _ _ _ _ (step_weaken false _ _ _ O1) O2) as (A1 & _ & A3 & A4 & A5). cbn in *.
  exists e2, n2. split_and!; auto. intros Hn. destruct A5 as [[= -> ->]|]; done.
Qed.

Lemma yn_two e : two_valued tab e -> two_valued tab (expr_eliminate_yn e).
Proof.
  induction e as [l IHl r IHr|l IHl r IHr| | | |]; try done; intros [Hl%IHl Hr%IHr].
  - cbn. repeat case_match; try done; by apply two_valued_yes.
  - cbn. repeat case_match; try done; by apply two_valued_no.
Qed.

Lemma dups_loop_ok n e : (size e < n)%nat ->
  exists e', dups_loop tab n e = Some e' /\ (size e' <= size e)%nat /\
    (two_valued tab e -> two_valued tab e' /\ val e' = val e).
Proof.
  revert e. induction n as [|n IH]; intros e Hn; [lia|].
  destruct (dups_round_ok e) as (e1 & k & E & Hs & Hv & Hr). cbn [dups_loop]. rewrite E. cbn [mbind option_bind].
  destruct (Z.eqb_spec k 0) as [->|Hk]; [by exists e1|].
  pose proof (yn_shrinks _ (Hr Hk)) as Hy.
  destruct (IH (expr_eliminate_yn e1)) as (e2 & E2 & Hs2 & Hv2); [lia|].
  exists e2. split_and!; [done|lia|]. intros [H1 V1]%Hv. destruct (Hv2 (yn_two _ H1)) as [H2 V2].
  split; [done|]. by rewrite V2, yn_value.
Qed.

End Dups.

(** ** The configuration tool's use of it *)

Definition two_valued_dep (tab : Z -> symbol) (e : option expr) : Prop :=
  match e with Some e => two_valued tab e | None => True end.

(** C40: [expr_eliminate_dups] ends on every condition - no call runs out of fuel,
    the passes over a chain with two pointers and the loop around them included -
    and its result is no larger; for conditions whose symbols are not [m] the
    result has the value of the condition. *)
Theorem eliminate_dups_keeps_value tab e :
  table_ok tab ->
  exists e', expr_eliminate_dups tab (Some e) = Some (Some e') /\ (size e' <= size e)%nat /\
    (two_valued tab e -> expr_calc_value tab (Some e') = expr_calc_value tab (Some e)).
Proof.
  intros Hok. destruct (dups_loop_ok tab Hok (S (size e)) e) as (e' & E & Hs & Hv); [lia|].
  exists e'. unfold expr_eliminate_dups. rewrite E. split_and!; [done..|]. intros [_ H]%Hv. exact H.
Qed.

(** C38: the condition of a menu entry, as [menu_finalize] computes it from the
    condition of the parent and the entry's own, is always found, and its value is
    the conjunction of the two when no symbol in them is [m]. *)
Theorem entry_dep_conjunction tab parent dep :
  table_ok tab -> two_valued_dep tab parent -> two_valued_dep tab dep ->
  exists e, entry_dep tab parent dep = Some e /\
    expr_calc_value tab e = E_and (expr_calc_value tab parent) (expr_calc_value tab dep).
Proof.
  intros Hok Hp Hd. unfold entry_dep.
  assert (exists b, (match dep with None => Some None | Some d => d' ← transformed tab d; Some (Some d') end) = Some b /\
    two_valued_dep tab b /\ expr_calc_value tab b = expr_calc_value tab dep) as (b & -> & Hb & Eb).
  { destruct dep as [d|]; [|by exists None]. rewrite (transformed_nnf _ Hok). cbn [mbind option_bind].
    eexists. split; [done|]. split; [by apply nnf_two|]. by apply (nnf_val _ Hok true d). }
  cbn [mbind option_bind].
  assert (two_valued_dep tab (expr_alloc_and parent b) /\
    expr_calc_value tab (expr_alloc_and parent b) = E_and (expr_calc_value tab parent) (expr_calc_value tab dep)) as [Ha Ea].
  { rewrite <- Eb. destruct parent as [p|], b as [d|]; cbn in *; try done.
    - by destruct (calc_value tab p).
    - by destruct (calc_value tab d). }
  destruct (expr_alloc_and parent b) as [a|]; [|by exists None].
  destruct (dups_loop_ok tab Hok (S (size a)) a) as (e' & E & _ & Hv); [lia|].
  exists (Some e'). unfold expr_eliminate_dups. rewrite E. split; [done|]. destruct (Hv Ha) as [_ H]. rewrite <- Ea. exact H.
Qed.

Definition twice : expr := And (Or (Symbol 10) (Symbol 11)) (And (Or (Symbol 11) (Symbol 10)) (Symbol 12)).
Definition contradiction_dep : expr := And (Or (Symbol 10) (Symbol 11)) (And (Not (Symbol 10)) (Not (Symbol 11))).

Lemma eliminate_dups_keeps_value_witness :
  expr_eliminate_dups (sample_table S_BOOLEAN (fun _ => Tyes)) (Some twice) =
    Some (Some (And (Or (Symbol 10) (Symbol 11)) (Symbol 12))) /\
  exists e', expr_eliminate_dups (sample_table S_BOOLEAN (fun _ => Tyes)) (Some twice) = Some (Some e') /\
    (size e' <= size twice)%nat /\ (two_valued (sample_table S_BOOLEAN (fun _ => Tyes)) twice ->
      expr_calc_value (sample_table S_BOOLEAN (fun _ => Tyes)) (Some e') = Tyes).
Proof.
  split; [vm_compute; reflexivity|].
  exact (eliminate_dups_keeps_value (sample_table S_BOOLEAN (fun _ => Tyes)) twice
    (sample_ok S_BOOLEAN (fun _ => Tyes) ltac:(discriminate))).
Defined.

Lemma entry_dep_conjunction_witness :
  exists e, entry_dep (sample_table S_BOOLEAN (fun _ => Tno)) (Some (Symbol 10)) (Some (Not (Not (Symbol 10)))) = Some e /\
    expr_calc_value (sample_table S_BOOLEAN (fun _ => Tno)) e = Tno.
Proof.
  refine (entry_dep_conjunction (sample_table S_BOOLEAN (fun _ => Tno)) (Some (Symbol 10)) (Some (Not (Not (Symbol 10)))) _ _ _).
  - apply sample_ok. discriminate.
  - discriminate.
  - discriminate.
Defined.

(** The second pass is wrong for tristate symbols: [(FOO || BAR) && !FOO && !BAR]
    is [m] when both are [m], and [expr_eliminate_dups] makes it [n], following the
    comment in the code. *)
Theorem dups_wrong_for_modules :
  let tab := sample_table S_TRISTATE (fun _ => Tmod) in
  table_ok tab /\ expr_calc_value tab (Some contradiction_dep) = Tmod /\
  exists e, expr_eliminate_dups tab (Some contradiction_dep) = Some e /\ expr_calc_value tab e = Tno.
Proof.
  split; [by apply sample_ok|]. split; [done|]. eexists. split; [vm_compute; reflexivity|done].
Qed.
