(* ===== verification/KconfMenu.v ===== *)
(** * Conditions in the menu of the configuration tool

    [menu_finalize] decides from the conditions alone which entries go below
    another one.  An entry that does is only visible when the other one is set or
    visible. *)

From S2P Require Import Prelude KconfExpr KconfSpec KconfSimplify KconfDups.

Section Menu.
Variable tab : Z -> symbol.
Hypothesis tab_ok : table_ok tab.

Abbreviation val := (calc_value tab).

(** The symbols conditions test are boolean, tristate or the constants. *)
Definition tri_leaf (s : Z) : Prop := tri_symbol tab s \/ is_Some (const_tri s).
Fixpoint typed (e : expr) : Prop :=
  match e with
  | And l r | Or l r => typed l /\ typed r
  | Not l => typed l
  | Symbol s => tri_leaf s
  | _ => True
  end.
Definition typed_dep (e : option expr) : Prop := match e with Some e => typed e | None => True end.

Lemma tri_leaf_string s : tri_leaf s -> sym_get_string_value tab s = tri_string (curr_tri (tab s)).
Proof.
  intros [Hs|[v Hv]]; [by apply string_tri|]. rewrite (string_const _ tab_ok _ _ Hv).
  revert Hv. unfold const_tri.
  destruct (Z.eqb_spec s symbol_yes) as [->|]; [by rewrite (ok_yes _ tab_ok); intros [= <-]|].
  destruct (Z.eqb_spec s symbol_mod) as [->|]; [by rewrite (ok_mod _ tab_ok); intros [= <-]|].
  destruct (Z.eqb_spec s symbol_no) as [->|]; [by rewrite (ok_no _ tab_ok); intros [= <-]|done].
Qed.

Lemma tri_leaf_same s c v : tri_leaf s -> const_tri c = Some v -> same_string tab s c = bool_decide (curr_tri (tab s) = v).
Proof.
  intros Hs Hc. unfold same_string. rewrite (tri_leaf_string _ Hs), (string_const _ tab_ok _ _ Hc).
  by destruct (curr_tri (tab s)), v.
Qed.

(** ** [expr_trans_compare] *)

Definition compare_val (eq : bool) (v w : tristate) : tristate := if eqb eq (bool_decide (v = w)) then Tyes else Tno.

Lemma negate_if_val b e : val (negate_if b e) = if b then E_not (val e) else val e.
Proof. by destruct b. Qed.

Lemma negate_if_two b e : two_valued tab (negate_if b e) <-> two_valued tab e.
Proof. by destruct b. Qed.

Lemma compare_not (eq : bool) v w : v <> Tmod -> w <> Tmod -> compare_val (negb eq) v w = compare_val eq (E_not v) w.
Proof. by destruct eq, v, w. Qed.

Lemma cmp_two_valued (b : bool) : (if b then Tyes else Tno) <> Tmod.
Proof. by destruct b. Qed.

Lemma compare_spec e (eq : bool) s v :
  two_valued tab e -> typed e -> const_tri s = Some v -> v <> Tmod ->
  exists e', expr_trans_compare e eq s = Some e' /\ two_valued tab e' /\ val e' = compare_val eq (val e) v.
Proof.
  intros He Ht Hs Hv.
  assert ((s = symbol_yes /\ v = Tyes) \/ (s = symbol_no /\ v = Tno)) as Hsv.
  { revert Hs. unfold const_tri. repeat case_match; rewrite ?Z.eqb_eq in *; intros [= <-]; auto; done. }
  revert eq. induction e as [l IHl r IHr|l IHl r IHr|l IHl|a b|a b|a]; intros eq.
  1,2: destruct He as [Hl Hr], Ht as [Tl Tr];
    destruct (IHl Hl Tl true) as (l' & El & L2 & Lv); destruct (IHr Hr Tr true) as (r' & Er & R2 & Rv);
    pose proof (two_valued_val _ _ Hl); pose proof (two_valued_val _ _ Hr);
    cbn [expr_trans_compare]; rewrite El, Er;
    destruct Hsv as [[-> ->]|[-> ->]]; cbn [mbind option_bind Z.eqb Pos.eqb symbol_yes symbol_no];
    (eexists; split; [done|]; split; [by apply negate_if_two|]);
    rewrite negate_if_val; cbn [calc_value]; rewrite Lv, Rv; destruct eq; cbn [negb];
    by destruct (val l), (val r).
  - destruct (IHl He Ht (negb eq)) as (l' & El & L2 & Lv). exists l'. cbn [expr_trans_compare].
    split_and!; [done..|]. rewrite Lv. pose proof (two_valued_val tab l He). by apply compare_not.
  - cbn [expr_trans_compare]. pose proof (cmp_two_valued (same_string tab a b)).
    destruct Hsv as [[-> ->]|[-> ->]]; cbn; (eexists; split; [done|]; split; [by apply negate_if_two|]);
      rewrite negate_if_val; cbn [calc_value]; by destruct eq, (same_string tab a b).
  - cbn [expr_trans_compare]. destruct Hsv as [[-> ->]|[-> ->]]; cbn;
      (eexists; split; [done|]; split; [by apply negate_if_two|]);
      rewrite negate_if_val; cbn [calc_value]; by destruct eq, (same_string tab a b).
  - cbn [expr_trans_compare]. eexists. split; [done|].
    destruct eq; cbn [two_valued calc_value]; rewrite (tri_leaf_same a s v) by done;
      unfold compare_val; by destruct (bool_decide (curr_tri (tab a) = v)).
Qed.

Lemma trans_compare_no e : two_valued_dep tab e -> typed_dep e ->
  exists e', trans_compare e false symbol_no = Some e' /\ two_valued tab e' /\
    val e' = compare_val false (expr_calc_value tab e) Tno.
Proof.
  intros H2 Ht. destruct e as [e|]; [by apply compare_spec|].
  exists (Not (Symbol symbol_no)). split; [done|]. cbn. by rewrite (ok_no _ tab_ok).
Qed.

Lemma compared_ok e : two_valued_dep tab e -> typed_dep e ->
  exists e', compared tab e = Some (Some e') /\ val e' = compare_val false (expr_calc_value tab e) Tno.
Proof.
  intros H2 Ht. destruct (trans_compare_no e H2 Ht) as (a & Ea & A2 & Av). unfold compared.
  rewrite Ea. cbn [mbind option_bind]. rewrite (transformed_nnf _ tab_ok). cbn [mbind option_bind].
  destruct (dups_loop_ok tab tab_ok (S (size (nnf tab true a))) (nnf tab true a)) as (e' & E & _ & Hv); [lia|].
  exists e'. unfold expr_eliminate_dups. rewrite E. split; [done|].
  destruct (Hv (nnf_two _ tab_ok true a A2)) as [_ ->]. by rewrite (nnf_val _ tab_ok true a).
Qed.

(** ** [expr_eliminate_eq] *)

Definition tri_le (a b : tristate) : Prop := tri_val a <= tri_val b.

Lemma common_le t e1 e2 e1' e2' :
  common_part tab t e1 e2 e1' e2' -> tri_le (val e1') (val e2') -> tri_le (val e1) (val e2).
Proof.
  intros (c & -> & ->). unfold tri_le.
  destruct t, c, (val e1'), (val e2'); cbn; lia.
Qed.

Lemma is_yes_val e : expr_is_yes (Some e) = true -> val e = Tyes.
Proof. intros ->%is_yes_symbol. by apply val_yes. Qed.

Lemma elim_common t e1 e2 : exists e1' e2' k, elim tab t e1 e2 = Some (e1', e2', k) /\ common_part tab t e1 e2 e1' e2'.
Proof.
  destruct (eliminate_eq_total tab (exprs_equal tab) (S (size e1 + size e2)) (size e1 + size e2) t e1 e2) as (a & b & k & E & _);
    [intros; apply exprs_equal_total|lia..|].
  exists a, b, k. split; [done|]. eapply (eliminate_eq_sound tab tab_ok); [apply (exprs_equal_val tab tab_ok)|exact E].
Qed.

(** One of the two eliminations, when its condition holds. *)
Lemma elim_if (c : bool) t e1 e2 : exists e1' e2' k,
  (if c then elim tab t e1 e2 else Some (e1, e2, 0)) = Some (e1', e2', k) /\
  (tri_le (val e1') (val e2') -> tri_le (val e1) (val e2)).
Proof.
  destruct c; [|by exists e1, e2, 0].
  destruct (elim_common t e1 e2) as (a & b & k & E & C). exists a, b, k. split; [done|]. by apply common_le with t.
Qed.

Lemma eliminate_eq_le e1 e2 : exists a b,
  expr_eliminate_eq tab e1 e2 = Some (a, b) /\
  (expr_is_yes (Some b) = true -> tri_le (val e1) (val e2)).
Proof.
  unfold expr_eliminate_eq.
  destruct (elim_if (is_chain e1) (etype e1) e1 e2) as (a & b & k & -> & Hab). cbn [mbind option_bind].
  destruct (elim_if (negb (bool_decide (etype a = etype b)) && is_chain b) (etype b) a b) as (c & d & j & -> & Hcd).
  eexists _, _. split; [done|]. intros Hy%is_yes_val. rewrite (yn_value _ tab_ok) in Hy.
  apply Hab, Hcd. rewrite Hy. unfold tri_le. by destruct (val c).
Qed.

(** ** [expr_depends_symbol] *)

Lemma depends_sound d s : tri_symbol tab s -> expr_depends_symbol d s = true -> val d <> Tno -> curr_tri (tab s) <> Tno.
Proof.
  intros Hs. induction d as [l IHl r IHr|l IHl r IHr|l IHl|a b|a b|a]; cbn; try done.
  - intros [H|H]%orb_prop Hv; [apply IHl|apply IHr]; try done; intros E; rewrite E in Hv;
      [by destruct (val r)|by destruct (val l)].
  - intros [->%Z.eqb_eq [->%Z.eqb_eq| ->%Z.eqb_eq]%orb_prop]%andb_prop Hv E; revert Hv.
    + by rewrite (same_string_const _ tab_ok s symbol_yes Tyes Hs eq_refl), E.
    + by rewrite (same_string_const _ tab_ok s symbol_mod Tmod Hs eq_refl), E.
  - intros [->%Z.eqb_eq ->%Z.eqb_eq]%andb_prop Hv E; revert Hv.
    by rewrite (same_string_const _ tab_ok s symbol_no Tno Hs eq_refl), E.
  - by intros ->%Z.eqb_eq.
Qed.

End Menu.

(** C39: for conditions whose symbols are boolean, tristate or constants and none of
    which has the value [m], the decision which entries go below another one is always
    made, and it is sound: where [menu_finalize] puts an entry with the condition [dep]
    below the entry of a boolean or tristate symbol [s], then whenever [dep] holds the
    symbol is set or its own entry is visible.  With a symbol that is [m] it is not, as
    [below_wrong_for_modules] shows. *)
Theorem entry_below_sound tab visible dep s :
  table_ok tab -> tri_symbol tab s ->
  two_valued_dep tab visible -> typed_dep tab visible -> two_valued_dep tab dep -> typed_dep tab dep ->
  exists b, entry_below tab visible dep s = Some b /\
    (b = true -> expr_calc_value tab dep <> Tno ->
     curr_tri (tab s) <> Tno \/ expr_calc_value tab visible <> Tno).
Proof.
  intros Hok Hs V2 Vt D2 Dt. unfold entry_below.
  destruct (compared_ok tab Hok visible V2 Vt) as (base & -> & Bv). cbn [mbind option_bind].
  destruct dep as [d|]; [|by exists false].
  destruct (expr_contains_symbol d s); cbn [negb]; [|by exists false].
  destruct (expr_depends_symbol d s) eqn:Hd.
  { exists true. split; [done|]. intros _ Hv. left. by eapply depends_sound. }
  destruct (compared_ok tab Hok (Some d) D2 Dt) as (e1 & -> & Ev). cbn [mbind option_bind].
  destruct (eliminate_eq_le tab Hok e1 base) as (a & b & -> & Hle). cbn [mbind option_bind].
  eexists. split; [done|]. intros Hy%Hle Hv. right. rewrite Ev, Bv in Hy. intros E. rewrite E in Hy.
  unfold tri_le, compare_val in Hy. cbn in Hy, Hv. destruct (calc_value tab d); cbn in Hy; (done || lia).
Qed.

Lemma entry_below_sound_witness :
  let tab := sample_table S_BOOLEAN (fun _ => Tyes) in
  entry_below tab (Some (Symbol 20)) (Some (And (Symbol 20) (Or (Symbol 10) (Symbol 11)))) 10 = Some true /\
  exists b, entry_below tab (Some (Symbol 20)) (Some (And (Symbol 20) (Or (Symbol 10) (Symbol 11)))) 10 = Some b /\
    (b = true -> Tyes <> Tno -> Tyes <> Tno \/ Tyes <> Tno).
Proof.
  split; [vm_compute; reflexivity|].
  refine (entry_below_sound (sample_table S_BOOLEAN (fun _ => Tyes)) (Some (Symbol 20))
    (Some (And (Symbol 20) (Or (Symbol 10) (Symbol 11)))) 10 _ _ _ _ _ _).
  - apply sample_ok. discriminate.
  - left. reflexivity.
  - discriminate.
  - left. left. reflexivity.
  - split; [discriminate|split; discriminate].
  - split; [left; left; reflexivity|split; left; left; reflexivity].
Defined.

(** With [A] = [m], [S] = [n] and [T] = [y], an entry with the condition
    [!A && (S || T)] is put below the entry of [S], which is visible if [A = n]; the
    condition is [m], but [S] is neither set nor visible. *)
Example below_wrong_for_modules :
  let tab := sample_table S_TRISTATE (fun s => if s =? 10 then Tmod else if s =? 11 then Tno else Tyes) in
  let visible := Some (Equal 10 symbol_no) in
  let dep := Some (And (Not (Symbol 10)) (Or (Symbol 11) (Symbol 12))) in
  entry_below tab visible dep 11 = Some true /\ expr_calc_value tab dep = Tmod /\
  curr_tri (tab 11) = Tno /\ expr_calc_value tab visible = Tno.
Proof. vm_compute. done. Qed.
